(* ===== verification/_CoqProject ===== *)
-Q . S2P
Prelude.v
MemoryUtil.v
Memory.v
Spinlock.v
Bitmap.v
AtomicBitmap.v
Array.v
Collections.v
ArrayList.v
HashMap.v
LinkedQueue.v
FreeList.v
MemoryManagers.v
Paging.v
Priority.v
Scheduler.v
ProcessScheduler.v
CString.v
Format.v
KString.v
StringKeys.v
RamFs.v
Filesystem.v
Boot.v
EventBus.v
RingBuffer.v
Keyboard.v
Interrupts.v
InputPath.v
Partitions.v
Tar.v
Gdb.v
Mathexpr.v
Clock.v
Mouse.v
Elf.v
Color.v
Framebuffer.v
Arguments.v
Multiboot.v
Console.v
Streams.v
Ansi.v
Files.v
Shell.v
