(* ===== verification/Prelude.v ===== *)
(** * hhuOS (huyaOS): a verification development of the kernel core

    hhuOS is a teaching operating system for 32-bit x86 in C++. This library
    models the parts of it that carry its own logic: memory (heap, block
    managers, paging), the containers and strings everything else is built
    on, threads and their scheduler, the C library, the virtual file system,
    events, the boot sequence and the tables of the boot loader, interrupts,
    keyboard, mouse and clocks, partition tables and tar archives, the loading
    of modules, the debugger, colours, frame buffer and text screen,
    streams and files, the argument parser, the shell and its calculator. Paths
    below are relative to [src/src/].

    ** How the code is modelled

    Operations are executable functions. A call returns an [outcome]: a
    value ([Ret]), a C++ exception or kernel panic ([Throw]), an access that
    has no meaning ([Fault]: null pointer, outside a buffer, freed object), or
    no result at all ([Diverge]). Code that changes an object is a state monad
    over it ([ST]); objects that are shared by pointer live in a map from
    addresses to records. Integers are [Z] with the wrap-around of their width
    ([u8], [u16], [u32]) wherever the code can leave the range. Threads that
    run concurrently are step relations whose steps are the atomic
    instructions.

    Loops that are not bounded by their data take fuel and give [Diverge] when
    it is used up. The fuel is never part of a result: theorems ask for one
    more unit than the length of the string or list the loop walks over, and
    show that the call then returns. A spinlock spins once, since on one
    processor no other code runs between two of its steps unless it is modelled
    as a step relation; a lock that is taken is therefore [Diverge].

    ** Files

    - [Prelude]: outcomes, the state monad, machine integers, tactics and the
      hint databases of the development.
    - [MemoryUtil]: [lib/memory/MemoryUtil.cpp], [lib/math/Random.cpp].
    - [Memory]: byte memory, words, the copying loops of [lib/libc/string.c].
    - [Spinlock]: [lib/async/Atomic.cpp], [Spinlock.cpp]; a step relation for
      any number of threads. Mutual exclusion holds when [getAndSet] is not
      interrupted, and fails when it is.
    - [Bitmap], [AtomicBitmap]: [lib/bit/Bitmap.cpp],
      [lib/async/AtomicBitmap.cpp] and its memory manager: first fit, blocks
      exclusive under any interleaving.
    - [Array], [Collections], [ArrayList], [HashMap]: [lib/util]. The abstract
      classes are type classes; [QueueSpec] and [MapSpec] are what clients may
      rely on, with instances for [ArrayBlockingQueue] and [HashMap].
    - [FreeList]: [kernel/memory/manager/FreeListMemoryManager.cpp], with the
      chunk headers in the managed memory. [alloc] and [free] refine first fit
      and coalescing on a list of blocks; allocations of every client are
      disjoint.
    - [MemoryManagers]: the bitmap managers, I/O memory, the static heap.
    - [Paging]: page directories as words in memory, [Paging.cpp] and the
      mapping half of [kernel/core/Management.cpp], nested page faults included.
    - [Priority]: [lib/system/priority]; [PrioritySpec] is the fairness a client
      relies on.
    - [Scheduler]: [kernel/thread]. Generic in queue and pattern, proved
      against [QueueSpec] and [PrioritySpec]: the requests refine the life
      cycle of threads, and a ready thread runs after finitely many yields.
    - [ProcessScheduler]: [kernel/process/ProcessScheduler.cpp].
    - [CString], [Format]: [lib/libc]: strings over byte memory against list
      functions, formatted output against the text a format stands for.
    - [KString]: [lib/string/String.cpp] against lists of characters.
    - [RamFs]: [filesystem/ram]: the tree of nodes against the set of its paths.
    - [Filesystem]: [filesystem/core/Filesystem.cpp]: path normalisation, mount
      points (over [MapSpec]), and the composition with [RamFs].
    - [StringKeys]: strings and pairs as keys of a hash map.
    - [LinkedQueue], [RingBuffer]: [lib/util/LinkedBlockingQueue.h],
      [LinkedList.h] with nodes on a heap; [RingBuffer.h], [SmartPointer.h] and
      [Optional.h].
    - [Boot]: [kernel/boot]: components run in the order of their
      dependencies, and the coordinator ends when they are acyclic.
    - [EventBus]: [kernel/service/EventBus.cpp], [kernel/event]: subscriptions
      (over [MapSpec]) and the delivery of events in order.
    - [Keyboard]: [device/input/Keyboard.cpp] and [Key.cpp]: from the interrupt
      to the key event.
    - [Interrupts]: [device/misc/Pic.cpp], [kernel/interrupt]: the masks of the
      interrupt controllers, the dispatcher on every branch and the thread of
      the manager that polls handlers until no data is left.
    - [InputPath]: a plugged-in keyboard composed with the dispatcher, its ring
      buffer, the manager and the publication of events.
    - [Partitions]: [device/storage/device], [kernel/service/StorageService.cpp]:
      partition tables on disk (primary entries and the linked list of logical
      partitions), partitions and virtual drives as storage devices.
    - [Tar]: [lib/file/tar], [filesystem/tar]: archives in memory and the
      read-only driver over them.
    - [Gdb]: [kernel/debug/GdbServer.cpp]: the remote protocol of the debugger,
      from characters at a port to registers and memory; a session refines an
      abstract target.
    - [Mathexpr]: [application/shell/command/Mathexpr.cpp]: the calculator with
      two stacks against the recursive evaluation of expressions.
    - [Clock]: [lib/time], [device/time], [device/misc/Cmos.cpp]: time values,
      the interval timer, the date in the registers of the clock chip.
    - [Mouse]: [device/input/Mouse.cpp]: set-up and decoding of packets.
    - [Elf]: [lib/elf], [kernel/core/Symbols.cpp]: sections and symbols of a
      module in memory and its relocation, over [MapSpec].
    - [Color], [Framebuffer]: [lib/graphic/Color.cpp], [device/graphic/lfb]:
      colours at every depth; pixels, lines, shapes and text in memory.
    - [Arguments]: [lib/util/ArgumentParser.cpp] against a left-to-right reading
      of the arguments.
    - [Multiboot]: [kernel/multiboot/Structure.cpp]: memory in use and options.
    - [Console]: [device/graphic/cga/CgaText.cpp] refines a terminal.
    - [Streams]: [lib/string/StringBuffer.cpp], [lib/stream/OutputStream.cpp]:
      buffered output of text and numbers, over the interface [SinkSpec] of what
      is behind a stream.
    - [Ansi]: [lib/stream/AnsiOutputStream.cpp]: colours on the text screen; an
      instance of [SinkSpec].
    - [Files]: [lib/file/File.cpp], [Directory.cpp], [FileStatus.cpp]: files on
      top of [Filesystem] and [RamFs].
    - [Shell]: [application/shell/Shell.cpp]: the line editor refines a list of
      characters; history; lines and the redirection of their output.

    ** What the theorems show

    Refinement: the heap, the bitmap, lists, maps, sets, strings, the scheduler,
    the file tree, the debugger's target, the text screen, output streams, the
    shell's line editor and the argument parser implement the mathematical object they stand for. Safety
    and invariants: disjoint allocations, no lost or duplicated thread, frames
    above boot memory, exclusive blocks and locks. Round trips: allocation and
    release, mapping and unmapping, printing and parsing, joining and splitting,
    writing and reading. Liveness: no ready thread starves. The theorems of the
    sections named "deviations" show inputs on which the code does not do what
    its callers expect; they are stated of the code as it is.

    ** Not modelled

    Assembly (context switches, system calls, boot code) and port or register
    I/O of the remaining device drivers (network, storage controllers, sound,
    PCI, serial ports); the construction of address spaces and the loading of
    executables; graphic modes, which are set by calls of the BIOS; floating
    point ([lib/libc/math.c], games; the mixture of translucent colours is an
    argument of the model); fonts, images and other data; vendored code (FatFs,
    the CPU identification); logging; the commands of the shell other than the
    calculator. The C++ run time is represented by what it does to the modelled
    state: constructors, copies and destructors are calls of their own where
    they matter. *)

From Stdlib Require Export ZArith Lia.
From stdpp Require Export numbers gmap base list.

#[global] Open Scope Z_scope.

(** ** Machine integers

    A [uint32_t], [uint16_t] or [uint8_t] is a [Z] in range; arithmetic that
    can leave the range is followed by the wrap-around of its width. *)

Definition u8 (x : Z) : Z := x mod 2 ^ 8.
Definition u16 (x : Z) : Z := x mod 2 ^ 16.
Definition u32 (x : Z) : Z := x mod 2 ^ 32.
Definition UINT32_MAX : Z := 2 ^ 32 - 1.

(** A 32-bit pattern read as an [int32_t]. *)
Definition s32 (x : Z) : Z :=
  let y := u32 x in if y <? 2 ^ 31 then y else y - 2 ^ 32.

(** The range predicate of the 32-bit unsigned integers, decidable. *)
Definition is_u32 (x : Z) : Prop := 0 <= x < 2 ^ 32.
Definition is_u8 (x : Z) : Prop := 0 <= x < 2 ^ 8.

#[export] Instance is_u32_dec x : Decision (is_u32 x).
Proof. unfold is_u32. apply _. Defined.

#[export] Instance is_u8_dec x : Decision (is_u8 x).
Proof. unfold is_u8. apply _. Defined.

(** ** Software exceptions of the kernel

    [Cpu::throwException] does not return: it shows a blue screen and halts.
    The constructors are those of [Cpu::Exception]. *)

Inductive Exception : Set :=
| NULLPOINTER
| OUT_OF_BOUNDS
| INVALID_ARGUMENT
| KEY_NOT_FOUND
| ILLEGAL_STATE
| OUT_OF_MEMORY
| OUT_OF_PHYS_MEMORY
| OUT_OF_PAGE_MEMORY
| ILLEGAL_PAGE_ACCESS
| UNKNOWN_TYPE
| PAGING_ERROR
| UNSUPPORTED_OPERATION.

#[export] Instance Exception_eq_dec : EqDecision Exception.
Proof. solve_decision. Defined.

(** The number of an exception, as the enumeration assigns it. *)
Definition exception_code (e : Exception) : Z :=
  match e with
  | NULLPOINTER => 0xC8
  | OUT_OF_BOUNDS => 0xC9
  | INVALID_ARGUMENT => 0xCA
  | KEY_NOT_FOUND => 0xCB
  | ILLEGAL_STATE => 0xCC
  | OUT_OF_MEMORY => 0xCD
  | OUT_OF_PHYS_MEMORY => 0xCE
  | OUT_OF_PAGE_MEMORY => 0xCF
  | ILLEGAL_PAGE_ACCESS => 0xD0
  | UNKNOWN_TYPE => 0xD1
  | PAGING_ERROR => 0xD2
  | UNSUPPORTED_OPERATION => 0xD3
  end.

(** ** Outcomes

    A fallible operation returns a value, stops in [Cpu::throwException],
    performs an access the language gives no meaning to (null or dangling
    dereference, store outside an array, division by zero), or exhausts the
    fuel its loop was given. *)

Inductive outcome (A : Type) : Type :=
| Ret (a : A)
| Throw (e : Exception)
| Fault
| Diverge.
Arguments Ret {A} a.
Arguments Throw {A} e.
Arguments Fault {A}.
Arguments Diverge {A}.

#[export] Instance outcome_ret : MRet outcome := @Ret.

#[export] Instance outcome_bind : MBind outcome := fun A B f m =>
  match m with
  | Ret a => f a
  | Throw e => Throw e
  | Fault => Fault
  | Diverge => Diverge
  end.

#[export] Instance outcome_fmap : FMap outcome := fun A B f m =>
  match m with
  | Ret a => Ret (f a)
  | Throw e => Throw e
  | Fault => Fault
  | Diverge => Diverge
  end.

(** A memory access that has a meaning only when the location exists. *)
Definition or_fault {A} (o : option A) : outcome A :=
  match o with Some a => Ret a | None => Fault end.

(** ** Lemmas on machine integers *)

Section integers.
Implicit Types x y : Z.

Lemma u32_range x : is_u32 (u32 x).
Proof. unfold is_u32, u32. apply Z.mod_pos_bound. lia. Qed.

Lemma u8_range x : is_u8 (u8 x).
Proof. unfold is_u8, u8. apply Z.mod_pos_bound. lia. Qed.

Lemma u32_small x : is_u32 x -> u32 x = x.
Proof. intros H. apply Z.mod_small. exact H. Qed.

Lemma u8_small x : is_u8 x -> u8 x = x.
Proof. intros H. apply Z.mod_small. exact H. Qed.

Lemma u32_idemp x : u32 (u32 x) = u32 x.
Proof. apply u32_small, u32_range. Qed.

Lemma u32_add_l x y : u32 (u32 x + y) = u32 (x + y).
Proof. unfold u32. apply Zplus_mod_idemp_l. Qed.

Lemma u32_sub_l x y : u32 (u32 x - y) = u32 (x - y).
Proof. unfold u32. apply Zminus_mod_idemp_l. Qed.

Lemma u32_testbit x i : 0 <= i < 32 -> Z.testbit (u32 x) i = Z.testbit x i.
Proof. intros H. unfold u32. apply Z.mod_pow2_bits_low. lia. Qed.

Lemma u32_testbit_high x i : 32 <= i -> Z.testbit (u32 x) i = false.
Proof. intros H. unfold u32. apply Z.mod_pow2_bits_high. lia. Qed.

Lemma is_u32_testbit x i : is_u32 x -> 32 <= i -> Z.testbit x i = false.
Proof. intros H Hi. rewrite <- (u32_small x H). by apply u32_testbit_high. Qed.

(** A non-negative number without bits from 32 on is a [uint32_t]. *)
Lemma is_u32_bits x :
  0 <= x -> (forall i, 32 <= i -> Z.testbit x i = false) -> is_u32 x.
Proof.
  intros H0 H. split; [done|].
  destruct (decide (x = 0)) as [->|]; [lia|].
  apply Z.log2_lt_pow2; [lia|].
  destruct (Z.lt_ge_cases (Z.log2 x) 32) as [|Hge]; [done|].
  specialize (H _ Hge). rewrite Z.bit_log2 in H by lia. done.
Qed.

Lemma is_u32_lor x y : is_u32 x -> is_u32 y -> is_u32 (Z.lor x y).
Proof.
  intros Hx Hy. apply is_u32_bits.
  - apply Z.lor_nonneg. unfold is_u32 in *. lia.
  - intros i Hi. rewrite Z.lor_spec, !is_u32_testbit by done. done.
Qed.

Lemma is_u32_land x y : is_u32 x -> 0 <= y -> is_u32 (Z.land x y).
Proof.
  intros Hx Hy. apply is_u32_bits.
  - apply Z.land_nonneg. lia.
  - intros i Hi. rewrite Z.land_spec, (is_u32_testbit x) by done. done.
Qed.

Lemma is_u32_shiftl_1 b : 0 <= b < 32 -> is_u32 (Z.shiftl 1 b).
Proof.
  intros H. rewrite Z.shiftl_1_l. split; [lia|].
  apply Z.pow_lt_mono_r; lia.
Qed.
End integers.

(** ** Lemmas on lists *)

Section lists.
Context {A : Type}.
Implicit Types (l : list A) (i j : nat).

(** Two lists of the same length with the same elements are equal. *)
Lemma list_eq_by_lookup l1 l2 :
  length l1 = length l2 ->
  (forall i, (i < length l1)%nat -> l1 !! i = l2 !! i) -> l1 = l2.
Proof.
  intros Hl H. apply list_eq. intros i.
  destruct (decide (i < length l1)%nat) as [Hi|Hi]; [by apply H|].
  rewrite !lookup_ge_None_2; [done|lia|lia].
Qed.

Lemma list_find_None_not_in `{EqDecision A} x l :
  list_find (fun y => x = y) l = None -> x ∉ l.
Proof.
  intros Hf Hin. apply list_find_None in Hf.
  rewrite Forall_forall in Hf. by apply (Hf x).
Qed.

Lemma filter_all (P : A -> Prop) `{!forall x, Decision (P x)} l : (forall x, x ∈ l -> P x) -> filter P l = l.
Proof.
  induction l as [|x l IH]; intros Hl; [done|]. rewrite filter_cons_True by (apply Hl; left). f_equal. apply IH. intros y Hy. apply Hl. by right.
Qed.

Lemma lookup_lt_is_Some_ex l i : (i < length l)%nat -> exists x, l !! i = Some x.
Proof. intros H. apply lookup_lt_is_Some_2 in H as [x Hx]. by exists x. Qed.
End lists.

(** ** Automation

    [outcome] evaluates binds whose first component is known; [inv_outcome]
    turns equations between outcomes into equations between their values. *)

Create HintDb hhu discriminated.
Create Rewrite HintDb hhu.

#[export] Hint Resolve u32_range u8_range is_u32_lor is_u32_land is_u32_shiftl_1 : hhu.

Ltac outcome :=
  cbn [mbind mret fmap outcome_bind outcome_ret outcome_fmap or_fault fst snd] in *.

Ltac inv_outcome :=
  repeat match goal with
  | H : Ret _ = Ret _ |- _ => injection H as H; try subst
  | H : Ret _ = Throw _ |- _ => discriminate H
  | H : Throw _ = Ret _ |- _ => discriminate H
  | H : Ret _ = Fault |- _ => discriminate H
  | H : Fault = Ret _ |- _ => discriminate H
  | H : Ret _ = Diverge |- _ => discriminate H
  | H : Diverge = Ret _ |- _ => discriminate H
  end.

(** Wrap-arounds of values known to be in range disappear. *)
Ltac wrap_small :=
  repeat match goal with
  | |- context [u32 ?x] => rewrite (u32_small x) by (unfold is_u32 in *; lia)
  end.

(** Case analysis on the boolean comparisons a definition branches on. *)
Ltac case_bool :=
  repeat match goal with
  | |- context [Z.ltb ?x ?y] => destruct (Z.ltb_spec x y)
  | |- context [Z.leb ?x ?y] => destruct (Z.leb_spec x y)
  | |- context [Z.eqb ?x ?y] => destruct (Z.eqb_spec x y)
  end.

(** One guard of an [if] at a time. *)
Ltac split_guard :=
  match goal with
  | |- context [if Z.ltb ?x ?y then _ else _] => destruct (Z.ltb_spec x y)
  | |- context [if Z.leb ?x ?y then _ else _] => destruct (Z.leb_spec x y)
  | |- context [if Z.eqb ?x ?y then _ else _] => destruct (Z.eqb_spec x y)
  end.

(** Comparisons decided by the context become [true] or [false]. *)
Ltac decide_bool :=
  repeat match goal with
  | |- context [Z.ltb ?x ?y] =>
      first [ rewrite (proj2 (Z.ltb_lt x y)) by lia
            | rewrite (proj2 (Z.ltb_ge x y)) by lia ]
  | |- context [Z.leb ?x ?y] =>
      first [ rewrite (proj2 (Z.leb_le x y)) by lia
            | rewrite (proj2 (Z.leb_gt x y)) by lia ]
  | |- context [Z.eqb ?x ?y] =>
      first [ rewrite (proj2 (Z.eqb_eq x y)) by lia
            | rewrite (proj2 (Z.eqb_neq x y)) by lia ]
  end.

Ltac decide_bool_in H :=
  repeat match type of H with
  | context [Z.ltb ?x ?y] =>
      first [ rewrite (proj2 (Z.ltb_lt x y)) in H by lia
            | rewrite (proj2 (Z.ltb_ge x y)) in H by lia ]
  | context [Z.leb ?x ?y] =>
      first [ rewrite (proj2 (Z.leb_le x y)) in H by lia
            | rewrite (proj2 (Z.leb_gt x y)) in H by lia ]
  | context [Z.eqb ?x ?y] =>
      first [ rewrite (proj2 (Z.eqb_eq x y)) in H by lia
            | rewrite (proj2 (Z.eqb_neq x y)) in H by lia ]
  end.

Lemma outcome_bind_assoc {A B C} (m : outcome A) (f : A -> outcome B) (g : B -> outcome C) :
  (m ≫= f) ≫= g = m ≫= (fun a => f a ≫= g).
Proof. by destruct m. Qed.

Lemma outcome_bind_Ret {A} (m : outcome A) : m ≫= Ret = m.
Proof. by destruct m. Qed.

Lemma bind_Ret_inv {A B} (m : outcome A) (f : A -> outcome B) b :
  m ≫= f = Ret b -> exists a, m = Ret a /\ f a = Ret b.
Proof. destruct m; outcome; intros H; inv_outcome; eauto. Qed.

(** ** Folding a fallible body over a list *)

Fixpoint foldM {A S} (f : A -> S -> outcome S) (l : list A) (s : S) : outcome S :=
  match l with
  | [] => Ret s
  | x :: l => s ← f x s; foldM f l s
  end.

Lemma foldM_app {A S} (f : A -> S -> outcome S) l1 l2 s :
  foldM f (l1 ++ l2) s = (s ← foldM f l1 s; foldM f l2 s).
Proof.
  revert s. induction l1 as [|x l1 IH]; intros s; simpl; [done|].
  destruct (f x s); outcome; auto.
Qed.

Lemma foldM_concat {A S} (f : A -> S -> outcome S) (ls : list (list A)) s :
  foldM (foldM f) ls s = foldM f (concat ls) s.
Proof.
  revert s. induction ls as [|l ls IH]; intros s; simpl; [done|].
  rewrite foldM_app. destruct (foldM f l s); outcome; auto.
Qed.

Lemma foldM_fmap {A B S} (g : A -> B) (f : B -> S -> outcome S) l s :
  foldM (fun x => f (g x)) l s = foldM f (g <$> l) s.
Proof.
  revert s. induction l as [|x l IH]; intros s; [done|]. rewrite fmap_cons. cbn [foldM].
  destruct (f (g x) s); outcome; auto.
Qed.

(** ** State passing

    Code that threads an object's state through fallible steps. *)

Definition ST (S A : Type) : Type := S -> outcome (A * S).

#[export] Instance ST_ret {S} : MRet (ST S) := fun A a s => Ret (a, s).

#[export] Instance ST_bind {S} : MBind (ST S) := fun A B f c s =>
  match c s with
  | Ret (a, s') => f a s'
  | Throw e => Throw e
  | Fault => Fault
  | Diverge => Diverge
  end.

Definition gets {S A} (f : S -> A) : ST S A := fun s => Ret (f s, s).
Definition modify {S} (f : S -> S) : ST S unit := fun s => Ret (tt, f s).
Definition throw {S A} (e : Exception) : ST S A := fun _ => Throw e.
Definition fault {S A} : ST S A := fun _ => Fault.
Definition diverge {S A} : ST S A := fun _ => Diverge.

(** Running a state passing program one step further. *)
Ltac st_step :=
  cbv beta iota delta [mbind mret ST_bind ST_ret gets modify throw fault diverge].

Lemma ST_bind_Ret {S A B} (c : ST S A) (f : A -> ST S B) s a s' :
  c s = Ret (a, s') -> (c ≫= f) s = f a s'.
Proof. intros H. unfold mbind, ST_bind. by rewrite H. Qed.

Lemma ST_bind_Diverge {S A B} (c : ST S A) (f : A -> ST S B) s :
  c s = Diverge -> (c ≫= f) s = Diverge.
Proof. intros H. unfold mbind, ST_bind. by rewrite H. Qed.
