(* ===== verification/MemoryUtil.v ===== *)
(** * Small arithmetic helpers of the kernel library

    [lib/memory/MemoryUtil.cpp] ([alignUp]) and [lib/math/Random.cpp] (the
    linear congruential generator). *)

From S2P Require Import Prelude.

(** ** MemoryUtil *)

(** [(value + alignment) & ~alignment] after [alignment--], at 32 bits. *)
Definition alignUp (value alignment : Z) : Z :=
  if alignment =? 0 then value
  else
    let alignment := u32 (alignment - 1) in
    Z.land (u32 (value + alignment)) (u32 (Z.lnot alignment)).

Lemma land_not_ones x n :
  is_u32 x -> 0 <= n <= 32 ->
  Z.land x (u32 (Z.lnot (2 ^ n - 1))) = x - x mod 2 ^ n.
Proof.
  intros Hx Hn.
  replace (x - x mod 2 ^ n) with (Z.shiftl (Z.shiftr x n) n).
  2: { rewrite Z.shiftl_mul_pow2, Z.shiftr_div_pow2 by lia.
       pose proof (Z.div_mod x (2 ^ n) ltac:(apply Z.pow_nonzero; lia)). lia. }
  replace (2 ^ n - 1) with (Z.ones n) by (rewrite Z.ones_equiv; lia).
  apply Z.bits_inj'. intros i Hi.
  rewrite Z.land_spec, Z.shiftl_spec by lia.
  destruct (Z.lt_ge_cases i 32) as [Hlt|Hge].
  - rewrite u32_testbit, Z.lnot_spec by lia.
    destruct (Z.lt_ge_cases i n).
    + rewrite Z.ones_spec_low, (Z.testbit_neg_r _ (i - n)) by lia. by rewrite andb_false_r.
    + rewrite Z.ones_spec_high, Z.shiftr_spec by lia.
      rewrite Z.sub_add. by rewrite andb_true_r.
  - rewrite u32_testbit_high, andb_false_r by lia.
    rewrite Z.shiftr_spec, Z.sub_add by lia. by rewrite is_u32_testbit.
Qed.

(** For a power of two, [alignUp] rounds up to the next multiple. *)
Lemma alignUp_pow2 value n :
  0 <= value -> 0 <= n < 32 -> value + (2 ^ n - 1) < 2 ^ 32 ->
  alignUp value (2 ^ n) = value + (2 ^ n - 1) - (value + (2 ^ n - 1)) mod 2 ^ n.
Proof.
  intros Hv Hn Hs. unfold alignUp.
  assert (0 < 2 ^ n < 2 ^ 32).
  { split; [lia|]. apply Z.pow_lt_mono_r; lia. }
  decide_bool. wrap_small.
  rewrite land_not_ones; [done|unfold is_u32; lia|lia].
Qed.

(** The result is the least multiple not below [value]. *)
Lemma alignUp_spec value n :
  0 <= value -> 0 <= n < 32 -> value + (2 ^ n - 1) < 2 ^ 32 ->
  (2 ^ n | alignUp value (2 ^ n)) /\
  value <= alignUp value (2 ^ n) < value + 2 ^ n.
Proof.
  intros Hv Hn Hs. rewrite alignUp_pow2 by done.
  set (p := 2 ^ n) in *. set (y := value + (p - 1)).
  assert (0 < p) by (subst p; apply Z.pow_pos_nonneg; lia).
  pose proof (Z.mod_pos_bound y p ltac:(lia)).
  pose proof (Z.div_mod y p ltac:(lia)).
  split; [|lia]. exists (y / p). lia.
Qed.

Lemma alignUp_0 value : alignUp value 0 = value.
Proof. done. Qed.

(** Rounding a size to a multiple of four, the only use with a constant. *)
Lemma alignUp_4 value :
  0 <= value -> value + 3 < 2 ^ 32 ->
  (4 | alignUp value 4) /\ value <= alignUp value 4 < value + 4.
Proof. intros. apply (alignUp_spec value 2); lia. Qed.

Lemma alignUp_4_id value : is_u32 value -> value + 3 < 2 ^ 32 -> (4 | value) -> alignUp value 4 = value.
Proof.
  intros [? ?] ? [k ->]. change 4 with (2 ^ 2) in *.
  rewrite alignUp_pow2 by lia. change (2 ^ 2) with 4 in *.
  replace (k * 4 + (4 - 1)) with (3 + k * 4) by lia.
  rewrite Z.mod_add by lia. change (3 mod 4) with 3. lia.
Qed.

(** ** Random *)

Record Random := mkRandom { seed : Z; maxRand : Z }.

(** [rand()]: advance the seed, then reduce its upper half. The division by a
    zero [maxRand] has no meaning. *)
Definition rand (r : Random) : outcome (Z * Random) :=
  let seed' := u32 (seed r * 1103515255 + 12345) in
  if maxRand r =? 0 then Fault
  else Ret (u32 (seed' / 65536) mod maxRand r, mkRandom seed' (maxRand r)).

Definition rand_max (maxRand' : Z) (r : Random) : outcome (Z * Random) :=
  let seed' := u32 (seed r * 1103515255 + 12345) in
  if maxRand' =? 0 then Fault
  else Ret (u32 (seed' / 65536) mod maxRand', mkRandom seed' (maxRand r)).

Definition setSeed (s : Z) (r : Random) : Random := mkRandom s (maxRand r).

Lemma rand_bounds r x r' :
  0 < maxRand r -> rand r = Ret (x, r') -> 0 <= x < maxRand r /\ x < 2 ^ 16 /\ is_u32 (seed r').
Proof.
  unfold rand. intros Hm. decide_bool. intros H. inv_outcome. simplify_eq. simpl.
  set (s := u32 (seed r * 1103515255 + 12345)).
  assert (Hs : is_u32 s) by apply u32_range.
  assert (0 <= s / 65536 < 2 ^ 16).
  { unfold is_u32 in Hs. split; [apply Z.div_pos; lia|apply Z.div_lt_upper_bound; lia]. }
  rewrite (u32_small (s / 65536)) by (unfold is_u32; lia).
  pose proof (Z.mod_pos_bound (s / 65536) (maxRand r) Hm).
  split; [lia|]. split; [|done].
  pose proof (Z.mod_le (s / 65536) (maxRand r) ltac:(lia) ltac:(lia)). lia.
Qed.
