(* ===== verification/Memory.v ===== *)
(** * Byte memory

    The memory the kernel sees through its page tables: every address holds a
    byte, since a page that is not mapped yet is mapped by the page fault
    handler on first access. Words are little endian. The copying and filling
    loops are those of [lib/libc/string.c]. *)

From S2P Require Import Prelude.

Definition Mem : Type := Z -> Z.

Definition load8 (m : Mem) (a : Z) : Z := m a.
Definition store8 (m : Mem) (a v : Z) : Mem := fun x => if x =? a then v else m x.

Definition load32 (m : Mem) (a : Z) : Z :=
  m a + 2 ^ 8 * m (a + 1) + 2 ^ 16 * m (a + 2) + 2 ^ 24 * m (a + 3).

Definition store32 (m : Mem) (a v : Z) : Mem :=
  store8 (store8 (store8 (store8 m a (v mod 2 ^ 8))
    (a + 1) (v / 2 ^ 8 mod 2 ^ 8)) (a + 2) (v / 2 ^ 16 mod 2 ^ 8)) (a + 3) (v / 2 ^ 24 mod 2 ^ 8).

Definition load16 (m : Mem) (a : Z) : Z := m a + 2 ^ 8 * m (a + 1).
Definition store16 (m : Mem) (a v : Z) : Mem := store8 (store8 m a (v mod 2 ^ 8)) (a + 1) (v / 2 ^ 8 mod 2 ^ 8).

(** Every cell is a byte. *)
Definition bytes (m : Mem) : Prop := forall a, is_u8 (m a).

(** ** Loops of [string.c] *)

(** [n] rounds of a loop body that is given the index. *)
Fixpoint upto {S} (n : nat) (i : Z) (body : Z -> S -> S) (s : S) : S :=
  match n with
  | O => s
  | Datatypes.S n => upto n (i + 1) body (body i s)
  end.

Definition memcpy (dest src n : Z) (m : Mem) : Mem :=
  upto (Z.to_nat n) 0 (fun i m => store8 m (dest + i) (load8 m (src + i))) m.

Definition memset (s c n : Z) (m : Mem) : Mem :=
  upto (Z.to_nat n) 0 (fun i m => store8 m (s + i) (u8 c)) m.

(** ** Lemmas *)

Lemma store8_eq m a v : store8 m a v a = v.
Proof. unfold store8. by rewrite Z.eqb_refl. Qed.

Lemma store8_ne m a v x : x <> a -> store8 m a v x = m x.
Proof. intros H. unfold store8. by decide_bool. Qed.

Lemma store32_outside m a v x : x < a \/ a + 4 <= x -> store32 m a v x = m x.
Proof. intros H. unfold store32. rewrite !store8_ne by lia. done. Qed.

Lemma bytes_recompose v :
  is_u32 v ->
  v mod 2 ^ 8 + 2 ^ 8 * (v / 2 ^ 8 mod 2 ^ 8) + 2 ^ 16 * (v / 2 ^ 16 mod 2 ^ 8)
  + 2 ^ 24 * (v / 2 ^ 24 mod 2 ^ 8) = v.
Proof.
  intros H. unfold is_u32 in H.
  pose proof (Z.div_mod v (2 ^ 8) ltac:(lia)).
  pose proof (Z.div_mod (v / 2 ^ 8) (2 ^ 8) ltac:(lia)).
  pose proof (Z.div_mod (v / 2 ^ 16) (2 ^ 8) ltac:(lia)).
  rewrite Z.div_div in * by lia.
  replace (2 ^ 8 * 2 ^ 8) with (2 ^ 16) in * by done.
  replace (2 ^ 16 * 2 ^ 8) with (2 ^ 24) in * by done.
  assert (v / 2 ^ 24 mod 2 ^ 8 = v / 2 ^ 24) as ->.
  { apply Z.mod_small. split; [apply Z.div_pos; lia|apply Z.div_lt_upper_bound; lia]. }
  lia.
Qed.

Lemma load_store32_eq m a v : is_u32 v -> load32 (store32 m a v) a = v.
Proof.
  intros H. unfold load32, store32.
  rewrite !store8_eq, ?store8_ne, ?store8_eq, ?store8_ne, ?store8_eq, ?store8_ne, ?store8_eq by lia.
  by apply bytes_recompose.
Qed.

Lemma load32_ext m m' a :
  (forall x, a <= x < a + 4 -> m' x = m x) -> load32 m' a = load32 m a.
Proof. intros H. unfold load32. rewrite !H by lia. done. Qed.

Lemma load_store32_ne m a v b :
  b + 4 <= a \/ a + 4 <= b -> load32 (store32 m a v) b = load32 m b.
Proof. intros H. apply load32_ext. intros x Hx. apply store32_outside. lia. Qed.

Lemma load32_range m a : bytes m -> is_u32 (load32 m a).
Proof.
  intros H. pose proof (H a). pose proof (H (a + 1)). pose proof (H (a + 2)). pose proof (H (a + 3)).
  unfold load32, is_u32, is_u8 in *. lia.
Qed.

Lemma bytes_store8 m a v : bytes m -> is_u8 v -> bytes (store8 m a v).
Proof. intros H Hv x. unfold store8. case_bool; [done|apply H]. Qed.

Lemma bytes_store32 m a v : bytes m -> bytes (store32 m a v).
Proof.
  intros H. unfold store32. repeat apply bytes_store8; try done;
    apply (Z.mod_pos_bound _ (2 ^ 8)); lia.
Qed.

(** Half words. *)

Lemma load16_ext m m' a : m' a = m a -> m' (a + 1) = m (a + 1) -> load16 m' a = load16 m a.
Proof. intros H1 H2. unfold load16. by rewrite H1, H2. Qed.

Lemma store16_outside m a v x : x < a \/ a + 2 <= x -> store16 m a v x = m x.
Proof. intros Hx. unfold store16. rewrite !store8_ne by lia. done. Qed.

Lemma load16_store16 m a v : load16 (store16 m a (u16 v)) a = u16 v.
Proof.
  unfold load16, store16. rewrite store8_eq, store8_ne, store8_eq by lia. unfold u16. pose proof (Z.mod_pos_bound v (2 ^ 16) ltac:(lia)). set (w := v mod 2 ^ 16) in *.
  rewrite (Z.mod_small (w / 2 ^ 8)) by (split; [apply Z.div_pos; lia|apply Z.div_lt_upper_bound; lia]). pose proof (Z.div_mod w (2 ^ 8) ltac:(lia)). lia.
Qed.

Lemma load32_store16_ne m a v b : b + 4 <= a \/ a + 2 <= b -> load32 (store16 m a v) b = load32 m b.
Proof. intros H. apply load32_ext. intros x Hx. apply store16_outside. lia. Qed.

Lemma load16_store16_ne m a v b : b + 2 <= a \/ a + 2 <= b -> load16 (store16 m a v) b = load16 m b.
Proof. intros H. apply load16_ext; apply store16_outside; lia. Qed.

Lemma load16_store32_ne m a v b : b + 2 <= a \/ a + 4 <= b -> load16 (store32 m a v) b = load16 m b.
Proof. intros H. apply load16_ext; apply store32_outside; lia. Qed.

Lemma bytes_store16 m a v : bytes m -> bytes (store16 m a v).
Proof. intros H. unfold store16. repeat apply bytes_store8; try done; apply (Z.mod_pos_bound _ (2 ^ 8)); lia. Qed.

#[export] Hint Resolve bytes_store8 bytes_store32 load32_range : hhu.

(** Writing [n] bytes from [d] on leaves the rest of memory alone. *)
Lemma upto_store8_outside n i d (f : Z -> Mem -> Z) m x :
  0 <= i -> x < d + i \/ d + i + Z.of_nat n <= x ->
  upto n i (fun i m => store8 m (d + i) (f i m)) m x = m x.
Proof.
  revert i m. induction n as [|n IH]; intros i m Hi Hx; [done|]. cbn [upto].
  rewrite IH by lia. apply store8_ne. lia.
Qed.

Lemma memcpy_outside d s n m x : x < d \/ d + n <= x -> memcpy d s n m x = m x.
Proof.
  intros H. unfold memcpy. apply (upto_store8_outside _ _ _ (fun i m => load8 m (s + i))); [lia|].
  destruct (Z.le_gt_cases 0 n); [lia|]. replace (Z.to_nat n) with 0%nat by lia. lia.
Qed.

Lemma memset_outside d c n m x : x < d \/ d + n <= x -> memset d c n m x = m x.
Proof.
  intros H. unfold memset. apply (upto_store8_outside _ _ _ (fun _ _ => u8 c)); [lia|].
  destruct (Z.le_gt_cases 0 n); [lia|]. replace (Z.to_nat n) with 0%nat by lia. lia.
Qed.

(** A forward copy reads every source byte before it is overwritten unless the
    destination starts inside the source. *)
Lemma upto_copy n i d s m x :
  d <= s \/ s + i + Z.of_nat n <= d + i -> 0 <= i ->
  d + i <= x < d + i + Z.of_nat n ->
  upto n i (fun i m => store8 m (d + i) (load8 m (s + i))) m x = m (s + (x - d)).
Proof.
  revert i m. induction n as [|n IH]; intros i m Hs Hi Hx; [lia|]. cbn [upto].
  destruct (decide (x = d + i)) as [->|Hne].
  - rewrite (upto_store8_outside _ _ _ (fun i m => load8 m (s + i))) by lia.
    rewrite store8_eq. unfold load8. f_equal. lia.
  - rewrite IH by lia. destruct (decide (s + (x - d) = d + i)) as [E|E]; [lia|].
    by rewrite store8_ne.
Qed.

Lemma memcpy_inside d s n m x :
  d <= s \/ s + n <= d -> d <= x < d + n -> memcpy d s n m x = m (s + (x - d)).
Proof. intros Hs Hx. unfold memcpy. apply upto_copy; lia. Qed.

Lemma memset_inside d c n m x : d <= x < d + n -> memset d c n m x = u8 c.
Proof.
  intros Hx. unfold memset.
  assert (forall k i m, 0 <= i -> d + i <= x < d + i + Z.of_nat k ->
    upto k i (fun i m => store8 m (d + i) (u8 c)) m x = u8 c) as H.
  { induction k as [|k IH]; intros i m' Hi Hk; [lia|]. cbn [upto].
    destruct (decide (x = d + i)) as [->|].
    - rewrite (upto_store8_outside _ _ _ (fun _ _ => u8 c)) by lia. apply store8_eq.
    - apply IH; lia. }
  apply H; lia.
Qed.

Lemma bytes_memset d c n m : bytes m -> bytes (memset d c n m).
Proof.
  intros Hb. unfold memset. generalize (Z.to_nat n) as k. generalize 0 as i. intros i k.
  revert i m Hb. induction k as [|k IH]; intros i m Hb; [done|]. cbn [upto].
  apply IH, bytes_store8; [done|apply u8_range].
Qed.
