(* ===== verification/Spinlock.v ===== *)
(** * [Atomic] and [Spinlock]

    [lib/async/Atomic.cpp], [Atomic.h], [Spinlock.cpp], [Spinlock.h], [Lock.h].
    The instructions with a [lock] prefix are single steps; [getAndSet] loads
    the value with an ordinary load before its [lock cmpxchg], so that on a
    preemptive kernel another thread can run in between. The sequential
    operations say what one thread sees, the step relation what several do. *)

From S2P Require Import Prelude.

(** ** [Atomic<T>] for an unsigned [T] of [w] bits *)

Record Atomic := mkAtomic { value : Z }.

Definition new_Atomic (v : Z) : Atomic := mkAtomic v.

(** [lock xchg]: the old value stays in the register and is dropped. *)
Definition exchange (newValue : Z) (a : Atomic) : Atomic := mkAtomic newValue.

(** [lock xadd] *)
Definition fetchAndAdd_ptr (w : Z) (addend : Z) (a : Atomic) : Z * Atomic :=
  (value a, mkAtomic ((value a + addend) mod 2 ^ w)).

(** [lock cmpxchg]: stores only if the old value is the expected one; the
    accumulator holds the value that was in memory. *)
Definition compareAndExchange (oldValue newValue : Z) (a : Atomic) : Z * Atomic :=
  if value a =? oldValue then (oldValue, mkAtomic newValue) else (value a, a).

Definition getAndSet (newValue : Z) (a : Atomic) : Z * Atomic :=
  compareAndExchange (value a) newValue a.

Definition get (a : Atomic) : Z := value a.
Definition set (newValue : Z) (a : Atomic) : Atomic := exchange newValue a.

(** The copy constructor and the assignment of [Atomic]. *)
Definition copy_Atomic (other : Atomic) : Atomic := mkAtomic (value other).
Definition assign_Atomic (a other : Atomic) : Atomic := set (value other) a.

Definition fetchAndAdd (w : Z) (addend : Z) (a : Atomic) : Z * Atomic := fetchAndAdd_ptr w addend a.

(** [subtrahend * (-1)] is converted back to [T]. *)
Definition fetchAndSub (w : Z) (subtrahend : Z) (a : Atomic) : Z * Atomic :=
  fetchAndAdd_ptr w ((subtrahend * (-1)) mod 2 ^ w) a.

Definition fetchAndInc (w : Z) (a : Atomic) : Z * Atomic := fetchAndAdd_ptr w 1 a.
Definition fetchAndDec (w : Z) (a : Atomic) : Z * Atomic := fetchAndAdd_ptr w ((-1) mod 2 ^ w) a.

(** The specialisations for [bool]. *)
Definition fetchAndAdd_bool (addend : bool) (a : Atomic) : outcome (Z * Atomic) :=
  Throw UNSUPPORTED_OPERATION.
Definition fetchAndSub_bool (subtrahend : bool) (a : Atomic) : outcome (Z * Atomic) :=
  Throw UNSUPPORTED_OPERATION.

(** ** [Spinlock], one thread at a time *)

Definition SPINLOCK_UNLOCK : Z := 0x00.
Definition SPINLOCK_LOCK : Z := 0x01.

Record Spinlock := mkSpinlock { lockVar : Atomic }.

Definition new_Spinlock : Spinlock := mkSpinlock (new_Atomic SPINLOCK_UNLOCK).

(** The [while] loop of [acquire]. *)
Fixpoint acquire (fuel : nat) (s : Spinlock) : outcome Spinlock :=
  match fuel with
  | O => Diverge
  | S fuel =>
      let '(old, v) := getAndSet SPINLOCK_LOCK (lockVar s) in
      if negb (old =? SPINLOCK_UNLOCK) then acquire fuel (mkSpinlock v) else Ret (mkSpinlock v)
  end.

Definition tryAcquire (s : Spinlock) : bool * Spinlock :=
  let '(old, v) := getAndSet SPINLOCK_LOCK (lockVar s) in
  (old =? SPINLOCK_UNLOCK, mkSpinlock v).

Definition release (s : Spinlock) : Spinlock := mkSpinlock (set SPINLOCK_UNLOCK (lockVar s)).

Definition isLocked (s : Spinlock) : bool := get (lockVar s) =? SPINLOCK_LOCK.

(** A lock that is free is taken at the first try. *)
Lemma lock_free (l : Spinlock) : l = new_Spinlock -> exists lk, acquire 1 l = Ret lk /\ release lk = new_Spinlock.
Proof. intros ->. eexists. split; reflexivity. Qed.

(** ** [Spinlock], several threads

    Where a thread is: outside, at the head of the loop of [acquire], between
    the load and the [cmpxchg] of [getAndSet] with the loaded value, or inside
    its critical section. *)

Inductive position :=
| Outside
| Trying
| Loaded (v : Z)
| Inside.

#[export] Instance position_eq_dec : EqDecision position.
Proof. solve_decision. Defined.

Record system := mkSystem { lock_ : Spinlock; at_pos : nat -> position }.

Definition goto (t : nat) (p : position) (f : nat -> position) : nat -> position :=
  fun u => if decide (u = t) then p else f u.

(** The outcome of the [cmpxchg] of a thread that loaded [v]: inside, or back
    at the head of the loop. *)
Definition after_cmpxchg (old : Z) : position :=
  if negb (old =? SPINLOCK_UNLOCK) then Trying else Inside.

(** [preempt] says whether a thread can be interrupted between its load and its
    [cmpxchg]; without it [getAndSet] is one step. *)
Inductive step (preempt : bool) : system -> system -> Prop :=
| step_call s t :
    at_pos s t = Outside ->
    step preempt s (mkSystem (lock_ s) (goto t Trying (at_pos s)))
| step_load s t :
    preempt = true -> at_pos s t = Trying ->
    step preempt s (mkSystem (lock_ s) (goto t (Loaded (get (lockVar (lock_ s)))) (at_pos s)))
| step_cmpxchg s t v old a :
    at_pos s t = Loaded v -> compareAndExchange v SPINLOCK_LOCK (lockVar (lock_ s)) = (old, a) ->
    step preempt s (mkSystem (mkSpinlock a) (goto t (after_cmpxchg old) (at_pos s)))
| step_getAndSet s t old a :
    preempt = false -> at_pos s t = Trying ->
    getAndSet SPINLOCK_LOCK (lockVar (lock_ s)) = (old, a) ->
    step preempt s (mkSystem (mkSpinlock a) (goto t (after_cmpxchg old) (at_pos s)))
| step_release s t :
    at_pos s t = Inside ->
    step preempt s (mkSystem (release (lock_ s)) (goto t Outside (at_pos s))).

Definition initial : system := mkSystem new_Spinlock (fun _ => Outside).

Definition reachable (preempt : bool) (s : system) : Prop := rtc (step preempt) initial s.

(** ** Lemmas *)

Lemma getAndSet_swap n a : getAndSet n a = (value a, mkAtomic n).
Proof. unfold getAndSet, compareAndExchange. by rewrite Z.eqb_refl. Qed.

Lemma goto_eq t p f : goto t p f t = p.
Proof. unfold goto. by rewrite decide_True. Qed.

Lemma goto_ne t u p f : u <> t -> goto t p f u = f u.
Proof. intros H. unfold goto. by rewrite decide_False. Qed.

(** The lock word says whether somebody is inside, and nobody is halfway
    through [getAndSet]. *)
Definition lock_inv (s : system) : Prop :=
  (forall t v, at_pos s t <> Loaded v) /\
  (isLocked (lock_ s) = true \/ lockVar (lock_ s) = mkAtomic SPINLOCK_UNLOCK) /\
  (forall t, at_pos s t = Inside -> isLocked (lock_ s) = true) /\
  (forall t u, at_pos s t = Inside -> at_pos s u = Inside -> t = u).

Ltac case_goto :=
  repeat match goal with
  | H : context [goto ?t ?p ?f ?u] |- _ =>
      destruct (decide (u = t)) as [->|];
      [rewrite goto_eq in H|rewrite goto_ne in H by done]
  | |- context [goto ?t ?p ?f ?u] =>
      destruct (decide (u = t)) as [->|];
      [rewrite goto_eq|rewrite goto_ne by done]
  end.

Lemma lock_inv_step s s' : lock_inv s -> step false s s' -> lock_inv s'.
Proof.
  intros (Hl & Hv & Hin & Hex) Hs.
  destruct Hs as [s t Hp|s t Hpre|s t v old a Hp|s t old a _ Hp Hg|s t Hp]; try done.
  - split_and!; simpl; intros; case_goto; eauto; congruence.
  - by apply Hl in Hp.
  - rewrite getAndSet_swap in Hg. injection Hg as <- <-. unfold after_cmpxchg.
    destruct Hv as [Hv|Hv].
    + unfold isLocked, get in Hv. apply Z.eqb_eq in Hv. rewrite Hv. simpl.
      split_and!; simpl; intros; case_goto; eauto; try congruence; by left.
    + rewrite Hv. simpl.
      assert (Hno : forall u, at_pos s u <> Inside).
      { intros u Hu%Hin. unfold isLocked in Hu. by rewrite Hv in Hu. }
      split_and!; simpl; intros; case_goto; eauto; try congruence; try (by left);
        exfalso; by eapply Hno.
  - split_and!; simpl; intros; case_goto; eauto; try congruence.
Qed.

(** ** Theorems *)

(** C36. As long as no thread is interrupted inside [getAndSet], a [Spinlock]
    gives mutual exclusion: in every reachable state at most one thread is
    between [acquire] and [release], and then [isLocked] reports it. *)
Theorem spinlock_mutual_exclusion s t u :
  reachable false s -> at_pos s t = Inside -> at_pos s u = Inside ->
  t = u /\ isLocked (lock_ s) = true.
Proof.
  intros Hr Ht Hu.
  assert (Hinv : lock_inv s).
  { unfold reachable in Hr. eapply (rtc_ind_r lock_inv); [|by eauto using lock_inv_step|exact Hr].
    split_and!; simpl; try done. by right. }
  destruct Hinv as (_ & _ & Hin & Hex). split; [by apply Hex|by eapply Hin].
Qed.

Lemma reachable_step preempt s s' : reachable preempt s -> step preempt s s' -> reachable preempt s'.
Proof. intros H Hs. eapply rtc_r; eauto. Qed.

(** One more step of an execution. *)
Ltac advance R tac :=
  let R' := fresh "R" in
  eassert (R' : reachable _ _) by (eapply reachable_step; [exact R|tac]);
  clear R; rename R' into R.

Lemma spinlock_mutual_exclusion_witness :
  exists s, at_pos s 0%nat = Inside /\ at_pos s 1%nat = Trying /\ isLocked (lock_ s) = true.
Proof.
  assert (Hr : reachable false initial) by apply rtc_refl.
  advance Hr ltac:(by eapply (step_call _ _ 0%nat)).
  advance Hr ltac:(by eapply (step_getAndSet _ _ 0%nat)).
  advance Hr ltac:(by eapply (step_call _ _ 1%nat)).
  advance Hr ltac:(by eapply (step_getAndSet _ _ 1%nat)).
  match type of Hr with reachable _ ?s =>
    destruct (spinlock_mutual_exclusion s 0 0 Hr) as [_ Hl]; [reflexivity|reflexivity|];
    exists s; split_and!; [reflexivity|reflexivity|exact Hl] end.
Defined.

(** With preemption between the load and the [cmpxchg] the lock is not
    exclusive: two threads can be inside at the same time. A thread that loads
    the locked value and is interrupted until the owner has released the lock
    takes the failed [cmpxchg], which returns the unlocked value without
    storing, for an acquisition. *)
Theorem spinlock_preempted_two_owners :
  exists s, reachable true s /\ at_pos s 1%nat = Inside /\ at_pos s 2%nat = Inside.
Proof.
  assert (R : reachable true initial) by apply rtc_refl.
  advance R ltac:(by eapply (step_call _ _ 0%nat)).
  advance R ltac:(by eapply (step_load _ _ 0%nat)).
  advance R ltac:(by eapply (step_cmpxchg _ _ 0%nat)).
  advance R ltac:(by eapply (step_call _ _ 1%nat)).
  advance R ltac:(by eapply (step_load _ _ 1%nat)).
  advance R ltac:(by eapply (step_release _ _ 0%nat)).
  advance R ltac:(by eapply (step_cmpxchg _ _ 1%nat)).
  advance R ltac:(by eapply (step_call _ _ 2%nat)).
  advance R ltac:(by eapply (step_load _ _ 2%nat)).
  advance R ltac:(by eapply (step_cmpxchg _ _ 2%nat)).
  eexists. split; [exact R|]. split; reflexivity.
Qed.

(** Sequentially the lock behaves as its interface says: [tryAcquire]
    succeeds exactly on a free lock and leaves it locked, [acquire] returns on a
    free lock and spins for ever on a held one, [release] frees it again. *)
Theorem spinlock_sequential s n :
  (isLocked s = true \/ s = new_Spinlock) ->
  fst (tryAcquire s) = negb (isLocked s) /\ isLocked (snd (tryAcquire s)) = true /\
  acquire (S n) s = (if isLocked s then Diverge else Ret (snd (tryAcquire s))) /\
  isLocked (release s) = false /\ release (snd (tryAcquire s)) = new_Spinlock.
Proof.
  intros Hs. split_and!.
  - unfold tryAcquire. rewrite getAndSet_swap. simpl. unfold isLocked, get in *.
    destruct Hs as [Hs| ->]; [|done]. apply Z.eqb_eq in Hs. by rewrite Hs.
  - unfold tryAcquire. by rewrite getAndSet_swap.
  - destruct Hs as [Hs| ->]; [|done]. rewrite Hs.
    revert s Hs. induction n as [|n IH]; intros s Hs; cbn [acquire]; rewrite getAndSet_swap;
      unfold isLocked, get in Hs; apply Z.eqb_eq in Hs; rewrite Hs; simpl; [done|].
    by apply (IH (mkSpinlock (mkAtomic SPINLOCK_LOCK))).
  - done.
  - unfold tryAcquire. by rewrite getAndSet_swap.
Qed.

Lemma spinlock_sequential_witness :
  acquire 5 new_Spinlock = Ret (mkSpinlock (mkAtomic 1)) /\
  acquire 5 (mkSpinlock (mkAtomic 1)) = Diverge.
Proof.
  split.
  - destruct (spinlock_sequential new_Spinlock 4) as (_ & _ & -> & _); [by right|reflexivity].
  - destruct (spinlock_sequential (mkSpinlock (mkAtomic 1)) 4) as (_ & _ & -> & _); [by left|reflexivity].
Defined.
