(* ===== verification/Bitmap.v ===== *)
(** * [Bitmap]

    [lib/bit/Bitmap.cpp]: a bitmap over an array of 32-bit words, block 0 in
    the most significant bit of word 0.

    The model keeps the words. [bit bm b] is the abstract view (is block [b]
    reserved), every operation is characterised through it, and
    [findAndSet_first_fit] states what the allocators rely on. *)

From S2P Require Import Prelude.

Record Bitmap := mkBitmap {
  bitmap : list Z;
  arraySize : Z;
  blocks : Z
}.

(** ** Construction *)

Definition words_for (blockCount : Z) : Z :=
  if blockCount mod 32 =? 0 then blockCount / 32 else blockCount / 32 + 1.

(** [Bitmap(blockCount)]: a zeroed array with room for every block. *)
Definition new_Bitmap (blockCount : Z) : Bitmap :=
  let arraySize := words_for blockCount in
  mkBitmap (replicate (Z.to_nat arraySize) 0) arraySize blockCount.

Definition getSize (bm : Bitmap) : Z := blocks bm.

(** ** Single blocks *)

(** [bitmap[index]], and the store to it. *)
Definition word (bm : Bitmap) (index : Z) : Z :=
  default 0 (bitmap bm !! Z.to_nat index).

Definition store (bm : Bitmap) (index v : Z) : Bitmap :=
  mkBitmap (<[Z.to_nat index := v]> (bitmap bm)) (arraySize bm) (blocks bm).

Definition set (bm : Bitmap) (block : Z) : Bitmap :=
  if blocks bm <=? block then bm
  else
    let index := block / 32 in
    let bit := block mod 32 in
    store bm index (Z.lor (word bm index) (Z.shiftl 1 (31 - bit))).

Definition unset (bm : Bitmap) (block : Z) : Bitmap :=
  if blocks bm <=? block then bm
  else
    let index := block / 32 in
    let bit := block mod 32 in
    store bm index (Z.land (word bm index) (u32 (Z.lnot (Z.shiftl 1 (31 - bit))))).

Definition check (bm : Bitmap) (block : Z) (set : bool) : bool :=
  if blocks bm <=? block then false
  else
    let index := block / 32 in
    let bit := block mod 32 in
    let masked := Z.land (word bm index) (Z.shiftl 1 (31 - bit)) in
    if set then negb (masked =? 0) else masked =? 0.

(** ** Ranges

    The loops count [i] from 0 to [length]; the fuel is the number of
    iterations left. *)

Fixpoint setRange_loop (n : nat) (i startBlock : Z) (bm : Bitmap) : Bitmap :=
  match n with
  | O => bm
  | S n =>
      if blocks bm <=? u32 (startBlock + i) then bm
      else setRange_loop n (i + 1) startBlock (set bm (u32 (startBlock + i)))
  end.

Definition setRange (bm : Bitmap) (startBlock length : Z) : Bitmap :=
  setRange_loop (Z.to_nat length) 0 startBlock bm.

Fixpoint unsetRange_loop (n : nat) (i startBlock : Z) (bm : Bitmap) : Bitmap :=
  match n with
  | O => bm
  | S n =>
      if blocks bm <=? u32 (startBlock + i) then bm
      else unsetRange_loop n (i + 1) startBlock (unset bm (u32 (startBlock + i)))
  end.

Definition unsetRange (bm : Bitmap) (startBlock length : Z) : Bitmap :=
  unsetRange_loop (Z.to_nat length) 0 startBlock bm.

Fixpoint checkRange_loop (n : nat) (i startBlock : Z) (set : bool) (bm : Bitmap) : bool :=
  match n with
  | O => true
  | S n =>
      if blocks bm <=? u32 (startBlock + i) then true
      else if negb (check bm (u32 (startBlock + i)) set) then false
      else checkRange_loop n (i + 1) startBlock set bm
  end.

Definition checkRange (bm : Bitmap) (startBlock length : Z) (set : bool) : bool :=
  checkRange_loop (Z.to_nat length) 0 startBlock set bm.

(** [Bitmap(blockCount, reservedBlocksAtBeginning)]: the member [blocks] keeps
    its default 0. *)
Definition new_Bitmap_reserved (blockCount reservedBlocksAtBeginning : Z) : Bitmap :=
  let arraySize := words_for blockCount in
  setRange (mkBitmap (replicate (Z.to_nat arraySize) 0) arraySize 0)
           0 reservedBlocksAtBeginning.

(** ** Searching *)

Fixpoint findNext_loop (n : nat) (i : Z) (set : bool) (bm : Bitmap) : Z :=
  match n with
  | O => blocks bm
  | S n => if check bm i set then i else findNext_loop n (i + 1) set bm
  end.

Definition findNext (bm : Bitmap) (startBlock : Z) (set : bool) : Z :=
  findNext_loop (Z.to_nat (blocks bm - startBlock)) startBlock set bm.

Fixpoint findAndSet_loop (fuel : nat) (currentBlock blockCount : Z) (bm : Bitmap)
    : outcome (Z * Bitmap) :=
  match fuel with
  | O => Diverge
  | S fuel =>
      if currentBlock <? blocks bm then
        let nextSet := findNext bm currentBlock true in
        if blockCount <=? u32 (nextSet - currentBlock)
        then Ret (currentBlock, setRange bm currentBlock blockCount)
        else findAndSet_loop fuel (findNext bm nextSet false) blockCount bm
      else Ret (blocks bm, bm)
  end.

(** The search position grows in every iteration, so one more iteration than
    there are blocks suffices. *)
Definition findAndSet (bm : Bitmap) (blockCount : Z) : outcome (Z * Bitmap) :=
  findAndSet_loop (S (Z.to_nat (blocks bm))) 0 blockCount bm.

(** ** Well-formedness and the abstract view *)

Record wf (bm : Bitmap) : Prop := {
  wf_blocks : is_u32 (blocks bm);
  wf_words : Z.of_nat (length (bitmap bm)) = arraySize bm;
  wf_room : blocks bm <= 32 * arraySize bm;
  wf_range : Forall is_u32 (bitmap bm)
}.

Definition bit (bm : Bitmap) (b : Z) : bool :=
  Z.testbit (word bm (b / 32)) (31 - b mod 32).

(** ** Lemmas on single blocks *)

Section words.
Implicit Types (bm : Bitmap) (b c : Z).

Lemma blocks_store bm i v : blocks (store bm i v) = blocks bm.
Proof. done. Qed.

Lemma blocks_set bm b : blocks (set bm b) = blocks bm.
Proof. unfold set. by case_bool. Qed.

Lemma blocks_unset bm b : blocks (unset bm b) = blocks bm.
Proof. unfold unset. by case_bool. Qed.

(** Every block below [blocks] lives in a word of the array. *)
Lemma index_in_range bm b :
  wf bm -> 0 <= b < blocks bm ->
  0 <= b / 32 /\ (Z.to_nat (b / 32) < length (bitmap bm))%nat.
Proof.
  intros [_ Hlen Hroom _] Hb.
  assert (0 <= b / 32) by (apply Z.div_pos; lia).
  assert (b / 32 < arraySize bm) by (apply Z.div_lt_upper_bound; lia).
  lia.
Qed.

Lemma word_range bm i : wf bm -> is_u32 (word bm i).
Proof.
  intros Hwf. unfold word. destruct (bitmap bm !! Z.to_nat i) as [w|] eqn:E; simpl.
  - by apply (Forall_lookup_1 _ _ _ _ (wf_range _ Hwf) E).
  - unfold is_u32. lia.
Qed.

Lemma word_store bm i j v :
  (Z.to_nat i < length (bitmap bm))%nat -> 0 <= i -> 0 <= j ->
  word (store bm i v) j = if i =? j then v else word bm j.
Proof.
  intros Hi H0i H0j. unfold word, store. simpl. case_bool.
  - subst. by rewrite list_lookup_insert_eq.
  - rewrite list_lookup_insert_ne by lia. done.
Qed.

Lemma wf_store bm i v : wf bm -> is_u32 v -> wf (store bm i v).
Proof.
  intros [H1 H2 H3 H4] Hv. constructor; simpl; [done|by rewrite length_insert|done|].
  by apply Forall_insert.
Qed.

Lemma bit_pos_range b : 0 <= 31 - b mod 32 < 32.
Proof. pose proof (Z.mod_pos_bound b 32). lia. Qed.

Lemma same_position b c :
  (31 - b mod 32 =? 31 - c mod 32) && (b / 32 =? c / 32) = (b =? c).
Proof.
  pose proof (Z.div_mod b 32 ltac:(lia)). pose proof (Z.div_mod c 32 ltac:(lia)).
  destruct (Z.eqb_spec b c) as [->|Hne]; [by rewrite !Z.eqb_refl|].
  case_bool; simpl; try done. lia.
Qed.

Lemma testbit_one_shift k i : 0 <= k -> 0 <= i -> Z.testbit (Z.shiftl 1 k) i = (i =? k).
Proof.
  intros Hk Hi. rewrite Z.shiftl_1_l. case_bool.
  - subst. by apply Z.pow2_bits_true.
  - by apply Z.pow2_bits_false.
Qed.

Lemma wf_set bm b : wf bm -> wf (set bm b).
Proof.
  intros Hwf. unfold set. case_bool; [done|]. apply wf_store; [done|].
  apply is_u32_lor; [by apply word_range|apply is_u32_shiftl_1, bit_pos_range].
Qed.

Lemma wf_unset bm b : wf bm -> wf (unset bm b).
Proof.
  intros Hwf. unfold unset. case_bool; [done|]. apply wf_store; [done|].
  apply is_u32_land; [by apply word_range|]. apply u32_range.
Qed.

Lemma bit_set bm b c :
  wf bm -> 0 <= b -> 0 <= c < blocks bm ->
  bit (set bm b) c = (b =? c) || bit bm c.
Proof.
  intros Hwf Hb Hc. unfold set. split_guard; [by decide_bool|].
  destruct (index_in_range bm b) as [Hi0 Hi]; [done|lia|].
  destruct (index_in_range bm c) as [Hc0 _]; [done|lia|].
  pose proof (bit_pos_range b). pose proof (bit_pos_range c).
  unfold bit. rewrite word_store by done.
  rewrite <- (same_position b c), (andb_comm (_ =? _)).
  destruct (Z.eqb_spec (b / 32) (c / 32)) as [->|]; [|done]. simpl.
  rewrite Z.lor_spec, testbit_one_shift, Z.eqb_sym by lia.
  apply orb_comm.
Qed.

Lemma bit_unset bm b c :
  wf bm -> 0 <= b -> 0 <= c < blocks bm ->
  bit (unset bm b) c = negb (b =? c) && bit bm c.
Proof.
  intros Hwf Hb Hc. unfold unset. split_guard; [by decide_bool|].
  destruct (index_in_range bm b) as [Hi0 Hi]; [done|lia|].
  destruct (index_in_range bm c) as [Hc0 _]; [done|lia|].
  pose proof (bit_pos_range b). pose proof (bit_pos_range c).
  unfold bit. rewrite word_store by done.
  rewrite <- (same_position b c), (andb_comm (_ =? _)).
  destruct (Z.eqb_spec (b / 32) (c / 32)) as [->|]; simpl.
  - rewrite Z.land_spec, u32_testbit, Z.lnot_spec, testbit_one_shift by lia.
    rewrite (Z.eqb_sym (31 - c mod 32)). apply andb_comm.
  - done.
Qed.

Lemma check_bit bm b s :
  wf bm -> 0 <= b -> check bm b s = (b <? blocks bm) && Bool.eqb (bit bm b) s.
Proof.
  intros Hwf Hb. unfold check. rewrite Z.ltb_antisym.
  split_guard; [by decide_bool|]. decide_bool. simpl. unfold bit.
  pose proof (bit_pos_range b) as Hp.
  set (w := word bm (b / 32)). set (k := 31 - b mod 32) in *.
  assert (Hm : Z.land w (Z.shiftl 1 k) = if Z.testbit w k then Z.shiftl 1 k else 0).
  { apply Z.bits_inj'. intros i Hi. rewrite Z.land_spec, testbit_one_shift by lia.
    destruct (Z.eqb_spec i k) as [->|Hne].
    - destruct (Z.testbit w k); rewrite ?testbit_one_shift, ?Z.testbit_0_l by lia; try done.
      by rewrite Z.eqb_refl.
    - rewrite andb_false_r. destruct (Z.testbit w k);
        rewrite ?testbit_one_shift, ?Z.testbit_0_l by lia; [|done].
      symmetry. by apply Z.eqb_neq. }
  rewrite Hm. destruct (Z.testbit w k), s; try done;
    rewrite Z.shiftl_1_l; assert (0 < 2 ^ k) by (apply Z.pow_pos_nonneg; lia);
    decide_bool; done.
Qed.
End words.

#[export] Hint Rewrite blocks_store blocks_set blocks_unset : hhu.
#[export] Hint Resolve wf_set wf_unset word_range : hhu.

(** ** Lemmas on ranges *)

Section ranges.
Implicit Types (bm : Bitmap) (b c : Z).

Lemma blocks_setRange_loop n i s bm : blocks (setRange_loop n i s bm) = blocks bm.
Proof.
  revert i bm. induction n as [|n IH]; intros i bm; simpl; [done|].
  split_guard; [done|]. by rewrite IH, blocks_set.
Qed.

Lemma wf_setRange_loop n i s bm : wf bm -> wf (setRange_loop n i s bm).
Proof.
  revert i bm. induction n as [|n IH]; intros i bm Hwf; simpl; [done|].
  split_guard; [done|]. apply IH. by apply wf_set.
Qed.

(** The start of an iteration is still inside the bitmap or one past it, so
    [startBlock + i] never wraps. *)
Lemma bit_setRange_loop n i s bm c :
  wf bm -> 0 <= s -> 0 <= i -> s + i <= blocks bm -> 0 <= c < blocks bm ->
  bit (setRange_loop n i s bm) c
  = (s + i <=? c) && (c <? s + i + Z.of_nat n) || bit bm c.
Proof.
  revert i bm. induction n as [|n IH]; intros i bm Hwf Hs Hi Hsi Hc.
  - simpl. destruct (bit bm c); case_bool; simpl; try done; lia.
  - cbn [setRange_loop]. pose proof (wf_blocks _ Hwf) as Hb.
    wrap_small. split_guard.
    + case_bool; simpl; try done; lia.
    + rewrite IH; rewrite ?blocks_set; try lia; [|by apply wf_set].
      rewrite bit_set by (try done; lia).
      destruct (bit bm c); rewrite ?orb_true_r, ?orb_false_r; [done|].
      case_bool; simpl; try done; lia.
Qed.

Lemma blocks_setRange bm s n : blocks (setRange bm s n) = blocks bm.
Proof. apply blocks_setRange_loop. Qed.

Lemma wf_setRange bm s n : wf bm -> wf (setRange bm s n).
Proof. apply wf_setRange_loop. Qed.

Lemma setRange_loop_beyond n i s bm :
  wf bm -> 0 <= i -> blocks bm <= s -> s + i < 2 ^ 32 -> setRange_loop n i s bm = bm.
Proof.
  intros Hwf Hi Hs Hr. destruct n; simpl; [done|].
  pose proof (wf_blocks _ Hwf) as [? ?]. wrap_small. by decide_bool.
Qed.

Lemma bit_setRange bm s n c :
  wf bm -> is_u32 s -> 0 <= n -> 0 <= c < blocks bm ->
  bit (setRange bm s n) c = (s <=? c) && (c <? s + n) || bit bm c.
Proof.
  intros Hwf [Hs Hs'] Hn Hc. unfold setRange.
  destruct (Z.le_gt_cases s (blocks bm)) as [Hle|Hgt].
  - rewrite bit_setRange_loop by (try done; lia).
    rewrite Z.add_0_r, Z2Nat.id by done. done.
  - rewrite setRange_loop_beyond by (try done; lia). by decide_bool.
Qed.

Lemma blocks_unsetRange_loop n i s bm : blocks (unsetRange_loop n i s bm) = blocks bm.
Proof.
  revert i bm. induction n as [|n IH]; intros i bm; simpl; [done|].
  split_guard; [done|]. by rewrite IH, blocks_unset.
Qed.

Lemma wf_unsetRange_loop n i s bm : wf bm -> wf (unsetRange_loop n i s bm).
Proof.
  revert i bm. induction n as [|n IH]; intros i bm Hwf; simpl; [done|].
  split_guard; [done|]. apply IH. by apply wf_unset.
Qed.

Lemma bit_unsetRange_loop n i s bm c :
  wf bm -> 0 <= s -> 0 <= i -> s + i <= blocks bm -> 0 <= c < blocks bm ->
  bit (unsetRange_loop n i s bm) c
  = negb ((s + i <=? c) && (c <? s + i + Z.of_nat n)) && bit bm c.
Proof.
  revert i bm. induction n as [|n IH]; intros i bm Hwf Hs Hi Hsi Hc.
  - simpl. destruct (bit bm c); case_bool; simpl; try done; lia.
  - cbn [unsetRange_loop]. pose proof (wf_blocks _ Hwf) as Hb.
    wrap_small. split_guard.
    + case_bool; simpl; try done; lia.
    + rewrite IH; rewrite ?blocks_unset; try lia; [|by apply wf_unset].
      rewrite bit_unset by (try done; lia).
      destruct (bit bm c); rewrite ?andb_false_r, ?andb_true_r; [|done].
      case_bool; simpl; try done; lia.
Qed.

Lemma bit_unsetRange bm s n c :
  wf bm -> 0 <= s <= blocks bm -> 0 <= n -> 0 <= c < blocks bm ->
  bit (unsetRange bm s n) c = negb ((s <=? c) && (c <? s + n)) && bit bm c.
Proof.
  intros Hwf Hs Hn Hc. unfold unsetRange.
  rewrite bit_unsetRange_loop by (try done; lia).
  by rewrite Z.add_0_r, Z2Nat.id by done.
Qed.

Lemma checkRange_loop_spec n i s v bm :
  wf bm -> 0 <= s -> 0 <= i -> s + i <= blocks bm ->
  checkRange_loop n i s v bm = true <->
  (forall c, s + i <= c < s + i + Z.of_nat n -> c < blocks bm -> bit bm c = v).
Proof.
  revert i. induction n as [|n IH]; intros i Hwf Hs Hi Hsi.
  - simpl. split; [lia|done].
  - cbn [checkRange_loop]. pose proof (wf_blocks _ Hwf) as Hb. wrap_small.
    split_guard; [split; [lia|done]|].
    rewrite check_bit by (try done; lia). decide_bool. simpl.
    destruct (Bool.eqb_spec (bit bm (s + i)) v) as [Hv|Hv]; simpl.
    + rewrite IH by (try done; lia). split; intros H' c Hc1 Hc2.
      * destruct (decide (c = s + i)) as [->|]; [done|]. apply H'; lia.
      * apply H'; lia.
    + split; [done|]. intros H'. destruct Hv. apply H'; lia.
Qed.
End ranges.

(** ** Lemmas on the search *)

Section search.
Implicit Types (bm : Bitmap) (b c : Z).

Lemma findNext_loop_spec n i v bm :
  wf bm -> 0 <= i -> i + Z.of_nat n = blocks bm ->
  let r := findNext_loop n i v bm in
  i <= r <= blocks bm /\
  (forall c, i <= c < r -> bit bm c = negb v) /\
  (r < blocks bm -> bit bm r = v).
Proof.
  revert i. induction n as [|n IH]; intros i Hwf Hi Hn; simpl; [split_and!; lia|].
  rewrite check_bit by done. decide_bool. simpl.
  destruct (Bool.eqb_spec (bit bm i) v) as [Hv|Hv].
  - split_and!; [lia|lia|lia|done].
  - destruct (IH (i + 1)) as (Hr & Hlow & Hhit); [done|lia|lia|].
    split_and!; [lia|lia| |done].
    intros c Hc. destruct (decide (c = i)) as [->|]; [|apply Hlow; lia].
    destruct (bit bm i), v; done.
Qed.

Lemma findNext_spec bm s v :
  wf bm -> 0 <= s <= blocks bm ->
  let r := findNext bm s v in
  s <= r <= blocks bm /\
  (forall c, s <= c < r -> bit bm c = negb v) /\
  (r < blocks bm -> bit bm r = v).
Proof. intros Hwf Hs. apply findNext_loop_spec; [done|lia|lia]. Qed.

(** A run of [k] free blocks starting at [b]. *)
Definition free_run bm b k : Prop :=
  0 <= b /\ b + k <= blocks bm /\ forall c, b <= c < b + k -> bit bm c = false.

(** What one search from [cur] finds: the lowest free run that starts at or
    after [cur], provided no run starts before it. *)
Lemma findAndSet_loop_spec fuel cur k bm :
  wf bm -> 0 < k < 2 ^ 32 -> 0 <= cur <= blocks bm ->
  blocks bm - cur < Z.of_nat fuel ->
  (forall b, 0 <= b < cur -> ~ free_run bm b k) ->
  exists r bm', findAndSet_loop fuel cur k bm = Ret (r, bm') /\
    (forall b, 0 <= b < r -> ~ free_run bm b k) /\
    ((r < blocks bm /\ free_run bm r k /\ bm' = setRange bm r k)
     \/ (r = blocks bm /\ bm' = bm)).
Proof.
  intros Hwf Hk. pose proof (wf_blocks _ Hwf) as [Hb0 Hb1].
  revert cur. induction fuel as [|fuel IH]; intros cur Hcur Hfuel Hmin; [lia|].
  cbn [findAndSet_loop]. split_guard.
  2: { exists (blocks bm), bm. split; [done|]. replace (blocks bm) with cur by lia. auto. }
  destruct (findNext_spec bm cur true) as (Hn & Hfree & Hset); [done|lia|].
  set (nxt := findNext bm cur true) in *.
  destruct (findNext_spec bm nxt false) as (Hm & Hused & _); [done|lia|].
  set (cur' := findNext bm nxt false) in *.
  wrap_small. split_guard.
  - exists cur, (setRange bm cur k). split; [done|]. split; [done|]. left.
    unfold free_run. split_and!; [lia|lia|lia| |done]. intros c Hc. apply Hfree. lia.
  - assert (cur < cur').
    { destruct (decide (cur = nxt)) as [E|]; [|lia].
      destruct (decide (nxt = cur')) as [E'|]; [|lia].
      destruct (findNext_spec bm nxt false) as (_ & _ & Hx); [done|lia|].
      fold cur' in Hx. rewrite <- E', Hset in Hx by lia.
      specialize (Hx ltac:(lia)). discriminate Hx. }
    apply IH; [lia|lia|]. intros b Hbr Hrun. pose proof Hrun as [_ [Hrun1 Hrun2]].
    destruct (decide (b < cur)); [apply (Hmin b); [lia|done]|].
    destruct (decide (b < nxt)).
    + specialize (Hset ltac:(lia)). rewrite Hrun2 in Hset by lia. done.
    + specialize (Hused b ltac:(lia)). rewrite Hrun2 in Hused by lia. done.
Qed.
End search.

(** ** The bitmap as a list of flags *)

Definition view (bm : Bitmap) : list bool :=
  (fun i => bit bm (Z.of_nat i)) <$> seq 0 (Z.to_nat (blocks bm)).

Section view.
Implicit Types (bm : Bitmap) (b c : Z).

Lemma length_view bm : length (view bm) = Z.to_nat (blocks bm).
Proof. unfold view. by rewrite length_fmap, length_seq. Qed.

Lemma lookup_view bm (i : nat) :
  (i < Z.to_nat (blocks bm))%nat -> view bm !! i = Some (bit bm (Z.of_nat i)).
Proof.
  intros Hi. unfold view. rewrite list_lookup_fmap, lookup_seq_lt by done. done.
Qed.

Lemma view_ext bm bm' f :
  blocks bm' = blocks bm ->
  (forall c, 0 <= c < blocks bm -> bit bm' c = f c) ->
  view bm' = (fun i => f (Z.of_nat i)) <$> seq 0 (Z.to_nat (blocks bm)).
Proof.
  intros Hb Hbit. unfold view. rewrite Hb.
  apply list_fmap_ext. intros i x Hx. apply lookup_seq in Hx as [-> Hx].
  apply Hbit. simpl. lia.
Qed.

Lemma view_insert bm bm' b v :
  0 <= b < blocks bm -> blocks bm' = blocks bm ->
  (forall c, 0 <= c < blocks bm -> bit bm' c = if b =? c then v else bit bm c) ->
  view bm' = <[Z.to_nat b := v]> (view bm).
Proof.
  intros Hb Hbl Hbit. apply list_eq_by_lookup.
  - by rewrite length_insert, !length_view, Hbl.
  - intros i Hi. rewrite length_view, Hbl in Hi.
    rewrite lookup_view by (rewrite Hbl; lia). rewrite Hbit by lia.
    destruct (Z.eqb_spec b (Z.of_nat i)) as [->|Hne].
    + rewrite Nat2Z.id, list_lookup_insert_eq; [done|]. rewrite length_view. lia.
    + rewrite list_lookup_insert_ne by lia. by rewrite lookup_view by lia.
Qed.

Lemma wf_new_Bitmap n : is_u32 n -> wf (new_Bitmap n).
Proof.
  intros [H0 H1]. pose proof (Z.div_mod n 32 ltac:(lia)). pose proof (Z.mod_pos_bound n 32).
  assert (0 <= n / 32) by (apply Z.div_pos; lia).
  unfold new_Bitmap, words_for. constructor; simpl.
  - done.
  - rewrite length_replicate. split_guard; lia.
  - split_guard; lia.
  - apply Forall_replicate. unfold is_u32. lia.
Qed.

Lemma bit_new_Bitmap n c : bit (new_Bitmap n) c = false.
Proof.
  unfold bit, word, new_Bitmap. simpl.
  destruct (replicate _ 0 !! _) as [w|] eqn:E; simpl.
  - apply lookup_replicate in E as [-> _]. apply Z.testbit_0_l.
  - apply Z.testbit_0_l.
Qed.

Lemma findAndSet_spec bm k :
  wf bm -> 0 < k < 2 ^ 32 ->
  exists r bm', findAndSet bm k = Ret (r, bm') /\
    (forall b, 0 <= b < r -> ~ free_run bm b k) /\
    ((r < blocks bm /\ free_run bm r k /\ bm' = setRange bm r k)
     \/ (r = blocks bm /\ bm' = bm)).
Proof.
  intros Hwf Hk. pose proof (wf_blocks _ Hwf) as [? ?].
  apply findAndSet_loop_spec; [done|done|lia|lia|]. intros b Hb. lia.
Qed.

(** Resetting what a search has reserved gives the old flags back. *)
Lemma bit_findAndSet_unset bm k r bm' c :
  wf bm -> 0 < k < 2 ^ 32 -> findAndSet bm k = Ret (r, bm') -> r < blocks bm ->
  0 <= c < blocks bm -> bit (unsetRange bm' r k) c = bit bm c.
Proof.
  intros Hwf Hk Hf Hr Hc.
  destruct (findAndSet_spec bm k) as (r0 & bm0 & Hf0 & _ & Hres); [done|done|].
  rewrite Hf in Hf0. injection Hf0 as <- <-.
  destruct Hres as [(_ & (Hr0 & Hr1 & Hrun) & ->)|[-> _]]; [|lia].
  pose proof (wf_blocks _ Hwf) as [? ?].
  rewrite bit_unsetRange; rewrite ?blocks_setRange; try lia; [|by apply wf_setRange].
  rewrite bit_setRange by (try done; unfold is_u32; lia).
  destruct (Z.leb_spec r c), (Z.ltb_spec c (r + k)); simpl; try done.
  rewrite Hrun; [done|lia].
Qed.
End view.

(** ** Properties *)

(** On a well-formed bitmap, [findAndSet] terminates with the lowest run of
    [k] free blocks reserved and nothing else changed, or, exactly when the
    bitmap holds no such run, returns the number of blocks and changes
    nothing. *)
Theorem findAndSet_first_fit bm k :
  wf bm -> 0 < k < 2 ^ 32 ->
  exists r bm', findAndSet bm k = Ret (r, bm') /\
    wf bm' /\ blocks bm' = blocks bm /\ 0 <= r <= blocks bm /\
    (r < blocks bm <-> exists b, free_run bm b k) /\
    (r < blocks bm ->
       free_run bm r k /\ (forall b, 0 <= b < r -> ~ free_run bm b k) /\
       forall c, 0 <= c < blocks bm ->
         bit bm' c = (r <=? c) && (c <? r + k) || bit bm c) /\
    (r = blocks bm -> bm' = bm).
Proof.
  intros Hwf Hk. pose proof (wf_blocks _ Hwf) as [? ?].
  destruct (findAndSet_spec bm k) as (r & bm' & -> & Hmin & Hres); [done|done|].
  exists r, bm'. split; [done|].
  destruct Hres as [(Hr & Hrun & ->)|[-> ->]].
  - split_and!; try lia; auto using wf_setRange, blocks_setRange.
    + destruct Hrun as [? _]. lia.
    + split; [by exists r|done].
    + intros _. split_and!; [done|done|]. intros c Hc.
      apply bit_setRange; [done| |lia|done]. destruct Hrun as [? _]. unfold is_u32. lia.
  - split_and!; try done; try lia. split; [lia|].
    intros [b Hb]. destruct Hb as [Hb0 [Hb1 Hb2]].
    destruct (Hmin b); [lia|]. done.
Qed.

Lemma findAndSet_first_fit_witness :
  findAndSet (setRange (new_Bitmap 40) 0 30) 4 =
    Ret (30, setRange (setRange (new_Bitmap 40) 0 30) 30 4) /\
  exists r bm', findAndSet (setRange (new_Bitmap 40) 0 30) 4 = Ret (r, bm') /\
    wf bm' /\ blocks bm' = 40.
Proof.
  split; [vm_compute; reflexivity|].
  destruct (findAndSet_first_fit (setRange (new_Bitmap 40) 0 30) 4)
    as (r & bm' & E & Hw & Hb & _).
  - apply wf_setRange, wf_new_Bitmap. unfold is_u32. lia.
  - lia.
  - exists r, bm'. split; [exact E|]. split; [exact Hw|]. rewrite Hb.
    vm_compute. reflexivity.
Defined.

(** The word-level bit operations implement a list of flags: [set] and
    [unset] are list updates at the block's index (and leave the list alone
    when the block does not exist), [check] compares the flag, and every word
    they touch exists. *)
Theorem bitmap_refines_flags bm b :
  wf bm -> 0 <= b ->
  wf (set bm b) /\ wf (unset bm b) /\
  view (set bm b) = <[Z.to_nat b := true]> (view bm) /\
  view (unset bm b) = <[Z.to_nat b := false]> (view bm) /\
  (forall v, check bm b v = bool_decide (view bm !! Z.to_nat b = Some v)) /\
  (b < blocks bm -> (Z.to_nat (b / 32) < length (bitmap bm))%nat).
Proof.
  intros Hwf Hb. split_and!; auto using wf_set, wf_unset.
  - destruct (Z.le_gt_cases (blocks bm) b).
    + unfold set. decide_bool. rewrite list_insert_ge; [done|]. rewrite length_view. lia.
    + apply view_insert; [lia|apply blocks_set|]. intros c Hc.
      rewrite bit_set by done. by destruct (b =? c).
  - destruct (Z.le_gt_cases (blocks bm) b).
    + unfold unset. decide_bool. rewrite list_insert_ge; [done|]. rewrite length_view. lia.
    + apply view_insert; [lia|apply blocks_unset|]. intros c Hc.
      rewrite bit_unset by done. by destruct (b =? c).
  - intros v. rewrite check_bit by done. destruct (Z.ltb_spec b (blocks bm)) as [Hlt|Hge].
    + rewrite lookup_view, Z2Nat.id by lia. simpl.
      destruct (Bool.eqb_spec (bit bm b) v); case_bool_decide; naive_solver.
    + rewrite lookup_ge_None_2; [done|]. rewrite length_view. lia.
  - intros Hlt. by apply index_in_range.
Qed.

Lemma bitmap_refines_flags_witness :
  wf (new_Bitmap 33) /\
  view (set (new_Bitmap 33) 32) = <[32%nat := true]> (view (new_Bitmap 33)).
Proof.
  assert (H : wf (new_Bitmap 33)) by (apply wf_new_Bitmap; unfold is_u32; lia).
  split; [exact H|].
  apply (bitmap_refines_flags (new_Bitmap 33) 32 H). lia.
Defined.

(** The constructor that also reserves blocks leaves the member [blocks] at
    its default: the bitmap it builds has size 0, every search on it fails and
    every [set] is ignored, whatever capacity was asked for. *)
Theorem reserved_constructor_is_empty blockCount reserved k b :
  0 <= b ->
  getSize (new_Bitmap_reserved blockCount reserved) = 0 /\
  findAndSet (new_Bitmap_reserved blockCount reserved) k =
    Ret (0, new_Bitmap_reserved blockCount reserved) /\
  set (new_Bitmap_reserved blockCount reserved) b =
    new_Bitmap_reserved blockCount reserved.
Proof.
  intros Hb. assert (H0 : blocks (new_Bitmap_reserved blockCount reserved) = 0).
  { unfold new_Bitmap_reserved. by rewrite blocks_setRange. }
  split_and!.
  - exact H0.
  - unfold findAndSet. rewrite H0. simpl. by rewrite H0.
  - unfold set. rewrite H0. by decide_bool.
Qed.

Lemma reserved_constructor_is_empty_witness :
  getSize (new_Bitmap_reserved 64 10) = 0.
Proof. apply (reserved_constructor_is_empty 64 10 1 0). lia. Defined.
