(* ===== verification/AtomicBitmap.v ===== *)
(** * [AtomicBitmap] under concurrency

    [lib/async/AtomicBitmap.cpp] claims blocks with one [lock bts] per
    attempt, and [kernel/memory/manager/special/AtomicBitmapMemoryManager.cpp]
    turns the claimed block into an address. The sequential operations are
    functions; the interleaving of any number of threads is a step relation
    whose steps are the locked instructions. *)

From S2P Require Import Prelude Bitmap.

(** ** The locked instructions *)

(** [lock bts]: the old bit (the carry flag) and the updated bitmap. *)
Definition lock_bts (bm : Bitmap) (block : Z) : bool * Bitmap :=
  let index := block / 32 in
  let pos := 31 - block mod 32 in
  (Z.testbit (word bm index) pos, store bm index (Z.setbit (word bm index) pos)).

(** [lock btr] *)
Definition lock_btr (bm : Bitmap) (block : Z) : bool * Bitmap :=
  let index := block / 32 in
  let pos := 31 - block mod 32 in
  (Z.testbit (word bm index) pos, store bm index (Z.clearbit (word bm index) pos)).

Definition atomic_set (bm : Bitmap) (block : Z) : Bitmap :=
  if blocks bm <=? block then bm else snd (lock_bts bm block).

Definition atomic_unset (bm : Bitmap) (block : Z) : Bitmap :=
  if blocks bm <=? block then bm else snd (lock_btr bm block).

Definition atomic_check (bm : Bitmap) (block : Z) (set : bool) : bool :=
  Bitmap.check bm block set.

(** [findAndSet()] of one thread running alone: the loop index is returned, and
    the jump leaves the loop at the first block whose bit was clear. *)
Fixpoint atomic_findAndSet_loop (n : nat) (i : Z) (bm : Bitmap) : Z * Bitmap :=
  match n with
  | O => (i, bm)
  | S n =>
      let '(old, bm') := lock_bts bm i in
      if old then atomic_findAndSet_loop n (i + 1) bm' else (i, bm')
  end.

Definition atomic_findAndSet (bm : Bitmap) : Z * Bitmap :=
  atomic_findAndSet_loop (Z.to_nat (blocks bm)) 0 bm.

(** The operations that [AtomicBitmap] does not support. *)
Definition atomic_findAndSet_count (blockCount : Z) : outcome Z := Throw UNSUPPORTED_OPERATION.
Definition atomic_setRange (startBlock length : Z) : outcome unit := Throw UNSUPPORTED_OPERATION.
Definition atomic_unsetRange (startBlock length : Z) : outcome unit := Throw UNSUPPORTED_OPERATION.
Definition atomic_checkRange (startBlock length : Z) (set : bool) : outcome bool :=
  Throw UNSUPPORTED_OPERATION.

(** ** Threads *)

(** Where a thread is: outside, about to try block [i], holding a block, or
    back from a search that found nothing. *)
Inductive pc :=
| Idle
| Scanning (i : Z)
| Holding (b : Z)
| Failed.

Record state := mkState { shared : Bitmap; threads : gmap nat pc }.

Inductive step : state -> state -> Prop :=
| step_call s t :
    threads s !! t = Some Idle ->
    step s (mkState (shared s) (<[t := Scanning 0]> (threads s)))
| step_taken s t i bm' :
    threads s !! t = Some (Scanning i) -> i < blocks (shared s) ->
    lock_bts (shared s) i = (true, bm') ->
    step s (mkState bm' (<[t := Scanning (i + 1)]> (threads s)))
| step_found s t i bm' :
    threads s !! t = Some (Scanning i) -> i < blocks (shared s) ->
    lock_bts (shared s) i = (false, bm') ->
    step s (mkState bm' (<[t := Holding i]> (threads s)))
| step_exhausted s t i :
    threads s !! t = Some (Scanning i) -> blocks (shared s) <= i ->
    step s (mkState (shared s) (<[t := Failed]> (threads s)))
| step_release s t b :
    threads s !! t = Some (Holding b) ->
    step s (mkState (atomic_unset (shared s) b) (<[t := Idle]> (threads s))).

(** A fresh bitmap and threads that have not called anything yet. *)
Definition initial (n : Z) (s : state) : Prop :=
  shared s = new_Bitmap n /\ forall t p, threads s !! t = Some p -> p = Idle.

Inductive reachable (n : Z) : state -> Prop :=
| reachable_initial s : initial n s -> reachable n s
| reachable_step s s' : reachable n s -> step s s' -> reachable n s'.

(** ** The locked instructions set and clear exactly one block *)

Lemma lock_bts_set bm b :
  0 <= b < blocks bm -> snd (lock_bts bm b) = set bm b.
Proof.
  intros Hb. unfold lock_bts, set. simpl. by decide_bool.
Qed.

Lemma lock_bts_old bm b : fst (lock_bts bm b) = bit bm b.
Proof. done. Qed.

Lemma clearbit_land w k :
  is_u32 w -> 0 <= k < 32 ->
  Z.clearbit w k = Z.land w (u32 (Z.lnot (Z.shiftl 1 k))).
Proof.
  intros Hw Hk. apply Z.bits_inj'. intros i Hi.
  rewrite Z.clearbit_eqb, Z.land_spec by lia.
  destruct (Z.lt_ge_cases i 32).
  - rewrite u32_testbit, Z.lnot_spec, testbit_one_shift by lia.
    by rewrite Z.eqb_sym.
  - by rewrite (is_u32_testbit w) by done.
Qed.

Lemma atomic_set_eq bm b : 0 <= b -> atomic_set bm b = set bm b.
Proof.
  intros Hb. unfold atomic_set. split_guard.
  - unfold set. by decide_bool.
  - by rewrite lock_bts_set by lia.
Qed.

Lemma atomic_unset_eq bm b : wf bm -> 0 <= b -> atomic_unset bm b = unset bm b.
Proof.
  intros Hwf Hb. unfold atomic_unset, unset, lock_btr. split_guard; [done|]. simpl.
  rewrite clearbit_land; [done|by apply word_range|apply bit_pos_range].
Qed.

(** ** The invariant *)

Record inv (n : Z) (s : state) : Prop := {
  inv_wf : wf (shared s);
  inv_blocks : blocks (shared s) = n;
  inv_scan : forall t i, threads s !! t = Some (Scanning i) -> 0 <= i;
  inv_held : forall t b, threads s !! t = Some (Holding b) ->
    0 <= b < n /\ bit (shared s) b = true;
  inv_unique : forall t1 t2 b,
    threads s !! t1 = Some (Holding b) -> threads s !! t2 = Some (Holding b) -> t1 = t2
}.

Lemma inv_initial n s : is_u32 n -> initial n s -> inv n s.
Proof.
  intros Hn [Hs Ht]. constructor.
  - rewrite Hs. by apply wf_new_Bitmap.
  - by rewrite Hs.
  - intros t i H. apply Ht in H. done.
  - intros t b H. apply Ht in H. done.
  - intros t1 t2 b H. apply Ht in H. done.
Qed.

(** A step that only moves thread [t] to a place without a block and keeps the
    bits of the held blocks preserves the invariant. *)
Lemma inv_update n s t p bm' :
  inv n s -> wf bm' -> blocks bm' = n ->
  (forall b, p <> Holding b) -> (forall i, p = Scanning i -> 0 <= i) ->
  (forall t' b, t' <> t -> threads s !! t' = Some (Holding b) -> bit bm' b = true) ->
  inv n (mkState bm' (<[t := p]> (threads s))).
Proof.
  intros [Hwf Hbl Hsc Hh Hu] Hwf' Hbl' Hp Hi Hkeep. constructor; simpl; [done|done| | |].
  - intros t' i. rewrite lookup_insert. case_decide; [|apply Hsc]. intros ?. simplify_eq. auto.
  - intros t' b. rewrite lookup_insert. case_decide.
    + intros ?. simplify_eq. by destruct (Hp b).
    + intros H'. split; [by apply (Hh t')|]. by apply (Hkeep t').
  - intros t1 t2 b. rewrite !lookup_insert. repeat case_decide; intros H1 H2; subst; try done.
    + simplify_eq. by destruct (Hp b).
    + simplify_eq. by destruct (Hp b).
    + by apply (Hu t1 t2 b).
Qed.

Lemma step_inv n s s' : inv n s -> step s s' -> inv n s'.
Proof.
  intros Hinv Hstep. pose proof Hinv as [Hwf Hbl Hsc Hh Hu].
  destruct Hstep as [s t Ht|s t i bm' Ht Hi Hb|s t i bm' Ht Hi Hb|s t i Ht Hi|s t b Ht].
  - apply inv_update; try done; [intros ? [=]; lia|]. intros t' b _ H. by apply (Hh t').
  - assert (0 <= i) by eauto. pose proof (lock_bts_set (shared s) i ltac:(lia)) as E.
    rewrite Hb in E. simpl in E. subst bm'.
    apply inv_update; auto using wf_set; [by rewrite blocks_set| |].
    + intros ? [=]. lia.
    + intros t' b _ H'. destruct (Hh _ _ H') as [Hr Hbit].
      rewrite bit_set by (try done; lia). by rewrite Hbit, orb_true_r.
  - assert (0 <= i) by eauto. pose proof (lock_bts_set (shared s) i ltac:(lia)) as E.
    pose proof (lock_bts_old (shared s) i) as Eold. rewrite Hb in E, Eold. simpl in *. subst bm'.
    constructor; simpl; [by apply wf_set|by rewrite blocks_set| | |].
    + intros t' j. rewrite lookup_insert. case_decide; [done|]. apply Hsc.
    + intros t' b. rewrite lookup_insert. case_decide; intros H'.
      * simplify_eq. split; [lia|]. rewrite bit_set by (try done; lia). by rewrite Z.eqb_refl.
      * destruct (Hh _ _ H') as [Hr Hbit]. split; [done|].
        rewrite bit_set by (try done; lia). by rewrite Hbit, orb_true_r.
    + intros t1 t2 b. rewrite !lookup_insert.
      repeat case_decide; intros G1 G2; subst; simplify_eq; try done.
      * destruct (Hh _ _ G2) as [_ Hbit]. congruence.
      * destruct (Hh _ _ G1) as [_ Hbit]. congruence.
      * by apply (Hu t1 t2 b).
  - apply inv_update; try done. intros t' b _ H. by apply (Hh t').
  - destruct (Hh _ _ Ht) as [Hr Hbit]. rewrite atomic_unset_eq by (try done; lia).
    apply inv_update; auto using wf_unset; try done; [by rewrite blocks_unset|].
    intros t' c Hne H'. destruct (Hh _ _ H') as [Hr' Hbit'].
    rewrite bit_unset by (try done; lia). rewrite Hbit', andb_true_r.
    destruct (Z.eqb_spec b c) as [->|]; [|done]. by destruct Hne; apply (Hu t' t c).
Qed.

Lemma reachable_inv n s : is_u32 n -> reachable n s -> inv n s.
Proof. intros Hn. induction 1; eauto using inv_initial, step_inv. Qed.

(** ** The sequential search *)

Lemma atomic_findAndSet_loop_spec n i bm :
  wf bm -> 0 <= i -> i + Z.of_nat n = blocks bm ->
  let '(r, bm') := atomic_findAndSet_loop n i bm in
  i <= r <= blocks bm /\ (forall c, i <= c < r -> bit bm c = true) /\
  (r < blocks bm -> bit bm r = false) /\
  wf bm' /\ blocks bm' = blocks bm /\
  forall c, 0 <= c < blocks bm -> bit bm' c = (r =? c) || bit bm c.
Proof.
  revert i bm. induction n as [|n IH]; intros i bm Hwf Hi Hn.
  - simpl. split_and!; try done; try lia. intros c Hc. by decide_bool.
  - cbn [atomic_findAndSet_loop].
    destruct (lock_bts bm i) as [old bm1] eqn:E.
    pose proof (lock_bts_set bm i ltac:(lia)) as E1.
    pose proof (lock_bts_old bm i) as E2. rewrite E in E1, E2. simpl in E1, E2. subst.
    destruct (bit bm i) eqn:Ei.
    + specialize (IH (i + 1) (set bm i) ltac:(by apply wf_set) ltac:(lia)).
      rewrite blocks_set in IH. specialize (IH ltac:(lia)).
      destruct (atomic_findAndSet_loop n (i + 1) (set bm i)) as [r bm'].
      destruct IH as (Hr & Hlow & Hhit & Hwf' & Hbl & Hbits).
      assert (Hsame : forall c, 0 <= c < blocks bm -> bit (set bm i) c = bit bm c).
      { intros c Hc. rewrite bit_set by done. destruct (Z.eqb_spec i c) as [<-|]; [|done].
        by rewrite Ei. }
      split_and!; try done; try lia.
      * intros c Hc. destruct (decide (c = i)) as [->|]; [done|].
        rewrite <- Hsame by lia. apply Hlow. lia.
      * intros Hr'. rewrite <- Hsame by lia. auto.
      * intros c Hc. rewrite Hbits, Hsame by done. done.
    + split_and!; try lia; auto using wf_set, blocks_set.
      intros c Hc. by apply bit_set.
Qed.

(** ** [AtomicBitmapMemoryManager] *)

Record AtomicBitmapMemoryManager := mkAtomicBitmapMemoryManager {
  memoryStartAddress : Z;
  memoryEndAddress : Z;
  blockSize : Z;
  freeMemory : Z;
  abitmap : Bitmap
}.

(** The constructor leaves [freeMemory] at its default 0; a zero block size is
    a division by zero. *)
Definition new_AtomicBitmapMemoryManager (startAddress endAddress blockSize : Z)
    : outcome AtomicBitmapMemoryManager :=
  if blockSize =? 0 then Fault
  else Ret (mkAtomicBitmapMemoryManager startAddress endAddress blockSize 0
              (new_Bitmap (u32 (endAddress - startAddress) / blockSize))).

(** [nullptr] is the address 0. *)
Definition allocateBlock (m : AtomicBitmapMemoryManager) : Z * AtomicBitmapMemoryManager :=
  let '(block, bm') := atomic_findAndSet (abitmap m) in
  if block =? getSize bm'
  then (0, mkAtomicBitmapMemoryManager (memoryStartAddress m) (memoryEndAddress m)
             (blockSize m) (freeMemory m) bm')
  else (u32 (memoryStartAddress m + block * blockSize m),
        mkAtomicBitmapMemoryManager (memoryStartAddress m) (memoryEndAddress m)
          (blockSize m) (u32 (freeMemory m - blockSize m)) bm').

Definition freeBlock (ptr : Z) (m : AtomicBitmapMemoryManager) : AtomicBitmapMemoryManager :=
  let address := u32 (ptr - memoryStartAddress m) in
  if (ptr <? memoryStartAddress m) || (memoryEndAddress m <=? ptr) then m
  else
    let blockNumber := address / blockSize m in
    mkAtomicBitmapMemoryManager (memoryStartAddress m) (memoryEndAddress m) (blockSize m)
      (u32 (freeMemory m + blockSize m)) (atomic_unset (abitmap m) blockNumber).

(** The manager owns [blocks] whole blocks of its region. *)
Record abm_wf (m : AtomicBitmapMemoryManager) : Prop := {
  abm_bitmap : wf (abitmap m);
  abm_size : 0 < blockSize m;
  abm_start : 0 < memoryStartAddress m;
  abm_room : memoryStartAddress m + blocks (abitmap m) * blockSize m <= memoryEndAddress m;
  abm_end : memoryEndAddress m < 2 ^ 32
}.

(** ** Properties *)

(** C37. However many threads call [findAndSet] and give blocks back, in any
    interleaving of the locked instructions, no two of them hold the same
    block, and a held block exists and is marked in the bitmap. *)
Theorem concurrent_blocks_exclusive n s t1 t2 b :
  is_u32 n -> reachable n s ->
  threads s !! t1 = Some (Holding b) ->
  0 <= b < n /\ bit (shared s) b = true /\
  (threads s !! t2 = Some (Holding b) -> t1 = t2).
Proof.
  intros Hn Hr H1. apply reachable_inv in Hr as [_ _ _ Hh Hu]; [|done].
  destruct (Hh _ _ H1). split_and!; try lia; auto. intros H2. by apply (Hu t1 t2 b).
Qed.

Definition example_start : state := mkState (new_Bitmap 2) {[0%nat := Idle; 1%nat := Idle]}.

(** One interleaving: both threads call, thread 0 takes block 0 between the
    call and the first attempt of thread 1, which then takes block 1. *)
Definition example_end : state :=
  mkState (set (set (set (new_Bitmap 2) 0) 0) 1)
          {[0%nat := Holding 0; 1%nat := Holding 1]}.

Lemma example_reachable : reachable 2 example_end.
Proof.
  assert (H0 : reachable 2 example_start).
  { apply reachable_initial. split; [done|]. intros t p Hp.
    unfold example_start in Hp. cbn [threads] in Hp.
    apply lookup_insert_Some in Hp as [[_ <-]|[_ Hp]]; [done|].
    by apply lookup_singleton_Some in Hp as [_ <-]. }
  eapply reachable_step in H0; [|eapply (step_call _ 0%nat); reflexivity].
  eapply reachable_step in H0; [|eapply (step_call _ 1%nat); reflexivity].
  eapply reachable_step in H0; [|eapply (step_found _ 0%nat); vm_compute; reflexivity].
  eapply reachable_step in H0; [|eapply (step_taken _ 1%nat); vm_compute; reflexivity].
  eapply reachable_step in H0; [|eapply (step_found _ 1%nat); vm_compute; reflexivity].
  vm_compute in H0. vm_compute. exact H0.
Qed.

Lemma concurrent_blocks_exclusive_witness :
  reachable 2 example_end /\ 0 <= 1 < 2 /\ bit (shared example_end) 1 = true.
Proof.
  split; [exact example_reachable|].
  destruct (concurrent_blocks_exclusive 2 example_end 1%nat 0%nat 1) as (H1 & H2 & _).
  - unfold is_u32. lia.
  - exact example_reachable.
  - reflexivity.
  - split; assumption.
Defined.

(** [allocateBlock] of a well-formed manager returns the lowest free block as
    an address inside the region, marks exactly it, and returns null exactly
    when every block is taken; giving the address back clears exactly that
    block again. *)
Theorem allocateBlock_freeBlock m :
  abm_wf m ->
  let '(p, m') := allocateBlock m in
  abm_wf m' /\
  (p = 0 <-> forall b, 0 <= b < blocks (abitmap m) -> bit (abitmap m) b = true) /\
  (p <> 0 -> exists b, 0 <= b < blocks (abitmap m) /\
     p = memoryStartAddress m + b * blockSize m /\
     memoryStartAddress m <= p /\ p + blockSize m <= memoryEndAddress m /\
     bit (abitmap m) b = false /\
     (forall c, 0 <= c < b -> bit (abitmap m) c = true) /\
     (forall c, 0 <= c < blocks (abitmap m) ->
        bit (abitmap m') c = (b =? c) || bit (abitmap m) c) /\
     (forall c, 0 <= c < blocks (abitmap m) ->
        bit (abitmap (freeBlock p m')) c = bit (abitmap m) c)).
Proof.
  intros [Hwf Hsz Hst Hroom Hend]. unfold allocateBlock.
  pose proof (wf_blocks _ Hwf) as [Hb0 Hb1].
  pose proof (atomic_findAndSet_loop_spec (Z.to_nat (blocks (abitmap m))) 0 (abitmap m)
                Hwf ltac:(lia) ltac:(lia)) as Hspec.
  unfold atomic_findAndSet.
  destruct (atomic_findAndSet_loop _ 0 (abitmap m)) as [r bm'].
  destruct Hspec as (Hr & Hlow & Hhit & Hwf' & Hbl & Hbits). unfold getSize. rewrite Hbl.
  split_guard.
  - split_and!; [constructor; simpl; try done; by rewrite Hbl| |done].
    split; [|done]. intros _ b Hb. apply Hlow. lia.
  - assert (Hrange : memoryStartAddress m + r * blockSize m + blockSize m
                     <= memoryEndAddress m) by nia.
    assert (0 <= r * blockSize m) by nia.
    wrap_small.
    split_and!; [constructor; simpl; try done; by rewrite Hbl| |].
    + split; [lia|]. intros Hall. specialize (Hall r ltac:(lia)).
      rewrite Hhit in Hall; [done|lia].
    + intros _. exists r. split_and!; try lia; auto.
      * apply Hhit. lia.
      * intros c Hc. unfold freeBlock. simpl.
        decide_bool. simpl. wrap_small.
        replace (memoryStartAddress m + r * blockSize m - memoryStartAddress m)
          with (r * blockSize m) by lia.
        rewrite Z.div_mul by lia. rewrite atomic_unset_eq by (try done; lia).
        rewrite bit_unset by (try done; lia). rewrite Hbits by done.
        destruct (Z.eqb_spec r c) as [<-|]; [|done]. rewrite Hhit by lia. done.
Qed.

Lemma allocateBlock_freeBlock_witness :
  let m := mkAtomicBitmapMemoryManager 4096 20480 4096 0 (set (new_Bitmap 4) 0) in
  abm_wf m /\ fst (allocateBlock m) = 8192 /\ abm_wf (snd (allocateBlock m)).
Proof.
  set (m := mkAtomicBitmapMemoryManager 4096 20480 4096 0 (set (new_Bitmap 4) 0)).
  assert (H : abm_wf m).
  { constructor; cbn [abitmap blockSize memoryStartAddress memoryEndAddress m];
      rewrite ?blocks_set; simpl; try lia.
    apply wf_set, wf_new_Bitmap. unfold is_u32. lia. }
  split; [exact H|]. split; [vm_compute; reflexivity|].
  pose proof (allocateBlock_freeBlock m H) as Hm.
  destruct (allocateBlock m) as [p m']. exact (proj1 Hm).
Defined.
