(* ===== verification/Array.v ===== *)
(** * [Util::Array] and [Util::Iterator]

    [lib/util/Array.h]: a heap-allocated array with checked element access and
    a bubble sort. [lib/util/Iterator.h]: a cursor over a private copy of an
    array, the type behind every range-based [for] over a collection. *)

From stdpp Require Import sorting.
From S2P Require Import Prelude.

(** What the slots of a fresh [new T[n]] hold before anything is stored in
    them. Nothing is assumed about it. *)
Class Junk (T : Type) := junk : Z -> T.

Definition fresh_slots {T} `{Junk T} (n : Z) : list T :=
  (fun i => junk (Z.of_nat i)) <$> seq 0 (Z.to_nat n).

Record Array (T : Type) := mkArray { array : list T; capacity : Z }.
Arguments mkArray {T} _ _.
Arguments array {T} _.
Arguments capacity {T} _.

Section ArrayOperations.
  Context {T : Type} `{Junk T}.
  Implicit Types (a : Array T).

Definition new_Array (capacity : Z) : Array T := mkArray (fresh_slots capacity) capacity.

(** [array[i] = source[i]] for [i] from 0 on, [n] times, through raw pointers. *)
Fixpoint copy_loop (n : nat) (i : nat) (dst src : list T) : outcome (list T) :=
  match n with
  | O => Ret dst
  | S n =>
      x ← or_fault (src !! i);
      if (i <? length dst)%nat then copy_loop n (S i) (<[i := x]> dst) src else Fault
  end.

(** [Array(std::initializer_list<T>)] *)
Definition of_initializer_list (l : list T) : outcome (Array T) :=
  let n := Z.of_nat (length l) in
  s ← copy_loop (length l) 0 (fresh_slots n) l; Ret (mkArray s n).

(** The copy constructor. *)
Definition copy_Array (other : Array T) : outcome (Array T) :=
  s ← copy_loop (Z.to_nat (capacity other)) 0 (fresh_slots (capacity other)) (array other);
  Ret (mkArray s (capacity other)).

(** [operator=]: frees the old slots, then copies. Assigning an array to itself
    copies from the freshly allocated slots. *)
Definition assign_Array (self : bool) (a other : Array T) : outcome (Array T) :=
  let slots := fresh_slots (capacity other) in
  s ← copy_loop (Z.to_nat (capacity other)) 0 slots (if self then slots else array other);
  Ret (mkArray s (capacity other)).

(** [operator[]] as an rvalue and as the target of a store. *)
Definition at_ (a : Array T) (index : Z) : outcome T :=
  if capacity a <=? index then Throw OUT_OF_BOUNDS
  else or_fault (array a !! Z.to_nat index).

Definition put (a : Array T) (index : Z) (x : T) : outcome (Array T) :=
  if capacity a <=? index then Throw OUT_OF_BOUNDS
  else if (Z.to_nat index <? length (array a))%nat
  then Ret (mkArray (<[Z.to_nat index := x]> (array a)) (capacity a))
  else Fault.

Definition length_ (a : Array T) : Z := capacity a.

Definition clear (a : Array T) : Array T := mkArray (fresh_slots (capacity a)) (capacity a).

(** [wrap]: the loop stores through the checked [operator[]]. *)
Fixpoint wrap_loop (n i : nat) (source : list T) (tmp : Array T) : outcome (Array T) :=
  match n with
  | O => Ret tmp
  | S n =>
      x ← or_fault (source !! i);
      tmp ← put tmp (Z.of_nat i) x;
      wrap_loop n (S i) source tmp
  end.

Definition wrap (source : list T) (size : Z) : outcome (Array T) :=
  wrap_loop (Z.to_nat size) 0 source (new_Array size).

(** ** Sorting *)

(** [operator>] of the element type. *)
Context (gt : T -> T -> bool).

(** The [for] loop of one pass: the bound [length - 1] is a [uint32_t]. *)
Fixpoint sort_pass (fuel : nat) (i : Z) (a : Array T) (hasChanged : bool)
    : outcome (Array T * bool) :=
  match fuel with
  | O => Diverge
  | S fuel =>
      if i <? u32 (length_ a - 1) then
        x ← at_ a i;
        y ← at_ a (i + 1);
        if gt x y then
          a ← put a i y;
          a ← put a (i + 1) x;
          sort_pass fuel (i + 1) a true
        else sort_pass fuel (i + 1) a hasChanged
      else Ret (a, hasChanged)
  end.

Fixpoint sort_loop (fuel : nat) (a : Array T) : outcome (Array T) :=
  match fuel with
  | O => Diverge
  | S fuel =>
      '(a, hasChanged) ← sort_pass (S (Z.to_nat (length_ a))) 0 a false;
      if (hasChanged : bool) then sort_loop fuel a else Ret a
  end.

(** Every pass that changes something removes an inversion, so there are at
    most [n * n] of them before the last one. *)
Definition sort (a : Array T) : outcome (Array T) :=
  sort_loop (S (Z.to_nat (length_ a) * Z.to_nat (length_ a))) a.

End ArrayOperations.

(** ** [Iterator] *)

Record Iterator (T : Type) := mkIterator { it_array : Array T; it_index : Z }.
Arguments mkIterator {T} _ _.
Arguments it_array {T} _.
Arguments it_index {T} _.

Section IteratorOperations.
  Context {T : Type} `{Junk T}.

(** The constructors copy the array they are given. *)
Definition new_Iterator (a : Array T) (index : Z) : outcome (Iterator T) :=
  a' ← copy_Array a; Ret (mkIterator a' index).

Definition copy_Iterator (other : Iterator T) : outcome (Iterator T) :=
  a' ← copy_Array (it_array other); Ret (mkIterator a' (it_index other)).

Definition assign_Iterator (it other : Iterator T) : outcome (Iterator T) :=
  a' ← assign_Array false (it_array it) (it_array other); Ret (mkIterator a' (it_index other)).

Definition deref (it : Iterator T) : outcome T := at_ (it_array it) (it_index it).

Definition neq (it other : Iterator T) : bool := negb (it_index it =? it_index other).

Definition incr (it : Iterator T) : Iterator T :=
  mkIterator (it_array it) (u32 (it_index it + 1)).

Definition hasNext (it : Iterator T) : bool := it_index it <? length_ (it_array it).

(** [next] advances first and reads behind itself. *)
Definition next (it : Iterator T) : outcome (T * Iterator T) :=
  let it' := incr it in
  x ← at_ (it_array it') (u32 (it_index it' - 1));
  Ret (x, it').

(** [for (const T &element : collection) body]: what the compiler generates from
    the iterators [begin()] and [end()]. *)
Fixpoint for_each {S} (fuel : nat) (it last : Iterator T) (body : T -> S -> outcome S) (s : S)
    : outcome S :=
  match fuel with
  | O => Diverge
  | Datatypes.S fuel =>
      if neq it last then
        x ← deref it;
        s ← body x s;
        for_each fuel (incr it) last body s
      else Ret s
  end.

End IteratorOperations.

(** ** Well-formed arrays *)

Definition wf {T} (a : Array T) : Prop :=
  capacity a = Z.of_nat (length (array a)) /\ capacity a < 2 ^ 32.

Section lemmas.
Context {T : Type} `{Junk T}.
Implicit Types (a : Array T) (l : list T).

Lemma length_fresh_slots (n : Z) : length (fresh_slots (T:=T) n) = Z.to_nat n.
Proof. unfold fresh_slots. by rewrite length_fmap, length_seq. Qed.

Lemma wf_new_Array (n : Z) : is_u32 n -> wf (new_Array (T:=T) n).
Proof. intros [? ?]. split; simpl; [rewrite length_fresh_slots; lia|done]. Qed.

Lemma at_in_range a i x :
  wf a -> 0 <= i -> array a !! Z.to_nat i = Some x -> at_ a i = Ret x.
Proof.
  intros [Hc _] Hi Hx. unfold at_. pose proof (lookup_lt_Some _ _ _ Hx).
  decide_bool. by rewrite Hx.
Qed.

Lemma at_out_of_range a i : wf a -> capacity a <= i -> at_ a i = Throw OUT_OF_BOUNDS.
Proof. intros _ Hi. unfold at_. by decide_bool. Qed.

Lemma put_in_range a i x :
  wf a -> 0 <= i < capacity a ->
  put a i x = Ret (mkArray (<[Z.to_nat i := x]> (array a)) (capacity a)).
Proof.
  intros [Hc _] Hi. unfold put. decide_bool.
  rewrite (proj2 (Nat.ltb_lt _ _)) by lia. done.
Qed.

Lemma put_out_of_range a i x : capacity a <= i -> put a i x = Throw OUT_OF_BOUNDS.
Proof. intros Hi. unfold put. by decide_bool. Qed.

Lemma wf_put a i x : wf a -> wf (mkArray (<[i := x]> (array a)) (capacity a)).
Proof. intros [? ?]. split; simpl; [by rewrite length_insert|done]. Qed.

Lemma copy_loop_spec n i (dst src : list T) :
  (i + n <= length dst)%nat -> (i + n <= length src)%nat ->
  copy_loop n i dst src = Ret (take i dst ++ take n (drop i src) ++ drop (i + n) dst).
Proof.
  revert i dst. induction n as [|n IH]; intros i dst Hd Hs.
  - simpl. rewrite Nat.add_0_r, take_drop. done.
  - cbn [copy_loop]. destruct (lookup_lt_is_Some_ex src i) as [x Hx]; [lia|].
    rewrite Hx. outcome. rewrite (proj2 (Nat.ltb_lt _ _)) by lia.
    rewrite IH; rewrite ?length_insert; try lia. f_equal.
    rewrite (drop_S src x i Hx). simpl.
    rewrite (take_S_r (<[i:=x]> dst) i x) by (rewrite list_lookup_insert_eq; [done|lia]).
    rewrite take_insert_ge, <- app_assoc by lia. simpl.
    rewrite drop_insert_lt by lia. by rewrite Nat.add_succ_r.
Qed.

Lemma copy_loop_all (dst src : list T) :
  length dst = length src -> copy_loop (length src) 0 dst src = Ret src.
Proof.
  intros Hl. rewrite copy_loop_spec by lia. simpl.
  rewrite (drop_ge dst) by lia. by rewrite drop_0, app_nil_r, firstn_all.
Qed.

Lemma copy_Array_id a : wf a -> copy_Array a = Ret a.
Proof.
  intros [Hc _]. unfold copy_Array. rewrite Hc, Nat2Z.id.
  rewrite copy_loop_all by (rewrite length_fresh_slots; lia).
  outcome. rewrite <- Hc. by destruct a.
Qed.

Lemma of_initializer_list_spec l :
  of_initializer_list l = Ret (mkArray l (Z.of_nat (length l))).
Proof.
  unfold of_initializer_list. rewrite copy_loop_all; [done|].
  rewrite length_fresh_slots. lia.
Qed.

Lemma new_Iterator_spec a i : wf a -> new_Iterator a i = Ret (mkIterator a i).
Proof. intros Hwf. unfold new_Iterator. by rewrite copy_Array_id. Qed.

(** A range-based [for] visits the elements from the cursor on, in order. *)
Lemma for_each_list {S} fuel a last (i : nat) (body : T -> S -> outcome S) s :
  wf a -> it_index last = capacity a -> (i <= length (array a))%nat ->
  (length (array a) - i < fuel)%nat ->
  for_each fuel (mkIterator a (Z.of_nat i)) last body s = foldM body (drop i (array a)) s.
Proof.
  intros Hwf Hlast. pose proof Hwf as [Hc Hr].
  revert i s. induction fuel as [|fuel IH]; intros i s Hi Hf; [lia|].
  cbn [for_each]. unfold neq. simpl. rewrite Hlast.
  destruct (Z.eqb_spec (Z.of_nat i) (capacity a)) as [Heq|Hne]; simpl.
  - rewrite drop_ge by lia. done.
  - destruct (lookup_lt_is_Some_ex (array a) i) as [x Hx]; [lia|].
    rewrite (drop_S _ _ _ Hx). simpl.
    unfold deref. rewrite (at_in_range _ _ x); simpl; [|done|lia|by rewrite Nat2Z.id].
    outcome. destruct (body x s) as [s'|e| |]; try done.
    unfold incr. simpl. wrap_small.
    replace (Z.of_nat i + 1) with (Z.of_nat (Datatypes.S i)) by lia. apply IH; lia.
Qed.
End lemmas.

(** ** Bubble sort *)

Section sorting.
Context {T : Type} `{Junk T} (gt : T -> T -> bool).

(** The order the sort establishes between neighbours. *)
Definition ordered (x y : T) : Prop := gt x y = false.

(** One pass over a non-empty list, carrying the element in hand. *)
Fixpoint bubble (x : T) (l : list T) : list T * bool :=
  match l with
  | [] => ([x], false)
  | y :: l =>
      if gt x y then (y :: fst (bubble x l), true)
      else (x :: fst (bubble y l), snd (bubble y l))
  end.

Lemma bubble_perm x l : fst (bubble x l) ≡ₚ x :: l.
Proof.
  revert x. induction l as [|y l IH]; intros x; simpl; [done|].
  destruct (gt x y); simpl; rewrite IH; [by rewrite Permutation_swap|done].
Qed.

Lemma length_bubble x l : length (fst (bubble x l)) = S (length l).
Proof. by rewrite bubble_perm. Qed.

Lemma insert_swap (pre : list T) x y l :
  <[length (pre ++ [y]) := x]> (<[length pre := y]> (pre ++ x :: y :: l))
  = (pre ++ [y]) ++ x :: l.
Proof.
  rewrite <- (Nat.add_0_r (length pre)), insert_app_r. simpl.
  replace (pre ++ y :: y :: l) with ((pre ++ [y]) ++ y :: l) by (by rewrite <- app_assoc).
  by rewrite <- (Nat.add_0_r (length (pre ++ [y]))), insert_app_r.
Qed.

(** The pass of the code is the structural pass. *)
Lemma sort_pass_bubble fuel pre x l n ch :
  n = Z.of_nat (length (pre ++ x :: l)) -> n < 2 ^ 32 -> (length l < fuel)%nat ->
  sort_pass gt fuel (Z.of_nat (length pre)) (mkArray (pre ++ x :: l) n) ch
  = Ret (mkArray (pre ++ fst (bubble x l)) n, ch || snd (bubble x l)).
Proof.
  revert fuel pre x ch. induction l as [|y l IH]; intros fuel pre x ch Hn Hn' Hf.
  - destruct fuel as [|fuel]; [lia|]. simpl. unfold length_. simpl.
    rewrite length_app in Hn. simpl in Hn. wrap_small.
    destruct (Z.ltb_spec (Z.of_nat (length pre)) (n - 1)); [lia|]. by rewrite orb_false_r.
  - destruct fuel as [|fuel]; [lia|]. cbn [sort_pass]. unfold length_. simpl.
    pose proof Hn as Hl. rewrite length_app in Hl. simpl in Hl. wrap_small.
    assert (Hwf : wf (mkArray (pre ++ x :: y :: l) n)) by (split; simpl; lia).
    assert (Hx : (pre ++ x :: y :: l) !! length pre = Some x)
      by (by rewrite lookup_app_r, Nat.sub_diag by lia).
    assert (Hy : (pre ++ x :: y :: l) !! S (length pre) = Some y)
      by (by rewrite lookup_app_r, Nat.sub_succ_l, Nat.sub_diag by lia).
    destruct (Z.ltb_spec (Z.of_nat (length pre)) (n - 1)); [|lia].
    rewrite (at_in_range _ (Z.of_nat (length pre)) x) by (cbn [array]; rewrite ?Nat2Z.id; try done; lia).
    rewrite (at_in_range _ _ y)
      by (cbn [array]; rewrite ?Z2Nat.inj_add, ?Nat2Z.id, ?Nat.add_1_r by lia; try done; lia).
    replace (Z.of_nat (length pre) + 1) with (Z.of_nat (length (pre ++ [y])))
      by (rewrite length_app; simpl; lia).
    outcome. destruct (gt x y); outcome.
    + rewrite put_in_range by (simpl; try done; rewrite ?length_app; simpl; lia). outcome.
      rewrite put_in_range; [|by apply (wf_put _ _ _ Hwf)|simpl; rewrite ?length_app; simpl; lia].
      outcome. cbn [array capacity]. rewrite !Nat2Z.id, insert_swap.
      rewrite IH; [|rewrite !length_app; simpl; lia|done|simpl in *; lia].
      rewrite <- app_assoc. simpl. by rewrite orb_true_r.
    + replace (Z.of_nat (length (pre ++ [y]))) with (Z.of_nat (length (pre ++ [x])))
        by (rewrite !length_app; simpl; lia).
      replace (pre ++ x :: y :: l) with ((pre ++ [x]) ++ y :: l) by (by rewrite <- app_assoc).
      rewrite IH; [|rewrite !length_app; simpl; lia|done|simpl in *; lia].
      by rewrite <- app_assoc.
Qed.

(** Inversions: pairs in the wrong order. *)
Definition count_gt (x : T) (l : list T) : nat := length (filter (fun y => gt x y = true) l).

Fixpoint inversions (l : list T) : nat :=
  match l with [] => 0 | x :: l => count_gt x l + inversions l end.

Lemma count_gt_perm x l1 l2 : l1 ≡ₚ l2 -> count_gt x l1 = count_gt x l2.
Proof. intros Hp. unfold count_gt. by rewrite Hp. Qed.

Lemma count_gt_cons x y l : count_gt x (y :: l) = ((if gt x y then 1 else 0) + count_gt x l)%nat.
Proof.
  unfold count_gt. rewrite filter_cons. destruct (gt x y); case_decide; simpl; congruence.
Qed.

Lemma count_gt_le x l : (count_gt x l <= length l)%nat.
Proof. apply length_filter. Qed.

Lemma inversions_bound l : (inversions l <= length l * length l)%nat.
Proof. induction l as [|x l IH]; simpl; [lia|]. pose proof (count_gt_le x l). lia. Qed.

Lemma bubble_unchanged x l : snd (bubble x l) = false ->
  fst (bubble x l) = x :: l /\ Sorted ordered (x :: l).
Proof.
  revert x. induction l as [|y l IH]; intros x; simpl; [by auto using Sorted|].
  destruct (gt x y) eqn:E; simpl; [done|]. intros Hc.
  destruct (IH _ Hc) as [-> Hs]. split; [done|]. constructor; [done|]. by constructor.
Qed.

(** [operator>] never holds both ways. *)
Context (gt_asym : forall x y, gt x y = true -> gt y x = false).

Lemma bubble_inversions x l :
  (inversions (fst (bubble x l)) + (if snd (bubble x l) then 1 else 0)
   <= inversions (x :: l))%nat.
Proof.
  revert x. induction l as [|y l IH]; intros x; simpl; [lia|].
  rewrite count_gt_cons. destruct (gt x y) eqn:E; simpl.
  - rewrite (count_gt_perm y _ _ (bubble_perm x l)), count_gt_cons, (gt_asym x y E).
    specialize (IH x). simpl in IH. destruct (snd (bubble x l)); lia.
  - rewrite (count_gt_perm x _ _ (bubble_perm y l)), count_gt_cons, E.
    specialize (IH y). simpl in IH. lia.
Qed.

Lemma sort_loop_spec fuel x l n :
  n = Z.of_nat (S (length l)) -> n < 2 ^ 32 -> (inversions (x :: l) < fuel)%nat ->
  exists l', sort_loop gt fuel (mkArray (x :: l) n) = Ret (mkArray l' n) /\
    l' ≡ₚ x :: l /\ Sorted ordered l'.
Proof.
  revert x l. induction fuel as [|fuel IH]; intros x l Hn Hn' Hf; [lia|].
  cbn [sort_loop].
  pose proof (sort_pass_bubble (S (Z.to_nat n)) [] x l n false) as Hp. simpl in Hp.
  change (Z.of_nat 0) with 0 in Hp. unfold length_. simpl.
  rewrite Hp by lia. outcome.
  pose proof (bubble_inversions x l) as Hinv.
  destruct (snd (bubble x l)) eqn:Ec.
  - pose proof (length_bubble x l) as Hlen. pose proof (bubble_perm x l) as Hperm.
    destruct (fst (bubble x l)) as [|x' l'] eqn:El; [done|].
    simpl in Hlen. destruct (IH x' l') as (r & -> & Hr & Hs); [lia|done|simpl in *; lia|].
    exists r. split_and!; [done| |done]. by rewrite Hr, Hperm.
  - destruct (bubble_unchanged x l Ec) as [-> Hs]. exists (x :: l). auto.
Qed.

(** [Array::sort] terminates on every non-empty array with an ordered
    permutation of its elements, for any element type whose [operator>] is
    asymmetric. *)
Theorem sort_sorts (a : Array T) :
  wf a -> array a <> [] ->
  exists l', sort gt a = Ret (mkArray l' (capacity a)) /\
    l' ≡ₚ array a /\ Sorted ordered l'.
Proof.
  intros [Hc Hr] Hne. destruct a as [[|x l] n]; simpl in *; [done|].
  unfold sort. apply sort_loop_spec; [done|done|].
  pose proof (inversions_bound (x :: l)) as Hb. unfold length_. simpl in *.
  rewrite Hc, Nat2Z.id. lia.
Qed.

End sorting.

#[export] Instance Z_junk : Junk Z := fun i => 7 + i.

Lemma sort_sorts_witness :
  exists l', sort Z.gtb (mkArray [5; 3; 9; 1; 3] 5) = Ret (mkArray l' 5) /\
    l' ≡ₚ [5; 3; 9; 1; 3] /\ Sorted (ordered Z.gtb) l'.
Proof.
  apply (sort_sorts Z.gtb).
  - intros x y. rewrite !Z.gtb_ltb, Z.ltb_lt, Z.ltb_ge. lia.
  - split; [reflexivity|]. simpl. lia.
  - discriminate.
Defined.

(** Sorting an empty array stops the kernel: the unsigned loop bound
    [length - 1] wraps around and the first access is out of bounds. *)
Theorem sort_empty_throws {T} (gt : T -> T -> bool) (a : Array T) :
  capacity a = 0 -> sort gt a = Throw OUT_OF_BOUNDS.
Proof.
  intros Hc. unfold sort. simpl. unfold length_. rewrite Hc. simpl.
  unfold at_. rewrite Hc. done.
Qed.

Lemma sort_empty_throws_witness : sort Z.gtb (mkArray [] 0) = Throw OUT_OF_BOUNDS.
Proof. apply sort_empty_throws. reflexivity. Defined.
