(* ===== verification/Collections.v ===== *)
(** * The collection interfaces

    [lib/util/Collection.h], [List.h], [Queue.h] and [Map.h]: the abstract
    classes, as type classes over the representation type. What a bulk
    operation uses of its argument ([begin] and [end], for a range-based
    [for]) is an [Iterable]. [QueueSpec] and [MapSpec] state what the clients
    of a queue or a map rely on; the implementations are instances. *)

From S2P Require Import Prelude Array.

(** The part of a [const Collection<T> &] that a range-based [for] uses. *)
Record Iterable (T : Type) := mkIterable {
  begin_ : outcome (Iterator T);
  end_ : outcome (Iterator T)
}.
Arguments mkIterable {T} _ _.
Arguments begin_ {T} _.
Arguments end_ {T} _.

(** [for (const T &element : other) body] *)
Definition range_for {T S} (other : Iterable T) (body : T -> S -> outcome S) (s : S) : outcome S :=
  it ← begin_ other;
  last ← end_ other;
  for_each (Datatypes.S (Z.to_nat (length_ (it_array it)))) it last body s.

Class Collection (C T : Type) := {
  c_add : T -> C -> outcome (bool * C);
  c_addAll : Iterable T -> C -> outcome (bool * C);
  c_remove : T -> C -> outcome (bool * C);
  c_removeAll : Iterable T -> C -> outcome (bool * C);
  c_contains : T -> C -> outcome bool;
  c_containsAll : Iterable T -> C -> outcome bool;
  c_isEmpty : C -> bool;
  c_clear : C -> outcome C;
  c_begin : C -> outcome (Iterator T);
  c_end : C -> outcome (Iterator T);
  c_size : C -> Z;
  c_toArray : C -> outcome (Array T)
}.

Class ListOps (C T : Type) := {
  list_collection :: Collection C T;
  l_insert : Z -> T -> C -> outcome C;
  l_get : Z -> C -> outcome T;
  l_set : Z -> T -> C -> outcome C;
  l_removeAt : Z -> C -> outcome (T * C);
  l_indexOf : T -> C -> outcome Z;
  l_ensureCapacity : Z -> C -> outcome C
}.

Class QueueOps (C T : Type) := {
  queue_collection :: Collection C T;
  push : T -> C -> outcome C;
  pop : C -> outcome (T * C)
}.

Class MapOps (C K V : Type) := {
  m_put : K -> V -> C -> outcome C;
  m_get : K -> C -> outcome (V * C);
  m_remove : K -> C -> outcome (V * C);
  m_containsKey : K -> C -> outcome bool;
  m_size : C -> Z;
  m_clear : C -> outcome C;
  m_keySet : C -> outcome (Array K * C)
}.

(** Any collection can be the argument of a bulk operation. *)
Definition iterable_of {C T} `{Collection C T} (c : C) : Iterable T :=
  mkIterable (c_begin c) (c_end c).

(** ** Promises *)

(** An iterable that yields the elements of a list. *)
Definition yields {T} (other : Iterable T) (l : list T) : Prop :=
  exists a last, begin_ other = Ret (mkIterator a 0) /\ end_ other = Ret last /\
    wf a /\ array a = l /\ it_index last = capacity a.

(** First in, first out. [pop] of an empty queue waits for another thread. *)
Class QueueSpec (C T : Type) `{QueueOps C T} := {
  q_inv : C -> Prop;
  q_view : C -> list T;
  q_push : forall c x, q_inv c -> Z.of_nat (length (q_view c)) < 2 ^ 30 ->
    exists c', push x c = Ret c' /\ q_inv c' /\ q_view c' = q_view c ++ [x];
  q_pop : forall c x l, q_inv c -> q_view c = x :: l ->
    exists c', pop c = Ret (x, c') /\ q_inv c' /\ q_view c' = l;
  q_pop_waits : forall c, q_inv c -> q_view c = [] -> pop c = Diverge;
  q_isEmpty : forall c, q_inv c -> c_isEmpty c = bool_decide (q_view c = []);
  q_size : forall c, q_inv c -> c_size c = Z.of_nat (length (q_view c))
}.

(** Removal by value takes the first occurrence out. *)
Class QueueRemoveSpec (C T : Type) `{QueueSpec C T} `{EqDecision T} := {
  q_remove : forall c x, q_inv c ->
    exists c', c_remove x c = Ret (bool_decide (x ∈ q_view c), c') /\ q_inv c' /\
      q_view c' = match list_find (fun y => x = y) (q_view c) with
                  | Some (i, _) => delete i (q_view c)
                  | None => q_view c
                  end
}.

(** A finite map; a missing key is an exception. *)
Class MapSpec (C K V : Type) `{MapOps C K V} `{Countable K} := {
  m_inv : C -> Prop;
  m_view : C -> gmap K V;
  m_put_spec : forall c k v, m_inv c -> Z.of_nat (size (m_view c)) + 1 < 2 ^ 32 ->
    exists c', m_put k v c = Ret c' /\ m_inv c' /\ m_view c' = <[k := v]> (m_view c);
  m_get_spec : forall c k, m_inv c ->
    match m_view c !! k with
    | Some v => exists c', m_get k c = Ret (v, c') /\ m_inv c' /\ m_view c' = m_view c
    | None => m_get k c = Throw KEY_NOT_FOUND
    end;
  m_remove_spec : forall c k, m_inv c ->
    match m_view c !! k with
    | Some v => exists c', m_remove k c = Ret (v, c') /\ m_inv c' /\
                 m_view c' = base.delete k (m_view c)
    | None => m_remove k c = Throw KEY_NOT_FOUND
    end;
  m_containsKey_spec : forall c k, m_inv c ->
    m_containsKey k c = Ret (bool_decide (is_Some (m_view c !! k)));
  m_size_spec : forall c, m_inv c -> m_size c = Z.of_nat (size (m_view c))
}.

(** A range-based [for] over an iterable is a fold over what it yields. *)
Lemma range_for_yields {T S} (other : Iterable T) l (body : T -> S -> outcome S) s :
  yields other l -> range_for other body s = foldM body l s.
Proof.
  intros (a & last & Hb & He & Hwf & Hl & Hlast). unfold range_for. rewrite Hb, He. outcome.
  pose proof Hwf as [Hc _]. rewrite <- Hl, <- (drop_0 (array a)).
  apply (for_each_list _ a last 0%nat); [done|done|lia|].
  unfold length_. simpl. lia.
Qed.
