(* ===== verification/ArrayList.v ===== *)
(** * [Util::ArrayList] and [Util::ArrayBlockingQueue]

    [lib/util/ArrayList.h]: a list in a growing array of slots.
    [lib/util/ArrayBlockingQueue.h]: a queue that delegates to an [ArrayList].

    [elements] is [None] for the null pointer. A raw read behind the last slot
    yields whatever is there ([junk]); a raw store outside the slots, and any
    access through the null pointer, has no meaning ([Fault]). *)

From S2P Require Import Prelude Array Collections.

Record ArrayList (T : Type) := mkArrayList {
  elements : option (list T);
  al_capacity : Z;
  al_length : Z
}.
Arguments mkArrayList {T} _ _ _.
Arguments elements {T} _.
Arguments al_capacity {T} _.
Arguments al_length {T} _.

Definition DEFAULT_CAPACITY : Z := 8.

Section ArrayListOperations.
Context {T : Type} `{Junk T} `{EqDecision T}.
Implicit Types (al : ArrayList T) (l : list T).

(** ** Construction *)

Definition new_ArrayList : ArrayList T := mkArrayList None 0 0.

Definition new_ArrayList_capacity (capacity : Z) : ArrayList T :=
  mkArrayList (Some (fresh_slots capacity)) capacity 0.

(** ** Raw slots *)

Definition slot (al : ArrayList T) (i : Z) : outcome T :=
  match elements al with
  | None => Fault
  | Some l => Ret (if i <? Z.of_nat (length l) then default (junk i) (l !! Z.to_nat i) else junk i)
  end.

Definition store_slot (al : ArrayList T) (i : Z) (x : T) : outcome (ArrayList T) :=
  match elements al with
  | None => Fault
  | Some l =>
      if i <? Z.of_nat (length l)
      then Ret (mkArrayList (Some (<[Z.to_nat i := x]> l)) (al_capacity al) (al_length al))
      else Fault
  end.

Definition with_length (al : ArrayList T) (n : Z) : ArrayList T :=
  mkArrayList (elements al) (al_capacity al) n.

(** ** Growing *)

(** [while (capacity < newCapacity) capacity *= 2]: at most 32 doublings, unless
    the product wraps around to 0. *)
Fixpoint grow (fuel : nat) (capacity newCapacity : Z) : outcome Z :=
  match fuel with
  | O => Diverge
  | S fuel =>
      if capacity <? newCapacity then grow fuel (u32 (capacity * 2)) newCapacity
      else Ret capacity
  end.

(** The slots of the old array, copied into the new one one by one. *)
Definition reallocate (old : list T) (oldCapacity newCapacity : Z) : outcome (list T) :=
  copy_loop (Z.to_nat oldCapacity) 0 (fresh_slots newCapacity) old.

Definition ensureCapacity (newCapacity : Z) (al : ArrayList T) : outcome (ArrayList T) :=
  let al := if al_capacity al =? 0
            then mkArrayList (Some (fresh_slots DEFAULT_CAPACITY)) DEFAULT_CAPACITY (al_length al)
            else al in
  if newCapacity <=? al_capacity al then Ret al
  else
    let oldCapacity := al_capacity al in
    capacity ← grow 34 oldCapacity newCapacity;
    match elements al with
    | None => Fault
    | Some tmp =>
        s ← reallocate tmp oldCapacity capacity;
        Ret (mkArrayList (Some s) capacity (al_length al))
    end.

(** ** Elements *)

Definition get (index : Z) (al : ArrayList T) : outcome T :=
  if al_length al <=? index then Throw OUT_OF_BOUNDS else slot al index.

Definition add (element : T) (al : ArrayList T) : outcome (bool * ArrayList T) :=
  al ← ensureCapacity (u32 (al_length al + 1)) al;
  al ← store_slot al (al_length al) element;
  Ret (true, with_length al (u32 (al_length al + 1))).

Definition addAll (other : Iterable T) (al : ArrayList T) : outcome (bool * ArrayList T) :=
  al ← range_for other (fun x al => r ← add x al; Ret (snd r)) al;
  Ret (true, al).

(** [ArrayList(Array<T>)] *)
Definition of_Array (a : Array T) : outcome (ArrayList T) :=
  foldM (fun x al => r ← add x al; Ret (snd r)) (array a) (new_ArrayList_capacity (length_ a)).

(** [for (uint32_t i = length - 1; i > index; i--) elements[i] = elements[i - 1];] *)
Fixpoint shift_up (fuel : nat) (i index : Z) (al : ArrayList T) : outcome (ArrayList T) :=
  match fuel with
  | O => Diverge
  | S fuel =>
      if index <? i then
        x ← slot al (u32 (i - 1));
        al ← store_slot al i x;
        shift_up fuel (u32 (i - 1)) index al
      else Ret al
  end.

Definition insert_at (index : Z) (element : T) (al : ArrayList T) : outcome (ArrayList T) :=
  if al_length al <? index then Ret al
  else
    al ← ensureCapacity (u32 (al_length al + 1)) al;
    al ← shift_up (S (Z.to_nat (al_length al))) (u32 (al_length al - 1)) index al;
    al ← store_slot al index element;
    Ret (with_length al (u32 (al_length al + 1))).

(** [for (index = 0; elements[index] != element && index < length; index++);]
    the slot is read before the bound is tested. *)
Fixpoint indexOf_loop (fuel : nat) (index : Z) (element : T) (al : ArrayList T) : outcome Z :=
  match fuel with
  | O => Diverge
  | S fuel =>
      x ← slot al index;
      if bool_decide (x <> element) && (index <? al_length al)
      then indexOf_loop fuel (index + 1) element al
      else Ret index
  end.

Definition indexOf (element : T) (al : ArrayList T) : outcome Z :=
  index ← indexOf_loop (S (Z.to_nat (al_length al))) 0 element al;
  Ret (if index =? al_length al then UINT32_MAX else index).

Definition contains (element : T) (al : ArrayList T) : outcome bool :=
  i ← indexOf element al; Ret (i <? al_length al).

Definition containsAll (other : Iterable T) (al : ArrayList T) : outcome bool :=
  range_for other (fun x (ok : bool) => if ok then contains x al else Ret false) true.

(** [for (i = 0; i < numMoved; i++) elements[index + i] = elements[index + i + 1];] *)
Fixpoint shift_down (n : nat) (i index : Z) (al : ArrayList T) : outcome (ArrayList T) :=
  match n with
  | O => Ret al
  | S n =>
      x ← slot al (u32 (index + i + 1));
      al ← store_slot al (u32 (index + i)) x;
      shift_down n (i + 1) index al
  end.

Definition removeAt (index : Z) (al : ArrayList T) : outcome (T * ArrayList T) :=
  if al_length al <=? index then Throw OUT_OF_BOUNDS
  else
    tmp ← slot al index;
    let numMoved := u32 (al_length al - index - 1) in
    al ← (if numMoved =? 0 then Ret al else shift_down (Z.to_nat numMoved) 0 index al);
    Ret (tmp, with_length al (u32 (al_length al - 1))).

Definition remove (element : T) (al : ArrayList T) : outcome (bool * ArrayList T) :=
  index ← indexOf element al;
  if al_length al <=? index then Ret (false, al)
  else r ← removeAt index al; Ret (true, snd r).

Definition removeAll (other : Iterable T) (al : ArrayList T) : outcome (bool * ArrayList T) :=
  range_for other (fun x s => r ← remove x (snd s); Ret (fst s || fst r, snd r)) (false, al).

Definition clear (al : ArrayList T) : ArrayList T := with_length al 0.

Definition size (al : ArrayList T) : Z := al_length al.

Definition isEmpty (al : ArrayList T) : bool := al_length al =? 0.

Definition set (index : Z) (element : T) (al : ArrayList T) : outcome (ArrayList T) :=
  if al_length al <=? index then Ret al else store_slot al index element.

(** [toArray]: the loop stores through the checked [operator[]] of [Array]. *)
Fixpoint toArray_loop (n i : nat) (al : ArrayList T) (a : Array T) : outcome (Array T) :=
  match n with
  | O => Ret a
  | S n =>
      x ← slot al (Z.of_nat i);
      a ← put a (Z.of_nat i) x;
      toArray_loop n (S i) al a
  end.

Definition toArray (al : ArrayList T) : outcome (Array T) :=
  toArray_loop (Z.to_nat (al_length al)) 0 al (new_Array (al_length al)).

Definition begin (al : ArrayList T) : outcome (Iterator T) :=
  a ← toArray al; new_Iterator a 0.

Definition end_of (al : ArrayList T) : outcome (Iterator T) :=
  a ← toArray al; new_Iterator a (al_length al).

End ArrayListOperations.

#[export] Instance ArrayList_collection {T} `{Junk T} `{EqDecision T} :
    Collection (ArrayList T) T := {|
  c_add := add;
  c_addAll := addAll;
  c_remove := remove;
  c_removeAll := removeAll;
  c_contains := contains;
  c_containsAll := containsAll;
  c_isEmpty := isEmpty;
  c_clear al := Ret (clear al);
  c_begin := begin;
  c_end := end_of;
  c_size := size;
  c_toArray := toArray
|}.

#[export] Instance ArrayList_list {T} `{Junk T} `{EqDecision T} : ListOps (ArrayList T) T := {|
  l_insert := insert_at;
  l_get := get;
  l_set := set;
  l_removeAt := removeAt;
  l_indexOf := indexOf;
  l_ensureCapacity := ensureCapacity
|}.

(** ** [ArrayBlockingQueue]

    The queue owns a [List]; both constructors allocate an [ArrayList] of the
    default capacity 16. *)

Module ArrayBlockingQueue.

Record ArrayBlockingQueue (T : Type) := mkArrayBlockingQueue { elements : ArrayList T; deleteList : bool }.
Arguments mkArrayBlockingQueue {T} _ _.
Arguments elements {T} _.
Arguments deleteList {T} _.

Definition DEFAULT_CAPACITY : Z := 16.

Section operations.
Context {T : Type} `{Junk T} `{EqDecision T}.

Definition new_ArrayBlockingQueue : ArrayBlockingQueue T :=
  mkArrayBlockingQueue (new_ArrayList_capacity DEFAULT_CAPACITY) true.

Definition new_ArrayBlockingQueue_capacity (capacity : Z) : ArrayBlockingQueue T :=
  mkArrayBlockingQueue (new_ArrayList_capacity DEFAULT_CAPACITY) true.

Definition on_list (f : ArrayList T -> outcome (bool * ArrayList T)) (q : ArrayBlockingQueue T)
    : outcome (bool * ArrayBlockingQueue T) :=
  r ← f (elements q); Ret (fst r, mkArrayBlockingQueue (snd r) (deleteList q)).

Definition push (element : T) (q : ArrayBlockingQueue T) : outcome (ArrayBlockingQueue T) :=
  r ← c_add element (elements q); Ret (mkArrayBlockingQueue (snd r) (deleteList q)).

Definition isEmpty (q : ArrayBlockingQueue T) : bool := c_isEmpty (elements q).

(** [while (isEmpty()) {}]: with nobody else running, an empty queue is waited
    for forever. *)
Definition pop (q : ArrayBlockingQueue T) : outcome (T * ArrayBlockingQueue T) :=
  if isEmpty q then Diverge
  else r ← l_removeAt 0 (elements q); Ret (fst r, mkArrayBlockingQueue (snd r) (deleteList q)).

Definition add (element : T) := on_list (c_add element).
Definition addAll (other : Iterable T) := on_list (c_addAll other).
Definition remove (element : T) := on_list (c_remove element).
Definition removeAll (other : Iterable T) := on_list (c_removeAll other).
Definition contains (element : T) (q : ArrayBlockingQueue T) : outcome bool :=
  c_contains element (elements q).
Definition containsAll (other : Iterable T) (q : ArrayBlockingQueue T) : outcome bool :=
  c_containsAll other (elements q).
Definition clear (q : ArrayBlockingQueue T) : outcome (ArrayBlockingQueue T) :=
  al ← c_clear (elements q); Ret (mkArrayBlockingQueue al (deleteList q)).
Definition begin (q : ArrayBlockingQueue T) : outcome (Iterator T) := c_begin (elements q).
Definition end_of (q : ArrayBlockingQueue T) : outcome (Iterator T) := c_end (elements q).
Definition size (q : ArrayBlockingQueue T) : Z := c_size (elements q).
Definition toArray (q : ArrayBlockingQueue T) : outcome (Array T) := c_toArray (elements q).

End operations.

#[global] Instance ABQ_collection {T} `{Junk T} `{EqDecision T} :
    Collection (ArrayBlockingQueue T) T := {|
  c_add := add;
  c_addAll := addAll;
  c_remove := remove;
  c_removeAll := removeAll;
  c_contains := contains;
  c_containsAll := containsAll;
  c_isEmpty := isEmpty;
  c_clear := clear;
  c_begin := begin;
  c_end := end_of;
  c_size := size;
  c_toArray := toArray
|}.

#[global] Instance ABQ_queue {T} `{Junk T} `{EqDecision T} :
    QueueOps (ArrayBlockingQueue T) T := {|
  Collections.push := push;
  Collections.pop := pop
|}.

End ArrayBlockingQueue.

(** ** The list an [ArrayList] holds *)

(** Null exactly when nothing has been allocated; as many slots as the capacity
    says, and no more elements than slots. *)
Record al_wf {T} (al : ArrayList T) : Prop := {
  al_slots : match elements al with
             | None => al_capacity al = 0
             | Some l => al_capacity al = Z.of_nat (length l)
             end;
  al_bounds : 0 <= al_length al <= al_capacity al;
  al_width : al_capacity al < 2 ^ 32
}.

Definition slots {T} (al : ArrayList T) : list T := default [] (elements al).

Definition al_view {T} (al : ArrayList T) : list T := take (Z.to_nat (al_length al)) (slots al).

(** An [ArrayList] that has been given slots. *)
Definition allocated {T} (al : ArrayList T) : Prop := is_Some (elements al).

Section ArrayListLemmas.
Context {T : Type} `{Junk T} `{EqDecision T}.
Implicit Types (al : ArrayList T) (l : list T).

Lemma length_slots al : al_wf al -> Z.of_nat (length (slots al)) = al_capacity al.
Proof. intros [Hs _ _]. unfold slots. destruct (elements al); simpl in *; lia. Qed.

Lemma length_al_view al : al_wf al -> Z.of_nat (length (al_view al)) = al_length al.
Proof.
  intros Hwf. pose proof (length_slots _ Hwf). pose proof (al_bounds _ Hwf).
  unfold al_view. rewrite length_take. lia.
Qed.

Lemma lookup_al_view al (i : nat) :
  Z.of_nat i < al_length al -> al_view al !! i = slots al !! i.
Proof. intros Hi. unfold al_view. by rewrite lookup_take_lt by lia. Qed.

Lemma slot_in_range al i :
  al_wf al -> 0 <= i < al_capacity al ->
  exists x, slots al !! Z.to_nat i = Some x /\ slot al i = Ret x.
Proof.
  intros Hwf Hi. pose proof (length_slots _ Hwf) as Hl.
  destruct (lookup_lt_is_Some_ex (slots al) (Z.to_nat i)) as [x Hx]; [lia|].
  exists x. split; [done|]. unfold slot, slots in *.
  destruct (elements al) as [l|]; [simpl in *|done].
  decide_bool. by rewrite Hx.
Qed.

Lemma slot_view al i x : al_wf al -> al_view al !! i = Some x -> slot al (Z.of_nat i) = Ret x.
Proof.
  intros Hwf Hx. pose proof (lookup_lt_Some _ _ _ Hx).
  pose proof (length_al_view _ Hwf). pose proof (al_bounds _ Hwf).
  destruct (slot_in_range al (Z.of_nat i)) as (y & Hy & ->); [done|lia|].
  rewrite lookup_al_view, <- (Nat2Z.id i) in Hx by lia. congruence.
Qed.

(** A raw read never fails once slots exist, wherever it goes. *)
Lemma slot_allocated al i : allocated al -> exists x, slot al i = Ret x.
Proof. intros [l Hl]. unfold slot. rewrite Hl. eauto. Qed.

Lemma store_slot_in_range al i x :
  al_wf al -> 0 <= i < al_capacity al ->
  exists al', store_slot al i x = Ret al' /\ al_wf al' /\ allocated al' /\
    slots al' = <[Z.to_nat i := x]> (slots al) /\
    al_capacity al' = al_capacity al /\ al_length al' = al_length al.
Proof.
  intros [Hs Hb Hw] Hi. unfold store_slot, slots, allocated.
  destruct (elements al) as [l|] eqn:El; [|lia]. decide_bool.
  eexists. split; [done|]. simpl. rewrite ?El. split_and!; try done.
  constructor; simpl; [|done|done]. by rewrite length_insert.
Qed.

Lemma al_view_ext al al' :
  al_wf al -> al_wf al' -> al_length al' = al_length al ->
  (forall i, Z.of_nat i < al_length al -> slots al' !! i = slots al !! i) ->
  al_view al' = al_view al.
Proof.
  intros Hwf Hwf' Hl Hs. apply list_eq_by_lookup.
  - apply Nat2Z.inj. rewrite !length_al_view by done. done.
  - intros i Hi. pose proof (length_al_view _ Hwf').
    rewrite !lookup_al_view by lia. apply Hs. lia.
Qed.

Lemma wf_with_length al n : al_wf al -> 0 <= n <= al_capacity al -> al_wf (with_length al n).
Proof. intros [? ? ?] ?. by constructor. Qed.

(** ** Growing *)

Lemma grow_spec fuel c n :
  0 < c < 2 ^ 32 -> n <= 2 ^ 31 -> n <= c * 2 ^ Z.of_nat fuel ->
  exists c', grow (S fuel) c n = Ret c' /\ n <= c' /\ c <= c' < 2 ^ 32.
Proof.
  revert c. induction fuel as [|fuel IH]; intros c Hc Hn Hp.
  - simpl in *. decide_bool. exists c. split; [done|lia].
  - cbn [grow]. split_guard; [|exists c; split; [done|lia]].
    wrap_small. destruct (IH (c * 2)) as (c' & E & ?); [lia|done| |].
    + rewrite Nat2Z.inj_succ, Z.pow_succ_r in Hp by lia. lia.
    + exists c'. split; [exact E|lia].
Qed.

Lemma ensureCapacity_spec n al :
  al_wf al -> n <= 2 ^ 31 ->
  exists al', ensureCapacity n al = Ret al' /\ al_wf al' /\ allocated al' /\
    n <= al_capacity al' /\ al_capacity al <= al_capacity al' /\ al_length al' = al_length al /\
    (forall i, Z.of_nat i < al_capacity al -> slots al' !! i = slots al !! i).
Proof.
  intros [Hs Hb Hw] Hn. unfold ensureCapacity.
  set (al0 := if al_capacity al =? 0 then _ else al).
  assert (H0 : al_wf al0 /\ allocated al0 /\ 0 < al_capacity al0 /\
               al_capacity al <= al_capacity al0 /\ al_length al0 = al_length al /\
               (forall i, Z.of_nat i < al_capacity al -> slots al0 !! i = slots al !! i)).
  { subst al0. split_guard.
    - unfold DEFAULT_CAPACITY.
      split_and!; cbn [elements al_capacity al_length]; try done; try lia; [|by eexists].
      constructor; cbn [elements al_capacity al_length]; [by rewrite length_fresh_slots|lia|lia].
    - split_and!; try done; try lia. unfold allocated. destruct (elements al); [by eexists|lia]. }
  clearbody al0. destruct H0 as ([Hs0 Hb0 Hw0] & Hal & Hpos & Hc & Hl & Hsl).
  split_guard; [exists al0; by split_and!|].
  destruct (grow_spec 33 (al_capacity al0) n) as (c & -> & Hc1 & Hc2); [lia|done|nia|].
  outcome. destruct Hal as [tmp Htmp]. rewrite Htmp in *. unfold reallocate.
  rewrite copy_loop_spec by (rewrite ?length_fresh_slots; lia).
  outcome. rewrite drop_0. simpl.
  rewrite (take_ge tmp) by lia.
  eexists. split; [done|].
  split_and!; simpl; try lia; [|by eexists|].
  - constructor; simpl; [|lia|lia].
    rewrite length_app, length_drop, length_fresh_slots. lia.
  - intros i Hi. rewrite <- Hsl by done. unfold slots. simpl. rewrite Htmp. simpl.
    apply lookup_app_l. lia.
Qed.

Lemma ensureCapacity_view n al :
  al_wf al -> n <= 2 ^ 31 ->
  exists al', ensureCapacity n al = Ret al' /\ al_wf al' /\ allocated al' /\
    n <= al_capacity al' /\ al_length al' = al_length al /\ al_view al' = al_view al.
Proof.
  intros Hwf Hn. pose proof (al_bounds _ Hwf).
  destruct (ensureCapacity_spec n al) as (al' & -> & Hwf' & Hal & Hc & _ & Hl & Hs); [done|done|].
  exists al'. split_and!; try done. apply al_view_ext; try done. intros i Hi. apply Hs. lia.
Qed.

(** Storing into the first unused slot and counting it appends. *)
Lemma store_append x al :
  al_wf al -> al_length al < al_capacity al ->
  exists al', store_slot al (al_length al) x = Ret al' /\ al_length al' = al_length al /\
    al_wf (with_length al' (al_length al + 1)) /\ allocated al' /\
    al_view (with_length al' (al_length al + 1)) = al_view al ++ [x].
Proof.
  intros Hwf Hc. pose proof (al_bounds _ Hwf). pose proof (length_slots _ Hwf).
  destruct (store_slot_in_range al (al_length al) x)
    as (al' & -> & Hwf' & Hal & Hs & Hc' & Hl); [done|lia|].
  exists al'. split_and!; try done; [apply wf_with_length; [done|lia]|].
  unfold al_view. change (slots (with_length al' (al_length al + 1))) with (slots al').
  rewrite Hs. simpl. rewrite Z2Nat.inj_add, Nat.add_1_r by lia.
  rewrite (take_S_r _ _ x) by (rewrite list_lookup_insert_eq; [done|lia]).
  by rewrite take_insert_ge.
Qed.

Lemma add_spec x al :
  al_wf al -> al_length al < 2 ^ 31 ->
  exists al', add x al = Ret (true, al') /\ al_wf al' /\ allocated al' /\
    al_view al' = al_view al ++ [x].
Proof.
  intros Hwf Hn. pose proof (al_bounds _ Hwf). unfold add. wrap_small.
  destruct (ensureCapacity_view (al_length al + 1) al)
    as (al1 & -> & Hwf1 & Hal1 & Hc1 & Hl1 & <-); [done|lia|]. outcome.
  pose proof (al_width _ Hwf1).
  destruct (store_append x al1) as (al2 & -> & Hl2 & Hwf2 & Hal2 & Hv); [done|lia|]. outcome.
  rewrite Hl2. wrap_small. eauto 10.
Qed.

(** ** Reading and searching *)

Lemma get_spec al i x : al_wf al -> al_view al !! i = Some x -> get (Z.of_nat i) al = Ret x.
Proof.
  intros Hwf Hx. pose proof (lookup_lt_Some _ _ _ Hx). pose proof (length_al_view _ Hwf).
  unfold get. decide_bool. by apply slot_view.
Qed.

Lemma indexOf_loop_spec fuel (i : nat) x al :
  al_wf al -> allocated al -> Z.of_nat i <= al_length al ->
  (forall j y, (j < i)%nat -> al_view al !! j = Some y -> y <> x) ->
  al_length al - Z.of_nat i < Z.of_nat fuel ->
  indexOf_loop fuel (Z.of_nat i) x al =
    Ret (match list_find (fun y => x = y) (al_view al) with
         | Some (k, _) => Z.of_nat k
         | None => al_length al
         end).
Proof.
  intros Hwf Hal. pose proof (length_al_view _ Hwf) as Hlen. revert i.
  induction fuel as [|fuel IH]; intros i Hi Hlow Hf; [lia|]. cbn [indexOf_loop].
  destruct (decide (Z.of_nat i = al_length al)) as [Heq|Hne].
  - destruct (slot_allocated al (Z.of_nat i) Hal) as [y ->]. outcome.
    decide_bool. rewrite andb_false_r.
    destruct (list_find _ _) as [[k y']|] eqn:Ef; [|by rewrite Heq].
    apply list_find_Some in Ef as (Hk & <- & _). pose proof (lookup_lt_Some _ _ _ Hk).
    destruct (Hlow k x); [lia|done|done].
  - destruct (lookup_lt_is_Some_ex (al_view al) i) as [y Hy]; [lia|].
    rewrite (slot_view _ _ _ Hwf Hy). outcome. decide_bool. rewrite andb_true_r.
    case_bool_decide as Hxy.
    + replace (Z.of_nat i + 1) with (Z.of_nat (S i)) by lia. apply IH; [lia| |lia].
      intros j z Hj Hz. destruct (decide (j = i)) as [->|]; [congruence|].
      apply (Hlow j); [lia|done].
    + subst y. f_equal.
      rewrite (proj2 (list_find_Some (fun y => x = y) (al_view al) i x)); [done|].
      split_and!; [done|done|]. intros j z Hz Hj ->. by apply (Hlow j z).
Qed.

Lemma indexOf_spec x al :
  al_wf al -> allocated al ->
  indexOf x al = Ret (match list_find (fun y => x = y) (al_view al) with
                      | Some (k, _) => Z.of_nat k
                      | None => UINT32_MAX
                      end).
Proof.
  intros Hwf Hal. unfold indexOf. change 0 with (Z.of_nat 0).
  pose proof (al_bounds _ Hwf). pose proof (length_al_view _ Hwf).
  rewrite indexOf_loop_spec by (try done; lia). outcome.
  destruct (list_find _ _) as [[k y]|] eqn:Ef.
  - apply list_find_Some in Ef as (Hk & _). pose proof (lookup_lt_Some _ _ _ Hk).
    by decide_bool.
  - by rewrite Z.eqb_refl.
Qed.

(** A list that was never allocated is read at address null by every search. *)
Lemma indexOf_unallocated x al : ~ allocated al -> indexOf x al = Fault.
Proof.
  intros Hn. unfold indexOf. cbn [indexOf_loop]. unfold slot. unfold allocated in Hn.
  destruct (elements al); [|done]. by destruct Hn.
Qed.

Lemma contains_unallocated x al : ~ allocated al -> contains x al = Fault.
Proof. intros Hn. unfold contains. by rewrite indexOf_unallocated. Qed.

Lemma contains_spec x al :
  al_wf al -> allocated al -> contains x al = Ret (bool_decide (x ∈ al_view al)).
Proof.
  intros Hwf Hal. unfold contains. rewrite indexOf_spec by done. outcome. f_equal.
  pose proof (length_al_view _ Hwf). pose proof (al_bounds _ Hwf). pose proof (al_width _ Hwf).
  destruct (list_find _ _) as [[k y]|] eqn:Ef.
  - apply list_find_Some in Ef as (Hk & <- & _). pose proof (lookup_lt_Some _ _ _ Hk).
    rewrite bool_decide_true by (by eapply list_elem_of_lookup_2). by decide_bool.
  - apply list_find_None_not_in in Ef.
    rewrite bool_decide_false by done.
    unfold UINT32_MAX. by decide_bool.
Qed.

(** ** Removing *)

Lemma shift_down_spec n (i : nat) (index : nat) al :
  al_wf al -> Z.of_nat (index + i + n) < al_capacity al ->
  exists al', shift_down n (Z.of_nat i) (Z.of_nat index) al = Ret al' /\ al_wf al' /\
    al_capacity al' = al_capacity al /\ al_length al' = al_length al /\
    (elements al = None -> elements al' = None) /\ (allocated al -> allocated al') /\
    forall j, slots al' !! j =
      if decide (index + i <= j < index + i + n)%nat then slots al !! S j else slots al !! j.
Proof.
  revert i al. induction n as [|n IH]; intros i al Hwf Hr; cbn [shift_down].
  - exists al. split_and!; try done. intros j. case_decide; [lia|done].
  - pose proof (al_width _ Hwf). wrap_small.
    destruct (slot_in_range al (Z.of_nat index + Z.of_nat i + 1)) as (x & Hx & ->); [done|lia|].
    outcome.
    destruct (store_slot_in_range al (Z.of_nat index + Z.of_nat i) x)
      as (al1 & -> & Hwf1 & Hal1 & Hs1 & Hc1 & Hl1); [done|lia|]. outcome.
    replace (Z.of_nat i + 1) with (Z.of_nat (S i)) by lia.
    destruct (IH (S i) al1) as (al2 & -> & Hwf2 & Hc2 & Hl2 & Hn2 & Hal2 & Hs2); [done|lia|].
    exists al2. split_and!; try done; try congruence; [|by auto|].
    + intros Hno. pose proof (al_slots _ Hwf) as Hz. rewrite Hno in Hz. lia.
    + intros j. rewrite Hs2, Hs1.
      replace (Z.to_nat (Z.of_nat index + Z.of_nat i + 1)) with (S (index + i)) in Hx by lia.
      replace (Z.to_nat (Z.of_nat index + Z.of_nat i)) with (index + i)%nat by lia.
      pose proof (length_slots _ Hwf).
      destruct (decide (j = index + i)%nat) as [->|].
      * rewrite decide_False, decide_True, list_lookup_insert_eq by lia. done.
      * case_decide; [rewrite decide_True by lia|rewrite decide_False by lia];
          by rewrite list_lookup_insert_ne by lia.
Qed.

Lemma removeAt_spec al (i : nat) x :
  al_wf al -> al_view al !! i = Some x ->
  exists al', removeAt (Z.of_nat i) al = Ret (x, al') /\ al_wf al' /\ allocated al' /\
    al_view al' = base.delete i (al_view al).
Proof.
  intros Hwf Hx. pose proof (lookup_lt_Some _ _ _ Hx) as Hlt.
  pose proof (length_al_view _ Hwf) as Hlen. pose proof (al_bounds _ Hwf). pose proof (al_width _ Hwf).
  assert (Hal : allocated al).
  { unfold allocated. pose proof (al_slots _ Hwf) as Hz. destruct (elements al); [done|lia]. }
  unfold removeAt. decide_bool. rewrite (slot_view _ _ _ Hwf Hx). outcome. wrap_small.
  destruct (shift_down_spec (Z.to_nat (al_length al - Z.of_nat i - 1)) 0 i al)
    as (al1 & E1 & Hwf1 & Hc1 & Hl1 & _ & Hal1 & Hs1); [done|lia|].
  assert (Hmove : (if al_length al - Z.of_nat i - 1 =? 0 then Ret al
                   else shift_down (Z.to_nat (al_length al - Z.of_nat i - 1)) 0 (Z.of_nat i) al)
                  = Ret al1).
  { split_guard; [|exact E1]. rewrite <- E1.
    replace (Z.to_nat (al_length al - Z.of_nat i - 1)) with 0%nat by lia. done. }
  rewrite Hmove. outcome. rewrite Hl1. wrap_small.
  assert (Hwf' : al_wf (with_length al1 (al_length al - 1))) by (apply wf_with_length; [done|lia]).
  eexists. split; [done|]. split_and!; [done|by apply Hal1|].
  pose proof (length_al_view _ Hwf') as Hlen'. simpl in Hlen'.
  apply list_eq_by_lookup.
  - rewrite length_delete by done. lia.
  - intros j Hj. rewrite lookup_al_view by (simpl; lia).
    change (slots (with_length al1 (al_length al - 1))) with (slots al1). rewrite Hs1.
    case_decide.
    + rewrite list_lookup_delete_ge by lia. by rewrite lookup_al_view by lia.
    + rewrite list_lookup_delete_lt by lia. by rewrite lookup_al_view by lia.
Qed.

Lemma remove_spec x al :
  al_wf al -> allocated al ->
  exists al', remove x al = Ret (bool_decide (x ∈ al_view al), al') /\ al_wf al' /\ allocated al' /\
    al_view al' = match list_find (fun y => x = y) (al_view al) with
                  | Some (i, _) => base.delete i (al_view al)
                  | None => al_view al
                  end.
Proof.
  intros Hwf Hal. pose proof (length_al_view _ Hwf). pose proof (al_bounds _ Hwf).
  pose proof (al_width _ Hwf). unfold remove. rewrite indexOf_spec by done. outcome.
  destruct (list_find _ _) as [[k y]|] eqn:Ef.
  - apply list_find_Some in Ef as (Hk & <- & _). pose proof (lookup_lt_Some _ _ _ Hk).
    decide_bool. destruct (removeAt_spec al k x) as (al' & -> & Hwf' & Hal' & Hv); [done|done|].
    outcome. exists al'. rewrite bool_decide_true by (by eapply list_elem_of_lookup_2). auto.
  - apply list_find_None_not_in in Ef. unfold UINT32_MAX. decide_bool.
    exists al. rewrite bool_decide_false by done. auto.
Qed.

Lemma nonempty_allocated al : al_wf al -> al_view al <> [] -> allocated al.
Proof.
  intros Hwf Hv. unfold al_view, slots in Hv. unfold allocated. destruct (elements al); [done|]. simpl in Hv. by rewrite take_nil in Hv.
Qed.

(** Removing a value from a list without duplicates. *)
Lemma remove_filter x al :
  al_wf al -> allocated al -> NoDup (al_view al) ->
  exists r al', remove x al = Ret (r, al') /\ al_wf al' /\ allocated al' /\ al_view al' = filter (fun y => y <> x) (al_view al).
Proof.
  intros Hwf Hal Hnd. destruct (remove_spec x al Hwf Hal) as (al' & E & Hwf' & Hal' & Hv). eexists _, al'. split_and!; [exact E|done|done|].
  rewrite Hv. destruct (list_find _ _) as [[i y]|] eqn:Ef.
  - apply list_find_Some in Ef as (Hi & <- & _). rewrite delete_take_drop. pose proof (take_drop_middle _ _ _ Hi) as El.
    generalize dependent (take i (al_view al)). generalize (drop (S i) (al_view al)). intros u t El. rewrite <- El in Hnd |- *.
    apply NoDup_app in Hnd as (_ & H2 & H3). apply NoDup_cons in H3 as [H3 _]. rewrite filter_app, filter_cons_False by tauto.
    rewrite !filter_all; [done| |]; intros y Hy ->; [done|]. apply (H2 x Hy). left.
  - apply list_find_None_not_in in Ef. symmetry. apply filter_all. by intros y Hy ->.
Qed.

(** ** Inserting in the middle *)

Lemma shift_up_spec fuel (i index : nat) al :
  al_wf al -> (index <= i)%nat -> Z.of_nat i < al_capacity al -> (i - index < fuel)%nat ->
  exists al', shift_up fuel (Z.of_nat i) (Z.of_nat index) al = Ret al' /\ al_wf al' /\
    al_capacity al' = al_capacity al /\ al_length al' = al_length al /\
    forall j, slots al' !! j =
      if decide (index < j <= i)%nat then slots al !! (j - 1)%nat else slots al !! j.
Proof.
  revert i al. induction fuel as [|fuel IH]; intros i al Hwf Hi Hr Hf; [lia|]. cbn [shift_up].
  split_guard.
  2: { exists al. split_and!; try done. intros j. case_decide; [lia|done]. }
  pose proof (al_width _ Hwf). wrap_small.
  destruct (slot_in_range al (Z.of_nat i - 1)) as (x & Hx & ->); [done|lia|]. outcome.
  destruct (store_slot_in_range al (Z.of_nat i) x)
    as (al1 & -> & Hwf1 & _ & Hs1 & Hc1 & Hl1); [done|lia|]. outcome.
  replace (Z.of_nat i - 1) with (Z.of_nat (i - 1)) in * by lia.
  destruct (IH (i - 1)%nat al1) as (al2 & -> & Hwf2 & Hc2 & Hl2 & Hs2); [done|lia|lia|lia|].
  exists al2. split_and!; try done; try congruence. intros j. rewrite Hs2, Hs1.
  pose proof (length_slots _ Hwf). rewrite !Nat2Z.id in *.
  destruct (decide (j = i)) as [->|].
  - rewrite decide_False, decide_True by lia.
    rewrite list_lookup_insert_eq by lia. done.
  - case_decide; [rewrite decide_True by lia|rewrite decide_False by lia];
      rewrite list_lookup_insert_ne by lia; done.
Qed.

(** On an empty list the index starts at [2^32 - 1]. *)
Lemma shift_up_wraps fuel x al :
  al_wf al -> allocated al ->
  (al ← shift_up (S fuel) (u32 (0 - 1)) 0 al;
   al ← store_slot al 0 x; Ret (with_length al (u32 (al_length al + 1)))) = Fault.
Proof.
  intros Hwf Hal. cbn [shift_up]. change (u32 (0 - 1)) with (2 ^ 32 - 1).
  change (0 <? 2 ^ 32 - 1) with true. cbn [negb].
  destruct (slot_allocated al (u32 (2 ^ 32 - 1 - 1)) Hal) as [y ->]. outcome.
  pose proof (al_slots _ Hwf) as Hs. pose proof (al_width _ Hwf).
  destruct Hal as [l Hl]. rewrite Hl in Hs.
  assert (E : store_slot al (2 ^ 32 - 1) y = Fault)
    by (unfold store_slot; rewrite Hl; by decide_bool).
  by rewrite E.
Qed.

(** With room for one more element: the elements from [index] on move up, the
    last one is lost. *)
Lemma insert_middle al x (index : nat) :
  al_wf al -> Z.of_nat index < al_length al -> al_length al < al_capacity al ->
  exists al' stale,
    (al ← shift_up (S (Z.to_nat (al_length al))) (u32 (al_length al - 1)) (Z.of_nat index) al;
     al ← store_slot al (Z.of_nat index) x; Ret (with_length al (u32 (al_length al + 1))))
    = Ret al' /\ al_wf al' /\
    al_view al' = take index (al_view al) ++ x ::
                  take (length (al_view al) - 1 - index) (drop index (al_view al)) ++ [stale].
Proof.
  intros Hwf Hi Hc. pose proof (al_width _ Hwf). pose proof (length_al_view _ Hwf) as Hlen.
  pose proof (length_slots _ Hwf) as Hsl. wrap_small.
  replace (al_length al - 1) with (Z.of_nat (length (al_view al) - 1)) by lia.
  destruct (shift_up_spec (S (Z.to_nat (al_length al))) (length (al_view al) - 1) index al)
    as (al1 & -> & Hwf1 & Hc1 & Hl1 & Hs1); [done|lia|lia|lia|]. outcome.
  destruct (store_slot_in_range al1 (Z.of_nat index) x)
    as (al2 & -> & Hwf2 & _ & Hs2 & Hc2 & Hl2); [done|lia|]. outcome.
  rewrite Hl2, Hl1. wrap_small.
  destruct (lookup_lt_is_Some_ex (slots al) (length (al_view al))) as [stale Hst]; [lia|].
  assert (Hwf' : al_wf (with_length al2 (al_length al + 1))) by (apply wf_with_length; [done|lia]).
  exists (with_length al2 (al_length al + 1)), stale. split_and!; try done.
  pose proof (length_al_view _ Hwf') as Hlen'. simpl in Hlen'.
  pose proof (length_slots _ Hwf1) as Hsl1.
  apply list_eq_by_lookup.
  - rewrite length_app, length_take. simpl. rewrite length_app, length_take, length_drop. simpl. lia.
  - intros j Hj. rewrite lookup_al_view by (simpl; lia).
    change (slots (with_length al2 (al_length al + 1))) with (slots al2).
    rewrite Hs2, Nat2Z.id.
    destruct (decide (j < index)%nat).
    { rewrite list_lookup_insert_ne, Hs1, decide_False by lia.
      rewrite lookup_app_l by (rewrite length_take; lia).
      by rewrite lookup_take_lt, lookup_al_view by lia. }
    rewrite lookup_app_r by (rewrite length_take; lia). rewrite length_take_le by lia.
    destruct (decide (j = index)) as [->|].
    { rewrite list_lookup_insert_eq, Nat.sub_diag by lia. done. }
    rewrite list_lookup_insert_ne, Hs1 by lia.
    replace (j - index)%nat with (S (j - index - 1)) by lia. simpl.
    destruct (decide (j = length (al_view al))) as [->|].
    + rewrite decide_False by lia. rewrite lookup_app_r by (rewrite length_take, length_drop; lia).
      rewrite length_take, length_drop.
      match goal with |- _ = [stale] !! ?k => replace k with 0%nat by lia end. done.
    + rewrite decide_True by lia. rewrite lookup_app_l by (rewrite length_take, length_drop; lia).
      rewrite lookup_take_lt, lookup_drop by lia.
      replace (index + (j - index - 1))%nat with (j - 1)%nat by lia.
      by rewrite lookup_al_view by lia.
Qed.

Lemma wf_toArray_loop n (i : nat) al a :
  al_wf al -> wf a -> (i + n = length (al_view al))%nat -> length (array a) = length (al_view al) ->
  toArray_loop n i al a = Ret (mkArray (take i (array a) ++ drop i (al_view al)) (capacity a)).
Proof.
  intros Hwf. revert i a. induction n as [|n IH]; intros i a Ha Hi Hl; cbn [toArray_loop].
  - rewrite (drop_ge (al_view al)), app_nil_r, take_ge by lia. by destruct a.
  - destruct (lookup_lt_is_Some_ex (al_view al) i) as [x Hx]; [lia|].
    rewrite (slot_view _ _ _ Hwf Hx). outcome. pose proof Ha as [Hc _].
    rewrite put_in_range by (try done; lia). outcome. rewrite Nat2Z.id.
    rewrite IH; [|by apply wf_put|lia|cbn [array]; by rewrite length_insert].
    cbn [array capacity].
    rewrite (take_S_r _ _ x) by (rewrite list_lookup_insert_eq; [done|lia]).
    rewrite take_insert_ge, <- app_assoc by done. by rewrite (drop_S _ _ _ Hx).
Qed.

Lemma toArray_spec al :
  al_wf al -> toArray al = Ret (mkArray (al_view al) (al_length al)).
Proof.
  intros Hwf. pose proof (length_al_view _ Hwf). pose proof (al_bounds _ Hwf).
  pose proof (al_width _ Hwf). unfold toArray.
  rewrite wf_toArray_loop; try done.
  - apply wf_new_Array. unfold is_u32. lia.
  - lia.
  - simpl. rewrite length_fresh_slots. lia.
Qed.

(** A loop over the indices is a fold over the elements. *)
Lemma foldM_get {S} (f : T -> S -> outcome S) (al : ArrayList T) : al_wf al -> forall s,
  foldM (fun i s => h ← get (Z.of_nat i) al; f h s) (seq 0 (Z.to_nat (size al))) s = foldM f (al_view al) s.
Proof.
  intros Hwf. pose proof (length_al_view _ Hwf) as Hlen. change (size al) with (al_length al). rewrite <- Hlen, Nat2Z.id.
  assert (Hgen : forall l k s, l = drop k (al_view al) -> (k + length l = length (al_view al))%nat ->
    foldM (fun i s => h ← get (Z.of_nat i) al; f h s) (seq k (length l)) s = foldM f l s).
  { induction l as [|h l IH]; intros k s El Hk; [done|]. cbn [length seq foldM].
    assert (Hh : al_view al !! k = Some h) by (rewrite <- (Nat.add_0_r k), <- lookup_drop, <- El; done).
    rewrite (get_spec al k h Hwf Hh). outcome. destruct (f h s); [|done..]. outcome. simpl in Hk. apply IH; [|lia].
    rewrite (drop_S _ _ _ Hh) in El. by injection El. }
  intros s. apply Hgen; [by rewrite drop_0|done].
Qed.

(** Iterating over an [ArrayList] yields its elements in order. *)
Lemma ArrayList_yields al : al_wf al -> yields (iterable_of al) (al_view al).
Proof.
  intros Hwf. pose proof (length_al_view _ Hwf). pose proof (al_bounds _ Hwf).
  pose proof (al_width _ Hwf).
  assert (Ha : wf (mkArray (al_view al) (al_length al))) by (split; simpl; lia).
  exists (mkArray (al_view al) (al_length al)),
         (mkIterator (mkArray (al_view al) (al_length al)) (al_length al)).
  split_and!; try done; simpl.
  - unfold begin. rewrite toArray_spec by done. outcome. by apply new_Iterator_spec.
  - unfold end_of. rewrite toArray_spec by done. outcome. by apply new_Iterator_spec.
Qed.

Lemma set_spec al (i : nat) x :
  al_wf al -> Z.of_nat i < al_length al ->
  exists al', set (Z.of_nat i) x al = Ret al' /\ al_wf al' /\
    al_view al' = <[i := x]> (al_view al).
Proof.
  intros Hwf Hi. pose proof (al_bounds _ Hwf). unfold set. decide_bool.
  destruct (store_slot_in_range al (Z.of_nat i) x)
    as (al' & -> & Hwf' & _ & Hs & _ & Hl); [done|lia|].
  exists al'. split_and!; try done. unfold al_view. rewrite Hl, Hs, Nat2Z.id.
  by rewrite take_insert_lt by lia.
Qed.

(** Adding the elements of a list one after the other appends the list. *)
Lemma fold_add_spec l al :
  al_wf al -> al_length al + Z.of_nat (length l) < 2 ^ 31 ->
  exists al', foldM (fun x al => r ← add x al; Ret (snd r)) l al = Ret al' /\
    al_wf al' /\ (allocated al -> allocated al') /\ al_view al' = al_view al ++ l.
Proof.
  revert al. induction l as [|x l IH]; intros al Hwf Hn.
  - exists al. simpl. by rewrite app_nil_r.
  - simpl in Hn. cbn [foldM].
    destruct (add_spec x al) as (al1 & -> & Hwf1 & Hal1 & Hv1); [done|lia|]. outcome.
    pose proof (length_al_view _ Hwf1) as Hl1. rewrite Hv1, length_app in Hl1.
    pose proof (length_al_view _ Hwf). simpl in Hl1.
    destruct (IH al1) as (al2 & -> & Hwf2 & Hal2 & Hv2); [done|lia|].
    exists al2. split_and!; auto. by rewrite Hv2, Hv1, <- app_assoc.
Qed.

Lemma addAll_spec other l al :
  yields other l -> al_wf al -> allocated al ->
  al_length al + Z.of_nat (length l) < 2 ^ 31 ->
  exists al', addAll other al = Ret (true, al') /\ al_wf al' /\ allocated al' /\
    al_view al' = al_view al ++ l.
Proof.
  intros Hy Hwf Hal Hn. unfold addAll. rewrite (range_for_yields _ l) by done.
  destruct (fold_add_spec l al) as (al' & -> & ? & ? & ?); [done|done|]. outcome. eauto 10.
Qed.
End ArrayListLemmas.

(** ** [ArrayBlockingQueue] is a queue *)

Module QueueInstances.
Import ArrayBlockingQueue.

Section instances.
Context {T : Type} `{Junk T} `{EqDecision T}.

(** The inner list has slots from construction on. *)
Definition abq_inv (q : ArrayBlockingQueue T) : Prop :=
  al_wf (elements q) /\ allocated (elements q).

Definition abq_view (q : ArrayBlockingQueue T) : list T := al_view (elements q).

Lemma abq_inv_new : abq_inv new_ArrayBlockingQueue /\ abq_view new_ArrayBlockingQueue = [].
Proof.
  split; [|done]. split; [|by eexists].
  constructor; cbn [ArrayBlockingQueue.elements new_ArrayBlockingQueue new_ArrayList_capacity
    ArrayList.elements al_capacity al_length]; unfold DEFAULT_CAPACITY;
    [by rewrite length_fresh_slots|lia|lia].
Qed.

Lemma abq_isEmpty q : abq_inv q -> isEmpty q = bool_decide (abq_view q = []).
Proof.
  intros [Hwf _]. pose proof (length_al_view _ Hwf) as Hl. unfold isEmpty. simpl.
  unfold ArrayList.isEmpty, abq_view in *.
  case_bool_decide as He.
  - rewrite He in Hl. simpl in Hl. by decide_bool.
  - destruct (al_view (elements q)); [done|]. simpl in Hl. by decide_bool.
Qed.

#[global] Program Instance ABQ_queue_spec : QueueSpec (ArrayBlockingQueue T) T := {|
  q_inv := abq_inv; q_view := abq_view
|}.
Next Obligation.
  intros q x [Hwf Hal] Hn. unfold abq_view in *. pose proof (length_al_view _ Hwf).
  simpl. unfold push. simpl.
  destruct (add_spec x (elements q)) as (al' & -> & Hwf' & Hal' & Hv); [done|lia|].
  outcome. eexists. split; [done|]. by split.
Qed.
Next Obligation.
  intros q x l Hinv Hv. pose proof Hinv as [Hwf Hal]. simpl. unfold pop.
  rewrite abq_isEmpty by done. rewrite (bool_decide_false (abq_view q = [])) by (by rewrite Hv).
  unfold abq_view in Hv. simpl.
  destruct (removeAt_spec (elements q) 0 x) as (al' & E & Hwf' & Hal' & Hv');
    [done|by rewrite Hv|].
  change (Z.of_nat 0) with 0 in E. rewrite E. outcome.
  eexists. split; [done|]. split; [by split|]. unfold abq_view. simpl. by rewrite Hv', Hv.
Qed.
Next Obligation.
  intros q Hinv Hv. simpl. unfold pop. rewrite abq_isEmpty by done.
  by rewrite bool_decide_true.
Qed.
Next Obligation. intros q Hinv. by apply abq_isEmpty. Qed.
Next Obligation.
  intros q [Hwf _]. simpl. unfold size. simpl. unfold ArrayList.size.
  by rewrite <- length_al_view.
Qed.

#[global] Program Instance ABQ_remove_spec : QueueRemoveSpec (ArrayBlockingQueue T) T.
Next Obligation.
  intros q x [Hwf Hal]. simpl. unfold remove, on_list. simpl.
  destruct (remove_spec x (elements q)) as (al' & E & Hwf' & Hal' & Hv); [done|done|].
  rewrite E. outcome. eexists. split; [done|]. by split.
Qed.
End instances.
End QueueInstances.

(** ** Clients of the queue interface *)

Definition pushAll {C T} `{QueueOps C T} (xs : list T) (c : C) : outcome C := foldM push xs c.

Fixpoint popN {C T} `{QueueOps C T} (n : nat) (c : C) : outcome (list T * C) :=
  match n with
  | O => Ret ([], c)
  | S n => r ← pop c; rs ← popN n (snd r); Ret (fst r :: fst rs, snd rs)
  end.

Section clients.
Context {C T : Type} `{QS : QueueSpec C T}.

Lemma pushAll_spec xs c :
  q_inv c -> Z.of_nat (length (q_view c) + length xs) < 2 ^ 30 ->
  exists c', pushAll xs c = Ret c' /\ q_inv c' /\ q_view c' = q_view c ++ xs.
Proof.
  revert c. induction xs as [|x xs IH]; intros c Hinv Hn.
  - exists c. simpl. by rewrite app_nil_r.
  - simpl in Hn. unfold pushAll. cbn [foldM].
    destruct (q_push c x) as (c1 & -> & Hinv1 & Hv1); [done|lia|]. outcome.
    destruct (IH c1) as (c2 & E2 & Hinv2 & Hv2); [done|rewrite Hv1, length_app; simpl; lia|].
    exists c2. split; [exact E2|]. by rewrite Hv2, Hv1, <- app_assoc.
Qed.

Lemma popN_spec xs ys c :
  q_inv c -> q_view c = xs ++ ys ->
  exists c', popN (length xs) c = Ret (xs, c') /\ q_inv c' /\ q_view c' = ys.
Proof.
  revert c. induction xs as [|x xs IH]; intros c Hinv Hv; [by exists c|].
  cbn [popN length]. destruct (q_pop c x (xs ++ ys)) as (c1 & -> & Hinv1 & Hv1); [done|done|].
  outcome. destruct (IH c1) as (c2 & -> & Hinv2 & Hv2); [done|done|]. by exists c2.
Qed.

(** A queue delivers in arrival order: after pushing [xs] behind what is
    waiting, popping as many elements as are then in it returns exactly the
    old contents followed by [xs], and one more [pop] waits. Proved for every
    implementation of the queue interface. *)
Theorem queue_fifo xs c :
  q_inv c -> Z.of_nat (length (q_view c) + length xs) < 2 ^ 30 ->
  exists c1 c2, pushAll xs c = Ret c1 /\
    popN (length (q_view c) + length xs) c1 = Ret (q_view c ++ xs, c2) /\
    q_inv c2 /\ c_isEmpty c2 = true /\ pop c2 = Diverge.
Proof.
  intros Hinv Hn. destruct (pushAll_spec xs c) as (c1 & E1 & Hinv1 & Hv1); [done|done|].
  destruct (popN_spec (q_view c ++ xs) [] c1) as (c2 & E2 & Hinv2 & Hv2);
    [done|by rewrite app_nil_r|].
  rewrite length_app in E2. exists c1, c2. split_and!; try done.
  - rewrite q_isEmpty by done. by apply bool_decide_true.
  - by apply q_pop_waits.
Qed.
End clients.

Lemma queue_fifo_witness :
  exists c1 c2,
    pushAll [4; 5; 6] (ArrayBlockingQueue.new_ArrayBlockingQueue (T:=Z)) = Ret c1 /\
    popN 3 c1 = Ret ([4; 5; 6], c2) /\
    QueueInstances.abq_inv c2 /\ ArrayBlockingQueue.isEmpty c2 = true.
Proof.
  destruct (queue_fifo (QS := QueueInstances.ABQ_queue_spec) [4; 5; 6]
    (ArrayBlockingQueue.new_ArrayBlockingQueue (T:=Z))) as (c1 & c2 & E1 & E2 & Hi & He & _).
  - apply QueueInstances.abq_inv_new.
  - simpl. lia.
  - exists c1, c2. split; [exact E1|]. split; [exact E2|]. split; [exact Hi|exact He].
Defined.

(** ** Properties of [ArrayList] *)

(** C38. A well-formed [ArrayList], a new one included, implements a list: [add]
    appends (allocating the first slots and growing when full), [get], [set] and
    [remove(index)] act on the element at that position, an index behind the end
    throws (or, for [set], does nothing), [toArray], [size], [isEmpty] and [clear]
    are those of the list; once the list has slots [indexOf], [contains] and
    [remove(element)] find the first occurrence, independent of what the unused
    slots hold, and before that they read through the null pointer. Left out are
    [add(index, element)], which is not list insertion: [insert_at_behaviour], the
    operations that take a second collection, and the iterators. *)
Theorem arraylist_refines_list {T} `{Junk T} `{EqDecision T} (al : ArrayList T) (x : T) (i : nat) :
  al_wf al -> al_length al < 2 ^ 31 ->
  (exists al', add x al = Ret (true, al') /\ al_wf al' /\ allocated al' /\ al_view al' = al_view al ++ [x]) /\
  get (Z.of_nat i) al = match al_view al !! i with
                        | Some y => Ret y | None => Throw OUT_OF_BOUNDS end /\
  (exists al', set (Z.of_nat i) x al = Ret al' /\ al_wf al' /\
     al_view al' = <[i := x]> (al_view al)) /\
  match al_view al !! i with
  | Some y => exists al', removeAt (Z.of_nat i) al = Ret (y, al') /\ al_wf al' /\
                al_view al' = base.delete i (al_view al)
  | None => removeAt (Z.of_nat i) al = Throw OUT_OF_BOUNDS
  end /\
  toArray al = Ret (mkArray (al_view al) (size al)) /\
  size al = Z.of_nat (length (al_view al)) /\
  isEmpty al = bool_decide (al_view al = []) /\
  (al_wf (clear al) /\ al_view (clear al) = []) /\
  (al_wf (new_ArrayList (T := T)) /\ al_view (new_ArrayList (T := T)) = [] /\ ~ allocated (new_ArrayList (T := T))) /\
  (allocated al ->
     indexOf x al = Ret (match list_find (fun y => x = y) (al_view al) with
                         | Some (k, _) => Z.of_nat k | None => UINT32_MAX end) /\
     contains x al = Ret (bool_decide (x ∈ al_view al)) /\
     exists al', remove x al = Ret (bool_decide (x ∈ al_view al), al') /\ al_wf al' /\
       al_view al' = match list_find (fun y => x = y) (al_view al) with
                     | Some (k, _) => base.delete k (al_view al)
                     | None => al_view al end) /\
  (~ allocated al -> indexOf x al = Fault /\ contains x al = Fault /\ remove x al = Fault).
Proof.
  intros Hwf Hn. pose proof (length_al_view _ Hwf) as Hlen. pose proof (al_bounds _ Hwf) as Hb. split_and!.
  - by apply add_spec.
  - destruct (al_view al !! i) as [y|] eqn:Hy; [by apply get_spec|].
    apply lookup_ge_None in Hy. unfold get. by decide_bool.
  - destruct (decide (Z.of_nat i < al_length al)); [by apply set_spec|].
    exists al. unfold set. decide_bool. rewrite list_insert_ge by lia. done.
  - destruct (al_view al !! i) as [y|] eqn:Hy.
    + destruct (removeAt_spec al i y) as (al' & -> & ? & _ & ?); eauto.
    + apply lookup_ge_None in Hy. unfold removeAt. by decide_bool.
  - by apply toArray_spec.
  - done.
  - unfold isEmpty. destruct (al_view al) as [|y l]; simpl in Hlen; decide_bool; done.
  - apply wf_with_length; [done|lia].
  - done.
  - constructor; simpl; lia.
  - done.
  - by intros [l Hl].
  - intros Hal. split_and!; [by apply indexOf_spec|by apply contains_spec|].
    destruct (remove_spec x al) as (al' & -> & ? & _ & ?); eauto.
  - intros Hal. unfold contains, remove. rewrite indexOf_unallocated by done. done.
Qed.

Lemma arraylist_refines_list_witness :
  let al := mkArrayList (Some [3; 1; 4; 1]) 4 3 in
  al_wf al /\ contains 1 al = Ret true /\ indexOf 4 al = Ret 2 /\
  get 5 al = Throw OUT_OF_BOUNDS /\ contains 1 new_ArrayList = Fault /\
  exists al', add 7 new_ArrayList = Ret (true, al') /\ al_view al' = [7].
Proof.
  set (al := mkArrayList (Some [3; 1; 4; 1]) 4 3).
  assert (Hwf : al_wf al) by (constructor; simpl; lia).
  destruct (arraylist_refines_list al 1 5%nat Hwf ltac:(simpl; lia))
    as (_ & Hget & _ & _ & _ & _ & _ & _ & (Hnew & _ & Hna) & Hall & _).
  destruct Hall as (_ & Hc & _); [exists [3; 1; 4; 1]; reflexivity|].
  destruct (arraylist_refines_list al 4 5%nat Hwf ltac:(simpl; lia))
    as (_ & _ & _ & _ & _ & _ & _ & _ & _ & Hall & _).
  destruct Hall as (Hi & _); [exists [3; 1; 4; 1]; reflexivity|].
  destruct (arraylist_refines_list new_ArrayList 1 0%nat Hnew ltac:(simpl; lia))
    as (_ & _ & _ & _ & _ & _ & _ & _ & _ & _ & Hf).
  destruct (arraylist_refines_list new_ArrayList 7 0%nat Hnew ltac:(simpl; lia)) as ((al' & Ea & _ & _ & Hv) & _).
  split_and!; [exact Hwf|exact Hc|exact Hi|exact Hget|by apply Hf|]. exists al'. split; [exact Ea|exact Hv].
Defined.

(** What [add(index, element)] does on every branch: an index behind the
    end is ignored; on an empty list the downward loop starts at [length - 1]
    wrapped around and its first store leaves the array; at [index = length]
    the element is appended; below that the elements from [index] on move up
    by one, but the last one is overwritten before it is moved, and the slot
    that becomes the new last element keeps a stale value. *)
Theorem insert_at_behaviour {T} `{Junk T} (al : ArrayList T) (x : T) (index : nat) :
  al_wf al -> allocated al -> al_length al < 2 ^ 31 ->
  (al_length al < Z.of_nat index -> insert_at (Z.of_nat index) x al = Ret al) /\
  (al_length al = 0 -> index = 0%nat -> insert_at (Z.of_nat index) x al = Fault) /\
  (0 < al_length al -> Z.of_nat index = al_length al ->
     exists al', insert_at (Z.of_nat index) x al = Ret al' /\ al_wf al' /\
       al_view al' = al_view al ++ [x]) /\
  (Z.of_nat index < al_length al ->
     exists al' stale, insert_at (Z.of_nat index) x al = Ret al' /\ al_wf al' /\
       al_view al' = take index (al_view al) ++ x ::
                     take (length (al_view al) - 1 - index) (drop index (al_view al)) ++ [stale]).
Proof.
  intros Hwf Hal Hn. pose proof (al_bounds _ Hwf) as Hb. unfold insert_at. split_and!.
  - intros Hi. by decide_bool.
  - intros Hl ->. rewrite Hl. simpl.
    destruct (ensureCapacity_view (u32 (0 + 1)) al)
      as (al1 & -> & Hwf1 & Hal1 & Hc1 & Hl1 & Hv1); [done|change (u32 (0 + 1)) with 1; lia|].
    outcome. rewrite Hl1, Hl. pose proof (al_width _ Hwf1). by apply shift_up_wraps.
  - intros Hl Hi. decide_bool. wrap_small.
    destruct (ensureCapacity_view (al_length al + 1) al)
      as (al1 & -> & Hwf1 & Hal1 & Hc1 & Hl1 & <-); [done|lia|]. outcome.
    cbn [shift_up]. rewrite Hl1 in *. wrap_small. decide_bool. outcome.
    pose proof (al_width _ Hwf1). rewrite Hi, <- Hl1.
    destruct (store_append x al1) as (al2 & -> & Hl2 & Hwf2 & _ & Hv); [done|lia|].
    outcome. rewrite Hl2. wrap_small. eauto.
  - intros Hi. decide_bool. wrap_small.
    destruct (ensureCapacity_view (al_length al + 1) al)
      as (al1 & -> & Hwf1 & Hal1 & Hc1 & Hl1 & <-); [done|lia|]. outcome.
    destruct (insert_middle al1 x index) as (al' & stale & -> & Hwf' & Hv); [done|lia|lia|].
    eauto.
Qed.

Lemma insert_at_behaviour_witness :
  let al := mkArrayList (Some [3; 1; 4; 100]) 4 3 in
  al_wf al /\
  exists al' stale, insert_at 1 9 al = Ret al' /\ al_wf al' /\
    al_view al' = [3; 9; 1] ++ [stale].
Proof.
  set (al := mkArrayList (Some [3; 1; 4; 100]) 4 3).
  assert (Hwf : al_wf al) by (constructor; simpl; lia).
  split; [exact Hwf|].
  destruct (insert_at_behaviour al 9 1%nat Hwf) as (_ & _ & _ & H).
  - exists [3; 1; 4; 100]. reflexivity.
  - simpl. lia.
  - apply H. simpl. lia.
Defined.
