(* ===== verification/HashMap.v ===== *)
(** * [Util::HashMap], [Util::HashSet] and [Util::Pair]

    [lib/util/HashNode.h], [HashMap.h]: a table of singly linked chains that is
    allocated on first use. [HashSet.h]: a set of the keys of such a map.
    [Pair.h]: the pairing function that makes a pair usable as a key. *)

From S2P Require Import Prelude Array Collections ArrayList.

(** ** Keys *)

(** The conversion [(uint32_t) key]. *)
Class ToU32 (K : Type) := {
  to_u32 : K -> Z;
  to_u32_range : forall k, is_u32 (to_u32 k)
}.

#[export] Program Instance Z_ToU32 : ToU32 Z := {| to_u32 := u32 |}.
Next Obligation. apply u32_range. Qed.

Record Pair (T U : Type) := mkPair { first : T; second : U }.
Arguments mkPair {T U} _ _.
Arguments first {T U} _.
Arguments second {T U} _.

#[export] Instance Pair_eq_dec {T U} `{EqDecision T, EqDecision U} : EqDecision (Pair T U).
Proof. solve_decision. Defined.

Definition pair_neq {T U} `{EqDecision T, EqDecision U} (p other : Pair T U) : bool :=
  bool_decide (first p <> first other) || bool_decide (second p <> second other).

Definition pair_eq {T U} `{EqDecision T, EqDecision U} (p other : Pair T U) : bool :=
  bool_decide (first p = first other) && bool_decide (second p = second other).

(** Cantor's pairing at 32 bits: every intermediate result wraps. *)
Definition pair_to_u32 {T U} `{ToU32 T, ToU32 U} (p : Pair T U) : Z :=
  let k1 := to_u32 (first p) in
  let k2 := to_u32 (second p) in
  u32 (u32 (u32 (k1 + k2) * u32 (k1 + k2 + 1)) / 2 + k2).

#[export] Program Instance Pair_ToU32 {T U} `{ToU32 T, ToU32 U} : ToU32 (Pair T U) :=
  {| to_u32 := pair_to_u32 |}.
Next Obligation. intros. apply u32_range. Qed.

(** ** Nodes

    [Null] is the null pointer that ends a chain. *)

Inductive HashNode (K V : Type) : Type :=
| Null
| Node (key : K) (value : V) (next : HashNode K V).
Arguments Null {K V}.
Arguments Node {K V} _ _ _.

Definition new_HashNode {K V} (key : K) (value : V) : HashNode K V := Node key value Null.

Definition getNext {K V} (n : HashNode K V) : outcome (HashNode K V) :=
  match n with Null => Fault | Node _ _ nx => Ret nx end.

Definition getKey {K V} (n : HashNode K V) : outcome K :=
  match n with Null => Fault | Node k _ _ => Ret k end.

Definition getValue {K V} (n : HashNode K V) : outcome V :=
  match n with Null => Fault | Node _ v _ => Ret v end.

Definition setValue {K V} (value : V) (n : HashNode K V) : outcome (HashNode K V) :=
  match n with Null => Fault | Node k _ nx => Ret (Node k value nx) end.

Definition setNext {K V} (next : HashNode K V) (n : HashNode K V) : outcome (HashNode K V) :=
  match n with Null => Fault | Node k v _ => Ret (Node k v next) end.

(** ** The map *)

Record HashMap (K V : Type) := mkHashMap {
  table : list (HashNode K V);
  isInitialized : bool;
  tableSize : Z;
  count : Z
}.
Arguments mkHashMap {K V} _ _ _ _.
Arguments table {K V} _.
Arguments isInitialized {K V} _.
Arguments tableSize {K V} _.
Arguments count {K V} _.

Definition DEFAULT_TABLE_SIZE : Z := 47.

Section HashMapOperations.
Context {K V : Type} `{EqDecision K} `{ToU32 K}.
Implicit Types (m : HashMap K V).

(** The table is an uninitialised pointer until [initialize] runs; no operation
    looks at it before. *)
Definition new_HashMap_size (tableSize : Z) : HashMap K V := mkHashMap [] false tableSize 0.

Definition new_HashMap : HashMap K V := new_HashMap_size DEFAULT_TABLE_SIZE.

Definition initialize (m : HashMap K V) : HashMap K V :=
  mkHashMap (replicate (Z.to_nat (tableSize m)) Null) true (tableSize m) (count m).

Definition ensure_initialized (m : HashMap K V) : HashMap K V :=
  if isInitialized m then m else initialize m.

(** [(uint32_t) key % tableSize] *)
Definition hash_index (key : K) (m : HashMap K V) : outcome nat :=
  if tableSize m =? 0 then Fault else Ret (Z.to_nat (to_u32 key mod tableSize m)).

Definition with_bucket (h : nat) (n : HashNode K V) (c : Z) (m : HashMap K V) : HashMap K V :=
  mkHashMap (<[h := n]> (table m)) (isInitialized m) (tableSize m) c.

(** The loop over the chain of [put]: the node with the key gets the value, or a
    new node is linked behind the last one; the flag says which. *)
Fixpoint chain_put (key : K) (value : V) (entry : HashNode K V) : HashNode K V * bool :=
  match entry with
  | Null => (new_HashNode key value, true)
  | Node k v nx =>
      if decide (k = key) then (Node k value nx, false)
      else let '(nx', added) := chain_put key value nx in (Node k v nx', added)
  end.

Definition put (key : K) (value : V) (m : HashMap K V) : outcome (HashMap K V) :=
  let m := ensure_initialized m in
  hash ← hash_index key m;
  entry ← or_fault (table m !! hash);
  let '(entry', added) := chain_put key value entry in
  Ret (with_bucket hash entry' (if (added : bool) then u32 (count m + 1) else count m) m).

(** [HashMap(std::initializer_list)]: [count] starts at the length of the list
    and is then incremented by [put] for every new key. *)
Definition of_pairs (l : list (Pair K V)) : outcome (HashMap K V) :=
  foldM (fun p m => put (first p) (second p) m) l
    (mkHashMap [] false DEFAULT_TABLE_SIZE (Z.of_nat (length l))).

Fixpoint chain_get (key : K) (entry : HashNode K V) : option V :=
  match entry with
  | Null => None
  | Node k v nx => if decide (k = key) then Some v else chain_get key nx
  end.

Definition get (key : K) (m : HashMap K V) : outcome (V * HashMap K V) :=
  let m := ensure_initialized m in
  hash ← hash_index key m;
  entry ← or_fault (table m !! hash);
  match chain_get key entry with
  | Some v => Ret (v, m)
  | None => Throw KEY_NOT_FOUND
  end.

(** The chain without the node of the key, and the value it had. *)
Fixpoint chain_remove (key : K) (entry : HashNode K V) : option (V * HashNode K V) :=
  match entry with
  | Null => None
  | Node k v nx =>
      if decide (k = key) then Some (v, nx)
      else match chain_remove key nx with
           | Some (v', nx') => Some (v', Node k v nx')
           | None => None
           end
  end.

Definition remove (key : K) (m : HashMap K V) : outcome (V * HashMap K V) :=
  let m := ensure_initialized m in
  hash ← hash_index key m;
  entry ← or_fault (table m !! hash);
  match chain_remove key entry with
  | None => Throw KEY_NOT_FOUND
  | Some (tmp, entry') => Ret (tmp, with_bucket hash entry' (u32 (count m - 1)) m)
  end.

Definition containsKey (key : K) (m : HashMap K V) : outcome bool :=
  if negb (isInitialized m) then Ret false
  else
    hash ← hash_index key m;
    entry ← or_fault (table m !! hash);
    Ret (bool_decide (is_Some (chain_get key entry))).

Definition size (m : HashMap K V) : Z := count m.

Definition clear (m : HashMap K V) : HashMap K V :=
  let m := ensure_initialized m in
  mkHashMap (replicate (Z.to_nat (tableSize m)) Null) true (tableSize m) 0.

Fixpoint chain_keys (entry : HashNode K V) : list K :=
  match entry with Null => [] | Node k _ nx => k :: chain_keys nx end.

Context `{Junk K}.

(** [keySet]: the keys of every chain are added to an [ArrayList]. *)
Definition keySet (m : HashMap K V) : outcome (Array K * HashMap K V) :=
  let m := ensure_initialized m in
  keyList ← foldM (fun current keyList =>
                     foldM (fun k keyList => r ← ArrayList.add k keyList; Ret (snd r))
                           (chain_keys current) keyList)
                  (table m) new_ArrayList;
  a ← ArrayList.toArray keyList;
  Ret (a, m).

End HashMapOperations.

#[export] Instance HashMap_ops {K V} `{EqDecision K} `{ToU32 K} `{Junk K} :
    MapOps (HashMap K V) K V := {|
  m_put := put;
  m_get := get;
  m_remove := remove;
  m_containsKey := containsKey;
  m_size := size;
  m_clear m := Ret (clear m);
  m_keySet := keySet
|}.

(** ** [HashSet] *)

Module HashSet.

Record HashSet (T : Type) := mkHashSet { map : HashMap T bool }.
Arguments mkHashSet {T} _.
Arguments map {T} _.

Definition DEFAULT_CAPACITY : Z := 47.

Section operations.
Context {T : Type} `{EqDecision T} `{ToU32 T} `{Junk T}.

Definition new_HashSet : HashSet T := mkHashSet (new_HashMap_size DEFAULT_CAPACITY).
Definition new_HashSet_capacity (capacity : Z) : HashSet T := mkHashSet (new_HashMap_size capacity).

Definition contains (element : T) (s : HashSet T) : outcome bool :=
  b ← containsKey element (map s);
  if negb b then Ret false else r ← get element (map s); Ret (fst r).

Definition add (element : T) (s : HashSet T) : outcome (bool * HashSet T) :=
  b ← contains element s;
  if (b : bool) then Ret (false, s)
  else m ← put element true (map s); Ret (true, mkHashSet m).

Definition addAll (other : Iterable T) (s : HashSet T) : outcome (bool * HashSet T) :=
  range_for other (fun x st => r ← add x (snd st); Ret (fst r || fst st, snd r)) (false, s).

Definition remove (element : T) (s : HashSet T) : outcome (bool * HashSet T) :=
  b ← contains element s;
  if negb b then Ret (false, s)
  else r ← HashMap.remove element (map s); Ret (true, mkHashSet (snd r)).

Definition removeAll (other : Iterable T) (s : HashSet T) : outcome (bool * HashSet T) :=
  range_for other (fun x st => r ← remove x (snd st); Ret (fst r || fst st, snd r)) (false, s).

Definition containsAll (other : Iterable T) (s : HashSet T) : outcome bool :=
  range_for other (fun x (ok : bool) => if ok then contains x s else Ret false) true.

Definition isEmpty (s : HashSet T) : bool := HashMap.size (map s) =? 0.
Definition clear (s : HashSet T) : HashSet T := mkHashSet (HashMap.clear (map s)).
Definition size (s : HashSet T) : Z := HashMap.size (map s).

(** [keySet] may allocate the table of a set that was never used; the allocation
    has no effect on the elements and is dropped here. *)
Definition toArray (s : HashSet T) : outcome (Array T) := r ← keySet (map s); Ret (fst r).
Definition begin (s : HashSet T) : outcome (Iterator T) := a ← toArray s; new_Iterator a 0.
Definition end_of (s : HashSet T) : outcome (Iterator T) := a ← toArray s; new_Iterator a (size s).

End operations.

#[global] Instance HashSet_collection {T} `{EqDecision T} `{ToU32 T} `{Junk T} :
    Collection (HashSet T) T := {|
  c_add := add;
  c_addAll := addAll;
  c_remove := remove;
  c_removeAll := removeAll;
  c_contains := contains;
  c_containsAll := containsAll;
  c_isEmpty := isEmpty;
  c_clear s := Ret (clear s);
  c_begin := begin;
  c_end := end_of;
  c_size := size;
  c_toArray := toArray
|}.

End HashSet.

(** ** Chains *)

Section chains.
Context {K V : Type} `{Countable K}.
Implicit Types (n : HashNode K V) (k : K).

Fixpoint chain_pairs n : list (K * V) :=
  match n with Null => [] | Node k v nx => (k, v) :: chain_pairs nx end.

Lemma chain_get_pairs k n : (list_to_map (chain_pairs n) : gmap K V) !! k = chain_get k n.
Proof.
  induction n as [|k' v nx IH]; simpl; [done|].
  case_decide as E; [subst; by rewrite lookup_insert_eq|by rewrite lookup_insert_ne].
Qed.

Lemma chain_get_keys k n : is_Some (chain_get k n) <-> k ∈ chain_keys n.
Proof.
  induction n as [|k' v nx IH]; simpl.
  - split; [by intros []|by intros ?%not_elem_of_nil].
  - rewrite elem_of_cons. case_decide as E; [split; [by left|eauto]|]. rewrite IH.
    split; [by right|]. intros [->|?]; [by destruct E|done].
Qed.

Lemma chain_put_get k v n k' :
  chain_get k' (fst (chain_put k v n)) = if decide (k = k') then Some v else chain_get k' n.
Proof.
  induction n as [|k0 v0 nx IH]; simpl.
  - done.
  - destruct (decide (k0 = k)) as [E|E]; simpl.
    + subst. by case_decide.
    + destruct (chain_put k v nx) as [nx' added]. simpl in *. rewrite IH.
      repeat case_decide; congruence.
Qed.

Lemma chain_put_added k v n : snd (chain_put k v n) = bool_decide (chain_get k n = None).
Proof.
  induction n as [|k0 v0 nx IH]; simpl; [done|].
  case_decide as E; simpl; [done|]. destruct (chain_put k v nx). simpl in *. done.
Qed.

Lemma chain_put_keys k v n k' :
  k' ∈ chain_keys (fst (chain_put k v n)) <-> k' = k \/ k' ∈ chain_keys n.
Proof.
  rewrite <- !chain_get_keys, chain_put_get. case_decide; subst.
  - split; [by left|by eauto].
  - split; [by right|]. by intros [->|?].
Qed.

Lemma chain_put_nodup k v n : NoDup (chain_keys n) -> NoDup (chain_keys (fst (chain_put k v n))).
Proof.
  induction n as [|k0 v0 nx IH]; simpl; intros Hnd.
  - constructor; [by intros ?%not_elem_of_nil|constructor].
  - apply NoDup_cons in Hnd as [Hk0 Hnd]. case_decide as E; simpl.
    + by apply NoDup_cons.
    + pose proof (chain_put_keys k v nx k0) as Hkeys.
      destruct (chain_put k v nx) as [nx' added]. simpl in *. apply NoDup_cons.
      split; [|by auto]. rewrite Hkeys. intros [->|?]; done.
Qed.

Lemma chain_remove_None k n : chain_remove k n = None <-> chain_get k n = None.
Proof.
  induction n as [|k0 v0 nx IH]; simpl; [done|]. case_decide; [done|].
  rewrite <- IH. destruct (chain_remove k nx) as [[? ?]|]; split; congruence.
Qed.

Lemma chain_remove_Some k n v n' :
  NoDup (chain_keys n) -> chain_remove k n = Some (v, n') ->
  chain_get k n = Some v /\ NoDup (chain_keys n') /\
  (forall k', chain_get k' n' = if decide (k = k') then None else chain_get k' n).
Proof.
  revert n'. induction n as [|k0 v0 nx IH]; simpl; intros n' Hnd Hr; [done|].
  apply NoDup_cons in Hnd as [Hk0 Hnd]. case_decide as E.
  - simplify_eq. split_and!; try done. intros k'. case_decide as Ek; [subst|done].
    destruct (chain_get k' n') eqn:Eg; [|done].
    destruct Hk0. apply chain_get_keys. by rewrite Eg.
  - destruct (chain_remove k nx) as [[v' nx']|] eqn:Er; [|done]. simplify_eq.
    destruct (IH nx' Hnd eq_refl) as (Hg & Hnd' & Hget). split_and!; [done| |].
    + simpl. apply NoDup_cons. split; [|done]. rewrite <- chain_get_keys, Hget.
      case_decide; [by intros []|]. by rewrite chain_get_keys.
    + intros k'. simpl. rewrite Hget. repeat case_decide; congruence.
Qed.

(** A table whose chains only hold keys that hash to them is a map: looking a
    key up means looking into its chain. *)
Lemma table_lookup (h : K -> nat) (tbl : list (HashNode K V)) off k :
  (forall i n k', tbl !! i = Some n -> k' ∈ chain_keys n -> h k' = (off + i)%nat) ->
  (list_to_map (concat (chain_pairs <$> tbl)) : gmap K V) !! k
  = if decide (off <= h k)%nat then tbl !! (h k - off)%nat ≫= chain_get k else None.
Proof.
  revert off. induction tbl as [|n tbl IH]; intros off Hh.
  - simpl. by case_decide.
  - rewrite fmap_cons. cbn [concat]. rewrite list_to_map_app, lookup_union, chain_get_pairs.
    rewrite (IH (S off)).
    2: { intros i n' k' Hi Hk. rewrite (Hh (S i) n' k' Hi Hk). lia. }
    destruct (chain_get k n) as [v|] eqn:Eg.
    + assert (Hk : h k = off) by (rewrite (Hh 0%nat n k); [lia|done|apply chain_get_keys; by rewrite Eg]).
      rewrite Hk, (decide_False (P := (S off <= off)%nat)), decide_True by lia.
      rewrite Nat.sub_diag. simpl. by rewrite Eg.
    + rewrite (left_id_L None (∪)).
      repeat case_decide; try lia; try done.
      * replace (h k - off)%nat with (S (h k - S off)) by lia. done.
      * replace (h k - off)%nat with 0%nat by lia. simpl. by rewrite Eg.
Qed.
End chains.

(** ** The map a [HashMap] holds *)

Section HashMapLemmas.
Context {K V : Type} `{Countable K} `{ToU32 K}.
Implicit Types (m : HashMap K V) (k : K).

Definition bucket_of m k : nat := Z.to_nat (to_u32 k mod tableSize m).

Definition hm_view m : gmap K V := list_to_map (concat (chain_pairs <$> table m)).

Record hm_inv m : Prop := {
  hm_size : 0 < tableSize m < 2 ^ 32;
  hm_table : length (table m) = if isInitialized m then Z.to_nat (tableSize m) else 0%nat;
  hm_hash : forall i n k, table m !! i = Some n -> k ∈ chain_keys n -> bucket_of m k = i;
  hm_nodup : forall i n, table m !! i = Some n -> NoDup (chain_keys n);
  hm_count : count m = Z.of_nat (base.size (hm_view m))
}.

Lemma hm_lookup m k : hm_inv m -> hm_view m !! k = table m !! bucket_of m k ≫= chain_get k.
Proof.
  intros Hinv. unfold hm_view. rewrite (table_lookup (bucket_of m) _ 0).
  - rewrite decide_True by lia. by rewrite Nat.sub_0_r.
  - intros i n k' Hi Hk. by apply (hm_hash _ Hinv i n).
Qed.

Lemma bucket_lt m k : hm_inv m -> (bucket_of m k < Z.to_nat (tableSize m))%nat.
Proof.
  intros Hinv. pose proof (hm_size _ Hinv). unfold bucket_of.
  pose proof (Z.mod_pos_bound (to_u32 k) (tableSize m)). lia.
Qed.

Lemma replicate_empty n : (list_to_map (concat (chain_pairs <$> replicate n (Null (K:=K) (V:=V))))
  : gmap K V) = ∅.
Proof. induction n as [|n IH]; [done|]. simpl. exact IH. Qed.

Lemma ensure_initialized_spec m :
  hm_inv m ->
  hm_inv (ensure_initialized m) /\ isInitialized (ensure_initialized m) = true /\
  tableSize (ensure_initialized m) = tableSize m /\ count (ensure_initialized m) = count m /\
  hm_view (ensure_initialized m) = hm_view m.
Proof.
  intros Hinv. unfold ensure_initialized. destruct (isInitialized m) eqn:Ei; [done|].
  pose proof (hm_table _ Hinv) as Ht. rewrite Ei in Ht. apply nil_length_inv in Ht.
  assert (Hv : hm_view (initialize m) = hm_view m).
  { unfold hm_view, initialize. simpl. rewrite replicate_empty. by rewrite Ht. }
  split_and!; try done. constructor; simpl.
  - apply Hinv.
  - apply length_replicate.
  - intros i n k [-> _]%lookup_replicate. by intros ?%not_elem_of_nil.
  - intros i n [-> _]%lookup_replicate. constructor.
  - rewrite Hv. apply Hinv.
Qed.

(** The chain of a key in an initialised map. *)
Lemma bucket_exists m k :
  hm_inv m -> isInitialized m = true ->
  exists n, hash_index k m = Ret (bucket_of m k) /\ table m !! bucket_of m k = Some n /\
    NoDup (chain_keys n) /\ hm_view m !! k = chain_get k n.
Proof.
  intros Hinv Hi. pose proof (hm_size _ Hinv). pose proof (bucket_lt m k Hinv) as Hlt.
  pose proof (hm_table _ Hinv) as Ht. rewrite Hi in Ht.
  destruct (lookup_lt_is_Some_ex (table m) (bucket_of m k)) as [n Hn]; [lia|].
  exists n. split_and!; try done.
  - unfold hash_index. by decide_bool.
  - by apply (hm_nodup _ Hinv _ _ Hn).
  - rewrite hm_lookup by done. by rewrite Hn.
Qed.

(** Replacing the chain of [k] by one that only differs in [k]. *)
Lemma with_bucket_inv m k n n' c (vm : gmap K V) :
  hm_inv m -> isInitialized m = true -> table m !! bucket_of m k = Some n ->
  NoDup (chain_keys n') ->
  (forall k', k' ∈ chain_keys n' -> k' = k \/ k' ∈ chain_keys n) ->
  (forall k', chain_get k' n' = if decide (k = k') then vm !! k else chain_get k' n) ->
  (forall k', k <> k' -> vm !! k' = hm_view m !! k') ->
  c = Z.of_nat (base.size vm) ->
  hm_inv (with_bucket (bucket_of m k) n' c m) /\
  hm_view (with_bucket (bucket_of m k) n' c m) = vm.
Proof.
  intros Hinv Hi Hn Hnd Hkeys Hget Hvm Hc.
  pose proof (hm_table _ Hinv) as Ht. rewrite Hi in Ht.
  set (m' := with_bucket (bucket_of m k) n' c m).
  assert (Hhash : forall i n0 k0, table m' !! i = Some n0 -> k0 ∈ chain_keys n0 ->
                    bucket_of m' k0 = i).
  { intros i n0 k0. subst m'. simpl. rewrite list_lookup_insert_Some.
    intros [(<- & <- & _)|[Hne Hi0]] Hk0.
    - destruct (Hkeys _ Hk0) as [->|Hk]; [done|]. by apply (hm_hash _ Hinv _ n).
    - by apply (hm_hash _ Hinv _ n0). }
  assert (Hv : hm_view m' = vm).
  { apply map_eq. intros k'. unfold hm_view. rewrite (table_lookup (bucket_of m') _ 0) by done.
    rewrite decide_True, Nat.sub_0_r by lia. subst m'. simpl.
    change (bucket_of (with_bucket (bucket_of m k) n' c m) k') with (bucket_of m k').
    destruct (decide (bucket_of m k = bucket_of m k')) as [E|E].
    - rewrite <- E, list_lookup_insert_eq by (by apply lookup_lt_Some in Hn). simpl.
      rewrite Hget. case_decide; [by subst|]. rewrite Hvm, hm_lookup, <- E, Hn by done. done.
    - rewrite list_lookup_insert_ne by done. rewrite Hvm, hm_lookup by congruence. done. }
  split; [|done]. constructor.
  - apply Hinv.
  - simpl. by rewrite length_insert, Hi, Ht.
  - exact Hhash.
  - intros i n0. subst m'. simpl. rewrite list_lookup_insert_Some.
    intros [(_ & <- & _)|[_ Hi0]]; [done|]. by apply (hm_nodup _ Hinv _ _ Hi0).
  - rewrite Hv. exact Hc.
Qed.

Lemma hm_put_spec m k v :
  hm_inv m -> Z.of_nat (base.size (hm_view m)) + 1 < 2 ^ 32 ->
  exists m', put k v m = Ret m' /\ hm_inv m' /\ hm_view m' = <[k := v]> (hm_view m).
Proof.
  intros Hinv0 Hsz. unfold put.
  destruct (ensure_initialized_spec m Hinv0) as (Hinv & Hi & _ & Hcm & Hv). rewrite <- Hv in *.
  clear Hv. set (m1 := ensure_initialized m) in *. clearbody m1.
  destruct (bucket_exists m1 k) as (n & -> & Hn & Hnd & Hg); [done|done|].
  outcome. rewrite Hn. outcome.
  destruct (chain_put k v n) as [n' added] eqn:Ep.
  pose proof (chain_put_get k v n) as Hget. pose proof (chain_put_added k v n) as Hadd.
  pose proof (chain_put_keys k v n) as Hkeys. pose proof (chain_put_nodup k v n Hnd) as Hnd'.
  rewrite Ep in *. simpl in *.
  eexists. split; [done|]. eapply with_bucket_inv; try done.
  - intros k' Hk'. by apply Hkeys.
  - intros k'. rewrite Hget, lookup_insert_eq. done.
  - intros k' Hne. by rewrite lookup_insert_ne.
  - pose proof (hm_count _ Hinv) as Hc. rewrite <- Hg in Hadd. subst added.
    case_bool_decide as E.
    + rewrite map_size_insert_None by done. rewrite u32_small; [lia|unfold is_u32; lia].
    + rewrite map_size_insert. destruct (hm_view m1 !! k); [|done]. done.
Qed.

Lemma hm_get_spec m k :
  hm_inv m ->
  match hm_view m !! k with
  | Some v => exists m', get k m = Ret (v, m') /\ hm_inv m' /\ hm_view m' = hm_view m
  | None => get k m = Throw KEY_NOT_FOUND
  end.
Proof.
  intros Hinv0. unfold get.
  destruct (ensure_initialized_spec m Hinv0) as (Hinv & Hi & _ & _ & Hv). rewrite <- Hv in *.
  set (m1 := ensure_initialized m) in *. clearbody m1.
  destruct (bucket_exists m1 k) as (n & -> & Hn & Hnd & Hg); [done|done|].
  outcome. rewrite Hn. outcome. rewrite Hg. destruct (chain_get k n); [|done]. eauto.
Qed.

Lemma hm_remove_spec m k :
  hm_inv m -> Z.of_nat (base.size (hm_view m)) < 2 ^ 32 ->
  match hm_view m !! k with
  | Some v => exists m', remove k m = Ret (v, m') /\ hm_inv m' /\
                hm_view m' = base.delete k (hm_view m)
  | None => remove k m = Throw KEY_NOT_FOUND
  end.
Proof.
  intros Hinv0 Hsz. unfold remove.
  destruct (ensure_initialized_spec m Hinv0) as (Hinv & Hi & _ & _ & Hv). rewrite <- Hv in *.
  set (m1 := ensure_initialized m) in *. clearbody m1.
  destruct (bucket_exists m1 k) as (n & -> & Hn & Hnd & Hg); [done|done|].
  outcome. rewrite Hn. outcome.
  destruct (chain_remove k n) as [[v n']|] eqn:Er.
  - destruct (chain_remove_Some k n v n' Hnd Er) as (Hgv & Hnd' & Hget).
    rewrite Hg, Hgv. eexists. split; [done|]. eapply with_bucket_inv; try done.
    + intros k' Hk'%chain_get_keys. right. apply chain_get_keys. rewrite Hget in Hk'.
      case_decide; [by destruct Hk'|done].
    + intros k'. rewrite Hget, lookup_delete_eq. done.
    + intros k' Hne. by rewrite lookup_delete_ne.
    + pose proof (hm_count _ Hinv) as Hc. rewrite map_size_delete_Some by (by rewrite Hg, Hgv).
      assert (base.size (hm_view m1) <> 0%nat).
      { rewrite map_size_non_empty_iff. intros Hz. rewrite Hz, lookup_empty in Hg. congruence. }
      rewrite u32_small; [lia|unfold is_u32; lia].
  - apply chain_remove_None in Er. by rewrite Hg, Er.
Qed.

Lemma hm_containsKey_spec m k :
  hm_inv m -> containsKey k m = Ret (bool_decide (is_Some (hm_view m !! k))).
Proof.
  intros Hinv. unfold containsKey. destruct (isInitialized m) eqn:Hi; simpl.
  - destruct (bucket_exists m k) as (n & -> & Hn & Hnd & Hg); [done|done|].
    outcome. rewrite Hn. outcome. by rewrite Hg.
  - pose proof (hm_table _ Hinv) as Ht. rewrite Hi in Ht. apply nil_length_inv in Ht.
    f_equal. symmetry. apply bool_decide_false. rewrite hm_lookup, Ht by done. simpl.
    by intros [].
Qed.

Lemma hm_inv_new n : 0 < n < 2 ^ 32 -> hm_inv (new_HashMap_size n) /\ hm_view (new_HashMap_size n) = ∅.
Proof. intros Hn. split; [|done]. constructor; simpl; try done. Qed.

Lemma hm_clear_spec m : hm_inv m -> hm_inv (clear m) /\ hm_view (clear m) = ∅.
Proof.
  intros Hinv. unfold clear.
  destruct (ensure_initialized_spec m Hinv) as (_ & _ & Hts & _ & _).
  assert (Hv : hm_view (mkHashMap (replicate (Z.to_nat (tableSize (ensure_initialized m))) Null)
                 true (tableSize (ensure_initialized m)) 0) = ∅)
    by apply replicate_empty.
  split; [|done]. constructor; simpl.
  - rewrite Hts. apply Hinv.
  - apply length_replicate.
  - intros i n k [-> _]%lookup_replicate. by intros ?%not_elem_of_nil.
  - intros i n [-> _]%lookup_replicate. constructor.
  - by rewrite Hv.
Qed.
End HashMapLemmas.

Section KeySet.
Context {K V : Type} `{Countable K} `{ToU32 K} `{Junk K}.
Implicit Types (m : HashMap K V) (k : K).

Lemma chain_keys_pairs (n : HashNode K V) : chain_keys n = (chain_pairs n).*1.
Proof. induction n as [|k v nx IH]; [done|]. simpl. by rewrite IH. Qed.

Lemma table_keys_pairs (tbl : list (HashNode K V)) :
  concat (chain_keys <$> tbl) = (concat (chain_pairs <$> tbl)).*1.
Proof.
  induction tbl as [|n tbl IH]; [done|]. rewrite !fmap_cons. cbn [concat].
  by rewrite fmap_app, IH, chain_keys_pairs.
Qed.

Lemma table_keys_elem (tbl : list (HashNode K V)) k :
  k ∈ concat (chain_keys <$> tbl) -> exists i n, tbl !! i = Some n /\ k ∈ chain_keys n.
Proof.
  induction tbl as [|n tbl IH]; [by intros ?%not_elem_of_nil|].
  rewrite fmap_cons. cbn [concat]. rewrite elem_of_app. intros [Hk|Hk].
  - by exists 0%nat, n.
  - destruct (IH Hk) as (i & n' & ? & ?). by exists (S i), n'.
Qed.

Lemma table_keys_nodup (h : K -> nat) (tbl : list (HashNode K V)) off :
  (forall i n k, tbl !! i = Some n -> k ∈ chain_keys n -> h k = (off + i)%nat) ->
  (forall i n, tbl !! i = Some n -> NoDup (chain_keys n)) ->
  NoDup (concat (chain_keys <$> tbl)).
Proof.
  revert off. induction tbl as [|n tbl IH]; intros off Hh Hnd; [constructor|].
  rewrite fmap_cons. cbn [concat]. apply NoDup_app. split_and!.
  - by apply (Hnd 0%nat).
  - intros k Hk Hk'. apply table_keys_elem in Hk' as (i & n' & Hi & Hk').
    pose proof (Hh 0%nat n k eq_refl Hk). pose proof (Hh (S i) n' k Hi Hk'). lia.
  - apply (IH (S off)); [|intros i; apply (Hnd (S i))].
    intros i n' k Hi Hk. rewrite (Hh (S i) n' k Hi Hk). lia.
Qed.

Lemma keySet_spec m :
  hm_inv m -> Z.of_nat (base.size (hm_view m)) < 2 ^ 31 ->
  exists a m', keySet m = Ret (a, m') /\ hm_inv m' /\ hm_view m' = hm_view m /\ wf a /\
    capacity a = count m /\ array a ≡ₚ (map_to_list (hm_view m)).*1.
Proof.
  intros Hinv0 Hsz. unfold keySet.
  destruct (ensure_initialized_spec m Hinv0) as (Hinv & Hi & _ & Hcm & Hv). rewrite <- Hv in *.
  rewrite <- Hcm. clear Hcm Hv. set (m1 := ensure_initialized m) in *. clearbody m1.
  rewrite (foldM_fmap chain_keys (foldM (fun k keyList => r ← ArrayList.add k keyList; Ret r.2))).
  rewrite foldM_concat.
  assert (Hnd : NoDup (concat (chain_keys <$> table m1))).
  { apply (table_keys_nodup (bucket_of m1) _ 0); [|apply Hinv].
    intros i n k Hn Hk. by apply (hm_hash _ Hinv i n). }
  assert (Hperm : concat (chain_keys <$> table m1) ≡ₚ (map_to_list (hm_view m1)).*1).
  { unfold hm_view. rewrite table_keys_pairs in *. by rewrite map_to_list_to_map. }
  assert (Hlen : Z.of_nat (length (concat (chain_keys <$> table m1))) = count m1).
  { rewrite Hperm, length_fmap, length_map_to_list. symmetry. apply Hinv. }
  pose proof (hm_count _ Hinv) as Hc.
  assert (Hnew : al_wf (new_ArrayList (T:=K))) by (constructor; simpl; lia).
  destruct (fold_add_spec (concat (chain_keys <$> table m1)) new_ArrayList)
    as (al & -> & Hwf & _ & Hview); [done|simpl; lia|]. outcome.
  rewrite toArray_spec by done. outcome. change (al_view new_ArrayList) with (@nil K) in Hview.
  simpl in Hview. pose proof (ArrayList.length_al_view _ Hwf) as Hl. rewrite Hview in *.
  eexists _, m1. split; [done|]. split_and!; try done; simpl; [split; simpl; lia|lia].
Qed.
End KeySet.

#[export] Program Instance HashMap_spec {K V} `{Countable K} `{ToU32 K} `{Junk K} :
    MapSpec (HashMap K V) K V := {|
  m_inv m := hm_inv m /\ Z.of_nat (base.size (hm_view m)) < 2 ^ 32;
  m_view := hm_view
|}.
Next Obligation.
  intros K V ? ? ? ? m k v [Hinv Hs] Hsz. simpl.
  destruct (hm_put_spec m k v Hinv Hsz) as (m' & E & Hinv' & Hv).
  exists m'. split_and!; try done. rewrite Hv.
  destruct (hm_view m !! k) eqn:Ek.
  - rewrite map_size_insert, Ek. done.
  - rewrite map_size_insert_None by done. lia.
Qed.
Next Obligation.
  intros K V ? ? ? ? m k [Hinv Hs]. simpl. pose proof (hm_get_spec m k Hinv) as Hg.
  destruct (hm_view m !! k); [|done]. destruct Hg as (m' & E & ? & Hv).
  exists m'. rewrite Hv. done.
Qed.
Next Obligation.
  intros K V ? ? ? ? m k [Hinv Hs]. simpl. pose proof (hm_remove_spec m k Hinv Hs) as Hg.
  destruct (hm_view m !! k) eqn:Ek; [|done]. destruct Hg as (m' & E & ? & Hv).
  exists m'. rewrite Hv. split_and!; try done. rewrite map_size_delete, Ek. simpl. lia.
Qed.
Next Obligation. intros K V ? ? ? ? m k [Hinv _]. by apply hm_containsKey_spec. Qed.
Next Obligation. intros K V ? ? ? ? m [Hinv _]. apply Hinv. Qed.

(** ** Sequences of operations

    A client's calls on any map, run on the implementation and on a finite
    map. A call that throws stops the run. *)

Inductive map_call (K V : Type) :=
| CPut (k : K) (v : V)
| CGet (k : K)
| CRemove (k : K)
| CContains (k : K)
| CSize.
Arguments CPut {K V} _ _.
Arguments CGet {K V} _.
Arguments CRemove {K V} _.
Arguments CContains {K V} _.
Arguments CSize {K V}.

Inductive map_answer (V : Type) :=
| ADone
| AValue (v : V)
| ABool (b : bool)
| ASize (n : Z).
Arguments ADone {V}.
Arguments AValue {V} _.
Arguments ABool {V} _.
Arguments ASize {V} _.

Section Client.
Context {C K V : Type} `{Hops : MapOps C K V} `{Countable K}.

Definition call (x : map_call K V) (c : C) : outcome (map_answer V * C) :=
  match x with
  | CPut k v => c' ← m_put k v c; Ret (ADone, c')
  | CGet k => r ← m_get k c; Ret (AValue (fst r), snd r)
  | CRemove k => r ← m_remove k c; Ret (AValue (fst r), snd r)
  | CContains k => b ← m_containsKey k c; Ret (ABool b, c)
  | CSize => Ret (ASize (m_size c), c)
  end.

Fixpoint run (xs : list (map_call K V)) (c : C) : outcome (list (map_answer V)) :=
  match xs with
  | [] => Ret []
  | x :: xs => r ← call x c; l ← run xs (snd r); Ret (fst r :: l)
  end.

Definition abs_call (x : map_call K V) (g : gmap K V) : outcome (map_answer V * gmap K V) :=
  match x with
  | CPut k v => Ret (ADone, <[k := v]> g)
  | CGet k => match g !! k with Some v => Ret (AValue v, g) | None => Throw KEY_NOT_FOUND end
  | CRemove k =>
      match g !! k with
      | Some v => Ret (AValue v, base.delete k g)
      | None => Throw KEY_NOT_FOUND
      end
  | CContains k => Ret (ABool (bool_decide (is_Some (g !! k))), g)
  | CSize => Ret (ASize (Z.of_nat (base.size g)), g)
  end.

Fixpoint abs_run (xs : list (map_call K V)) (g : gmap K V) : outcome (list (map_answer V)) :=
  match xs with
  | [] => Ret []
  | x :: xs => r ← abs_call x g; l ← abs_run xs (snd r); Ret (fst r :: l)
  end.

Context `{!MapSpec C K V}.

(** One call is simulated by the finite map. *)
Lemma call_refines x c :
  m_inv c -> Z.of_nat (base.size (m_view c)) + 1 < 2 ^ 32 ->
  match abs_call x (m_view c) with
  | Ret (ans, g) => exists c', call x c = Ret (ans, c') /\ m_inv c' /\ m_view c' = g
  | Throw e => call x c = Throw e
  | _ => False
  end.
Proof.
  intros Hinv Hsz. destruct x as [k v|k|k|k|]; simpl.
  - destruct (m_put_spec c k v Hinv Hsz) as (c' & -> & ? & ?). outcome. eauto.
  - pose proof (m_get_spec c k Hinv) as Hg. destruct (m_view c !! k); [|by rewrite Hg].
    destruct Hg as (c' & -> & ? & ?). outcome. eauto.
  - pose proof (m_remove_spec c k Hinv) as Hg. destruct (m_view c !! k); [|by rewrite Hg].
    destruct Hg as (c' & -> & ? & ?). outcome. eauto.
  - rewrite m_containsKey_spec by done. outcome. eauto.
  - rewrite m_size_spec by done. eauto.
Qed.

Lemma abs_call_size x g ans g' :
  abs_call x g = Ret (ans, g') -> (base.size g' <= S (base.size g))%nat.
Proof.
  destruct x as [k v|k|k|k|]; simpl.
  - intros E. inv_outcome. rewrite map_size_insert. destruct (_ !! k); simpl; lia.
  - destruct (g !! k); intros E; inv_outcome; lia.
  - destruct (g !! k); intros E; inv_outcome. rewrite map_size_delete. destruct (_ !! k); simpl; lia.
  - intros E. inv_outcome. lia.
  - intros E. inv_outcome. lia.
Qed.

Lemma run_refines xs c :
  m_inv c -> Z.of_nat (base.size (m_view c)) + Z.of_nat (length xs) < 2 ^ 32 ->
  run xs c = abs_run xs (m_view c).
Proof.
  revert c. induction xs as [|x xs IH]; intros c Hinv Hsz; [done|]. simpl length in Hsz.
  cbn [run abs_run]. pose proof (call_refines x c Hinv ltac:(lia)) as Hc.
  destruct (abs_call x (m_view c)) as [[ans g]|e| |] eqn:Ea; outcome; try done.
  - destruct Hc as (c' & -> & Hinv' & <-). outcome.
    apply abs_call_size in Ea. rewrite IH; [done|done|lia].
  - by rewrite Hc.
Qed.
End Client.

(** C39. Every sequence of calls of [put], [get], [remove], [containsKey] and
    [size] on a new [HashMap] of any table size answers what the same sequence
    answers on a finite map, [KEY_NOT_FOUND] for a missing key included, as long
    as the 32-bit element counter cannot overflow. *)
Theorem hashmap_refines_map {K V} `{Countable K} `{ToU32 K} `{Junk K}
    (n : Z) (xs : list (map_call K V)) :
  0 < n < 2 ^ 32 -> Z.of_nat (length xs) < 2 ^ 32 ->
  run xs (new_HashMap_size n) = abs_run xs ∅.
Proof.
  intros Hn Hl. destruct (hm_inv_new (K:=K) (V:=V) n Hn) as [Hinv Hv].
  rewrite run_refines.
  - by rewrite <- Hv.
  - simpl. by rewrite Hv, map_size_empty.
  - simpl. rewrite Hv, map_size_empty. lia.
Qed.

Lemma hashmap_refines_map_witness :
  run [CPut 3 10; CPut 50 20; CPut 3 30; CGet 3; CSize; CRemove 50; CContains 50; CGet 50]
      (new_HashMap_size 47) = Throw KEY_NOT_FOUND /\
  run [CPut 3 10; CPut 50 20; CPut 3 30; CGet 3; CSize; CRemove 50; CContains 50; CContains 3]
      (new_HashMap_size 47)
  = Ret [ADone; ADone; ADone; AValue 30; ASize 2; AValue 20; ABool false; ABool true].
Proof.
  split.
  - rewrite (hashmap_refines_map 47); [reflexivity|lia|simpl; lia].
  - rewrite (hashmap_refines_map 47); [reflexivity|lia|simpl; lia].
Defined.

(** The keys of a map, each once, are what [keySet] returns; the array is
    exactly as long as [size] says, and the map keeps its entries. *)
Theorem keySet_is_the_domain {K V} `{Countable K} `{ToU32 K} `{Junk K} (m : HashMap K V) :
  hm_inv m -> Z.of_nat (base.size (hm_view m)) < 2 ^ 31 ->
  exists a m', keySet m = Ret (a, m') /\ hm_view m' = hm_view m /\
    capacity a = size m /\ NoDup (array a) /\
    (forall k, k ∈ array a <-> is_Some (hm_view m !! k)).
Proof.
  intros Hinv Hsz. destruct (keySet_spec m Hinv Hsz) as (a & m' & E & _ & Hv & _ & Hc & Hp).
  exists a, m'. split_and!; try done.
  - rewrite Hp. apply NoDup_fst_map_to_list.
  - intros k. rewrite Hp. split.
    + intros ((k' & v) & -> & Hin)%list_elem_of_fmap. apply elem_of_map_to_list in Hin. simpl. eauto.
    + intros [v Hk]. apply list_elem_of_fmap. exists (k, v). by rewrite elem_of_map_to_list.
Qed.

Lemma keySet_is_the_domain_witness :
  exists (m : HashMap Z Z) a m',
    (foldM (fun k => put k (k * k)) [5; 52; 6] new_HashMap) = Ret m /\
    keySet m = Ret (a, m') /\ array a = [5; 52; 6] /\ NoDup (array a) /\
    (52 ∈ array a <-> is_Some (hm_view m !! 52)).
Proof.
  destruct (hm_inv_new (K:=Z) (V:=Z) 47 ltac:(lia)) as [H0 V0].
  assert (Hm : exists m : HashMap Z Z,
    foldM (fun k => put k (k * k)) [5; 52; 6] new_HashMap = Ret m /\ hm_inv m /\
    base.size (hm_view m) = 3%nat).
  { change (new_HashMap (K:=Z) (V:=Z)) with (new_HashMap_size (K:=Z) (V:=Z) 47).
    cbn [foldM].
    destruct (hm_put_spec _ 5 (5*5) H0) as (m1 & -> & H1 & V1);
      [by rewrite V0, map_size_empty|]. rewrite V0 in V1. outcome.
    destruct (hm_put_spec _ 52 (52*52) H1) as (m2 & -> & H2 & V2);
      [rewrite V1; vm_compute; done|]. rewrite V1 in V2. outcome.
    destruct (hm_put_spec _ 6 (6*6) H2) as (m3 & -> & H3 & V3);
      [rewrite V2; vm_compute; done|]. rewrite V2 in V3. outcome.
    exists m3. split_and!; try done. by rewrite V3. }
  destruct Hm as (m & Em & Hinv & Hs).
  destruct (keySet_is_the_domain m Hinv) as (a & m' & E & _ & _ & Hnd & Hin); [lia|].
  exists m, a, m'. split_and!; try done.
  vm_compute in Em. injection Em as <-. vm_compute in E. by injection E as <- _.
Defined.

(** ** The counter of a map built from an initialiser list *)

Section OfPairs.
Context {K V : Type} `{Countable K} `{ToU32 K}.
Implicit Types (m : HashMap K V).

(** The same map with another element count. *)
Definition set_count (c : Z) m : HashMap K V :=
  mkHashMap (table m) (isInitialized m) (tableSize m) c.

Lemma set_count_initialized c m :
  ensure_initialized (set_count c m) = set_count c (ensure_initialized m).
Proof. unfold ensure_initialized. simpl. by destruct (isInitialized m). Qed.

(** [put] adds to the count whatever the count is. *)
Lemma put_set_count d k v m m' :
  put k v m = Ret m' ->
  put k v (set_count (u32 (count m + d)) m) = Ret (set_count (u32 (count m' + d)) m').
Proof.
  unfold put. rewrite set_count_initialized.
  assert (Hc : count m = count (ensure_initialized m)).
  { unfold ensure_initialized. by destruct (isInitialized m). }
  rewrite Hc. set (m1 := ensure_initialized m). clearbody m1.
  change (hash_index k (set_count (u32 (count m1 + d)) m1)) with (hash_index k m1).
  destruct (hash_index k m1) as [h| | |]; outcome; try done.
  change (table (set_count (u32 (count m1 + d)) m1)) with (table m1).
  destruct (table m1 !! h) as [n|]; outcome; try done.
  destruct (chain_put k v n) as [n' added]. intros E. inv_outcome.
  unfold with_bucket, set_count. simpl. f_equal. f_equal. destruct added; [|done].
  rewrite !u32_add_l. f_equal. lia.
Qed.

Lemma fold_put_set_count d (l : list (Pair K V)) m m' :
  foldM (fun p m => put (first p) (second p) m) l m = Ret m' ->
  foldM (fun p m => put (first p) (second p) m) l (set_count (u32 (count m + d)) m)
  = Ret (set_count (u32 (count m' + d)) m').
Proof.
  revert m. induction l as [|p l IH]; intros m; simpl.
  - intros E. by inv_outcome.
  - intros (m1 & E1 & E2)%bind_Ret_inv. rewrite (put_set_count _ _ _ _ _ E1). outcome.
    by apply IH.
Qed.

Definition pairs_map (l : list (Pair K V)) (g : gmap K V) : gmap K V :=
  foldl (fun g p => <[first p := second p]> g) g l.

Lemma fold_put_spec (l : list (Pair K V)) m :
  hm_inv m -> Z.of_nat (base.size (hm_view m)) + Z.of_nat (length l) < 2 ^ 32 ->
  exists m', foldM (fun p m => put (first p) (second p) m) l m = Ret m' /\ hm_inv m' /\
    hm_view m' = pairs_map l (hm_view m) /\
    Z.of_nat (base.size (hm_view m')) <= Z.of_nat (base.size (hm_view m)) + Z.of_nat (length l).
Proof.
  revert m. induction l as [|p l IH]; intros m Hinv Hsz; simpl; simpl length in Hsz.
  - exists m. split_and!; try done. lia.
  - destruct (hm_put_spec m (first p) (second p) Hinv) as (m1 & -> & Hinv1 & Hv1); [lia|].
    outcome.
    assert ((base.size (hm_view m1) <= S (base.size (hm_view m)))%nat).
    { rewrite Hv1, map_size_insert. destruct (_ !! _); simpl; lia. }
    destruct (IH m1 Hinv1) as (m2 & -> & Hinv2 & Hv2 & Hs2); [lia|].
    exists m2. split_and!; try done; [by rewrite Hv2, Hv1|lia].
Qed.
End OfPairs.

(** A map built from an initialiser list holds the entries of the list,
    later ones winning, but [size] reports the length of the list plus the
    number of keys: the constructor starts the counter at [list.size()] and
    [put] counts every new key again. *)
Theorem of_pairs_counts_twice {K V} `{Countable K} `{ToU32 K} (l : list (Pair K V)) :
  2 * Z.of_nat (length l) < 2 ^ 32 ->
  exists m, of_pairs l = Ret m /\ hm_view m = pairs_map l ∅ /\
    size m = Z.of_nat (length l) + Z.of_nat (base.size (hm_view m)).
Proof.
  intros Hl. destruct (hm_inv_new (K:=K) (V:=V) DEFAULT_TABLE_SIZE) as [Hnew V0];
    [unfold DEFAULT_TABLE_SIZE; lia|].
  destruct (fold_put_spec l _ Hnew) as (m & E & Hinv & Hv & Hs);
    [rewrite V0, map_size_empty; lia|].
  rewrite V0, map_size_empty in *.
  apply (fold_put_set_count (Z.of_nat (length l))) in E.
  simpl count in E. rewrite (u32_small (0 + _)) in E by (unfold is_u32; lia).
  eexists. split; [exact E|]. split; [exact Hv|].
  unfold size. cbn [count set_count]. rewrite (hm_count _ Hinv), u32_small by (unfold is_u32; lia).
  change (hm_view (set_count ?c m)) with (hm_view m). lia.
Qed.

Lemma of_pairs_counts_twice_witness :
  exists m : HashMap Z Z, of_pairs [mkPair 1 10; mkPair 2 20] = Ret m /\ size m = 4.
Proof.
  destruct (of_pairs_counts_twice (K:=Z) [mkPair 1 10; mkPair 2 20]) as (m & E & Hv & Hs);
    [simpl; lia|].
  exists m. split; [done|]. rewrite Hs, Hv. reflexivity.
Defined.

(** ** Sets *)

Section HashSetLemmas.
Context {T : Type} `{Countable T} `{ToU32 T}.
Implicit Types (s : HashSet.HashSet T).

Definition hs_view s : gset T := dom (hm_view (HashSet.map s)).

Record hs_inv s : Prop := {
  hs_map : hm_inv (HashSet.map s);
  hs_true : forall x b, hm_view (HashSet.map s) !! x = Some b -> b = true
}.

Lemma hs_contains_spec s x : hs_inv s -> HashSet.contains x s = Ret (bool_decide (x ∈ hs_view s)).
Proof.
  intros [Hm Ht]. unfold HashSet.contains, hs_view. rewrite hm_containsKey_spec by done. outcome.
  pose proof (hm_get_spec _ x Hm) as Hg.
  destruct (hm_view (HashSet.map s) !! x) as [b|] eqn:E.
  - rewrite bool_decide_true by done. simpl. destruct Hg as (m' & -> & _). outcome.
    rewrite (Ht _ _ E). rewrite bool_decide_true; [done|]. by apply elem_of_dom_2 in E.
  - rewrite bool_decide_false by (by intros []). simpl.
    rewrite bool_decide_false; [done|]. by apply not_elem_of_dom.
Qed.

Lemma hs_size_view s : hs_inv s -> HashSet.size s = Z.of_nat (base.size (hs_view s)).
Proof.
  intros [Hm _]. unfold HashSet.size, hs_view, size. rewrite size_dom. apply Hm.
Qed.

Lemma hs_add_spec s x :
  hs_inv s -> Z.of_nat (base.size (hs_view s)) + 1 < 2 ^ 32 ->
  exists s', HashSet.add x s = Ret (bool_decide (x ∉ hs_view s), s') /\ hs_inv s' /\
    hs_view s' = {[x]} ∪ hs_view s.
Proof.
  intros Hs Hsz. unfold HashSet.add. rewrite hs_contains_spec by done. outcome.
  destruct (decide (x ∈ hs_view s)) as [Hx|Hx].
  - rewrite (bool_decide_true (x ∈ _)), bool_decide_false by (done || naive_solver).
    exists s. split_and!; try done. set_solver.
  - rewrite (bool_decide_false (x ∈ _)), bool_decide_true by done.
    destruct Hs as [Hm Ht]. unfold hs_view in Hsz. rewrite size_dom in Hsz.
    destruct (hm_put_spec (HashSet.map s) x true Hm Hsz) as (m' & -> & Hm' & Hv). outcome.
    eexists. split; [done|]. split.
    + split; [done|]. simpl. intros y b. rewrite Hv, lookup_insert_Some. naive_solver.
    + unfold hs_view. simpl. by rewrite Hv, dom_insert_L.
Qed.

Lemma hs_remove_spec s x :
  hs_inv s -> Z.of_nat (base.size (hs_view s)) < 2 ^ 32 ->
  exists s', HashSet.remove x s = Ret (bool_decide (x ∈ hs_view s), s') /\ hs_inv s' /\
    hs_view s' = hs_view s ∖ {[x]}.
Proof.
  intros Hs Hsz. unfold HashSet.remove. rewrite hs_contains_spec by done. outcome.
  destruct (decide (x ∈ hs_view s)) as [Hx|Hx].
  - rewrite bool_decide_true by done. simpl. destruct Hs as [Hm Ht].
    unfold hs_view in Hsz, Hx. rewrite size_dom in Hsz.
    pose proof (hm_remove_spec (HashSet.map s) x Hm Hsz) as Hr.
    apply elem_of_dom in Hx as [b Eb]. rewrite Eb in Hr. destruct Hr as (m' & -> & Hm' & Hv).
    outcome. eexists. split; [done|]. split.
    + split; [done|]. simpl. intros y b'. rewrite Hv, lookup_delete_Some. naive_solver.
    + unfold hs_view. simpl. by rewrite Hv, dom_delete_L.
  - rewrite bool_decide_false by done. simpl. exists s. split_and!; try done. set_solver.
Qed.

Lemma hs_inv_new n :
  0 < n < 2 ^ 32 -> hs_inv (HashSet.new_HashSet_capacity n) /\ hs_view (HashSet.new_HashSet_capacity n) = ∅.
Proof.
  intros Hn. destruct (hm_inv_new (K:=T) (V:=bool) n Hn) as [Hm Hv]. split.
  - split; [done|]. unfold HashSet.new_HashSet_capacity. cbn [HashSet.map]. intros x b. by rewrite Hv.
  - unfold hs_view. cbn [HashSet.new_HashSet_capacity HashSet.map]. by rewrite Hv, dom_empty_L.
Qed.

(** [addAll] folds [add] and reports whether any element was new. *)
Lemma hs_addAll_fold l s b :
  hs_inv s -> Z.of_nat (base.size (hs_view s)) + Z.of_nat (length l) < 2 ^ 32 ->
  exists s', foldM (fun x st => r ← HashSet.add x (snd st); Ret (fst r || fst st, snd r)) l (b, s)
      = Ret (b || bool_decide (~ (list_to_set l : gset T) ⊆ hs_view s), s') /\ hs_inv s' /\
    hs_view s' = list_to_set l ∪ hs_view s.
Proof.
  revert s b. induction l as [|x l IH]; intros s b Hs Hsz; simpl; simpl length in Hsz.
  - exists s. rewrite bool_decide_false by set_solver. rewrite orb_false_r.
    split_and!; try done. set_solver.
  - destruct (hs_add_spec s x Hs) as (s1 & -> & Hs1 & Hv1); [lia|]. outcome.
    assert (Hsz1 : (base.size (hs_view s1) <= S (base.size (hs_view s)))%nat).
    { rewrite Hv1, size_union_alt, size_singleton. apply le_n_S, subseteq_size. set_solver. }
    destruct (IH s1 (bool_decide (x ∉ hs_view s) || b) Hs1) as (s2 & -> & Hs2 & Hv2); [lia|].
    exists s2. split_and!; [|done|set_solver]. f_equal. f_equal. rewrite Hv1.
    repeat case_bool_decide; destruct b; try done; exfalso; set_solver.
Qed.
End HashSetLemmas.

(** A [HashSet] is a set: [add] reports whether the element was new,
    [remove] whether it was there, [contains] and [size] agree with the set,
    [addAll] is a union and [isEmpty] and [clear] concern the empty set. *)
Theorem hashset_refines_set {T} `{Countable T} `{ToU32 T} `{Junk T} (s : HashSet.HashSet T) (x : T)
    (other : Iterable T) (l : list T) :
  hs_inv s -> yields other l ->
  Z.of_nat (base.size (hs_view s)) + Z.of_nat (length l) + 1 < 2 ^ 32 ->
  HashSet.contains x s = Ret (bool_decide (x ∈ hs_view s)) /\
  (exists s', HashSet.add x s = Ret (bool_decide (x ∉ hs_view s), s') /\ hs_inv s' /\
     hs_view s' = {[x]} ∪ hs_view s) /\
  (exists s', HashSet.remove x s = Ret (bool_decide (x ∈ hs_view s), s') /\ hs_inv s' /\
     hs_view s' = hs_view s ∖ {[x]}) /\
  (exists s', HashSet.addAll other s
       = Ret (bool_decide (~ (list_to_set l : gset T) ⊆ hs_view s), s') /\ hs_inv s' /\
     hs_view s' = list_to_set l ∪ hs_view s) /\
  HashSet.size s = Z.of_nat (base.size (hs_view s)) /\
  HashSet.isEmpty s = bool_decide (hs_view s = ∅) /\
  hs_inv (HashSet.clear s) /\ hs_view (HashSet.clear s) = ∅.
Proof.
  intros Hs Hy Hsz. split_and!.
  - by apply hs_contains_spec.
  - apply hs_add_spec; [done|lia].
  - apply hs_remove_spec; [done|lia].
  - unfold HashSet.addAll. rewrite (range_for_yields _ l) by done.
    apply (hs_addAll_fold l s false); [done|lia].
  - by apply hs_size_view.
  - unfold HashSet.isEmpty. change (size (HashSet.map s)) with (HashSet.size s).
    rewrite hs_size_view by done. case_bool_decide as E.
    + rewrite E, size_empty. done.
    + apply Z.eqb_neq. intros Hz. apply E, leibniz_equiv, size_empty_iff. lia.
  - destruct (hm_clear_spec _ (hs_map _ Hs)) as [Hm Hv]. split; [done|].
    simpl. intros y b. by rewrite Hv.
  - destruct (hm_clear_spec _ (hs_map _ Hs)) as [Hm Hv]. unfold hs_view. simpl.
    by rewrite Hv, dom_empty_L.
Qed.

Lemma hashset_refines_set_witness :
  exists s', HashSet.addAll
    (mkIterable (Ret (mkIterator (mkArray [4; 51] 2) 0)) (Ret (mkIterator (mkArray [4; 51] 2) 2)))
    (HashSet.new_HashSet (T:=Z)) = Ret (true, s') /\ hs_view s' = {[4]} ∪ {[51]}.
Proof.
  destruct (hs_inv_new (T:=Z) 47 ltac:(lia)) as [Hs Hv].
  pose proof (hashset_refines_set (HashSet.new_HashSet_capacity 47) 4
    (mkIterable (Ret (mkIterator (mkArray [4; 51] 2) 0)) (Ret (mkIterator (mkArray [4; 51] 2) 2)))
    [4; 51]) as Hset.
  rewrite Hv in Hset. destruct Hset as (_ & _ & _ & (s' & E & _ & Hv') & _).
  - done.
  - exists (mkArray [4; 51] 2), (mkIterator (mkArray [4; 51] 2) 2). split_and!; try done.
  - rewrite size_empty. simpl. lia.
  - exists s'. split; [|set_solver]. unfold HashSet.new_HashSet, HashSet.DEFAULT_CAPACITY.
    unfold HashSet.new_HashSet_capacity in E. rewrite E. f_equal.
Defined.
