(* ===== verification/LinkedQueue.v ===== *)
(** * [Util::LinkedBlockingQueue] and [Util::LinkedList]

    [lib/util/LinkedBlockingQueue.h]: a singly linked queue of nodes on the heap;
    [lib/util/LinkedList.h]: access by index on top of it. The nodes are a map
    from addresses to nodes, 0 is the null pointer, and using an address that
    holds no node, after a [delete] for instance, is a fault. *)

From S2P Require Import Prelude Array Collections.

Record Node (T : Type) := mkNode { element : T; next_of : Z }.
Arguments mkNode {T} _ _.
Arguments element {T} _.
Arguments next_of {T} _.

Record LinkedBlockingQueue (T : Type) := mkLinked {
  head_of : Z;
  tail_of : Z;
  lq_length : Z;
  heap : gmap Z (Node T)
}.
Arguments mkLinked {T} _ _ _ _.
Arguments head_of {T} _.
Arguments tail_of {T} _.
Arguments lq_length {T} _.
Arguments heap {T} _.

(** [operator new]: an address that is not in use and not null. *)
Class NewNode (N : Type) := {
  new_address : gmap Z N -> Z;
  new_address_free : forall h, new_address h <> 0 /\ h !! new_address h = None
}.

#[export] Program Instance lowest_free {N} : NewNode N | 10 :=
  {| new_address h := fresh ({[0]} ∪ dom h : gset Z) |}.
Next Obligation.
  intros N h. pose proof (is_fresh ({[0]} ∪ dom h : gset Z)) as Hf. split; [set_solver|]. apply not_elem_of_dom. set_solver.
Qed.

Section Operations.
Context {T : Type} `{EqDecision T} `{NewNode (Node T)} `{Junk T}.
Implicit Types (q : LinkedBlockingQueue T) (x : T).

Definition new_LinkedBlockingQueue : LinkedBlockingQueue T := mkLinked 0 0 0 ∅.

Definition node_at q (p : Z) : outcome (Node T) := or_fault (heap q !! p).

(** [p->next = n] *)
Definition set_next (p n : Z) q : outcome (LinkedBlockingQueue T) :=
  nd ← node_at q p;
  Ret (mkLinked (head_of q) (tail_of q) (lq_length q) (<[p := mkNode (element nd) n]> (heap q))).

Definition set_ends (hd tl : Z) q : LinkedBlockingQueue T := mkLinked hd tl (lq_length q) (heap q).
Definition set_length (n : Z) q : LinkedBlockingQueue T := mkLinked (head_of q) (tail_of q) (u32 n) (heap q).
Definition delete_node (p : Z) q : LinkedBlockingQueue T :=
  mkLinked (head_of q) (tail_of q) (lq_length q) (delete p (heap q)).

(** [new Node(element)] *)
Definition new_node x q : Z * LinkedBlockingQueue T :=
  let node := new_address (heap q) in
  (node, mkLinked (head_of q) (tail_of q) (lq_length q) (<[node := mkNode x 0]> (heap q))).

Definition push x q : outcome (LinkedBlockingQueue T) :=
  let '(node, q) := new_node x q in
  q ← (if head_of q =? 0 then Ret (set_ends node node q)
       else q ← set_next (tail_of q) node q; Ret (set_ends (head_of q) node q));
  Ret (set_length (lq_length q + 1) q).

Definition isEmpty q : bool := lq_length q =? 0.

(** Nobody else runs while [pop] waits. *)
Definition pop q : outcome (T * LinkedBlockingQueue T) :=
  if isEmpty q then Diverge
  else
    let tmp := head_of q in
    nd ← node_at q tmp;
    let q := set_ends (next_of nd) (tail_of q) q in
    let q := delete_node tmp q in
    Ret (element nd, set_length (lq_length q - 1) q).

Definition add x q : outcome (bool * LinkedBlockingQueue T) := q ← push x q; Ret (true, q).

Definition addAll (other : Iterable T) q : outcome (bool * LinkedBlockingQueue T) :=
  q ← range_for other push q; Ret (true, q).

(** The loop of [remove] does not advance [current]. *)
Fixpoint remove_loop (fuel : nat) (current : Z) x q : outcome (bool * LinkedBlockingQueue T) :=
  match fuel with
  | O => Diverge
  | S fuel =>
      if current =? 0 then Ret (false, q)
      else
        c ← node_at q current;
        n ← node_at q (next_of c);
        if decide (element n = x) then
          let tmp := next_of c in
          q ← set_next current (next_of n) q;
          let q := delete_node tmp q in
          Ret (true, set_length (lq_length q - 1) q)
        else remove_loop fuel current x q
  end.

Definition remove (fuel : nat) x q : outcome (bool * LinkedBlockingQueue T) :=
  if head_of q =? 0 then Ret (false, q)
  else
    h ← node_at q (head_of q);
    if decide (element h = x) then r ← pop q; Ret (true, snd r)
    else remove_loop fuel (head_of q) x q.

Definition removeAll (fuel : nat) (other : Iterable T) q : outcome (bool * LinkedBlockingQueue T) :=
  range_for other (fun x s => r ← remove fuel x (snd s); Ret (if (fst r : bool) then fst s else false, snd r)) (true, q).

Fixpoint contains_loop (fuel : nat) (current : Z) x q : outcome bool :=
  match fuel with
  | O => Diverge
  | S fuel =>
      c ← node_at q current;
      if decide (element c <> x) then
        if next_of c =? 0 then Ret false else contains_loop fuel (next_of c) x q
      else Ret true
  end.

(** An empty queue is not considered. *)
Definition contains (fuel : nat) x q : outcome bool := contains_loop fuel (head_of q) x q.

Definition containsAll (fuel : nat) (other : Iterable T) q : outcome bool :=
  range_for other (fun x (s : bool) => if s then contains fuel x q else Ret false) true.

Fixpoint clear_loop (fuel : nat) q : outcome (LinkedBlockingQueue T) :=
  match fuel with
  | O => Diverge
  | S fuel => if isEmpty q then Ret q else r ← pop q; clear_loop fuel (snd r)
  end.

Definition clear q : outcome (LinkedBlockingQueue T) := clear_loop (S (Z.to_nat (lq_length q))) q.

Definition size q : Z := lq_length q.

Fixpoint array_loop (fuel : nat) (current i : Z) (ret : Array T) q : outcome (Array T) :=
  match fuel with
  | O => Diverge
  | S fuel =>
      if current =? 0 then Ret ret
      else
        c ← node_at q current;
        ret ← put ret i (element c);
        array_loop fuel (next_of c) (u32 (i + 1)) ret q
  end.

(** [put] throws beyond the length, so that the loop ends on every heap. *)
Definition toArray q : outcome (Array T) :=
  array_loop (S (S (Z.to_nat (lq_length q)))) (head_of q) 0 (new_Array (lq_length q)) q.

Definition begin q : outcome (Iterator T) := a ← toArray q; new_Iterator a 0.
Definition end' q : outcome (Iterator T) := a ← toArray q; new_Iterator a (lq_length q).


(** ** [LinkedList] *)

(** The loops over an index: [i] counts up to [length]. *)
Fixpoint insert_loop (fuel : nat) (i index node current : Z) q : outcome (LinkedBlockingQueue T) :=
  match fuel with
  | O => Diverge
  | S fuel =>
      if i <? lq_length q then
        c ← node_at q current;
        if i =? index then
          q ← set_next node (next_of c) q;
          q ← set_next current node q;
          Ret (set_length (lq_length q + 1) q)
        else insert_loop fuel (u32 (i + 1)) index node (next_of c) q
      else Ret q
  end.

(** The element is pushed at the end and the code below runs as well. *)
Definition insert_at (index : Z) x q : outcome (LinkedBlockingQueue T) :=
  q ← (if (lq_length q <? index) || (head_of q =? 0) then push x q else Ret q);
  let '(node, q) := new_node x q in
  insert_loop (S (Z.to_nat (lq_length q))) 0 index node (head_of q) q.

Fixpoint removeAt_loop (fuel : nat) (i index pred current : Z) q : outcome (T * LinkedBlockingQueue T) :=
  match fuel with
  | O => Diverge
  | S fuel =>
      if i <? lq_length q then
        if i =? index then
          c ← node_at q current;
          q ← set_next pred (next_of c) q;
          let q := if next_of c =? 0 then set_ends (head_of q) pred q else q in
          let q := set_length (lq_length q - 1) q in
          Ret (element c, delete_node current q)
        else c ← node_at q current; removeAt_loop fuel (u32 (i + 1)) index current (next_of c) q
      else Throw OUT_OF_BOUNDS
  end.

Definition removeAt (index : Z) q : outcome (T * LinkedBlockingQueue T) :=
  if index =? 0 then pop q
  else removeAt_loop (S (Z.to_nat (lq_length q))) 0 index (head_of q) (head_of q) q.

(** [current] after [n] steps to the next node. *)
Fixpoint advance (n : nat) (current : Z) q : outcome Z :=
  match n with
  | O => Ret current
  | S n => c ← node_at q current; advance n (next_of c) q
  end.

Definition get (index : Z) q : outcome T :=
  if lq_length q <=? index then Throw OUT_OF_BOUNDS
  else current ← advance (Z.to_nat index) (head_of q) q; c ← node_at q current; Ret (element c).

Definition set (index : Z) x q : outcome (LinkedBlockingQueue T) :=
  if lq_length q <=? index then Ret q
  else
    current ← advance (Z.to_nat index) (head_of q) q;
    c ← node_at q current;
    Ret (mkLinked (head_of q) (tail_of q) (lq_length q) (<[current := mkNode x (next_of c)]> (heap q))).

Fixpoint indexOf_loop (fuel : nat) (current ret : Z) x q : outcome Z :=
  match fuel with
  | O => Diverge
  | S fuel =>
      c ← node_at q current;
      if decide (element c <> x) then
        if next_of c =? 0 then Ret UINT32_MAX else indexOf_loop fuel (next_of c) (u32 (ret + 1)) x q
      else Ret ret
  end.

Definition indexOf (fuel : nat) x q : outcome Z := indexOf_loop fuel (head_of q) 0 x q.

End Operations.

#[export] Instance Linked_collection {T} `{EqDecision T} `{NewNode (Node T)} `{Junk T} : Collection (LinkedBlockingQueue T) T := {|
  c_add := add;
  c_addAll := addAll;
  c_remove x q := remove (S (Z.to_nat (lq_length q))) x q;
  c_removeAll it q := removeAll (S (Z.to_nat (lq_length q))) it q;
  c_contains x q := contains (S (Z.to_nat (lq_length q))) x q;
  c_containsAll it q := containsAll (S (Z.to_nat (lq_length q))) it q;
  c_isEmpty := isEmpty;
  c_clear := clear;
  c_begin := begin;
  c_end := end';
  c_size := size;
  c_toArray := toArray
|}.

#[export] Instance Linked_queue {T} `{EqDecision T} `{NewNode (Node T)} `{Junk T} : QueueOps (LinkedBlockingQueue T) T :=
  {| Collections.push := push; Collections.pop := pop |}.

(** [ensureCapacity] does nothing. *)
#[export] Instance Linked_list {T} `{EqDecision T} `{NewNode (Node T)} `{Junk T} : ListOps (LinkedBlockingQueue T) T := {|
  l_insert := insert_at;
  l_get := get;
  l_set := set;
  l_removeAt := removeAt;
  l_indexOf x q := indexOf (S (Z.to_nat (lq_length q))) x q;
  l_ensureCapacity _ q := Ret q
|}.

(** ** What a queue holds *)

Section Views.
Context {T : Type} `{EqDecision T} `{NewNode (Node T)} `{Junk T}.
Implicit Types (q : LinkedBlockingQueue T) (x : T) (h : gmap Z (Node T)).

(** A chain of nodes from [p] on: addresses and elements. *)
Fixpoint linked h (p : Z) (l : list (Z * T)) : Prop :=
  match l with
  | [] => p = 0
  | (a, x) :: l => p = a /\ a <> 0 /\ exists n, h !! a = Some (mkNode x n) /\ linked h n l
  end.

(** The tail is meaningful while there is a node. *)
Record chained q (l : list (Z * T)) : Prop := {
  ch_linked : linked (heap q) (head_of q) l;
  ch_nodup : NoDup l.*1;
  ch_length : lq_length q = Z.of_nat (length l);
  ch_bound : Z.of_nat (length l) < 2 ^ 32;
  ch_tail : forall a, last l.*1 = Some a -> tail_of q = a
}.

(** The elements of the first [n] nodes. *)
Fixpoint walk h (n : nat) (p : Z) : list T :=
  match n with
  | O => []
  | S n => match h !! p with Some nd => element nd :: walk h n (next_of nd) | None => [] end
  end.

Definition lq_view q : list T := walk (heap q) (Z.to_nat (lq_length q)) (head_of q).
Definition lq_inv q : Prop := exists l, chained q l.

Lemma walk_linked h l : forall p, linked h p l -> walk h (length l) p = l.*2.
Proof.
  induction l as [|[a x] l IH]; intros p Hl; [done|]. destruct Hl as (-> & _ & n & Hn & Hl). simpl. rewrite Hn. f_equal. by apply IH.
Qed.

Lemma lq_view_chained q l : chained q l -> lq_view q = l.*2.
Proof. intros Hc. unfold lq_view. rewrite (ch_length _ _ Hc), Nat2Z.id. apply walk_linked, Hc. Qed.

Lemma linked_lookup h l : forall p i a x, linked h p l -> l !! i = Some (a, x) -> a <> 0 /\ exists n, h !! a = Some (mkNode x n).
Proof.
  induction l as [|[b y] l IH]; intros p i a x Hl Hi; [done|]. destruct Hl as (-> & Hb & n & Hn & Hl). destruct i as [|i].
  - injection Hi as <- <-. eauto.
  - by apply (IH n i).
Qed.

(** A change outside the chain. *)
Lemma linked_frame h h' l : forall p, (forall a, a ∈ l.*1 -> h' !! a = h !! a) -> linked h p l -> linked h' p l.
Proof.
  induction l as [|[b y] l IH]; intros p Hf Hl; [done|]. destruct Hl as (-> & Hb & n & Hn & Hl). split_and!; [done|done|].
  exists n. split; [rewrite Hf; [done|left]|]. apply IH; [|done]. intros a Ha. apply Hf. by right.
Qed.

(** The last node gets a successor. *)
Lemma linked_snoc h l : forall p a x b y, NoDup (l.*1 ++ [a; b]) -> linked h p (l ++ [(a, x)]) -> b <> 0 -> h !! b = Some (mkNode y 0) ->
  linked (<[a := mkNode x b]> h) p (l ++ [(a, x); (b, y)]).
Proof.
  induction l as [|[c z] l IH]; intros p a x b y Hnd Hl Hb Hh.
  - destruct Hl as (-> & Ha & n & Hn & ->). simpl in Hnd. apply NoDup_cons in Hnd as [Hin _]. simpl. split_and!; [done|done|].
    exists b. rewrite lookup_insert_eq. split_and!; [done|done|done|]. exists 0. rewrite lookup_insert_ne by set_solver. done.
  - destruct Hl as (-> & Hc & n & Hn & Hl). simpl in Hnd. apply NoDup_cons in Hnd as [Hin Hnd].
    cbn [app linked]. split_and!; [done|done|]. exists n. rewrite lookup_insert_ne by set_solver. split; [done|]. by apply IH.
Qed.

Lemma linked_none h p l a : linked h p l -> h !! a = None -> a ∉ l.*1.
Proof.
  intros Hl Hn ([b x] & -> & [i Hi]%list_elem_of_lookup)%list_elem_of_fmap. simpl in Hn.
  destruct (linked_lookup _ _ _ _ _ _ Hl Hi) as [_ [n Hb]]. congruence.
Qed.

Lemma push_chained q l x : chained q l -> Z.of_nat (length l) + 1 < 2 ^ 32 ->
  exists q' a, push x q = Ret q' /\ chained q' (l ++ [(a, x)]).
Proof.
  intros [Hl Hnd Hlen _ Htl] Hb. unfold push, new_node. destruct (new_address_free (heap q)) as [Ha Hf]. set (a := new_address (heap q)) in *.
  cbn [head_of tail_of lq_length heap]. pose proof (linked_none _ _ _ _ Hl Hf) as Hout.
  destruct l as [|[b y] l0 _] eqn:El using rev_ind.
  - simpl in Hl. rewrite Hl. simpl. outcome. eexists _, a. split; [done|]. rewrite Hlen. constructor; simpl; try lia.
    + split_and!; [done|done|]. exists 0. by rewrite lookup_insert_eq.
    + apply NoDup_singleton.
    + done.
    + by intros ? [= ->].
  - assert (Hh : head_of q <> 0) by (destruct l0 as [|[]]; destruct Hl as (-> & ? & _); done). decide_bool.
    assert (Ht : tail_of q = b) by (apply Htl; rewrite fmap_app; apply last_snoc). rewrite Ht.
    destruct (linked_lookup _ _ _ (length l0) b y Hl) as [Hb0 [n Hn]]; [by rewrite lookup_app_r, Nat.sub_diag by lia|].
    rewrite fmap_app in Hout, Hnd. simpl in Hout, Hnd.
    unfold set_next, node_at. cbn [heap]. rewrite lookup_insert_ne by set_solver. rewrite Hn. outcome. eexists _, a. split; [done|].
    unfold set_ends, set_length. cbn [head_of tail_of lq_length heap element]. rewrite Hlen, <- app_assoc. simpl. constructor; cbn [head_of tail_of lq_length heap].
    + apply linked_snoc; [|apply (linked_frame (heap q)); [|done]|done|by rewrite lookup_insert_eq].
      * change [b; a] with ([b] ++ [a]). rewrite app_assoc. apply NoDup_app. split_and!; [done|set_solver|apply NoDup_singleton].
      * intros c Hc. rewrite lookup_insert_ne; [done|]. rewrite fmap_app in Hc. set_solver.
    + rewrite fmap_app. simpl. change [b; a] with ([b] ++ [a]). rewrite app_assoc. apply NoDup_app. split_and!; [done|set_solver|apply NoDup_singleton].
    + rewrite !length_app in *. simpl in *. unfold u32. rewrite Z.mod_small; lia.
    + rewrite !length_app in *. simpl in *. lia.
    + intros c. rewrite fmap_app. simpl. change [b; a] with ([b] ++ [a]). rewrite app_assoc, last_snoc. by intros [= ->].
Qed.

Lemma pop_chained q l a x : chained q ((a, x) :: l) -> exists q', pop q = Ret (x, q') /\ chained q' l.
Proof.
  intros [Hl Hnd Hlen Hb Htl]. destruct Hl as (Hh & Ha & n & Hn & Hl). unfold pop, isEmpty. simpl in Hlen. decide_bool.
  unfold node_at. rewrite Hh, Hn. outcome. eexists. split; [done|]. unfold set_length, delete_node, set_ends. cbn [next_of lq_length head_of tail_of heap].
  simpl in Hnd. apply NoDup_cons in Hnd as [Hin Hnd]. simpl in Hb.
  constructor; cbn [head_of tail_of lq_length heap].
  - apply (linked_frame (heap q)); [|done]. intros c Hc. rewrite lookup_delete_ne; [done|]. by intros ->.
  - done.
  - unfold u32. rewrite Z.mod_small; lia.
  - lia.
  - intros c Hc. apply Htl. rewrite fmap_cons. cbn [fst]. rewrite last_cons. by rewrite Hc.
Qed.

(** Taking out the first element by value. *)
Lemma remove_head fuel q l a x : chained q ((a, x) :: l) -> exists q', remove fuel x q = Ret (true, q') /\ chained q' l.
Proof.
  intros Hc. destruct (pop_chained q l a x Hc) as (q' & E & Hq). exists q'. split; [|done].
  destruct (ch_linked _ _ Hc) as (Hh & Ha & n & Hn & _). unfold remove. rewrite Hh. decide_bool. unfold node_at. rewrite Hn. outcome.
  rewrite decide_True by done. rewrite E. done.
Qed.

Lemma array_loop_run q l : forall fuel p pre (a : Array T),
  linked (heap q) p l -> (length l < fuel)%nat -> wf a -> capacity a = Z.of_nat (length pre + length l) -> take (length pre) (array a) = pre ->
  array_loop fuel p (Z.of_nat (length pre)) a q = Ret (mkArray (pre ++ l.*2) (capacity a)).
Proof.
  induction l as [|[b x] l IH]; intros fuel p pre a Hl Hf Hwf Hc Hp; (destruct fuel as [|fuel]; [simpl in Hf; lia|]); cbn [array_loop].
  - simpl in Hl. rewrite Hl, Z.eqb_refl. destruct a as [arr c]. cbn [array capacity] in *. destruct Hwf as [Hw1 Hw2]. cbn [array capacity] in *.
    rewrite <- Hp at 1. simpl. rewrite app_nil_r. rewrite take_ge; [done|]. simpl in Hc. lia.
  - destruct Hl as (-> & Hb & n & Hn & Hl). decide_bool. unfold node_at. rewrite Hn. outcome. cbn [element next_of]. pose proof Hwf as [Hw1 Hw2].
    simpl in Hc, Hf. rewrite put_in_range by (done || lia). outcome. rewrite Nat2Z.id.
    assert (Hu : u32 (Z.of_nat (length pre) + 1) = Z.of_nat (length (pre ++ [x]))).
    { rewrite length_app. simpl. unfold u32. rewrite Z.mod_small; lia. }
    rewrite Hu. rewrite (IH fuel n (pre ++ [x])); [|done|lia|by apply wf_put|rewrite length_app; simpl; cbn [capacity]; lia|].
    + cbn [capacity]. by rewrite fmap_cons, <- app_assoc.
    + cbn [array]. rewrite length_app. simpl. rewrite Nat.add_1_r. erewrite take_S_r; [|apply list_lookup_insert_eq; lia].
      f_equal. rewrite take_insert_ge by lia. done.
Qed.

Lemma toArray_chained q l : chained q l -> toArray q = Ret (mkArray l.*2 (lq_length q)).
Proof.
  intros Hc. unfold toArray. pose proof (ch_length _ _ Hc) as Hlen. pose proof (ch_bound _ _ Hc) as Hb. change 0 with (Z.of_nat (length (@nil T))).
  rewrite (array_loop_run q l); [done|apply Hc|rewrite Hlen; lia|apply wf_new_Array; split; lia|simpl; lia|done].
Qed.

Lemma yields_chained q l : chained q l -> yields (mkIterable (begin q) (end' q)) l.*2.
Proof.
  intros Hc. pose proof (ch_length _ _ Hc) as Hlen. pose proof (ch_bound _ _ Hc) as Hb.
  assert (Hwf : wf (mkArray l.*2 (lq_length q))) by (split; cbn [array capacity]; rewrite ?length_fmap; lia).
  exists (mkArray l.*2 (lq_length q)), (mkIterator (mkArray l.*2 (lq_length q)) (lq_length q)).
  cbn [begin_ end_]. unfold begin, end'. rewrite (toArray_chained q l) by done. outcome.
  rewrite !new_Iterator_spec by done. done.
Qed.

(** In terms of the elements. *)
Lemma lq_push q x : lq_inv q -> Z.of_nat (length (lq_view q)) + 1 < 2 ^ 32 ->
  exists q', push x q = Ret q' /\ lq_inv q' /\ lq_view q' = lq_view q ++ [x].
Proof.
  intros [l Hc] Hb. rewrite (lq_view_chained q l Hc), length_fmap in Hb. destruct (push_chained q l x Hc) as (q' & a & E & Hq); [lia|].
  exists q'. split; [done|]. split; [by eexists|]. by rewrite (lq_view_chained _ _ Hq), (lq_view_chained _ _ Hc), fmap_app.
Qed.

Lemma lq_pop q x l' : lq_inv q -> lq_view q = x :: l' -> exists q', pop q = Ret (x, q') /\ lq_inv q' /\ lq_view q' = l'.
Proof.
  intros [l Hc] Hv. rewrite (lq_view_chained q l Hc) in Hv. destruct l as [|[a y] l]; [done|]. injection Hv as -> <-.
  destruct (pop_chained _ _ _ _ Hc) as (q' & E & Hq). exists q'. split; [done|]. split; [by eexists|]. by rewrite (lq_view_chained _ _ Hq).
Qed.

Lemma lq_isEmpty q : lq_inv q -> isEmpty q = bool_decide (lq_view q = []).
Proof. intros [l Hc]. rewrite (lq_view_chained q l Hc). unfold isEmpty. rewrite (ch_length _ _ Hc). by destruct l. Qed.

Lemma lq_pop_waits q : lq_inv q -> lq_view q = [] -> pop q = Diverge.
Proof. intros Hq Hv. unfold pop. by rewrite lq_isEmpty, bool_decide_true. Qed.

Lemma lq_length_view q : lq_inv q -> lq_length q = Z.of_nat (length (lq_view q)).
Proof. intros [l Hc]. rewrite (lq_view_chained q l Hc), length_fmap. apply Hc. Qed.

Lemma lq_new : lq_inv new_LinkedBlockingQueue /\ lq_view new_LinkedBlockingQueue = [].
Proof. split; [|done]. exists []. constructor; cbn; try done. apply NoDup_nil_2. Qed.
End Views.

#[export] Program Instance Linked_spec {T} `{EqDecision T} `{NewNode (Node T)} `{Junk T} : QueueSpec (LinkedBlockingQueue T) T :=
  {| q_inv := lq_inv; q_view := lq_view |}.
Next Obligation. intros T ? ? ? q x Hq Hb. apply lq_push; [done|lia]. Qed.
Next Obligation. intros T ? ? ? q x l Hq Hv. by apply lq_pop. Qed.
Next Obligation. intros T ? ? ? q Hq Hv. by apply lq_pop_waits. Qed.
Next Obligation. intros T ? ? ? q Hq. by apply lq_isEmpty. Qed.
Next Obligation. intros T ? ? ? q [l Hc]. rewrite (lq_view_chained q l Hc), length_fmap. apply Hc. Qed.

(** ** Access by index *)

Section Indices.
Context {T : Type} `{EqDecision T} `{NewNode (Node T)} `{Junk T}.
Implicit Types (q : LinkedBlockingQueue T) (x : T) (h : gmap Z (Node T)) (l : list (Z * T)).

(** The address behind position [i], null at the end. *)
Definition addr l (i : nat) : Z := default 0 (l.*1 !! i).

Lemma linked_pointwise h l : forall p,
  linked h p l <-> p = addr l 0 /\ forall i a x, l !! i = Some (a, x) -> a <> 0 /\ h !! a = Some (mkNode x (addr l (S i))).
Proof.
  induction l as [|[b y] l IH]; intros p; simpl.
  - split; [intros ->; by split|]. by intros [-> _].
  - split.
    + intros (-> & Hb & n & Hn & [-> Hl]%IH). split; [done|]. intros [|i] a x Hi; simpl in Hi; [by injection Hi as <- <-|]. by apply Hl.
    + intros [-> Hl]. destruct (Hl 0%nat b y eq_refl) as [Hb Hn]. split_and!; [done|done|]. eexists. split; [exact Hn|]. apply IH. split; [done|].
      intros i a x Hi. by apply (Hl (S i)).
Qed.

Lemma chained_node q l i a x : chained q l -> l !! i = Some (a, x) ->
  a <> 0 /\ node_at q a = Ret (mkNode x (addr l (S i))) /\ addr l i = a.
Proof.
  intros Hc Hi. destruct (proj1 (linked_pointwise _ _ _) (ch_linked _ _ Hc)) as [_ Hp]. destruct (Hp _ _ _ Hi) as [Ha Hn]. unfold node_at. rewrite Hn.
  split_and!; [done|done|]. unfold addr. by rewrite list_lookup_fmap, Hi.
Qed.

Lemma head_addr q l : chained q l -> head_of q = addr l 0.
Proof. intros Hc. apply (linked_pointwise (heap q) l (head_of q)), Hc. Qed.

Lemma advance_run q l i n : chained q l -> (i + n <= length l)%nat -> advance n (addr l i) q = Ret (addr l (i + n)).
Proof.
  intros Hc. revert i. induction n as [|n IH]; intros i Hi; simpl; [by rewrite Nat.add_0_r|].
  destruct (lookup_lt_is_Some_ex l i) as [[a x] Hx]; [lia|]. destruct (chained_node _ _ _ _ _ Hc Hx) as (_ & Hn & ->). rewrite Hn. outcome.
  cbn [next_of]. rewrite (IH (S i)) by lia. do 2 f_equal. lia.
Qed.

Lemma get_chained q l i a x : chained q l -> l !! i = Some (a, x) -> get (Z.of_nat i) q = Ret x.
Proof.
  intros Hc Hi. pose proof (lookup_lt_Some _ _ _ Hi) as Hlt. unfold get. rewrite (ch_length _ _ Hc). decide_bool. rewrite Nat2Z.id, (head_addr q l Hc).
  rewrite (advance_run q l 0 i) by (done || lia). rewrite Nat.add_0_l. outcome. destruct (chained_node _ _ _ _ _ Hc Hi) as (_ & Hn & ->). by rewrite Hn.
Qed.

Lemma get_out q l i : chained q l -> Z.of_nat (length l) <= i -> get i q = Throw OUT_OF_BOUNDS.
Proof. intros Hc Hi. unfold get. rewrite (ch_length _ _ Hc). by decide_bool. Qed.

Lemma addr_insert l i a x y j : l !! i = Some (a, x) -> addr (<[i := (a, y)]> l) j = addr l j.
Proof.
  intros Hi. unfold addr. rewrite list_fmap_insert. simpl. rewrite list_insert_id; [done|]. by rewrite list_lookup_fmap, Hi.
Qed.

Lemma nodup_addr l i j a b x y : NoDup l.*1 -> l !! i = Some (a, x) -> l !! j = Some (b, y) -> i <> j -> a <> b.
Proof.
  intros Hnd Hi Hj Hne ->. apply Hne. eapply NoDup_lookup; [exact Hnd| |]; rewrite list_lookup_fmap; [by rewrite Hi|by rewrite Hj].
Qed.

Lemma set_chained q l i a x y : chained q l -> l !! i = Some (a, x) ->
  exists q', set (Z.of_nat i) y q = Ret q' /\ chained q' (<[i := (a, y)]> l).
Proof.
  intros Hc Hi. pose proof (lookup_lt_Some _ _ _ Hi) as Hlt. unfold set. rewrite (ch_length _ _ Hc). decide_bool. rewrite Nat2Z.id, (head_addr q l Hc).
  rewrite (advance_run q l 0 i) by (done || lia). rewrite Nat.add_0_l. outcome. destruct (chained_node _ _ _ _ _ Hc Hi) as (Ha & Hn & ->). rewrite Hn. outcome.
  eexists. split; [done|]. pose proof (proj1 (linked_pointwise _ _ _) (ch_linked _ _ Hc)) as [Hh Hp].
  assert (Hfst : (<[i := (a, y)]> l).*1 = l.*1).
  { rewrite list_fmap_insert. simpl. apply list_insert_id. by rewrite list_lookup_fmap, Hi. }
  constructor; cbn [head_of tail_of lq_length heap next_of]; rewrite ?Hfst, ?length_insert; [|try (apply Hc || done)..].
  apply linked_pointwise. rewrite (addr_insert _ _ _ x) by done. split; [done|]. intros j b z Hj. rewrite (addr_insert _ _ _ x) by done.
  destruct (decide (i = j)) as [<-|Hne].
  - rewrite list_lookup_insert_eq in Hj by done. injection Hj as <- <-. split; [done|]. by rewrite lookup_insert_eq.
  - rewrite list_lookup_insert_ne in Hj by done. rewrite lookup_insert_ne; [by apply Hp|]. by eapply nodup_addr; [apply Hc|exact Hi|exact Hj|].
Qed.

Lemma contains_loop_run q l x : chained q l -> forall n i fuel, (length l - i = S n)%nat -> (n < fuel)%nat ->
  contains_loop fuel (addr l i) x q = Ret (bool_decide (x ∈ drop i l.*2)).
Proof.
  intros Hc n. induction n as [|n IH]; intros i fuel Hn Hf; (destruct fuel as [|fuel]; [lia|]); cbn [contains_loop];
    (destruct (lookup_lt_is_Some_ex l i) as [[a y] Hi]; [lia|]); destruct (chained_node _ _ _ _ _ Hc Hi) as (Ha & Hnd & ->); rewrite Hnd; outcome;
    cbn [element next_of]; rewrite (drop_S _ y i) by (rewrite list_lookup_fmap, Hi; done);
    (destruct (decide (y = x)) as [->|Hne]; [rewrite decide_False by auto; rewrite bool_decide_true by left; done|rewrite decide_True by done]).
  - assert (addr l (S i) = 0) as -> by (unfold addr; rewrite lookup_ge_None_2; [done|rewrite length_fmap; lia]).
    rewrite drop_ge by (rewrite length_fmap; lia). simpl. rewrite bool_decide_false; [done|]. set_solver.
  - destruct (lookup_lt_is_Some_ex l (S i)) as [[b z] Hi']; [lia|]. destruct (chained_node _ _ _ _ _ Hc Hi') as (Hb & _ & Hadd).
    rewrite Hadd at 1. decide_bool. rewrite IH by lia. f_equal. apply bool_decide_ext. set_solver.
Qed.
End Indices.

(** ** Removal by index *)

Section Removal.
Context {T : Type} `{EqDecision T} `{NewNode (Node T)} `{Junk T}.
Implicit Types (q : LinkedBlockingQueue T) (x : T) (l : list (Z * T)).

Lemma addr_delete l i k : addr (delete i l) k = if decide (k < i)%nat then addr l k else addr l (S k).
Proof.
  unfold addr. rewrite !list_lookup_fmap, list_lookup_delete. by destruct (decide _).
Qed.

Lemma addr_null q l i : chained q l -> addr l i = 0 <-> (length l <= i)%nat.
Proof.
  intros Hc. split; intros Hi.
  - destruct (decide (length l <= i)%nat) as [|Hn]; [done|]. destruct (lookup_lt_is_Some_ex l i) as [[a x] Hx]; [lia|].
    destruct (chained_node _ _ _ _ _ Hc Hx) as (Ha & _ & Hadd). congruence.
  - unfold addr. rewrite lookup_ge_None_2; [done|]. by rewrite length_fmap.
Qed.

Lemma tail_addr q l n : chained q l -> length l = S n -> tail_of q = addr l n.
Proof.
  intros Hc Hn. destruct (lookup_lt_is_Some_ex l n) as [[a x] Hx]; [lia|]. destruct (chained_node _ _ _ _ _ Hc Hx) as (_ & _ & ->).
  apply (ch_tail _ _ Hc). rewrite last_lookup, length_fmap, Hn, list_lookup_fmap. simpl. by rewrite Hx.
Qed.

(** Node [S j] is taken out of the chain. *)
Lemma unlink_chained q l j a x b y (tl : Z) :
  chained q l -> l !! j = Some (b, y) -> l !! S j = Some (a, x) ->
  tl = (if addr l (S (S j)) =? 0 then b else tail_of q) ->
  chained (mkLinked (head_of q) tl (lq_length q - 1) (delete a (<[b := mkNode y (addr l (S (S j)))]> (heap q)))) (delete (S j) l).
Proof.
  intros Hc Hj Hi Htl. pose proof (lookup_lt_Some _ _ _ Hi) as Hlt.
  destruct (proj1 (linked_pointwise _ _ _) (ch_linked _ _ Hc)) as [Hh Hp]. pose proof (length_delete l (S j) ltac:(eauto)) as Hld.
  constructor; cbn [head_of tail_of lq_length heap].
  - apply linked_pointwise. rewrite addr_delete, decide_True by lia. split; [done|]. intros k c z Hk. rewrite list_lookup_delete in Hk.
    rewrite addr_delete. destruct (decide (k < S j)%nat) as [Hkj|Hkj].
    + assert (Hca : c <> a) by (eapply nodup_addr; [apply Hc|exact Hk|exact Hi|lia]). rewrite lookup_delete_ne by done. destruct (Hp _ _ _ Hk) as [Hc0 Hn].
      destruct (decide (k = j)) as [->|Hne].
      * rewrite Hj in Hk. injection Hk as <- <-. by rewrite lookup_insert_eq, decide_False by lia.
      * assert (Hcb : b <> c) by (eapply nodup_addr; [apply Hc|exact Hj|exact Hk|lia]). rewrite lookup_insert_ne by done. by rewrite decide_True by lia.
    + assert (Hca : c <> a) by (eapply nodup_addr; [apply Hc|exact Hk|exact Hi|lia]). rewrite lookup_delete_ne by done.
      assert (Hcb : b <> c) by (eapply nodup_addr; [apply Hc|exact Hj|exact Hk|lia]). rewrite lookup_insert_ne by done.
      rewrite decide_False by lia. by apply Hp.
  - eapply sublist_NoDup; [apply (ch_nodup _ _ Hc)|]. apply fmap_sublist. apply sublist_delete.
  - rewrite (ch_length _ _ Hc). lia.
  - pose proof (ch_bound _ _ Hc). lia.
  - intros c Hlast. rewrite last_lookup, length_fmap, Hld in Hlast.
    assert (Hca : addr (delete (S j) l) (pred (length l - 1)) = c) by (unfold addr; by rewrite Hlast). rewrite addr_delete in Hca. rewrite Htl.
    pose proof (addr_null q l (S (S j)) Hc) as Hnull. destruct (Z.eqb_spec (addr l (S (S j))) 0) as [Hz|Hz].
    + apply Hnull in Hz. rewrite decide_True in Hca by lia. assert (Hpj : pred (length l - 1) = j) by lia. rewrite Hpj in Hca.
      destruct (chained_node _ _ _ _ _ Hc Hj) as (_ & _ & Hb). congruence.
    + assert (S (S j) < length l)%nat by (destruct (decide (length l <= S (S j))%nat); [tauto|lia]).
      rewrite decide_False in Hca by lia. rewrite <- Hca. apply tail_addr; [done|lia].
Qed.

Lemma removeAt_loop_run q l j a x : chained q l -> l !! S j = Some (a, x) -> forall m k fuel,
  (S j = k + m)%nat -> (m < fuel)%nat ->
  exists q', removeAt_loop fuel (Z.of_nat k) (Z.of_nat (S j)) (addr l (k - 1)) (addr l k) q = Ret (x, q') /\ chained q' (delete (S j) l).
Proof.
  intros Hc Hi. pose proof (lookup_lt_Some _ _ _ Hi) as Hlt. pose proof (ch_length _ _ Hc) as Hlen. pose proof (ch_bound _ _ Hc) as Hbd.
  induction m as [|m IH]; intros k fuel Hk Hf; (destruct fuel as [|fuel]; [lia|]); cbn [removeAt_loop]; decide_bool.
  - assert (k = S j) as -> by lia. replace (S j - 1)%nat with j by lia. destruct (chained_node _ _ _ _ _ Hc Hi) as (Ha & Hn & ->). rewrite Hn. outcome.
    destruct (lookup_lt_is_Some_ex l j) as [[b y] Hj]; [lia|]. destruct (chained_node _ _ _ _ _ Hc Hj) as (Hb & Hnb & ->).
    unfold set_next. rewrite Hnb. outcome. cbn [next_of element]. eexists. split; [done|].
    pose proof (unlink_chained q l j a x b y _ Hc Hj Hi eq_refl) as Hu. unfold delete_node, set_length, set_ends.
    assert (Hw : u32 (lq_length q - 1) = lq_length q - 1) by (unfold u32; rewrite Z.mod_small; lia).
    destruct (addr l (S (S j)) =? 0); cbn [head_of tail_of lq_length heap]; rewrite Hw; exact Hu.
  - destruct (lookup_lt_is_Some_ex l k) as [[b y] Hk']; [lia|]. destruct (chained_node _ _ _ _ _ Hc Hk') as (Hb & Hnb & Hadd).
    rewrite Hadd, Hnb. outcome. cbn [next_of].
    assert (Hw : u32 (Z.of_nat k + 1) = Z.of_nat (S k)) by (unfold u32; rewrite Z.mod_small; lia). rewrite Hw.
    destruct (IH (S k) fuel) as (q' & E & Hq); [lia|lia|]. replace (S k - 1)%nat with k in E by lia. rewrite Hadd in E. exists q'. by split.
Qed.

Lemma removeAt_chained q l i a x : chained q l -> l !! i = Some (a, x) ->
  exists q', removeAt (Z.of_nat i) q = Ret (x, q') /\ chained q' (delete i l).
Proof.
  intros Hc Hi. pose proof (lookup_lt_Some _ _ _ Hi) as Hlt. unfold removeAt. destruct i as [|j].
  - change (Z.of_nat 0 =? 0) with true. destruct l as [|[b y] l]; [done|]. injection Hi as -> ->. simpl. by eapply pop_chained.
  - decide_bool. rewrite (head_addr q l Hc). change (addr l 0) with (addr l (0 - 1)) at 1. change 0 with (Z.of_nat 0) at 1.
    apply (removeAt_loop_run q l j a x Hc Hi (S j)); [done|]. rewrite (ch_length _ _ Hc). lia.
Qed.
End Removal.

(** ** Claims *)

(** A linked queue holds a list: [push] appends, [pop] takes the first
    element and waits on an empty queue, and by index [get], [set] and [remove]
    read, replace and take out one element and leave the others in order, with
    the nodes, the tail and the length kept consistent; [get] beyond the end
    raises an exception and [set] does nothing there. [contains], on a queue that
    is not empty, and [toArray] see exactly the elements. *)
Theorem linked_list_refines_list {T} `{EqDecision T} `{NewNode (Node T)} `{Junk T} (q : LinkedBlockingQueue T) (x y : T) (i : nat)
    (Hinv : lq_inv q) (Hn : Z.of_nat (length (lq_view q)) + 1 < 2 ^ 32) :
  (exists q', push x q = Ret q' /\ lq_inv q' /\ lq_view q' = lq_view q ++ [x]) /\
  (match lq_view q with
   | [] => pop q = Diverge
   | z :: l => exists q', pop q = Ret (z, q') /\ lq_inv q' /\ lq_view q' = l
   end) /\
  (match lq_view q !! i with
   | Some z => get (Z.of_nat i) q = Ret z /\
       (exists q', set (Z.of_nat i) y q = Ret q' /\ lq_inv q' /\ lq_view q' = <[i := y]> (lq_view q)) /\
       (exists q', removeAt (Z.of_nat i) q = Ret (z, q') /\ lq_inv q' /\ lq_view q' = delete i (lq_view q))
   | None => get (Z.of_nat i) q = Throw OUT_OF_BOUNDS /\ set (Z.of_nat i) y q = Ret q
   end) /\
  (lq_view q <> [] -> contains (S (length (lq_view q))) x q = Ret (bool_decide (x ∈ lq_view q))) /\
  toArray q = Ret (mkArray (lq_view q) (lq_length q)).
Proof.
  destruct Hinv as [l Hc]. pose proof (lq_view_chained q l Hc) as Hv. rewrite Hv, length_fmap in *. split_and!.
  - rewrite <- Hv. apply lq_push; [by eexists|]. rewrite Hv, length_fmap. lia.
  - destruct (l.*2) as [|z l'] eqn:El; [apply lq_pop_waits|apply lq_pop]; try (by eexists); done.
  - rewrite list_lookup_fmap. destruct (l !! i) as [[a z]|] eqn:Hi; simpl.
    + split_and!; [by eapply get_chained| |].
      * destruct (set_chained q l i a z y Hc Hi) as (q' & E & Hq). exists q'. split; [done|]. split; [by eexists|].
        by rewrite (lq_view_chained _ _ Hq), list_fmap_insert.
      * destruct (removeAt_chained q l i a z Hc Hi) as (q' & E & Hq). exists q'. split; [done|]. split; [by eexists|].
        rewrite (lq_view_chained _ _ Hq). by rewrite !delete_take_drop, fmap_app, fmap_take, fmap_drop.
    + apply lookup_ge_None in Hi. split; [eapply get_out; [done|lia]|]. unfold set. rewrite (ch_length _ _ Hc). by decide_bool.
  - intros Hne. unfold contains. rewrite (head_addr q l Hc). destruct l as [|e l0] eqn:El; [done|]. rewrite <- El in *.
    rewrite (contains_loop_run q l x Hc (length l0) 0); [done|rewrite El; simpl; lia|rewrite El; simpl; lia].
  - by apply toArray_chained.
Qed.

#[local] Instance no_junk : Junk Z := fun _ => 0.

Lemma new_chained {T} : chained (new_LinkedBlockingQueue (T := T)) [].
Proof. constructor; cbn; try done. apply NoDup_nil_2. Qed.

Lemma linked_list_refines_list_witness : exists q q' : LinkedBlockingQueue Z,
  foldM push [4; 5; 6] new_LinkedBlockingQueue = Ret q /\ removeAt 1 q = Ret (5, q') /\ lq_view q' = [4; 6].
Proof.
  destruct (push_chained new_LinkedBlockingQueue [] 4 new_chained) as (q1 & a1 & E1 & H1); [simpl; lia|].
  destruct (push_chained q1 _ 5 H1) as (q2 & a2 & E2 & H2); [simpl; lia|]. destruct (push_chained q2 _ 6 H2) as (q3 & a3 & E3 & H3); [simpl; lia|].
  pose proof (lq_view_chained _ _ H3) as Hv. simpl in Hv.
  destruct (linked_list_refines_list q3 0 0 1) as (_ & _ & Hi & _); [by eexists|rewrite Hv; simpl; lia|]. rewrite Hv in Hi.
  destruct Hi as (_ & _ & q' & E & _ & Hv'). exists q3, q'. cbn [foldM]. rewrite E1. outcome. rewrite E2. outcome. by rewrite E3.
Defined.

(** ** Deviations *)

(** [remove] looks only at the first two elements: it never ends when the
    element is behind them or not in the queue. *)
Theorem linked_remove_spins {T} `{EqDecision T} (q : LinkedBlockingQueue T) (a b : Z) (x y z : T) (l : list (Z * T)) (fuel : nat) :
  chained q ((a, x) :: (b, y) :: l) -> z <> x -> z <> y -> remove fuel z q = Diverge.
Proof.
  intros Hc Hx Hy. destruct (ch_linked _ _ Hc) as (Hh & Ha & n & Hna & -> & Hb & n' & Hnb & _). unfold remove, node_at. rewrite Hh. decide_bool.
  rewrite Hna. outcome. cbn [element]. rewrite decide_False by auto. induction fuel as [|fuel IH]; [done|]. cbn [remove_loop]. decide_bool.
  unfold node_at. rewrite Hna. outcome. cbn [next_of]. rewrite Hnb. outcome. cbn [element]. by rewrite decide_False by auto.
Qed.

(** With one element that is another one it uses the null pointer. *)
Theorem linked_remove_single_faults :
  (q ← push 1 new_LinkedBlockingQueue; remove 5 2 q) = Fault.
Proof. by vm_compute. Qed.

(** Removing the second of two elements by value leaves the tail at the freed
    node, where the next [push] writes. If the memory has been given out again
    as the new node, that node becomes its own successor; either way the element
    is lost. *)
Theorem linked_remove_tail_dangles :
  (q ← foldM push [1; 2] new_LinkedBlockingQueue; r ← remove 5 2 q; Ret (lq_view (snd r), heap (snd r) !! tail_of (snd r))) = Ret ([1], None) /\
  (q ← foldM push [1; 2] new_LinkedBlockingQueue; r ← remove 5 2 q; q ← push 3 (snd r); Ret (lq_view q, lq_length q)) = Ret ([1], 2).
Proof. by vm_compute. Qed.

(** [contains] of an empty queue uses the null pointer. *)
Theorem linked_contains_empty_faults : contains 5 1 (new_LinkedBlockingQueue (T := Z)) = Fault.
Proof. done. Qed.

(** Inserting into an empty list stores the element twice; inserting elsewhere
    puts it behind the given index, and behind the last element it is lost with
    the next [push], while the length still counts it. *)
Theorem linked_insert_deviates :
  (q ← insert_at 0 7 new_LinkedBlockingQueue; Ret (lq_view q)) = Ret [7; 7] /\
  (q ← foldM push [1; 2] new_LinkedBlockingQueue; q ← insert_at 0 7 q; Ret (lq_view q)) = Ret [1; 7; 2] /\
  (q ← push 1 new_LinkedBlockingQueue; q ← insert_at 0 7 q; q ← push 3 q; Ret (lq_view q, lq_length q)) = Ret ([1; 3], 3).
Proof. by vm_compute. Qed.
