(* ===== verification/FreeList.v ===== *)
(** * [FreeListMemoryManager], the kernel and user heap

    [kernel/memory/manager/FreeListMemoryManager.cpp] and [.h]: a doubly linked,
    address ordered list of free chunks, whose headers live in the managed
    memory itself. The object's members are a record, the managed memory is the
    byte memory of [Memory]; pointers are addresses, the null pointer is 0.

    The heap theorems are about requests without an alignment, the ones
    [operator new] makes; [aligned_split_overlaps] shows what an aligned request
    that has to split a chunk does. *)

From S2P Require Import Prelude MemoryUtil Memory Spinlock.

Record FreeListMemoryManager := mkFreeList {
  memoryStartAddress : Z;
  memoryEndAddress : Z;
  freeMemory : Z;
  doUnmap : bool;
  lock : Spinlock;
  firstChunk : Z;
  mem : Mem
}.

Definition HEADER_SIZE : Z := 12.
Definition MIN_BLOCK_SIZE : Z := 4.
Definition PAGESIZE : Z := 0x1000.

(** ** What the manager uses of [Management]

    [isInitialized] and [unmap], which takes whole pages inside the given range
    away; the bytes outside of the range stay as they are. *)

Class PageUnmapper := {
  isInitialized : bool;
  unmap : Z -> Z -> Mem -> Mem;
  unmap_outside : forall s e m x, x < s \/ e < x -> unmap s e m x = m x;
  unmap_bytes : forall s e m, bytes m -> bytes (unmap s e m)
}.

Abbreviation FL := (ST FreeListMemoryManager).

(** ** Members and header fields *)

Definition set_freeMemory (v : Z) (s : FreeListMemoryManager) : FreeListMemoryManager :=
  mkFreeList (memoryStartAddress s) (memoryEndAddress s) v (doUnmap s) (lock s) (firstChunk s) (mem s).
Definition set_lock (l : Spinlock) (s : FreeListMemoryManager) : FreeListMemoryManager :=
  mkFreeList (memoryStartAddress s) (memoryEndAddress s) (freeMemory s) (doUnmap s) l (firstChunk s) (mem s).
Definition set_firstChunk (p : Z) (s : FreeListMemoryManager) : FreeListMemoryManager :=
  mkFreeList (memoryStartAddress s) (memoryEndAddress s) (freeMemory s) (doUnmap s) (lock s) p (mem s).
Definition set_mem (m : Mem) (s : FreeListMemoryManager) : FreeListMemoryManager :=
  mkFreeList (memoryStartAddress s) (memoryEndAddress s) (freeMemory s) (doUnmap s) (lock s) (firstChunk s) m.

(** [struct FLHeader]: [prev] at offset 0, [next] at 4, [size] at 8. *)
Definition field (off p : Z) : FL Z := fun s =>
  if p =? 0 then Fault else Ret (load32 (mem s) (p + off), s).
Definition set_field (off p v : Z) : FL unit := fun s =>
  if p =? 0 then Fault else Ret (tt, set_mem (store32 (mem s) (p + off) v) s).

Definition prev : Z -> FL Z := field 0.
Definition next : Z -> FL Z := field 4.
Definition size : Z -> FL Z := field 8.
Definition set_prev : Z -> Z -> FL unit := set_field 0.
Definition set_next : Z -> Z -> FL unit := set_field 4.
Definition set_size : Z -> Z -> FL unit := set_field 8.

Definition add_freeMemory (d : Z) : FL unit :=
  modify (fun s => set_freeMemory (u32 (freeMemory s + d)) s).

(** A held lock is never released by somebody else here, so one round of the
    loop of [acquire] decides. *)
Definition lock_acquire : FL unit := fun s =>
  match acquire 1 (lock s) with
  | Ret l => Ret (tt, set_lock l s)
  | _ => Diverge
  end.
Definition lock_release : FL unit := modify (fun s => set_lock (release (lock s)) s).

(** ** Initialisation *)

Definition new_FreeListMemoryManager (m : Mem) : FreeListMemoryManager :=
  mkFreeList 0 0 0 false new_Spinlock 0 m.

(** [MemoryManager::init] *)
Definition base_init (start end_ : Z) (unmapFlag : bool) : FL unit :=
  modify (fun s => mkFreeList start end_ (u32 (end_ - start)) unmapFlag (lock s) (firstChunk s) (mem s)).

Definition init (start end_ : Z) (unmapFlag : bool) : FL unit :=
  _ ← base_init start end_ unmapFlag;
  fm ← gets freeMemory;
  if fm <? HEADER_SIZE then modify (set_firstChunk 0)
  else
    _ ← modify (set_firstChunk start);
    _ ← add_freeMemory (- HEADER_SIZE);
    fm ← gets freeMemory;
    _ ← set_size start fm;
    _ ← set_next start 0;
    set_prev start 0.

(** ** Allocation *)

Fixpoint findNext (fuel : nat) (current reqSize : Z) : FL Z :=
  match fuel with
  | O => diverge
  | S fuel =>
      if current =? 0 then mret 0
      else
        sz ← size current;
        if reqSize <=? sz then mret current
        else nx ← next current; findNext fuel nx reqSize
  end.

(** The aligned chunk is cut out of [current]. *)
Definition split_aligned (current aligned : Z) : FL unit :=
  csz ← size current;
  _ ← set_size aligned (u32 (current + HEADER_SIZE + csz - aligned + HEADER_SIZE));
  _ ← set_size current (u32 (aligned - current + HEADER_SIZE));
  _ ← set_prev aligned current;
  nx ← next current;
  _ ← set_next aligned nx;
  nx ← next aligned;
  _ ← (if nx =? 0 then mret tt else set_prev nx aligned);
  pv ← prev aligned;
  set_next pv aligned.

(** What the loop does with one chunk: [Some] leaves the loop. *)
Definition try_chunk (size_ alignment current : Z) : FL (option Z) :=
  csz ← size current;
  if size_ <=? csz then
    let data := u32 (current + HEADER_SIZE) in
    let alignedData := alignUp data alignment in
    if data =? alignedData then mret (Some current)
    else
      let aligned := u32 (alignUp (u32 (data + HEADER_SIZE + MIN_BLOCK_SIZE)) alignment - HEADER_SIZE) in
      if u32 (aligned + HEADER_SIZE + size_) <=? u32 (current + HEADER_SIZE + csz) then
        _ ← split_aligned current aligned; mret (Some aligned)
      else mret None
  else mret None.

Fixpoint alloc_search (fuel : nat) (size_ alignment current : Z) : FL Z :=
  match fuel with
  | O => diverge
  | S fuel' =>
      if current =? 0 then mret 0
      else
        found ← try_chunk size_ alignment current;
        match found with
        | Some c => mret c
        | None =>
            nx ← next current;
            c ← findNext fuel nx size_;
            alloc_search fuel' size_ alignment c
        end
  end.

(** [current->prev->next = p], or the list head when there is no predecessor. *)
Definition link_before (pv p : Z) : FL unit :=
  if pv =? 0 then modify (set_firstChunk p) else set_next pv p.

(** [current->next->prev = p] when there is a successor. *)
Definition link_behind (nx p : Z) : FL unit :=
  if nx =? 0 then mret tt else set_prev nx p.

(** The chosen chunk leaves the list, in two parts if the rest is big enough. *)
Definition take_chunk (size_ current : Z) : FL Z :=
  csz ← size current;
  _ ← (if MIN_BLOCK_SIZE + HEADER_SIZE <=? u32 (csz - size_) then
         let slice := u32 (current + HEADER_SIZE + size_) in
         csz ← size current;
         _ ← set_size slice (u32 (csz - size_ - HEADER_SIZE));
         nx ← next current;
         _ ← set_next slice nx;
         pv ← prev current;
         _ ← set_prev slice pv;
         nx ← next slice;
         _ ← link_behind nx slice;
         pv ← prev slice;
         _ ← link_before pv slice;
         _ ← set_size current size_;
         add_freeMemory (- HEADER_SIZE)
       else
         nx ← next current;
         pv ← prev current;
         _ ← link_behind nx pv;
         pv ← prev current;
         nx ← next current;
         link_before pv nx);
  _ ← set_next current 0;
  _ ← set_prev current 0;
  csz ← size current;
  _ ← add_freeMemory (- csz);
  mret (u32 (current + HEADER_SIZE)).

Definition allocAlgorithm (fuel : nat) (size_ alignment startChunk : Z) : FL Z :=
  if size_ =? 0 then mret 0
  else
    startChunk ← (if startChunk =? 0 then gets firstChunk else mret startChunk);
    let size_ := alignUp size_ 4 in
    current ← alloc_search fuel size_ alignment startChunk;
    if current =? 0 then mret 0 else take_chunk size_ current.

Definition alloc_aligned (fuel : nat) (size_ alignment : Z) : FL Z :=
  _ ← lock_acquire;
  first ← gets firstChunk;
  ret ← allocAlgorithm fuel size_ alignment first;
  _ ← lock_release;
  mret ret.

Definition alloc (fuel : nat) (size_ : Z) : FL Z := alloc_aligned fuel size_ 0.

(** ** Deallocation *)

(** One of the two merges of [merge]: the successor of [tmp] is swallowed. *)
Definition swallow_next (tmp : Z) : FL unit :=
  nx ← next tmp;
  nsz ← size nx;
  tsz ← size tmp;
  _ ← set_size tmp (u32 (tsz + u32 (nsz + HEADER_SIZE)));
  nx ← next tmp;
  nn ← next nx;
  _ ← link_behind nn tmp;
  nx ← next tmp;
  nn ← next nx;
  _ ← set_next tmp nn;
  add_freeMemory HEADER_SIZE.

(** [origin] swallows its successor if they touch. *)
Definition merge_with_next (origin : Z) : FL unit :=
  nx ← next origin;
  if nx =? 0 then mret tt
  else
    osz ← size origin;
    if u32 (origin + HEADER_SIZE + osz) =? nx then swallow_next origin else mret tt.

(** The predecessor swallows [origin] if they touch. *)
Definition merge_with_prev (origin : Z) : FL Z :=
  tmp ← prev origin;
  if tmp =? 0 then mret origin
  else
    tsz ← size tmp;
    if u32 (tmp + HEADER_SIZE + tsz) =? origin then _ ← swallow_next tmp; mret tmp
    else mret origin.

Definition merge (origin : Z) : FL Z :=
  first ← gets firstChunk;
  if first =? 0 then mret 0
  else _ ← merge_with_next origin; merge_with_prev origin.

(** The search for the position of the freed chunk. *)
Fixpoint insert_search (fuel : nat) (header tmp : Z) : FL unit :=
  match fuel with
  | O => diverge
  | S fuel =>
      if tmp =? 0 then mret tt
      else
        nx ← next tmp;
        if (tmp <? header) && ((header <? nx) || (nx =? 0)) then
          _ ← set_next header nx;
          _ ← set_prev header tmp;
          _ ← link_behind nx header;
          set_next tmp header
        else insert_search fuel header nx
  end.

Definition insert_chunk (fuel : nat) (header : Z) : FL unit :=
  first ← gets firstChunk;
  if first =? 0 then modify (set_firstChunk header)
  else if header <? first then
    _ ← set_next header first;
    _ ← set_prev header 0;
    _ ← set_prev first header;
    modify (set_firstChunk header)
  else insert_search fuel header first.

Section WithManagement.
Context `{PageUnmapper}.

Definition freeAlgorithm (fuel : nat) (ptr : Z) : FL unit :=
  start ← gets memoryStartAddress;
  end_ ← gets memoryEndAddress;
  if ptr =? 0 then mret tt
  else if (ptr <? start) || (end_ <? ptr) then mret tt
  else
    let header := u32 (ptr - HEADER_SIZE) in
    hsz ← size header;
    _ ← add_freeMemory hsz;
    _ ← insert_chunk fuel header;
    mergedHeader ← merge header;
    flag ← gets doUnmap;
    if (flag : bool) then
      msz ← size mergedHeader;
      if (PAGESIZE <=? msz) && isInitialized then
        let chunkEndAddr := u32 (mergedHeader + u32 (HEADER_SIZE + msz)) in
        modify (fun s => set_mem (unmap (u32 (mergedHeader + HEADER_SIZE)) (u32 (chunkEndAddr - 1)) (mem s)) s)
      else mret tt
    else mret tt.

Definition free_aligned (fuel : nat) (ptr alignment : Z) : FL unit :=
  _ ← lock_acquire;
  _ ← freeAlgorithm fuel ptr;
  lock_release.

Definition free (fuel : nat) (ptr : Z) : FL unit := free_aligned fuel ptr 0.

(** ** Reallocation *)

(** The [do] loop: the smallest sufficient chunk before [ptr], and the first
    chunk behind it. *)
Fixpoint realloc_search (fuel : nat) (size_ ptr currentChunk returnChunk : Z) : FL (Z * Z) :=
  match fuel with
  | O => diverge
  | S fuel =>
      csz ← size currentChunk;
      returnChunk ←
        (if size_ <=? csz then
           if returnChunk =? 0 then mret currentChunk
           else
             rsz ← size returnChunk;
             if csz <? rsz then mret currentChunk else mret returnChunk
         else mret returnChunk);
      currentChunk ← next currentChunk;
      if negb (currentChunk =? 0) && (currentChunk <? ptr)
      then realloc_search fuel size_ ptr currentChunk returnChunk
      else mret (currentChunk, returnChunk)
  end.

(** The last lines of [realloc]: the contents move to the new block. *)
Definition realloc_move (fuel : nat) (ret ptr size_ oldHeader : Z) : FL Z :=
  if ret =? 0 then mret ret
  else
    osz ← size oldHeader;
    _ ← modify (fun s => set_mem (memcpy ret ptr (if size_ <? osz then size_ else osz) (mem s)) s);
    _ ← free fuel ptr;
    mret ret.

(** The chunk behind the block is swallowed and what is left over freed. *)
Definition grow_in_place (fuel : nat) (ptr size_ oldHeader currentChunk : Z) : FL Z :=
  csz ← size currentChunk;
  _ ← add_freeMemory (- csz);
  pv ← prev currentChunk;
  nx ← next currentChunk;
  _ ← set_next pv nx;
  _ ← link_behind nx pv;
  csz ← size currentChunk;
  osz ← size oldHeader;
  _ ← set_size oldHeader (u32 (osz + u32 (csz + HEADER_SIZE)));
  osz ← size oldHeader;
  _ ← (if HEADER_SIZE + MIN_BLOCK_SIZE <? u32 (osz - size_) then
         let newHeader := u32 (ptr + size_) in
         _ ← set_size newHeader (u32 (osz - size_ - HEADER_SIZE));
         _ ← freeAlgorithm fuel (u32 (newHeader + HEADER_SIZE));
         set_size oldHeader size_
       else mret tt);
  _ ← lock_release;
  mret ptr.

(** [realloc]. In the shrinking branch [newHeader + HEADER_SIZE] is arithmetic
    on [FLHeader *]: it adds twelve headers, not twelve bytes. *)
Definition realloc_aligned (fuel : nat) (ptr size_ alignment : Z) : FL Z :=
  if size_ =? 0 then _ ← free fuel ptr; mret 0
  else
    let oldHeader := u32 (ptr - HEADER_SIZE) in
    let isAligned := if alignment =? 0 then true else ptr mod alignment =? 0 in
    osz ← size oldHeader;
    if osz =? size_ then
      if isAligned then mret ptr
      else ret ← alloc_aligned fuel size_ alignment; realloc_move fuel ret ptr size_ oldHeader
    else if size_ <? osz then
      if isAligned then
        if MIN_BLOCK_SIZE + HEADER_SIZE <? u32 (osz - size_) then
          let newHeader := u32 (ptr + size_) in
          _ ← set_size newHeader (u32 (osz - size_ - HEADER_SIZE));
          _ ← free fuel (u32 (newHeader + HEADER_SIZE * HEADER_SIZE));
          _ ← set_size oldHeader size_;
          mret ptr
        else mret ptr
      else ret ← alloc_aligned fuel size_ alignment; realloc_move fuel ret ptr size_ oldHeader
    else
      if isAligned then
        first ← gets firstChunk;
        _ ← lock_acquire;
        chunks ← realloc_search fuel size_ ptr first 0;
        let '(currentChunk, returnChunk) := chunks in
        if negb (currentChunk =? 0) then
          osz ← size oldHeader;
          csz ← size currentChunk;
          if (u32 (ptr + osz) =? currentChunk) && (size_ <=? u32 (osz + csz + HEADER_SIZE))
          then grow_in_place fuel ptr size_ oldHeader currentChunk
          else
            ret ← allocAlgorithm fuel size_ alignment returnChunk;
            _ ← lock_release;
            realloc_move fuel ret ptr size_ oldHeader
        else
          ret ← allocAlgorithm fuel size_ alignment returnChunk;
          _ ← lock_release;
          _ ← lock_release;
          realloc_move fuel ret ptr size_ oldHeader
      else ret ← alloc_aligned fuel size_ alignment; realloc_move fuel ret ptr size_ oldHeader.

Definition realloc (fuel : nat) (ptr size_ : Z) : FL Z := realloc_aligned fuel ptr size_ 0.

End WithManagement.

(** ** The heap as a list of blocks

    The managed memory is tiled by blocks, each a header and a payload. The
    ghost description of a heap lists them in address order. *)

Record block := mkBlock { b_addr : Z; b_size : Z; b_free : bool }.

#[export] Instance block_eq_dec : EqDecision block.
Proof. solve_decision. Defined.

Definition b_end (b : block) : Z := b_addr b + HEADER_SIZE + b_size b.

Fixpoint tiles (m : Mem) (lo hi : Z) (bs : list block) : Prop :=
  match bs with
  | [] => lo = hi
  | b :: bs =>
      b_addr b = lo /\ 0 <= b_size b /\ load32 m (lo + 8) = b_size b /\
      (b_free b = false -> load32 m lo = 0 /\ load32 m (lo + 4) = 0) /\
      tiles m (b_end b) hi bs
  end.

(** The addresses of the free blocks, in order. *)
Fixpoint free_addrs (bs : list block) : list Z :=
  match bs with
  | [] => []
  | b :: bs => if b_free b then b_addr b :: free_addrs bs else free_addrs bs
  end.

Fixpoint free_bytes (bs : list block) : Z :=
  match bs with
  | [] => 0
  | b :: bs => (if b_free b then b_size b else 0) + free_bytes bs
  end.

(** No two neighbours are both free. *)
Fixpoint coalesced (bs : list block) : Prop :=
  match bs with
  | [] => True
  | b :: bs =>
      match bs with
      | b' :: _ => b_free b = false \/ b_free b' = false
      | [] => True
      end /\ coalesced bs
  end.

(** A segment of the doubly linked list: it is entered through the pointer [p]
    from the node [pf], its last node is [ql] and points to [qn]. *)
Fixpoint lseg (m : Mem) (pf p : Z) (l : list Z) (ql qn : Z) : Prop :=
  match l with
  | [] => p = qn /\ pf = ql
  | a :: l => p = a /\ load32 m a = pf /\ lseg m a (load32 m (a + 4)) l ql qn
  end.

Fixpoint spaced (l : list Z) : Prop :=
  match l with
  | [] => True
  | a :: l => 0 < a < 2 ^ 32 /\ Forall (fun b => a + 12 <= b) l /\ spaced l
  end.

(** The memory holds the described blocks, and the free ones are linked. *)
Record heap_ok (s : FreeListMemoryManager) (bs : list block) : Prop := {
  hi_bytes : bytes (mem s);
  hi_range : 0 < memoryStartAddress s /\ memoryEndAddress s < 2 ^ 32;
  hi_tiles : tiles (mem s) (memoryStartAddress s) (memoryEndAddress s) bs;
  hi_list : exists ql, lseg (mem s) 0 (firstChunk s) (free_addrs bs) ql 0;
  hi_free : freeMemory s = free_bytes bs
}.

(** Between two calls the lock is free and no two free blocks touch. *)
Definition heap_inv (s : FreeListMemoryManager) (bs : list block) : Prop :=
  heap_ok s bs /\ coalesced bs /\ lock s = new_Spinlock.

(** ** Lemmas on tilings *)

Lemma tiles_app m lo hi bs1 bs2 :
  tiles m lo hi (bs1 ++ bs2) <-> exists mid, tiles m lo mid bs1 /\ tiles m mid hi bs2.
Proof.
  revert lo. induction bs1 as [|b bs1 IH]; intros lo; simpl.
  - split; [eauto|]. by intros (mid & -> & ?).
  - rewrite IH. naive_solver.
Qed.

Lemma tiles_le m lo hi bs : tiles m lo hi bs -> lo <= hi.
Proof.
  revert lo. induction bs as [|b bs IH]; intros lo; simpl; [lia|].
  intros (<- & ? & _ & _ & Ht). apply IH in Ht. unfold b_end, HEADER_SIZE in Ht. lia.
Qed.

Lemma tiles_block m lo hi bs b :
  tiles m lo hi bs -> b ∈ bs -> lo <= b_addr b /\ 0 <= b_size b /\ b_end b <= hi.
Proof.
  revert lo. induction bs as [|b' bs IH]; intros lo; simpl; [by intros _ ?%not_elem_of_nil|].
  intros (Ha & ? & _ & _ & Ht) [->|Hb]%elem_of_cons.
  - apply tiles_le in Ht. lia.
  - pose proof (IH _ Ht Hb). unfold b_end, HEADER_SIZE in *. lia.
Qed.

(** What a tiling depends on: every size field, and the links of the blocks in
    use. *)
Lemma tiles_frame m m' lo hi bs :
  (forall b x, b ∈ bs -> b_addr b + 8 <= x < b_addr b + 12 -> m' x = m x) ->
  (forall b x, b ∈ bs -> b_free b = false -> b_addr b <= x < b_addr b + 8 -> m' x = m x) ->
  tiles m lo hi bs -> tiles m' lo hi bs.
Proof.
  revert lo. induction bs as [|b bs IH]; intros lo Hs Hl; simpl; [done|].
  intros (Ha & ? & Hz & Hf & Ht). split_and!; try done.
  - rewrite <- Hz. apply load32_ext. intros x Hx. apply (Hs b); [left|lia].
  - intros Hb. destruct (Hf Hb) as [Hp Hn]. rewrite <- Hp at 1. rewrite <- Hn at 1.
    split; apply load32_ext; intros x Hx; (apply (Hl b); [left|done|lia]).
  - apply IH; [| |done]; intros; [eapply Hs|eapply Hl]; try right; eauto.
Qed.

Lemma free_addrs_app bs1 bs2 : free_addrs (bs1 ++ bs2) = free_addrs bs1 ++ free_addrs bs2.
Proof. induction bs1 as [|b bs1 IH]; simpl; [done|]. destruct (b_free b); simpl; by rewrite IH. Qed.

Lemma free_bytes_app bs1 bs2 : free_bytes (bs1 ++ bs2) = free_bytes bs1 + free_bytes bs2.
Proof. induction bs1 as [|b bs1 IH]; simpl; lia. Qed.

Lemma elem_of_free_addrs a bs :
  a ∈ free_addrs bs <-> exists b, b ∈ bs /\ b_addr b = a /\ b_free b = true.
Proof.
  induction bs as [|b bs IH]; simpl.
  - split; [by intros ?%not_elem_of_nil|by intros (? & ?%not_elem_of_nil & _)].
  - destruct (b_free b) eqn:E; [rewrite elem_of_cons|]; rewrite IH; split.
    + intros [->|(b' & ? & ? & ?)]; [exists b|exists b']; split_and!; try done; [left|by right].
    + intros (b' & [->|?]%elem_of_cons & <- & ?); [by left|right; eauto].
    + intros (b' & ? & ? & ?). exists b'. split_and!; try done. by right.
    + intros (b' & [->|?]%elem_of_cons & <- & ?); [congruence|eauto].
Qed.

Lemma free_addrs_range m lo hi bs a :
  tiles m lo hi bs -> a ∈ free_addrs bs -> lo <= a /\ a + 12 <= hi.
Proof.
  intros Ht (b & Hb & <- & _)%elem_of_free_addrs. pose proof (tiles_block _ _ _ _ _ Ht Hb).
  unfold b_end, HEADER_SIZE in *. lia.
Qed.

Lemma free_bytes_range m lo hi bs : tiles m lo hi bs -> 0 <= free_bytes bs <= hi - lo.
Proof.
  revert lo. induction bs as [|b bs IH]; intros lo; simpl; [lia|].
  intros (<- & ? & _ & _ & Ht). apply IH in Ht. unfold b_end, HEADER_SIZE in Ht.
  destruct (b_free b); lia.
Qed.

Lemma tiles_spaced m lo hi bs :
  0 < lo -> hi < 2 ^ 32 -> tiles m lo hi bs -> spaced (free_addrs bs).
Proof.
  revert lo. induction bs as [|b bs IH]; intros lo Hlo Hhi; simpl; [done|].
  intros (<- & ? & _ & _ & Ht).
  assert (Hs : spaced (free_addrs bs)).
  { apply (IH (b_end b)); [unfold b_end, HEADER_SIZE; lia|done|done]. }
  destruct (b_free b); [|done]. simpl. split_and!; try done.
  - apply tiles_le in Ht. unfold b_end, HEADER_SIZE in Ht. lia.
  - apply Forall_forall. intros a Ha. pose proof (free_addrs_range _ _ _ _ _ Ht Ha).
    unfold b_end, HEADER_SIZE in *. lia.
Qed.

Lemma spaced_app l1 l2 :
  spaced (l1 ++ l2) <->
  spaced l1 /\ spaced l2 /\ (forall a b, a ∈ l1 -> b ∈ l2 -> a + 12 <= b).
Proof.
  induction l1 as [|a l1 IH]; simpl.
  - set_solver.
  - rewrite IH, Forall_app, !Forall_forall. set_solver.
Qed.

Lemma spaced_elem l a : spaced l -> a ∈ l -> 0 < a < 2 ^ 32.
Proof.
  induction l as [|b l IH]; simpl; [by intros _ ?%not_elem_of_nil|].
  intros (? & _ & Hs) [->|Hin]%elem_of_cons; [done|by apply IH].
Qed.

(** ** Lemmas on list segments *)

Lemma lseg_app m pf p l1 l2 ql qn :
  lseg m pf p (l1 ++ l2) ql qn <->
  exists ml mn, lseg m pf p l1 ml mn /\ lseg m ml mn l2 ql qn.
Proof.
  revert pf p. induction l1 as [|a l1 IH]; intros pf p; simpl.
  - split; [eauto|]. by intros (ml & mn & (-> & ->) & ?).
  - rewrite IH. naive_solver.
Qed.

Lemma lseg_frame m m' pf p l ql qn :
  (forall a x, a ∈ l -> a <= x < a + 8 -> m' x = m x) ->
  lseg m pf p l ql qn -> lseg m' pf p l ql qn.
Proof.
  revert pf p. induction l as [|a l IH]; intros pf p Hm; simpl; [done|].
  intros (-> & Hp & Hl).
  assert (Hf : forall o, 0 <= o <= 4 -> load32 m' (a + o) = load32 m (a + o)).
  { intros o Ho. apply load32_ext. intros x Hx. apply (Hm a); [left|lia]. }
  rewrite (Hf 4) by lia. split_and!; [done| |].
  - rewrite <- Hp. specialize (Hf 0 ltac:(lia)). by rewrite Z.add_0_r in Hf.
  - apply IH; [|done]. intros b x Hb. apply (Hm b). by right.
Qed.

(** The entry pointer of a segment that ends in null tells whether it is empty. *)
Lemma lseg_entry m pf p l ql :
  spaced l -> lseg m pf p l ql 0 -> (p = 0 /\ l = []) \/ (p <> 0 /\ exists l', l = p :: l').
Proof.
  destruct l as [|a l]; simpl; [by intros _ (-> & _); left|].
  intros (? & _) (-> & _). right. split; [lia|eauto].
Qed.

(** So does the last node of a segment that starts in null. *)
Lemma lseg_exit m p l ql qn :
  spaced l -> lseg m 0 p l ql qn ->
  (ql = 0 /\ l = [] /\ p = qn) \/ (ql <> 0 /\ exists l', l = l' ++ [ql]).
Proof.
  intros Hsp. induction l as [|a l' _] using rev_ind.
  - simpl. intros (-> & <-). by left.
  - intros (ml & mn & _ & Hl)%lseg_app. simpl in Hl. destruct Hl as (-> & _ & _ & <-).
    right. apply spaced_app in Hsp as (_ & Ha & _). simpl in Ha. split; [lia|eauto].
Qed.

(** ** Relinking *)

(** Two memories that differ at most in the links of the given chunks. *)
Definition links_only (l : list Z) (m m' : Mem) : Prop :=
  forall y, (forall a, a ∈ l -> ~ (a <= y < a + 8)) -> m' y = m y.

Lemma links_only_load l m m' x :
  links_only l m m' -> (forall a, a ∈ l -> x + 4 <= a \/ a + 8 <= x) ->
  load32 m' x = load32 m x.
Proof. intros H Hx. apply load32_ext. intros y Hy. apply H. intros a Ha. specialize (Hx a Ha). lia. Qed.

(** A tiling survives changes to the links of its free blocks. *)
Lemma tiles_links m m' lo hi bs :
  (forall y, lo <= y < hi -> (forall a, a ∈ free_addrs bs -> ~ (a <= y < a + 8)) -> m' y = m y) ->
  tiles m lo hi bs -> tiles m' lo hi bs.
Proof.
  revert lo. induction bs as [|b bs IH]; intros lo Hm; simpl; [done|].
  intros (<- & ? & Hz & Hf & Ht).
  pose proof (tiles_le _ _ _ _ Ht) as Hle. unfold b_end, HEADER_SIZE in Hle.
  assert (Hrest : forall a, a ∈ free_addrs bs -> b_addr b + 12 <= a).
  { intros a Ha. pose proof (free_addrs_range _ _ _ _ _ Ht Ha). unfold b_end, HEADER_SIZE in *. lia. }
  assert (Hrest' : forall a, a ∈ free_addrs (b :: bs) ->
    (a = b_addr b /\ b_free b = true) \/ b_addr b + 12 <= a).
  { simpl. intros a. destruct (b_free b); [intros [->|]%elem_of_cons|]; eauto. }
  split_and!; try done.
  - rewrite <- Hz. apply load32_ext. intros y Hy. apply Hm; [lia|]. intros a Ha.
    destruct (Hrest' a Ha) as [[-> _]|?]; lia.
  - intros Hb. destruct (Hf Hb) as [Hp Hn]. rewrite <- Hp at 1. rewrite <- Hn at 1.
    split; apply load32_ext; intros y Hy; (apply Hm; [lia|]); intros a Ha;
      (destruct (Hrest' a Ha) as [[_ ?]|?]; [congruence|lia]).
  - apply IH; [|done]. intros y Hy Ha. apply Hm; [unfold b_end, HEADER_SIZE in Hy; lia|].
    simpl. intros a. destruct (b_free b); [intros [->|Hin]%elem_of_cons|intros Hin].
    + unfold b_end, HEADER_SIZE in Hy. lia.
    + by apply Ha.
    + by apply Ha.
Qed.

Lemma link_behind_spec s c nx l2 ql x :
  bytes (mem s) -> spaced l2 -> is_u32 x -> lseg (mem s) c nx l2 ql 0 ->
  exists m', link_behind nx x s = Ret (tt, set_mem m' s) /\ bytes m' /\
    (exists ql', lseg m' x nx l2 ql' 0) /\
    links_only l2 (mem s) m'.
Proof.
  intros Hb Hsp Hx Hl. unfold link_behind.
  destruct (lseg_entry _ _ _ _ _ Hsp Hl) as [(-> & ->)|(Hne & l' & ->)].
  - exists (mem s). simpl. split_and!; [by destruct s|done|by exists x|by intros y].
  - decide_bool. unfold set_prev, set_field. decide_bool. eexists. split; [done|].
    rewrite Z.add_0_r. simpl in Hl, Hsp. destruct Hl as (_ & _ & Hl), Hsp as (_ & Hall & Hsp).
    rewrite Forall_forall in Hall. split_and!; [by auto with hhu| |].
    + exists ql. simpl. rewrite load_store32_eq, load_store32_ne by (done || lia).
      split_and!; [done|done|]. eapply lseg_frame; [|exact Hl].
      intros a y Ha Hy. apply Hall in Ha. apply store32_outside. lia.
    + intros y Hy. apply store32_outside. specialize (Hy nx ltac:(left)). lia.
Qed.

Lemma link_before_spec s l1 pv q x :
  bytes (mem s) -> spaced l1 -> is_u32 x -> lseg (mem s) 0 (firstChunk s) l1 pv q ->
  exists m' f', link_before pv x s = Ret (tt, set_firstChunk f' (set_mem m' s)) /\ bytes m' /\
    lseg m' 0 f' l1 pv x /\
    links_only l1 (mem s) m'.
Proof.
  intros Hb Hsp Hx Hl. unfold link_before.
  destruct (lseg_exit _ _ _ _ _ Hsp Hl) as [(-> & -> & _)|(Hne & l' & ->)].
  - exists (mem s), x. by destruct s.
  - decide_bool. unfold set_next, set_field. decide_bool.
    exists (store32 (mem s) (pv + 4) x), (firstChunk s). split; [done|].
    apply lseg_app in Hl as (ml & mn & Hl1 & Hl2). simpl in Hl2. destruct Hl2 as (-> & Hml & _).
    apply spaced_app in Hsp as (_ & _ & Hsp).
    split_and!; [by auto with hhu| |].
    + apply lseg_app. exists ml, pv. split.
      * eapply lseg_frame; [|exact Hl1]. intros a y Ha Hy. apply store32_outside.
        specialize (Hsp a pv Ha ltac:(left)). lia.
      * simpl. rewrite load_store32_eq, load_store32_ne by (done || lia). done.
    + intros y Hy. apply store32_outside. specialize (Hy pv ltac:(set_solver)). lia.
Qed.

(** ** First fit *)

Definition fits (size_ : Z) (b : block) : bool := b_free b && (size_ <=? b_size b).

Fixpoint first_fit (size_ : Z) (bs : list block) : option block :=
  match bs with
  | [] => None
  | b :: bs => if fits size_ b then Some b else first_fit size_ bs
  end.

(** The two parts of a block that is taken for a request. *)
Definition carve (size_ : Z) (b : block) : list block :=
  if MIN_BLOCK_SIZE + HEADER_SIZE <=? b_size b - size_
  then [mkBlock (b_addr b) size_ false;
        mkBlock (b_addr b + HEADER_SIZE + size_) (b_size b - size_ - HEADER_SIZE) true]
  else [mkBlock (b_addr b) (b_size b) false].

(** The specification of allocation: the lowest free block that is big enough
    is carved; the payload address is returned. *)
Fixpoint abs_alloc (size_ : Z) (bs : list block) : option (Z * list block) :=
  match bs with
  | [] => None
  | b :: bs =>
      if fits size_ b then Some (b_addr b + HEADER_SIZE, carve size_ b ++ bs)
      else match abs_alloc size_ bs with
           | Some (p, bs') => Some (p, b :: bs')
           | None => None
           end
  end.

Lemma abs_alloc_first_fit size_ bs :
  match first_fit size_ bs with
  | Some b => exists bs1 bs2, bs = bs1 ++ b :: bs2 /\ b_free b = true /\ size_ <= b_size b /\
      abs_alloc size_ bs = Some (b_addr b + HEADER_SIZE, bs1 ++ carve size_ b ++ bs2)
  | None => abs_alloc size_ bs = None
  end.
Proof.
  induction bs as [|b bs IH]; simpl; [done|].
  destruct (fits size_ b) eqn:E.
  - unfold fits in E. apply andb_true_iff in E as [Hf Hs%Z.leb_le]. by exists [], bs.
  - destruct (first_fit size_ bs) as [b'|]; [|by rewrite IH].
    destruct IH as (bs1 & bs2 & -> & Hf & Hs & ->). by exists (b :: bs1), bs2.
Qed.

Lemma field_nonzero off p s : p <> 0 -> field off p s = Ret (load32 (mem s) (p + off), s).
Proof. intros H. unfold field. by decide_bool. Qed.

Lemma set_field_nonzero off p v s :
  p <> 0 -> set_field off p v s = Ret (tt, set_mem (store32 (mem s) (p + off) v) s).
Proof. intros H. unfold set_field. by decide_bool. Qed.

(** Both searches find the first fit. The list is given by the tail of a tiling
    and the pointer its free blocks are entered through. *)
Lemma findNext_first_fit fuel s pf p lo hi bs ql size_ :
  0 < lo -> hi < 2 ^ 32 -> (length bs < fuel)%nat ->
  tiles (mem s) lo hi bs -> lseg (mem s) pf p (free_addrs bs) ql 0 ->
  findNext fuel p size_ s = Ret (from_option b_addr 0 (first_fit size_ bs), s).
Proof.
  revert pf p lo fuel. induction bs as [|b bs IH]; intros pf p lo fuel Hlo Hhi Hf Ht Hl.
  - simpl in Hl. destruct Hl as [-> _]. destruct fuel; [simpl in Hf; lia|done].
  - simpl in Ht, Hl. destruct Ht as (<- & Hsz & Hz & _ & Ht). simpl in Hf.
    cbn [first_fit]. unfold fits. destruct (b_free b) eqn:Eb.
    + simpl in Hl. destruct Hl as (-> & _ & Hl). destruct fuel as [|fuel]; [lia|].
      cbn [findNext]. decide_bool. unfold size, next. st_step. rewrite field_nonzero by lia.
      rewrite Hz. simpl. destruct (Z.leb_spec size_ (b_size b)); [done|].
      st_step. rewrite field_nonzero by lia.
      eapply IH; [|done|lia|exact Ht|exact Hl]. unfold b_end, HEADER_SIZE. lia.
    + eapply IH; [|done|lia|exact Ht|exact Hl]. unfold b_end, HEADER_SIZE. lia.
Qed.

Lemma first_fit_fits size_ bs b :
  first_fit size_ bs = Some b -> b ∈ bs /\ b_free b = true /\ size_ <= b_size b.
Proof.
  intros E. pose proof (abs_alloc_first_fit size_ bs) as H. rewrite E in H.
  destruct H as (bs1 & bs2 & -> & ? & ? & _). set_solver.
Qed.

Lemma tiles_size m lo hi bs b : tiles m lo hi bs -> b ∈ bs -> load32 m (b_addr b + 8) = b_size b.
Proof.
  intros Ht (bs1 & bs2 & ->)%list_elem_of_split. apply tiles_app in Ht as (mid & _ & Ht).
  simpl in Ht. by destruct Ht as (<- & _ & ? & _).
Qed.

(** A chunk that fits is taken at once when no alignment is asked for. *)
Lemma try_chunk_unaligned size_ p csz s :
  0 < p -> p + HEADER_SIZE < 2 ^ 32 -> load32 (mem s) (p + 8) = csz ->
  try_chunk size_ 0 p s = Ret (if size_ <=? csz then Some p else None, s).
Proof.
  intros Hp Hr Hz. unfold try_chunk, size. st_step. rewrite field_nonzero by lia. rewrite Hz.
  destruct (size_ <=? csz); [|done]. rewrite alignUp_0, Z.eqb_refl. done.
Qed.

Lemma alloc_search_spec fuel s lo hi bs pf p ql size_ :
  0 < lo -> hi < 2 ^ 32 -> (S (length bs) < fuel)%nat ->
  tiles (mem s) lo hi bs -> lseg (mem s) pf p (free_addrs bs) ql 0 ->
  alloc_search fuel size_ 0 p s = Ret (from_option b_addr 0 (first_fit size_ bs), s).
Proof.
  revert lo pf p. induction bs as [|b bs IH]; intros lo pf p Hlo Hhi Hf Ht Hl.
  - simpl in Hl. destruct Hl as [-> _]. destruct fuel; [lia|done].
  - pose proof Ht as Hall. simpl in Ht, Hl. destruct Ht as (<- & Hsz & Hz & _ & Ht).
    pose proof (tiles_le _ _ _ _ Ht) as Hle. unfold b_end, HEADER_SIZE in Hle.
    cbn [first_fit]. unfold fits. simpl in Hf. destruct (b_free b) eqn:Eb.
    2: { eapply IH; [|done|lia|exact Ht|exact Hl]. unfold b_end, HEADER_SIZE. lia. }
    simpl in Hl. destruct Hl as (-> & _ & Hl). destruct fuel as [|[|fuel]]; [lia|lia|].
    cbn [alloc_search]. decide_bool. st_step.
    rewrite (try_chunk_unaligned _ _ (b_size b)) by (done || (try unfold HEADER_SIZE; lia)).
    cbn [andb]. destruct (size_ <=? b_size b); [done|]. st_step.
    unfold next. rewrite field_nonzero by lia. st_step.
    rewrite (findNext_first_fit _ _ _ _ (b_end b) hi bs ql)
      by (first [done|exact Hl|unfold b_end, HEADER_SIZE; lia]).
    st_step. destruct (first_fit size_ bs) as [b'|] eqn:Ef; cbn [from_option]; [|done].
    apply first_fit_fits in Ef as (Hin & _ & Hfit).
    pose proof (tiles_block _ _ _ _ _ Ht Hin) as Hb'. unfold b_end, HEADER_SIZE in Hb'. decide_bool.
    st_step. rewrite (try_chunk_unaligned _ _ (b_size b')) by
      (first [exact (tiles_size _ _ _ _ _ Ht Hin)|try unfold HEADER_SIZE; lia]).
    by decide_bool.
Qed.

(** ** Taking a chunk *)

(** What is known around one free block of a heap. *)
Record around (m : Mem) (lo hi first : Z) (bs1 : list block) (b : block) (bs2 : list block)
    (pv nx : Z) : Prop := {
  ar_left : tiles m lo (b_addr b) bs1;
  ar_right : tiles m (b_end b) hi bs2;
  ar_size : load32 m (b_addr b + 8) = b_size b;
  ar_nonneg : 0 <= b_size b;
  ar_lo : lo <= b_addr b;
  ar_hi : b_end b <= hi;
  ar_before : lseg m 0 first (free_addrs bs1) pv (b_addr b);
  ar_prev : load32 m (b_addr b) = pv;
  ar_next : load32 m (b_addr b + 4) = nx;
  ar_behind : exists ql, lseg m (b_addr b) nx (free_addrs bs2) ql 0;
  ar_spaced1 : spaced (free_addrs bs1);
  ar_spaced2 : spaced (free_addrs bs2);
  ar_below : forall x, x ∈ free_addrs bs1 -> lo <= x /\ x + 12 <= b_addr b;
  ar_above : forall x, x ∈ free_addrs bs2 -> b_end b <= x
}.

Lemma heap_around s bs1 b bs2 :
  heap_ok s (bs1 ++ b :: bs2) -> b_free b = true ->
  exists pv nx, is_u32 pv /\ is_u32 nx /\
    around (mem s) (memoryStartAddress s) (memoryEndAddress s) (firstChunk s) bs1 b bs2 pv nx.
Proof.
  intros [Hb [H0 Hhi] Ht (ql & Hl) _] Hf.
  pose proof (tiles_spaced _ _ _ _ H0 Hhi Ht) as Hsp.
  apply tiles_app in Ht as (mid & Ht1 & Ht2). simpl in Ht2.
  destruct Ht2 as (<- & Hnn & Hz & _ & Ht2).
  rewrite free_addrs_app in Hl, Hsp. simpl in Hl, Hsp. rewrite Hf in Hl, Hsp.
  apply lseg_app in Hl as (pv & mn & Hl1 & Hl2). simpl in Hl2. destruct Hl2 as (-> & Hp & Hl2).
  apply spaced_app in Hsp as (Hs1 & Hs2 & _). simpl in Hs2. destruct Hs2 as (_ & _ & Hs2).
  exists pv, (load32 (mem s) (b_addr b + 4)). split_and!.
  - rewrite <- Hp. by apply load32_range.
  - by apply load32_range.
  - constructor; try done.
    + by apply tiles_le in Ht1.
    + by apply tiles_le in Ht2.
    + by exists ql.
    + intros x Hx. by apply (free_addrs_range _ _ _ _ _ Ht1).
    + intros x Hx. by apply (free_addrs_range _ _ _ _ _ Ht2).
Qed.

(** Loads that no store in between touches. *)
Ltac ld :=
  repeat first
    [ rewrite load_store32_eq by (first [done | solve [auto with hhu] | unfold is_u32; lia])
    | rewrite load_store32_ne by lia ].

Ltac fields :=
  unfold size, next, prev, set_size, set_next, set_prev;
  repeat (rewrite ?field_nonzero, ?set_field_nonzero by lia; st_step; cbn [mem set_mem]).

(** Evaluation of the members of an updated object. *)
Ltac members :=
  cbn [mem set_mem set_freeMemory set_firstChunk set_lock freeMemory firstChunk lock
       memoryStartAddress memoryEndAddress doUnmap].

(** The state a chunk is taken in: its block [b] is marked as used and [m] is
    the memory with the links of the others set. *)
Definition taken (m : Mem) (f' : Z) (b : block) (size_ d : Z) (s : FreeListMemoryManager)
    : FreeListMemoryManager :=
  mkFreeList (memoryStartAddress s) (memoryEndAddress s) (u32 (u32 (freeMemory s - d) - size_))
    (doUnmap s) (lock s) f' (store32 (store32 m (b_addr b + 4) 0) (b_addr b) 0).

Lemma take_chunk_split_run s bs1 b bs2 size_ pv nx :
  bytes (mem s) -> 0 < memoryStartAddress s -> memoryEndAddress s < 2 ^ 32 ->
  is_u32 pv -> is_u32 nx ->
  around (mem s) (memoryStartAddress s) (memoryEndAddress s) (firstChunk s) bs1 b bs2 pv nx ->
  0 <= size_ -> 16 <= b_size b - size_ ->
  let c := b_addr b + 12 + size_ in
  exists m f', take_chunk size_ (b_addr b) s
      = Ret (b_addr b + 12, taken (store32 m (b_addr b + 8) size_) f' b size_ 12 s) /\
    bytes m /\ lseg m 0 f' (free_addrs bs1) pv c /\ (exists ql, lseg m c nx (free_addrs bs2) ql 0) /\
    load32 m c = pv /\ load32 m (c + 4) = nx /\ load32 m (c + 8) = b_size b - size_ - 12 /\
    (forall y, ~ (c <= y < c + 12) ->
       (forall x, x ∈ free_addrs bs1 \/ x ∈ free_addrs bs2 -> ~ (x <= y < x + 8)) -> m y = mem s y).
Proof.
  intros Hb H0 Hhi Hpv Hnx [Ht1 Ht2 Hz Hnn Hlo Hend Hl1 Hp Hn (ql & Hl2) Hs1 Hs2 Hbelow Habove] Hs Hcsz c.
  unfold b_end, HEADER_SIZE in *. assert (Hc : c = b_addr b + 12 + size_) by done.
  set (a := b_addr b) in *. unfold take_chunk, MIN_BLOCK_SIZE, HEADER_SIZE. st_step. fields. rewrite Hz.
  rewrite (u32_small (b_size b - size_)), (u32_small (a + 12 + size_)) by (unfold is_u32; lia).
  fold c. clearbody c. decide_bool. fields. rewrite !Z.add_0_r. ld. rewrite Hz, Hn, Hp.
  rewrite (u32_small (b_size b - size_ - 12)) by (unfold is_u32; lia).
  set (m3 := store32 (store32 (store32 (mem s) (c + 8) (b_size b - size_ - 12)) (c + 4) nx) c pv).
  change (set_mem m3 _) with (set_mem m3 s).
  assert (Hb3 : bytes m3) by (subst m3; auto with hhu).
  assert (Hm3c : load32 m3 c = pv /\ load32 m3 (c + 4) = nx /\
                 load32 m3 (c + 8) = b_size b - size_ - 12) by (subst m3; split_and!; by ld).
  assert (Hm3 : forall y, ~ (c <= y < c + 12) -> m3 y = mem s y).
  { intros y Hy. subst m3. rewrite !store32_outside by lia. done. }
  clearbody m3. destruct Hm3c as (Hc0 & Hc4 & Hc8).
  destruct (link_behind_spec (set_mem m3 s) a nx (free_addrs bs2) ql c)
    as (m4 & -> & Hb4 & (ql' & Hl4) & Hm4); [done|done|unfold is_u32; lia| |].
  { eapply lseg_frame; [|exact Hl2]. intros x y Hx Hy. apply Habove in Hx. apply Hm3. lia. }
  members. cbn [mem set_mem] in Hm4. st_step. change (set_mem m4 _) with (set_mem m4 s). fields.
  assert (H4c : forall o, 0 <= o <= 8 -> load32 m4 (c + o) = load32 m3 (c + o)).
  { intros o Ho. apply (links_only_load _ _ _ _ Hm4). intros x Hx%Habove. lia. }
  rewrite H4c, Z.add_0_r, Hc0 by lia.
  destruct (link_before_spec (set_mem m4 s) (free_addrs bs1) pv a c)
    as (m5 & f5 & -> & Hb5 & Hl5 & Hm5); [done|done|unfold is_u32; lia| |].
  { eapply lseg_frame; [|exact Hl1]. intros x y Hx Hy. apply Hbelow in Hx. cbn [mem set_mem].
    rewrite Hm4, Hm3; [done|lia|]. intros z Hz'%Habove. lia. }
  cbn [mem set_mem] in Hm5. st_step. fields. unfold add_freeMemory. st_step. fields. members. ld.
  rewrite (u32_small (a + 12)), Z.add_0_r by (unfold is_u32; lia).
  assert (H5c : forall o, 0 <= o <= 8 -> load32 m5 (c + o) = load32 m3 (c + o)).
  { intros o Ho. rewrite <- H4c by lia. apply (links_only_load _ _ _ _ Hm5). intros x Hx%Hbelow. lia. }
  exists m5, f5. split_and!; try done.
  - exists ql'. eapply lseg_frame; [|exact Hl4]. intros x y Hx Hy. apply Hm5.
    intros z Hz'%Hbelow. apply Habove in Hx. lia.
  - rewrite <- Hc0, <- (Z.add_0_r c). apply H5c. lia.
  - rewrite H5c by lia. done.
  - rewrite H5c by lia. done.
  - intros y Hy Hx. rewrite Hm5, Hm4, Hm3; eauto.
Qed.

Lemma take_chunk_whole_run s bs1 b bs2 size_ pv nx :
  bytes (mem s) -> 0 < memoryStartAddress s -> memoryEndAddress s < 2 ^ 32 ->
  is_u32 pv -> is_u32 nx ->
  around (mem s) (memoryStartAddress s) (memoryEndAddress s) (firstChunk s) bs1 b bs2 pv nx ->
  0 <= size_ <= b_size b -> b_size b - size_ < 16 ->
  exists m f', take_chunk size_ (b_addr b) s
      = Ret (b_addr b + 12, taken m f' b (b_size b) 0 s) /\
    bytes m /\ lseg m 0 f' (free_addrs bs1) pv nx /\ (exists ql, lseg m pv nx (free_addrs bs2) ql 0) /\
    load32 m (b_addr b + 8) = b_size b /\
    (forall y, (forall x, x ∈ free_addrs bs1 \/ x ∈ free_addrs bs2 -> ~ (x <= y < x + 8)) ->
       m y = mem s y).
Proof.
  intros Hb H0 Hhi Hpv Hnx [Ht1 Ht2 Hz Hnn Hlo Hend Hl1 Hp Hn (ql & Hl2) Hs1 Hs2 Hbelow Habove] Hs Hcsz.
  unfold b_end, HEADER_SIZE in *.
  set (a := b_addr b) in *. unfold take_chunk, MIN_BLOCK_SIZE, HEADER_SIZE. st_step. fields. rewrite Hz.
  rewrite (u32_small (b_size b - size_)) by (unfold is_u32; lia).
  decide_bool. fields. rewrite !Z.add_0_r, Hn, Hp.
  destruct (link_behind_spec s a nx (free_addrs bs2) ql pv)
    as (m4 & -> & Hb4 & (ql' & Hl4) & Hm4); [done|done|done|done|].
  st_step. fields.
  assert (H4a : forall o, 0 <= o <= 8 -> load32 m4 (a + o) = load32 (mem s) (a + o)).
  { intros o Ho. apply (links_only_load _ _ _ _ Hm4). intros x Hx%Habove. lia. }
  rewrite !H4a, Z.add_0_r, Hp, Hn by lia.
  destruct (link_before_spec (set_mem m4 s) (free_addrs bs1) pv a nx)
    as (m5 & f5 & -> & Hb5 & Hl5 & Hm5); [done|done|done| |].
  { eapply lseg_frame; [|exact Hl1]. intros x y Hx Hy. apply Hbelow in Hx. apply Hm4.
    intros z Hz'%Habove. lia. }
  cbn [mem set_mem] in Hm5. st_step. fields. unfold add_freeMemory. st_step. members. ld.
  assert (H5a : load32 m5 (a + 8) = b_size b).
  { rewrite <- Hz, <- H4a by lia. apply (links_only_load _ _ _ _ Hm5). intros x Hx%Hbelow. lia. }
  rewrite H5a, (u32_small (a + 12)), Z.add_0_r by (unfold is_u32; lia).
  exists m5, f5. split_and!; try done.
  - unfold taken. fold a. rewrite Z.sub_0_r, u32_sub_l. done.
  - exists ql'. eapply lseg_frame; [|exact Hl4]. intros x y Hx Hy. apply Hm5.
    intros z Hz'%Hbelow. apply Habove in Hx. lia.
  - intros y Hx. rewrite Hm5, Hm4; eauto.
Qed.

(** The used block between two intact parts of the heap. *)
Lemma tiles_taken m0 m bs1 bs2 lo hi a sz :
  tiles m0 lo a bs1 -> tiles m0 (a + 12 + sz) hi bs2 -> 0 <= sz ->
  load32 m (a + 8) = sz ->
  (forall y, ~ (a <= y < a + 12 + sz) ->
     (forall x, x ∈ free_addrs bs1 \/ x ∈ free_addrs bs2 -> ~ (x <= y < x + 8)) -> m y = m0 y) ->
  tiles (store32 (store32 m (a + 4) 0) a 0) lo hi (bs1 ++ mkBlock a sz false :: bs2).
Proof.
  intros Ht1 Ht2 Hnn Hz Hm. pose proof (tiles_le _ _ _ _ Ht1). pose proof (tiles_le _ _ _ _ Ht2).
  apply tiles_app. exists a. split.
  - eapply tiles_links; [|exact Ht1]. intros y Hy Hx. rewrite !store32_outside by lia.
    apply Hm; [lia|]. intros x [?|Hin]; [by apply Hx|].
    pose proof (free_addrs_range _ _ _ _ _ Ht2 Hin). lia.
  - cbn [tiles b_addr b_size b_free]. unfold b_end, HEADER_SIZE. cbn [b_addr b_size].
    split_and!; try done; [by ld|intros _; by ld|].
    eapply tiles_links; [|exact Ht2]. intros y Hy Hx. rewrite !store32_outside by lia.
    apply Hm; [lia|]. intros x [Hin|?]; [|by apply Hx].
    pose proof (free_addrs_range _ _ _ _ _ Ht1 Hin). lia.
Qed.

(** The memory after a split: the rest of the block is a free block, linked in
    the place of the whole. *)
Lemma split_heap m0 m lo hi f' bs1 b bs2 size_ pv nx ql :
  tiles m0 lo (b_addr b) bs1 -> tiles m0 (b_end b) hi bs2 ->
  0 <= size_ -> 16 <= b_size b - size_ ->
  let c := b_addr b + 12 + size_ in
  let m' := store32 (store32 (store32 m (b_addr b + 8) size_) (b_addr b + 4) 0) (b_addr b) 0 in
  lseg m 0 f' (free_addrs bs1) pv c -> lseg m c nx (free_addrs bs2) ql 0 ->
  load32 m c = pv -> load32 m (c + 4) = nx -> load32 m (c + 8) = b_size b - size_ - 12 ->
  hi < 2 ^ 32 -> 0 < lo ->
  (forall y, ~ (c <= y < c + 12) ->
     (forall x, x ∈ free_addrs bs1 \/ x ∈ free_addrs bs2 -> ~ (x <= y < x + 8)) -> m y = m0 y) ->
  tiles m' lo hi (bs1 ++ carve size_ b ++ bs2) /\
  lseg m' 0 f' (free_addrs (bs1 ++ carve size_ b ++ bs2)) ql 0.
Proof.
  intros Ht1 Ht2 Hs Hcsz c m' Hl1 Hl2 Hc0 Hc4 Hc8 Hhi H0 Hm.
  pose proof (tiles_le _ _ _ _ Ht1). pose proof (tiles_le _ _ _ _ Ht2).
  pose proof (fun x => free_addrs_range _ _ _ _ x Ht1) as Hbelow.
  pose proof (fun x => free_addrs_range _ _ _ _ x Ht2) as Habove.
  unfold carve, MIN_BLOCK_SIZE. unfold b_end, HEADER_SIZE in *. decide_bool.
  set (a := b_addr b) in *. assert (Hc : c = a + 12 + size_) by done. fold c. clearbody c.
  set (rest := mkBlock c (b_size b - size_ - 12) true).
  assert (Hm0 : forall x, x ∈ free_addrs bs1 \/ x ∈ free_addrs (rest :: bs2) -> x + 12 <= a \/ c <= x).
  { intros x [Hx%Hbelow|[->|Hx%Habove]%elem_of_cons]; simpl; lia. }
  split.
  - change (bs1 ++ _ ++ bs2) with (bs1 ++ mkBlock a size_ false :: rest :: bs2).
    eapply (tiles_taken m); [| |lia|ld; done|].
    + eapply tiles_links; [|exact Ht1]. intros y Hy Hx. apply Hm; [lia|].
      intros x [?|Hin]; [by apply Hx|apply Habove in Hin; lia].
    + rewrite <- Hc. clear Hm0. subst rest. cbn [tiles b_addr b_size b_free]. unfold b_end, HEADER_SIZE.
      cbn [b_addr b_size]. split_and!; try done; [lia|].
      replace (c + 12 + (b_size b - size_ - 12)) with (a + 12 + b_size b) by lia.
      eapply tiles_links; [|exact Ht2]. intros y Hy Hx. apply Hm; [lia|].
      intros x [Hin|?]; [apply Hbelow in Hin; lia|by apply Hx].
    + intros y Hy _. apply store32_outside. lia.
  - subst rest. rewrite free_addrs_app. cbn [free_addrs app b_free b_addr] in *. apply lseg_app.
    exists pv, c. assert (Hf : forall x y, x + 12 <= a \/ c <= x -> x <= y < x + 8 -> m' y = m y).
    { intros x y Hx Hy. subst m'. rewrite !store32_outside by lia. done. }
    split; [|cbn [b_addr lseg]; split_and!; [done| |]].
    + eapply lseg_frame; [|exact Hl1]. intros x y Hx. apply Hf. apply Hm0. by left.
    + subst m'. ld. done.
    + replace (load32 m' (c + 4)) with nx by (subst m'; ld; done).
      eapply lseg_frame; [|exact Hl2]. intros x y Hx. apply Hf. apply Hm0. right. by right.
Qed.

Lemma whole_heap m0 m lo hi f' bs1 b bs2 pv nx ql :
  tiles m0 lo (b_addr b) bs1 -> tiles m0 (b_end b) hi bs2 -> 0 <= b_size b ->
  let m' := store32 (store32 m (b_addr b + 4) 0) (b_addr b) 0 in
  lseg m 0 f' (free_addrs bs1) pv nx -> lseg m pv nx (free_addrs bs2) ql 0 ->
  load32 m (b_addr b + 8) = b_size b ->
  (forall y, (forall x, x ∈ free_addrs bs1 \/ x ∈ free_addrs bs2 -> ~ (x <= y < x + 8)) -> m y = m0 y) ->
  tiles m' lo hi (bs1 ++ mkBlock (b_addr b) (b_size b) false :: bs2) /\
  lseg m' 0 f' (free_addrs (bs1 ++ mkBlock (b_addr b) (b_size b) false :: bs2)) ql 0.
Proof.
  intros Ht1 Ht2 Hnn m' Hl1 Hl2 Hz Hm. split.
  - apply (tiles_taken m0); try done. intros y _. apply Hm.
  - rewrite free_addrs_app. cbn [free_addrs b_free]. eapply lseg_frame; [|apply lseg_app; eauto].
    intros x y Hx Hy. subst m'. rewrite !store32_outside; [done| |];
      apply elem_of_app in Hx as [Hx|Hx];
      [pose proof (free_addrs_range _ _ _ _ _ Ht1 Hx)|pose proof (free_addrs_range _ _ _ _ _ Ht2 Hx)
      |pose proof (free_addrs_range _ _ _ _ _ Ht1 Hx)|pose proof (free_addrs_range _ _ _ _ _ Ht2 Hx)];
      unfold b_end, HEADER_SIZE in *; lia.
Qed.

(** Taking a chunk replaces its block by the carved ones; memory changes only
    inside the block and in the links of the other free blocks. *)
Lemma take_chunk_spec s bs1 b bs2 size_ :
  heap_ok s (bs1 ++ b :: bs2) -> b_free b = true -> 0 <= size_ <= b_size b ->
  exists s', take_chunk size_ (b_addr b) s = Ret (b_addr b + HEADER_SIZE, s') /\
    heap_ok s' (bs1 ++ carve size_ b ++ bs2) /\ lock s' = lock s /\
    memoryStartAddress s' = memoryStartAddress s /\ memoryEndAddress s' = memoryEndAddress s /\
    (forall y, ~ (b_addr b <= y < b_end b) ->
       (forall x, x ∈ free_addrs (bs1 ++ bs2) -> ~ (x <= y < x + 8)) -> mem s' y = mem s y).
Proof.
  intros Hok Hf Hs. pose proof (heap_around _ _ _ _ Hok Hf) as (pv & nx & Hpv & Hnx & Har).
  destruct Hok as [Hb [H0 Hhi] Htall _ Hfree]. rewrite free_bytes_app in Hfree. simpl in Hfree.
  rewrite Hf in Hfree.
  pose proof Har as [Ht1 Ht2 Hz Hnn Hlo Hend Hl1 _ _ _ _ _ Hbelow Habove].
  pose proof (free_bytes_range _ _ _ _ Ht1). pose proof (free_bytes_range _ _ _ _ Ht2).
  unfold carve, MIN_BLOCK_SIZE, HEADER_SIZE. unfold b_end, HEADER_SIZE in *.
  change (4 + 12) with 16. rewrite free_addrs_app. split_guard.
  - destruct (take_chunk_split_run s bs1 b bs2 size_ pv nx)
      as (m & f' & -> & Hbm & Hl1' & (ql & Hl2') & Hc0 & Hc4 & Hc8 & Hm); try done; [lia|].
    destruct (split_heap (mem s) m (memoryStartAddress s) (memoryEndAddress s) f' bs1 b bs2 size_ pv nx ql)
      as [Ht Hl]; try done; [lia|].
    unfold carve, MIN_BLOCK_SIZE, HEADER_SIZE in Ht, Hl. decide_bool_in Ht. decide_bool_in Hl.
    eexists. split; [done|]. split_and!; try done.
    + constructor; cbn [mem taken firstChunk memoryStartAddress memoryEndAddress freeMemory]; eauto 6 with hhu.
      rewrite free_bytes_app. simpl. rewrite !u32_small by (rewrite ?u32_small; unfold is_u32; lia). lia.
    + intros y Hy Hx. cbn [mem taken]. rewrite !store32_outside by lia. apply Hm; [lia|].
      intros x Hin. apply Hx. by apply elem_of_app.
  - destruct (take_chunk_whole_run s bs1 b bs2 size_ pv nx)
      as (m & f' & -> & Hbm & Hl1' & (ql & Hl2') & Hz' & Hm); try done.
    destruct (whole_heap (mem s) m (memoryStartAddress s) (memoryEndAddress s) f' bs1 b bs2 pv nx ql)
      as [Ht Hl]; try done.
    eexists. split; [done|]. split_and!; try done.
    + constructor; cbn [mem taken firstChunk memoryStartAddress memoryEndAddress freeMemory]; eauto 6 with hhu.
      rewrite free_bytes_app. simpl. rewrite !u32_small by (rewrite ?u32_small; unfold is_u32; lia). lia.
    + intros y Hy Hx. cbn [mem taken]. rewrite !store32_outside by lia. apply Hm.
      intros x Hin. apply Hx. by apply elem_of_app.
Qed.

(** ** [alloc] *)

Lemma heap_ok_lock s bs l : heap_ok s bs -> heap_ok (set_lock l s) bs.
Proof. by intros [? ? ? ? ?]. Qed.

Definition held : Spinlock := mkSpinlock (mkAtomic SPINLOCK_LOCK).

Lemma lock_acquire_free s : lock s = new_Spinlock -> lock_acquire s = Ret (tt, set_lock held s).
Proof. intros H. unfold lock_acquire. by rewrite H. Qed.

(** Exchanging a free block for blocks that keep the neighbours apart. *)
Lemma coalesced_replace bs1 b mid bs2 :
  coalesced (bs1 ++ b :: bs2) -> coalesced (mid ++ bs2) -> mid <> [] ->
  (b_free b = false -> forall b', head mid = Some b' -> b_free b' = false) ->
  coalesced (bs1 ++ mid ++ bs2).
Proof.
  intros Hc Hm Hne Hh. induction bs1 as [|b1 bs1 IH]; [done|].
  destruct bs1 as [|b2 bs1].
  - destruct mid as [|b' mid]; [done|]. simpl in *. split; [|done].
    destruct Hc as [[?|Hb] _]; [by left|right]. by apply (Hh Hb b').
  - simpl in *. destruct Hc as [? Hc]. split; [done|]. by apply IH.
Qed.

Lemma coalesced_carve bs1 b bs2 size_ :
  coalesced (bs1 ++ b :: bs2) -> b_free b = true -> coalesced (bs1 ++ carve size_ b ++ bs2).
Proof.
  intros Hc Hf. eapply coalesced_replace; [done| |by unfold carve; case_match|congruence].
  assert (Hc2 : coalesced (b :: bs2)).
  { clear -Hc. induction bs1 as [|b1 bs1 IH]; [done|]. simpl in Hc. apply IH. tauto. }
  simpl in Hc2. unfold carve. destruct (_ <=? _); simpl; destruct bs2 as [|b2 bs2]; intuition congruence.
Qed.

(** The shared part of every allocation without an alignment. *)
Lemma allocAlgorithm_spec fuel s bs size_ :
  heap_ok s bs -> (S (length bs) < fuel)%nat -> size_ <> 0 -> 0 <= alignUp size_ 4 ->
  match first_fit (alignUp size_ 4) bs with
  | None => abs_alloc (alignUp size_ 4) bs = None /\
      allocAlgorithm fuel size_ 0 (firstChunk s) s = Ret (0, s)
  | Some b => exists bs1 bs2, bs = bs1 ++ b :: bs2 /\ b_free b = true /\
      alignUp size_ 4 <= b_size b /\
      abs_alloc (alignUp size_ 4) bs
        = Some (b_addr b + HEADER_SIZE, bs1 ++ carve (alignUp size_ 4) b ++ bs2) /\
      allocAlgorithm fuel size_ 0 (firstChunk s) s = take_chunk (alignUp size_ 4) (b_addr b) s
  end.
Proof.
  intros Hok Hfuel Hnz Hal. pose proof Hok as [Hb [H0 Hhi] Ht (ql & Hl) _].
  assert (E : allocAlgorithm fuel size_ 0 (firstChunk s) s =
    let c := from_option b_addr 0 (first_fit (alignUp size_ 4) bs) in
    if c =? 0 then Ret (0, s) else take_chunk (alignUp size_ 4) c s).
  { unfold allocAlgorithm. decide_bool. st_step.
    destruct (firstChunk s =? 0);
      rewrite (alloc_search_spec _ _ (memoryStartAddress s) (memoryEndAddress s) bs 0 _ ql) by done;
      cbv zeta; by destruct (from_option _ _ _ =? 0). }
  rewrite E. clear E.
  pose proof (abs_alloc_first_fit (alignUp size_ 4) bs) as Hff.
  destruct (first_fit _ bs) as [b|]; simpl; [|done].
  destruct Hff as (bs1 & bs2 & -> & Hf & Hsz & Ha).
  assert (0 < b_addr b).
  { pose proof (tiles_block _ _ _ _ b Ht ltac:(set_solver)). lia. }
  decide_bool. by exists bs1, bs2.
Qed.

Definition payload (b : block) (y : Z) : Prop := b_addr b + HEADER_SIZE <= y < b_end b.

(** Bytes of a block in use are neither links nor part of another block. *)
Lemma payload_not_link m lo hi bs b y x :
  tiles m lo hi bs -> b ∈ bs -> b_free b = false -> payload b y -> x ∈ free_addrs bs ->
  ~ (x <= y < x + 12).
Proof.
  intros Ht (bs1 & bs2 & ->)%list_elem_of_split Hf Hy Hx.
  apply tiles_app in Ht as (mid & Ht1 & Ht2). simpl in Ht2. destruct Ht2 as (<- & ? & _ & _ & Ht2).
  rewrite free_addrs_app in Hx. simpl in Hx. rewrite Hf in Hx. unfold payload, b_end, HEADER_SIZE in *.
  apply elem_of_app in Hx as [Hx|Hx].
  - pose proof (free_addrs_range _ _ _ _ _ Ht1 Hx). lia.
  - pose proof (free_addrs_range _ _ _ _ _ Ht2 Hx). lia.
Qed.

Lemma blocks_disjoint m lo hi bs1 b bs2 b' :
  tiles m lo hi (bs1 ++ b :: bs2) -> b' ∈ bs1 ++ bs2 -> b_end b' <= b_addr b \/ b_end b <= b_addr b'.
Proof.
  intros Ht Hb. apply tiles_app in Ht as (mid & Ht1 & Ht2). simpl in Ht2.
  destruct Ht2 as (<- & _ & _ & _ & Ht2). apply elem_of_app in Hb as [Hb|Hb].
  - left. by apply (tiles_block _ _ _ _ _ Ht1).
  - right. by apply (tiles_block _ _ _ _ _ Ht2).
Qed.

Definition same_extent (s s' : FreeListMemoryManager) : Prop :=
  memoryStartAddress s' = memoryStartAddress s /\ memoryEndAddress s' = memoryEndAddress s.

Lemma alloc_spec fuel s bs size_ :
  heap_inv s bs -> (S (length bs) < fuel)%nat -> size_ <> 0 -> 0 <= alignUp size_ 4 ->
  exists s',
    alloc fuel size_ s = Ret (from_option fst 0 (abs_alloc (alignUp size_ 4) bs), s') /\
    heap_inv s' (from_option snd bs (abs_alloc (alignUp size_ 4) bs)) /\ same_extent s s' /\
    (forall b y, b ∈ bs -> b_free b = false -> payload b y -> mem s' y = mem s y).
Proof.
  intros (Hok & Hc & Hlock) Hfuel Hnz Hal. unfold alloc, alloc_aligned, lock_release.
  st_step. rewrite lock_acquire_free by done.
  set (s1 := set_lock held s). assert (Hok1 : heap_ok s1 bs) by (by apply heap_ok_lock).
  pose proof (allocAlgorithm_spec fuel s1 bs size_ Hok1 Hfuel Hnz Hal) as Hrun.
  destruct (first_fit _ bs) as [b|].
  - destruct Hrun as (bs1 & bs2 & -> & Hf & Hsz & Ha & Hrun).
    rewrite Ha. cbn [from_option fst snd].
    destruct (take_chunk_spec s1 bs1 b bs2 (alignUp size_ 4)) as (s2 & E & Hok2 & Hl2 & He1 & He2 & Hm);
      [done|done|lia|].
    change (firstChunk s) with (firstChunk s1). rewrite Hrun, E. st_step.
    eexists. split; [done|]. split; [|split].
    + split_and!; [by apply heap_ok_lock|by apply coalesced_carve|done].
    + done.
    + intros b' y Hb' Hf' Hy. cbn [mem set_lock]. pose proof (hi_tiles _ _ Hok1) as Ht.
      change (mem s y) with (mem s1 y).
      assert (Hin : b' ∈ bs1 ++ bs2).
      { rewrite !elem_of_app, elem_of_cons in *. destruct Hb' as [?|[->|?]]; [tauto|congruence|tauto]. }
      apply Hm.
      * pose proof (blocks_disjoint _ _ _ _ _ _ _ Ht Hin). unfold payload, HEADER_SIZE in Hy.
        pose proof (tiles_block _ _ _ _ _ Ht Hb'). lia.
      * intros x Hx Hxy. apply (payload_not_link _ _ _ _ b' y x Ht); [done|done|done| |lia].
        rewrite free_addrs_app in *. simpl. destruct (b_free b); set_solver.
  - destruct Hrun as [Ha Hrun]. change (firstChunk s) with (firstChunk s1).
    rewrite Ha, Hrun. st_step. cbn [from_option]. eexists. split; [done|]. split; [|done].
    split_and!; [by apply heap_ok_lock|done|done].
Qed.


(** ** Inserting a freed block *)

(** The four stores that put a header between two neighbours of the list. *)
Definition splice (a pv nx : Z) : FL unit :=
  _ ← set_next a nx;
  _ ← set_prev a pv;
  _ ← link_behind nx a;
  link_before pv a.

(** What is known around one block in use: the place of its header in the list. *)
Record gap (m : Mem) (first a : Z) (l1 l2 : list Z) (pv nx : Z) : Prop := {
  gp_before : lseg m 0 first l1 pv nx;
  gp_behind : exists ql, lseg m pv nx l2 ql 0;
  gp_spaced1 : spaced l1;
  gp_spaced2 : spaced l2;
  gp_below : forall x, x ∈ l1 -> 0 < x /\ x + 12 <= a;
  gp_above : forall x, x ∈ l2 -> a + 12 <= x
}.

Lemma splice_spec s a l1 l2 pv nx :
  bytes (mem s) -> 0 < a < 2 ^ 32 -> is_u32 pv -> is_u32 nx ->
  gap (mem s) (firstChunk s) a l1 l2 pv nx ->
  exists m' f' ql', splice a pv nx s = Ret (tt, set_firstChunk f' (set_mem m' s)) /\ bytes m' /\
    lseg m' 0 f' (l1 ++ a :: l2) ql' 0 /\ links_only (l1 ++ a :: l2) (mem s) m'.
Proof.
  intros Hb Ha Hpv Hnx [Hl1 (ql & Hl2) Hs1 Hs2 Hbelow Habove].
  unfold splice. st_step. fields. rewrite Z.add_0_r.
  set (m1 := store32 (store32 (mem s) (a + 4) nx) a pv).
  change (set_mem m1 _) with (set_mem m1 s).
  assert (Hb1 : bytes m1) by (subst m1; auto with hhu).
  assert (Hm1 : forall y, ~ (a <= y < a + 8) -> m1 y = mem s y).
  { intros y Hy. subst m1. rewrite !store32_outside by lia. done. }
  assert (Ha1 : load32 m1 (a + 0) = pv /\ load32 m1 (a + 4) = nx).
  { subst m1. rewrite Z.add_0_r. split; by ld. }
  clearbody m1.
  destruct (link_behind_spec (set_mem m1 s) pv nx l2 ql a)
    as (m2 & -> & Hb2 & (ql' & Hl2') & Hm2); [done|done|unfold is_u32; lia| |].
  { eapply lseg_frame; [|exact Hl2]. intros x y Hx Hy. apply Hm1. apply Habove in Hx. lia. }
  cbn [mem set_mem] in Hm2. st_step.
  destruct (link_before_spec (set_mem m2 (set_mem m1 s)) l1 pv nx a)
    as (m3 & f3 & -> & Hb3 & Hl3 & Hm3); [done|done|unfold is_u32; lia| |].
  { eapply lseg_frame; [|exact Hl1]. intros x y Hx Hy. apply Hbelow in Hx. cbn [mem set_mem].
    rewrite Hm2, Hm1; [done|lia|]. intros z Hz%Habove. lia. }
  cbn [mem set_mem] in Hm3.
  assert (Ha3 : forall o, 0 <= o <= 4 -> load32 m3 (a + o) = load32 m1 (a + o)).
  { intros o Ho. rewrite (links_only_load _ _ _ _ Hm3), (links_only_load _ _ _ _ Hm2); [done| |].
    - intros x Hx%Habove. lia.
    - intros x Hx%Hbelow. lia. }
  exists m3, f3, ql'. split_and!; [done|done| |].
  - apply lseg_app. exists pv, a. split; [done|]. simpl. split_and!; [done| |].
    + rewrite <- (Z.add_0_r a), Ha3 by lia. apply Ha1.
    + rewrite Ha3, (proj2 Ha1) by lia. eapply lseg_frame; [|exact Hl2'].
      intros x y Hx Hy. apply Hm3. intros z Hz%Hbelow. apply Habove in Hx. lia.
  - intros y Hy. rewrite Hm3, Hm2, Hm1; [done| | |]; [|intros x Hx..]; apply Hy; set_solver.
Qed.

(** The search stops behind the last chunk below the header. *)
Lemma insert_search_run fuel s pf tmp l1 l2 pv nx ql a :
  l1 <> [] -> (length l1 < fuel)%nat ->
  lseg (mem s) pf tmp l1 pv nx -> lseg (mem s) pv nx l2 ql 0 -> spaced l2 ->
  (forall x, x ∈ l1 -> 0 < x /\ x + 12 <= a) -> (forall x, x ∈ l2 -> a + 12 <= x) ->
  insert_search fuel a tmp s = splice a pv nx s.
Proof.
  revert fuel pf tmp. induction l1 as [|x l1 IH]; intros fuel pf tmp Hne Hf Hl1 Hl2 Hs2 Hbelow Habove; [done|].
  simpl in Hf. destruct fuel as [|fuel]; [lia|]. simpl in Hl1. destruct Hl1 as (-> & _ & Hl1).
  pose proof (Hbelow x ltac:(left)) as Hx.
  cbn [insert_search]. decide_bool. st_step. unfold next. rewrite field_nonzero by lia. st_step.
  destruct l1 as [|x' l1].
  - simpl in Hl1. destruct Hl1 as [-> ->].
    assert (Hc : (a <? nx) || (nx =? 0) = true).
    { destruct (lseg_entry _ _ _ _ _ Hs2 Hl2) as [[-> _]|(Hnz & l' & ->)]; [apply orb_true_r|].
      specialize (Habove nx ltac:(left)). apply orb_true_iff. left. apply Z.ltb_lt. lia. }
    rewrite Hc. cbn [andb]. unfold splice. st_step. unfold link_before. decide_bool. done.
  - pose proof Hl1 as Hl1'. simpl in Hl1'. destruct Hl1' as (Hx' & _).
    pose proof (Hbelow x' ltac:(right; left)) as Hb'. rewrite Hx'. decide_bool. cbn [andb orb].
    rewrite <- Hx'. eapply IH; try done; [lia|]. intros z Hz. apply Hbelow. by right.
Qed.

Lemma insert_chunk_spec fuel s a l1 l2 pv nx :
  bytes (mem s) -> 0 < a < 2 ^ 32 -> is_u32 pv -> is_u32 nx -> (length l1 < fuel)%nat ->
  gap (mem s) (firstChunk s) a l1 l2 pv nx ->
  load32 (mem s) a = 0 -> load32 (mem s) (a + 4) = 0 ->
  exists m' f' ql', insert_chunk fuel a s = Ret (tt, set_firstChunk f' (set_mem m' s)) /\ bytes m' /\
    lseg m' 0 f' (l1 ++ a :: l2) ql' 0 /\ links_only (l1 ++ a :: l2) (mem s) m'.
Proof.
  intros Hb Ha Hpv Hnx Hfuel Hg Hp Hn. pose proof Hg as [Hl1 (ql & Hl2) Hs1 Hs2 Hbelow Habove].
  unfold insert_chunk. st_step. destruct l1 as [|x l1].
  - simpl in Hl1. destruct Hl1 as [Hfirst <-]. rewrite Hfirst.
    destruct (lseg_entry _ _ _ _ _ Hs2 Hl2) as [[-> ->]|(Hnz & l' & ->)].
    + exists (mem s), a, a. simpl. rewrite Hn. split_and!; try done; by destruct s.
    + specialize (Habove nx ltac:(left)). decide_bool.
      destruct (splice_spec s a [] (nx :: l') 0 nx) as (m' & f' & ql' & E & Hrest); try done.
      exists m', f', ql'. split; [|done]. rewrite <- E.
      unfold splice, link_before, link_behind. simpl (0 =? 0). decide_bool. done.
  - pose proof (Hbelow x ltac:(left)). pose proof Hl1 as Hl1'. simpl in Hl1'.
    destruct Hl1' as (Hfirst & _). decide_bool.
    rewrite (insert_search_run fuel s 0 _ (x :: l1) l2 pv nx ql a) by done. by apply splice_spec.
Qed.

Lemma heap_gap s bs1 b bs2 :
  heap_ok s (bs1 ++ b :: bs2) -> b_free b = false ->
  exists pv nx, is_u32 pv /\ is_u32 nx /\
    gap (mem s) (firstChunk s) (b_addr b) (free_addrs bs1) (free_addrs bs2) pv nx.
Proof.
  intros [Hb [H0 Hhi] Ht (ql & Hl) _] Hf.
  pose proof (tiles_spaced _ _ _ _ H0 Hhi Ht) as Hsp.
  apply tiles_app in Ht as (mid & Ht1 & Ht2). simpl in Ht2. destruct Ht2 as (<- & Hnn & _ & _ & Ht2).
  rewrite free_addrs_app in Hl, Hsp. simpl in Hl, Hsp. rewrite Hf in Hl, Hsp.
  apply lseg_app in Hl as (pv & nx & Hl1 & Hl2). apply spaced_app in Hsp as (Hs1 & Hs2 & _).
  exists pv, nx. split_and!.
  - destruct (lseg_exit _ _ _ _ _ Hs1 Hl1) as [(-> & _)|(_ & l' & E)]; [done|].
    pose proof (spaced_elem _ pv Hs1). unfold is_u32. rewrite E in H. set_solver by lia.
  - destruct (lseg_entry _ _ _ _ _ Hs2 Hl2) as [[-> _]|(_ & l' & E)]; [done|].
    pose proof (spaced_elem _ nx Hs2). unfold is_u32. rewrite E in H. set_solver by lia.
  - constructor; eauto.
    + intros x Hx. pose proof (free_addrs_range _ _ _ _ _ Ht1 Hx). lia.
    + intros x Hx. pose proof (free_addrs_range _ _ _ _ _ Ht2 Hx).
      unfold b_end, HEADER_SIZE in *. lia.
Qed.

(** The block with its state changed to free. *)
Definition freed (b : block) : block := mkBlock (b_addr b) (b_size b) true.

(** Two memories that agree on the payload of every block in use. *)
Definition quiet (bs : list block) (m m' : Mem) : Prop :=
  forall b y, b ∈ bs -> b_free b = false -> payload b y -> m' y = m y.

Lemma quiet_links m0 lo hi bs m m' :
  tiles m0 lo hi bs -> links_only (free_addrs bs) m m' -> quiet bs m m'.
Proof.
  intros Ht Hm b y Hb Hf Hy. apply Hm. intros a Ha Hay.
  apply (payload_not_link _ _ _ _ b y a Ht); try done. lia.
Qed.

(** The header of a used block goes into the list: the block is free. *)
Lemma insert_block fuel s bs1 b bs2 :
  heap_ok s (bs1 ++ b :: bs2) -> b_free b = false -> (length (bs1 ++ b :: bs2) < fuel)%nat ->
  let s1 := set_freeMemory (freeMemory s + b_size b) s in
  exists s', insert_chunk fuel (b_addr b) s1 = Ret (tt, s') /\
    heap_ok s' (bs1 ++ freed b :: bs2) /\ lock s' = lock s /\ doUnmap s' = doUnmap s /\
    memoryStartAddress s' = memoryStartAddress s /\ memoryEndAddress s' = memoryEndAddress s /\
    quiet (bs1 ++ freed b :: bs2) (mem s) (mem s').
Proof.
  intros Hok Hf Hfuel s1. destruct (heap_gap _ _ _ _ Hok Hf) as (pv & nx & Hpv & Hnx & Hg).
  destruct Hok as [Hb [H0 Hhi] Ht _ Hfree]. pose proof Ht as Ht'.
  apply tiles_app in Ht' as (mid & Ht1 & Ht2). simpl in Ht2.
  destruct Ht2 as (<- & Hnn & Hz & Hlinks & Ht2). destruct (Hlinks Hf) as [Hp Hn].
  pose proof (tiles_le _ _ _ _ Ht1). pose proof (tiles_le _ _ _ _ Ht2) as Hle.
  unfold b_end, HEADER_SIZE in Hle.
  destruct (insert_chunk_spec fuel s1 (b_addr b) (free_addrs bs1) (free_addrs bs2) pv nx)
    as (m' & f' & ql' & -> & Hb' & Hl' & Hm'); try done; [lia| |].
  { assert (length (free_addrs bs1) <= length bs1)%nat.
    { clear. induction bs1 as [|b1 bs1 IH]; simpl; [lia|]. destruct (b_free b1); simpl; lia. }
    rewrite length_app in Hfuel. simpl in Hfuel. lia. }
  assert (Hfa : free_addrs (bs1 ++ freed b :: bs2) = free_addrs bs1 ++ b_addr b :: free_addrs bs2)
    by (by rewrite free_addrs_app).
  assert (Htf : tiles m' (memoryStartAddress s) (memoryEndAddress s) (bs1 ++ freed b :: bs2)).
  { eapply tiles_links; [intros y _; rewrite Hfa; apply Hm'|].
    apply tiles_app. exists (b_addr b). split; [done|]. simpl. split_and!; done. }
  eexists. split; [done|]. split_and!; try done.
  - subst s1. constructor; members; try done.
    + rewrite Hfa. eauto.
    + rewrite Hfree, !free_bytes_app. simpl. rewrite Hf. lia.
  - members. eapply quiet_links; [exact Htf|]. by rewrite Hfa.
Qed.

(** ** Merging *)

Definition joined (b b2 : block) : block :=
  mkBlock (b_addr b) (b_size b + HEADER_SIZE + b_size b2) true.

(** A free block between two intact parts of the heap. *)
Lemma tiles_free_block m0 m lo hi bs1 b bs2 :
  tiles m0 lo (b_addr b) bs1 -> tiles m0 (b_end b) hi bs2 -> 0 <= b_size b -> b_free b = true ->
  load32 m (b_addr b + 8) = b_size b ->
  (forall y, ~ (b_addr b <= y < b_addr b + 12) ->
     (forall x, x ∈ free_addrs bs1 \/ x ∈ free_addrs bs2 -> ~ (x <= y < x + 8)) -> m y = m0 y) ->
  tiles m lo hi (bs1 ++ b :: bs2) /\ quiet (bs1 ++ b :: bs2) m0 m.
Proof.
  intros Ht1 Ht2 Hnn Hf Hz Hm. pose proof (tiles_le _ _ _ _ Ht1). pose proof (tiles_le _ _ _ _ Ht2).
  assert (Ht : tiles m lo hi (bs1 ++ b :: bs2)).
  { apply tiles_app. exists (b_addr b). split.
    - eapply tiles_links; [|exact Ht1]. intros y Hy Hx. apply Hm; [lia|].
      intros x [?|Hin]; [by apply Hx|]. pose proof (free_addrs_range _ _ _ _ _ Ht2 Hin).
      unfold b_end, HEADER_SIZE in *. lia.
    - simpl. split_and!; try done; [congruence|].
      eapply tiles_links; [|exact Ht2]. intros y Hy Hx. unfold b_end, HEADER_SIZE in *.
      apply Hm; [lia|]. intros x [Hin|?]; [|by apply Hx].
      pose proof (free_addrs_range _ _ _ _ _ Ht1 Hin). lia. }
  split; [done|]. intros b' y Hb' Hf' Hy.
  assert (Hno : forall x, x ∈ free_addrs (bs1 ++ b :: bs2) -> ~ (x <= y < x + 12)).
  { intros x Hx. by apply (payload_not_link _ _ _ _ b' y x Ht). }
  rewrite free_addrs_app in Hno. simpl in Hno. rewrite Hf in Hno. apply Hm.
  - apply Hno. set_solver.
  - intros x Hx Hxy. apply (Hno x); [set_solver|lia].
Qed.

Lemma swallow_next_spec s bs1 b b2 bs2 :
  heap_ok s (bs1 ++ b :: b2 :: bs2) -> b_free b = true -> b_free b2 = true ->
  exists s', swallow_next (b_addr b) s = Ret (tt, s') /\
    heap_ok s' (bs1 ++ joined b b2 :: bs2) /\ lock s' = lock s /\ doUnmap s' = doUnmap s /\
    memoryStartAddress s' = memoryStartAddress s /\ memoryEndAddress s' = memoryEndAddress s /\
    quiet (bs1 ++ joined b b2 :: bs2) (mem s) (mem s').
Proof.
  intros Hok Hf Hf2. pose proof Hok as [Hb [H0 Hhi] Htall _ Hfree].
  destruct (heap_around _ _ _ _ Hok Hf) as (pv & nx & Hpv & Hnx & Har).
  destruct Har as [Ht1 Ht2 Hz Hnn Hlo Hend Hl1 Hp Hn (ql & Hl2) Hs1 Hs2 Hbelow Habove].
  cbn [tiles] in Ht2. destruct Ht2 as (Ha2 & Hnn2 & Hz2 & _ & Ht2).
  cbn [free_addrs] in Hl2, Hs2, Habove. rewrite Hf2 in Hl2, Hs2, Habove.
  cbn [lseg] in Hl2. destruct Hl2 as (-> & Hp2 & Hl2). simpl in Hs2. destruct Hs2 as (_ & _ & Hs2).
  pose proof (tiles_le _ _ _ _ Ht2) as Hle2. pose proof (free_bytes_range _ _ _ _ Htall) as Hfb.
  pose proof (fun x => free_addrs_range _ _ _ _ x Ht2) as Habove2.
  unfold b_end in *. rewrite <- Ha2 in Hz2. unfold HEADER_SIZE in *.
  rewrite free_bytes_app in Hfree, Hfb. simpl in Hfree, Hfb. rewrite Hf, Hf2 in Hfree, Hfb.
  set (a := b_addr b) in *. set (a2 := b_addr b2) in *.
  assert (Hn2 : is_u32 (load32 (mem s) (a2 + 4))) by auto with hhu.
  unfold swallow_next, HEADER_SIZE. st_step. fields. rewrite Hn. fields. ld. rewrite Hz, Hz2, Hn. fields. ld.
  rewrite (u32_small (b_size b2 + 12)), u32_small by (unfold is_u32; lia).
  set (sz := b_size b + (b_size b2 + 12)). set (m1 := store32 (mem s) (a + 8) sz).
  assert (Hm1 : forall y, ~ (a + 8 <= y < a + 12) -> m1 y = mem s y).
  { intros y Hy. apply store32_outside. lia. }
  destruct (link_behind_spec (set_mem m1 s) a2 (load32 (mem s) (a2 + 4)) (free_addrs bs2) ql a)
    as (m2 & -> & Hb2 & (ql' & Hl2') & Hm2); [by apply bytes_store32|done|unfold is_u32; lia| |].
  { eapply lseg_frame; [|exact Hl2]. intros x y Hx%Habove2 Hy. apply Hm1. lia. }
  cbn [mem set_mem] in Hm2. st_step. fields.
  assert (Hm2a : forall x, x + 4 <= a2 + 12 + b_size b2 -> load32 m2 x = load32 m1 x).
  { intros x Hx. apply (links_only_load _ _ _ _ Hm2). intros z Hz'%Habove2. lia. }
  rewrite (Hm2a (a + 4)) by lia. unfold m1 at 1. ld. rewrite Hn. fields.
  rewrite Hm2a by lia. unfold m1 at 1. ld. fields. unfold add_freeMemory. st_step. members.
  set (m3 := store32 m2 (a + 4) (load32 (mem s) (a2 + 4))).
  assert (Hm3 : forall x, x + 4 <= a + 4 \/ a + 8 <= x <= a2 -> load32 m3 x = load32 m1 x).
  { intros x Hx. subst m3. rewrite load_store32_ne by lia. apply Hm2a. lia. }
  assert (Hfar : forall x y, x + 12 <= a \/ a2 + 12 + b_size b2 <= x -> x <= y < x + 8 -> m3 y = m2 y).
  { intros x y Hx Hy. subst m3. apply store32_outside. lia. }
  destruct (tiles_free_block (mem s) m3 (memoryStartAddress s) (memoryEndAddress s) bs1 (joined b b2) bs2)
    as [Ht3 Hq3]; simpl; try done.
  { unfold b_end, joined, HEADER_SIZE. simpl. fold a. replace (a + 12 + (b_size b + 12 + b_size b2))
      with (a2 + 12 + b_size b2) by lia. done. }
  { unfold HEADER_SIZE. lia. }
  { fold a. rewrite Hm3 by lia. subst m1. rewrite load_store32_eq by (unfold is_u32; lia).
    unfold HEADER_SIZE. lia. }
  { fold a. intros y Hy Hx. subst m3. rewrite store32_outside by lia. rewrite Hm2 by eauto. apply Hm1. lia. }
  eexists. split; [done|]. split_and!; try done. constructor; members; try done.
  - subst m3. auto with hhu.
  - rewrite free_addrs_app. exists ql'. simpl. fold a. apply lseg_app. exists pv, a. split.
    + eapply lseg_frame; [|exact Hl1]. intros x y Hx Hy. apply Hbelow in Hx.
      rewrite (Hfar x) by lia. rewrite Hm2, Hm1; [done|lia|]. intros z Hz'%Habove2. lia.
    + simpl. split_and!; [done| |].
      * rewrite Hm3 by lia. subst m1. by ld.
      * replace (load32 m3 (a + 4)) with (load32 (mem s) (a2 + 4)) by (subst m3; by ld).
        eapply lseg_frame; [|exact Hl2']. intros x y Hx%Habove2 Hy. apply (Hfar x); lia.
  - pose proof (free_bytes_range _ _ _ _ Ht3) as Hfb3. rewrite free_bytes_app in *. simpl in *.
    unfold HEADER_SIZE in *. rewrite Hfree, u32_small by (unfold is_u32; lia). lia.
Qed.

(** ** The specification of deallocation *)

Fixpoint coalesce (bs : list block) : list block :=
  match bs with
  | [] => []
  | b :: bs =>
      match coalesce bs with
      | b2 :: rest => if b_free b && b_free b2 then joined b b2 :: rest else b :: b2 :: rest
      | [] => [b]
      end
  end.

(** The block whose payload starts at [p] becomes free and is joined with its
    free neighbours. *)
Definition mark (p : Z) (b : block) : block :=
  if b_addr b + HEADER_SIZE =? p then freed b else b.

Definition abs_free (p : Z) (bs : list block) : list block := coalesce (mark p <$> bs).

Lemma coalesce_coalesced bs : coalesced (coalesce bs).
Proof.
  induction bs as [|b bs IH]; simpl; [done|].
  destruct (coalesce bs) as [|b2 rest]; [done|].
  destruct (b_free b && b_free b2) eqn:E.
  - apply andb_true_iff in E as [_ E2]. destruct IH as [Hh Hc]. split; [|done].
    destruct rest as [|b3 rest]; [done|]. destruct Hh as [?|?]; [congruence|by right].
  - apply andb_false_iff in E. split; [done|exact IH].
Qed.

Lemma coalesce_id bs : coalesced bs -> coalesce bs = bs.
Proof.
  induction bs as [|b bs IH]; [done|]. intros [Hh Hc]. simpl. rewrite IH by done.
  destruct bs as [|b2 bs]; [done|]. destruct Hh as [-> | ->]; [done|by rewrite andb_false_r].
Qed.

(** Joining to the left of an already coalesced part. *)
Definition merge_left (bs1 : list block) (x : block) (r : list block) : list block :=
  match last bs1 with
  | Some b1 => if b_free b1 && b_free x then take (pred (length bs1)) bs1 ++ joined b1 x :: r
               else bs1 ++ x :: r
  | None => x :: r
  end.

Lemma coalesce_app bs1 x r :
  coalesced bs1 -> coalesced (x :: r) -> coalesce (bs1 ++ x :: r) = merge_left bs1 x r.
Proof.
  intros Hc1 Hcx. induction bs1 as [|b0 bs1 IH]; [by apply coalesce_id|].
  destruct bs1 as [|b1 t].
  - change (([b0] ++ x :: r)) with (b0 :: x :: r).
    change (coalesce (b0 :: x :: r)) with
      (match coalesce (x :: r) with
       | b2 :: rest => if b_free b0 && b_free b2 then joined b0 b2 :: rest else b0 :: b2 :: rest
       | [] => [b0] end).
    rewrite (coalesce_id (x :: r)) by done. unfold merge_left. simpl. by destruct (b_free b0 && b_free x).
  - destruct Hc1 as [Hh Hc1]. specialize (IH Hc1).
    change ((b0 :: b1 :: t) ++ x :: r) with (b0 :: ((b1 :: t) ++ x :: r)).
    change (coalesce (b0 :: ?l)) with
      (match coalesce l with
       | b2 :: rest => if b_free b0 && b_free b2 then joined b0 b2 :: rest else b0 :: b2 :: rest
       | [] => [b0] end).
    rewrite IH. unfold merge_left. change (last (b0 :: b1 :: t)) with (last (b1 :: t)).
    destruct (last (b1 :: t)) as [bl|] eqn:El; [|by apply last_None in El].
    destruct (b_free bl && b_free x) eqn:Ef.
    + apply andb_true_iff in Ef as [Ebl _].
      destruct t as [|b2 t]; simpl.
      * injection El as ->. destruct Hh as [-> | ?]; [done|congruence].
      * destruct Hh as [-> | ->]; [done|by rewrite andb_false_r].
    + simpl. destruct Hh as [-> | ->]; [done|by rewrite andb_false_r].
Qed.

Lemma used_coalesce bs b : b ∈ coalesce bs -> b_free b = false -> b ∈ bs.
Proof.
  intros Hb Hf. induction bs as [|b0 bs IH]; [done|]. simpl in Hb.
  destruct (coalesce bs) as [|b2 rest]; [set_solver|].
  destruct (b_free b0 && b_free b2); [|set_solver].
  apply elem_of_cons in Hb as [->|Hb]; [done|]. right. apply IH. by right.
Qed.

(** ** [merge] *)

(** What a step of [free] leaves as it is. *)
Record stable (s s' : FreeListMemoryManager) : Prop := {
  st_lock : lock s' = lock s;
  st_flag : doUnmap s' = doUnmap s;
  st_start : memoryStartAddress s' = memoryStartAddress s;
  st_end : memoryEndAddress s' = memoryEndAddress s
}.

Lemma stable_trans s1 s2 s3 : stable s1 s2 -> stable s2 s3 -> stable s1 s3.
Proof. intros [] []. constructor; congruence. Qed.

Definition merge_right (x : block) (bs2 : list block) : block * list block :=
  match bs2 with
  | b2 :: r => if b_free b2 then (joined x b2, r) else (x, bs2)
  | [] => (x, [])
  end.

Lemma merge_with_next_spec s bs1 x bs2 :
  heap_ok s (bs1 ++ x :: bs2) -> b_free x = true ->
  let '(x', r) := merge_right x bs2 in
  exists s', merge_with_next (b_addr x) s = Ret (tt, s') /\ heap_ok s' (bs1 ++ x' :: r) /\
    stable s s' /\ quiet (bs1 ++ x' :: r) (mem s) (mem s').
Proof.
  intros Hok Hf. destruct (heap_around _ _ _ _ Hok Hf) as (pv & nx & Hpv & Hnx & Har).
  pose proof Hok as [_ [H0 Hhi] _ _ _].
  destruct Har as [_ Ht2 Hz Hnn Hlo Hend _ _ Hn (ql & Hl2) _ Hs2 _ Habove].
  unfold merge_with_next. st_step. fields. rewrite Hn.
  assert (Hstay : nx <> b_end x -> exists s',
    (if nx =? 0 then fun s0 : FreeListMemoryManager => Ret (tt, s0)
     else fun s0 => match field 8 (b_addr x) s0 with
          | Ret (a, s'0) => (if u32 (b_addr x + HEADER_SIZE + a) =? nx then swallow_next (b_addr x)
                             else fun s1 => Ret (tt, s1)) s'0
          | Throw e => Throw e | Fault => Fault | Diverge => Diverge end) s = Ret (tt, s') /\
    heap_ok s' (bs1 ++ x :: bs2) /\ stable s s' /\ quiet (bs1 ++ x :: bs2) (mem s) (mem s')).
  { intros Hne. exists s. split; [|by split_and!]. destruct (nx =? 0); [done|].
    rewrite field_nonzero, Hz by lia. unfold b_end, HEADER_SIZE in *.
    rewrite u32_small by (unfold is_u32; lia). by decide_bool. }
  destruct bs2 as [|b2 r]; simpl merge_right.
  - apply Hstay. simpl in Hl2. unfold b_end, HEADER_SIZE. lia.
  - simpl in Ht2. destruct Ht2 as (Ha2 & Hnn2 & _ & _ & Ht2). destruct (b_free b2) eqn:Ef2.
    + simpl in Hl2. rewrite Ef2 in Hl2. destruct Hl2 as (-> & _ & _).
      unfold b_end, HEADER_SIZE in Ha2, Hend. decide_bool. rewrite field_nonzero, Hz by lia.
      unfold HEADER_SIZE. rewrite u32_small by (unfold is_u32; lia). decide_bool.
      destruct (swallow_next_spec s bs1 x b2 r) as (s' & E & Hok' & ? & ? & ? & ? & Hq); try done.
      exists s'. split_and!; try done.
    + apply Hstay. simpl in Hl2, Hs2. rewrite Ef2 in Hl2, Hs2.
      destruct (lseg_entry _ _ _ _ _ Hs2 Hl2) as [[-> _]|(_ & l' & E)].
      * unfold b_end, HEADER_SIZE. lia.
      * pose proof (free_addrs_range _ _ _ _ nx Ht2 ltac:(rewrite E; left)).
        unfold b_end, HEADER_SIZE in *. lia.
Qed.

Lemma merge_with_prev_spec s bs1 x r :
  heap_ok s (bs1 ++ x :: r) -> b_free x = true ->
  exists s' y, merge_with_prev (b_addr x) s = Ret (b_addr y, s') /\ heap_ok s' (merge_left bs1 x r) /\
    stable s s' /\ quiet (merge_left bs1 x r) (mem s) (mem s') /\
    y ∈ merge_left bs1 x r /\ b_free y = true.
Proof.
  intros Hok Hf. destruct (heap_around _ _ _ _ Hok Hf) as (pv & nx & Hpv & Hnx & Har).
  pose proof Hok as [_ [H0 Hhi] _ _ _].
  destruct Har as [Ht1 _ _ Hnn Hlo Hend Hl1 Hp _ _ Hs1 _ _ _].
  unfold merge_with_prev. st_step. fields. rewrite Z.add_0_r, Hp.
  assert (Hx : x ∈ bs1 ++ x :: r) by set_solver.
  unfold merge_left. induction bs1 as [|b1 bs1 _] using rev_ind.
  - simpl in Hl1. destruct Hl1 as [_ <-]. simpl. exists s, x. by split_and!.
  - rewrite last_snoc. apply tiles_app in Ht1 as (mid & Ht1 & Htb). simpl in Htb.
    destruct Htb as (<- & Hnn1 & Hz1 & _ & Hadj). rewrite free_addrs_app in Hl1, Hs1. simpl in Hl1, Hs1.
    rewrite Hf, andb_true_r. destruct (b_free b1) eqn:E1.
    + apply lseg_app in Hl1 as (ml & mn & _ & Hl1). simpl in Hl1. destruct Hl1 as (_ & _ & _ & <-).
      apply tiles_le in Ht1. unfold b_end, HEADER_SIZE in *. decide_bool.
      rewrite field_nonzero, Hz1 by lia. unfold HEADER_SIZE. rewrite u32_small by (unfold is_u32; lia). decide_bool.
      rewrite <- app_assoc in Hok. simpl in Hok.
      destruct (swallow_next_spec s bs1 b1 x r) as (s' & -> & Hok' & ? & ? & ? & ? & Hq); try done.
      st_step. rewrite length_app, Nat.add_1_r. simpl pred. rewrite take_app_length.
      exists s', (joined b1 x). split_and!; try done. set_solver.
    + rewrite app_nil_r in Hl1, Hs1.
      exists s, x. split; [|by split_and!].
      destruct (lseg_exit _ _ _ _ _ Hs1 Hl1) as [(-> & _)|(Hnz & l' & E)]; [done|].
      decide_bool. rewrite field_nonzero by done.
      assert (Hin : pv ∈ free_addrs bs1) by (rewrite E; set_solver).
      apply elem_of_free_addrs in Hin as (b' & Hb' & <- & _).
      pose proof (tiles_block _ _ _ _ _ Ht1 Hb') as Hr'. rewrite (tiles_size _ _ _ _ _ Ht1 Hb').
      unfold b_end, HEADER_SIZE in *. rewrite u32_small by (unfold is_u32; lia). by decide_bool.
Qed.

(** ** [free] *)

Lemma coalesce_app_r l1 l2 : coalesce (l1 ++ coalesce l2) = coalesce (l1 ++ l2).
Proof.
  induction l1 as [|b l1 IH]; simpl; [apply coalesce_id, coalesce_coalesced|by rewrite IH].
Qed.

Lemma coalesced_app bs1 bs2 : coalesced (bs1 ++ bs2) -> coalesced bs1 /\ coalesced bs2.
Proof.
  induction bs1 as [|b bs1 IH]; [done|]. intros [Hh Hc]. specialize (IH Hc) as [? ?].
  split; [|done]. destruct bs1; [done|]. split; [exact Hh|done].
Qed.

(** A freed block merged to the right, then to the left, is the block list
    coalesced. *)
Lemma merge_both bs1 x bs2 :
  coalesced bs1 -> coalesced bs2 -> b_free x = true ->
  let '(x', r) := merge_right x bs2 in
  merge_left bs1 x' r = coalesce (bs1 ++ x :: bs2) /\ b_addr x' = b_addr x /\ b_free x' = true.
Proof.
  intros Hc1 Hc2 Hf. rewrite <- (coalesce_app_r bs1 (x :: bs2)).
  pose proof (coalesce_coalesced (x :: bs2)) as Hc. cbn [coalesce] in *.
  rewrite (coalesce_id bs2) in * by done. destruct bs2 as [|b2 r]; simpl merge_right.
  - by rewrite coalesce_app.
  - rewrite Hf in *. cbn [andb] in *. destruct (b_free b2); by rewrite coalesce_app.
Qed.

Lemma mark_split m lo hi bs1 b bs2 :
  tiles m lo hi (bs1 ++ b :: bs2) ->
  mark (b_addr b + HEADER_SIZE) <$> (bs1 ++ b :: bs2) = bs1 ++ freed b :: bs2.
Proof.
  intros Ht. rewrite fmap_app, fmap_cons. unfold mark at 2. rewrite Z.eqb_refl.
  assert (Hid : forall l : list block, (forall b', b' ∈ l -> b' ∈ bs1 ++ bs2) ->
    mark (b_addr b + HEADER_SIZE) <$> l = l).
  { induction l as [|b' l IH]; intros Hl; [done|]. rewrite fmap_cons, IH by set_solver.
    destruct (blocks_disjoint _ _ _ _ _ _ b' Ht) as [?|?]; [set_solver| |];
      pose proof (tiles_block _ _ _ _ b Ht ltac:(set_solver));
      pose proof (tiles_block _ _ _ _ b' Ht ltac:(set_solver));
      unfold mark, b_end, HEADER_SIZE in *; by decide_bool. }
  rewrite !Hid by set_solver. done.
Qed.

(** Changes inside the payload of one block do not touch any header. *)
Lemma heap_ok_payload s bs y m' :
  heap_ok s bs -> y ∈ bs -> bytes m' ->
  (forall z, ~ payload y z -> m' z = mem s z) -> heap_ok (set_mem m' s) bs.
Proof.
  intros [Hb [H0 Hhi] Ht (ql & Hl) Hfree] Hy Hb' Hm.
  assert (Hhd : forall b z, b ∈ bs -> b_addr b <= z < b_addr b + 12 -> m' z = mem s z).
  { intros b z Hin Hz. apply Hm. unfold payload, b_end, HEADER_SIZE.
    apply list_elem_of_split in Hy as (bs1 & bs2 & ->).
    rewrite elem_of_app, elem_of_cons in Hin.
    pose proof (tiles_block _ _ _ _ b Ht ltac:(set_solver)).
    pose proof (tiles_block _ _ _ _ y Ht ltac:(set_solver)). unfold b_end, HEADER_SIZE in *.
    destruct (decide (b = y)) as [->|Hne]; [lia|].
    pose proof (blocks_disjoint _ _ _ _ _ _ b Ht) as Hd. unfold b_end, HEADER_SIZE in Hd.
    rewrite elem_of_app in Hd. destruct Hin as [Hin|[?|Hin]]; [|done|];
      specialize (Hd ltac:(tauto)); lia. }
  constructor; members; try done.
  - eapply tiles_frame; [| |exact Ht]; intros; (eapply Hhd; [done|lia]).
  - exists ql. eapply lseg_frame; [|exact Hl].
    intros a z (b & Hb0 & <- & _)%elem_of_free_addrs Hz. eapply Hhd; [done|lia].
Qed.

Lemma quiet_payload m0 lo hi bs y m m' :
  tiles m0 lo hi bs -> y ∈ bs -> b_free y = true ->
  (forall z, ~ payload y z -> m' z = m z) -> quiet bs m m'.
Proof.
  intros Ht Hy Hf Hm b z Hin Hfb Hz. apply Hm. intros Hyz.
  apply list_elem_of_split in Hy as (bs1 & bs2 & ->).
  assert (Hin' : b ∈ bs1 ++ bs2).
  { rewrite !elem_of_app, elem_of_cons in *. destruct Hin as [?|[->|?]]; [tauto|congruence|tauto]. }
  pose proof (blocks_disjoint _ _ _ _ _ _ b Ht Hin').
  unfold payload, b_end, HEADER_SIZE in *. lia.
Qed.

Lemma quiet_trans bs bs' m1 m2 m3 :
  (forall b, b ∈ bs' -> b_free b = false -> b ∈ bs) ->
  quiet bs m1 m2 -> quiet bs' m2 m3 -> quiet bs' m1 m3.
Proof. intros Hsub H1 H2 b y Hb Hf Hy. rewrite (H2 b), (H1 b); eauto. Qed.

Lemma merge_spec s bs1 x bs2 :
  heap_ok s (bs1 ++ x :: bs2) -> b_free x = true -> coalesced bs1 -> coalesced bs2 ->
  exists s' y, merge (b_addr x) s = Ret (b_addr y, s') /\
    heap_ok s' (coalesce (bs1 ++ x :: bs2)) /\ stable s s' /\
    quiet (coalesce (bs1 ++ x :: bs2)) (mem s) (mem s') /\
    y ∈ coalesce (bs1 ++ x :: bs2) /\ b_free y = true.
Proof.
  intros Hok Hf Hc1 Hc2. unfold merge. st_step.
  assert (Hfirst : firstChunk s <> 0).
  { destruct Hok as [_ [H0 Hhi] Ht (ql & Hl) _]. pose proof (tiles_spaced _ _ _ _ H0 Hhi Ht) as Hsp.
    destruct (lseg_entry _ _ _ _ _ Hsp Hl) as [[_ E]|[? _]]; [|done].
    rewrite free_addrs_app in E. simpl in E. rewrite Hf in E. by destruct (free_addrs bs1). }
  decide_bool. pose proof (merge_with_next_spec s bs1 x bs2 Hok Hf) as Hn.
  pose proof (merge_both bs1 x bs2 Hc1 Hc2 Hf) as Hboth.
  destruct (merge_right x bs2) as [x' r] eqn:Er. destruct Hn as (s1 & -> & Hok1 & Hst1 & Hq1).
  destruct Hboth as (Heq & Haddr & Hf'). st_step. rewrite <- Haddr.
  destruct (merge_with_prev_spec s1 bs1 x' r Hok1 Hf') as (s2 & y & -> & Hok2 & Hst2 & Hq2 & Hy & Hfy).
  rewrite Heq in *. exists s2, y. split_and!; try done; [by eapply stable_trans|].
  eapply quiet_trans; [|exact Hq1|exact Hq2]. intros b Hb Hfb.
  rewrite <- Heq, <- (coalesce_app bs1 x' r) in Hb; [by apply used_coalesce in Hb|done|].
  pose proof (coalesce_coalesced (x :: bs2)) as Hc. cbn [coalesce] in Hc.
  rewrite coalesce_id in Hc by done. destruct bs2 as [|b2 r2]; simpl in Er; [by injection Er as <- <-|].
  rewrite Hf in Hc. simpl andb in Hc. destruct (b_free b2); by injection Er as <- <-.
Qed.

Section Free.
Context `{PageUnmapper}.

Lemma freeAlgorithm_spec fuel s bs b :
  heap_ok s bs -> coalesced bs -> b ∈ bs -> b_free b = false -> (length bs < fuel)%nat ->
  exists s', freeAlgorithm fuel (b_addr b + HEADER_SIZE) s = Ret (tt, s') /\
    heap_ok s' (abs_free (b_addr b + HEADER_SIZE) bs) /\ stable s s' /\
    quiet (abs_free (b_addr b + HEADER_SIZE) bs) (mem s) (mem s').
Proof.
  intros Hok Hc Hin Hf Hfuel. apply list_elem_of_split in Hin as (bs1 & bs2 & ->).
  pose proof Hok as [Hb [H0 Hhi] Ht _ Hfree].
  pose proof (tiles_block _ _ _ _ b Ht ltac:(set_solver)) as Hr. unfold b_end, HEADER_SIZE in Hr.
  unfold abs_free. rewrite (mark_split _ _ _ _ _ _ Ht).
  assert (HH : HEADER_SIZE = 12) by done.
  unfold freeAlgorithm. st_step. decide_bool. cbn [orb].
  replace (u32 (b_addr b + HEADER_SIZE - HEADER_SIZE)) with (b_addr b)
    by (rewrite u32_small by (unfold is_u32; lia); lia).
  unfold size. rewrite field_nonzero by lia. st_step.
  rewrite (tiles_size _ _ _ _ b Ht) by set_solver. unfold add_freeMemory. st_step.
  assert (Hsum : u32 (freeMemory s + b_size b) = freeMemory s + b_size b).
  { apply u32_small. rewrite Hfree. apply tiles_app in Ht as (mid & Ht1 & Ht2). simpl in Ht2.
    destruct Ht2 as (<- & _ & _ & _ & Ht2). apply free_bytes_range in Ht1, Ht2.
    rewrite free_bytes_app. simpl. rewrite Hf. unfold is_u32, b_end, HEADER_SIZE in *. lia. }
  rewrite Hsum.
  destruct (insert_block fuel s bs1 b bs2 Hok Hf Hfuel) as (s1 & -> & Hok1 & ? & ? & ? & ? & Hq1).
  st_step. apply coalesced_app in Hc as [Hc1 [_ Hc2]].
  change (b_addr b) with (b_addr (freed b)).
  destruct (merge_spec s1 bs1 (freed b) bs2) as (s2 & y & -> & Hok2 & Hst2 & Hq2 & Hy & Hfy); try done.
  st_step. set (bs' := coalesce (bs1 ++ freed b :: bs2)) in *.
  assert (Hq : quiet bs' (mem s) (mem s2)).
  { eapply quiet_trans; [|exact Hq1|exact Hq2]. intros b' Hb' Hfb. by apply used_coalesce in Hb'. }
  assert (Hst : stable s s2) by (eapply stable_trans; [|exact Hst2]; by constructor).
  destruct (doUnmap s2); [|by exists s2].
  pose proof Hok2 as [Hb2 [H02 Hhi2] Ht2 _ _].
  pose proof (tiles_block _ _ _ _ y Ht2 Hy) as Hry. unfold b_end, HEADER_SIZE in Hry.
  rewrite field_nonzero, (tiles_size _ _ _ _ y Ht2 Hy) by lia.
  destruct ((PAGESIZE <=? b_size y) && isInitialized); [|by exists s2].
  unfold HEADER_SIZE. rewrite !u32_small by (rewrite ?u32_small; unfold is_u32; try rewrite !u32_small; unfold is_u32; lia).
  assert (Hout : forall z, ~ payload y z ->
    unmap (b_addr y + 12) (b_addr y + (12 + b_size y) - 1) (mem s2) z = mem s2 z).
  { intros z Hz. apply unmap_outside. unfold payload, b_end, HEADER_SIZE in Hz. lia. }
  eexists. split; [done|]. split_and!.
  - apply (heap_ok_payload s2 bs' y); try done. by apply unmap_bytes.
  - by destruct Hst.
  - eapply quiet_trans; [|exact Hq|by apply (quiet_payload _ _ _ _ y _ _ Ht2)]. done.
Qed.

Lemma free_spec fuel s bs b :
  heap_inv s bs -> b ∈ bs -> b_free b = false -> (length bs < fuel)%nat ->
  exists s', free fuel (b_addr b + HEADER_SIZE) s = Ret (tt, s') /\
    heap_inv s' (abs_free (b_addr b + HEADER_SIZE) bs) /\ same_extent s s' /\
    quiet (abs_free (b_addr b + HEADER_SIZE) bs) (mem s) (mem s').
Proof.
  intros (Hok & Hc & Hlock) Hin Hf Hfuel. unfold free, free_aligned, lock_release. st_step.
  rewrite lock_acquire_free by done.
  destruct (freeAlgorithm_spec fuel (set_lock held s) bs b) as (s' & -> & Hok' & Hst & Hq); try done.
  { by apply heap_ok_lock. }
  destruct Hst as [? ? ? ?]. eexists. split; [done|]. split; [|done].
  split_and!; [by apply heap_ok_lock|apply coalesce_coalesced|done].
Qed.
End Free.

(** ** Executions

    A client's view: the live allocations with the requested sizes. Between
    calls the client writes into its allocations as it likes. *)

Lemma used_coalesce_rev bs b : b ∈ bs -> b_free b = false -> b ∈ coalesce bs.
Proof.
  intros Hb Hf. induction bs as [|b0 bs IH]; [by apply not_elem_of_nil in Hb|]. simpl.
  destruct (coalesce bs) as [|b2 rest]; apply elem_of_cons in Hb as [->|Hb].
  - set_solver.
  - specialize (IH Hb). by apply not_elem_of_nil in IH.
  - rewrite Hf. simpl. set_solver.
  - specialize (IH Hb). destruct (b_free b0 && b_free b2) eqn:E; [|set_solver].
    apply andb_true_iff in E as [_ E2]. apply elem_of_cons in IH as [->|?]; [congruence|set_solver].
Qed.

Lemma tiles_length m lo hi bs : tiles m lo hi bs -> 12 * Z.of_nat (length bs) <= hi - lo.
Proof.
  revert lo. induction bs as [|b bs IH]; intros lo; simpl; [lia|].
  intros (<- & ? & _ & _ & Ht). apply IH in Ht. unfold b_end, HEADER_SIZE in Ht. lia.
Qed.

(** Enough fuel for every loop over the list of a heap of this extent. *)
Definition enough (fuel : nat) (s : FreeListMemoryManager) : Prop :=
  (memoryEndAddress s - memoryStartAddress s) / 12 + 2 < Z.of_nat fuel.

Lemma enough_blocks fuel s bs : heap_ok s bs -> enough fuel s -> (S (length bs) < fuel)%nat.
Proof.
  intros Hok Hf. apply hi_tiles, tiles_length in Hok. unfold enough in Hf.
  assert (Z.of_nat (length bs) <= (memoryEndAddress s - memoryStartAddress s) / 12)
    by (apply Z.div_le_lower_bound; lia). lia.
Qed.

Definition allocation : Type := Z * Z.

Inductive heap_step `{PageUnmapper} (fuel : nat) :
    FreeListMemoryManager * list allocation -> FreeListMemoryManager * list allocation -> Prop :=
| step_alloc s live n p s' :
    0 < n -> n + 3 < 2 ^ 32 -> alloc fuel n s = Ret (p, s') -> p <> 0 ->
    heap_step fuel (s, live) (s', (p, n) :: live)
| step_alloc_fails s live n s' :
    0 < n -> n + 3 < 2 ^ 32 -> alloc fuel n s = Ret (0, s') ->
    heap_step fuel (s, live) (s', live)
| step_free s l1 p n l2 s' :
    free fuel p s = Ret (tt, s') ->
    heap_step fuel (s, l1 ++ (p, n) :: l2) (s', l1 ++ l2)
| step_write s live p n y v :
    (p, n) ∈ live -> p <= y < p + n -> is_u8 v ->
    heap_step fuel (s, live) (set_mem (store8 (mem s) y v) s, live).

(** Every live allocation is the payload of a block in use. *)
Definition backs (bs : list block) (al : allocation) : Prop :=
  exists b, b ∈ bs /\ b_free b = false /\ b_addr b + HEADER_SIZE = fst al /\ snd al <= b_size b.

Definition client_inv (st : FreeListMemoryManager * list allocation) : Prop :=
  exists bs, heap_inv (fst st) bs /\ NoDup (fst <$> snd st) /\ Forall (backs bs) (snd st).

(** The block of an address is unique. *)
Lemma tiles_addr_inj m lo hi bs b b' :
  tiles m lo hi bs -> b ∈ bs -> b' ∈ bs -> b_addr b = b_addr b' -> b = b'.
Proof.
  intros Ht (bs1 & bs2 & ->)%list_elem_of_split Hb' Ha.
  destruct (decide (b = b')) as [|Hne]; [done|].
  assert (Hin : b' ∈ bs1 ++ bs2).
  { rewrite !elem_of_app, elem_of_cons in *. destruct Hb' as [?|[?|?]]; [tauto|congruence|tauto]. }
  pose proof (blocks_disjoint _ _ _ _ _ _ _ Ht Hin).
  pose proof (tiles_block _ _ _ _ _ Ht Hb'). pose proof (tiles_block _ _ _ _ b Ht ltac:(set_solver)).
  unfold b_end, HEADER_SIZE in *. lia.
Qed.

(** The block an allocation returns, and what happens to the others. *)
Lemma abs_alloc_block size_ bs p bs' :
  abs_alloc size_ bs = Some (p, bs') ->
  (exists b b0, b ∈ bs' /\ b_free b = false /\ b_addr b + HEADER_SIZE = p /\ size_ <= b_size b /\
     b0 ∈ bs /\ b_free b0 = true /\ b_addr b0 + HEADER_SIZE = p) /\
  (forall b, b ∈ bs -> b_free b = false -> b ∈ bs').
Proof.
  intros E. pose proof (abs_alloc_first_fit size_ bs) as Hff.
  destruct (first_fit size_ bs) as [b|]; [|congruence].
  destruct Hff as (bs1 & bs2 & -> & Hf & Hs & E'). rewrite E in E'. injection E' as -> ->. split.
  - unfold carve. destruct (_ <=? _).
    + exists (mkBlock (b_addr b) size_ false), b. split_and!; simpl; first [done|lia|set_solver].
    + exists (mkBlock (b_addr b) (b_size b) false), b. split_and!; simpl; first [done|lia|set_solver].
  - intros b' Hb' Hf'. rewrite !elem_of_app, elem_of_cons in *.
    destruct Hb' as [?|[->|?]]; [tauto|congruence|tauto].
Qed.

Section Executions.
Context `{PageUnmapper} (fuel : nat).

Lemma client_alloc s live n p s' :
  client_inv (s, live) -> enough fuel s -> 0 < n -> n + 3 < 2 ^ 32 ->
  alloc fuel n s = Ret (p, s') ->
  client_inv (s', if p =? 0 then live else (p, n) :: live) /\ same_extent s s'.
Proof.
  intros (bs & Hinv & Hnd & Hb) Hfuel Hn Hn' E. simpl in *. pose proof Hinv as (Hok & _ & _).
  destruct (alignUp_4 n) as [_ Hal]; [lia|lia|].
  destruct (alloc_spec fuel s bs n Hinv) as (s1 & E1 & Hinv1 & Hext & _);
    [by eapply enough_blocks|lia|lia|]. rewrite E in E1. injection E1 as -> ->.
  destruct (abs_alloc (alignUp n 4) bs) as [[p bs']|] eqn:Ea; simpl in *; [|split; [by exists bs|done]].
  destruct (abs_alloc_block _ _ _ _ Ea) as [(b & b0 & Hin & Hf & Hp & Hsz & Hin0 & Hf0 & Hp0) Hrest].
  pose proof (hi_tiles _ _ Hok) as Ht. pose proof (hi_range _ _ Hok) as [H0 _].
  pose proof (tiles_block _ _ _ _ _ Ht Hin0). unfold HEADER_SIZE in *. decide_bool.
  split; [|done]. exists bs'. simpl. split_and!; [done| |].
  - constructor; [|done]. intros ((p' & n') & -> & Hl)%list_elem_of_fmap. simpl in *.
    rewrite Forall_forall in Hb. destruct (Hb _ Hl) as (b1 & Hb1 & Hf1 & Hp1 & _). simpl in Hp1.
    unfold HEADER_SIZE in Hp1.
    rewrite (tiles_addr_inj _ _ _ _ b1 b0 Ht) in Hf1 by (done || lia). congruence.
  - constructor.
    + exists b. simpl. split_and!; try done. lia.
    + eapply Forall_impl; [exact Hb|]. intros al (b1 & ? & ? & ? & ?). exists b1. eauto.
Qed.

(** An allocation returns whatever the clients hold, and never an address they hold. *)
Lemma client_alloc_returns s live n :
  client_inv (s, live) -> enough fuel s -> 0 < n -> n + 3 < 2 ^ 32 ->
  exists p s', alloc fuel n s = Ret (p, s') /\ p ∉ live.*1.
Proof.
  intros Hci Hfuel Hn Hn'. pose proof Hci as (bs & Hinv & _ & Hb). pose proof Hinv as (Hok & _ & _).
  destruct (alignUp_4 n) as [_ ?]; [lia|lia|].
  destruct (alloc_spec fuel s bs n Hinv) as (s' & E & _); [by eapply enough_blocks|lia|lia|].
  eexists _, s'. split; [exact E|]. destruct (client_alloc _ _ _ _ _ Hci Hfuel Hn Hn' E) as [(bs' & _ & Hnd & _) _].
  destruct (Z.eqb_spec (from_option fst 0 (abs_alloc (alignUp n 4) bs)) 0) as [E0|_].
  - rewrite E0. intros ((p & k) & Hp & Hin)%list_elem_of_fmap. simpl in *. subst p.
    rewrite Forall_forall in Hb. destruct (Hb _ Hin) as (b & Hbin & _ & Ea & _). simpl in Ea.
    pose proof (tiles_block _ _ _ _ _ (hi_tiles _ _ Hok) Hbin). pose proof (hi_range _ _ Hok).
    unfold HEADER_SIZE in *. lia.
  - simpl in Hnd. by apply NoDup_cons in Hnd as [? _].
Qed.

Lemma client_free s l1 p n l2 s' :
  client_inv (s, l1 ++ (p, n) :: l2) -> enough fuel s ->
  free fuel p s = Ret (tt, s') -> client_inv (s', l1 ++ l2) /\ same_extent s s'.
Proof.
  intros (bs & Hinv & Hnd & Hb) Hfuel E. simpl in *. pose proof Hinv as (Hok & _ & _).
  rewrite Forall_app, Forall_cons in Hb. destruct Hb as (Hb1 & (b & Hin & Hf & Hp & _) & Hb2).
  simpl in Hp. subst p.
  destruct (free_spec fuel s bs b Hinv Hin Hf) as (s1 & E1 & Hinv1 & Hext & _).
  { pose proof (enough_blocks _ _ _ Hok Hfuel). lia. }
  rewrite E in E1. injection E1 as ->. split; [|done]. exists (abs_free (b_addr b + HEADER_SIZE) bs).
  rewrite fmap_app, fmap_cons in Hnd. simpl in Hnd. simpl.
  apply NoDup_app in Hnd as (Hn1 & Hd & Hn2).
  apply NoDup_cons in Hn2 as [Hni Hn2]. split_and!; [done| |].
  - rewrite fmap_app. apply NoDup_app. split_and!; [done| |done].
    intros x Hx Hx2. apply (Hd x Hx). by right.
  - assert (Hkeep : forall al, al ∈ l1 ++ l2 -> backs bs al ->
      backs (abs_free (b_addr b + HEADER_SIZE) bs) al).
    { intros al Hal (b1 & Hin1 & Hf1 & Hp1 & Hs1). exists b1. split_and!; try done.
      apply used_coalesce_rev; [|done]. apply list_elem_of_fmap. exists b1. split; [|done].
      unfold mark. rewrite Hp1. destruct (Z.eqb_spec (fst al) (b_addr b + HEADER_SIZE)) as [e|]; [exfalso|done].
      apply elem_of_app in Hal as [Hal|Hal].
      - apply (Hd (fst al)); [by apply list_elem_of_fmap_2|rewrite e; left].
      - apply Hni. rewrite <- e. by apply list_elem_of_fmap_2. }
    rewrite Forall_forall in Hb1, Hb2. apply Forall_app.
    split; apply Forall_forall; intros al Hal; (apply Hkeep; [apply elem_of_app; tauto|eauto]).
Qed.

Lemma client_write s live p n y v :
  client_inv (s, live) -> (p, n) ∈ live -> p <= y < p + n -> is_u8 v ->
  client_inv (set_mem (store8 (mem s) y v) s, live).
Proof.
  intros (bs & (Hok & Hc & Hlock) & Hnd & Hb) Hin Hy Hv. simpl in *. exists bs. split_and!; try done.
  simpl. split_and!; [|done|done].
  pose proof Hb as Hb'. rewrite Forall_forall in Hb'. destruct (Hb' _ Hin) as (b & Hbin & _ & Hp & Hs).
  simpl in *. eapply (heap_ok_payload s bs b); try done.
  - apply bytes_store8; [apply Hok|done].
  - intros z Hz. apply store8_ne. intros ->. apply Hz. unfold payload, b_end. lia.
Qed.

Lemma client_step st st' :
  client_inv st -> enough fuel (fst st) -> heap_step fuel st st' ->
  client_inv st' /\ same_extent (fst st) (fst st').
Proof.
  intros Hinv Hf Hst. destruct Hst as [s live n p s' Hn Hn' E Hp|s live n s' Hn Hn' E|s l1 p n l2 s' E|s live p n y v Hin Hy Hv].
  - destruct (client_alloc s live n p s') as [Hc He]; try done. decide_bool_in Hc. done.
  - by apply (client_alloc s live n 0 s').
  - by apply (client_free s l1 p n l2 s').
  - split; [by eapply client_write|done].
Qed.

Lemma client_steps st st' :
  client_inv st -> enough fuel (fst st) -> rtc (heap_step fuel) st st' ->
  client_inv st' /\ same_extent (fst st) (fst st').
Proof.
  intros Hinv Hf Hst. induction Hst as [st|st1 st2 st3 H1 _ IH]; [done|].
  destruct (client_step _ _ Hinv Hf H1) as [Hinv2 [E1 E2]].
  destruct IH as [Hinv3 [E3 E4]]; [done|unfold enough in *; by rewrite E1, E2|].
  split; [done|]. split; congruence.
Qed.
End Executions.

(** ** Initialisation *)

Lemma init_spec m start end_ flag :
  bytes m -> 0 < start -> start + HEADER_SIZE <= end_ -> end_ < 2 ^ 32 ->
  exists s, init start end_ flag (new_FreeListMemoryManager m) = Ret (tt, s) /\
    heap_inv s [mkBlock start (end_ - start - HEADER_SIZE) true] /\
    memoryStartAddress s = start /\ memoryEndAddress s = end_.
Proof.
  intros Hm H0 Hlen Hhi. unfold HEADER_SIZE in *. unfold init, base_init, add_freeMemory. st_step. members.
  rewrite (u32_small (end_ - start)) by (unfold is_u32; lia). unfold HEADER_SIZE. decide_bool. st_step.
  fields. members. replace (end_ - start + - (12)) with (end_ - start - 12) by lia.
  rewrite (u32_small (end_ - start - 12)) by (unfold is_u32; lia).
  eexists. split; [done|]. split; [|done]. split; [|done]. rewrite Z.add_0_r.
  constructor; members; try (cbn; lia).
  - auto with hhu.
  - cbn [tiles b_addr b_size b_free]. unfold b_end, HEADER_SIZE. cbn [b_addr b_size].
    split_and!; try done; try lia. by ld.
  - exists start. simpl. ld. done.
Qed.

(** ** Theorems *)

(** C2. [alloc] is first fit: with a free lock and a well formed heap it always
    returns; the result is the payload address of the lowest free block that
    holds the size rounded up to four bytes, that block is carved and the rest
    stays linked, or the null pointer when no block is big enough. The memory
    accounting stays exact, and no byte of an allocation in use changes. *)
Theorem heap_alloc_first_fit fuel s bs n :
  heap_inv s bs -> enough fuel s -> 0 < n -> n + 3 < 2 ^ 32 ->
  exists s',
    alloc fuel n s = Ret (from_option fst 0 (abs_alloc (alignUp n 4) bs), s') /\
    heap_inv s' (from_option snd bs (abs_alloc (alignUp n 4) bs)) /\
    quiet bs (mem s) (mem s').
Proof.
  intros Hinv Hf Hn Hn'. pose proof Hinv as (Hok & _ & _). destruct (alignUp_4 n) as [_ ?]; [lia|lia|].
  destruct (alloc_spec fuel s bs n Hinv) as (s' & E & Hinv' & _ & Hq); [by eapply enough_blocks|lia|lia|].
  exists s'. split_and!; try done.
Qed.

Lemma heap_alloc_first_fit_witness :
  exists s s', init 0x1000 0x1100 false (new_FreeListMemoryManager (fun _ => 0)) = Ret (tt, s) /\
    alloc 50 10 s = Ret (0x100c, s') /\
    heap_inv s' [mkBlock 0x1000 12 false; mkBlock 0x1018 220 true].
Proof.
  destruct (init_spec (fun _ => 0) 0x1000 0x1100 false) as (s & E & Hinv & E1 & E2);
    [by intros a|lia|unfold HEADER_SIZE; lia|lia|].
  destruct (heap_alloc_first_fit 50 s _ 10 Hinv) as (s' & E' & Hinv' & _); [|lia|lia|].
  - unfold enough. rewrite E1, E2. vm_compute. done.
  - exists s, s'. split_and!; [exact E|exact E'|exact Hinv'].
Defined.

(** C3. [free] of an allocation always returns; its block becomes free and is
    joined with the free neighbours on both sides, so that again no two free
    blocks touch; the accounting stays exact and no byte of another allocation
    changes, even when the pages of a big free chunk are unmapped. *)
Theorem heap_free_coalesces `{PageUnmapper} fuel s bs b :
  heap_inv s bs -> enough fuel s -> b ∈ bs -> b_free b = false ->
  exists s',
    free fuel (b_addr b + HEADER_SIZE) s = Ret (tt, s') /\
    heap_inv s' (abs_free (b_addr b + HEADER_SIZE) bs) /\
    quiet (abs_free (b_addr b + HEADER_SIZE) bs) (mem s) (mem s').
Proof.
  intros Hinv Hf Hb Hfree. pose proof Hinv as (Hok & _ & _).
  pose proof (enough_blocks _ _ _ Hok Hf).
  destruct (free_spec fuel s bs b Hinv Hb Hfree) as (s' & E & Hinv' & _ & Hq); [lia|].
  exists s'. split_and!; done.
Qed.

(** A [Management] that is not up yet, and one that clears the range. *)
Definition unmapper_off : PageUnmapper := {|
  isInitialized := false; unmap _ _ m := m;
  unmap_outside _ _ _ _ _ := eq_refl; unmap_bytes _ _ _ Hm := Hm |}.

Lemma clear_outside s e (m : Mem) x :
  x < s \/ e < x -> (if (s <=? x) && (x <=? e) then 0 else m x) = m x.
Proof. intros [H|H]; decide_bool; [done|by rewrite andb_false_r]. Qed.

Lemma clear_bytes s e (m : Mem) : bytes m -> bytes (fun x => if (s <=? x) && (x <=? e) then 0 else m x).
Proof. intros H x. destruct (_ && _); [by vm_compute|apply H]. Qed.

Definition unmapper_clearing : PageUnmapper := {|
  isInitialized := true; unmap s e m x := if (s <=? x) && (x <=? e) then 0 else m x;
  unmap_outside := clear_outside; unmap_bytes := clear_bytes |}.

Lemma heap_free_coalesces_witness :
  exists s s1 s2, init 0x1000 0x5000 true (new_FreeListMemoryManager (fun _ => 0)) = Ret (tt, s) /\
    alloc 2000 10 s = Ret (0x100c, s1) /\
    @free unmapper_clearing 2000 0x100c s1 = Ret (tt, s2) /\
    heap_inv s2 [mkBlock 0x1000 0x3ff4 true].
Proof.
  destruct (init_spec (fun _ => 0) 0x1000 0x5000 true) as (s & E & Hinv & E1 & E2);
    [by intros a|lia|unfold HEADER_SIZE; lia|lia|].
  destruct (alloc_spec 2000 s _ 10 Hinv) as (s1 & E' & Hinv' & [E3 E4] & _);
    [simpl; lia|lia|by vm_compute|].
  destruct (@heap_free_coalesces unmapper_clearing 2000 s1 _ (mkBlock 0x1000 12 false) Hinv')
    as (s2 & E5 & Hinv2 & _).
  - unfold enough. rewrite E3, E4, E1, E2. vm_compute. done.
  - left.
  - done.
  - exists s, s1, s2. split_and!; [exact E|exact E'|exact E5|exact Hinv2].
Defined.

(** Two different positions of the list of live allocations are backed by two
    different blocks, hence by disjoint ranges. *)
Lemma backed_disjoint m lo hi bs (live : list allocation) i j p n p' n' :
  tiles m lo hi bs -> NoDup live.*1 -> Forall (backs bs) live ->
  live !! i = Some (p, n) -> live !! j = Some (p', n') -> i <> j ->
  p + n <= p' \/ p' + n' <= p.
Proof.
  intros Ht Hnd Hb Hi Hj Hij. rewrite Forall_forall in Hb.
  destruct (Hb (p, n)) as (b & Hin & _ & Ea & Hs); [by eapply list_elem_of_lookup_2|].
  destruct (Hb (p', n')) as (b' & Hin' & _ & Ea' & Hs'); [by eapply list_elem_of_lookup_2|].
  simpl in *. assert (p <> p').
  { intros <-. apply Hij. eapply NoDup_lookup; [exact Hnd| |];
      (rewrite list_lookup_fmap; unfold allocation in *; by simplify_option_eq). }
  apply list_elem_of_split in Hin as (bs1 & bs2 & ->).
  assert (Hd : b_end b' <= b_addr b \/ b_end b <= b_addr b').
  { apply (blocks_disjoint _ _ _ _ _ _ _ Ht). rewrite elem_of_app, elem_of_cons in *.
    destruct Hin' as [?|[->|?]]; [tauto|lia|tauto]. }
  unfold b_end, HEADER_SIZE in *. lia.
Qed.

(** C1. In every execution that starts with [init], in which clients allocate,
    free what they own and write into what they own: no address is handed out
    twice; every live allocation lies inside the managed memory and is the
    payload of a used block of its size; the allocations at two different
    positions of the list of live ones are disjoint; the heap is well formed and
    the accounting exact. The next request never gets stuck: an allocation of any
    size returns, with null or an address that is not live, and freeing a live
    allocation returns. *)
Theorem heap_client_safety `{PageUnmapper} fuel m start end_ flag s0 s live :
  bytes m -> 0 < start -> start + HEADER_SIZE <= end_ -> end_ < 2 ^ 32 ->
  (end_ - start) / 12 + 2 < Z.of_nat fuel ->
  init start end_ flag (new_FreeListMemoryManager m) = Ret (tt, s0) ->
  rtc (heap_step fuel) (s0, []) (s, live) ->
  NoDup live.*1 /\
  (forall p n, (p, n) ∈ live -> start + HEADER_SIZE <= p /\ p + n <= end_) /\
  (forall i j p n p' n', live !! i = Some (p, n) -> live !! j = Some (p', n') -> i <> j ->
     p + n <= p' \/ p' + n' <= p) /\
  (exists bs, heap_inv s bs /\ freeMemory s = free_bytes bs /\
     Forall (backs bs) live) /\
  (forall n, 0 < n -> n + 3 < 2 ^ 32 ->
     exists p s', alloc fuel n s = Ret (p, s') /\ p ∉ live.*1) /\
  (forall p n, (p, n) ∈ live -> exists s', free fuel p s = Ret (tt, s')).
Proof.
  intros Hm H0 Hlen Hhi Hf Hi Hst.
  destruct (init_spec m start end_ flag) as (s1 & E & Hinv & E1 & E2); try done.
  rewrite Hi in E. injection E as <-.
  assert (Hen : enough fuel s0) by (unfold enough; by rewrite E1, E2).
  destruct (client_steps fuel (s0, []) (s, live)) as [Hci [E3 E4]]; [|done|done|].
  { exists [mkBlock start (end_ - start - HEADER_SIZE) true]. split_and!; [done|constructor|constructor]. }
  simpl in E3, E4. assert (Hen' : enough fuel s) by (unfold enough in *; by rewrite E3, E4).
  pose proof Hci as (bs & Hinv' & Hnd & Hb). simpl in Hinv', Hnd, Hb. pose proof Hinv' as (Hok & _ & _).
  pose proof (hi_tiles _ _ Hok) as Ht. rewrite E3, E4, E1, E2 in Ht.
  pose proof Hb as Hb'. rewrite Forall_forall in Hb'. split_and!; [done| | | | |].
  - intros p n Hin. destruct (Hb' _ Hin) as (b & Hbin & _ & Ea & Hs). simpl in *.
    pose proof (tiles_block _ _ _ _ _ Ht Hbin). unfold b_end, HEADER_SIZE in *. lia.
  - intros i j p n p' n'. by eapply backed_disjoint.
  - exists bs. split_and!; [done|apply Hok|done].
  - intros n Hn Hn'. by apply client_alloc_returns.
  - intros p n Hin. destruct (Hb' _ Hin) as (b & Hbin & Hfr & Ea & _). simpl in Ea. subst p.
    pose proof (enough_blocks _ _ _ Hok Hen').
    destruct (free_spec fuel s bs b Hinv' Hbin Hfr) as (s' & E & _); [lia|]. eauto.
Qed.

Lemma heap_client_safety_witness :
  exists s s1 s2, init 0x1000 0x1100 false (new_FreeListMemoryManager (fun _ => 0)) = Ret (tt, s) /\
    alloc 50 10 s = Ret (0x100c, s1) /\ alloc 50 20 s1 = Ret (0x1024, s2) /\
    (0x100c + 10 <= 0x1024 \/ 0x1024 + 20 <= 0x100c) /\ 0x1024 + 20 <= 0x1100 /\ freeMemory s2 = 188.
Proof.
  destruct (init_spec (fun _ => 0) 0x1000 0x1100 false) as (s & E & Hinv & E1 & E2);
    [by intros a|lia|unfold HEADER_SIZE; lia|lia|].
  destruct (alloc_spec 50 s _ 10 Hinv) as (s1 & A1 & Hinv1 & _); [simpl; lia|lia|by vm_compute|].
  destruct (alloc_spec 50 s1 _ 20 Hinv1) as (s2 & A2 & Hinv2 & _); [vm_compute; lia|lia|by vm_compute|].
  destruct (@heap_client_safety unmapper_off 50 (fun _ => 0) 0x1000 0x1100 false s s2
    [(0x1024, 20); (0x100c, 10)]) as (_ & Hin & Hdis & _);
    [by intros a|lia|unfold HEADER_SIZE; lia|lia|by vm_compute|exact E| |].
  - eapply rtc_l; [|eapply rtc_l; [|apply rtc_refl]].
    + eapply (step_alloc 50 s [] 10 0x100c s1); [lia|lia|exact A1|lia].
    + eapply (step_alloc 50 s1 _ 20 0x1024 s2); [lia|lia|exact A2|lia].
  - exists s, s1, s2. split_and!; [exact E|exact A1|exact A2| | |].
    + exact (Hdis 1%nat 0%nat 0x100c 10 0x1024 20 eq_refl eq_refl ltac:(done)).
    + apply (Hin 0x1024 20). left.
    + rewrite (hi_free _ _ (proj1 Hinv2)). reflexivity.
Defined.

(** Freeing the block that was carved gives the list back. *)
Lemma carve_coalesce bs1 b bs2 size_ ub rest :
  coalesced (bs1 ++ b :: bs2) -> b_free b = true -> carve size_ b ++ bs2 = ub :: rest ->
  coalesce (bs1 ++ freed ub :: rest) = bs1 ++ b :: bs2.
Proof.
  intros Hc Hf Eq. rewrite <- (coalesce_id (bs1 ++ b :: bs2)) by done.
  rewrite <- (coalesce_app_r bs1 (freed ub :: rest)), <- (coalesce_app_r bs1 (b :: bs2)). f_equal. f_equal.
  apply coalesced_app in Hc as [_ Hc]. rewrite (coalesce_id (b :: bs2)) by done.
  pose proof Hc as [Hh Hc2]. unfold carve in Eq. destruct (_ <=? _); simpl in Eq; injection Eq as <- <-.
  - cbn [coalesce]. rewrite (coalesce_id bs2) by done.
    destruct b as [a sz f]. simpl in Hf. subst f. unfold joined, HEADER_SIZE. cbn [freed b_addr b_size b_free].
    destruct bs2 as [|b2 bs2]; cbn [andb b_free b_addr b_size].
    + f_equal. f_equal. lia.
    + destruct Hh as [?|Hb2]; [done|]. rewrite Hb2. cbn [andb b_free b_addr b_size]. f_equal. f_equal. lia.
  - destruct b as [a sz f]. simpl in Hf. subst f. unfold freed. cbn [b_addr b_size]. by apply coalesce_id.
Qed.

(** Allocating and freeing again gives the heap back: the same blocks at
    the same addresses and the same amount of free memory. *)
Theorem alloc_free_roundtrip `{PageUnmapper} fuel s bs n p s1 :
  heap_inv s bs -> enough fuel s -> 0 < n -> n + 3 < 2 ^ 32 ->
  alloc fuel n s = Ret (p, s1) -> p <> 0 ->
  exists s2, free fuel p s1 = Ret (tt, s2) /\ heap_inv s2 bs /\ freeMemory s2 = freeMemory s.
Proof.
  intros Hinv Hf Hn Hn' E Hp. pose proof Hinv as (Hok & Hc & _). destruct (alignUp_4 n) as [_ ?]; [lia|lia|].
  destruct (alloc_spec fuel s bs n Hinv) as (s1' & E' & Hinv1 & [E1 E2] & _);
    [by eapply enough_blocks|lia|lia|]. rewrite E in E'. injection E' as Ep ->.
  pose proof (abs_alloc_first_fit (alignUp n 4) bs) as Hff.
  destruct (first_fit (alignUp n 4) bs) as [b|]; [|rewrite Hff in Ep; done].
  destruct Hff as (bs1 & bs2 & -> & Hfb & Hsz & Ea). rewrite Ea in Ep, Hinv1. simpl in Ep, Hinv1.
  assert (Hub : exists ub rest, carve (alignUp n 4) b ++ bs2 = ub :: rest /\
    b_free ub = false /\ b_addr ub = b_addr b).
  { unfold carve. destruct (_ <=? _); eexists _, _; split_and!; done. }
  destruct Hub as (ub & rest & Eq & Hfu & Hau). rewrite Eq in Hinv1. pose proof Hinv1 as (Hok1 & _ & _).
  destruct (free_spec fuel s1' _ ub Hinv1) as (s2 & E3 & Hinv2 & _ & _); [set_solver|done| |].
  { pose proof (enough_blocks fuel s1' _ Hok1) as Hl. unfold enough in *. rewrite E1, E2 in Hl.
    specialize (Hl Hf). lia. }
  rewrite Ep, <- Hau. exists s2. split; [done|].
  unfold abs_free in Hinv2. rewrite (mark_split _ _ _ _ _ _ (hi_tiles _ _ Hok1)) in Hinv2.
  rewrite (carve_coalesce bs1 b bs2 (alignUp n 4)) in Hinv2 by done.
  split; [done|]. by rewrite (hi_free _ _ Hok), (hi_free _ _ (proj1 Hinv2)).
Qed.

Lemma alloc_free_roundtrip_witness :
  exists s s1 s2, init 0x1000 0x1100 false (new_FreeListMemoryManager (fun _ => 0)) = Ret (tt, s) /\
    alloc 50 10 s = Ret (0x100c, s1) /\ freeMemory s1 = 220 /\
    @free unmapper_off 50 0x100c s1 = Ret (tt, s2) /\ freeMemory s2 = freeMemory s.
Proof.
  destruct (init_spec (fun _ => 0) 0x1000 0x1100 false) as (s & E & Hinv & E1 & E2);
    [by intros a|lia|unfold HEADER_SIZE; lia|lia|].
  destruct (alloc_spec 50 s _ 10 Hinv) as (s1 & A1 & Hinv1 & _); [simpl; lia|lia|by vm_compute|].
  destruct (@alloc_free_roundtrip unmapper_off 50 s _ 10 0x100c s1 Hinv) as (s2 & F & _ & Hfree);
    [unfold enough; rewrite E1, E2; by vm_compute|lia|lia|exact A1|lia|].
  exists s, s1, s2. split_and!; [exact E|exact A1| |exact F|exact Hfree].
  rewrite (hi_free _ _ (proj1 Hinv1)). reflexivity.
Defined.

(** What is left of an outcome for a closed evaluation. *)
Definition result {A} (c : FL A) (s : FreeListMemoryManager) : option (A * Z) :=
  match c s with Ret (a, s') => Some (a, freeMemory s') | _ => None end.

(** An aligned request that has to split a chunk makes both parts 24 bytes
    too long: of the 64 bytes at 0x1100 the next allocation of 256 bytes gets the
    first twelve again, and the last free chunk ends 24 bytes behind the heap. *)
Theorem aligned_split_overlaps :
  result (_ ← init 0x1000 0x3000 true;
          p ← alloc_aligned 20 64 0x100;
          q ← alloc 20 0x100;
          first ← gets firstChunk;
          sz ← size first;
          mret (p, q, first + HEADER_SIZE + sz)) (new_FreeListMemoryManager (fun _ => 0))
  = Some ((0x1100, 0x100c, 0x3018), 7848) /\ 0x100c <= 0x1100 < 0x100c + 0x100.
Proof. split; [vm_compute; reflexivity|lia]. Qed.

(** A request for more than [2^32 - 4] bytes is rounded up to zero: it
    succeeds on any heap that has a free block and returns a block without
    payload instead of the null pointer. *)
Theorem huge_request_rounds_to_zero fuel s bs n b bs1 bs2 :
  heap_inv s bs -> enough fuel s -> 2 ^ 32 - 4 < n < 2 ^ 32 ->
  bs = bs1 ++ b :: bs2 -> free_addrs bs1 = [] -> b_free b = true -> 16 <= b_size b ->
  exists s', alloc fuel n s = Ret (b_addr b + HEADER_SIZE, s') /\
    heap_inv s' (bs1 ++ mkBlock (b_addr b) 0 false ::
                 mkBlock (b_addr b + HEADER_SIZE) (b_size b - HEADER_SIZE) true :: bs2).
Proof.
  intros Hinv Hf Hn -> Hbs1 Hfb Hsz. pose proof Hinv as (Hok & _ & _).
  assert (Hal : alignUp n 4 = 0).
  { unfold alignUp. simpl (4 =? 0). cbv iota zeta. rewrite (u32_small (4 - 1)) by (by vm_compute).
    replace (u32 (n + (4 - 1))) with (n + 3 - 2 ^ 32)
      by (unfold u32; rewrite <- (Z.mod_unique_pos _ _ 1 (n + 3 - 2 ^ 32)); lia).
    rewrite (land_not_ones _ 2) by (unfold is_u32; lia). rewrite Z.mod_small; lia. }
  destruct (alloc_spec fuel s _ n Hinv) as (s' & E & Hinv' & _); [by eapply enough_blocks|lia|lia|].
  rewrite Hal in E, Hinv'.
  assert (Ea : abs_alloc 0 (bs1 ++ b :: bs2) = Some (b_addr b + HEADER_SIZE, bs1 ++ carve 0 b ++ bs2)).
  { clear -Hbs1 Hfb Hsz. induction bs1 as [|b1 bs1 IH]; simpl.
    - unfold fits. rewrite Hfb. by decide_bool.
    - simpl in Hbs1. destruct (b_free b1) eqn:E1; [done|]. unfold fits. rewrite E1. simpl. by rewrite IH. }
  rewrite Ea in E, Hinv'. exists s'. split; [exact E|]. simpl in Hinv'. unfold carve in Hinv'.
  unfold MIN_BLOCK_SIZE, HEADER_SIZE in Hinv'. decide_bool_in Hinv'.
  rewrite Z.add_0_r, Z.sub_0_r in Hinv'. exact Hinv'.
Qed.

Lemma huge_request_rounds_to_zero_witness :
  exists s s', init 0x1000 0x1100 false (new_FreeListMemoryManager (fun _ => 0)) = Ret (tt, s) /\
    alloc 50 0xFFFFFFFE s = Ret (0x100c, s') /\
    heap_inv s' [mkBlock 0x1000 0 false; mkBlock 0x100c 232 true].
Proof.
  destruct (init_spec (fun _ => 0) 0x1000 0x1100 false) as (s & E & Hinv & E1 & E2);
    [by intros a|lia|unfold HEADER_SIZE; lia|lia|].
  destruct (huge_request_rounds_to_zero 50 s _ 0xFFFFFFFE (mkBlock 0x1000 244 true) [] [] Hinv)
    as (s' & A & Hinv'); [unfold enough; rewrite E1, E2; by vm_compute|lia|done|done|done|simpl; lia|].
  exists s, s'. split_and!; [exact E|exact A|exact Hinv'].
Defined.

(** Shrinking an allocation in place does not give the rest back: the
    address handed to [free] is computed on header pointers and lies 144 bytes
    behind the cut instead of 12, so that the 288 bytes behind a block shrunk
    from 400 to 100 bytes never return to the free memory. *)
Theorem realloc_shrink_loses_the_rest :
  result (_ ← init 0x1000 0x3000 true;
          p ← alloc 20 400;
          before ← gets freeMemory;
          q ← @realloc unmapper_off 20 p 100;
          mret (p, q, before)) (new_FreeListMemoryManager (fun _ => 0))
  = Some ((0x100c, 0x100c, 7768), 7768).
Proof. vm_compute. reflexivity. Qed.
