(* ===== verification/MemoryManagers.v ===== *)
(** * The memory managers on top of a bitmap, and the static heap

    [kernel/memory/manager/]: [MemoryManager] (the base class),
    [BitmapMemoryManager], [PageFrameAllocator], [PagingAreaManager],
    [IOMemoryManager], [IsaDmaMemoryManager] and [StaticHeapMemoryManager], with
    the constants of [kernel/memory/MemLayout.h] and [kernel/memory/Paging.h]
    they use. Addresses are 32-bit numbers, the null pointer is 0. *)

From S2P Require Import Prelude MemoryUtil Memory Spinlock Bitmap Array Collections ArrayList HashMap.

(** ** [Paging.h] and [MemLayout.h] *)

Module Layout.
Definition PAGESIZE : Z := 0x1000.

Definition PAGE_PRESENT : Z := 0x001.
Definition PAGE_READ_WRITE : Z := 0x002.
Definition PAGE_ACCESS_ALL : Z := 0x004.
Definition PAGE_NO_CACHING : Z := 0x010.
Definition PAGE_SIZE_MiB : Z := 0x080.
Definition PAGE_WRITE_PROTECTED : Z := 0x200.
Definition PAGE_ACCESS_SUPERVISOR : Z := 0x000.

Definition GET_PD_IDX (x : Z) : Z := Z.shiftr x 22.
Definition GET_PT_IDX (x : Z) : Z := Z.land (Z.shiftr x 12) 0x3FF.
Definition GET_OFFSET (x : Z) : Z := Z.land x 0xFFF.
Definition GET_FLAGS (x : Z) : Z := Z.land x 0xFFF.

Definition KERNEL_START : Z := 0xC0000000.
Definition VIRT_PAGE_MEM_START : Z := KERNEL_START + 0x1F400000.
Definition VIRT_KERNEL_HEAP_END : Z := VIRT_PAGE_MEM_START.
Definition VIRT_IO_START : Z := KERNEL_START + 0x2EE00000.
Definition VIRT_PAGE_MEM_END : Z := VIRT_IO_START - 0x40000.
Definition VIRT_IO_END : Z := 0xFFFFFFFF.
Definition PHYS_MEM_CAP : Z := 0xEA600000.
Definition ISA_DMA_START_ADDRESS : Z := 0x00010000.
Definition ISA_DMA_END_ADDRESS : Z := ISA_DMA_START_ADDRESS + 0x00080000.
Definition VIRT2PHYS (x : Z) : Z := u32 (x - KERNEL_START).
Definition PHYS2VIRT (x : Z) : Z := u32 (x + KERNEL_START).
End Layout.
Import Layout.

(** ** [MemoryManager] *)

Record MemoryManager := mkMemoryManager {
  memoryStartAddress : Z;
  memoryEndAddress : Z;
  freeMemory : Z;
  doUnmap : bool
}.

Definition new_MemoryManager : MemoryManager := mkMemoryManager 0 0 0 false.

Definition base_init (start end_ : Z) (flag : bool) : MemoryManager :=
  mkMemoryManager start end_ (u32 (end_ - start)) flag.

(** The default implementations a subclass may inherit. *)
Definition base_alloc (size : Z) : Z := 0.
Definition base_alloc_aligned (size alignment : Z) : outcome Z := Throw UNSUPPORTED_OPERATION.
Definition base_realloc (ptr size : Z) : outcome Z := Throw UNSUPPORTED_OPERATION.
Definition base_realloc_aligned (ptr size alignment : Z) : outcome Z := Throw UNSUPPORTED_OPERATION.
Definition base_free (ptr : Z) (m : MemoryManager) : MemoryManager := m.
Definition base_free_aligned (ptr alignment : Z) : outcome unit := Throw UNSUPPORTED_OPERATION.

Definition getStartAddress (m : MemoryManager) : Z := memoryStartAddress m.
Definition getEndAddress (m : MemoryManager) : Z := memoryEndAddress m.
Definition getFreeMemory (m : MemoryManager) : Z := freeMemory m.

Definition with_freeMemory (f : Z) (m : MemoryManager) : MemoryManager :=
  mkMemoryManager (memoryStartAddress m) (memoryEndAddress m) f (doUnmap m).

(** ** [BitmapMemoryManager] *)

Inductive ManagerType := PAGE_FRAME_ALLOCATOR | PAGING_AREA_MANAGER | MISC.

Record BitmapMemoryManager := mkBitmapMemoryManager {
  base : MemoryManager;
  managerType : ManagerType;
  bitmap : Bitmap;
  blockSize : Z;
  zeroMemory : bool
}.

(** The pointer to the bitmap is set by [init]; until then the model has an
    empty one. *)
Definition new_BitmapMemoryManager (blockSize : Z) (zeroMemory : bool) : BitmapMemoryManager :=
  mkBitmapMemoryManager new_MemoryManager MISC (new_Bitmap 0) blockSize zeroMemory.

Definition with_base (b : MemoryManager) (bm : Bitmap) (m : BitmapMemoryManager) : BitmapMemoryManager :=
  mkBitmapMemoryManager b (managerType m) bm (blockSize m) (zeroMemory m).

Definition init (start end_ : Z) (flag : bool) (m : BitmapMemoryManager) : outcome BitmapMemoryManager :=
  if blockSize m =? 0 then Fault
  else
    let bm := new_Bitmap (u32 (end_ - start) / blockSize m) in
    Ret (with_base (with_freeMemory (u32 (getSize bm * blockSize m)) (base_init start end_ flag)) bm m).

(** [alloc] up to the zeroing: the address and the number of bytes reserved. *)
Definition reserve (size : Z) (m : BitmapMemoryManager) : outcome (Z * Z * BitmapMemoryManager) :=
  if size =? 0 then Ret (0, 0, m)
  else if blockSize m =? 0 then Fault
  else
    let blockCount := size / blockSize m + (if size mod blockSize m =? 0 then 0 else 1) in
    '(block, bm) ← findAndSet (bitmap m) blockCount;
    if block =? getSize bm then
      match managerType m with
      | PAGING_AREA_MANAGER => Throw OUT_OF_PAGE_MEMORY
      | PAGE_FRAME_ALLOCATOR => Throw OUT_OF_PHYS_MEMORY
      | MISC => Ret (0, 0, with_base (base m) bm m)
      end
    else
      Ret (u32 (memoryStartAddress (base m) + block * blockSize m), u32 (blockCount * blockSize m),
           with_base (with_freeMemory (u32 (freeMemory (base m) - u32 (blockSize m * blockCount))) (base m)) bm m).

Definition alloc (size : Z) (m : BitmapMemoryManager) (mem : Mem) : outcome (Z * BitmapMemoryManager * Mem) :=
  '(address, count, m') ← reserve size m;
  Ret (address, m', if zeroMemory m' then memset address 0 count mem else mem).

Definition free (ptr : Z) (m : BitmapMemoryManager) : outcome BitmapMemoryManager :=
  let address := u32 (ptr - memoryStartAddress (base m)) in
  if (ptr <? memoryStartAddress (base m)) || (memoryEndAddress (base m) <=? ptr) then Ret m
  else if blockSize m =? 0 then Fault
  else
    let blockNumber := address / blockSize m in
    Ret (with_base (with_freeMemory (u32 (freeMemory (base m) + blockSize m)) (base m))
           (unset (bitmap m) blockNumber) m).

(** ** Its subclasses *)

Definition set_type (t : ManagerType) (m : BitmapMemoryManager) : BitmapMemoryManager :=
  mkBitmapMemoryManager (base m) t (bitmap m) (blockSize m) (zeroMemory m).

(** The first [n] blocks are taken from the start. *)
Definition reserve_first (n : Z) (m : BitmapMemoryManager) : BitmapMemoryManager :=
  with_base (with_freeMemory (u32 (freeMemory (base m) - u32 (n * blockSize m))) (base m))
    (setRange (bitmap m) 0 n) m.

Definition new_PageFrameAllocator : BitmapMemoryManager :=
  set_type PAGE_FRAME_ALLOCATOR (new_BitmapMemoryManager PAGESIZE false).

(** [Multiboot::Structure::physReservedMemoryEnd] is an argument. *)
Definition PageFrameAllocator_init (physReservedMemoryEnd start end_ : Z) (flag : bool)
    (m : BitmapMemoryManager) : outcome BitmapMemoryManager :=
  m ← init start end_ false m;
  let maxIndex := (physReservedMemoryEnd / PAGESIZE + 1024 + 256) / 32 in
  Ret (reserve_first (maxIndex * 32 + 2) m).

Definition new_PagingAreaManager : outcome BitmapMemoryManager :=
  m ← init VIRT_PAGE_MEM_START VIRT_PAGE_MEM_END false (new_BitmapMemoryManager PAGESIZE true);
  Ret (reserve_first (8 * 32 + 2) (set_type PAGING_AREA_MANAGER m)).

Definition ISA_DMA_BUF_SIZE : Z := 0x10000.

Definition new_IsaDmaMemoryManager : outcome BitmapMemoryManager :=
  init ISA_DMA_START_ADDRESS ISA_DMA_END_ADDRESS false (new_BitmapMemoryManager ISA_DMA_BUF_SIZE true).

(** [init] of these managers does nothing: the kernel sets them up. *)
Definition fixed_init (start end_ : Z) (flag : bool) (m : BitmapMemoryManager) : BitmapMemoryManager := m.

(** ** [IOMemoryManager] *)

Module IO.
Record IOMemoryManager := mkIO {
  bmm : BitmapMemoryManager;
  ioMemoryMap : HashMap Z Z;
  lock : Spinlock
}.

Definition new_IOMemoryManager : outcome IOMemoryManager :=
  m ← MemoryManagers.init VIRT_IO_START VIRT_IO_END true (new_BitmapMemoryManager PAGESIZE false);
  Ret (mkIO m new_HashMap new_Spinlock).

Definition page_count (size : Z) : Z := size / PAGESIZE + (if size mod PAGESIZE =? 0 then 0 else 1).

Definition alloc (size : Z) (m : IOMemoryManager) : outcome (Z * IOMemoryManager) :=
  l ← acquire 1 (lock m);
  '(ret, _, b) ← reserve size (bmm m);
  map' ← (if ret =? 0 then Ret (ioMemoryMap m) else put ret (page_count size) (ioMemoryMap m));
  Ret (ret, mkIO b map' (release l)).

(** The loop of [free]; [unmap] is [Management::unmap] on the rest of the
    kernel's state. *)
Fixpoint free_pages {S} (unmap : Z -> S -> outcome S) (n : nat) (i virtualAddress : Z)
    (b : BitmapMemoryManager) (s : S) : outcome (BitmapMemoryManager * S) :=
  match n with
  | O => Ret (b, s)
  | Datatypes.S n =>
      b ← MemoryManagers.free (u32 (virtualAddress + i * PAGESIZE)) b;
      s ← unmap (u32 (virtualAddress + i * PAGESIZE)) s;
      free_pages unmap n (i + 1) virtualAddress b s
  end.

Definition free {S} (unmap : Z -> S -> outcome S) (ptr : Z) (m : IOMemoryManager) (s : S)
    : outcome (IOMemoryManager * S) :=
  if (ptr <? memoryStartAddress (base (bmm m))) || (memoryEndAddress (base (bmm m)) <=? ptr)
  then Ret (m, s)
  else
    '(pageCount, map') ← get ptr (ioMemoryMap m);
    l ← acquire 1 (lock m);
    '(b, s) ← free_pages unmap (Z.to_nat pageCount) 0 ptr (bmm m) s;
    '(_, map'') ← remove ptr map';
    Ret (mkIO b map'' (release l), s).
End IO.

(** ** [StaticHeapMemoryManager] *)

Module StaticHeap.
Record StaticHeapMemoryManager := mkStatic {
  sbase : MemoryManager;
  currentPosition : Z;
  slock : Spinlock
}.

Definition init (start end_ : Z) (flag : bool) (m : StaticHeapMemoryManager) : StaticHeapMemoryManager :=
  mkStatic (base_init start end_ false) start (slock m).

Definition alloc_aligned (size alignment : Z) (m : StaticHeapMemoryManager)
    : outcome (Z * StaticHeapMemoryManager) :=
  if freeMemory (sbase m) <? size then Ret (0, m)
  else
    l ← acquire 1 (slock m);
    let ret := alignUp (currentPosition m) alignment in
    Ret (ret, mkStatic (with_freeMemory (u32 (freeMemory (sbase m) - size)) (sbase m))
                       (u32 (ret + size)) (release l)).

Definition alloc (size : Z) (m : StaticHeapMemoryManager) : outcome (Z * StaticHeapMemoryManager) :=
  alloc_aligned size 0 m.

Definition realloc_aligned (ptr size alignment : Z) (m : StaticHeapMemoryManager) (mem : Mem)
    : outcome (Z * StaticHeapMemoryManager * Mem) :=
  '(ret, m') ← alloc_aligned size alignment m;
  if ret =? 0 then Ret (ret, m', mem) else Ret (ret, m', memcpy ret ptr size mem).

Definition realloc (ptr size : Z) (m : StaticHeapMemoryManager) (mem : Mem)
    : outcome (Z * StaticHeapMemoryManager * Mem) := realloc_aligned ptr size 0 m mem.

Definition free_aligned (ptr alignment : Z) (m : StaticHeapMemoryManager) : StaticHeapMemoryManager := m.
Definition free (ptr : Z) (m : StaticHeapMemoryManager) : StaticHeapMemoryManager := free_aligned ptr 0 m.
End StaticHeap.

(** ** Lemmas *)

(** A manager owns [blocks] whole blocks of its region. *)
Record bmm_wf (m : BitmapMemoryManager) : Prop := {
  bw_bitmap : Bitmap.wf (bitmap m);
  bw_size : 0 < blockSize m;
  bw_start : 0 <= memoryStartAddress (base m);
  bw_room : memoryStartAddress (base m) + blocks (bitmap m) * blockSize m <= memoryEndAddress (base m);
  bw_end : memoryEndAddress (base m) < 2 ^ 32
}.

Definition block_count (m : BitmapMemoryManager) (size : Z) : Z :=
  size / blockSize m + (if size mod blockSize m =? 0 then 0 else 1).

(** The number of blocks is the size divided by the block size, rounded up. *)
Lemma block_count_spec m size :
  0 < blockSize m -> 0 < size ->
  0 < block_count m size /\ size <= block_count m size * blockSize m < size + blockSize m.
Proof.
  intros Hb Hs. unfold block_count. pose proof (Z.div_mod size (blockSize m) ltac:(lia)).
  pose proof (Z.mod_pos_bound size (blockSize m) Hb). case_bool; nia.
Qed.

Lemma block_count_u32 m size : 0 < blockSize m -> 0 < size < 2 ^ 32 -> block_count m size < 2 ^ 32.
Proof. intros Hb Hs. pose proof (block_count_spec m size Hb). nia. Qed.

Definition address_of (m : BitmapMemoryManager) (r : Z) : Z :=
  memoryStartAddress (base m) + r * blockSize m.

(** What [reserve] does when there is room, and when there is none. *)
Lemma reserve_found m size :
  bmm_wf m -> 0 < size < 2 ^ 32 -> (exists b, free_run (bitmap m) b (block_count m size)) ->
  exists r, free_run (bitmap m) r (block_count m size) /\
    (forall b, 0 <= b < r -> ~ free_run (bitmap m) b (block_count m size)) /\
    reserve size m = Ret (address_of m r, block_count m size * blockSize m,
      with_base (with_freeMemory (u32 (freeMemory (base m) - block_count m size * blockSize m)) (base m))
        (setRange (bitmap m) r (block_count m size)) m).
Proof.
  intros [Hwf Hbs H0 Hroom Hend] Hs (b & Hb). pose proof (block_count_spec m size Hbs ltac:(lia)) as [Hk0 Hk].
  pose proof (block_count_u32 m size Hbs Hs). unfold reserve. decide_bool.
  fold (block_count m size).
  destruct (findAndSet_spec (bitmap m) (block_count m size)) as (r & bm' & -> & Hmin & Hres); [done|lia|].
  outcome. destruct Hres as [(Hr & Hrun & ->)|(-> & _)].
  2: { destruct Hb as (Hb0 & Hb1 & Hb2). exfalso. apply (Hmin b); [lia|done]. }
  exists r. split_and!; [done|done|]. unfold getSize. rewrite blocks_setRange. decide_bool.
  destruct Hrun as (Hr0 & Hr1 & _). unfold address_of.
  rewrite (Z.mul_comm (blockSize m) (block_count m size)).
  rewrite (u32_small (block_count m size * blockSize m)) by (unfold is_u32; nia).
  rewrite (u32_small (_ + r * blockSize m)) by (unfold is_u32; nia). done.
Qed.

Lemma reserve_full m size :
  bmm_wf m -> 0 < size < 2 ^ 32 -> (forall b, ~ free_run (bitmap m) b (block_count m size)) ->
  reserve size m = match managerType m with
                   | PAGING_AREA_MANAGER => Throw OUT_OF_PAGE_MEMORY
                   | PAGE_FRAME_ALLOCATOR => Throw OUT_OF_PHYS_MEMORY
                   | MISC => Ret (0, 0, m)
                   end.
Proof.
  intros [Hwf Hbs H0 Hroom Hend] Hs Hno. pose proof (block_count_spec m size Hbs ltac:(lia)) as [Hk0 Hk].
  pose proof (block_count_u32 m size Hbs Hs). unfold reserve. decide_bool. fold (block_count m size).
  destruct (findAndSet_spec (bitmap m) (block_count m size)) as (r & bm' & -> & Hmin & Hres); [done|lia|].
  outcome. destruct Hres as [(Hr & Hrun & _)|(-> & ->)]; [by destruct (Hno r)|].
  unfold getSize. decide_bool. by destruct m.
Qed.

(** [free] of the address of a block resets exactly this block. *)
Lemma free_block m r :
  bmm_wf m -> 0 <= r < blocks (bitmap m) ->
  free (address_of m r) m
  = Ret (with_base (with_freeMemory (u32 (freeMemory (base m) + blockSize m)) (base m))
           (unset (bitmap m) r) m).
Proof.
  intros [Hwf Hbs H0 Hroom Hend] Hr. unfold free, address_of.
  assert (0 <= r * blockSize m /\ r * blockSize m + blockSize m <= blocks (bitmap m) * blockSize m) by nia.
  decide_bool. cbn [orb]. rewrite Z.add_simpl_l, (u32_small (r * blockSize m)) by (unfold is_u32; lia).
  by rewrite Z.div_mul by lia.
Qed.

Lemma bmm_wf_base m b bm :
  bmm_wf m -> memoryStartAddress b = memoryStartAddress (base m) ->
  memoryEndAddress b = memoryEndAddress (base m) -> Bitmap.wf bm -> blocks bm = blocks (bitmap m) ->
  bmm_wf (with_base b bm m).
Proof. intros [? ? ? ? ?] E1 E2 Hw Hb. constructor; simpl; rewrite ?E1, ?E2, ?Hb; done. Qed.

(** ** Theorems on the bitmap managers *)

(** [BitmapMemoryManager::alloc] reserves the lowest run of free blocks that
    holds the request and returns its address, so that the bytes lie inside the
    managed region and were not reserved before; the free memory shrinks by
    exactly the reserved bytes. Without such a run the exception of the manager's
    kind is raised, or the null pointer returned with nothing changed. *)
Theorem bitmap_alloc_first_fit m size mem :
  bmm_wf m -> 0 < size < 2 ^ 32 ->
  block_count m size * blockSize m <= freeMemory (base m) < 2 ^ 32 ->
  match alloc size m mem with
  | Ret (p, m', mem') =>
      (exists r, p = address_of m r /\ memoryStartAddress (base m) <= p /\
         p + size <= memoryEndAddress (base m) /\
         free_run (bitmap m) r (block_count m size) /\
         (forall b, 0 <= b < r -> ~ free_run (bitmap m) b (block_count m size)) /\
         freeMemory (base m') = freeMemory (base m) - block_count m size * blockSize m /\
         bmm_wf m' /\
         (forall c, 0 <= c < blocks (bitmap m) ->
            bit (bitmap m') c = (r <=? c) && (c <? r + block_count m size) || bit (bitmap m) c) /\
         (zeroMemory m = true -> forall x, p <= x < p + size -> mem' x = 0) /\
         (forall x, ~ (p <= x < p + block_count m size * blockSize m) -> mem' x = mem x))
      \/ (p = 0 /\ m' = m /\ mem' = mem /\ managerType m = MISC /\
          forall b, ~ free_run (bitmap m) b (block_count m size))
  | Throw e => (forall b, ~ free_run (bitmap m) b (block_count m size)) /\
      ((e = OUT_OF_PAGE_MEMORY /\ managerType m = PAGING_AREA_MANAGER) \/
       (e = OUT_OF_PHYS_MEMORY /\ managerType m = PAGE_FRAME_ALLOCATOR))
  | _ => False
  end.
Proof.
  intros Hw Hs Hfm. pose proof Hw as [Hwf Hbs H0 Hroom Hend].
  pose proof (block_count_spec m size Hbs ltac:(lia)) as [Hk0 Hk]. unfold alloc.
  destruct (findAndSet_spec (bitmap m) (block_count m size)) as (r0 & bm0 & _ & Hmin & Hres);
    [done|pose proof (block_count_u32 m size Hbs Hs); lia|].
  destruct Hres as [(_ & Hrun & _)|(-> & _)].
  - destruct (reserve_found m size Hw Hs) as (r & Hr & Hrmin & ->); [by exists r0|]. outcome.
    left. exists r. pose proof Hr as (Hr0 & Hr1 & _). unfold address_of.
    split_and!; try done; try nia; simpl.
    + rewrite u32_small; [done|unfold is_u32; lia].
    + apply bmm_wf_base; try done; [by apply wf_setRange|by rewrite blocks_setRange].
    + intros c Hc. apply bit_setRange; [done|unfold is_u32; destruct (wf_blocks _ Hwf); lia|lia|done].
    + intros -> x Hx. rewrite memset_inside by nia. done.
    + intros x Hx. destruct (zeroMemory m); [|done]. apply memset_outside. lia.
  - assert (Hno : forall b, ~ free_run (bitmap m) b (block_count m size)).
    { intros b Hb. destruct Hb as (Hb0 & Hb1 & Hb2). apply (Hmin b); [lia|]. done. }
    rewrite (reserve_full m size Hw Hs Hno). destruct (managerType m) eqn:Et; outcome.
    + split; [done|]. by right.
    + split; [done|]. by left.
    + right. split_and!; try done. destruct (zeroMemory m); [|done]. done.
Qed.

(** A manager of eight blocks of 16 bytes from address 0x100 on. *)
Definition small_manager : BitmapMemoryManager :=
  mkBitmapMemoryManager (mkMemoryManager 0x100 0x180 128 false) MISC (new_Bitmap 8) 16 true.

Lemma small_manager_wf : bmm_wf small_manager.
Proof. constructor; simpl; try lia. apply wf_new_Bitmap. unfold is_u32. lia. Qed.

Lemma bitmap_alloc_first_fit_witness :
  exists m' mem', alloc 20 small_manager (fun _ => 7) = Ret (0x100, m', mem') /\
    freeMemory (base m') = 96 /\ mem' 0x113 = 0.
Proof.
  pose proof (bitmap_alloc_first_fit small_manager 20 (fun _ => 7) small_manager_wf
    ltac:(lia) ltac:(vm_compute; split; [discriminate|reflexivity])) as H.
  destruct (alloc 20 small_manager (fun _ => 7)) as [[[p m'] mem']| | |] eqn:E;
    try (vm_compute in E; discriminate E).
  assert (Hp : p = 0x100) by (vm_compute in E; congruence). subst p.
  destruct H as [(r & _ & _ & _ & _ & _ & Hf & _ & _ & Hz & _)|[? _]]; [|discriminate].
  exists m', mem'. split_and!; [done|rewrite Hf; reflexivity|]. apply Hz; [done|lia].
Defined.

(** [free] gives back one block only. After an allocation of [k] blocks the
    blocks behind the first stay reserved; a one-block allocation is undone
    completely, the amount of free memory included. *)
Theorem bitmap_free_releases_first_block m size p count m1 :
  bmm_wf m -> 0 < size < 2 ^ 32 -> block_count m size * blockSize m <= freeMemory (base m) < 2 ^ 32 ->
  (exists b, free_run (bitmap m) b (block_count m size)) ->
  reserve size m = Ret (p, count, m1) ->
  exists r m2, p = address_of m r /\ free p m1 = Ret m2 /\
    (forall c, 0 <= c < blocks (bitmap m) ->
       bit (bitmap m2) c = (r <? c) && (c <? r + block_count m size) || bit (bitmap m) c) /\
    freeMemory (base m2) = freeMemory (base m) - (block_count m size - 1) * blockSize m.
Proof.
  intros Hw Hs Hfm Hex E. destruct (reserve_found m size Hw Hs Hex) as (r & Hr & _ & E').
  rewrite E' in E. injection E as <- <- <-. exists r.
  pose proof Hw as [Hwf Hbs H0 Hroom Hend]. pose proof Hr as (Hr0 & Hr1 & Hr2).
  pose proof (block_count_spec m size Hbs ltac:(lia)) as [Hk0 Hk]. destruct (wf_blocks _ Hwf).
  set (m1 := with_base _ _ m).
  assert (Hw1 : bmm_wf m1).
  { apply bmm_wf_base; try done; [by apply wf_setRange|by rewrite blocks_setRange]. }
  change (address_of m r) with (address_of m1 r).
  rewrite (free_block m1 r Hw1) by (simpl; rewrite blocks_setRange; lia).
  eexists. split; [done|]. split; [done|]. simpl. split.
  - intros c Hc. rewrite bit_unset; [|by apply wf_setRange|lia|by rewrite blocks_setRange].
    rewrite bit_setRange by (done || unfold is_u32; lia).
    destruct (Z.eqb_spec r c) as [<-|Hne]; case_bool; simpl; try lia; try done. by rewrite Hr2 by lia.
  - rewrite (u32_small (freeMemory (base m) - _)), u32_small by (unfold is_u32; nia). lia.
Qed.

Lemma bitmap_free_releases_first_block_witness :
  exists m1 m2, reserve 40 small_manager = Ret (0x100, 48, m1) /\ free 0x100 m1 = Ret m2 /\
    bit (bitmap m2) 0 = false /\ bit (bitmap m2) 1 = true /\ bit (bitmap m2) 2 = true /\
    freeMemory (base m2) = 96.
Proof.
  destruct (reserve 40 small_manager) as [[[p c] m1]| | |] eqn:E; try (vm_compute in E; discriminate E).
  assert (Hpc : p = 0x100 /\ c = 48) by (vm_compute in E; split; congruence). destruct Hpc as [-> ->].
  destruct (bitmap_free_releases_first_block small_manager 40 0x100 48 m1 small_manager_wf)
    as (r & m2 & Ep & Ef & Hb & Hf);
    [lia|vm_compute; split; [discriminate|reflexivity]| |exact E|].
  - exists 0. split_and!; [lia|vm_compute; discriminate|]. intros b _. apply bit_new_Bitmap.
  - assert (r = 0) as -> by (unfold address_of in Ep; simpl in Ep; lia).
    exists m1, m2. split_and!; [done|done| | | |rewrite Hf; reflexivity];
      (rewrite Hb; [reflexivity|simpl; lia]).
Defined.

(** ** The frames the kernel starts with *)

(** Frames below the end of reserved memory, the initial 4 MB heap, the 256
    kernel page tables, the first page directory and its table of addresses. *)
Definition boot_memory_end (physReservedMemoryEnd : Z) : Z :=
  physReservedMemoryEnd + 1024 * PAGESIZE + 258 * PAGESIZE.

Lemma init_bitmap start end_ flag m :
  0 < blockSize m -> is_u32 (end_ - start) ->
  exists m', init start end_ flag m = Ret m' /\ bitmap m' = new_Bitmap ((end_ - start) / blockSize m) /\
    memoryStartAddress (base m') = start /\ memoryEndAddress (base m') = end_ /\
    blockSize m' = blockSize m /\ managerType m' = managerType m.
Proof.
  intros Hb Hr. unfold init. decide_bool. rewrite (u32_small (end_ - start)) by done. eexists. by split_and!.
Qed.

(** The life of the allocator: frames are allocated, and freed unless they
    belong to the boot memory. *)
Inductive frame_step (rme : Z) : BitmapMemoryManager -> BitmapMemoryManager -> Prop :=
| frame_alloc m size p count m' :
    0 < size < 2 ^ 32 -> reserve size m = Ret (p, count, m') -> frame_step rme m m'
| frame_free m p m' :
    boot_memory_end rme <= p -> free p m = Ret m' -> frame_step rme m m'.

Definition frame_inv (rme : Z) (m : BitmapMemoryManager) : Prop :=
  bmm_wf m /\ blockSize m = PAGESIZE /\ memoryStartAddress (base m) = 0 /\
  managerType m = PAGE_FRAME_ALLOCATOR /\ (PAGESIZE | boot_memory_end rme) /\
  forall c, 0 <= c < blocks (bitmap m) -> c * PAGESIZE < boot_memory_end rme -> bit (bitmap m) c = true.

Lemma frame_inv_init rme end_ m0 :
  0 <= rme < 2 ^ 31 -> (0x400000 | rme) -> 0 <= end_ < 2 ^ 32 ->
  PageFrameAllocator_init rme 0 end_ false new_PageFrameAllocator = Ret m0 -> frame_inv rme m0.
Proof.
  intros Hr [k Hk] Hend Hi. unfold PageFrameAllocator_init in Hi.
  destruct (init_bitmap 0 end_ false new_PageFrameAllocator) as (m1 & E1 & Hbm & Hst & He & Hbs1 & Hty);
    [vm_compute; reflexivity|unfold is_u32; lia|].
  rewrite E1 in Hi. outcome. injection Hi as <-.
  change (blockSize new_PageFrameAllocator) with 0x1000 in *. rewrite Z.sub_0_r in *.
  assert (Hbl : is_u32 (end_ / 0x1000)).
  { split; [apply Z.div_pos; lia|]. apply Z.div_lt_upper_bound; lia. }
  assert (Hwf : Bitmap.wf (bitmap m1)) by (rewrite Hbm; by apply wf_new_Bitmap).
  assert (Hmax : (rme / PAGESIZE + 1024 + 256) / 32 = k * 32 + 40).
  { unfold PAGESIZE. rewrite Hk. replace (k * 0x400000) with (k * 1024 * 0x1000) by lia.
    rewrite Z.div_mul by lia. replace (k * 1024 + 1024 + 256) with ((k * 32 + 40) * 32) by lia.
    apply Z.div_mul. lia. }
  rewrite Hmax. split_and!; try done.
  - apply bmm_wf_base; try done; [|by apply wf_setRange|by rewrite blocks_setRange].
    constructor; try done; rewrite ?Hbs1, ?Hst, ?He, ?Hbm; simpl; try lia.
    pose proof (Z.mul_div_le end_ 0x1000 ltac:(lia)). lia.
  - exists (k * 1024 + 1024 + 258). unfold boot_memory_end, PAGESIZE. lia.
  - simpl. rewrite blocks_setRange. intros c Hc Hlt.
    rewrite bit_setRange; [|done|unfold is_u32; lia|lia|done].
    unfold boot_memory_end, PAGESIZE in Hlt. by decide_bool.
Qed.

(** An allocation from such a state lies above the boot memory. *)
Lemma frame_alloc_above rme m size p count m' :
  frame_inv rme m -> 0 < size < 2 ^ 32 -> reserve size m = Ret (p, count, m') ->
  boot_memory_end rme <= p /\ frame_inv rme m'.
Proof.
  intros (Hw & Hbs & Hst & Hty & Hal & Hboot) Hs E. pose proof Hw as [Hwf Hbs0 H0 Hroom Hend].
  pose proof (block_count_spec m size Hbs0 ltac:(lia)) as [Hk0 Hk].
  destruct (findAndSet_spec (bitmap m) (block_count m size)) as (r0 & bm0 & _ & Hmin & Hres);
    [done|pose proof (block_count_u32 m size Hbs0 Hs); lia|].
  destruct Hres as [(_ & Hrun & _)|(-> & _)].
  - destruct (reserve_found m size Hw Hs) as (r & Hr & _ & E'); [by exists r0|].
    rewrite E' in E. injection E as <- _ <-. destruct Hr as (Hr0 & Hr1 & Hr2). destruct (wf_blocks _ Hwf). split.
    + unfold address_of. rewrite Hst, Hbs. destruct (Z.le_gt_cases (boot_memory_end rme) (r * PAGESIZE)); [lia|].
      pose proof (Hr2 r ltac:(lia)) as Hr3. rewrite Hboot in Hr3; [done|lia|lia].
    + split_and!; try done.
      * apply bmm_wf_base; try done; [by apply wf_setRange|by rewrite blocks_setRange].
      * simpl. rewrite blocks_setRange. intros c Hc Hlt.
        rewrite bit_setRange, Hboot by (done || unfold is_u32; lia). apply orb_true_r.
  - rewrite (reserve_full m size Hw Hs), Hty in E; [done|].
    intros b (Hb0 & Hb1 & Hb2). apply (Hmin b); [lia|done].
Qed.

Lemma frame_inv_free rme m p m' :
  frame_inv rme m -> boot_memory_end rme <= p -> free p m = Ret m' -> frame_inv rme m'.
Proof.
  intros (Hw & Hbs & Hst & Hty & Hal & Hboot) Hp E. pose proof Hw as [Hwf Hbs0 H0 Hroom Hend].
  unfold free in E. rewrite Hst, Hbs, Z.sub_0_r in E.
  destruct ((p <? 0) || (memoryEndAddress (base m) <=? p)) eqn:Eb; [by injection E as <-|].
  apply orb_false_iff in Eb as [Hp0%Z.ltb_ge Hp1%Z.leb_gt]. simpl (PAGESIZE =? 0) in E.
  injection E as <-. rewrite (u32_small p) by (unfold is_u32; lia).
  assert (0 <= p / PAGESIZE) by (apply Z.div_pos; unfold PAGESIZE; lia).
  split_and!; try done.
  - apply bmm_wf_base; try done; [by apply wf_unset|by rewrite blocks_unset].
  - simpl. rewrite blocks_unset. intros c Hc Hlt. rewrite bit_unset, Hboot by done.
    assert (Hne : p / PAGESIZE <> c).
    { intros <-. destruct Hal as [q Hq]. rewrite Hq in *.
      pose proof (Z.div_le_lower_bound p PAGESIZE q ltac:(done)). unfold PAGESIZE in *. nia. }
    by decide_bool.
Qed.

Lemma frame_inv_steps rme m m' : frame_inv rme m -> rtc (frame_step rme) m m' -> frame_inv rme m'.
Proof.
  intros Hinv Hst. induction Hst as [|m1 m2 m3 H12 _ IH]; [done|]. apply IH.
  destruct H12 as [m size p count m' Hs E|m p m' Hp E].
  - by eapply frame_alloc_above.
  - by eapply frame_inv_free.
Qed.

(** After [PageFrameAllocator::init] with the end of reserved memory on a
    4 MB boundary (where [bootstrapPaging] moves it), no frame handed out
    overlaps the kernel image, the initial heap or the page tables built at
    boot, whatever has been allocated, and freed outside of them, before. *)
Theorem frames_above_boot_memory rme end_ m0 m size p count m' :
  0 <= rme < 2 ^ 31 -> (0x400000 | rme) -> 0 <= end_ < 2 ^ 32 ->
  PageFrameAllocator_init rme 0 end_ false new_PageFrameAllocator = Ret m0 ->
  rtc (frame_step rme) m0 m ->
  0 < size < 2 ^ 32 -> reserve size m = Ret (p, count, m') ->
  rme + 4 * 1024 * 1024 + 258 * PAGESIZE <= p.
Proof.
  intros Hr Hk Hend Hi Hst Hs E.
  pose proof (frame_inv_init _ _ _ Hr Hk Hend Hi) as Hinv.
  pose proof (frame_inv_steps _ _ _ Hinv Hst) as Hinv'.
  destruct (frame_alloc_above _ _ _ _ _ _ Hinv' Hs E) as [Hp _].
  unfold boot_memory_end, PAGESIZE in *. lia.
Qed.

Lemma frames_above_boot_memory_witness :
  exists m0 p count m', PageFrameAllocator_init 0x400000 0 0xA00000 false new_PageFrameAllocator = Ret m0 /\
    reserve 0x1000 m0 = Ret (p, count, m') /\ 0x400000 + 4 * 1024 * 1024 + 258 * PAGESIZE <= p.
Proof.
  destruct (PageFrameAllocator_init 0x400000 0 0xA00000 false new_PageFrameAllocator) as [m0| | |] eqn:E0;
    try (vm_compute in E0; discriminate E0).
  destruct (reserve 0x1000 m0) as [[[p count] m']| | |] eqn:E;
    try (vm_compute in E0; injection E0 as <-; vm_compute in E; discriminate E).
  exists m0, p, count, m'. split; [done|]. split; [done|].
  apply (frames_above_boot_memory 0x400000 0xA00000 m0 m0 0x1000 p count m');
    [lia|by exists 1|lia|exact E0|apply rtc_refl|lia|exact E].
Defined.

(** ** [IOMemoryManager] *)

Record io_wf (m : IO.IOMemoryManager) : Prop := {
  io_bmm : bmm_wf (IO.bmm m);
  io_block : blockSize (IO.bmm m) = PAGESIZE;
  io_start : 0 < memoryStartAddress (base (IO.bmm m));
  io_map : hm_inv (IO.ioMemoryMap m);
  io_count : Z.of_nat (base.size (hm_view (IO.ioMemoryMap m))) + 1 < 2 ^ 32;
  io_lock : IO.lock m = new_Spinlock;
  io_kind : managerType (IO.bmm m) = MISC
}.

(** The pages of a block of I/O memory, in order. *)
Definition pages_from (p n : Z) : list Z := (fun i => p + i * PAGESIZE) <$> seqZ 0 n.

Lemma seqZ_S i n : seqZ i (Z.of_nat (S n)) = i :: seqZ (i + 1) (Z.of_nat n).
Proof. rewrite seqZ_cons by lia. f_equal; f_equal; lia. Qed.

(** The loop of [free] resets the blocks and unmaps their pages one by one. *)
Lemma free_pages_spec n i r b log :
  bmm_wf b -> blockSize b = PAGESIZE -> 0 <= i -> 0 <= r -> r + i + Z.of_nat n <= blocks (bitmap b) ->
  exists b', IO.free_pages (fun v log => Ret (log ++ [v])) n i (address_of b r) b log
      = Ret (b', log ++ ((fun j => address_of b r + j * PAGESIZE) <$> seqZ i (Z.of_nat n))) /\
    bmm_wf b' /\ blockSize b' = PAGESIZE /\ blocks (bitmap b') = blocks (bitmap b) /\
    memoryStartAddress (base b') = memoryStartAddress (base b) /\
    (forall c, 0 <= c < blocks (bitmap b) ->
       bit (bitmap b') c = negb ((r + i <=? c) && (c <? r + i + Z.of_nat n)) && bit (bitmap b) c).
Proof.
  revert i b log. induction n as [|n IH]; intros i b log Hw Hbs Hi Hr Hlen.
  - exists b. simpl. rewrite app_nil_r. split_and!; try done. intros c Hc.
    destruct (bit (bitmap b) c); case_bool; simpl; try done; lia.
  - cbn [IO.free_pages]. pose proof Hw as [Hwf Hbs0 H0 Hroom Hend]. rewrite Hbs in *.
    unfold PAGESIZE in *.
    assert (Ha : u32 (address_of b r + i * 4096) = address_of b (r + i)).
    { unfold address_of. rewrite Hbs, u32_small; [lia|unfold is_u32; nia]. }
    rewrite Ha, free_block by (done || lia). outcome.
    set (b1 := with_base _ _ b).
    assert (Hw1 : bmm_wf b1).
    { apply bmm_wf_base; try done; [by apply wf_unset|by rewrite blocks_unset]. }
    assert (Hbl1 : blocks (bitmap b1) = blocks (bitmap b)) by apply blocks_unset.
    destruct (IH (i + 1) b1 (log ++ [address_of b (r + i)])) as (b' & E & Hw' & Hbs' & Hbl' & Hst' & Hbit);
      [done|done|lia|done|lia|].
    exists b'. change (address_of b1 r) with (address_of b r) in E. rewrite E, <- app_assoc.
    split_and!; [|done|done|congruence|done|].
    + rewrite seqZ_S, fmap_cons. replace (address_of b (r + i)) with (address_of b r + i * 4096)
        by (unfold address_of; rewrite Hbs; lia). done.
    + intros c Hc. rewrite Hbit by lia. unfold b1. simpl. rewrite bit_unset by (done || lia).
      destruct (bit (bitmap b) c); case_bool; simpl; try done; lia.
Qed.

(** I/O memory that is allocated and freed again is given back as a whole:
    every page of the block is unmapped once, in order, all bits of the bitmap
    are as before, and the size that was remembered for the address is
    forgotten. *)
Theorem io_alloc_free_roundtrip m size :
  io_wf m -> 0 < size < 2 ^ 32 ->
  (exists b, free_run (bitmap (IO.bmm m)) b (IO.page_count size)) ->
  exists p m1 m2, IO.alloc size m = Ret (p, m1) /\
    hm_view (IO.ioMemoryMap m1) !! p = Some (IO.page_count size) /\
    IO.free (fun v log => Ret (log ++ [v])) p m1 [] = Ret (m2, pages_from p (IO.page_count size)) /\
    (forall c, 0 <= c < blocks (bitmap (IO.bmm m)) ->
       bit (bitmap (IO.bmm m2)) c = bit (bitmap (IO.bmm m)) c) /\
    hm_view (IO.ioMemoryMap m2) = base.delete p (hm_view (IO.ioMemoryMap m)) /\
    IO.lock m2 = new_Spinlock.
Proof.
  intros [Hw Hbs Hst Hm Hc Hl _] Hs Hex.
  assert (Hpc : IO.page_count size = block_count (IO.bmm m) size) by (unfold block_count; by rewrite Hbs).
  rewrite Hpc in *. destruct (reserve_found _ _ Hw Hs Hex) as (r & Hr & _ & E).
  pose proof Hw as [Hwf Hbs0 H0 Hroom Hend]. pose proof Hr as (Hr0 & Hr1 & Hr2).
  pose proof (block_count_spec _ size Hbs0 ltac:(lia)) as [Hk0 Hk].
  set (k := block_count (IO.bmm m) size) in *. set (p := address_of (IO.bmm m) r) in *.
  assert (Hp : 0 < p) by (subst p; unfold address_of; nia).
  unfold IO.alloc. rewrite Hl. cbn -[reserve release]. rewrite E. outcome. decide_bool. rewrite Hpc.
  destruct (hm_put_spec (IO.ioMemoryMap m) p k Hm Hc) as (map1 & -> & Hm1 & Hv1). outcome.
  set (b1 := with_base _ _ (IO.bmm m)).
  assert (Hw1 : bmm_wf b1).
  { apply bmm_wf_base; try done; [by apply wf_setRange|by rewrite blocks_setRange]. }
  assert (Hbl : blocks (bitmap b1) = blocks (bitmap (IO.bmm m))) by apply blocks_setRange.
  pose proof (hm_get_spec map1 p Hm1) as Hg. rewrite Hv1, lookup_insert_eq in Hg.
  destruct Hg as (map2 & Eg & Hm2 & Hv2).
  pose proof (hm_remove_spec map2 p Hm2) as Hrm. rewrite Hv2, lookup_insert_eq in Hrm.
  destruct Hrm as (map3 & Er & Hm3 & Hv3).
  { rewrite map_size_insert. destruct (_ !! p); simpl; lia. }
  destruct (free_pages_spec (Z.to_nat k) 0 r b1 []) as (b2 & Ef & _ & _ & _ & _ & Hbit);
    [done|done|lia|done|lia|].
  rewrite Z2Nat.id in Ef, Hbit by lia.
  eexists p, _, (IO.mkIO b2 map3 new_Spinlock). split; [done|].
  split; [simpl; by rewrite Hv1, lookup_insert_eq|]. split_and!.
  - unfold IO.free. cbn [IO.bmm IO.ioMemoryMap IO.lock]. 
    change (memoryStartAddress (base b1)) with (memoryStartAddress (base (IO.bmm m))).
    change (memoryEndAddress (base b1)) with (memoryEndAddress (base (IO.bmm m))).
    assert (p < memoryEndAddress (base (IO.bmm m)) /\ memoryStartAddress (base (IO.bmm m)) <= p)
      by (subst p; unfold address_of; nia).
    decide_bool. cbn [orb]. rewrite Eg. outcome. cbn -[IO.free_pages remove release].
    change (address_of b1 r) with p in Ef. rewrite Ef. outcome. rewrite Er. outcome. done.
  - intros c Hc'. cbn [IO.bmm]. rewrite Hbit by lia. subst b1. simpl. rewrite Z.add_0_r in *.
    destruct (wf_blocks _ Hwf). rewrite bit_setRange by (done || unfold is_u32; lia).
    case_bool; simpl; try done. by rewrite Hr2 by lia.
  - simpl. by rewrite Hv3, delete_insert_eq.
  - done.
Qed.

(** The manager the kernel creates for its I/O window, on a small window. *)
Definition small_io : IO.IOMemoryManager :=
  IO.mkIO (mkBitmapMemoryManager (mkMemoryManager 0x10000 0x18000 0x8000 true) MISC (new_Bitmap 8)
             PAGESIZE false) new_HashMap new_Spinlock.

Lemma io_alloc_free_roundtrip_witness :
  exists p m1 m2, IO.alloc 0x2800 small_io = Ret (p, m1) /\
    IO.free (fun v log => Ret (log ++ [v])) p m1 [] = Ret (m2, [p; p + 0x1000; p + 0x2000]).
Proof.
  destruct (io_alloc_free_roundtrip small_io 0x2800) as (p & m1 & m2 & E1 & _ & E2 & _).
  - constructor.
    + constructor; first [apply wf_new_Bitmap; by vm_compute|by vm_compute].
    + done.
    + by vm_compute.
    + apply (hm_inv_new (K:=Z) (V:=Z) 47). lia.
    + by vm_compute.
    + done.
    + done.
  - lia.
  - exists 0. split_and!; [lia|by vm_compute|]. intros c _. apply bit_new_Bitmap.
  - exists p, m1, m2. split; [exact E1|]. rewrite E2. unfold pages_from. vm_compute (seqZ _ _). simpl.
    unfold PAGESIZE. repeat f_equal; lia.
Defined.

(** ** [StaticHeapMemoryManager] *)

Import StaticHeap.

(** Without alignment the position and the counter stay in step. *)
Record static_wf (m : StaticHeapMemoryManager) : Prop := {
  sw_start : 0 < memoryStartAddress (sbase m) <= currentPosition m;
  sw_sum : currentPosition m + freeMemory (sbase m) = memoryEndAddress (sbase m);
  sw_free : 0 <= freeMemory (sbase m);
  sw_end : memoryEndAddress (sbase m) < 2 ^ 32;
  sw_lock : slock m = new_Spinlock
}.

(** The static heap hands out consecutive pieces of its region: a request
    without alignment that the remaining memory holds gets the bytes right
    behind the previous ones, and the counter stays exact; any other request
    gets the null pointer and changes nothing. *)
Theorem static_heap_bump m size :
  static_wf m -> 0 <= size ->
  exists p m', StaticHeap.alloc size m = Ret (p, m') /\ static_wf m' /\
    ((size <= freeMemory (sbase m) /\ p = currentPosition m /\ currentPosition m' = p + size /\
      freeMemory (sbase m') = freeMemory (sbase m) - size /\ p + size <= memoryEndAddress (sbase m))
     \/ (freeMemory (sbase m) < size /\ p = 0 /\ m' = m)).
Proof.
  intros [Hs Hsum Hf He Hl] Hsz. unfold StaticHeap.alloc, alloc_aligned. split_guard.
  - exists 0, m. split_and!; [done|by constructor|by right].
  - rewrite Hl. cbn -[release]. rewrite !u32_small by (unfold is_u32; lia).
    eexists _, _. split; [done|]. split; [constructor; simpl; try done; lia|]. left. simpl. lia.
Qed.

Lemma static_heap_bump_witness :
  exists m', StaticHeap.alloc 10 (StaticHeap.init 0x100 0x200 false (mkStatic new_MemoryManager 0 new_Spinlock))
    = Ret (0x100, m') /\ currentPosition m' = 0x10a.
Proof.
  destruct (static_heap_bump (StaticHeap.init 0x100 0x200 false (mkStatic new_MemoryManager 0 new_Spinlock)) 10)
    as (p & m' & E & _ & [(_ & -> & Hp & _)|[Hlt _]]); [constructor; simpl; done || lia|lia| |].
  - exists m'. split; [exact E|]. rewrite Hp. reflexivity.
  - vm_compute in Hlt. discriminate.
Defined.

(** With an alignment the bytes skipped for it are not counted: when all the
    remaining memory is requested from a position that is not aligned, the
    request is granted and ends behind the region. *)
Theorem static_heap_padding_overruns m n :
  static_wf m -> 0 <= n < 32 -> currentPosition m + (2 ^ n - 1) < 2 ^ 32 ->
  currentPosition m mod 2 ^ n <> 0 ->
  exists p m', alloc_aligned (freeMemory (sbase m)) (2 ^ n) m = Ret (p, m') /\
    (2 ^ n | p) /\ memoryEndAddress (sbase m) < p + freeMemory (sbase m).
Proof.
  intros [Hs Hsum Hf He Hl] Hn Hr Hmod. unfold alloc_aligned. decide_bool. rewrite Hl. cbn -[release alignUp].
  destruct (alignUp_spec (currentPosition m) n) as [[k Hk] Hb]; [lia|done|done|].
  eexists _, _. split; [done|]. split; [by exists k|].
  destruct (Z.eq_dec (alignUp (currentPosition m) (2 ^ n)) (currentPosition m)) as [E|E]; [|lia].
  exfalso. apply Hmod. rewrite <- E, Hk. apply Z.mod_mul. lia.
Qed.

Lemma static_heap_padding_overruns_witness :
  exists p m', alloc_aligned 0xF0 16 (mkStatic (mkMemoryManager 0x100 0x1F1 0xF0 false) 0x101 new_Spinlock)
    = Ret (p, m') /\ 0x1F1 < p + 0xF0.
Proof.
  destruct (static_heap_padding_overruns
    (mkStatic (mkMemoryManager 0x100 0x1F1 0xF0 false) 0x101 new_Spinlock) 4) as (p & m' & E & _ & H);
    [constructor; simpl; done || lia|lia|by vm_compute|by vm_compute|].
  exists p, m'. split; [exact E|exact H].
Defined.
