(* ===== verification/Paging.v ===== *)
(** * Paging

    [kernel/memory/PageDirectory.cpp], [kernel/memory/Paging.cpp] and the part
    of [kernel/core/Management.cpp] that maps and unmaps pages. Page directories,
    page tables and the tables of their virtual addresses are words in the byte
    memory, at the addresses the code keeps; all address spaces share the kernel
    half, where these tables live, so one memory serves all directories.

    Touching a page of the paging area that is not mapped yet raises a page
    fault, whose handler maps it: [PageDirectory::map] of a page in a new table
    therefore runs [PageDirectory::map] again, for the page of that table. The
    recursion has fuel; [map_new_table] shows that two levels suffice. *)

From S2P Require Import Prelude MemoryUtil Memory Spinlock Bitmap HashMap MemoryManagers.
Import Layout.

(** ** State *)

Record PageDirectory := mkPageDirectory {
  pageDirectory : Z;
  physPageDirectoryAddress : Z;
  virtTableAddresses : Z
}.

(** The members of [Management] that paging uses. *)
Record Management := mkManagement {
  mem : Mem;
  currentDirectory : PageDirectory;
  basePageDirectory : PageDirectory;
  pageFrameAllocator : BitmapMemoryManager;
  pagingAreaManager : BitmapMemoryManager;
  ioMemManager : IO.IOMemoryManager
}.

Abbreviation MG := (ST Management).

Definition set_mem (m : Mem) (s : Management) : Management :=
  mkManagement m (currentDirectory s) (basePageDirectory s) (pageFrameAllocator s)
    (pagingAreaManager s) (ioMemManager s).
Definition set_frames (b : BitmapMemoryManager) (s : Management) : Management :=
  mkManagement (mem s) (currentDirectory s) (basePageDirectory s) b (pagingAreaManager s) (ioMemManager s).
Definition set_area (b : BitmapMemoryManager) (s : Management) : Management :=
  mkManagement (mem s) (currentDirectory s) (basePageDirectory s) (pageFrameAllocator s) b (ioMemManager s).
Definition set_io (b : IO.IOMemoryManager) (s : Management) : Management :=
  mkManagement (mem s) (currentDirectory s) (basePageDirectory s) (pageFrameAllocator s)
    (pagingAreaManager s) b.

Definition rd (a : Z) : MG Z := gets (fun s => load32 (mem s) a).
Definition wr (a v : Z) : MG unit := modify (fun s => set_mem (store32 (mem s) a v) s).

(** [p[i]] for a pointer to words. *)
Definition at_ (p i : Z) : Z := p + 4 * i.

Definition is_set (x flag : Z) : bool := negb (Z.land x flag =? 0).

(** ** Looking a page up *)

Definition getPhysicalAddress (dir : PageDirectory) (virtAddress : Z) : MG Z :=
  let pd_idx := GET_PD_IDX virtAddress in
  let pt_idx := GET_PT_IDX virtAddress in
  e ← rd (at_ (pageDirectory dir) pd_idx);
  if negb (is_set e PAGE_PRESENT) then mret 0
  else
    t ← rd (at_ (virtTableAddresses dir) pd_idx);
    p ← rd (at_ t pt_idx);
    if negb (is_set p PAGE_PRESENT) then mret 0
    else mret (Z.land p 0xFFFFF000).

(** ** Unmapping and protecting *)

Definition unmap (dir : PageDirectory) (virtAddress : Z) : MG Z :=
  let pd_idx := GET_PD_IDX virtAddress in
  let pt_idx := GET_PT_IDX virtAddress in
  e ← rd (at_ (pageDirectory dir) pd_idx);
  if negb (is_set e PAGE_PRESENT) then mret 0
  else
    t ← rd (at_ (virtTableAddresses dir) pd_idx);
    p ← rd (at_ t pt_idx);
    if negb (is_set p PAGE_PRESENT) then mret 0
    else if is_set p PAGE_WRITE_PROTECTED then mret 0
    else
      _ ← wr (at_ t pt_idx) 0;
      mret (Z.land p 0xFFFFF000).

Definition createTable (dir : PageDirectory) (idx physAddress virtAddress : Z) : MG unit :=
  _ ← wr (at_ (pageDirectory dir) idx) (Z.lor (Z.lor physAddress PAGE_PRESENT) PAGE_READ_WRITE);
  wr (at_ (virtTableAddresses dir) idx) virtAddress.

(** The common shape of [protectPage] and [unprotectPage]. *)
Definition change_entry (f : Z -> Z) (dir : PageDirectory) (virtAddress : Z) : MG unit :=
  let vaddr := Z.land virtAddress 0xFFFFF000 in
  let pd_idx := GET_PD_IDX vaddr in
  let pt_idx := GET_PT_IDX vaddr in
  e ← rd (at_ (pageDirectory dir) pd_idx);
  if negb (is_set e PAGE_PRESENT) then mret tt
  else
    t ← rd (at_ (virtTableAddresses dir) pd_idx);
    p ← rd (at_ t pt_idx);
    if negb (is_set p PAGE_PRESENT) then mret tt
    else wr (at_ t pt_idx) (f p).

Definition protectPage : PageDirectory -> Z -> MG unit :=
  change_entry (fun p => Z.lor p PAGE_WRITE_PROTECTED).
Definition unprotectPage : PageDirectory -> Z -> MG unit :=
  change_entry (fun p => Z.land p (u32 (Z.lnot PAGE_WRITE_PROTECTED))).

(** The loop [while (startAddr + i * PAGESIZE < endAddr)] of the range versions;
    it ends after at most [2^20] rounds. *)
Fixpoint page_range (fuel : nat) (body : Z -> MG unit) (i startAddr endAddr : Z) : MG unit :=
  match fuel with
  | O => diverge
  | S fuel =>
      if u32 (startAddr + i * PAGESIZE) <? endAddr then
        _ ← body (u32 (startAddr + i * PAGESIZE));
        page_range fuel body (i + 1) startAddr endAddr
      else mret tt
  end.

Definition protectPages (fuel : nat) (dir : PageDirectory) (virtStart virtEnd : Z) : MG unit :=
  page_range fuel (protectPage dir) 0 (Z.land virtStart 0xFFFFF000) (Z.land virtEnd 0xFFFFF000).
Definition unprotectPages (fuel : nat) (dir : PageDirectory) (virtStart virtEnd : Z) : MG unit :=
  page_range fuel (unprotectPage dir) 0 (Z.land virtStart 0xFFFFF000) (Z.land virtEnd 0xFFFFF000).

(** [writeProtectKernelCode]; the two linker symbols are arguments. *)
Fixpoint clear_rw (n : nat) (i t : Z) : MG unit :=
  match n with
  | O => mret tt
  | S n =>
      p ← rd (at_ t i);
      _ ← wr (at_ t i) (Z.land p (u32 (Z.lnot PAGE_READ_WRITE)));
      clear_rw n (i + 1) t
  end.

Definition writeProtectKernelCode (WRITE_PROTECTED_START WRITE_PROTECTED_END : Z) (dir : PageDirectory)
    : MG unit :=
  let idx := KERNEL_START / (PAGESIZE * 1024) in
  let writeProtectedStart := u32 (WRITE_PROTECTED_START - KERNEL_START) / PAGESIZE in
  let writeProtectedEnd := u32 (WRITE_PROTECTED_END - KERNEL_START) / PAGESIZE in
  let startIndex := writeProtectedStart / PAGESIZE in
  let endIndex := writeProtectedEnd / PAGESIZE in
  t ← rd (at_ (virtTableAddresses dir) idx);
  clear_rw (Z.to_nat (endIndex - startIndex)) startIndex t.

(** ** Mapping *)

(** [pageFrameAllocator->alloc(size)] *)
Definition alloc_frames (size : Z) : MG Z := fun s =>
  '(p, _, b) ← reserve size (pageFrameAllocator s); Ret (p, set_frames b s).

Definition free_frame (p : Z) : MG unit := fun s =>
  b ← MemoryManagers.free p (pageFrameAllocator s); Ret (tt, set_frames b s).

(** Whether the MMU finds a present entry for an address. *)
Definition is_mapped (dir : PageDirectory) (virtAddress : Z) : MG bool :=
  e ← rd (at_ (pageDirectory dir) (GET_PD_IDX virtAddress));
  if negb (is_set e PAGE_PRESENT) then mret false
  else
    t ← rd (at_ (virtTableAddresses dir) (GET_PD_IDX virtAddress));
    p ← rd (at_ t (GET_PT_IDX virtAddress));
    mret (is_set p PAGE_PRESENT).

(** [PagingAreaManager::alloc(PAGESIZE)]: the [memset] touches the page, and if
    it is not mapped the page fault handler maps it through [map_page], which
    stands for [PageDirectory::map]. *)
Definition alloc_table_page (map_page : PageDirectory -> Z -> Z -> Z -> MG unit) : MG Z :=
  tv ← (fun s => '(p, n, b) ← reserve PAGESIZE (pagingAreaManager s); Ret ((p, n), set_area b s));
  let '(tableAddress, count) := tv in
  cur ← gets currentDirectory;
  present ← is_mapped cur tableAddress;
  _ ← (if (present : bool) then mret tt
       else
         frame ← alloc_frames PAGESIZE;
         map_page cur frame tableAddress (Z.lor PAGE_PRESENT PAGE_READ_WRITE));
  _ ← modify (fun s => set_mem (memset tableAddress 0 count (mem s)) s);
  mret tableAddress.

(** [Management::createPageTable] *)
Definition createPageTable (map_page : PageDirectory -> Z -> Z -> Z -> MG unit)
    (dir : PageDirectory) (idx : Z) : MG unit :=
  virtAddress ← alloc_table_page map_page;
  cur ← gets currentDirectory;
  physAddress ← getPhysicalAddress cur virtAddress;
  createTable dir idx physAddress virtAddress.

(** [PageDirectory::map] *)
Fixpoint map (fuel : nat) (dir : PageDirectory) (physAddress virtAddress flags : Z) : MG unit :=
  match fuel with
  | O => diverge
  | S fuel =>
      let pd_idx := GET_PD_IDX virtAddress in
      let pt_idx := GET_PT_IDX virtAddress in
      e ← rd (at_ (pageDirectory dir) pd_idx);
      _ ← (if is_set e PAGE_PRESENT then mret tt else createPageTable (map fuel) dir pd_idx);
      t ← rd (at_ (virtTableAddresses dir) pd_idx);
      p ← rd (at_ t pt_idx);
      if is_set p PAGE_PRESENT then throw PAGING_ERROR
      else wr (at_ t pt_idx) (Z.lor physAddress flags)
  end.

(** The depth of the recursion of [map]. *)
Definition map_fuel : nat := 2.

(** ** [Management] *)

Definition mg_map (virtAddress flags : Z) : MG unit :=
  physAddress ← alloc_frames PAGESIZE;
  cur ← gets currentDirectory;
  map map_fuel cur physAddress virtAddress flags.

Definition mg_map_to (virtAddress flags physAddress : Z) : MG unit :=
  cur ← gets currentDirectory;
  map map_fuel cur physAddress virtAddress flags.


Fixpoint map_loop (fuel : nat) (i alignedEndAddress flags : Z) : MG unit :=
  match fuel with
  | O => diverge
  | S fuel =>
      if i <? alignedEndAddress then
        _ ← mg_map i flags; map_loop fuel (u32 (i + PAGESIZE)) alignedEndAddress flags
      else mret tt
  end.

Definition mg_map_range (fuel : nat) (virtStart virtEnd flags : Z) : MG unit :=
  let alignedStart := Z.land virtStart 0xFFFFF000 in
  let alignedEnd := u32 (Z.land virtEnd 0xFFFFF000 + (if virtEnd mod PAGESIZE =? 0 then 0 else PAGESIZE)) in
  map_loop fuel alignedStart alignedEnd flags.

Definition mg_unmap (virtAddress : Z) : MG Z :=
  cur ← gets currentDirectory;
  physAddress ← unmap cur virtAddress;
  if physAddress =? 0 then mret 0
  else _ ← free_frame physAddress; mret physAddress.

(** The loop of the range version gives up after three pages in a row that
    could not be unmapped; the counter is a [uint8_t]. *)
Fixpoint unmap_loop (n : nat) (i startVAddr cnt ret : Z) : MG Z :=
  match n with
  | O => mret ret
  | S n =>
      ret ← mg_unmap (u32 (startVAddr + i * PAGESIZE));
      let cnt := if ret =? 0 then u8 (cnt + 1) else 0 in
      if cnt =? 3 then mret ret else unmap_loop n (i + 1) startVAddr cnt ret
  end.

Definition mg_unmap_range (virtStart virtEnd : Z) : MG Z :=
  let startVAddr := u32 (Z.land virtStart 0xFFFFF000 + (if virtStart mod PAGESIZE =? 0 then 0 else PAGESIZE)) in
  let endVAddr := u32 (Z.land virtEnd 0xFFFFF000
                       - (if u32 (virtEnd + 1) mod PAGESIZE =? 0 then 0 else PAGESIZE)) in
  if endVAddr <? virtStart then mret 0
  else
    let pageCnt := u32 (u32 (endVAddr - startVAddr) / PAGESIZE + 1) in
    unmap_loop (Z.to_nat pageCnt) 0 startVAddr 0 0.

Definition mg_getPhysicalAddress (virtAddress : Z) : MG Z :=
  cur ← gets currentDirectory; getPhysicalAddress cur virtAddress.

Definition freePageTable (virtTableAddress : Z) : MG unit :=
  physAddress ← mg_getPhysicalAddress virtTableAddress;
  _ ← (fun s => b ← MemoryManagers.free virtTableAddress (pagingAreaManager s); Ret (tt, set_area b s));
  free_frame physAddress.

(** ** I/O memory *)

Fixpoint map_io_loop (n : nat) (i virtStart physStart : Z) : MG unit :=
  match n with
  | O => mret tt
  | S n =>
      let virtAddress := u32 (virtStart + i * PAGESIZE) in
      _ ← mg_unmap virtAddress;
      _ ← mg_map_to virtAddress (Z.lor (Z.lor PAGE_PRESENT PAGE_READ_WRITE) PAGE_NO_CACHING)
            (u32 (physStart + i * PAGESIZE));
      map_io_loop n (i + 1) virtStart physStart
  end.

Definition alloc_io (size : Z) : MG Z := fun s =>
  '(p, io) ← IO.alloc size (ioMemManager s); Ret (p, set_io io s).

Definition mapIO_at (physAddress size : Z) : MG Z :=
  virtStart ← alloc_io size;
  if virtStart =? 0 then throw OUT_OF_MEMORY
  else
    _ ← map_io_loop (Z.to_nat (IO.page_count size)) 0 virtStart physAddress;
    mret virtStart.

Definition mapIO (size : Z) : MG Z :=
  physStart ← alloc_frames size;
  virtStart ← alloc_io size;
  if virtStart =? 0 then throw OUT_OF_MEMORY
  else
    _ ← map_io_loop (Z.to_nat (IO.page_count size)) 0 virtStart physStart;
    mret virtStart.

(** [IOMemoryManager::free] unmaps through the same [Management]. *)
Definition freeIO (ptr : Z) : MG unit := fun s =>
  '(io, s') ← IO.free (fun v s0 => r ← mg_unmap v s0; Ret (snd r)) ptr (ioMemManager s) s;
  Ret (tt, set_io io s').

(** ** Construction of page directories *)

(** [n] rounds of a loop that counts up from [i]. *)
Fixpoint for_loop (n : nat) (i : Z) (body : Z -> MG unit) : MG unit :=
  match n with
  | O => mret tt
  | S n => _ ← body i; for_loop n (i + 1) body
  end.

Definition KERNEL_IDX : Z := KERNEL_START / (PAGESIZE * 1024).
Definition RW_ALL : Z := Z.lor (Z.lor PAGE_PRESENT PAGE_READ_WRITE) PAGE_ACCESS_ALL.

(** The first loop: the 256 directory entries of the kernel half. *)
Definition kernel_entry (reservedMemoryEnd : Z) (dir : PageDirectory) (i : Z) : MG unit :=
  _ ← wr (at_ (pageDirectory dir) (KERNEL_IDX + i))
         (Z.lor (u32 (reservedMemoryEnd + PAGESIZE * 1024 + i * PAGESIZE)) RW_ALL);
  wr (at_ (virtTableAddresses dir) (KERNEL_IDX + i)) (VIRT_PAGE_MEM_START + i * PAGESIZE).

(** The second loop: the image and the initial heap; the image is protected. *)
Definition image_entry (reservedMemoryEnd : Z) (dir : PageDirectory) (i : Z) : MG unit :=
  t ← rd (at_ (virtTableAddresses dir) KERNEL_IDX);
  _ ← wr (at_ t i) (Z.lor (u32 (i * PAGESIZE)) RW_ALL);
  if i <? reservedMemoryEnd / PAGESIZE then
    p ← rd (at_ t i); wr (at_ t i) (Z.lor p PAGE_WRITE_PROTECTED)
  else mret tt.

(** The third loop: the tables themselves. *)
Definition area_entry (reservedMemoryEnd : Z) (dir : PageDirectory) (i : Z) : MG unit :=
  t ← rd (at_ (virtTableAddresses dir) (VIRT_PAGE_MEM_START / (PAGESIZE * 1024)));
  wr (at_ t i) (Z.lor (u32 (reservedMemoryEnd + PAGESIZE * 1024 + i * PAGESIZE))
                 (Z.lor (Z.lor PAGE_PRESENT PAGE_READ_WRITE) PAGE_WRITE_PROTECTED)).

(** [PageDirectory()]: the counter of the second loop is a [uint16_t], so that
    it never ends for more than 65535 pages. *)
Definition new_base_PageDirectory (reservedMemoryEnd : Z) : MG PageDirectory :=
  let pageCount := reservedMemoryEnd / PAGESIZE + 1024 in
  let dir := mkPageDirectory (VIRT_PAGE_MEM_START + 0x100000)
               (u32 (reservedMemoryEnd + PAGESIZE * 1024 + 0x100000))
               (VIRT_PAGE_MEM_START + 0x101000) in
  _ ← modify (fun s => set_mem (memset VIRT_PAGE_MEM_START 0 (PAGESIZE * 1024) (mem s)) s);
  _ ← for_loop 256 0 (kernel_entry reservedMemoryEnd dir);
  _ ← (if 2 ^ 16 - 1 <? pageCount then diverge
       else for_loop (Z.to_nat pageCount) 0 (image_entry reservedMemoryEnd dir));
  _ ← for_loop 258 0 (area_entry reservedMemoryEnd dir);
  mret dir.

(** [allocPageTable] is [PagingAreaManager::alloc]. *)
Definition allocPageTable : MG Z := alloc_table_page (map map_fuel).

(** One round of the loop that copies the kernel half. *)
Definition copy_kernel_entry (dir base : PageDirectory) (idx : Z) : MG unit :=
  e ← rd (at_ (pageDirectory base) idx);
  _ ← wr (at_ (pageDirectory dir) idx) e;
  t ← rd (at_ (virtTableAddresses base) idx);
  wr (at_ (virtTableAddresses dir) idx) t.

(** [PageDirectory(basePageDirectory)]; [allocPageTable] throws rather than
    return the null pointer, so the error branch is not reached. *)
Definition new_PageDirectory (base : PageDirectory) : MG PageDirectory :=
  pd ← allocPageTable;
  vt ← allocPageTable;
  phys ← mg_getPhysicalAddress pd;
  let dir := mkPageDirectory pd phys vt in
  _ ← for_loop (Z.to_nat (1024 - KERNEL_IDX)) KERNEL_IDX (copy_kernel_entry dir base);
  mret dir.

(** [~PageDirectory()] *)
Definition delete_PageDirectory (dir : PageDirectory) : MG unit :=
  _ ← for_loop (Z.to_nat (KERNEL_START / PAGESIZE)) 0 (fun i => _ ← unmap dir (i * PAGESIZE); mret tt);
  _ ← for_loop (Z.to_nat KERNEL_IDX) 0
        (fun idx => t ← rd (at_ (virtTableAddresses dir) idx); freePageTable t);
  _ ← freePageTable (virtTableAddresses dir);
  freePageTable (pageDirectory dir).

(** ** [bootstrapPaging]

    The two 4 MB directories used until 4 KB paging is enabled; memory is not
    translated yet, [reserved] is the address of [physReservedMemoryEnd]. *)

Definition BIG_PAGE : Z := PAGESIZE * 1024.
Definition BIG_FLAGS : Z := Z.lor (Z.lor (Z.lor PAGE_PRESENT PAGE_READ_WRITE) PAGE_SIZE_MiB) PAGE_ACCESS_SUPERVISOR.

Definition bootstrapPaging (directory biosDirectory reserved : Z) (m : Mem) : Mem :=
  let kernelPage := Z.shiftr KERNEL_START 22 in
  let alignment := BIG_PAGE - 1 in
  let m := store32 m reserved (Z.land (u32 (load32 m reserved + alignment)) (u32 (Z.lnot alignment))) in
  let pageCount := load32 m reserved / BIG_PAGE in
  let m := upto (Z.to_nat pageCount) 0
    (fun i m =>
       let e := Z.lor (u32 (i * BIG_PAGE)) BIG_FLAGS in
       let m := store32 m (at_ directory i) e in
       let m := store32 m (at_ directory (kernelPage + i)) e in
       let m := store32 m (at_ biosDirectory i) e in
       store32 m (at_ biosDirectory (kernelPage + i)) e) m in
  let m := store32 m (at_ directory (kernelPage + pageCount)) (Z.lor (u32 (pageCount * BIG_PAGE)) BIG_FLAGS) in
  store32 m (at_ directory (VIRT_PAGE_MEM_START / BIG_PAGE))
    (Z.lor (u32 ((pageCount + 1) * BIG_PAGE)) BIG_FLAGS).

(** ** The translation a directory describes *)

Definition present (m : Mem) (dir : PageDirectory) (i : Z) : bool :=
  is_set (load32 m (at_ (pageDirectory dir) i)) PAGE_PRESENT.
Definition table (m : Mem) (dir : PageDirectory) (i : Z) : Z :=
  load32 m (at_ (virtTableAddresses dir) i).

(** The page table entry of an address, 0 where there is no table. *)
Definition entry (m : Mem) (dir : PageDirectory) (v : Z) : Z :=
  if present m dir (GET_PD_IDX v) then load32 m (at_ (table m dir (GET_PD_IDX v)) (GET_PT_IDX v)) else 0.

Definition page (v : Z) : Z := v / PAGESIZE.

(** Distinct tables of a directory are distinct pages, none of which is the
    directory itself or its table of addresses. *)
Record dir_ok (m : Mem) (dir : PageDirectory) : Prop := {
  do_pd : (PAGESIZE | pageDirectory dir);
  do_vt : (PAGESIZE | virtTableAddresses dir);
  do_ne : pageDirectory dir <> virtTableAddresses dir;
  do_table : forall i, 0 <= i < 1024 -> present m dir i = true ->
    (PAGESIZE | table m dir i) /\ table m dir i <> pageDirectory dir /\
    table m dir i <> virtTableAddresses dir;
  do_inj : forall i j, 0 <= i < 1024 -> 0 <= j < 1024 -> i <> j ->
    present m dir i = true -> present m dir j = true -> table m dir i <> table m dir j
}.

(** ** Arithmetic of addresses *)

Lemma PD_IDX_div v : GET_PD_IDX v = v / 2 ^ 22.
Proof. unfold GET_PD_IDX. by rewrite Z.shiftr_div_pow2 by lia. Qed.

Lemma PT_IDX_mod v : GET_PT_IDX v = v / 2 ^ 12 mod 2 ^ 10.
Proof.
  unfold GET_PT_IDX. rewrite Z.shiftr_div_pow2 by lia.
  change 0x3FF with (Z.ones 10). by rewrite Z.land_ones by lia.
Qed.

Lemma PD_IDX_range v : is_u32 v -> 0 <= GET_PD_IDX v < 1024.
Proof.
  intros [? ?]. rewrite PD_IDX_div. split; [apply Z.div_pos; lia|apply Z.div_lt_upper_bound; lia].
Qed.

Lemma PT_IDX_range v : 0 <= GET_PT_IDX v < 1024.
Proof. rewrite PT_IDX_mod. change 1024 with (2 ^ 10). apply Z.mod_pos_bound. lia. Qed.

(** The two indices determine the page. *)
Lemma same_page v w :
  GET_PD_IDX v = GET_PD_IDX w /\ GET_PT_IDX v = GET_PT_IDX w <-> page v = page w.
Proof.
  rewrite !PD_IDX_div, !PT_IDX_mod. unfold page, PAGESIZE. change 0x1000 with (2 ^ 12).
  replace (v / 2 ^ 22) with (v / 2 ^ 12 / 2 ^ 10) by (rewrite Z.div_div by lia; done).
  replace (w / 2 ^ 22) with (w / 2 ^ 12 / 2 ^ 10) by (rewrite Z.div_div by lia; done).
  pose proof (Z.div_mod (v / 2 ^ 12) (2 ^ 10) ltac:(lia)).
  pose proof (Z.div_mod (w / 2 ^ 12) (2 ^ 10) ltac:(lia)).
  split; [intros [E1 E2]; congruence|by intros ->].
Qed.

Lemma page_mask x : is_u32 x -> Z.land x 0xFFFFF000 = x - x mod PAGESIZE.
Proof.
  intros H. change 0xFFFFF000 with (u32 (Z.lnot (2 ^ 12 - 1))).
  rewrite (land_not_ones x 12) by (done || lia). done.
Qed.

(** The address part of an entry. *)
Lemma entry_address phys flags :
  is_u32 phys -> (PAGESIZE | phys) -> 0 <= flags < PAGESIZE ->
  Z.land (Z.lor phys flags) 0xFFFFF000 = phys.
Proof.
  intros Hp [k ->] Hf. rewrite Z.land_lor_distr_l, !page_mask by (done || unfold is_u32, PAGESIZE in *; lia).
  rewrite Z.mod_mul by done. rewrite (Z.mod_small flags) by done.
  rewrite Z.sub_0_r, Z.sub_diag. apply Z.lor_0_r.
Qed.

Lemma is_set_testbit x n : 0 <= n -> is_set x (2 ^ n) = Z.testbit x n.
Proof.
  intros Hn. unfold is_set. destruct (Z.eqb_spec (Z.land x (2 ^ n)) 0) as [E|E].
  - symmetry. assert (Z.testbit (Z.land x (2 ^ n)) n = false) as H by (by rewrite E, Z.bits_0).
    rewrite Z.land_spec, Z.pow2_bits_true, andb_true_r in H by done. done.
  - symmetry. destruct (Z.testbit x n) eqn:Ex; [done|]. exfalso. apply E. apply Z.bits_inj'. intros i Hi.
    rewrite Z.land_spec, Z.bits_0, Z.pow2_bits_eqb by done.
    destruct (Z.eqb_spec n i) as [<-|]; [by rewrite Ex|apply andb_false_r].
Qed.

Lemma is_set_0 flag : is_set 0 flag = false.
Proof. done. Qed.

Lemma is_set_lor x y flag : is_set (Z.lor x y) flag = is_set x flag || is_set y flag.
Proof.
  unfold is_set. rewrite Z.land_lor_distr_l.
  destruct (Z.eqb_spec (Z.lor (Z.land x flag) (Z.land y flag)) 0) as [E|E].
  - apply Z.lor_eq_0_iff in E as [-> ->]. done.
  - destruct (Z.eqb_spec (Z.land x flag) 0) as [Ex|]; [|done]. simpl.
    destruct (Z.eqb_spec (Z.land y flag) 0) as [Ey|]; [|done]. by rewrite Ex, Ey in E.
Qed.

(** Words of two different pages do not overlap. *)
Lemma words_apart p q i j :
  (PAGESIZE | p) -> (PAGESIZE | q) -> 0 <= i < 1024 -> 0 <= j < 1024 -> p <> q \/ i <> j ->
  at_ p i + 4 <= at_ q j \/ at_ q j + 4 <= at_ p i.
Proof. intros [k ->] [l ->] Hi Hj Hne. unfold at_, PAGESIZE in *. nia. Qed.

(** ** Changing one entry *)

(** Writing an entry of an existing table. *)
Lemma write_entry_dir m dir v w p i :
  dir_ok m dir -> is_u32 v -> present m dir (GET_PD_IDX v) = true ->
  p = pageDirectory dir \/ p = virtTableAddresses dir -> 0 <= i < 1024 ->
  load32 (store32 m (at_ (table m dir (GET_PD_IDX v)) (GET_PT_IDX v)) w) (at_ p i) = load32 m (at_ p i).
Proof.
  intros [Hpd Hvt Hne Ht Hinj] Hv Hp Hdir Hi.
  pose proof (PD_IDX_range v Hv) as Hiv. pose proof (PT_IDX_range v) as Hj.
  destruct (Ht _ Hiv Hp) as (Hta & Htp & Htv).
  destruct Hdir as [->| ->]; (rewrite load_store32_ne; [done|apply words_apart; try done; left; congruence]).
Qed.

Lemma write_entry m dir v w :
  dir_ok m dir -> is_u32 v -> is_u32 w -> present m dir (GET_PD_IDX v) = true ->
  let m' := store32 m (at_ (table m dir (GET_PD_IDX v)) (GET_PT_IDX v)) w in
  dir_ok m' dir /\
  forall u, is_u32 u -> entry m' dir u = if decide (page u = page v) then w else entry m dir u.
Proof.
  intros Hok Hv Hw Hp m'.
  assert (Hpres : forall i, 0 <= i < 1024 -> present m' dir i = present m dir i).
  { intros i Hi'. unfold present, m'. by rewrite write_entry_dir by auto. }
  assert (Htab : forall i, 0 <= i < 1024 -> table m' dir i = table m dir i).
  { intros i Hi'. unfold table at 1, m'. by rewrite write_entry_dir by auto. }
  destruct Hok as [Hpd Hvt Hne Ht Hinj].
  pose proof (PD_IDX_range v Hv) as Hi. pose proof (PT_IDX_range v) as Hj.
  destruct (Ht _ Hi Hp) as (Hta & Htp & Htv).
  split.
  - constructor; try done.
    + intros i Hi'. rewrite Hpres, Htab by done. by apply Ht.
    + intros i j Hi' Hj'. rewrite !Hpres, !Htab by done. by apply Hinj.
  - intros u Hu. pose proof (PD_IDX_range u Hu) as Hiu. pose proof (PT_IDX_range u) as Hju.
    unfold entry at 1. rewrite Hpres, Htab by done. case_decide as E.
    + apply same_page in E as [E1 E2]. rewrite E1, E2, Hp. unfold m'. by rewrite load_store32_eq.
    + unfold entry. destruct (present m dir (GET_PD_IDX u)) eqn:Eu; [|done].
      unfold m'. rewrite load_store32_ne; [done|]. destruct (Ht _ Hiu Eu) as (Htu & _ & _).
      apply words_apart; try done.
      destruct (decide (GET_PD_IDX u = GET_PD_IDX v)) as [E1|E1].
      * right. intros E2. apply E, same_page. done.
      * left. by apply Hinj.
Qed.

(** ** What the operations do, in terms of entries *)

Lemma getPhysicalAddress_entry dir v s :
  getPhysicalAddress dir v s =
  Ret (if is_set (entry (mem s) dir v) PAGE_PRESENT then Z.land (entry (mem s) dir v) 0xFFFFF000 else 0, s).
Proof.
  unfold getPhysicalAddress, entry, present, table, rd. st_step.
  destruct (is_set (load32 (mem s) (at_ (pageDirectory dir) (GET_PD_IDX v))) PAGE_PRESENT); simpl; [|done].
  by destruct (is_set (load32 (mem s) _) PAGE_PRESENT).
Qed.

Lemma unmap_entry dir v s :
  let e := entry (mem s) dir v in
  unmap dir v s =
  if is_set e PAGE_PRESENT && negb (is_set e PAGE_WRITE_PROTECTED)
  then Ret (Z.land e 0xFFFFF000,
            set_mem (store32 (mem s) (at_ (table (mem s) dir (GET_PD_IDX v)) (GET_PT_IDX v)) 0) s)
  else Ret (0, s).
Proof.
  unfold unmap, entry, present, table, rd, wr. st_step.
  destruct (is_set (load32 (mem s) (at_ (pageDirectory dir) (GET_PD_IDX v))) PAGE_PRESENT); simpl; [|done].
  destruct (is_set (load32 (mem s) _) PAGE_PRESENT); simpl; [|done].
  by destruct (is_set (load32 (mem s) _) PAGE_WRITE_PROTECTED).
Qed.

Lemma land_mask_page v : is_u32 v -> page (Z.land v 0xFFFFF000) = page v /\ is_u32 (Z.land v 0xFFFFF000).
Proof.
  intros Hv. rewrite page_mask by done. unfold page, PAGESIZE, is_u32 in *.
  pose proof (Z.div_mod v 0x1000 ltac:(lia)). pose proof (Z.mod_pos_bound v 0x1000 ltac:(lia)).
  split; [|lia]. replace (v - v mod 0x1000) with (v / 0x1000 * 0x1000) by lia. apply Z.div_mul. lia.
Qed.

Lemma entry_page m dir v w : page v = page w -> entry m dir v = entry m dir w.
Proof. intros [E1 E2]%same_page. unfold entry. by rewrite E1, E2. Qed.

Lemma change_entry_entry f dir v s :
  is_u32 v ->
  let e := entry (mem s) dir v in
  change_entry f dir v s =
  if is_set e PAGE_PRESENT
  then Ret (tt, set_mem (store32 (mem s) (at_ (table (mem s) dir (GET_PD_IDX v)) (GET_PT_IDX v)) (f e)) s)
  else Ret (tt, s).
Proof.
  intros Hv e. destruct (land_mask_page v Hv) as [Hpg _].
  subst e. rewrite <- (entry_page (mem s) dir (Z.land v 0xFFFFF000) v Hpg).
  apply same_page in Hpg as [<- <-].
  unfold change_entry, entry, present, table, rd, wr. st_step.
  destruct (is_set (load32 (mem s) (at_ (pageDirectory dir) _)) PAGE_PRESENT); simpl; [|done].
  by destruct (is_set (load32 (mem s) _) PAGE_PRESENT).
Qed.

(** A present entry lies in a present table. *)
Lemma entry_present m dir v : is_set (entry m dir v) PAGE_PRESENT = true -> present m dir (GET_PD_IDX v) = true.
Proof. unfold entry. by destruct (present m dir (GET_PD_IDX v)). Qed.

Lemma entry_range m dir v : bytes m -> is_u32 (entry m dir v).
Proof. intros Hb. unfold entry. destruct (present _ _ _); [by apply load32_range|by vm_compute]. Qed.

Lemma map_S fuel dir phys v flags :
  map (S fuel) dir phys v flags =
    (e ← rd (at_ (pageDirectory dir) (GET_PD_IDX v));
     _ ← (if is_set e PAGE_PRESENT then mret tt else createPageTable (map fuel) dir (GET_PD_IDX v));
     t ← rd (at_ (virtTableAddresses dir) (GET_PD_IDX v));
     p ← rd (at_ t (GET_PT_IDX v));
     if is_set p PAGE_PRESENT then throw PAGING_ERROR
     else wr (at_ t (GET_PT_IDX v)) (Z.lor phys flags)).
Proof. reflexivity. Qed.

(** [map] into an existing table. *)
Lemma map_existing fuel dir phys v flags s :
  present (mem s) dir (GET_PD_IDX v) = true ->
  map (S fuel) dir phys v flags s =
  if is_set (entry (mem s) dir v) PAGE_PRESENT then Throw PAGING_ERROR
  else Ret (tt, set_mem (store32 (mem s) (at_ (table (mem s) dir (GET_PD_IDX v)) (GET_PT_IDX v))
                           (Z.lor phys flags)) s).
Proof.
  intros Hp. rewrite map_S. unfold rd, wr. st_step. fold (present (mem s) dir (GET_PD_IDX v)). rewrite Hp.
  fold (table (mem s) dir (GET_PD_IDX v)). unfold entry. rewrite Hp. by destruct (is_set _ _).
Qed.

(** ** A new table *)

(** A page of the paging area that is in use. *)
Definition owned (s : Management) (p : Z) : Prop :=
  let a := pagingAreaManager s in
  exists b, 0 <= b < blocks (bitmap a) /\ p = address_of a b /\ bit (bitmap a) b = true.

(** The paging area: a bitmap manager over pages of the kernel half in which all
    pages of the directory are marked. *)
Record area_ok (s : Management) (dir : PageDirectory) : Prop := {
  ao_wf : bmm_wf (pagingAreaManager s);
  ao_block : blockSize (pagingAreaManager s) = PAGESIZE;
  ao_kernel : KERNEL_START <= memoryStartAddress (base (pagingAreaManager s));
  ao_aligned : (PAGESIZE | memoryStartAddress (base (pagingAreaManager s)));
  ao_pd : owned s (pageDirectory dir);
  ao_vt : owned s (virtTableAddresses dir);
  ao_tables : forall i, 0 <= i < 1024 -> present (mem s) dir i = true -> owned s (table (mem s) dir i)
}.

(** Two directories with the same kernel half. *)
Definition shares_kernel (m : Mem) (dir cur : PageDirectory) : Prop :=
  forall i, KERNEL_IDX <= i < 1024 ->
    present m dir i = true /\ present m cur i = true /\ table m dir i = table m cur i.

Lemma KERNEL_IDX_val : KERNEL_IDX = 768.
Proof. reflexivity. Qed.

(** What [memset] and [createTable] do to a directory: the table of [idx] is the
    fresh page [t], all of whose entries are empty. *)
Lemma fresh_table m dir idx t phys :
  dir_ok m dir -> (PAGESIZE | t) -> is_u32 t -> 0 <= idx < 1024 -> is_u32 phys -> present m dir idx = false ->
  t <> pageDirectory dir -> t <> virtTableAddresses dir ->
  (forall i, 0 <= i < 1024 -> present m dir i = true -> table m dir i <> t) ->
  let m' := store32 (store32 (memset t 0 PAGESIZE m) (at_ (pageDirectory dir) idx)
                       (Z.lor (Z.lor phys PAGE_PRESENT) PAGE_READ_WRITE))
                    (at_ (virtTableAddresses dir) idx) t in
  dir_ok m' dir /\ present m' dir idx = true /\ table m' dir idx = t /\
  load32 m' (at_ (pageDirectory dir) idx) = Z.lor (Z.lor phys PAGE_PRESENT) PAGE_READ_WRITE /\
  forall u, is_u32 u -> entry m' dir u = entry m dir u.
Proof.
  intros [Hpd Hvt Hne Ht Hinj] Hta Htr Hidx Hph Hnp Htp Htv Hfresh.
  assert (Hset : forall p i, (PAGESIZE | p) -> p <> t -> 0 <= i < 1024 ->
    load32 (memset t 0 PAGESIZE m) (at_ p i) = load32 m (at_ p i)).
  { intros p i [k ->] Hpt Hi. apply load32_ext. intros x Hx. apply memset_outside.
    destruct Hta as [l ->]. unfold at_, PAGESIZE in *. nia. }
  assert (Hzero : forall i, 0 <= i < 1024 -> load32 (memset t 0 PAGESIZE m) (at_ t i) = 0).
  { intros i Hi. unfold load32, at_, PAGESIZE. rewrite !memset_inside by lia. done. }
  generalize dependent (memset t 0 PAGESIZE m). intros m2 Hset Hzero m'.
  assert (Hpres : forall i, 0 <= i < 1024 -> present m' dir i = if decide (i = idx) then true else present m dir i).
  { intros i Hi. unfold present, m'. rewrite load_store32_ne by (apply words_apart; try done; by left).
    case_decide as E.
    - subst i. rewrite load_store32_eq by (repeat apply is_u32_lor; done).
      rewrite !is_set_lor. simpl. by rewrite orb_true_r.
    - rewrite load_store32_ne by (apply words_apart; try done; by right). by rewrite Hset by done. }
  assert (Htab : forall i, 0 <= i < 1024 -> table m' dir i = if decide (i = idx) then t else table m dir i).
  { intros i Hi. unfold table at 1, m'. case_decide as E.
    - subst i. by rewrite load_store32_eq.
    - rewrite load_store32_ne by (apply words_apart; try done; by right).
      rewrite load_store32_ne by (apply words_apart; try done; left; congruence). by rewrite Hset by done. }
  split_and!.
  - constructor; try done.
    + intros i Hi. rewrite Hpres, Htab by done. case_decide; [done|]. by apply Ht.
    + intros i j Hi Hj Hij. rewrite !Hpres, !Htab by done. repeat case_decide; try congruence.
      * intros _ Hj'. specialize (Hfresh j Hj Hj'). congruence.
      * intros Hi' _. by apply Hfresh.
      * by apply Hinj.
  - rewrite Hpres by done. by rewrite decide_True.
  - rewrite Htab by done. by rewrite decide_True.
  - unfold m'. rewrite load_store32_ne by (apply words_apart; try done; by left).
    apply load_store32_eq. by repeat apply is_u32_lor.
  - intros u Hu. pose proof (PD_IDX_range u Hu) as Hiu. pose proof (PT_IDX_range u) as Hju.
    unfold entry. rewrite Hpres, Htab by done. case_decide as E.
    + rewrite E, Hnp. unfold m'. rewrite !load_store32_ne by (apply words_apart; try done; by left).
      by apply Hzero.
    + destruct (present m dir (GET_PD_IDX u)) eqn:Eu; [|done]. destruct (Ht _ Hiu Eu) as (Htu & Htup & Htuv).
      unfold m'. rewrite !load_store32_ne by (apply words_apart; try done; by left).
      rewrite Hset; [done|done|by apply Hfresh|done].
Qed.

(** The page the paging area hands out is not a page of the directory. *)
Lemma reserve_fresh s dir t n a :
  area_ok s dir -> reserve PAGESIZE (pagingAreaManager s) = Ret (t, n, a) -> t <> 0 ->
  n = PAGESIZE /\ (PAGESIZE | t) /\ is_u32 t /\ KERNEL_START <= t /\
  (forall p, owned s p -> p <> t).
Proof.
  intros [Hw Hbs Hks Hal _ _ _] E Hnz. pose proof Hw as [Hwf Hb0 H0 Hroom Hend].
  set (bmm := pagingAreaManager s) in *.
  assert (Hk : block_count bmm PAGESIZE = 1) by (unfold block_count; by rewrite Hbs).
  assert (Hex : exists b, free_run (bitmap bmm) b (block_count bmm PAGESIZE)).
  { destruct (findAndSet_spec (bitmap bmm) (block_count bmm PAGESIZE)) as (r & bm' & _ & Hmin & Hres);
      [done|rewrite Hk; lia|]. destruct Hres as [(_ & Hrun & _)|[-> _]]; [by exists r|].
    rewrite (reserve_full bmm PAGESIZE Hw) in E; [|unfold PAGESIZE; lia|].
    - destruct (managerType bmm); try done. injection E as <- _ _. done.
    - intros b (? & ? & ?). apply (Hmin b); [rewrite Hk in *; lia|done]. }
  destruct (reserve_found bmm PAGESIZE Hw) as (r & (Hr0 & Hr1 & Hr2) & _ & E'); [unfold PAGESIZE; lia|done|].
  rewrite E' in E. rewrite Hk, Hbs in *. injection E as <- <- _.
  unfold address_of. rewrite Hbs. unfold PAGESIZE, KERNEL_START in *. split_and!; try lia.
  - destruct Hal as [k ->]. exists (k + r). lia.
  - unfold is_u32. lia.
  - intros p (b & Hb & -> & Hbit) Heq. unfold address_of in Heq. fold bmm in Heq. rewrite Hbs in Heq.
    assert (b = r) as -> by lia. fold bmm in Hbit. rewrite Hr2 in Hbit; [done|lia].
Qed.

Lemma PD_IDX_kernel t : is_u32 t -> KERNEL_START <= t -> KERNEL_IDX <= GET_PD_IDX t < 1024.
Proof.
  intros Hu Ht. pose proof (PD_IDX_range t Hu). rewrite KERNEL_IDX_val. split; [|lia].
  rewrite PD_IDX_div. unfold KERNEL_START in Ht. apply Z.div_le_lower_bound; lia.
Qed.

(** Mapping the page of the new table itself, when it is touched first. *)
Lemma touch_table s dir t frame n b :
  dir_ok (mem s) dir -> shares_kernel (mem s) dir (currentDirectory s) -> is_u32 t -> KERNEL_START <= t ->
  is_u32 frame -> reserve PAGESIZE (pageFrameAllocator s) = Ret (frame, n, b) ->
  is_set (entry (mem s) dir t) PAGE_PRESENT = false ->
  exists m1,
    map 1 (currentDirectory s) frame t (Z.lor PAGE_PRESENT PAGE_READ_WRITE) (set_frames b s)
      = Ret (tt, set_mem m1 (set_frames b s)) /\
    dir_ok m1 dir /\ (forall i, 0 <= i < 1024 -> present m1 dir i = present (mem s) dir i) /\
    (forall i, 0 <= i < 1024 -> table m1 dir i = table (mem s) dir i) /\
    entry m1 dir t = Z.lor frame (Z.lor PAGE_PRESENT PAGE_READ_WRITE) /\
    (forall u, is_u32 u -> page u <> page t -> entry m1 dir u = entry (mem s) dir u).
Proof.
  intros Hok Hsh Ht Hk Hfr Hres Hnp. pose proof (PD_IDX_kernel t Ht Hk) as Hi.
  destruct (Hsh _ Hi) as (Hpd & Hpc & Htab).
  rewrite map_existing by done. cbn [mem set_frames].
  replace (entry (mem s) (currentDirectory s) t) with (entry (mem s) dir t)
    by (unfold entry; by rewrite Hpd, Hpc, Htab).
  rewrite Hnp, <- Htab. eexists. split; [done|].
  destruct (write_entry (mem s) dir t (Z.lor frame (Z.lor PAGE_PRESENT PAGE_READ_WRITE))) as [Hok1 Hent];
    try done; [by apply is_u32_lor|].
  split_and!; [done| | | |].
  - intros i Hi'. unfold present. by rewrite write_entry_dir by auto.
  - intros i Hi'. unfold table at 1. by rewrite write_entry_dir by auto.
  - rewrite Hent by done. by rewrite decide_True.
  - intros u Hu Hpg. rewrite Hent by done. by rewrite decide_False.
Qed.

Lemma is_mapped_entry dir v s :
  is_mapped dir v s = Ret (is_set (entry (mem s) dir v) PAGE_PRESENT, s).
Proof.
  unfold is_mapped, entry, present, table, rd. st_step.
  by destruct (is_set (load32 (mem s) (at_ (pageDirectory dir) (GET_PD_IDX v))) PAGE_PRESENT).
Qed.

(** What touching the page [t] does to the entry of that page and to the frames:
    nothing when it is mapped, else it gets the frame [frame]. *)
Definition touched (s s' : Management) (dir : PageDirectory) (t frame : Z) (b : BitmapMemoryManager) : Prop :=
  if is_set (entry (mem s) dir t) PAGE_PRESENT
  then entry (mem s') dir t = entry (mem s) dir t /\ pageFrameAllocator s' = pageFrameAllocator s
  else entry (mem s') dir t = Z.lor frame (Z.lor PAGE_PRESENT PAGE_READ_WRITE) /\ pageFrameAllocator s' = b.

Lemma touched_present s s' dir t frame b :
  touched s s' dir t frame b -> is_set (entry (mem s') dir t) PAGE_PRESENT = true.
Proof.
  unfold touched. destruct (is_set (entry (mem s) dir t) PAGE_PRESENT) eqn:E; intros [-> _]; [done|].
  rewrite !is_set_lor. by rewrite orb_true_r.
Qed.

(** A zeroed page for a table: the memory [m1] before the zeroing has the same
    tables, and the same entries but for the page itself. *)
Lemma alloc_table_page_run fuel s dir t a frame n' b :
  bytes (mem s) -> dir_ok (mem s) dir -> shares_kernel (mem s) dir (currentDirectory s) ->
  is_u32 t -> KERNEL_START <= t -> is_u32 frame ->
  reserve PAGESIZE (pagingAreaManager s) = Ret (t, PAGESIZE, a) ->
  reserve PAGESIZE (pageFrameAllocator s) = Ret (frame, n', b) ->
  exists s1, alloc_table_page (map (S fuel)) s
      = Ret (t, set_mem (memset t 0 PAGESIZE (mem s1)) s1) /\
    currentDirectory s1 = currentDirectory s /\ pagingAreaManager s1 = a /\ touched s s1 dir t frame b /\
    bytes (mem s1) /\ dir_ok (mem s1) dir /\
    (forall i, 0 <= i < 1024 -> present (mem s1) dir i = present (mem s) dir i) /\
    (forall i, 0 <= i < 1024 -> table (mem s1) dir i = table (mem s) dir i) /\
    (forall u, is_u32 u -> page u <> page t -> entry (mem s1) dir u = entry (mem s) dir u).
Proof.
  intros Hb Hok Hsh Ht Hk Hfr Hres Hfres. unfold alloc_table_page. st_step. rewrite Hres. outcome.
  cbn [currentDirectory set_area]. rewrite is_mapped_entry. cbn [mem set_area].
  pose proof (PD_IDX_kernel t Ht Hk) as Hi. destruct (Hsh _ Hi) as (Hpd & Hpc & Htab).
  assert (Ee : entry (mem s) (currentDirectory s) t = entry (mem s) dir t)
    by (unfold entry; by rewrite Hpd, Hpc, Htab).
  rewrite Ee. destruct (is_set (entry (mem s) dir t) PAGE_PRESENT) eqn:Ep.
  - exists (set_area a s). unfold touched. rewrite Ep. split_and!; done.
  - unfold alloc_frames. cbn [pageFrameAllocator set_area]. rewrite Hfres. outcome. st_step.
    rewrite map_existing by done. cbn [mem set_frames set_area]. rewrite Ee, Ep.
    destruct (touch_table (set_area a s) dir t frame n' b) as (m1 & E1 & Hok1 & Hp1 & Ht1 & Hte & He1); try done.
    rewrite map_existing in E1 by done. cbn [mem set_frames set_area currentDirectory] in E1.
    rewrite Ee, Ep in E1. injection E1 as Em1. rewrite Em1.
    exists (set_mem m1 (set_frames b (set_area a s))). split_and!; try done.
    + unfold touched. by rewrite Ep.
    + cbn [mem set_mem]. rewrite <- Em1. by apply bytes_store32.
Qed.

(** The rest of [map] once the table exists, in a memory [m1] in which the page
    of the table is mapped. *)
Lemma finish_table s m1 dir t v phys flags tphys :
  dir_ok m1 dir -> (PAGESIZE | t) -> is_u32 t -> is_u32 v -> is_u32 tphys -> is_u32 (Z.lor phys flags) ->
  present m1 dir (GET_PD_IDX v) = false ->
  t <> pageDirectory dir -> t <> virtTableAddresses dir ->
  (forall i, 0 <= i < 1024 -> present m1 dir i = true -> table m1 dir i <> t) ->
  exists m',
    (_ ← createTable dir (GET_PD_IDX v) tphys t;
     t ← rd (at_ (virtTableAddresses dir) (GET_PD_IDX v));
     p ← rd (at_ t (GET_PT_IDX v));
     if is_set p PAGE_PRESENT then throw PAGING_ERROR
     else wr (at_ t (GET_PT_IDX v)) (Z.lor phys flags)) (set_mem (memset t 0 PAGESIZE m1) s)
    = Ret (tt, set_mem m' s) /\
    dir_ok m' dir /\ entry m' dir v = Z.lor phys flags /\ table m' dir (GET_PD_IDX v) = t /\
    load32 m' (at_ (pageDirectory dir) (GET_PD_IDX v)) = Z.lor (Z.lor tphys PAGE_PRESENT) PAGE_READ_WRITE /\
    (forall u, is_u32 u -> page u <> page v -> entry m' dir u = entry m1 dir u).
Proof.
  intros Hok Hta Htr Hv Htph Hw Hnp Htp Htv Hfresh.
  pose proof (PD_IDX_range v Hv) as Hi. pose proof (PT_IDX_range v) as Hj.
  destruct (fresh_table m1 dir (GET_PD_IDX v) t tphys) as (Hok2 & Hp2 & Ht2 & Hw2 & Hent); try done.
  unfold createTable, rd, wr. st_step. cbn [mem set_mem].
  generalize dependent (store32 (store32 (memset t 0 PAGESIZE m1) (at_ (pageDirectory dir) (GET_PD_IDX v))
    (Z.lor (Z.lor tphys PAGE_PRESENT) PAGE_READ_WRITE)) (at_ (virtTableAddresses dir) (GET_PD_IDX v)) t).
  intros m2 Hok2 Hp2 Ht2 Hw2 Hent. unfold table in Ht2. rewrite Ht2.
  assert (Hdir := fun p Hd => write_entry_dir m2 dir v (Z.lor phys flags) p (GET_PD_IDX v) Hok2 Hv Hp2 Hd Hi).
  unfold table in Hdir. rewrite Ht2 in Hdir.
  destruct (write_entry m2 dir v (Z.lor phys flags)) as [Hok3 Hent3]; try done.
  assert (Hz : load32 m2 (at_ t (GET_PT_IDX v)) = 0).
  { specialize (Hent v Hv). unfold entry in Hent. rewrite Hnp, Hp2 in Hent. unfold table in Hent.
    by rewrite Ht2 in Hent. }
  unfold table in Hok3, Hent3. rewrite Ht2 in Hok3, Hent3. rewrite Hz. cbn [is_set].
  eexists. split; [done|]. split_and!; [done| | | |].
  - rewrite Hent3 by done. by rewrite decide_True.
  - unfold table. rewrite Hdir by auto. done.
  - rewrite Hdir by auto. done.
  - intros u Hu Hpg. rewrite Hent3, decide_False by done. by apply Hent.
Qed.

(** Zeroing the new page does not touch the entry of that page. *)
Lemma memset_entry m dir t u :
  dir_ok m dir -> (PAGESIZE | t) -> is_u32 u ->
  t <> pageDirectory dir -> t <> virtTableAddresses dir ->
  (forall i, 0 <= i < 1024 -> present m dir i = true -> table m dir i <> t) ->
  entry (memset t 0 PAGESIZE m) dir u = entry m dir u.
Proof.
  intros [Hpd Hvt _ Ht _] Hta Hu Htp Htv Hfresh.
  assert (Hset : forall p i, (PAGESIZE | p) -> p <> t -> 0 <= i < 1024 ->
    load32 (memset t 0 PAGESIZE m) (at_ p i) = load32 m (at_ p i)).
  { intros p i [k ->] Hpt Hi. apply load32_ext. intros x Hx. apply memset_outside.
    destruct Hta as [l ->]. unfold at_, PAGESIZE in *. nia. }
  pose proof (PD_IDX_range u Hu) as Hi. pose proof (PT_IDX_range u) as Hj.
  unfold entry, present, table. rewrite (Hset (pageDirectory dir)), (Hset (virtTableAddresses dir)) by done.
  destruct (is_set _ _) eqn:Ep; [|done]. destruct (Ht _ Hi Ep) as [Hal _]. apply Hset; [done| |done].
  by apply Hfresh.
Qed.

Lemma outcome_state {X S : Type} (x : X) (a b : S) : Ret (x, a) = Ret (x, b) -> a = b.
Proof. by intros [= ->]. Qed.

(** The entry of the new page is the same seen from the current directory, after
    the zeroing, as seen from the directory that gets the table. *)
Lemma alloc_table_page_seen fuel s s1 dir t a frame n' b :
  bytes (mem s) -> shares_kernel (mem s) dir (currentDirectory s) ->
  dir_ok (mem s) (currentDirectory s) -> area_ok s (currentDirectory s) ->
  is_u32 t -> KERNEL_START <= t -> is_u32 frame -> t <> 0 ->
  reserve PAGESIZE (pagingAreaManager s) = Ret (t, PAGESIZE, a) ->
  reserve PAGESIZE (pageFrameAllocator s) = Ret (frame, n', b) ->
  alloc_table_page (map (S fuel)) s = Ret (t, set_mem (memset t 0 PAGESIZE (mem s1)) s1) ->
  touched s s1 dir t frame b ->
  entry (memset t 0 PAGESIZE (mem s1)) (currentDirectory s) t = entry (mem s1) dir t.
Proof.
  intros Hb Hsh Hok Hao Ht Hk Hfr Hnz Hres Hfres E Htch. set (cur := currentDirectory s) in *.
  destruct (reserve_fresh s cur t PAGESIZE a Hao Hres Hnz) as (_ & Hta & _ & _ & Hfresh).
  assert (Hself : shares_kernel (mem s) cur cur) by (intros i Hi; by destruct (Hsh i Hi) as (_ & ? & _)).
  destruct (alloc_table_page_run fuel s cur t a frame n' b)
    as (s2 & E2 & _ & _ & Htch2 & _ & Hok2 & Hp2 & Ht2 & _); try done.
  rewrite E in E2.
  apply (outcome_state t _ _) in E2. apply (f_equal mem) in E2. cbn [mem set_mem] in E2. rewrite E2.
  pose proof Hao as [_ _ _ _ Hopd Hovt Hotab].
  rewrite (memset_entry (mem s2) cur t t Hok2 Hta Ht).
  - destruct (Hsh _ (PD_IDX_kernel t Ht Hk)) as (Hpd & Hpc & Htab).
    assert (Ee : entry (mem s) dir t = entry (mem s) cur t) by (unfold entry; by rewrite Hpd, Hpc, Htab).
    unfold touched in Htch, Htch2. rewrite Ee in Htch.
    destruct (is_set (entry (mem s) cur t) PAGE_PRESENT); destruct Htch as [-> _], Htch2 as [-> _]; done.
  - intros ->. by apply (Hfresh _ Hopd).
  - intros ->. by apply (Hfresh _ Hovt).
  - intros i Hi Hpi. rewrite Ht2 by done. apply Hfresh, Hotab; [done|]. by rewrite <- Hp2.
Qed.

(** [map] of a page of a region without table. *)
Lemma map_table_run s dir phys v flags t n a frame n' b :
  bytes (mem s) -> dir_ok (mem s) dir -> area_ok s dir ->
  shares_kernel (mem s) dir (currentDirectory s) ->
  dir_ok (mem s) (currentDirectory s) -> area_ok s (currentDirectory s) ->
  is_u32 v -> is_u32 phys -> 0 <= flags < 2 ^ 16 ->
  present (mem s) dir (GET_PD_IDX v) = false ->
  reserve PAGESIZE (pagingAreaManager s) = Ret (t, n, a) -> t <> 0 ->
  reserve PAGESIZE (pageFrameAllocator s) = Ret (frame, n', b) -> is_u32 frame ->
  exists s', map map_fuel dir phys v flags s = Ret (tt, s') /\ dir_ok (mem s') dir /\
    entry (mem s') dir v = Z.lor phys flags /\
    pagingAreaManager s' = a /\ currentDirectory s' = currentDirectory s /\
    touched s s' dir t frame b /\
    load32 (mem s') (at_ (pageDirectory dir) (GET_PD_IDX v))
      = Z.lor (Z.lor (Z.land (entry (mem s') dir t) 0xFFFFF000) PAGE_PRESENT) PAGE_READ_WRITE /\
    table (mem s') dir (GET_PD_IDX v) = t /\
    (forall u, is_u32 u -> page u <> page v -> page u <> page t ->
       entry (mem s') dir u = entry (mem s) dir u).
Proof.
  intros Hb Hok Hao Hsh Hokc Haoc Hv Hph Hfl Hnp Hres Hnz Hfr Hframe.
  destruct (reserve_fresh s dir t n a Hao Hres Hnz) as (-> & Hta & Htr & Htk & Hfresh).
  assert (Hw : is_u32 (Z.lor phys flags)) by (apply is_u32_lor; [done|unfold is_u32; lia]).
  pose proof Hao as [_ _ _ _ Hopd Hovt Hotab].
  destruct (alloc_table_page_run 0 s dir t a frame n' b)
    as (s1 & E1 & Hcur & Har & Htch & Hb1 & Hok1 & Hp1 & Ht1 & He1); try done.
  pose proof (PD_IDX_range v Hv) as Hi. destruct (Hsh _ (PD_IDX_kernel t Htr Htk)) as (Hpt & _ & _).
  assert (Hpg : page t <> page v) by (intros [Ex _]%same_page; congruence).
  assert (Htp : t <> pageDirectory dir) by (intros ->; by apply (Hfresh _ Hopd)).
  assert (Htv : t <> virtTableAddresses dir) by (intros ->; by apply (Hfresh _ Hovt)).
  assert (Hftab : forall i, 0 <= i < 1024 -> present (mem s1) dir i = true -> table (mem s1) dir i <> t).
  { intros i Hi' Hpi. rewrite Ht1 by done. apply Hfresh, Hotab; [done|]. by rewrite <- Hp1. }
  set (tphys := Z.land (entry (mem s1) dir t) 0xFFFFF000).
  assert (Htphys : is_u32 tphys) by (apply is_u32_land; [by apply entry_range|lia]).
  destruct (finish_table s1 (mem s1) dir t v phys flags tphys)
    as (m' & E2 & Hok2 & Hent & Htab2 & Hpde & Hoth); try done; [by rewrite Hp1|].
  assert (Ht2 : entry m' dir t = entry (mem s1) dir t) by (by apply Hoth).
  exists (set_mem m' s1). unfold touched in *.
  cbn [mem set_mem pagingAreaManager pageFrameAllocator currentDirectory]. rewrite Ht2.
  split_and!; try done.
  - rewrite <- E2. unfold map_fuel. rewrite map_S. unfold createPageTable, rd. st_step.
    unfold present in Hnp. rewrite Hnp, E1. cbn [currentDirectory set_mem]. rewrite Hcur.
    rewrite getPhysicalAddress_entry. cbn [mem set_mem].
    rewrite (alloc_table_page_seen 0 s s1 dir t a frame n' b) by done.
    rewrite (touched_present s s1 dir t frame b Htch). done.
  - intros u Hu Hpv Hpu. rewrite Hoth, He1; done.
Qed.

(** C4. Mapping a page of a region that has no page table yet creates the table:
    the paging area gives a fresh page for it and marks it used; the page fault
    that zeroing it raises maps that page to a frame taken from the frame
    allocator, unless the page was mapped before; the word of the page directory
    for the region holds the physical address the page is mapped to, with the
    present and write flags, and the table of addresses its virtual address.
    Afterwards the requested page has the requested entry, and no page of the
    directory but these two has changed. Two levels of the recursion through the
    page fault are enough. *)
Theorem map_new_table s dir phys v flags t n a frame n' b :
  bytes (mem s) -> dir_ok (mem s) dir -> area_ok s dir ->
  shares_kernel (mem s) dir (currentDirectory s) ->
  dir_ok (mem s) (currentDirectory s) -> area_ok s (currentDirectory s) ->
  is_u32 v -> is_u32 phys -> 0 <= flags < 2 ^ 16 ->
  present (mem s) dir (GET_PD_IDX v) = false ->
  reserve PAGESIZE (pagingAreaManager s) = Ret (t, n, a) -> t <> 0 ->
  reserve PAGESIZE (pageFrameAllocator s) = Ret (frame, n', b) -> is_u32 frame ->
  exists s', map map_fuel dir phys v flags s = Ret (tt, s') /\ dir_ok (mem s') dir /\
    entry (mem s') dir v = Z.lor phys flags /\
    pagingAreaManager s' = a /\
    (if is_set (entry (mem s) dir t) PAGE_PRESENT
     then entry (mem s') dir t = entry (mem s) dir t /\ pageFrameAllocator s' = pageFrameAllocator s
     else entry (mem s') dir t = Z.lor frame (Z.lor PAGE_PRESENT PAGE_READ_WRITE) /\
          pageFrameAllocator s' = b) /\
    load32 (mem s') (at_ (pageDirectory dir) (GET_PD_IDX v))
      = Z.lor (Z.lor (Z.land (entry (mem s') dir t) 0xFFFFF000) PAGE_PRESENT) PAGE_READ_WRITE /\
    load32 (mem s') (at_ (virtTableAddresses dir) (GET_PD_IDX v)) = t /\
    (forall u, is_u32 u -> page u <> page v -> page u <> page t ->
       entry (mem s') dir u = entry (mem s) dir u).
Proof.
  intros. destruct (map_table_run s dir phys v flags t n a frame n' b)
    as (s' & E & Hok & Hent & Har & _ & Htch & Hpde & Htab & Hoth); try done.
  exists s'. split_and!; done.
Qed.

(** ** A concrete kernel

    The directory the base constructor leaves behind, as far as tables are
    concerned: 256 kernel tables at the start of the paging area, followed by
    the directory and the table of addresses. *)

Definition memory_of (w : Z -> Z) : Mem := fun x => w (x - x mod 4) / 2 ^ (8 * (x mod 4)) mod 2 ^ 8.

Lemma load32_memory_of w a : (4 | a) -> is_u32 (w a) -> load32 (memory_of w) a = w a.
Proof.
  intros [k ->] Hw. unfold load32, memory_of.
  assert (H : forall o, 0 <= o < 4 -> (k * 4 + o) mod 4 = o).
  { intros o Ho. rewrite Z.add_comm, Z.mod_add, Z.mod_small by lia. lia. }
  assert (H0 : (k * 4) mod 4 = 0) by (apply Z.mod_mul; lia).
  rewrite H0, (H 1), (H 2), (H 3) by lia.
  rewrite Z.sub_0_r, !Z.add_simpl_r. change (2 ^ (8 * 0)) with 1. rewrite Z.div_1_r.
  by apply bytes_recompose.
Qed.

Lemma bytes_memory_of w : bytes (memory_of w).
Proof. intros x. apply (Z.mod_pos_bound _ (2 ^ 8)). lia. Qed.

Definition boot_dir : PageDirectory :=
  mkPageDirectory (VIRT_PAGE_MEM_START + 0x100000) 0x900000 (VIRT_PAGE_MEM_START + 0x101000).

Definition boot_words (a : Z) : Z :=
  if (pageDirectory boot_dir + 4 * 768 <=? a) && (a <? pageDirectory boot_dir + 4 * 1024) then RW_ALL
  else if (virtTableAddresses boot_dir + 4 * 768 <=? a) && (a <? virtTableAddresses boot_dir + 4 * 1024)
  then VIRT_PAGE_MEM_START + ((a - virtTableAddresses boot_dir) / 4 - 768) * PAGESIZE
  else 0.

Definition boot_area : BitmapMemoryManager :=
  mkBitmapMemoryManager (mkMemoryManager VIRT_PAGE_MEM_START (VIRT_PAGE_MEM_START + 512 * PAGESIZE) 0 false)
    PAGING_AREA_MANAGER (setRange (new_Bitmap 512) 0 258) PAGESIZE true.

Definition boot_frames : BitmapMemoryManager :=
  mkBitmapMemoryManager (mkMemoryManager 0 0x80000 0 false) PAGE_FRAME_ALLOCATOR
    (setRange (new_Bitmap 128) 0 64) PAGESIZE false.

Definition boot_kernel : Management :=
  mkManagement (memory_of boot_words) boot_dir boot_dir boot_frames boot_area small_io.

Lemma boot_present i :
  0 <= i < 1024 -> present (mem boot_kernel) boot_dir i = (768 <=? i).
Proof.
  intros Hi. unfold present. cbn [mem boot_kernel].
  assert (E : boot_words (at_ (pageDirectory boot_dir) i) = if 768 <=? i then RW_ALL else 0).
  { unfold boot_words, at_. simpl pageDirectory. simpl virtTableAddresses.
    unfold VIRT_PAGE_MEM_START, KERNEL_START. case_bool; simpl; try done; lia. }
  rewrite load32_memory_of; rewrite ?E.
  - by destruct (768 <=? i).
  - exists (VIRT_PAGE_MEM_START / 4 + 0x40000 + i). unfold at_. cbn [pageDirectory virtTableAddresses boot_dir].
    change (VIRT_PAGE_MEM_START / 4) with 0x37D00000. unfold VIRT_PAGE_MEM_START, KERNEL_START. lia.
  - by destruct (768 <=? i).
Qed.

Lemma boot_table i :
  768 <= i < 1024 -> table (mem boot_kernel) boot_dir i = VIRT_PAGE_MEM_START + (i - 768) * PAGESIZE.
Proof.
  intros Hi. unfold table. cbn [mem boot_kernel].
  assert (E : boot_words (at_ (virtTableAddresses boot_dir) i) = VIRT_PAGE_MEM_START + (i - 768) * PAGESIZE).
  { unfold boot_words, at_. replace (virtTableAddresses boot_dir + 4 * i - virtTableAddresses boot_dir)
      with (i * 4) by lia. rewrite Z.div_mul by lia.
    simpl pageDirectory. simpl virtTableAddresses. unfold VIRT_PAGE_MEM_START, KERNEL_START.
    case_bool; simpl; try done; lia. }
  rewrite load32_memory_of; rewrite ?E; [done| |].
  - exists (VIRT_PAGE_MEM_START / 4 + 0x40400 + i). unfold at_. cbn [pageDirectory virtTableAddresses boot_dir].
    change (VIRT_PAGE_MEM_START / 4) with 0x37D00000. unfold VIRT_PAGE_MEM_START, KERNEL_START. lia.
  - unfold VIRT_PAGE_MEM_START, KERNEL_START, PAGESIZE, is_u32. lia.
Qed.

Lemma boot_dir_ok : dir_ok (mem boot_kernel) boot_dir.
Proof.
  constructor.
  - exists ((VIRT_PAGE_MEM_START + 0x100000) / PAGESIZE). reflexivity.
  - exists ((VIRT_PAGE_MEM_START + 0x101000) / PAGESIZE). reflexivity.
  - done.
  - intros i Hi. rewrite boot_present by done. intros ?%Z.leb_le. rewrite boot_table by lia.
    cbn [pageDirectory virtTableAddresses boot_dir]. split_and!.
    + exists (VIRT_PAGE_MEM_START / PAGESIZE + (i - 768)).
      change (VIRT_PAGE_MEM_START / PAGESIZE) with 0xDF400. unfold VIRT_PAGE_MEM_START, KERNEL_START, PAGESIZE. lia.
    + unfold VIRT_PAGE_MEM_START, KERNEL_START, PAGESIZE. lia.
    + unfold VIRT_PAGE_MEM_START, KERNEL_START, PAGESIZE. lia.
  - intros i j Hi Hj Hne. rewrite !boot_present by done. intros ?%Z.leb_le ?%Z.leb_le.
    rewrite !boot_table by lia. unfold PAGESIZE. lia.
Qed.

Lemma boot_owned b : 0 <= b < 258 -> owned boot_kernel (VIRT_PAGE_MEM_START + b * PAGESIZE).
Proof.
  intros Hb. exists b. cbn [pagingAreaManager boot_kernel boot_area bitmap]. rewrite blocks_setRange.
  split_and!; [simpl; lia|simpl; lia|done|].
  rewrite bit_setRange; [|by apply wf_new_Bitmap|done|lia|simpl; lia]. by decide_bool.
Qed.

Lemma boot_area_ok : area_ok boot_kernel boot_dir.
Proof.
  constructor.
  - constructor; [apply wf_setRange; by apply wf_new_Bitmap| | | |]; by vm_compute.
  - done.
  - by vm_compute.
  - exists (VIRT_PAGE_MEM_START / PAGESIZE). reflexivity.
  - apply (boot_owned 256). lia.
  - apply (boot_owned 257). lia.
  - intros i Hi. rewrite boot_present by done. intros ?%Z.leb_le. rewrite boot_table by lia.
    apply boot_owned. lia.
Qed.

Lemma boot_shares : shares_kernel (mem boot_kernel) boot_dir boot_dir.
Proof.
  intros i Hi. rewrite KERNEL_IDX_val in Hi. rewrite boot_present by lia.
  split_and!; [apply Z.leb_le; lia|apply Z.leb_le; lia|done].
Qed.

Lemma map_new_table_witness :
  exists s', map map_fuel boot_dir 0x800000 0x400000 7 boot_kernel = Ret (tt, s') /\
    entry (mem s') boot_dir 0x400000 = Z.lor 0x800000 7 /\
    load32 (mem s') (at_ (pageDirectory boot_dir) 1)
      = Z.lor (Z.lor (Z.land (entry (mem s') boot_dir (VIRT_PAGE_MEM_START + 0x102000)) 0xFFFFF000)
                PAGE_PRESENT) PAGE_READ_WRITE.
Proof.
  destruct (reserve PAGESIZE boot_area) as [[[t n] a]| | |] eqn:Er; try (vm_compute in Er; discriminate Er).
  destruct (reserve PAGESIZE boot_frames) as [[[f n'] b]| | |] eqn:Ef; try (vm_compute in Ef; discriminate Ef).
  destruct (map_new_table boot_kernel boot_dir 0x800000 0x400000 7 t n a f n' b)
    as (s' & E & _ & He & _ & _ & Hw & _).
  - apply bytes_memory_of.
  - exact boot_dir_ok.
  - exact boot_area_ok.
  - exact boot_shares.
  - exact boot_dir_ok.
  - exact boot_area_ok.
  - clear. by vm_compute.
  - clear. by vm_compute.
  - clear. lia.
  - clear. rewrite boot_present; [reflexivity|vm_compute; split; [discriminate|reflexivity]].
  - exact Er.
  - vm_compute in Er. injection Er as <- _ _. discriminate.
  - exact Ef.
  - vm_compute in Ef. injection Ef as <- _ _. clear. by vm_compute.
  - exists s'. split_and!; [exact E|exact He|].
    vm_compute in Er. injection Er as <- _ _. exact Hw.
Defined.

(** ** Theorems on existing tables *)

(** Unmapping an unprotected present page. *)
Lemma unmap_run dir v s :
  dir_ok (mem s) dir -> is_u32 v ->
  is_set (entry (mem s) dir v) PAGE_PRESENT = true ->
  is_set (entry (mem s) dir v) PAGE_WRITE_PROTECTED = false ->
  exists s', unmap dir v s = Ret (Z.land (entry (mem s) dir v) 0xFFFFF000, s') /\
    s' = set_mem (mem s') s /\ dir_ok (mem s') dir /\
    forall u, is_u32 u -> entry (mem s') dir u = if decide (page u = page v) then 0 else entry (mem s) dir u.
Proof.
  intros Hok Hv Hp Hw. pose proof (unmap_entry dir v s) as E. cbv zeta in E. rewrite Hp, Hw in E.
  destruct (write_entry (mem s) dir v 0 Hok Hv ltac:(by vm_compute) (entry_present _ _ _ Hp)) as [Hok' He].
  eexists. split; [exact E|]. done.
Qed.

(** Mapping an absent page of an existing table. *)
Lemma map_run fuel dir phys v flags s :
  dir_ok (mem s) dir -> is_u32 v -> is_u32 (Z.lor phys flags) ->
  present (mem s) dir (GET_PD_IDX v) = true -> is_set (entry (mem s) dir v) PAGE_PRESENT = false ->
  exists s', map (S fuel) dir phys v flags s = Ret (tt, s') /\
    s' = set_mem (mem s') s /\ dir_ok (mem s') dir /\ present (mem s') dir (GET_PD_IDX v) = true /\
    forall u, is_u32 u ->
      entry (mem s') dir u = if decide (page u = page v) then Z.lor phys flags else entry (mem s) dir u.
Proof.
  intros Hok Hv Hw Hp He. pose proof (map_existing fuel dir phys v flags s Hp) as E. rewrite He in E.
  destruct (write_entry (mem s) dir v (Z.lor phys flags) Hok Hv Hw Hp) as [Hok' Hent].
  eexists. split; [exact E|]. split_and!; try done. cbn [mem set_mem].
  unfold present. rewrite load_store32_ne; [done|].
  destruct (do_table _ _ Hok _ (PD_IDX_range v Hv) Hp) as (Ht & Hne & _).
  apply words_apart; try done; [apply Hok|by apply PD_IDX_range|by apply PT_IDX_range|by left].
Qed.

Lemma frame_unprotected phys : (PAGESIZE | phys) -> is_set phys PAGE_WRITE_PROTECTED = false.
Proof.
  intros [k ->]. change PAGE_WRITE_PROTECTED with (2 ^ 9). rewrite is_set_testbit by lia.
  change PAGESIZE with (2 ^ 12). by rewrite <- Z.shiftl_mul_pow2, Z.shiftl_spec_low by lia.
Qed.

(** C5. Mapping a page, looking it up and unmapping it again: the lookup gives
    the frame that was mapped, mapping the page a second time raises
    [PAGING_ERROR], and unmapping returns the frame and restores the whole
    translation of the directory, unless the entry is write protected, in which
    case nothing happens and 0 is returned. *)
Theorem map_lookup_unmap fuel fuel' s dir phys v flags phys2 flags2 :
  dir_ok (mem s) dir -> is_u32 v -> is_u32 phys -> (PAGESIZE | phys) -> 0 <= flags < PAGESIZE ->
  is_set flags PAGE_PRESENT = true -> present (mem s) dir (GET_PD_IDX v) = true ->
  is_set (entry (mem s) dir v) PAGE_PRESENT = false ->
  exists s1, map (S fuel) dir phys v flags s = Ret (tt, s1) /\ dir_ok (mem s1) dir /\
    getPhysicalAddress dir v s1 = Ret (phys, s1) /\
    map (S fuel') dir phys2 v flags2 s1 = Throw PAGING_ERROR /\
    (forall u, is_u32 u -> page u <> page v -> entry (mem s1) dir u = entry (mem s) dir u) /\
    if is_set flags PAGE_WRITE_PROTECTED then unmap dir v s1 = Ret (0, s1)
    else exists s2, unmap dir v s1 = Ret (phys, s2) /\ dir_ok (mem s2) dir /\
           getPhysicalAddress dir v s2 = Ret (0, s2) /\
           (forall u, is_u32 u -> page u <> page v -> entry (mem s2) dir u = entry (mem s) dir u).
Proof.
  intros Hok Hv Hph Hal Hfl Hset Hp He.
  assert (Hw : is_u32 (Z.lor phys flags)) by (apply is_u32_lor; [done|unfold is_u32, PAGESIZE in *; lia]).
  destruct (map_run fuel dir phys v flags s) as (s1 & E1 & Hs1 & Hok1 & Hp1 & Hent1); try done.
  assert (Hev : entry (mem s1) dir v = Z.lor phys flags) by (by rewrite Hent1, decide_True).
  assert (Hpres : is_set (Z.lor phys flags) PAGE_PRESENT = true) by (by rewrite is_set_lor, Hset, orb_true_r).
  assert (Hoth : forall u, is_u32 u -> page u <> page v -> entry (mem s1) dir u = entry (mem s) dir u)
    by (intros u Hu Hne; by rewrite Hent1, decide_False).
  exists s1. split_and!; try done.
  - by rewrite getPhysicalAddress_entry, Hev, Hpres, entry_address.
  - rewrite map_existing by done. by rewrite Hev, Hpres.
  - destruct (is_set flags PAGE_WRITE_PROTECTED) eqn:Ewp.
    + pose proof (unmap_entry dir v s1) as E. cbv zeta in E.
      by rewrite Hev, Hpres, is_set_lor, Ewp, orb_true_r in E.
    + destruct (unmap_run dir v s1) as (s2 & E2 & _ & Hok2 & Hent2); try done; [by rewrite Hev| |].
      { by rewrite Hev, is_set_lor, Ewp, frame_unprotected. }
      exists s2. split_and!; [by rewrite E2, Hev, entry_address|done| |].
      * by rewrite getPhysicalAddress_entry, Hent2, decide_True.
      * intros u Hu Hne. by rewrite Hent2, decide_False, Hoth.
Qed.

(** A kernel page that is absent in the concrete kernel. *)
Lemma boot_entry v : is_u32 v -> KERNEL_START <= v -> v < VIRT_PAGE_MEM_START ->
  present (mem boot_kernel) boot_dir (GET_PD_IDX v) = true /\ entry (mem boot_kernel) boot_dir v = 0.
Proof.
  intros Hv Hk Hlt. pose proof (PD_IDX_kernel v Hv Hk) as Hi. rewrite KERNEL_IDX_val in Hi.
  pose proof (PT_IDX_range v) as Hj.
  assert (Hp : present (mem boot_kernel) boot_dir (GET_PD_IDX v) = true)
    by (rewrite boot_present by lia; apply Z.leb_le; lia).
  split; [done|]. unfold entry. rewrite Hp, boot_table by lia. cbn [mem boot_kernel].
  assert (E : boot_words (at_ (VIRT_PAGE_MEM_START + (GET_PD_IDX v - 768) * PAGESIZE) (GET_PT_IDX v)) = 0).
  { unfold boot_words, at_. cbn [pageDirectory virtTableAddresses boot_dir].
    unfold VIRT_PAGE_MEM_START, KERNEL_START, PAGESIZE. case_bool; simpl; try done; lia. }
  rewrite load32_memory_of; rewrite ?E; [done| |by vm_compute].
  exists (VIRT_PAGE_MEM_START / 4 + (GET_PD_IDX v - 768) * 1024 + GET_PT_IDX v).
  change (VIRT_PAGE_MEM_START / 4) with 0x37D00000.
  unfold at_, VIRT_PAGE_MEM_START, KERNEL_START, PAGESIZE. lia.
Qed.

Lemma map_lookup_unmap_witness :
  exists s1 s2, map 1 boot_dir 0x800000 0xC0400000 3 boot_kernel = Ret (tt, s1) /\
    getPhysicalAddress boot_dir 0xC0400000 s1 = Ret (0x800000, s1) /\
    unmap boot_dir 0xC0400000 s1 = Ret (0x800000, s2).
Proof.
  destruct (boot_entry 0xC0400000) as [Hp He]; [by vm_compute|by vm_compute|by vm_compute|].
  destruct (map_lookup_unmap 0 0 boot_kernel boot_dir 0x800000 0xC0400000 3 0 0)
    as (s1 & E1 & _ & E2 & _ & _ & s2 & E3 & _); [| | | | | | | |].
  - exact boot_dir_ok.
  - clear. by vm_compute.
  - clear. by vm_compute.
  - clear. by exists 0x800.
  - clear. by vm_compute.
  - reflexivity.
  - exact Hp.
  - rewrite He. reflexivity.
  - exists s1, s2. split_and!; done.
Defined.

Lemma change_entry_run f dir v s :
  bytes (mem s) -> dir_ok (mem s) dir -> is_u32 v -> (forall x, is_u32 x -> is_u32 (f x)) ->
  is_set (entry (mem s) dir v) PAGE_PRESENT = true ->
  exists s', change_entry f dir v s = Ret (tt, s') /\ bytes (mem s') /\ dir_ok (mem s') dir /\
    forall u, is_u32 u ->
      entry (mem s') dir u = if decide (page u = page v) then f (entry (mem s) dir v) else entry (mem s) dir u.
Proof.
  intros Hb Hok Hv Hf Hp. pose proof (change_entry_entry f dir v s Hv) as E. cbv zeta in E. rewrite Hp in E.
  destruct (write_entry (mem s) dir v (f (entry (mem s) dir v)) Hok Hv) as [Hok' He];
    [by apply Hf, entry_range|by apply entry_present|].
  eexists. split; [exact E|]. split_and!; try done. by apply bytes_store32.
Qed.

Lemma unprotect_bits x :
  is_u32 x -> Z.land x (u32 (Z.lnot PAGE_WRITE_PROTECTED)) = Z.ldiff x PAGE_WRITE_PROTECTED.
Proof.
  intros Hx. unfold u32. rewrite <- Z.land_ones by lia. rewrite Z.land_assoc, (Z.land_comm x), <- Z.land_assoc.
  rewrite Z.land_ones, Z.mod_small by (unfold is_u32 in Hx; lia). rewrite Z.land_comm.
  by rewrite Z.ldiff_land.
Qed.

Lemma is_set_ldiff x n k :
  0 <= n -> 0 <= k -> is_set (Z.ldiff x (2 ^ k)) (2 ^ n) = is_set x (2 ^ n) && negb (k =? n).
Proof. intros Hn Hk. rewrite !is_set_testbit by done. by rewrite Z.ldiff_spec, Z.pow2_bits_eqb. Qed.

(** [protectPage] makes a present page impossible to unmap and changes
    neither its translation nor any other page, whatever address inside the page
    is given; [unprotectPage] lifts the protection, after which unmapping gives
    the frame that was mapped all along. *)
Theorem protect_blocks_unmap s dir v :
  bytes (mem s) -> dir_ok (mem s) dir -> is_u32 v -> is_set (entry (mem s) dir v) PAGE_PRESENT = true ->
  let frame := Z.land (entry (mem s) dir v) 0xFFFFF000 in
  exists s1 s2 s3, protectPage dir v s = Ret (tt, s1) /\
    getPhysicalAddress dir v s1 = Ret (frame, s1) /\ unmap dir v s1 = Ret (0, s1) /\
    unprotectPage dir v s1 = Ret (tt, s2) /\
    getPhysicalAddress dir v s2 = Ret (frame, s2) /\ unmap dir v s2 = Ret (frame, s3) /\
    (forall u, is_u32 u -> page u <> page v ->
       entry (mem s1) dir u = entry (mem s) dir u /\ entry (mem s2) dir u = entry (mem s) dir u /\
       entry (mem s3) dir u = entry (mem s) dir u).
Proof.
  intros Hb Hok Hv Hp frame. set (e := entry (mem s) dir v) in *.
  assert (He : is_u32 e) by (by apply entry_range).
  assert (Hwp : is_u32 PAGE_WRITE_PROTECTED) by (by vm_compute).
  destruct (change_entry_run (fun p => Z.lor p PAGE_WRITE_PROTECTED) dir v s) as (s1 & E1 & Hb1 & Hok1 & He1);
    try done; [intros x Hx; by apply is_u32_lor|].
  assert (Hv1 : entry (mem s1) dir v = Z.lor e PAGE_WRITE_PROTECTED) by (by rewrite He1, decide_True).
  assert (Hp1 : is_set (Z.lor e PAGE_WRITE_PROTECTED) PAGE_PRESENT = true) by (by rewrite is_set_lor, Hp).
  assert (Ha1 : Z.land (Z.lor e PAGE_WRITE_PROTECTED) 0xFFFFF000 = frame).
  { rewrite Z.land_lor_distr_l. apply Z.lor_0_r. }
  destruct (change_entry_run (fun p => Z.land p (u32 (Z.lnot PAGE_WRITE_PROTECTED))) dir v s1)
    as (s2 & E2 & Hb2 & Hok2 & He2); try done; [intros x Hx; by apply is_u32_land|by rewrite Hv1|].
  set (e2 := Z.ldiff (Z.lor e PAGE_WRITE_PROTECTED) PAGE_WRITE_PROTECTED).
  assert (Hv2 : entry (mem s2) dir v = e2).
  { rewrite He2, decide_True, Hv1 by done. apply unprotect_bits. by apply is_u32_lor. }
  assert (Hp2 : is_set e2 PAGE_PRESENT = true).
  { unfold e2. change PAGE_PRESENT with (2 ^ 0) in *. change PAGE_WRITE_PROTECTED with (2 ^ 9) in *.
    by rewrite is_set_ldiff, Hp1 by lia. }
  assert (Hw2 : is_set e2 PAGE_WRITE_PROTECTED = false).
  { unfold e2. change PAGE_WRITE_PROTECTED with (2 ^ 9). rewrite is_set_ldiff by lia. by rewrite andb_false_r. }
  assert (Ha2 : Z.land e2 0xFFFFF000 = frame).
  { rewrite <- Ha1. unfold e2. by rewrite Z.ldiff_land, <- Z.land_assoc. }
  destruct (unmap_run dir v s2) as (s3 & E3 & _ & _ & He3); [done|done|by rewrite Hv2|by rewrite Hv2|].
  exists s1, s2, s3. split_and!; try done.
  - by rewrite getPhysicalAddress_entry, Hv1, Hp1, Ha1.
  - pose proof (unmap_entry dir v s1) as E. cbv zeta in E.
    by rewrite Hv1, Hp1, is_set_lor, (orb_comm (is_set e _)) in E.
  - by rewrite getPhysicalAddress_entry, Hv2, Hp2, Ha2.
  - by rewrite E3, Hv2, Ha2.
  - intros u Hu Hne. rewrite He3, He2, He1, !decide_False by done. done.
Qed.

(** The concrete kernel with one page mapped. *)
Definition mapped_kernel : Management :=
  set_mem (store32 (mem boot_kernel) (at_ (table (mem boot_kernel) boot_dir (GET_PD_IDX 0xC0400000))
             (GET_PT_IDX 0xC0400000)) 0x800003) boot_kernel.

Lemma mapped_kernel_entry :
  dir_ok (mem mapped_kernel) boot_dir /\ entry (mem mapped_kernel) boot_dir 0xC0400000 = 0x800003.
Proof.
  destruct (boot_entry 0xC0400000) as [Hp He]; [by vm_compute|by vm_compute|by vm_compute|].
  destruct (write_entry (mem boot_kernel) boot_dir 0xC0400000 0x800003) as [Hok Hent];
    [exact boot_dir_ok|clear; by vm_compute|clear; by vm_compute|exact Hp|].
  split; [exact Hok|]. unfold mapped_kernel. cbn [mem set_mem].
  rewrite Hent; [by rewrite decide_True|clear; by vm_compute].
Qed.

Lemma protect_blocks_unmap_witness :
  exists s1 s2 s3, protectPage boot_dir 0xC0400ABC mapped_kernel = Ret (tt, s1) /\
    unmap boot_dir 0xC0400ABC s1 = Ret (0, s1) /\
    unprotectPage boot_dir 0xC0400ABC s1 = Ret (tt, s2) /\ unmap boot_dir 0xC0400ABC s2 = Ret (0x800000, s3).
Proof.
  destruct mapped_kernel_entry as [Hok He].
  assert (He' : entry (mem mapped_kernel) boot_dir 0xC0400ABC = 0x800003)
    by (rewrite <- He; apply entry_page; reflexivity).
  destruct (protect_blocks_unmap mapped_kernel boot_dir 0xC0400ABC)
    as (s1 & s2 & s3 & E1 & _ & E2 & E3 & _ & E4 & _); [| | | |].
  - apply bytes_store32, bytes_memory_of.
  - exact Hok.
  - clear. by vm_compute.
  - rewrite He'. reflexivity.
  - exists s1, s2, s3. split_and!; [exact E1|exact E2|exact E3|]. rewrite E4, He'. reflexivity.
Defined.

(** ** Page faults and frames *)












