(* ===== verification/Priority.v ===== *)
(** * Priority patterns

    [lib/system/priority]: the order in which the scheduler looks at its ready
    queues. [PriorityPattern] is the interface; [SimplePriorityPattern] goes
    round robin, [AccessArrayPriorityPattern] visits priority [p] [p] times per
    round and priority 0 once. Both count calls in a [uint8_t] that wraps
    around; [PrioritySpec] is the fairness the scheduler relies on in spite of
    that, and both patterns are instances of it. *)

From S2P Require Import Prelude Array.

(** ** The interface *)

Class PriorityPattern (P : Type) := {
  getPriorityCount : P -> Z;
  getNextPriority : P -> outcome (Z * P);
  reset : P -> P
}.

Definition getMaxPriority {P} `{PriorityPattern P} (s : P) : Z := u8 (getPriorityCount s - 1).
Definition getMinPriority {P} `{PriorityPattern P} (s : P) : Z := 0.

(** The constructor of the base class. *)
Definition base_count (priorityCount : Z) : Z := u8 (if priorityCount =? 0 then 1 else priorityCount).

(** [p] is drawn by the call number [n], counted from 0, and not before. *)
Inductive first_draw {P} `{PriorityPattern P} (p : Z) : nat -> P -> Prop :=
| draw_now s s' : getNextPriority s = Ret (p, s') -> first_draw p 0 s
| draw_later q s s' n :
    getNextPriority s = Ret (q, s') -> q <> p -> first_draw p n s' -> first_draw p (S n) s.

(** What a client may rely on: draws never fail, and every priority is drawn
    within a fixed number of calls, whatever happened before. *)
Class PrioritySpec (P : Type) `{PriorityPattern P} := {
  pp_inv : P -> Prop;
  pp_period : P -> nat;
  pp_count : forall s, pp_inv s -> 0 < getPriorityCount s <= 255;
  pp_next : forall s, pp_inv s -> exists p s', getNextPriority s = Ret (p, s') /\ pp_inv s' /\
    0 <= p < getPriorityCount s /\ getPriorityCount s' = getPriorityCount s /\ pp_period s' = pp_period s;
  pp_fair : forall s p, pp_inv s -> 0 <= p < getPriorityCount s ->
    exists n, (n < pp_period s)%nat /\ first_draw p n s
}.

(** ** [SimplePriorityPattern] *)

Module Simple.
Record SimplePriorityPattern := mkSimple { priorityCount : Z; currentPriority : Z }.

Definition new_SimplePriorityPattern (priorityCount : Z) : SimplePriorityPattern :=
  mkSimple (base_count priorityCount) 0.

Definition next (s : SimplePriorityPattern) : outcome (Z * SimplePriorityPattern) :=
  if priorityCount s =? 0 then Fault
  else Ret (currentPriority s mod priorityCount s, mkSimple (priorityCount s) (u8 (currentPriority s + 1))).

#[global] Instance pattern : PriorityPattern SimplePriorityPattern := {|
  getPriorityCount := priorityCount;
  getNextPriority := next;
  reset s := mkSimple (priorityCount s) 0
|}.
End Simple.

(** ** [AccessArrayPriorityPattern] *)

Module AccessArray.
Record AccessArrayPriorityPattern := mkAccessArray {
  priorityCount : Z;
  accessArray : Array Z;
  currentIndex : Z
}.

(** [while (tmp[index] == 0)] of the constructor. *)
Fixpoint skip_empty (fuel : nat) (tmp : list Z) (count index : Z) : outcome Z :=
  match fuel with
  | O => Diverge
  | S fuel =>
      t ← or_fault (tmp !! Z.to_nat index);
      if t =? 0 then
        if count =? 0 then Fault else skip_empty fuel tmp count (u8 (index + 1) mod count)
      else Ret index
  end.

(** The rounds of its [for] loop from [i] on. *)
Fixpoint fill (n : nat) (i : Z) (tmp : list Z) (count index : Z) (a : Array Z) : outcome (Array Z) :=
  match n with
  | O => Ret a
  | S n =>
      index ← skip_empty (S (Z.to_nat count)) tmp count index;
      a ← put a i index;
      t ← or_fault (tmp !! Z.to_nat index);
      let tmp := <[Z.to_nat index := u8 (t - 1)]> tmp in
      if count =? 0 then Fault
      else fill n (i + 1) tmp count (u8 (index + 1) mod count) a
  end.

Definition entries (count : Z) : Z := u32 (count * (count - 1)) / 2.

(** [currentIndex] has no initial value of its own; in the static object the
    scheduler uses it is 0. *)
Definition new_AccessArrayPriorityPattern (count currentIndex : Z) : outcome AccessArrayPriorityPattern :=
  let tmp := seqZ 0 count in
  let index := u8 (base_count count - 1) in
  a ← fill (Z.to_nat (entries count)) 0 tmp count index (new_Array (entries count));
  Ret (mkAccessArray (base_count count) a currentIndex).

Definition next (s : AccessArrayPriorityPattern) : outcome (Z * AccessArrayPriorityPattern) :=
  let index := u8 (currentIndex s mod u32 (length_ (accessArray s) + 1)) in
  let s' := mkAccessArray (priorityCount s) (accessArray s) (u8 (currentIndex s + 1)) in
  if index =? length_ (accessArray s) then Ret (0, s')
  else p ← at_ (accessArray s) index; Ret (p, s').

#[global] Instance pattern : PriorityPattern AccessArrayPriorityPattern := {|
  getPriorityCount := priorityCount;
  getNextPriority := next;
  reset s := mkAccessArray (priorityCount s) (accessArray s) 0
|}.
End AccessArray.

(** ** Wrap-around of the call counter *)

(** From any value of an 8-bit counter, the next [2 * m] values hit every
    residue modulo [m]: either before the wrap-around or right behind it. *)
Lemma counter_hits m c r :
  0 < m <= 256 -> 0 <= c < 256 -> 0 <= r < m ->
  exists k, 0 <= k < 2 * m /\ u8 (c + k) mod m = r.
Proof.
  intros Hm Hc Hr. pose proof (Z.mod_pos_bound (r - c) m ltac:(lia)) as Hk.
  destruct (Z.lt_ge_cases (c + (r - c) mod m) 256) as [Hlt|Hge].
  - exists ((r - c) mod m). split; [lia|]. unfold u8. rewrite (Z.mod_small (c + (r - c) mod m) (2 ^ 8)) by lia.
    rewrite Zplus_mod_idemp_r. replace (c + (r - c)) with r by lia. by apply Z.mod_small.
  - exists (256 - c + r). split; [lia|]. replace (c + (256 - c + r)) with (r + 1 * 2 ^ 8) by lia.
    unfold u8. rewrite Z.mod_add by lia. rewrite (Z.mod_small r (2 ^ 8)) by lia. by apply Z.mod_small.
Qed.

Section draws.
Context {P : Type} `{PriorityPattern P}.

(** A pattern whose call number [k] from now draws [f k]. *)
Lemma first_draw_exists (inv : P -> Prop) (f : P -> Z) (n : nat) (step : P -> P) s p :
  (forall s, inv s -> getNextPriority s = Ret (f s, step s) /\ inv (step s)) ->
  inv s -> f (Nat.iter n step s) = p -> exists k, (k <= n)%nat /\ first_draw p k s.
Proof.
  intros Hstep. revert s. induction n as [|n IH]; intros s Hs Hp.
  - destruct (Hstep s Hs) as [E _]. exists 0%nat. split; [done|]. rewrite <- Hp. econstructor. exact E.
  - destruct (Hstep s Hs) as [E Hs']. destruct (decide (f s = p)) as [<-|Hne].
    + exists 0%nat. split; [lia|]. econstructor. exact E.
    + destruct (IH (step s) Hs') as (k & Hk & Hd).
      { rewrite <- Nat.iter_succ_r. exact Hp. }
      exists (S k). split; [lia|]. by econstructor.
Qed.
End draws.

Lemma iter_counter {S} (get : S -> Z) (step : S -> S) s n :
  (forall s, get (step s) = u8 (get s + 1)) -> 0 <= get s < 256 ->
  get (Nat.iter n step s) = u8 (get s + Z.of_nat n).
Proof.
  intros Hs H0. induction n as [|n IH].
  - simpl. rewrite Z.add_0_r, u8_small by done. done.
  - rewrite Nat.iter_succ, Hs, IH. unfold u8. rewrite Zplus_mod_idemp_l. f_equal. lia.
Qed.

(** ** Both patterns are fair *)

Definition simple_inv (s : Simple.SimplePriorityPattern) : Prop :=
  0 < Simple.priorityCount s <= 255 /\ 0 <= Simple.currentPriority s < 256.

Definition simple_step (s : Simple.SimplePriorityPattern) : Simple.SimplePriorityPattern :=
  Simple.mkSimple (Simple.priorityCount s) (u8 (Simple.currentPriority s + 1)).

Lemma simple_next s :
  simple_inv s ->
  Simple.next s = Ret (Simple.currentPriority s mod Simple.priorityCount s, simple_step s) /\
  simple_inv (simple_step s).
Proof.
  intros [Hn Hc]. unfold Simple.next. decide_bool. split; [done|]. split; [done|]. apply u8_range.
Qed.

#[export] Program Instance simple_spec : PrioritySpec Simple.SimplePriorityPattern := {|
  pp_inv := simple_inv;
  pp_period s := Z.to_nat (2 * Simple.priorityCount s)
|}.
Next Obligation. by intros s [? _]. Qed.
Next Obligation.
  intros s Hs. destruct (simple_next s Hs) as [E Hs']. eexists _, _. split; [exact E|].
  split; [done|]. split; [apply Z.mod_pos_bound; apply Hs|done].
Qed.
Next Obligation.
  intros s p Hs Hp. pose proof Hs as [Hm Hc]. simpl in *.
  destruct (counter_hits (Simple.priorityCount s) (Simple.currentPriority s) p) as (k & Hk & E); [lia|lia|lia|].
  destruct (first_draw_exists
    (fun s' => simple_inv s' /\ Simple.priorityCount s' = Simple.priorityCount s)
    (fun s' => Simple.currentPriority s' mod Simple.priorityCount s) (Z.to_nat k) simple_step s p)
    as (n & Hn & Hd); [|done| |exists n; split; [lia|done]].
  - intros s' [Hs' <-]. destruct (simple_next s' Hs') as [E' Hi]. by split.
  - rewrite (iter_counter Simple.currentPriority simple_step) by done. by rewrite Z2Nat.id by lia.
Qed.

(** The table of an access array pattern: entries are priorities, and each
    positive priority is among them. *)
Record aa_inv (s : AccessArray.AccessArrayPriorityPattern) : Prop := {
  aa_wf : Array.wf (AccessArray.accessArray s);
  aa_count : 0 < AccessArray.priorityCount s <= 255;
  aa_length : capacity (AccessArray.accessArray s) <= 255;
  aa_index : 0 <= AccessArray.currentIndex s < 256;
  aa_range : Forall (fun p => 0 <= p < AccessArray.priorityCount s) (array (AccessArray.accessArray s));
  aa_all : forall p, 0 < p < AccessArray.priorityCount s -> p ∈ array (AccessArray.accessArray s)
}.

Definition aa_step (s : AccessArray.AccessArrayPriorityPattern) : AccessArray.AccessArrayPriorityPattern :=
  AccessArray.mkAccessArray (AccessArray.priorityCount s) (AccessArray.accessArray s)
    (u8 (AccessArray.currentIndex s + 1)).

(** The priority at a position of the round; behind the table it is 0. *)
Definition aa_value (a : Array Z) (index : Z) : Z := default 0 (array a !! Z.to_nat index).

Definition aa_draw (s : AccessArray.AccessArrayPriorityPattern) : Z :=
  aa_value (AccessArray.accessArray s)
    (AccessArray.currentIndex s mod (capacity (AccessArray.accessArray s) + 1)).

Lemma aa_inv_step s : aa_inv s -> aa_inv (aa_step s).
Proof. intros [? ? ? ? ? ?]. constructor; simpl; try done. apply u8_range. Qed.

Lemma aa_next s : aa_inv s -> AccessArray.next s = Ret (aa_draw s, aa_step s).
Proof.
  intros [[Hl Hc] _ Hb Hi _ _]. unfold AccessArray.next, aa_draw, aa_value, length_.
  set (a := AccessArray.accessArray s) in *. rewrite (u32_small (capacity a + 1)) by (unfold is_u32; lia).
  pose proof (Z.mod_pos_bound (AccessArray.currentIndex s) (capacity a + 1) ltac:(lia)) as Hr.
  rewrite u8_small by (unfold is_u8; lia). split_guard.
  - rewrite lookup_ge_None_2; [done|]. lia.
  - unfold at_. decide_bool.
    destruct (lookup_lt_is_Some_ex (array a) (Z.to_nat (AccessArray.currentIndex s mod (capacity a + 1))))
      as [p ->]; [lia|]. done.
Qed.

#[export] Program Instance access_array_spec : PrioritySpec AccessArray.AccessArrayPriorityPattern := {|
  pp_inv := aa_inv;
  pp_period s := Z.to_nat (2 * (capacity (AccessArray.accessArray s) + 1))
|}.
Next Obligation. by intros s [_ ? _ _ _ _]. Qed.
Next Obligation.
  intros s Hs. eexists _, _. split; [by apply aa_next|]. split; [by apply aa_inv_step|].
  split; [|done]. simpl. unfold aa_draw, aa_value. destruct Hs as [_ Hn _ _ Hf _].
  destruct (_ !! _) as [p|] eqn:E; [|simpl; lia].
  rewrite Forall_lookup in Hf. by apply (Hf _ _ E).
Qed.
Next Obligation.
  intros s p Hs Hp. pose proof Hs as [[Hl _] Hn Hb Hi Hf Ha]. simpl in *.
  set (a := AccessArray.accessArray s) in *.
  assert (Hr : exists r, 0 <= r < capacity a + 1 /\ aa_value a r = p).
  { unfold aa_value. destruct (decide (p = 0)) as [->|Hne].
    - exists (capacity a). split; [lia|]. rewrite lookup_ge_None_2; [done|lia].
    - destruct (list_elem_of_lookup_1 _ _ (Ha p ltac:(lia))) as [i Hip].
      pose proof (lookup_lt_Some _ _ _ Hip). exists (Z.of_nat i). split; [lia|]. by rewrite Nat2Z.id, Hip. }
  destruct Hr as (r & Hr & Hv).
  destruct (counter_hits (capacity a + 1) (AccessArray.currentIndex s) r) as (k & Hk & E); [lia|lia|lia|].
  destruct (first_draw_exists
    (fun s' => aa_inv s' /\ AccessArray.accessArray s' = a)
    aa_draw (Z.to_nat k) aa_step s p) as (n & Hd & Hfd); [|done| |exists n; split; [lia|done]].
  - intros s' [Hs' Ea]. split; [by apply aa_next|]. split; [by apply aa_inv_step|done].
  - unfold aa_draw. rewrite (iter_counter AccessArray.currentIndex aa_step) by done.
    assert (AccessArray.accessArray (Nat.iter (Z.to_nat k) aa_step s) = a) as ->.
    { clear. induction (Z.to_nat k) as [|n IH]; [done|]. by rewrite Nat.iter_succ. }
    rewrite Z2Nat.id by lia. by rewrite E.
Qed.

(** ** The constructor of [AccessArrayPriorityPattern] *)

Definition zsum (l : list Z) : Z := foldr Z.add 0 l.

Lemma zsum_app l1 l2 : zsum (l1 ++ l2) = zsum l1 + zsum l2.
Proof. induction l1 as [|x l1 IH]; [done|]. simpl. fold (zsum (l1 ++ l2)) (zsum l1). lia. Qed.

Lemma zsum_insert l i x y : l !! i = Some x -> zsum (<[i := y]> l) = zsum l - x + y.
Proof.
  intros H. pose proof (lookup_lt_Some _ _ _ H).
  rewrite insert_take_drop by done. rewrite <- (take_drop_middle l i x H) at 3.
  rewrite !zsum_app. simpl. fold (zsum (drop (S i) l)). lia.
Qed.

Lemma zsum_nonneg l : Forall (fun x => 0 <= x) l -> 0 <= zsum l.
Proof. induction 1; simpl; [lia|]. fold (zsum l). lia. Qed.

(** A list of numbers with a positive sum has a positive element. *)
Lemma zsum_pos l :
  Forall (fun x => 0 <= x) l -> 0 < zsum l -> exists j x, l !! j = Some x /\ 0 < x.
Proof.
  induction 1 as [|x l Hx _ IH]; simpl; [lia|]. fold (zsum l). intros Hs.
  destruct (decide (0 < x)); [by exists 0%nat, x|].
  destruct IH as (j & y & ? & ?); [lia|]. by exists (S j), y.
Qed.

Lemma zsum_seqZ n : 0 <= n -> 2 * zsum (seqZ 0 n) = n * (n - 1).
Proof.
  intros Hn. pattern n. apply natlike_ind; [done| |done]. clear n Hn. intros n Hn IH.
  unfold Z.succ. rewrite seqZ_app by lia. rewrite zsum_app. simpl. lia.
Qed.

(** The search for a priority with something left ends within one round. *)
Lemma skip_empty_spec fuel tmp count index j x :
  Z.of_nat (length tmp) = count -> 0 < count <= 255 -> 0 <= index < count ->
  tmp !! Z.to_nat j = Some x -> x <> 0 -> 0 <= j < count -> (j - index) mod count < Z.of_nat fuel ->
  exists r t, AccessArray.skip_empty fuel tmp count index = Ret r /\ 0 <= r < count /\
    tmp !! Z.to_nat r = Some t /\ t <> 0.
Proof.
  intros Hl Hc. revert index. induction fuel as [|fuel IH]; intros index Hi Hj Hx Hjr Hd.
  - pose proof (Z.mod_pos_bound (j - index) count). lia.
  - cbn [AccessArray.skip_empty].
    destruct (lookup_lt_is_Some_ex tmp (Z.to_nat index)) as [t Ht]; [lia|]. rewrite Ht. outcome.
    destruct (Z.eqb_spec t 0) as [->|Ht0]; [|by exists index, t]. decide_bool.
    assert (Hne : j <> index) by congruence.
    assert (Hn : 0 <= u8 (index + 1) mod count < count) by (apply Z.mod_pos_bound; lia).
    apply IH; [done|done|done|done|].
    rewrite u8_small by (unfold is_u8; lia).
    rewrite Zminus_mod_idemp_r. replace (j - (index + 1)) with (j - index - 1) by lia.
    destruct (Z.lt_ge_cases j index).
    + rewrite <- (Z.mod_add (j - index) 1 count) in Hd by lia.
      rewrite <- (Z.mod_add (j - index - 1) 1 count) by lia.
      rewrite Z.mod_small in Hd |- * by lia. lia.
    + rewrite Z.mod_small in Hd |- * by lia. lia.
Qed.

Definition occurrences (p : Z) (l : list Z) : Z := Z.of_nat (length (filter (fun q => q = p) l)).

Lemma zsum_elem l i x : Forall (fun x => 0 <= x) l -> l !! i = Some x -> x <= zsum l.
Proof.
  intros Hl. revert i. induction Hl as [|y l Hy Hl IH]; intros [|i]; simpl; try done; fold (zsum l).
  - intros [= ->]. pose proof (zsum_nonneg l Hl). lia.
  - intros H. specialize (IH _ H). lia.
Qed.

Lemma take_insert_S {A} (l : list A) (i : nat) x :
  (i < length l)%nat -> take (S i) (<[i := x]> l) = take i l ++ [x].
Proof.
  intros Hi. rewrite (take_S_r _ _ x) by (by apply list_lookup_insert_eq).
  by rewrite take_insert_ge by lia.
Qed.

(** The constructor's loop writes every priority as often as [tmp] says. *)
Lemma fill_spec n i tmp count index (a : Array Z) :
  Z.of_nat (length tmp) = count -> 0 < count <= 255 -> Forall (fun x => 0 <= x < 256) tmp ->
  zsum tmp = Z.of_nat n -> 0 <= index < count -> Array.wf a -> 0 <= i -> i + Z.of_nat n = capacity a ->
  exists a' l, AccessArray.fill n i tmp count index a = Ret a' /\ Array.wf a' /\ capacity a' = capacity a /\
    array a' = take (Z.to_nat i) (array a) ++ l /\ length l = n /\ Forall (fun p => 0 <= p < count) l /\
    (forall p x, 0 <= p -> tmp !! Z.to_nat p = Some x -> occurrences p l = x).
Proof.
  intros Hl Hc. revert i tmp index a Hl. induction n as [|n IH]; intros i tmp index a Hl Ht Hs Hi Hw Hi0 Hn.
  - assert (Hnn : Forall (fun x => 0 <= x) tmp) by (eapply Forall_impl; [done|simpl; lia]).
    exists a, []. split_and!; try done.
    + rewrite app_nil_r, firstn_all2; [done|]. destruct Hw. lia.
    + intros p x _ Hx. pose proof (zsum_elem _ _ _ Hnn Hx). rewrite Forall_lookup in Hnn.
      specialize (Hnn _ _ Hx). unfold occurrences. simpl in *. lia.
  - assert (Hnn : Forall (fun x => 0 <= x) tmp) by (eapply Forall_impl; [done|simpl; lia]).
    destruct (zsum_pos tmp Hnn ltac:(lia)) as (j & x & Hj & Hx). pose proof (lookup_lt_Some _ _ _ Hj).
    cbn [AccessArray.fill].
    destruct (skip_empty_spec (S (Z.to_nat count)) tmp count index (Z.of_nat j) x)
      as (r & t & -> & Hr & Hrt & Ht0); [done|done|done|by rewrite Nat2Z.id|lia|lia| |].
    { pose proof (Z.mod_pos_bound (Z.of_nat j - index) count). lia. }
    outcome. destruct Hw as [Hw1 Hw2].
    rewrite put_in_range by (split; lia || done). outcome. rewrite Hrt. outcome. decide_bool.
    assert (Htr : 0 <= t < 256) by (rewrite Forall_lookup in Ht; by apply (Ht _ _ Hrt)).
    rewrite (u8_small (t - 1)) by (unfold is_u8; lia).
    destruct (IH (i + 1) (<[Z.to_nat r := t - 1]> tmp) (u8 (r + 1) mod count)
      (mkArray (<[Z.to_nat i := r]> (array a)) (capacity a)))
      as (a' & l & -> & Hw' & Hc' & Ha' & Hll & Hf & Hocc).
    + by rewrite length_insert.
    + apply Forall_insert; [done|lia].
    + rewrite (zsum_insert _ _ t) by done. lia.
    + apply Z.mod_pos_bound. lia.
    + split; simpl; [by rewrite length_insert|done].
    + lia.
    + simpl. lia.
    + simpl in Ha', Hc'. exists a', (r :: l). split_and!; try done.
      * rewrite Ha'. replace (Z.to_nat (i + 1)) with (S (Z.to_nat i)) by lia.
        rewrite take_insert_S by lia. by rewrite <- app_assoc.
      * simpl. lia.
      * by constructor.
      * intros p y Hp Hy. unfold occurrences. rewrite filter_cons. case_decide as E.
        -- subst p. specialize (Hocc r (t - 1) Hp). rewrite list_lookup_insert_eq in Hocc by lia.
           specialize (Hocc eq_refl). unfold occurrences in Hocc. simpl. rewrite Hrt in Hy.
           injection Hy as ->. lia.
        -- specialize (Hocc p y Hp). rewrite list_lookup_insert_ne in Hocc by lia. by apply Hocc.
Qed.

Lemma entries_val count : 0 <= count <= 255 -> 2 * AccessArray.entries count = count * (count - 1).
Proof.
  intros Hc. unfold AccessArray.entries. rewrite u32_small by (unfold is_u32; nia).
  rewrite <- (zsum_seqZ count) by lia. rewrite (Z.mul_comm 2 (zsum _)), Z.div_mul by lia. lia.
Qed.

Lemma elem_of_occurrences p l : 0 < occurrences p l -> p ∈ l.
Proof.
  unfold occurrences. intros H. destruct (filter (fun q => q = p) l) as [|x l'] eqn:E; [simpl in H; lia|].
  assert (Hx : x ∈ filter (fun q => q = p) l) by (rewrite E; left).
  apply list_elem_of_filter in Hx as [<- Hx]. done.
Qed.

(** The pattern the constructor builds. *)
Lemma new_pattern_spec count c :
  0 < count <= 255 ->
  exists s, AccessArray.new_AccessArrayPriorityPattern count c = Ret s /\
    AccessArray.priorityCount s = count /\ AccessArray.currentIndex s = c /\
    Array.wf (AccessArray.accessArray s) /\
    capacity (AccessArray.accessArray s) = AccessArray.entries count /\
    Forall (fun p => 0 <= p < count) (array (AccessArray.accessArray s)) /\
    (forall p, 0 <= p < count -> occurrences p (array (AccessArray.accessArray s)) = p).
Proof.
  intros Hc. unfold AccessArray.new_AccessArrayPriorityPattern.
  assert (Hbc : base_count count = count).
  { unfold base_count. decide_bool. apply u8_small. unfold is_u8. lia. }
  rewrite Hbc. pose proof (entries_val count ltac:(lia)) as He. pose proof (zsum_seqZ count ltac:(lia)) as Hz.
  assert (Hb : 0 <= AccessArray.entries count < 2 ^ 32) by nia.
  destruct (fill_spec (Z.to_nat (AccessArray.entries count)) 0 (seqZ 0 count) count (u8 (count - 1))
    (new_Array (AccessArray.entries count)))
    as (a & l & -> & Hw & Hcap & Ha & Hll & Hf & Hocc).
  - rewrite length_seqZ. lia.
  - done.
  - apply Forall_lookup_2. intros i x Hx%lookup_seqZ. lia.
  - lia.
  - rewrite u8_small by (unfold is_u8; lia). lia.
  - apply wf_new_Array. unfold is_u32. lia.
  - lia.
  - simpl. lia.
  - outcome. simpl in Ha. subst l. eexists. split; [done|]. simpl. split_and!; try done.
    intros p Hp. apply Hocc; [lia|]. rewrite lookup_seqZ_lt by lia. f_equal. lia.
Qed.

(** The pattern for [count] priorities holds priority [p] exactly [p] times
    and draws 0 once behind it, so higher priorities get proportionally more
    turns. As long as a round fits the 8-bit call counter, which it does up to
    23 priorities, every priority is drawn within two rounds from any state. *)
Theorem access_array_proportional count c :
  0 < count <= 23 -> 0 <= c < 256 ->
  exists s, AccessArray.new_AccessArrayPriorityPattern count c = Ret s /\
    (forall p, 0 <= p < count -> occurrences p (array (AccessArray.accessArray s)) = p) /\
    2 * capacity (AccessArray.accessArray s) = count * (count - 1) /\
    aa_inv s /\
    (forall p, 0 <= p < count -> exists n, Z.of_nat n < 2 * (capacity (AccessArray.accessArray s) + 1) /\
       first_draw p n s).
Proof.
  intros Hc Hi. destruct (new_pattern_spec count c ltac:(lia)) as (s & E & Hp & Hci & Hw & Hcap & Hf & Hocc).
  pose proof (entries_val count ltac:(lia)) as He.
  assert (Hinv : aa_inv s).
  { constructor; rewrite ?Hp, ?Hci, ?Hcap; try done; try lia; [nia|].
    intros p Hpr. apply elem_of_occurrences. rewrite Hocc; lia. }
  exists s. split_and!; try done; [lia|].
  intros p Hpr. destruct (@pp_fair _ _ access_array_spec s p Hinv) as (n & Hn & Hd); [simpl; by rewrite Hp|].
  exists n. split; [|done]. simpl in Hn. destruct Hw. lia.
Qed.

Lemma access_array_proportional_witness :
  exists s, AccessArray.new_AccessArrayPriorityPattern 5 0 = Ret s /\ aa_inv s /\
    array (AccessArray.accessArray s) = [4; 1; 2; 3; 4; 2; 3; 4; 3; 4].
Proof.
  destruct (access_array_proportional 5 0) as (s & E & _ & _ & Hi & _); [lia|lia|].
  exists s. split; [exact E|]. split; [exact Hi|]. vm_compute in E. injection E as <-. reflexivity.
Defined.

(** Where a round is longer than the counter reaches, every draw comes from the
    table. *)
Lemma long_round_next s :
  Array.wf (AccessArray.accessArray s) -> 256 <= capacity (AccessArray.accessArray s) < 2 ^ 32 - 1 ->
  0 <= AccessArray.currentIndex s < 256 ->
  exists p, AccessArray.next s = Ret (p, aa_step s) /\ p ∈ array (AccessArray.accessArray s).
Proof.
  intros Hw Hcap Hi. unfold AccessArray.next, length_. set (a := AccessArray.accessArray s) in *.
  rewrite (u32_small (capacity a + 1)) by (unfold is_u32; lia).
  rewrite Z.mod_small by lia. rewrite u8_small by (unfold is_u8; lia). decide_bool. pose proof Hw as [Hl _].
  destruct (lookup_lt_is_Some_ex (array a) (Z.to_nat (AccessArray.currentIndex s))) as [p Hp]; [lia|].
  rewrite (at_in_range _ _ p) by (done || lia). exists p. split; [done|]. by eapply list_elem_of_lookup_2.
Qed.

(** With more than 23 priorities the round is longer than the 8-bit counter
    reaches, and priority 0 is never drawn: its threads would starve. *)
Theorem long_round_starves_lowest count c s n :
  24 <= count <= 255 -> 0 <= c < 256 -> AccessArray.new_AccessArrayPriorityPattern count c = Ret s ->
  ~ first_draw 0 n s.
Proof.
  intros Hc Hi E. destruct (new_pattern_spec count c ltac:(lia)) as (s' & E' & Hp & Hci & Hw & Hcap & Hf & Hocc).
  rewrite E in E'. injection E' as <-. pose proof (entries_val count ltac:(lia)) as He.
  assert (H0 : 0 ∉ array (AccessArray.accessArray s)).
  { intros Hin. specialize (Hocc 0 ltac:(lia)). unfold occurrences in Hocc.
    assert (Hin' : 0 ∈ filter (fun q => q = 0) (array (AccessArray.accessArray s)))
      by (by apply list_elem_of_filter).
    destruct (filter _ _) as [|x l]; [by apply not_elem_of_nil in Hin'|simpl in Hocc; lia]. }
  assert (Hb : 256 <= capacity (AccessArray.accessArray s) < 2 ^ 32 - 1) by nia.
  rewrite <- Hci in Hi. clear E Hp Hci Hcap Hf Hocc He. revert s Hi Hw Hb H0.
  induction n as [|n IH]; intros s Hi Hw Hb H0 Hd;
    destruct (long_round_next s Hw Hb Hi) as (p & En & Hp); inversion Hd as [? ? E|q ? s2 ? E Hq Hd']; subst.
  - change (AccessArray.next s = Ret (0, s')) in E. rewrite En in E. injection E as -> _. done.
  - change (AccessArray.next s = Ret (q, s2)) in E. rewrite En in E. injection E as _ <-.
    revert Hd'. apply IH; [apply u8_range|done|done|done].
Qed.

Lemma long_round_starves_lowest_witness :
  exists s, AccessArray.new_AccessArrayPriorityPattern 24 0 = Ret s /\ forall n, ~ first_draw 0 n s.
Proof.
  destruct (AccessArray.new_AccessArrayPriorityPattern 24 0) as [s| | |] eqn:E;
    try (vm_compute in E; discriminate E).
  exists s. split; [done|]. intros n. apply (long_round_starves_lowest 24 0 s n); [lia|lia|exact E].
Defined.
