(* ===== verification/Scheduler.v ===== *)
(** * Threads and the scheduler

    [kernel/thread/Scheduler.cpp], [kernel/thread/Thread.cpp] and
    [lib/system/IdGenerator.cpp]. The scheduler keeps one ready queue per
    priority, drawn from in the order a priority pattern gives; queues hold
    pointers to shared [Thread] objects. The model is generic in the queue and
    the pattern and its theorems are proved against their interfaces. The
    assembly routines [startThread] and [switchContext] end by releasing the
    scheduler's lock on behalf of the thread they switch to; of the thread's
    own state only what the scheduler reads and writes is kept. *)

From S2P Require Import Prelude Array Spinlock Collections ArrayList Priority.

(** The members of [Thread] that the scheduler uses. *)
Record Thread := mkThread {
  id : Z;
  priority : Z;
  started : bool;
  finished : bool
}.

Definition set_priority (p : Z) (t : Thread) : Thread := mkThread (id t) p (started t) (finished t).
Definition set_started (t : Thread) : Thread := mkThread (id t) (priority t) true (finished t).
Definition set_finished (t : Thread) : Thread := mkThread (id t) (priority t) (started t) true.

(** [currentThread] is 0 for the null pointer; [threads] are the thread objects
    by address, [nextId] is the static generator of identifiers. *)
Record Scheduler (P Q : Type) := mkScheduler {
  initialized : bool;
  currentThread : Z;
  pattern : P;
  readyQueues : Array Q;
  lock : Spinlock;
  threads : gmap Z Thread;
  nextId : Atomic
}.
Arguments mkScheduler {P Q} _ _ _ _ _ _ _.
Arguments initialized {P Q} _.
Arguments currentThread {P Q} _.
Arguments pattern {P Q} _.
Arguments readyQueues {P Q} _.
Arguments lock {P Q} _.
Arguments threads {P Q} _.
Arguments nextId {P Q} _.

Section Operations.
Context {P : Type} `{PriorityPattern P} {Q : Type} `{QueueOps Q Z}.

Abbreviation SC := (ST (Scheduler P Q)).

Definition set_current (t : Z) (s : Scheduler P Q) : Scheduler P Q :=
  mkScheduler (initialized s) t (pattern s) (readyQueues s) (lock s) (threads s) (nextId s).
Definition set_initialized (s : Scheduler P Q) : Scheduler P Q :=
  mkScheduler true (currentThread s) (pattern s) (readyQueues s) (lock s) (threads s) (nextId s).
Definition set_pattern (p : P) (s : Scheduler P Q) : Scheduler P Q :=
  mkScheduler (initialized s) (currentThread s) p (readyQueues s) (lock s) (threads s) (nextId s).
Definition set_queues (a : Array Q) (s : Scheduler P Q) : Scheduler P Q :=
  mkScheduler (initialized s) (currentThread s) (pattern s) a (lock s) (threads s) (nextId s).
Definition set_lock (l : Spinlock) (s : Scheduler P Q) : Scheduler P Q :=
  mkScheduler (initialized s) (currentThread s) (pattern s) (readyQueues s) l (threads s) (nextId s).
Definition set_threads (m : gmap Z Thread) (s : Scheduler P Q) : Scheduler P Q :=
  mkScheduler (initialized s) (currentThread s) (pattern s) (readyQueues s) (lock s) m (nextId s).

(** [Scheduler(priority)]: the queues are default constructed. *)
Definition new_Scheduler (newQueue : Q) (priority : P) : Scheduler P Q :=
  let n := getPriorityCount priority in
  mkScheduler false 0 priority (mkArray (replicate (Z.to_nat n) newQueue) n) new_Spinlock ∅ (new_Atomic 0).

(** ** Access to the shared objects *)

Definition lock_acquire : SC unit := fun s => l ← acquire 1 (lock s); Ret (tt, set_lock l s).
Definition lock_release : SC unit := modify (fun s => set_lock (release (lock s)) s).

(** [*that] and [that->field = ...]. *)
Definition deref (that : Z) : SC Thread := fun s => t ← or_fault (threads s !! that); Ret (t, s).
Definition update (f : Thread -> Thread) (that : Z) : SC unit := fun s =>
  t ← or_fault (threads s !! that); Ret (tt, set_threads (<[that := f t]> (threads s)) s).

(** [readyQueues[i].push(that)] and [.remove(that)]. *)
Definition push_ready (i that : Z) : SC unit := fun s =>
  q ← at_ (readyQueues s) i;
  q ← push that q;
  a ← Array.put (readyQueues s) i q;
  Ret (tt, set_queues a s).

Definition remove_ready (i that : Z) : SC unit := fun s =>
  q ← at_ (readyQueues s) i;
  '(_, q) ← c_remove that q;
  a ← Array.put (readyQueues s) i q;
  Ret (tt, set_queues a s).

(** ** Queries *)

Definition isThreadWaiting (s : Scheduler P Q) : bool :=
  existsb (fun q => negb (c_isEmpty q)) (array (readyQueues s)).

Definition getThreadCount (s : Scheduler P Q) : Z :=
  foldl (fun count q => u32 (count + c_size q)) 0 (array (readyQueues s)).

Definition maxPriority (s : Scheduler P Q) : Z := u8 (length_ (readyQueues s) - 1).

Definition clamp_priority (p : Z) (s : Scheduler P Q) : Z :=
  u8 (if maxPriority s <? p then maxPriority s else p).

(** ** Choosing the next thread *)

(** Draws until a queue is not empty; the queue is popped. *)
Fixpoint draw_thread (fuel : nat) : SC Z := fun s =>
  match fuel with
  | O => Diverge
  | S fuel =>
      '(p, pt) ← getNextPriority (pattern s);
      q ← at_ (readyQueues s) p;
      if c_isEmpty q then draw_thread fuel (set_pattern pt s)
      else
        '(t, q) ← pop q;
        a ← Array.put (readyQueues s) p q;
        Ret (t, set_queues a (set_pattern pt s))
  end.

Definition getNextThread (fuel : nat) : SC Z :=
  waiting ← gets isThreadWaiting;
  if negb waiting then throw ILLEGAL_STATE else draw_thread fuel.

(** The thread switched to runs on; its part of [switchContext] releases the lock. *)
Definition dispatch (next : Z) : SC unit :=
  ini ← gets initialized;
  if negb ini then throw ILLEGAL_STATE
  else
    current ← gets currentThread;
    _ ← deref current;
    _ ← modify (set_current next);
    _ ← deref next;
    lock_release.

(** ** The operations of the scheduler *)

Definition startUp (fuel : nat) : SC unit :=
  _ ← lock_acquire;
  waiting ← gets isThreadWaiting;
  if negb waiting then throw ILLEGAL_STATE
  else
    next ← getNextThread fuel;
    _ ← modify (set_current next);
    _ ← modify set_initialized;
    _ ← deref next;
    lock_release.

Definition ready (that : Z) : SC unit :=
  t ← deref that;
  if started t then throw ILLEGAL_STATE
  else
    _ ← lock_acquire;
    _ ← push_ready (priority t) that;
    _ ← update set_started that;
    lock_release.

Definition exit (fuel : nat) : SC unit :=
  _ ← lock_acquire;
  ini ← gets initialized;
  if negb ini then throw ILLEGAL_STATE
  else
    waiting ← gets isThreadWaiting;
    if negb waiting then throw ILLEGAL_STATE
    else
      next ← getNextThread fuel;
      current ← gets currentThread;
      _ ← update set_finished current;
      dispatch next.

Definition kill (that : Z) : SC unit :=
  _ ← lock_acquire;
  ini ← gets initialized;
  if negb ini then throw ILLEGAL_STATE
  else
    t ← deref that;
    current ← gets currentThread;
    c ← deref current;
    if id t =? id c then throw ILLEGAL_STATE
    else
      _ ← remove_ready (priority t) that;
      _ ← update set_finished that;
      lock_release.

Definition yield (fuel : nat) : SC unit :=
  waiting ← gets isThreadWaiting;
  if negb waiting then mret tt
  else
    got ← (fun s => let '(b, l) := tryAcquire (lock s) in Ret (b, set_lock l s));
    if negb got then mret tt
    else
      next ← getNextThread fuel;
      current ← gets currentThread;
      c ← deref current;
      _ ← push_ready (priority c) current;
      dispatch next.

Definition block (fuel : nat) : SC unit :=
  waiting ← gets isThreadWaiting;
  if negb waiting then throw ILLEGAL_STATE
  else
    _ ← lock_acquire;
    next ← getNextThread fuel;
    dispatch next.

Definition deblock (that : Z) : SC unit :=
  _ ← lock_acquire;
  ini ← gets initialized;
  if negb ini then throw ILLEGAL_STATE
  else
    t ← deref that;
    _ ← push_ready (priority t) that;
    lock_release.

Definition changePriority (that p : Z) : SC Z :=
  p ← gets (clamp_priority p);
  _ ← lock_acquire;
  current ← gets currentThread;
  if that =? current then _ ← lock_release; mret p
  else
    t ← deref that;
    _ ← remove_ready (priority t) that;
    _ ← push_ready p that;
    _ ← lock_release;
    mret p.

(** The system call [SCHEDULER_YIELD]: whether the scheduler is running. *)
Definition yield_call (fuel : nat) : SC bool :=
  ini ← gets initialized;
  if (ini : bool) then _ ← yield fuel; mret true else mret false.

(** ** [Thread] *)

(** The constructors, for an object at the free address [that]: without a
    priority it is the middle one. *)
Definition getId : SC Z := fun s =>
  let '(i, n) := fetchAndInc 32 (nextId s) in
  Ret (i, mkScheduler (initialized s) (currentThread s) (pattern s) (readyQueues s) (lock s) (threads s) n).

Definition construct (that p : Z) : SC unit :=
  i ← getId;
  modify (fun s => set_threads (<[that := mkThread i p false false]> (threads s)) s).

Definition new_Thread (that : Z) : SC unit :=
  p ← gets (fun s => u8 (maxPriority s / 2)); construct that p.

Definition new_Thread_priority (that p : Z) : SC unit :=
  p ← gets (clamp_priority p); construct that p.

Definition start (that : Z) : SC unit := ready that.

Definition setPriority (that p : Z) : SC unit :=
  p ← changePriority that p; update (set_priority p) that.

(** One round of [join]: the caller yields unless [that] has finished. *)
Definition join_round (fuel : nat) (that : Z) : SC bool :=
  t ← deref that;
  if finished t then mret true else _ ← yield_call fuel; mret false.

End Operations.

(** ** The life of a thread *)

Inductive Status := New | Ready | Running | Blocked | Finished.

#[export] Instance Status_eq_dec : EqDecision Status.
Proof. solve_decision. Defined.

Section Views.
Context {P : Type} `{PS : PrioritySpec P} {Q : Type} `{QS : QueueSpec Q Z} `{QR : !QueueRemoveSpec Q Z}.
Implicit Types (s : Scheduler P Q) (t : Z) (vs : list (list Z)).

(** The contents of the ready queues, by priority. *)
Definition views s : list (list Z) := q_view <$> array (readyQueues s).

Definition queued vs t : Prop := exists i v, vs !! i = Some v /\ t ∈ v.

Lemma queued_concat vs t : queued vs t <-> t ∈ concat vs.
Proof.
  unfold queued. induction vs as [|w vs IH]; simpl.
  - split; [intros (i & v & ? & _); done|by intros ?%not_elem_of_nil].
  - rewrite elem_of_app, <- IH. split.
    + intros ([|i] & v & Hi & Ht); simpl in Hi; [injection Hi as ->; by left|right; by exists i, v].
    + intros [Ht|(i & v & Hi & Ht)]; [by exists 0%nat, w|by exists (S i), v].
Qed.

#[global] Instance queued_dec vs t : Decision (queued vs t).
Proof.
  destruct (decide (t ∈ concat vs)) as [Ht|Ht]; [left|right]; rewrite queued_concat; exact Ht.
Defined.

Definition status s t (th : Thread) : Status :=
  if negb (started th) then New
  else if finished th then Finished
  else if decide (t = currentThread s) then Running
  else if decide (queued (views s) t) then Ready
  else Blocked.

(** The abstract state: a status for each thread. *)
Definition abs s : gmap Z Status := map_imap (fun t th => Some (status s t th)) (threads s).

Definition live (th : Thread) : Prop := started th = true /\ finished th = false.

(** Every queue holds live threads of its priority, each once. *)
Record queues_ok (m : gmap Z Thread) vs : Prop := {
  qo_thread : forall i v t, vs !! i = Some v -> t ∈ v ->
    exists th, m !! t = Some th /\ live th /\ priority th = Z.of_nat i;
  qo_nodup : forall i v, vs !! i = Some v -> NoDup v
}.

Definition sane (a : Array Q) : Prop := Array.wf a /\ Forall q_inv (array a).

(** What holds also while the lock is taken. *)
Record core s : Prop := {
  si_pattern : pp_inv (pattern s);
  si_sane : sane (readyQueues s);
  si_count : capacity (readyQueues s) = getPriorityCount (pattern s);
  si_ok : queues_ok (threads s) (views s);
  si_priority : map_Forall (fun _ th => 0 <= priority th < capacity (readyQueues s)) (threads s);
  si_ids : forall t u th uh, threads s !! t = Some th -> threads s !! u = Some uh -> id th = id uh -> t = u;
  si_new : map_Forall (fun _ th => started th = false -> finished th = false) (threads s);
  si_size : Z.of_nat (base.size (threads s)) < 2 ^ 30
}.

(** The running thread is live and waits in no queue. *)
Definition running s : Prop :=
  if initialized s
  then (exists th, threads s !! currentThread s = Some th /\ live th) /\ ~ queued (views s) (currentThread s)
  else threads s !! currentThread s = None.

Record sched_inv s : Prop := {
  si_core : core s;
  si_lock : lock s = new_Spinlock;
  si_running : running s
}.

(** ** Queues *)

Lemma queued_insert vs i v w t :
  vs !! i = Some v ->
  queued (<[i := w]> vs) t <-> t ∈ w \/ exists j u, j <> i /\ vs !! j = Some u /\ t ∈ u.
Proof.
  intros Hi. pose proof (lookup_lt_Some _ _ _ Hi). unfold queued. split.
  - intros (j & u & Hj & Ht). destruct (decide (j = i)) as [->|Hne].
    + rewrite list_lookup_insert_eq in Hj by done. injection Hj as <-. by left.
    + rewrite list_lookup_insert_ne in Hj by done. right. by exists j, u.
  - intros [Ht|(j & u & Hne & Hj & Ht)].
    + exists i, w. by rewrite list_lookup_insert_eq by done.
    + exists j, u. by rewrite list_lookup_insert_ne by done.
Qed.

Lemma queued_split vs i v t :
  vs !! i = Some v -> queued vs t <-> t ∈ v \/ exists j u, j <> i /\ vs !! j = Some u /\ t ∈ u.
Proof. intros Hi. rewrite <- (queued_insert vs i v v t Hi). by rewrite list_insert_id. Qed.

Section with_queues.
Context (m : gmap Z Thread) (vs : list (list Z)) (Hok : queues_ok m vs).

(** A queued thread is in the queue of its priority and in no other. *)
Lemma queued_priority t th : m !! t = Some th -> queued vs t -> exists v, vs !! Z.to_nat (priority th) = Some v /\ t ∈ v.
Proof.
  intros Hm (i & v & Hi & Ht). destruct (qo_thread _ _ Hok i v t Hi Ht) as (th' & Hm' & _ & Hp).
  rewrite Hm in Hm'. injection Hm' as <-. exists v. by rewrite Hp, Nat2Z.id.
Qed.

Lemma same_queue i j v w t :
  vs !! i = Some v -> vs !! j = Some w -> t ∈ v -> t ∈ w -> i = j.
Proof.
  intros Hi Hj Hv Hw.
  destruct (qo_thread _ _ Hok i v t Hi Hv) as (th & Hm & _ & Hp).
  destruct (qo_thread _ _ Hok j w t Hj Hw) as (th' & Hm' & _ & Hp').
  rewrite Hm in Hm'. injection Hm' as <-. lia.
Qed.

Lemma queued_in_threads t : queued vs t -> exists th, m !! t = Some th /\ live th.
Proof. intros (i & v & Hi & Ht). destruct (qo_thread _ _ Hok i v t Hi Ht) as (th & ? & ? & _). by exists th. Qed.

(** Appending a thread that waits nowhere. *)
Lemma push_ok i v t th :
  vs !! i = Some v -> m !! t = Some th -> live th -> priority th = Z.of_nat i -> ~ queued vs t ->
  queues_ok m (<[i := v ++ [t]]> vs) /\ (forall u, queued (<[i := v ++ [t]]> vs) u <-> u = t \/ queued vs u).
Proof.
  intros Hi Hm Hl Hp Hnq. pose proof (lookup_lt_Some _ _ _ Hi). split.
  - constructor.
    + intros j w u Hj Hu. destruct (decide (j = i)) as [->|Hne].
      * rewrite list_lookup_insert_eq in Hj by done. injection Hj as <-.
        apply elem_of_app in Hu as [Hu|Hu%list_elem_of_singleton]; [by eapply qo_thread|subst; by exists th].
      * rewrite list_lookup_insert_ne in Hj by done. by eapply qo_thread.
    + intros j w Hj. destruct (decide (j = i)) as [->|Hne].
      * rewrite list_lookup_insert_eq in Hj by done. injection Hj as <-.
        apply NoDup_app. split_and!; [by eapply qo_nodup| |apply NoDup_singleton].
        intros u Hu ->%list_elem_of_singleton. apply Hnq. by exists i, v.
      * rewrite list_lookup_insert_ne in Hj by done. by eapply qo_nodup.
  - intros u. rewrite (queued_insert _ _ _ _ _ Hi), (queued_split _ _ _ _ Hi).
    rewrite elem_of_app, list_elem_of_singleton. tauto.
Qed.

(** Taking a thread out of its queue. *)
Lemma delete_ok i v k t :
  vs !! i = Some v -> v !! k = Some t ->
  queues_ok m (<[i := delete k v]> vs) /\
  (forall u, queued (<[i := delete k v]> vs) u <-> u <> t /\ queued vs u).
Proof.
  intros Hi Hk. pose proof (lookup_lt_Some _ _ _ Hi). pose proof (qo_nodup _ _ Hok i v Hi) as Hnd.
  assert (Hperm : v ≡ₚ t :: delete k v) by (by apply delete_Permutation).
  assert (Htv : t ∈ v) by (by eapply list_elem_of_lookup_2).
  assert (Hd : forall u, u ∈ delete k v <-> u <> t /\ u ∈ v).
  { intros u. assert (Huv : u ∈ v <-> u = t \/ u ∈ delete k v) by (by rewrite Hperm at 1; rewrite elem_of_cons).
    assert (Hnt : t ∉ delete k v) by (rewrite Hperm in Hnd; by apply NoDup_cons in Hnd as [? _]).
    rewrite Huv. split; [|naive_solver]. intros Hu. split; [by intros ->|by right]. }
  split.
  - constructor.
    + intros j w u Hj Hu. destruct (decide (j = i)) as [->|Hne].
      * rewrite list_lookup_insert_eq in Hj by done. injection Hj as <-. apply Hd in Hu as [_ Hu].
        by eapply qo_thread.
      * rewrite list_lookup_insert_ne in Hj by done. by eapply qo_thread.
    + intros j w Hj. destruct (decide (j = i)) as [->|Hne].
      * rewrite list_lookup_insert_eq in Hj by done. injection Hj as <-.
        rewrite Hperm in Hnd. by apply NoDup_cons in Hnd as [_ ?].
      * rewrite list_lookup_insert_ne in Hj by done. by eapply qo_nodup.
  - intros u. rewrite (queued_insert _ _ _ _ _ Hi), (queued_split _ _ _ _ Hi), Hd.
    split; [|naive_solver]. intros [[? ?]|(j & w & Hne & Hj & Hu)]; [naive_solver|]. split.
    + intros ->. apply Hne. by eapply same_queue.
    + right. by exists j, w.
Qed.
End with_queues.

(** ** What the operations do to the queues *)

Lemma queue_at (a : Array Q) i v :
  sane a -> (q_view <$> array a) !! i = Some v ->
  exists q, at_ a (Z.of_nat i) = Ret q /\ q_inv q /\ q_view q = v /\ array a !! i = Some q.
Proof.
  intros [Hw Hq] Hi. rewrite list_lookup_fmap in Hi. destruct (array a !! i) as [q|] eqn:E; [|done].
  injection Hi as <-. exists q. split_and!; try done.
  - rewrite (at_in_range _ _ q); [done|done|lia|by rewrite Nat2Z.id].
  - rewrite Forall_lookup in Hq. by eapply Hq.
Qed.

(** Storing a queue back. *)
Lemma queue_put (a : Array Q) i q0 q :
  sane a -> array a !! i = Some q0 -> q_inv q ->
  exists a', Array.put a (Z.of_nat i) q = Ret a' /\ sane a' /\ capacity a' = capacity a /\
    q_view <$> array a' = <[i := q_view q]> (q_view <$> array a).
Proof.
  intros [Hw Hq] Hi Hinv. pose proof (lookup_lt_Some _ _ _ Hi). pose proof Hw as [Hc _].
  rewrite put_in_range by (done || lia). rewrite Nat2Z.id. eexists. split; [done|]. split_and!; try done.
  - split; [split; simpl; [by rewrite length_insert|apply Hw]|]. simpl. by apply Forall_insert.
  - simpl. by rewrite list_fmap_insert.
Qed.

Lemma push_ready_run s i v t :
  sane (readyQueues s) -> views s !! i = Some v -> Z.of_nat (length v) < 2 ^ 30 ->
  exists a, push_ready (Z.of_nat i) t s = Ret (tt, set_queues a s) /\ sane a /\
    capacity a = capacity (readyQueues s) /\ q_view <$> array a = <[i := v ++ [t]]> (views s).
Proof.
  intros Hs Hi Hl. destruct (queue_at _ _ _ Hs Hi) as (q & E & Hq & Hv & Hai).
  unfold push_ready. rewrite E. outcome.
  destruct (q_push q t Hq ltac:(by rewrite Hv)) as (q' & -> & Hq' & Hv'). outcome.
  destruct (queue_put _ i q q' Hs Hai Hq') as (a & -> & Ha & Hc & Hva). outcome.
  exists a. by rewrite Hva, Hv', Hv.
Qed.

Lemma remove_ready_run s i v t :
  sane (readyQueues s) -> views s !! i = Some v ->
  exists a, remove_ready (Z.of_nat i) t s = Ret (tt, set_queues a s) /\ sane a /\
    capacity a = capacity (readyQueues s) /\
    q_view <$> array a = <[i := match list_find (fun y => t = y) v with
                                | Some (k, _) => delete k v | None => v end]> (views s).
Proof.
  intros Hs Hi. destruct (queue_at _ _ _ Hs Hi) as (q & E & Hq & Hv & Hai).
  unfold remove_ready. rewrite E. outcome.
  destruct (q_remove q t Hq) as (q' & -> & Hq' & Hv'). outcome.
  destruct (queue_put _ i q q' Hs Hai Hq') as (a & -> & Ha & Hc & Hva). outcome.
  exists a. rewrite Hva, Hv', Hv. split_and!; try done.
Qed.

Lemma waiting_views s : sane (readyQueues s) ->
  isThreadWaiting s = true <-> exists i x l, views s !! i = Some (x :: l).
Proof.
  intros [_ Hq]. unfold isThreadWaiting. rewrite existsb_exists. unfold views.
  split.
  - intros (q & Hin & He). apply list_elem_of_In, list_elem_of_lookup_1 in Hin as [i Hi].
    rewrite Forall_lookup in Hq. rewrite q_isEmpty in He by (by eapply Hq).
    apply negb_true_iff, bool_decide_eq_false in He.
    destruct (q_view q) as [|x l] eqn:E; [done|]. exists i, x, l. by rewrite list_lookup_fmap, Hi, <- E.
  - intros (i & x & l & Hi). rewrite list_lookup_fmap in Hi. destruct (array (readyQueues s) !! i) as [q|] eqn:E; [|done].
    injection Hi as Hv. exists q. split; [apply list_elem_of_In; by eapply list_elem_of_lookup_2|].
    rewrite Forall_lookup in Hq. rewrite q_isEmpty by (by eapply Hq). by rewrite Hv.
Qed.

(** The loop of [getNextThread]: when the queue of [p0] is not empty and [p0] is
    drawn after [n] other priorities, the loop ends by then. It pops the queue
    of [p0], or another one, after which [p0] is nearer than before. *)
Lemma draw_thread_run fuel n s p0 x0 l0 :
  sane (readyQueues s) -> pp_inv (pattern s) -> capacity (readyQueues s) = getPriorityCount (pattern s) ->
  first_draw (Z.of_nat p0) n (pattern s) -> views s !! p0 = Some (x0 :: l0) -> (n < fuel)%nat ->
  exists p x l pt a, draw_thread fuel s = Ret (x, set_queues a (set_pattern pt s)) /\
    views s !! p = Some (x :: l) /\ sane a /\ capacity a = capacity (readyQueues s) /\
    q_view <$> array a = <[p := l]> (views s) /\ pp_inv pt /\
    getPriorityCount pt = getPriorityCount (pattern s) /\ pp_period pt = pp_period (pattern s) /\
    (p = p0 \/ p <> p0 /\ exists n', (n' < n)%nat /\ first_draw (Z.of_nat p0) n' pt).
Proof.
  revert n s. induction fuel as [|fuel IH]; intros n s Hs Hpt Hcap Hfd Hv Hn; [lia|].
  cbn [draw_thread]. destruct (pp_next (pattern s) Hpt) as (p & pt & E & Hpt' & Hpr & Hpc & Hpp).
  rewrite E. outcome.
  assert (Hpv : exists v, views s !! Z.to_nat p = Some v).
  { apply lookup_lt_is_Some_ex. unfold views. rewrite length_fmap. destruct Hs as [[Hl _] _]. lia. }
  destruct Hpv as [v Hpv]. destruct (queue_at _ _ _ Hs Hpv) as (q & Ea & Hq & Hqv & Hai).
  rewrite Z2Nat.id in Ea by lia. rewrite Ea. outcome. rewrite q_isEmpty by done. rewrite Hqv.
  destruct v as [|x l].
  - rewrite bool_decide_true by done.
    inversion Hfd as [s1 s2 E'|q1 s1 s2 n1 E' Hne Hfd']; subst; rewrite E in E'.
    + injection E' as -> <-. rewrite Nat2Z.id in Hpv. congruence.
    + injection E' as -> <-.
      destruct (IH n1 (set_pattern pt s)) as (p' & x & l & pt2 & a & -> & H1 & H2 & H3 & H4 & H5 & H6 & H7 & H8);
        try done; [simpl; by rewrite Hpc|lia|].
      exists p', x, l, pt2, a. split_and!; try done.
      * by rewrite H6.
      * by rewrite H7.
      * destruct H8 as [?|(? & n' & ? & ?)]; [by left|right]. split; [done|]. exists n'. split; [lia|done].
  - rewrite bool_decide_false by done.
    destruct (q_pop q x l Hq Hqv) as (q' & -> & Hq' & Hv'). outcome.
    destruct (queue_put _ _ q q' Hs Hai Hq') as (a & Ep & Ha & Hc & Hva).
    rewrite Z2Nat.id in Ep by lia. rewrite Ep. outcome.
    exists (Z.to_nat p), x, l, pt, a. split_and!; try done.
    + by rewrite Hva, Hv'.
    + inversion Hfd as [s1 s2 E'|q1 s1 s2 n1 E' Hne Hfd']; subst; rewrite E in E'; injection E' as -> <-.
      * left. apply Nat2Z.id.
      * right. split; [intros <-; lia|]. exists n1. split; [lia|done].
Qed.

(** [getNextThread] returns, in a fixed number of draws, when a thread waits. *)
Lemma getNextThread_run fuel s :
  sane (readyQueues s) -> pp_inv (pattern s) -> capacity (readyQueues s) = getPriorityCount (pattern s) ->
  isThreadWaiting s = true -> (pp_period (pattern s) <= fuel)%nat ->
  exists p x l pt a, getNextThread fuel s = Ret (x, set_queues a (set_pattern pt s)) /\
    views s !! p = Some (x :: l) /\ sane a /\ capacity a = capacity (readyQueues s) /\
    q_view <$> array a = <[p := l]> (views s) /\ pp_inv pt /\
    getPriorityCount pt = getPriorityCount (pattern s) /\ pp_period pt = pp_period (pattern s).
Proof.
  intros Hs Hpt Hcap Hw Hf. unfold getNextThread. st_step. rewrite Hw. cbn [negb].
  destruct (proj1 (waiting_views s Hs) Hw) as (i & x & l & Hi).
  assert (Hir : 0 <= Z.of_nat i < getPriorityCount (pattern s)).
  { pose proof (lookup_lt_Some _ _ _ Hi) as Hl. unfold views in Hl. rewrite length_fmap in Hl.
    destruct Hs as [[? _] _]. lia. }
  destruct (pp_fair (pattern s) (Z.of_nat i) Hpt Hir) as (n & Hn & Hfd).
  destruct (draw_thread_run fuel n s i x l) as (p & x' & l' & pt & a & E & H1 & H2 & H3 & H4 & H5 & H6 & H7 & _);
    try done; [lia|].
  exists p, x', l', pt, a. done.
Qed.

(** ** Steps between two states of the scheduler *)

Lemma queue_length m vs i v :
  queues_ok m vs -> vs !! i = Some v -> (length v <= base.size m)%nat.
Proof.
  intros Hok Hi. pose proof (qo_nodup _ _ Hok i v Hi) as Hnd.
  rewrite <- (size_list_to_set (C:=gset Z) v) by done. rewrite <- size_dom. apply subseteq_size.
  intros t Ht%elem_of_list_to_set. destruct (qo_thread _ _ Hok i v t Hi Ht) as (th & Hm & _).
  apply elem_of_dom. by exists th.
Qed.

(** The queue of a thread's priority exists. *)
Lemma priority_queue s t th :
  core s -> threads s !! t = Some th ->
  exists v, views s !! Z.to_nat (priority th) = Some v /\ 0 <= priority th < capacity (readyQueues s).
Proof.
  intros Hc Ht. pose proof (si_priority _ Hc t th Ht) as Hp. simpl in Hp.
  destruct (lookup_lt_is_Some_ex (views s) (Z.to_nat (priority th))) as [v Hv]; [|by exists v].
  unfold views. rewrite length_fmap. destruct (si_sane _ Hc) as [[? _] _]. lia.
Qed.

Lemma core_lock l s : core s -> core (set_lock l s).
Proof. intros [? ? ? ? ? ? ? ?]. by constructor. Qed.

(** Another selection of queues, pattern and running thread. *)
Lemma core_queues s pt a :
  core s -> pp_inv pt -> getPriorityCount pt = getPriorityCount (pattern s) -> sane a ->
  capacity a = capacity (readyQueues s) -> queues_ok (threads s) (q_view <$> array a) ->
  core (set_queues a (set_pattern pt s)).
Proof. intros [? ? ? ? ? ? ? ?] ? ? ? Hc ?. constructor; simpl; try done; rewrite ?Hc; [congruence|done]. Qed.

Lemma core_push s a :
  core s -> sane a -> capacity a = capacity (readyQueues s) -> queues_ok (threads s) (q_view <$> array a) ->
  core (set_queues a s).
Proof. intros [? ? ? ? ? ? ? ?] ? Hc ?. constructor; simpl; try done; rewrite ?Hc; done. Qed.

(** A thread object changes; those in queues keep their priority and life. *)
Lemma core_update s t th th' :
  core s -> threads s !! t = Some th -> id th' = id th -> 0 <= priority th' < capacity (readyQueues s) ->
  (started th' = false -> finished th' = false) ->
  (queued (views s) t -> live th' /\ priority th' = priority th) ->
  core (set_threads (<[t := th']> (threads s)) s).
Proof.
  intros [Hp Hs Hc [Hq Hn] Hpr Hid Hnw Hsz] Ht Hi Hr Hs' Hl. constructor; simpl; try done.
  - constructor; [|done]. intros i v u Hiv Hu. destruct (Hq i v u Hiv Hu) as (uh & Huh & Hlu & Hpu).
    destruct (decide (u = t)) as [->|Hne].
    + rewrite lookup_insert_eq. exists th'. rewrite Ht in Huh. injection Huh as <-.
      destruct Hl as [? Hpe]; [by exists i, v|]. split_and!; [done|done|by rewrite Hpe].
    + rewrite lookup_insert_ne by done. by exists uh.
  - by apply map_Forall_insert_2.
  - assert (Hold : forall u uh, <[t := th']> (threads s) !! u = Some uh ->
      exists uh0, threads s !! u = Some uh0 /\ id uh0 = id uh).
    { intros u uh Hu. destruct (decide (u = t)) as [->|Hne].
      - rewrite lookup_insert_eq in Hu. injection Hu as <-. by exists th.
      - rewrite lookup_insert_ne in Hu by done. by exists uh. }
    intros u w uh wh Hu Hw He. destruct (Hold u uh Hu) as (u0 & ? & ?). destruct (Hold w wh Hw) as (w0 & ? & ?).
    apply (Hid u w u0 w0); [done|done|congruence].
  - by apply map_Forall_insert_2.
  - by rewrite map_size_insert_Some.
Qed.

(** Taking the next thread from the queues. *)
Lemma next_run fuel s :
  core s -> isThreadWaiting s = true -> (pp_period (pattern s) <= fuel)%nat ->
  exists x xh pt a, getNextThread fuel s = Ret (x, set_queues a (set_pattern pt s)) /\
    threads s !! x = Some xh /\ live xh /\ queued (views s) x /\
    core (set_queues a (set_pattern pt s)) /\ pp_period pt = pp_period (pattern s) /\
    (forall u, queued (q_view <$> array a) u <-> u <> x /\ queued (views s) u).
Proof.
  intros Hc Hw Hf. destruct (getNextThread_run fuel s) as (p & x & l & pt & a & E & Hv & Ha & Hca & Hva & Hpt & Hpc & Hpp);
    try apply Hc; try done.
  destruct (delete_ok _ _ (si_ok _ Hc) p (x :: l) 0%nat x Hv eq_refl) as [Hok Hq]. simpl in Hok, Hq.
  rewrite <- Hva in Hok, Hq.
  destruct (qo_thread _ _ (si_ok _ Hc) p (x :: l) x Hv ltac:(left)) as (xh & Hx & Hl & _).
  exists x, xh, pt, a. split_and!; try done.
  - exists p, (x :: l). split; [done|left].
  - by apply core_queues.
Qed.

(** Appending a live thread that waits nowhere to the queue of its priority. *)
Lemma push_run s t th :
  core s -> threads s !! t = Some th -> live th -> ~ queued (views s) t ->
  exists a, push_ready (priority th) t s = Ret (tt, set_queues a s) /\ core (set_queues a s) /\
    (forall u, queued (q_view <$> array a) u <-> u = t \/ queued (views s) u).
Proof.
  intros Hc Ht Hl Hnq. destruct (priority_queue s t th Hc Ht) as (v & Hv & Hp).
  pose proof (queue_length _ _ _ _ (si_ok _ Hc) Hv). pose proof (si_size _ Hc).
  destruct (push_ready_run s _ v t (si_sane _ Hc) Hv) as (a & E & Ha & Hca & Hva); [lia|].
  rewrite Z2Nat.id in E by lia.
  destruct (push_ok _ _ (si_ok _ Hc) _ v t th Hv Ht Hl) as [Hok Hq]; [lia|done|].
  rewrite <- Hva in Hok, Hq. exists a. split_and!; [done| |done]. by apply core_push.
Qed.

(** Removing a thread from the queue of its priority, in which it may be. *)
Lemma remove_run s t th :
  core s -> threads s !! t = Some th ->
  exists a, remove_ready (priority th) t s = Ret (tt, set_queues a s) /\ core (set_queues a s) /\
    (forall u, queued (q_view <$> array a) u <-> u <> t /\ queued (views s) u).
Proof.
  intros Hc Ht. destruct (priority_queue s t th Hc Ht) as (v & Hv & Hp).
  destruct (remove_ready_run s _ v t (si_sane _ Hc) Hv) as (a & E & Ha & Hca & Hva).
  rewrite Z2Nat.id in E by lia. exists a.
  destruct (list_find (fun y => t = y) v) as [[k y]|] eqn:Ef.
  - apply list_find_Some in Ef as (Hk & <- & _).
    destruct (delete_ok _ _ (si_ok _ Hc) _ v k t Hv Hk) as [Hok Hq].
    rewrite <- Hva in Hok, Hq. split_and!; [done| |done]. by apply core_push.
  - apply list_find_None_not_in in Ef. rewrite list_insert_id in Hva by done.
    split_and!; [done|apply core_push; try done; rewrite Hva; apply Hc|].
    intros u. rewrite Hva. split; [|by intros [_ ?]]. intros Hu. split; [|done]. intros ->.
    destruct (queued_priority _ _ (si_ok _ Hc) t th Ht Hu) as (w & Hw & Htw). by rewrite Hv in Hw; injection Hw as <-.
Qed.

Lemma dispatch_run s c n ch nh :
  initialized s = true -> currentThread s = c -> threads s !! c = Some ch -> threads s !! n = Some nh ->
  dispatch n s = Ret (tt, set_lock (release (lock s)) (set_current n s)).
Proof.
  intros Hi Hc Hch Hnh. unfold dispatch, deref, lock_release. st_step. rewrite Hi. cbn [negb].
  rewrite Hc, Hch. outcome. cbn [threads set_current]. rewrite Hnh. outcome. done.
Qed.

(** ** The abstract machine *)

Lemma abs_lookup s t : abs s !! t = status s t <$> threads s !! t.
Proof. unfold abs. rewrite map_lookup_imap. by destruct (threads s !! t). Qed.

Lemma abs_spec s t st :
  abs s !! t = Some st <-> exists th, threads s !! t = Some th /\ status s t th = st.
Proof.
  rewrite abs_lookup. destruct (threads s !! t) as [th|]; simpl.
  - split; [intros [= <-]; by exists th|intros (th' & [= <-] & <-); done].
  - split; [done|by intros (? & ? & _)].
Qed.

(** A thread whose object, queue and processor do not change keeps its status. *)
Lemma abs_same s s' u :
  threads s' !! u = threads s !! u -> (u = currentThread s' <-> u = currentThread s) ->
  (queued (views s') u <-> queued (views s) u) -> abs s' !! u = abs s !! u.
Proof.
  intros Ht Hc Hq. rewrite !abs_lookup, Ht. destruct (threads s !! u) as [th|]; [|done]. simpl.
  unfold status. by rewrite (decide_ext _ _ _ _ Hc), (decide_ext _ _ _ _ Hq).
Qed.

Lemma abs_running s c : running s -> abs s !! c = Some Running ->
  c = currentThread s /\ initialized s = true.
Proof.
  unfold running. intros Hr (th & Ht & Hst)%abs_spec. unfold status in Hst.
  destruct (started th); [|done]. destruct (finished th); [done|]. simpl in Hst.
  destruct (decide (c = currentThread s)) as [->|]; [|by destruct (decide _)].
  split; [done|]. destruct (initialized s); [done|congruence].
Qed.

Lemma abs_ready s t : abs s !! t = Some Ready ->
  queued (views s) t /\ t <> currentThread s /\ exists th, threads s !! t = Some th /\ live th.
Proof.
  intros (th & Ht & Hst)%abs_spec. unfold status in Hst.
  destruct (started th) eqn:Es; [|done]. destruct (finished th) eqn:Ef; [done|]. simpl in Hst.
  destruct (decide (t = currentThread s)); [done|]. destruct (decide (queued (views s) t)); [|done].
  split_and!; try done. by exists th.
Qed.

Lemma abs_blocked s t : abs s !! t = Some Blocked ->
  ~ queued (views s) t /\ t <> currentThread s /\ exists th, threads s !! t = Some th /\ live th.
Proof.
  intros (th & Ht & Hst)%abs_spec. unfold status in Hst.
  destruct (started th) eqn:Es; [|done]. destruct (finished th) eqn:Ef; [done|]. simpl in Hst.
  destruct (decide (t = currentThread s)); [done|]. destruct (decide (queued (views s) t)); [done|].
  split_and!; try done. by exists th.
Qed.

Lemma abs_new s t : abs s !! t = Some New -> exists th, threads s !! t = Some th /\ started th = false.
Proof.
  intros (th & Ht & Hst)%abs_spec. unfold status in Hst. exists th. split; [done|].
  destruct (started th); [|done]. destruct (finished th); [done|]. simpl in Hst.
  repeat destruct (decide _); done.
Qed.

(** Statuses from the concrete state. *)
Lemma status_live s t th :
  live th -> status s t th = if decide (t = currentThread s) then Running
                             else if decide (queued (views s) t) then Ready else Blocked.
Proof. intros [Hs Hf]. unfold status. by rewrite Hs, Hf. Qed.

Lemma abs_live s t th :
  threads s !! t = Some th -> live th ->
  abs s !! t = Some (if decide (t = currentThread s) then Running
                     else if decide (queued (views s) t) then Ready else Blocked).
Proof. intros Ht Hl. rewrite abs_lookup, Ht. simpl. by rewrite status_live. Qed.

Lemma waiting_ready s : core s -> running s -> isThreadWaiting s = true <-> exists n, abs s !! n = Some Ready.
Proof.
  intros Hc Hr. rewrite waiting_views by apply Hc. split.
  - intros (i & x & l & Hi).
    destruct (qo_thread _ _ (si_ok _ Hc) i _ x Hi ltac:(left)) as (xh & Hx & Hl & _).
    assert (Hq : queued (views s) x) by (exists i, (x :: l); split; [done|left]).
    exists x. rewrite (abs_live s x xh) by done. rewrite decide_False, decide_True; [done|done|].
    intros ->. unfold running in Hr. destruct (initialized s); [by destruct Hr|congruence].
  - intros (n & Hn).
    destruct (abs_ready s n Hn) as ((i & v & Hi & Hv) & _). destruct v as [|x l]; [by apply not_elem_of_nil in Hv|].
    by exists i, x, l.
Qed.
End Views.

(** Requests of threads and drivers to the scheduler. *)
Inductive request :=
| RReady (t : Z)
| RExit
| RKill (t : Z)
| RYield
| RBlock
| RDeblock (t : Z)
| RSetPriority (t p : Z).

(** The abstract machine: how a request changes the statuses. *)
Inductive abs_step : request -> gmap Z Status -> gmap Z Status -> Prop :=
| as_ready t m : m !! t = Some New -> abs_step (RReady t) m (<[t := Ready]> m)
| as_exit c n m : m !! c = Some Running -> m !! n = Some Ready ->
    abs_step RExit m (<[n := Running]> (<[c := Finished]> m))
| as_kill t m : m !! t = Some Ready \/ m !! t = Some Blocked \/ m !! t = Some Finished ->
    abs_step (RKill t) m (<[t := Finished]> m)
| as_yield c n m : m !! c = Some Running -> m !! n = Some Ready ->
    abs_step RYield m (<[n := Running]> (<[c := Ready]> m))
| as_yield_alone m : (forall n, m !! n <> Some Ready) -> abs_step RYield m m
| as_block c n m : m !! c = Some Running -> m !! n = Some Ready ->
    abs_step RBlock m (<[n := Running]> (<[c := Blocked]> m))
| as_deblock t m : m !! t = Some Blocked -> abs_step (RDeblock t) m (<[t := Ready]> m)
| as_priority t p m : m !! t = Some Ready \/ m !! t = Some Running -> abs_step (RSetPriority t p) m m.

(** What a caller has to see to: a thread calls from its own context, blocks or
    exits only when another is ready, and names a thread in a fitting state. *)
Definition allowed (r : request) (m : gmap Z Status) : Prop :=
  match r with
  | RReady t => m !! t = Some New
  | RExit | RBlock => (exists c, m !! c = Some Running) /\ exists n, m !! n = Some Ready
  | RKill t => (exists c, m !! c = Some Running) /\
      (m !! t = Some Ready \/ m !! t = Some Blocked \/ m !! t = Some Finished)
  | RYield => exists c, m !! c = Some Running
  | RDeblock t => (exists c, m !! c = Some Running) /\ m !! t = Some Blocked
  | RSetPriority t p => (m !! t = Some Ready \/ m !! t = Some Running) /\ 0 <= p < 256
  end.

Definition perform {P} `{PriorityPattern P} {Q} `{QueueOps Q Z} (fuel : nat) (r : request)
    : ST (Scheduler P Q) unit :=
  match r with
  | RReady t => start t
  | RExit => exit fuel
  | RKill t => kill t
  | RYield => yield fuel
  | RBlock => block fuel
  | RDeblock t => deblock t
  | RSetPriority t p => setPriority t p
  end.

Section Requests.
Context {P : Type} `{PS : PrioritySpec P} {Q : Type} `{QS : QueueSpec Q Z} `{QR : !QueueRemoveSpec Q Z}.
Implicit Types (s : Scheduler P Q) (t : Z).

Definition taken_lock : Spinlock := mkSpinlock (mkAtomic SPINLOCK_LOCK).

Lemma sched_acquire s : lock s = new_Spinlock -> lock_acquire s = Ret (tt, set_lock taken_lock s).
Proof. intros Hl. unfold lock_acquire. by rewrite Hl. Qed.

(** What every request establishes. *)
Definition served (r : request) s s' : Prop :=
  sched_inv s' /\ abs_step r (abs s) (abs s') /\ pp_period (pattern s') = pp_period (pattern s).

Lemma running_thread s c :
  sched_inv s -> abs s !! c = Some Running ->
  currentThread s = c /\ initialized s = true /\ ~ queued (views s) c /\
  exists ch, threads s !! c = Some ch /\ live ch.
Proof.
  intros [Hc Hl Hr] Ha. destruct (abs_running s c Hr Ha) as [-> Hi]. unfold running in Hr. rewrite Hi in Hr.
  destruct Hr as [Hch Hnq]. by split_and!.
Qed.

(** The state behind a switch to [n]: threads other than [c] and [n] are as
    before, [n] runs. *)
Lemma switch_abs s s' c n nh st :
  currentThread s = c -> currentThread s' = n -> n <> c ->
  threads s' !! n = Some nh -> live nh -> abs s' !! c = Some st ->
  (forall u, u <> c -> threads s' !! u = threads s !! u) ->
  (forall u, u <> c -> u <> n -> queued (views s') u <-> queued (views s) u) ->
  abs s' = <[n := Running]> (<[c := st]> (abs s)).
Proof.
  intros Hc Hn Hne Hnh Hl Hst Ht Hq. apply map_eq. intros u. destruct (decide (u = n)) as [->|Hun].
  - rewrite lookup_insert_eq, (abs_live s' n nh) by done. by rewrite decide_True.
  - rewrite lookup_insert_ne by done. destruct (decide (u = c)) as [->|Huc].
    + by rewrite lookup_insert_eq.
    + rewrite lookup_insert_ne by done. apply abs_same; [by apply Ht|rewrite Hc, Hn; done|by apply Hq].
Qed.

(** One thread changes its status, and the running thread stays. *)
Lemma change_abs s s' t st :
  currentThread s' = currentThread s -> abs s' !! t = Some st ->
  (forall u, u <> t -> threads s' !! u = threads s !! u) ->
  (forall u, u <> t -> queued (views s') u <-> queued (views s) u) ->
  abs s' = <[t := st]> (abs s).
Proof.
  intros Hc Hst Ht Hq. apply map_eq. intros u. destruct (decide (u = t)) as [->|Hut].
  - by rewrite lookup_insert_eq.
  - rewrite lookup_insert_ne by done. apply abs_same; [by apply Ht|by rewrite Hc|by apply Hq].
Qed.

(** A switch from [c] to [n] once the bookkeeping is done. *)
Lemma switch_served r s s2 c n nh st :
  currentThread s = c -> n <> c -> core s2 -> initialized s2 = true ->
  threads s2 !! n = Some nh -> live nh -> ~ queued (views s2) n ->
  (forall u, u <> c -> threads s2 !! u = threads s !! u) ->
  (forall u, u <> c -> u <> n -> queued (views s2) u <-> queued (views s) u) ->
  pp_period (pattern s2) = pp_period (pattern s) ->
  let s3 := set_lock new_Spinlock (set_current n s2) in
  abs s3 !! c = Some st -> abs_step r (abs s) (<[n := Running]> (<[c := st]> (abs s))) ->
  served r s s3.
Proof.
  intros Hc Hne Hc2 Hi Hnh Hl Hnq Ht Hq Hpp s3 Hst Hstep. split_and!; [|by rewrite (switch_abs s s3 c n nh st)|done].
  constructor; [|done|].
  - destruct Hc2. by constructor.
  - unfold running. change (initialized s3) with (initialized s2). rewrite Hi. split; [by exists nh|done].
Qed.

(** The thread that is taken from the queues, seen from the caller [c]. *)
Lemma take_next fuel s c :
  sched_inv s -> abs s !! c = Some Running -> isThreadWaiting s = true -> (pp_period (pattern s) <= fuel)%nat ->
  exists n nh pt a, let s1 := set_queues a (set_pattern pt (set_lock taken_lock s)) in
    getNextThread fuel (set_lock taken_lock s) = Ret (n, s1) /\ n <> c /\
    threads s !! n = Some nh /\ live nh /\ abs s !! n = Some Ready /\ core s1 /\
    pp_period pt = pp_period (pattern s) /\ ~ queued (views s1) c /\
    (forall u, queued (views s1) u <-> u <> n /\ queued (views s) u).
Proof.
  intros Hinv Hrun Hw Hf. destruct (running_thread s c Hinv Hrun) as (Hcc & Hi & Hnq & ch & Hch & Hlc).
  destruct (next_run fuel (set_lock taken_lock s)) as (n & nh & pt & a & E & Hnh & Hln & Hqn & Hc1 & Hpp & Hq);
    [apply core_lock, Hinv|done|done|].
  change (views (set_lock taken_lock s)) with (views s) in *.
  assert (Hnc : n <> c) by (by intros ->).
  exists n, nh, pt, a. split_and!; try done; [|by intros [_ ?]%Hq].
  rewrite (abs_live s n nh) by done. rewrite decide_False, decide_True; [done|done|]. by rewrite Hcc.
Qed.

Lemma exit_served fuel s :
  sched_inv s -> allowed RExit (abs s) -> (pp_period (pattern s) <= fuel)%nat ->
  exists s', exit fuel s = Ret (tt, s') /\ served RExit s s'.
Proof.
  intros Hinv [[c Hrun] Hrdy] Hf. pose proof Hinv as [Hc Hl Hr].
  destruct (running_thread s c Hinv Hrun) as (Hcc & Hi & Hnq & ch & Hch & Hlc).
  assert (Hw : isThreadWaiting s = true) by (by apply waiting_ready).
  destruct (take_next fuel s c) as (n & nh & pt & a & E & Hnc & Hnh & Hln & Hra & Hc1 & Hpp & Hnq1 & Hq); try done.
  set (s1 := set_queues a (set_pattern pt (set_lock taken_lock s))) in *.
  assert (Hch1 : threads s1 !! c = Some ch) by exact Hch.
  set (s2 := set_threads (<[c := set_finished ch]> (threads s1)) s1).
  assert (Hc2 : core s2).
  { apply (core_update s1 c ch); try done; [by apply (si_priority _ Hc1 c ch)|].
    simpl. by rewrite (proj1 Hlc). }
  assert (Hn2 : threads s2 !! n = Some nh) by (cbn; by rewrite lookup_insert_ne).
  exists (set_lock new_Spinlock (set_current n s2)). split.
  - unfold exit. rewrite (ST_bind_Ret _ _ _ _ _ (sched_acquire s Hl)). st_step.
    change (initialized (set_lock taken_lock s)) with (initialized s).
    rewrite Hi. cbn [negb]. change (isThreadWaiting (set_lock taken_lock s)) with (isThreadWaiting s).
    rewrite Hw. cbn [negb]. rewrite E. fold s1. change (currentThread s1) with (currentThread s).
    rewrite Hcc. unfold update. rewrite Hch1. outcome. fold s2.
    rewrite (dispatch_run s2 c n (set_finished ch) nh); try done.
    cbn [threads s2 set_threads]. by rewrite lookup_insert_eq.
  - apply (switch_served RExit s s2 c n nh Finished); try done.
    + by intros [? _]%Hq.
    + intros u Hu. cbn. by rewrite lookup_insert_ne.
    + intros u Hu Hun. change (views s2) with (views s1). rewrite Hq. tauto.
    + rewrite abs_lookup. cbn [threads set_lock set_current s2 set_threads]. rewrite lookup_insert_eq. simpl.
      unfold status. cbn. by rewrite (proj1 Hlc).
    + by constructor.
Qed.

Lemma block_served fuel s :
  sched_inv s -> allowed RBlock (abs s) -> (pp_period (pattern s) <= fuel)%nat ->
  exists s', block fuel s = Ret (tt, s') /\ served RBlock s s'.
Proof.
  intros Hinv [[c Hrun] Hrdy] Hf. pose proof Hinv as [Hc Hl Hr].
  destruct (running_thread s c Hinv Hrun) as (Hcc & Hi & Hnq & ch & Hch & Hlc).
  assert (Hw : isThreadWaiting s = true) by (by apply waiting_ready).
  destruct (take_next fuel s c) as (n & nh & pt & a & E & Hnc & Hnh & Hln & Hra & Hc1 & Hpp & Hnq1 & Hq); try done.
  set (s1 := set_queues a (set_pattern pt (set_lock taken_lock s))) in *.
  exists (set_lock new_Spinlock (set_current n s1)). split.
  - unfold block. st_step. rewrite Hw. cbn [negb]. rewrite (sched_acquire s Hl), E. fold s1.
    by rewrite (dispatch_run s1 c n ch nh).
  - apply (switch_served RBlock s s1 c n nh Blocked); try done.
    + by intros [? _]%Hq.
    + intros u Hu Hun. rewrite Hq. tauto.
    + rewrite (abs_live _ c ch) by done. by rewrite decide_False, decide_False by done.
    + by constructor.
Qed.

Lemma yield_served fuel s :
  sched_inv s -> allowed RYield (abs s) -> (pp_period (pattern s) <= fuel)%nat ->
  exists s', yield fuel s = Ret (tt, s') /\ served RYield s s'.
Proof.
  intros Hinv [c Hrun] Hf. pose proof Hinv as [Hc Hl Hr].
  destruct (running_thread s c Hinv Hrun) as (Hcc & Hi & Hnq & ch & Hch & Hlc).
  destruct (isThreadWaiting s) eqn:Hw.
  2: { exists s. unfold yield. st_step. rewrite Hw. split; [done|]. split_and!; try done. constructor.
       intros n Hn. assert (isThreadWaiting s = true) by (apply waiting_ready; eauto). congruence. }
  destruct (take_next fuel s c) as (n & nh & pt & a & E & Hnc & Hnh & Hln & Hra & Hc1 & Hpp & Hnq1 & Hq); try done.
  set (s1 := set_queues a (set_pattern pt (set_lock taken_lock s))) in *.
  assert (Hch1 : threads s1 !! c = Some ch) by exact Hch.
  destruct (push_run s1 c ch Hc1 Hch1 Hlc Hnq1) as (a2 & E2 & Hc2 & Hq2).
  set (s2 := set_queues a2 s1) in *.
  exists (set_lock new_Spinlock (set_current n s2)). split.
  - unfold yield. st_step. rewrite Hw. cbn [negb]. rewrite Hl.
    change (tryAcquire new_Spinlock) with (true, taken_lock). cbn [negb]. rewrite E. fold s1.
    change (currentThread s1) with (currentThread s). rewrite Hcc. unfold deref. rewrite Hch1. outcome.
    rewrite E2. fold s2. by rewrite (dispatch_run s2 c n ch nh).
  - apply (switch_served RYield s s2 c n nh Ready); try done.
    + intros [->|Hn]%Hq2; [done|]. by apply Hq in Hn as [? _].
    + intros u Hu Hun. change (views s2) with (q_view <$> array a2). rewrite Hq2, Hq. tauto.
    + rewrite (abs_live _ c ch) by done. rewrite decide_False by done. rewrite decide_True; [done|].
      apply Hq2. by left.
    + by constructor.
Qed.

(** The running thread survives requests about other threads. *)
Lemma running_frame s s' t :
  running s -> initialized s' = initialized s -> currentThread s' = currentThread s ->
  t <> currentThread s \/ initialized s = false ->
  (forall u, u <> t -> threads s' !! u = threads s !! u) ->
  (forall u, u <> t -> queued (views s') u <-> queued (views s) u) ->
  is_Some (threads s !! t) -> running s'.
Proof.
  unfold running. intros Hr Hi Hc Hne Ht Hq Hs. rewrite Hi, Hc.
  assert (Hct : currentThread s <> t).
  { destruct Hne as [?|Hf]; [done|]. rewrite Hf in Hr. intros E. rewrite E in Hr. by destruct Hs as [? ?]; congruence. }
  rewrite Ht by done. destruct (initialized s); [|done]. by rewrite Hq.
Qed.

Lemma current_ne s t th : running s -> threads s !! t = Some th -> started th = false -> t <> currentThread s.
Proof.
  unfold running. intros Hr Ht Hs ->. destruct (initialized s); [|congruence].
  destruct Hr as [(ch & Hch & [Hst _]) _]. congruence.
Qed.

(** [push] sees only the queues. *)
Lemma push_ready_frame s s' i t a :
  readyQueues s' = readyQueues s -> push_ready i t s = Ret (tt, set_queues a s) ->
  push_ready i t s' = Ret (tt, set_queues a s').
Proof.
  intros Hr. unfold push_ready. rewrite Hr.
  destruct (at_ (readyQueues s) i) as [q| | |]; outcome; try done.
  destruct (push t q) as [q'| | |]; outcome; try done.
  destruct (Array.put (readyQueues s) i q') as [a'| | |]; outcome; try done.
  by intros [= <-].
Qed.

Lemma ready_served s t :
  sched_inv s -> allowed (RReady t) (abs s) ->
  exists s', start t s = Ret (tt, s') /\ served (RReady t) s s'.
Proof.
  intros Hinv Hnew. pose proof Hinv as [Hc Hl Hr]. destruct (abs_new s t Hnew) as (th & Ht & Hst).
  assert (Hnq : ~ queued (views s) t).
  { intros Hq. destruct (queued_in_threads _ _ (si_ok _ Hc) t Hq) as (th' & Ht' & [? _]). congruence. }
  assert (Hcur : t <> currentThread s) by (by eapply current_ne).
  assert (Hlive : live (set_started th)) by (split; [done|by apply (si_new _ Hc t th)]).
  set (sA := set_threads (<[t := set_started th]> (threads s)) (set_lock taken_lock s)).
  assert (HcA : core sA).
  { apply (core_update (set_lock taken_lock s) t th); try done; [by apply core_lock|].
    by apply (si_priority _ Hc t th). }
  assert (HtA : threads sA !! t = Some (set_started th)) by (cbn; by rewrite lookup_insert_eq).
  destruct (push_run sA t (set_started th) HcA HtA Hlive Hnq) as (a & E & Hc2 & Hq).
  exists (set_lock new_Spinlock (set_queues a sA)). split.
  - unfold start, ready, deref. st_step. rewrite Ht. outcome. rewrite Hst, (sched_acquire s Hl).
    rewrite (push_ready_frame sA (set_lock taken_lock s) _ _ a) by done.
    unfold update. change (threads (set_queues a (set_lock taken_lock s))) with (threads s). rewrite Ht. done.
  - set (s3 := set_lock _ _).
    assert (Hth : forall u, u <> t -> threads s3 !! u = threads s !! u) by (intros u Hu; cbn; by rewrite lookup_insert_ne).
    assert (Hqu : forall u, u <> t -> queued (views s3) u <-> queued (views s) u).
    { intros u Hu. change (views s3) with (q_view <$> array a). rewrite Hq.
      change (views sA) with (views s). tauto. }
    split_and!; [constructor|rewrite (change_abs s s3 t Ready)|done]; try done.
    + by apply core_lock.
    + apply (running_frame s s3 t); first [done|by left|by exists th].
    + by constructor.
    + rewrite (abs_live s3 t (set_started th)) by done. rewrite decide_False, decide_True; [done| |done].
      apply Hq. by left.
Qed.

Lemma deblock_served s t :
  sched_inv s -> allowed (RDeblock t) (abs s) ->
  exists s', deblock t s = Ret (tt, s') /\ served (RDeblock t) s s'.
Proof.
  intros Hinv [[c Hrun] Hb]. pose proof Hinv as [Hc Hl Hr].
  destruct (running_thread s c Hinv Hrun) as (Hcc & Hi & _).
  destruct (abs_blocked s t Hb) as (Hnq & Hcur & th & Ht & Hlive).
  destruct (push_run (set_lock taken_lock s) t th (core_lock _ _ Hc) Ht Hlive Hnq) as (a & E & Hc2 & Hq).
  exists (set_lock new_Spinlock (set_queues a (set_lock taken_lock s))). split.
  - unfold deblock, deref. rewrite (ST_bind_Ret _ _ _ _ _ (sched_acquire s Hl)). st_step.
    change (initialized (set_lock taken_lock s)) with (initialized s). rewrite Hi. cbn [negb].
    change (threads (set_lock taken_lock s)) with (threads s). rewrite Ht. outcome. rewrite E. done.
  - set (s3 := set_lock _ _).
    assert (Hqu : forall u, u <> t -> queued (views s3) u <-> queued (views s) u).
    { intros u Hu. change (views s3) with (q_view <$> array a). rewrite Hq.
      change (views (set_lock taken_lock s)) with (views s). tauto. }
    split_and!; [constructor|rewrite (change_abs s s3 t Ready)|done]; try done.
    + by apply core_lock.
    + apply (running_frame s s3 t); first [done|by left|by exists th].
    + by constructor.
    + rewrite (abs_live s3 t th) by done. rewrite decide_False, decide_True; [done| |done]. apply Hq. by left.
Qed.

Lemma kill_served s t :
  sched_inv s -> allowed (RKill t) (abs s) ->
  exists s', kill t s = Ret (tt, s') /\ served (RKill t) s s'.
Proof.
  intros Hinv [[c Hrun] Hst]. pose proof Hinv as [Hc Hl Hr].
  destruct (running_thread s c Hinv Hrun) as (Hcc & Hi & _ & ch & Hch & Hlc).
  assert (Hth : t <> c /\ exists th, threads s !! t = Some th /\ started th = true).
  { split; [intros ->; rewrite Hrun in Hst; naive_solver|].
    destruct Hst as [Ha|[Ha|Hf]].
    - destruct (abs_ready s t Ha) as (_ & _ & th & ? & []). by exists th.
    - destruct (abs_blocked s t Ha) as (_ & _ & th & ? & []). by exists th.
    - apply abs_spec in Hf as (th & ? & Hf). exists th. split; [done|]. unfold status in Hf.
      destruct (started th); done. }
  destruct Hth as (Htc & th & Ht & Hstd).
  destruct (remove_run (set_lock taken_lock s) t th (core_lock _ _ Hc) Ht) as (a & E & Hc1 & Hq).
  set (s1 := set_queues a (set_lock taken_lock s)) in *.
  assert (Hnq1 : ~ queued (views s1) t) by (by intros [? _]%Hq).
  assert (Hc2 : core (set_threads (<[t := set_finished th]> (threads s1)) s1)).
  { apply (core_update s1 t th); try done; [by apply (si_priority _ Hc1 t th)|]. simpl. by rewrite Hstd. }
  set (s2 := set_threads _ s1) in Hc2.
  exists (set_lock new_Spinlock s2). split.
  - unfold kill, deref. rewrite (ST_bind_Ret _ _ _ _ _ (sched_acquire s Hl)). st_step.
    change (initialized (set_lock taken_lock s)) with (initialized s). rewrite Hi. cbn [negb].
    change (threads (set_lock taken_lock s)) with (threads s). rewrite Ht. outcome.
    change (currentThread (set_lock taken_lock s)) with (currentThread s).
    change (threads (set_lock taken_lock s)) with (threads s). rewrite Hcc, Hch. outcome.
    destruct (Z.eqb_spec (id th) (id ch)) as [Hid|_]; [by destruct Htc; eapply (si_ids _ Hc)|].
    rewrite E. fold s1. unfold update. assert (threads s1 !! t = Some th) as -> by done. done.
  - set (s3 := set_lock _ _).
    assert (Hth : forall u, u <> t -> threads s3 !! u = threads s !! u) by (intros u Hu; cbn; by rewrite lookup_insert_ne).
    assert (Hqu : forall u, u <> t -> queued (views s3) u <-> queued (views s) u).
    { intros u Hu. change (views s3) with (q_view <$> array a). rewrite Hq.
      change (views (set_lock taken_lock s)) with (views s). tauto. }
    split_and!; [constructor|rewrite (change_abs s s3 t Finished)|done]; try done.
    + by apply core_lock.
    + apply (running_frame s s3 t); first [done|left; congruence|by exists th].
    + by constructor.
    + rewrite abs_lookup. cbn [threads s3 set_lock s2 set_threads]. rewrite lookup_insert_eq. simpl.
      unfold status. cbn. by rewrite Hstd.
Qed.

Lemma clamp_range s p :
  core s -> 0 <= p < 256 -> 0 <= clamp_priority p s < capacity (readyQueues s) /\ clamp_priority p s < 256.
Proof.
  intros Hc Hp. pose proof (pp_count _ (si_pattern _ Hc)) as Hn. rewrite <- (si_count _ Hc) in Hn.
  unfold clamp_priority, maxPriority, length_. rewrite (u8_small (capacity _ - 1)) by (unfold is_u8; lia).
  case_bool; rewrite u8_small by (unfold is_u8; lia); lia.
Qed.

(** A new priority changes nobody's status. *)
Lemma priority_abs s s' t th p :
  threads s !! t = Some th -> threads s' = <[t := set_priority p th]> (threads s) ->
  currentThread s' = currentThread s -> (forall u, queued (views s') u <-> queued (views s) u) ->
  abs s' = abs s.
Proof.
  intros Ht Hth Hc Hq. apply map_eq. intros u. destruct (decide (u = t)) as [->|Hne].
  - rewrite !abs_lookup, Hth, lookup_insert_eq, Ht. simpl. f_equal. unfold status.
    cbn [started finished set_priority]. by rewrite Hc, (decide_ext _ _ _ _ (Hq t)).
  - apply abs_same; [by rewrite Hth, lookup_insert_ne|by rewrite Hc|done].
Qed.

(** A thread that is not running goes to the queue of its new priority,
    whether it waited in a queue before or not. *)
Lemma setPriority_other s t th p :
  sched_inv s -> t <> currentThread s -> threads s !! t = Some th -> live th -> 0 <= p < 256 ->
  exists s', setPriority t p s = Ret (tt, s') /\ sched_inv s' /\ pp_period (pattern s') = pp_period (pattern s) /\
    threads s' = <[t := set_priority (clamp_priority p s) th]> (threads s) /\
    currentThread s' = currentThread s /\
    (forall u, queued (views s') u <-> u = t \/ queued (views s) u).
Proof.
  intros Hinv Hcur Ht Hlive Hp. pose proof Hinv as [Hc Hl Hr].
  destruct (clamp_range s p Hc Hp) as [Hcl _]. set (p' := clamp_priority p s) in *.
  destruct (remove_run (set_lock taken_lock s) t th (core_lock _ _ Hc) Ht) as (a & E & Hc1 & Hq).
  change (views (set_lock taken_lock s)) with (views s) in Hq.
  set (s1 := set_queues a (set_lock taken_lock s)) in *.
  assert (Hnq1 : ~ queued (views s1) t) by (by intros [? _]%Hq).
  assert (Hcap : capacity (readyQueues s1) = capacity (readyQueues s)).
  { rewrite (si_count _ Hc1), (si_count _ Hc). done. }
  set (sA := set_threads (<[t := set_priority p' th]> (threads s1)) s1).
  assert (HcA : core sA).
  { apply (core_update s1 t th); try done; [by rewrite Hcap|]. simpl. by rewrite (proj1 Hlive). }
  assert (HtA : threads sA !! t = Some (set_priority p' th)) by (cbn; by rewrite lookup_insert_eq).
  destruct (push_run sA t (set_priority p' th) HcA HtA Hlive Hnq1) as (a2 & E2 & Hc2 & Hq2).
  set (s3 := set_lock new_Spinlock (set_queues a2 sA)).
  assert (Hqs : forall u, queued (views s3) u <-> u = t \/ queued (views s) u).
  { intros u. change (views s3) with (q_view <$> array a2). rewrite Hq2.
    change (views sA) with (q_view <$> array a). rewrite Hq. destruct (decide (u = t)) as [->|]; tauto. }
  exists s3. split_and!; try done.
  - unfold setPriority, changePriority, deref. st_step. fold p'. rewrite (sched_acquire s Hl).
    change (currentThread (set_lock taken_lock s)) with (currentThread s).
    destruct (Z.eqb_spec t (currentThread s)) as [?|_]; [done|].
    change (threads (set_lock taken_lock s)) with (threads s). rewrite Ht. outcome. rewrite E. fold s1.
    pose proof (push_ready_frame sA s1 _ _ a2 eq_refl E2) as E3.
    change (priority (set_priority p' th)) with p' in E3. rewrite E3. unfold lock_release, update. st_step.
    change (threads (set_lock (release (lock (set_queues a2 s1))) (set_queues a2 s1))) with (threads s).
    rewrite Ht. done.
  - constructor; [by apply core_lock|done|].
    apply (running_frame s s3 t); first [done|by left|by exists th|idtac].
    + intros u Hu. cbn. by rewrite lookup_insert_ne.
    + intros u Hu. rewrite Hqs. tauto.
Qed.

Lemma setPriority_served s t p :
  sched_inv s -> allowed (RSetPriority t p) (abs s) ->
  exists s', setPriority t p s = Ret (tt, s') /\ served (RSetPriority t p) s s'.
Proof.
  intros Hinv [Hst Hp]. pose proof Hinv as [Hc Hl Hr].
  destruct (decide (t = currentThread s)) as [Hcur|Hcur].
  - assert (Hrun : abs s !! t = Some Running).
    { destruct Hst as [Ha|?]; [|done]. by destruct (abs_ready s t Ha) as (_ & ? & _). }
    destruct (running_thread s t Hinv Hrun) as (_ & Hi & Hnq & th & Ht & Hlive).
    destruct (clamp_range s p Hc Hp) as [Hcl _]. set (p' := clamp_priority p s) in *.
    set (s1 := set_lock (release (lock (set_lock taken_lock s))) (set_lock taken_lock s)).
    set (s2 := set_threads (<[t := set_priority p' th]> (threads s1)) s1).
    assert (Habs : abs s2 = abs s) by (by apply (priority_abs s s2 t th p')).
    exists s2. split.
    + unfold setPriority, changePriority. st_step. fold p'. rewrite (sched_acquire s Hl).
      change (currentThread (set_lock taken_lock s)) with (currentThread s). rewrite <- Hcur, Z.eqb_refl.
      unfold lock_release, update. st_step. fold s1. assert (threads s1 !! t = Some th) as -> by done. done.
    + split_and!; [|rewrite Habs; by constructor|done]. constructor; [|done|].
      * apply (core_update s1 t th); try done; [by do 2 apply core_lock|]. simpl. by rewrite (proj1 Hlive).
      * unfold running. change (initialized s2) with (initialized s). rewrite Hi.
        change (currentThread s2) with (currentThread s). rewrite <- Hcur. split; [|done].
        exists (set_priority p' th). split; [cbn; by rewrite lookup_insert_eq|done].
  - assert (Hrdy : abs s !! t = Some Ready).
    { destruct Hst as [?|Ha]; [done|]. by destruct (abs_running s t Hr Ha). }
    destruct (abs_ready s t Hrdy) as (Hqt & _ & th & Ht & Hlive).
    destruct (setPriority_other s t th p) as (s' & E & Hinv' & Hpp & Hth & Hcc & Hq); try done.
    exists s'. split; [done|]. split_and!; [done| |done].
    rewrite (priority_abs s s' t th (clamp_priority p s)); try done; [by constructor|].
    intros u. rewrite Hq. split; [by intros [->|?]|by right].
Qed.
End Requests.

(** C7. The scheduler implements the life cycle of threads. In a state that
    satisfies the invariant, every request whose caller respects the life cycle
    returns, raises no exception and does not wait for the lock; the invariant
    holds again (each queue holds live threads of its priority, each once, the
    running thread waits nowhere, the lock is free), and the statuses of all
    threads change as in the abstract machine. [pp_period] draws per call are
    enough. Proved for every queue and priority pattern that keep their
    promises. *)
Theorem scheduler_refines_lifecycle {P} `{PS : PrioritySpec P} {Q} `{QS : QueueSpec Q Z}
    `{QR : !QueueRemoveSpec Q Z} fuel (s : Scheduler P Q) r :
  sched_inv s -> allowed r (abs s) -> (pp_period (pattern s) <= fuel)%nat ->
  exists s', perform fuel r s = Ret (tt, s') /\ sched_inv s' /\ abs_step r (abs s) (abs s') /\
    pp_period (pattern s') = pp_period (pattern s).
Proof.
  intros Hinv Hal Hf. destruct r as [t| |t| | |t|t p]; simpl.
  - by apply ready_served.
  - by apply exit_served.
  - by apply kill_served.
  - by apply yield_served.
  - by apply block_served.
  - by apply deblock_served.
  - by apply setPriority_served.
Qed.

(** ** Nobody starves *)

Fixpoint yields {P} `{PriorityPattern P} {Q} `{QueueOps Q Z} (fuel n : nat) : ST (Scheduler P Q) unit :=
  match n with
  | O => mret tt
  | S n => _ ← yield fuel; yields fuel n
  end.

Section Fairness.
Context {P : Type} `{PS : PrioritySpec P} {Q : Type} `{QS : QueueSpec Q Z} `{QR : !QueueRemoveSpec Q Z}.
Implicit Types (s : Scheduler P Q) (t : Z).

(** [t] waits at position [k] of the queue of priority [i]. *)
Definition waits_at s (i k : nat) t : Prop := exists v, views s !! i = Some v /\ v !! k = Some t.

Lemma waits_queued s i k t : waits_at s i k t -> queued (views s) t.
Proof. intros (v & Hv & Hk). exists i, v. split; [done|]. by eapply list_elem_of_lookup_2. Qed.

(** The queues behind a [yield]. *)
Lemma waits_after s s' i k t p x l ic w c :
  waits_at s i k t -> views s !! p = Some (x :: l) -> <[p := l]> (views s) !! ic = Some w ->
  views s' = <[ic := w ++ [c]]> (<[p := l]> (views s)) ->
  (p = i -> k = 0%nat /\ x = t \/ exists k', k = S k' /\ waits_at s' i k' t) /\
  (p <> i -> waits_at s' i k t).
Proof.
  intros (v & Hv & Hk) Hp Hw Hs'. pose proof (lookup_lt_Some _ _ _ Hp). pose proof (lookup_lt_Some _ _ _ Hw).
  assert (Hgen : forall u j, <[p := l]> (views s) !! i = Some u -> u !! j = Some t -> waits_at s' i j t).
  { intros u j Hu Hj. unfold waits_at. rewrite Hs'. destruct (decide (ic = i)) as [->|Hne].
    - rewrite list_lookup_insert_eq by done. rewrite Hu in Hw. injection Hw as <-. exists (u ++ [c]).
      split; [done|]. by apply lookup_app_l_Some.
    - rewrite list_lookup_insert_ne by done. by exists u. }
  split.
  - intros ->. rewrite Hv in Hp. injection Hp as ->. destruct k as [|k]; simpl in Hk; [injection Hk as ->; by left|].
    right. exists k. split; [done|]. apply (Hgen l); [by rewrite list_lookup_insert_eq|done].
  - intros Hne. apply (Hgen v); [by rewrite list_lookup_insert_ne|done].
Qed.

(** One [yield] brings a waiting thread nearer: it runs, or moves up in its
    queue, or its priority is drawn earlier than before. *)
Lemma yield_progress fuel s c i k t n :
  sched_inv s -> abs s !! c = Some Running -> (pp_period (pattern s) <= fuel)%nat ->
  waits_at s i k t -> (n < pp_period (pattern s))%nat -> first_draw (Z.of_nat i) n (pattern s) ->
  exists s', yield fuel s = Ret (tt, s') /\ sched_inv s' /\ pp_period (pattern s') = pp_period (pattern s) /\
    abs s' !! currentThread s' = Some Running /\
    (currentThread s' = t \/
     (exists k', k = S k' /\ waits_at s' i k' t) \/
     (exists n', (n' < n)%nat /\ first_draw (Z.of_nat i) n' (pattern s') /\ waits_at s' i k t)).
Proof.
  intros Hinv Hrun Hf Hwt Hn Hfd. destruct (yield_served fuel s) as (s' & E & Hinv' & _ & Hpp); [done|by exists c|done|].
  pose proof Hinv as [Hc Hl Hr]. destruct (running_thread s c Hinv Hrun) as (Hcc & Hi & Hnq & ch & Hch & Hlc).
  pose proof Hwt as (v & Hv & Hk). destruct v as [|x0 l0]; [done|].
  assert (Hw : isThreadWaiting s = true) by (apply waiting_views; [apply Hc|by exists i, x0, l0]).
  set (s0 := set_lock taken_lock s).
  destruct (draw_thread_run fuel n s0 i x0 l0) as (p & x & l & pt & a & Ed & Hp & Ha & Hca & Hva & Hpt & Hpc & _ & Hcase);
    [apply Hc|apply Hc|apply Hc|done|done|lia|].
  change (views s0) with (views s) in *.
  set (s1 := set_queues a (set_pattern pt s0)) in *.
  destruct (priority_queue s c ch Hc Hch) as (w0 & Hw0 & Hpr).
  assert (Hwx : exists w, <[p := l]> (views s) !! Z.to_nat (priority ch) = Some w).
  { apply lookup_lt_is_Some_ex. rewrite length_insert. by eapply lookup_lt_Some. }
  destruct Hwx as [w Hwx].
  assert (Hlen : Z.of_nat (length w) < 2 ^ 30).
  { pose proof (si_size _ Hc). destruct (decide (p = Z.to_nat (priority ch))) as [->|Hne].
    - rewrite list_lookup_insert_eq in Hwx by (by eapply lookup_lt_Some). injection Hwx as <-.
      pose proof (queue_length _ _ _ _ (si_ok _ Hc) Hp) as Hq. simpl in Hq. lia.
    - rewrite list_lookup_insert_ne in Hwx by done. pose proof (queue_length _ _ _ _ (si_ok _ Hc) Hwx). lia. }
  destruct (push_ready_run s1 (Z.to_nat (priority ch)) w c) as (a2 & Ep & _ & _ & Hva2);
    [done|change (views s1) with (q_view <$> array a); by rewrite Hva|done|].
  rewrite Z2Nat.id in Ep by lia. set (s2 := set_queues a2 s1) in *.
  destruct (qo_thread _ _ (si_ok _ Hc) p _ x Hp ltac:(left)) as (xh & Hx & Hlx & _).
  assert (Es : s' = set_lock new_Spinlock (set_current x s2)).
  { unfold yield in E. revert E. st_step. rewrite Hw. cbn [negb]. rewrite Hl.
    change (tryAcquire new_Spinlock) with (true, taken_lock). cbn [negb]. fold s0. unfold getNextThread. st_step.
    change (isThreadWaiting s0) with (isThreadWaiting s). rewrite Hw. cbn [negb]. rewrite Ed. fold s1.
    change (currentThread s1) with (currentThread s). rewrite Hcc. unfold deref.
    assert (threads s1 !! c = Some ch) as -> by done. outcome. rewrite Ep. fold s2.
    rewrite (dispatch_run s2 c x ch xh) by done. by intros [= <-]. }
  exists s'. split_and!; try done.
  - subst s'. rewrite (abs_live _ x xh) by done. by rewrite decide_True.
  - destruct (waits_after s s' i k t p x l (Z.to_nat (priority ch)) w c) as [Hsame Hother]; try done.
    { subst s'. change (views (set_lock new_Spinlock (set_current x s2))) with (q_view <$> array a2).
      rewrite Hva2. change (views s1) with (q_view <$> array a). by rewrite Hva. }
    destruct Hcase as [->|(Hne & n' & Hn' & Hfd')].
    + destruct (Hsame eq_refl) as [[_ ->]|Hk']; [left; by subst s'|by right; left].
    + right; right. exists n'. split_and!; [done|by subst s'|by apply Hother].
Qed.

(** C8. Nobody starves. A thread that waits at position [k] of its queue runs
    after at most [(k + 1) * pp_period] yields, whatever the other threads'
    priorities are; with the kernel's pattern for five priorities the period is
    22 draws. *)
Theorem scheduler_no_starvation fuel s c i k t :
  sched_inv s -> abs s !! c = Some Running -> (pp_period (pattern s) <= fuel)%nat -> waits_at s i k t ->
  exists n s', (n <= S k * pp_period (pattern s))%nat /\ yields fuel n s = Ret (tt, s') /\ sched_inv s' /\
    currentThread s' = t.
Proof.
  intros Hinv Hrun Hf Hwt.
  assert (Hdraw : forall s, sched_inv s -> forall k, waits_at s i k t ->
    exists d, (d < pp_period (pattern s))%nat /\ first_draw (Z.of_nat i) d (pattern s)).
  { intros s0 Hs0 k0 (v & Hv & _). pose proof (si_core _ Hs0) as Hc0. apply pp_fair; [apply Hc0|].
    pose proof (lookup_lt_Some _ _ _ Hv) as Hlt. unfold views in Hlt. rewrite length_fmap in Hlt.
    destruct (si_sane _ Hc0) as [[Hl _] _]. rewrite <- (si_count _ Hc0). lia. }
  destruct (Hdraw s Hinv k Hwt) as (d & Hd & Hfd). remember (pp_period (pattern s)) as per eqn:Hper0.
  assert (Hgen : forall m s c k d, (k * per + d < m)%nat -> pp_period (pattern s) = per -> sched_inv s ->
    abs s !! c = Some Running -> waits_at s i k t -> (d < per)%nat -> first_draw (Z.of_nat i) d (pattern s) ->
    exists n s', (n <= m)%nat /\ yields fuel n s = Ret (tt, s') /\ sched_inv s' /\ currentThread s' = t).
  { clear dependent s c k d. intros m. induction m as [|m IH]; intros s c k d Hm Hper Hinv Hrun Hwt Hd Hfd; [lia|].
    destruct (yield_progress fuel s c i k t d) as (s' & E & Hinv' & Hpp & Hrun' & Hcase);
      [done|done|lia|done|lia|done|].
    destruct Hcase as [Ht|Hcase].
    { exists 1%nat, s'. split_and!; [lia| |done|done]. cbn [yields]. by rewrite (ST_bind_Ret _ _ _ _ _ E). }
    assert (Hnext : exists k' d', (k' * per + d' < m)%nat /\ waits_at s' i k' t /\ (d' < per)%nat /\
      first_draw (Z.of_nat i) d' (pattern s')).
    { destruct Hcase as [(k' & -> & Hw')|(n' & Hn' & Hfd' & Hw')].
      - destruct (Hdraw s' Hinv' k' Hw') as (d' & Hd' & Hfd'). exists k', d'. split_and!; try done; lia.
      - exists k, n'. split_and!; try done; lia. }
    destruct Hnext as (k' & d' & Hm' & Hw' & Hd' & Hfd').
    destruct (IH s' (currentThread s') k' d') as (n & s2 & Hn & E2 & Hi2 & Ht2); try done; [congruence|].
    exists (S n), s2. split_and!; [lia| |done|done]. cbn [yields]. by rewrite (ST_bind_Ret _ _ _ _ _ E). }
  destruct (Hgen (S k * per)%nat s c k d) as (n & s' & Hn & E & Hi & Ht); try done; [lia|].
  exists n, s'. done.
Qed.
End Fairness.

(** ** Start of the scheduler *)

Section Boot.
Context {P : Type} `{PS : PrioritySpec P} {Q : Type} `{QS : QueueSpec Q Z} `{QR : !QueueRemoveSpec Q Z}.
Implicit Types (s : Scheduler P Q) (t : Z).

Lemma sched_inv_new (newQueue : Q) (pt : P) :
  pp_inv pt -> q_inv newQueue -> q_view newQueue = [] ->
  sched_inv (new_Scheduler newQueue pt) /\ abs (new_Scheduler newQueue pt) = ∅.
Proof.
  intros Hpt Hq Hv. pose proof (pp_count pt Hpt) as Hn.
  assert (Hviews : forall i v, views (new_Scheduler newQueue pt) !! i = Some v -> v = []).
  { intros i v. unfold views, new_Scheduler. simpl. rewrite fmap_replicate, Hv. intros [-> _]%lookup_replicate. done. }
  split; [|done]. constructor; [|done|done]. constructor; simpl; try done.
  - split; [split; simpl; [rewrite length_replicate; lia|lia]|]. by apply Forall_replicate.
  - constructor.
    + intros i v t Hi Ht. rewrite (Hviews i v Hi) in Ht. by apply not_elem_of_nil in Ht.
    + intros i v Hi. rewrite (Hviews i v Hi). constructor.
Qed.

(** Identifiers in use are smaller than the next one. *)
Definition ids_below s : Prop :=
  0 <= value (nextId s) < 2 ^ 32 - 1 /\ map_Forall (fun _ th => id th < value (nextId s)) (threads s).

(** A new thread object at an unused address. *)
Lemma construct_served s t p :
  sched_inv s -> ids_below s -> threads s !! t = None -> t <> currentThread s ->
  0 <= p < capacity (readyQueues s) -> Z.of_nat (base.size (threads s)) + 1 < 2 ^ 30 ->
  exists s', construct t p s = Ret (tt, s') /\ sched_inv s' /\ abs s' = <[t := New]> (abs s) /\
    value (nextId s') = value (nextId s) + 1 /\ map_Forall (fun _ th => id th < value (nextId s')) (threads s') /\
    base.size (threads s') = S (base.size (threads s)) /\ readyQueues s' = readyQueues s /\
    pattern s' = pattern s /\ initialized s' = initialized s /\ currentThread s' = currentThread s.
Proof.
  intros [Hc Hl Hr] [Hb Hids] Ht Hcur Hp Hsz. destruct Hc as [Hpt Hs Hcnt [Hq Hnd] Hpr Hid Hnw Hz].
  unfold construct, getId, fetchAndInc, fetchAndAdd_ptr. st_step.
  set (i := value (nextId s)) in *. rewrite Z.mod_small by lia.
  set (th := mkThread i p false false).
  eexists. split; [done|]. set (s' := set_threads _ _).
  assert (Hold : forall u uh, threads s !! u = Some uh -> u <> t) by congruence.
  split_and!; [| |simpl; lia| |simpl; by rewrite map_size_insert_None|done..].
  - constructor; [|done|].
    + constructor; simpl; try done.
      * constructor; [|done]. intros j v u Hj Hu. destruct (Hq j v u Hj Hu) as (uh & Hu' & ?).
        exists uh. by rewrite lookup_insert_ne by (by apply not_eq_sym, (Hold u uh)).
      * by apply map_Forall_insert_2.
      * assert (Hne : forall u uh, threads s !! u = Some uh -> id uh <> i).
        { intros u uh Hu. pose proof (Hids u uh Hu) as Hlt. simpl in Hlt. lia. }
        intros u w uh wh Hu Hw He.
        apply lookup_insert_Some in Hu as [[<- <-]|[_ Hu]]; apply lookup_insert_Some in Hw as [[<- <-]|[_ Hw]].
        -- done.
        -- simpl in He. by destruct (Hne w wh Hw).
        -- simpl in He. by destruct (Hne u uh Hu).
        -- by eapply Hid.
      * by apply map_Forall_insert_2.
      * rewrite map_size_insert_None by done. lia.
    + unfold running in *. simpl. destruct (initialized s); rewrite lookup_insert_ne by done; done.
  - apply (change_abs s s' t New); try done.
    + rewrite abs_lookup. simpl. by rewrite lookup_insert_eq.
    + intros u Hu. simpl. by rewrite lookup_insert_ne.
  - apply map_Forall_insert_2; [simpl; lia|]. eapply map_Forall_impl; [exact Hids|]. simpl. lia.
Qed.

(** [startUp] runs the first thread. *)
Lemma startUp_served fuel s :
  sched_inv s -> initialized s = false -> (exists n, abs s !! n = Some Ready) ->
  (pp_period (pattern s) <= fuel)%nat ->
  exists s', startUp fuel s = Ret (tt, s') /\ sched_inv s' /\ initialized s' = true /\
    pp_period (pattern s') = pp_period (pattern s) /\
    abs s !! currentThread s' = Some Ready /\ abs s' = <[currentThread s' := Running]> (abs s).
Proof.
  intros [Hc Hl Hr] Hi Hrdy Hf. assert (Hw : isThreadWaiting s = true) by (by apply waiting_ready).
  destruct (next_run fuel (set_lock taken_lock s)) as (n & nh & pt & a & E & Hnh & Hln & Hqn & Hc1 & Hpp & Hq);
    [by apply core_lock|done|done|].
  change (views (set_lock taken_lock s)) with (views s) in *.
  set (s1 := set_queues a (set_pattern pt (set_lock taken_lock s))) in *.
  assert (Hnone : threads s !! currentThread s = None) by (unfold running in Hr; by rewrite Hi in Hr).
  assert (Hnc : n <> currentThread s) by (intros ->; simpl in Hnh; congruence).
  set (s3 := set_lock new_Spinlock (set_initialized (set_current n s1))).
  exists s3. split_and!; try done.
  - unfold startUp. rewrite (ST_bind_Ret _ _ _ _ _ (sched_acquire s Hl)). st_step.
    change (isThreadWaiting (set_lock taken_lock s)) with (isThreadWaiting s). rewrite Hw. cbn [negb].
    rewrite E. fold s1. unfold deref.
    assert (threads (set_initialized (set_current n s1)) !! n = Some nh) as -> by done. done.
  - constructor; [destruct Hc1; by constructor|done|]. unfold running. simpl. split; [by exists nh|].
    by intros [? _]%Hq.
  - simpl. rewrite (abs_live s n nh) by done. by rewrite decide_False, decide_True.
  - apply map_eq. intros u. change (currentThread s3) with n. destruct (decide (u = n)) as [->|Hne].
    + rewrite lookup_insert_eq, (abs_live s3 n nh) by done. by rewrite decide_True.
    + rewrite lookup_insert_ne by done. destruct (decide (u = currentThread s)) as [->|Huc].
      * rewrite !abs_lookup. change (threads s3) with (threads s). by rewrite Hnone.
      * apply abs_same; [done|done|]. change (views s3) with (q_view <$> array a). rewrite Hq. tauto.
Qed.
End Boot.

(** Changing the priority of a blocked thread wakes it up: it is appended to
    the queue of its new priority although it was in none before, so that it
    runs without what it waits for having happened. *)
Theorem setPriority_wakes_blocked {P} `{PS : PrioritySpec P} {Q} `{QS : QueueSpec Q Z}
    `{QR : !QueueRemoveSpec Q Z} (s : Scheduler P Q) t p :
  sched_inv s -> abs s !! t = Some Blocked -> 0 <= p < 256 ->
  exists s', setPriority t p s = Ret (tt, s') /\ sched_inv s' /\ abs s' = <[t := Ready]> (abs s).
Proof.
  intros Hinv Hb Hp. destruct (abs_blocked s t Hb) as (Hnq & Hcur & th & Ht & Hlive).
  destruct (setPriority_other s t th p) as (s' & E & Hinv' & _ & Hth & Hcc & Hq); try done.
  exists s'. split_and!; try done. apply (change_abs s s' t Ready); try done.
  - rewrite (abs_live s' t (set_priority (clamp_priority p s) th)); [|by rewrite Hth, lookup_insert_eq|done].
    rewrite Hcc, decide_False, decide_True; [done| |done]. apply Hq. by left.
  - intros u Hu. by rewrite Hth, lookup_insert_ne.
  - intros u Hu. rewrite Hq. tauto.
Qed.

(** ** The kernel's scheduler, with three threads *)

Abbreviation KernelScheduler := (Scheduler AccessArray.AccessArrayPriorityPattern
                                   (ArrayBlockingQueue.ArrayBlockingQueue Z)).

Definition empty_scheduler : KernelScheduler :=
  new_Scheduler ArrayBlockingQueue.new_ArrayBlockingQueue
    (match AccessArray.new_AccessArrayPriorityPattern 5 0 with
     | Ret s => s | _ => AccessArray.mkAccessArray 0 (mkArray [] 0) 0 end).

Definition boot : ST KernelScheduler unit :=
  _ ← new_Thread_priority 0x1000 9;
  _ ← new_Thread 0x2000;
  _ ← new_Thread_priority 0x3000 0;
  _ ← start 0x1000;
  _ ← start 0x2000;
  _ ← start 0x3000;
  _ ← startUp 22;
  mret tt.

Definition booted : KernelScheduler :=
  match boot empty_scheduler with Ret (_, s) => s | _ => empty_scheduler end.

Lemma booted_views : views booted = [[0x3000]; []; [0x2000]; []; []].
Proof. vm_compute. reflexivity. Qed.

Lemma booted_threads :
  threads booted = {[ 0x1000 := mkThread 0 4 true false; 0x2000 := mkThread 1 2 true false;
                      0x3000 := mkThread 2 0 true false ]}.
Proof. vm_compute. reflexivity. Qed.

Lemma booted_thread t th : threads booted !! t = Some th ->
  t = 0x1000 /\ th = mkThread 0 4 true false \/ t = 0x2000 /\ th = mkThread 1 2 true false \/
  t = 0x3000 /\ th = mkThread 2 0 true false.
Proof.
  rewrite booted_threads. intros H. apply lookup_insert_Some in H as [[<- <-]|[_ H]]; [by left|].
  apply lookup_insert_Some in H as [[<- <-]|[_ H]]; [by right; left|].
  apply lookup_singleton_Some in H as [<- <-]. by right; right.
Qed.

Lemma booted_core : core booted.
Proof.
  constructor.
  - constructor; try (by vm_compute).
    + vm_compute. repeat constructor; discriminate.
    + intros p Hp. assert (Hc : p = 1 \/ p = 2 \/ p = 3 \/ p = 4).
      { change (AccessArray.priorityCount (pattern booted)) with 5 in Hp. lia. }
      assert (Ha : array (AccessArray.accessArray (pattern booted)) = [4; 1; 2; 3; 4; 2; 3; 4; 3; 4])
        by (vm_compute; reflexivity).
      rewrite Ha, !elem_of_cons, elem_of_nil. clear -Hc. lia.
  - split; [by vm_compute|]. vm_compute. repeat constructor; simpl; try lia; by eexists.
  - by vm_compute.
  - rewrite booted_threads, booted_views. constructor.
    + intros i v t Hi Ht. destruct i as [|[|[|[|[|i]]]]]; simpl in Hi; try done; injection Hi as <-;
        try (by apply not_elem_of_nil in Ht); apply list_elem_of_singleton in Ht as ->;
        eexists; (split; [reflexivity|by repeat split]).
    + intros i v Hi. destruct i as [|[|[|[|[|i]]]]]; simpl in Hi; try done; injection Hi as <-;
        first [apply NoDup_nil_2|apply NoDup_singleton].
  - intros t th Ht. change (capacity (readyQueues booted)) with 5.
    apply booted_thread in Ht as [[_ ->]|[[_ ->]|[_ ->]]]; simpl; lia.
  - intros t u th uh Ht Hu Hid.
    apply booted_thread in Ht as [[-> ->]|[[-> ->]|[-> ->]]];
      apply booted_thread in Hu as [[-> ->]|[[-> ->]|[-> ->]]]; simpl in Hid; done.
  - intros t th Ht. by apply booted_thread in Ht as [[_ ->]|[[_ ->]|[_ ->]]].
  - by vm_compute.
Qed.

Lemma booted_inv : sched_inv booted.
Proof.
  constructor; [exact booted_core|by vm_compute|]. unfold running.
  change (initialized booted) with true. cbv iota. split.
  - exists (mkThread 0 4 true false). split; [by vm_compute|done].
  - rewrite booted_views. change (currentThread booted) with 0x1000. intros (i & v & Hi & Ht).
    destruct i as [|[|[|[|[|i]]]]]; simpl in Hi; try done; injection Hi as <-;
      first [by apply not_elem_of_nil in Ht|apply list_elem_of_singleton in Ht; discriminate].
Qed.

Lemma booted_abs : abs booted = {[ 0x1000 := Running; 0x2000 := Ready; 0x3000 := Ready ]}.
Proof. vm_compute. reflexivity. Qed.

Lemma scheduler_refines_lifecycle_witness :
  exists s', perform 22 (RKill 0x2000) booted = Ret (tt, s') /\ sched_inv s' /\
    abs_step (RKill 0x2000) {[ 0x1000 := Running; 0x2000 := Ready; 0x3000 := Ready ]} (abs s').
Proof.
  destruct (scheduler_refines_lifecycle 22 booted (RKill 0x2000) booted_inv) as (s' & E & Hi & Hs & _).
  - rewrite booted_abs. split; [by exists 0x1000|by left].
  - vm_compute. lia.
  - exists s'. rewrite booted_abs in Hs. split; [exact E|]. split; [exact Hi|exact Hs].
Defined.

Lemma scheduler_no_starvation_witness :
  exists n s', (n <= 22)%nat /\ yields 22 n booted = Ret (tt, s') /\ sched_inv s' /\ currentThread s' = 0x3000.
Proof.
  destruct (scheduler_no_starvation 22 booted 0x1000 0 0 0x3000 booted_inv) as (n & s' & Hn & E & Hi & Ht).
  - rewrite booted_abs. reflexivity.
  - vm_compute. lia.
  - exists [0x3000]. rewrite booted_views. split; reflexivity.
  - exists n, s'. split; [|split; [exact E|split; [exact Hi|exact Ht]]].
    etransitivity; [exact Hn|]. vm_compute. lia.
Defined.

(** The state after the running thread has blocked: 0x1000 waits for an event. *)
Definition one_blocked : KernelScheduler :=
  match block 22 booted with Ret (_, s) => s | _ => booted end.

Lemma one_blocked_inv : sched_inv one_blocked /\ abs one_blocked !! 0x1000 = Some Blocked.
Proof.
  destruct (block_served 22 booted booted_inv) as (s' & E & Hi & _).
  - rewrite booted_abs. split; [by exists 0x1000|by exists 0x2000].
  - vm_compute. lia.
  - unfold one_blocked. split; [by rewrite E|by vm_compute].
Qed.

Lemma setPriority_wakes_blocked_witness :
  exists s', setPriority 0x1000 1 one_blocked = Ret (tt, s') /\ abs s' !! 0x1000 = Some Ready.
Proof.
  destruct one_blocked_inv as [Hi Hb].
  destruct (setPriority_wakes_blocked one_blocked 0x1000 1 Hi Hb) as (s' & E & _ & Ha); [lia|].
  exists s'. split; [exact E|]. rewrite Ha. apply lookup_insert_eq.
Defined.
