(* ===== verification/ProcessScheduler.v ===== *)
(** * The process scheduler

    [kernel/process/ProcessScheduler.cpp] and the members of [Process] it uses:
    a copy of the thread scheduler whose [dispatch] is still empty. *)

From S2P Require Import Prelude Array Spinlock Collections ArrayList Priority.

Record Process := mkProcess { id : Z; priority : Z }.

(** A new process has priority 255. *)
Definition new_Process (i : Z) : Process := mkProcess i 0xff.

(** [Process::operator==] *)
Definition process_eq (p other : Process) : bool := id p =? id other.

Record ProcessScheduler (P Q : Type) := mkProcessScheduler {
  initialized : bool;
  currentProcess : Z;
  priorityPattern : P;
  readyQueues : Array Q;
  lock : Spinlock;
  processes : gmap Z Process
}.
Arguments mkProcessScheduler {P Q} _ _ _ _ _ _.
Arguments initialized {P Q} _.
Arguments currentProcess {P Q} _.
Arguments priorityPattern {P Q} _.
Arguments readyQueues {P Q} _.
Arguments lock {P Q} _.
Arguments processes {P Q} _.

Section Operations.
Context {P : Type} `{PriorityPattern P} {Q : Type} `{QueueOps Q Z}.

Abbreviation PSC := (ST (ProcessScheduler P Q)).

Definition with_queues (pt : P) (a : Array Q) (s : ProcessScheduler P Q) : ProcessScheduler P Q :=
  mkProcessScheduler (initialized s) (currentProcess s) pt a (lock s) (processes s).
Definition with_lock (l : Spinlock) (s : ProcessScheduler P Q) : ProcessScheduler P Q :=
  mkProcessScheduler (initialized s) (currentProcess s) (priorityPattern s) (readyQueues s) l (processes s).
Definition with_current (ini : bool) (c : Z) (s : ProcessScheduler P Q) : ProcessScheduler P Q :=
  mkProcessScheduler ini c (priorityPattern s) (readyQueues s) (lock s) (processes s).

Definition new_ProcessScheduler (newQueue : Q) (priorityPattern : P) : ProcessScheduler P Q :=
  let n := getPriorityCount priorityPattern in
  mkProcessScheduler false 0 priorityPattern (mkArray (replicate (Z.to_nat n) newQueue) n) new_Spinlock ∅.

Definition ps_acquire : PSC unit := fun s => l ← acquire 1 (lock s); Ret (tt, with_lock l s).
Definition ps_release : PSC unit := modify (fun s => with_lock (release (lock s)) s).
Definition ps_deref (that : Z) : PSC Process := fun s => p ← or_fault (processes s !! that); Ret (p, s).

Definition ps_push (i that : Z) : PSC unit := fun s =>
  q ← at_ (readyQueues s) i;
  q ← push that q;
  a ← Array.put (readyQueues s) i q;
  Ret (tt, with_queues (priorityPattern s) a s).

Definition ps_remove (i that : Z) : PSC unit := fun s =>
  q ← at_ (readyQueues s) i;
  '(_, q) ← c_remove that q;
  a ← Array.put (readyQueues s) i q;
  Ret (tt, with_queues (priorityPattern s) a s).

Definition isProcessWaiting (s : ProcessScheduler P Q) : bool :=
  existsb (fun q => negb (c_isEmpty q)) (array (readyQueues s)).

Definition getProcessCount (s : ProcessScheduler P Q) : Z :=
  foldl (fun count q => u32 (count + c_size q)) 0 (array (readyQueues s)).

Definition getMaxPriority (s : ProcessScheduler P Q) : Z := u8 (length_ (readyQueues s) - 1).

(** The chosen process is pushed back at once. *)
Fixpoint draw_process (fuel : nat) : PSC Z := fun s =>
  match fuel with
  | O => Diverge
  | S fuel =>
      '(p, pt) ← getNextPriority (priorityPattern s);
      q ← at_ (readyQueues s) p;
      if c_isEmpty q then draw_process fuel (with_queues pt (readyQueues s) s)
      else
        '(next, q) ← pop q;
        q ← push next q;
        a ← Array.put (readyQueues s) p q;
        Ret (next, with_queues pt a s)
  end.

Definition getNextProcess (fuel : nat) : PSC Z :=
  waiting ← gets isProcessWaiting;
  if negb waiting then throw ILLEGAL_STATE else draw_process fuel.

(** The switch itself is commented out. *)
Definition dispatch (next : Z) : PSC unit :=
  ini ← gets initialized;
  if negb ini then throw ILLEGAL_STATE else mret tt.

Definition startUp (fuel : nat) : PSC unit :=
  _ ← ps_acquire;
  waiting ← gets isProcessWaiting;
  if negb waiting then throw ILLEGAL_STATE
  else
    next ← getNextProcess fuel;
    modify (with_current true next).

Definition ready (that : Z) : PSC unit :=
  _ ← ps_acquire;
  p ← ps_deref that;
  _ ← ps_push (priority p) that;
  ps_release.

Definition exit (fuel : nat) : PSC unit :=
  _ ← ps_acquire;
  ini ← gets initialized;
  if negb ini then throw ILLEGAL_STATE
  else
    waiting ← gets isProcessWaiting;
    if negb waiting then throw ILLEGAL_STATE
    else next ← getNextProcess fuel; dispatch next.

Definition kill (that : Z) : PSC unit :=
  _ ← ps_acquire;
  ini ← gets initialized;
  if negb ini then throw ILLEGAL_STATE
  else
    p ← ps_deref that;
    current ← gets currentProcess;
    c ← ps_deref current;
    if process_eq p c then throw ILLEGAL_STATE
    else
      _ ← ps_remove (priority p) that;
      ps_release.

Definition yield (fuel : nat) : PSC unit :=
  waiting ← gets isProcessWaiting;
  if negb waiting then mret tt
  else
    got ← (fun s => let '(b, l) := tryAcquire (lock s) in Ret (b, with_lock l s));
    if negb got then mret tt
    else
      current ← gets currentProcess;
      c ← ps_deref current;
      _ ← ps_push (priority c) current;
      next ← getNextProcess fuel;
      dispatch next.

Definition changePriority (that p : Z) : PSC Z :=
  p ← gets (fun s => u8 (if getMaxPriority s <? p then getMaxPriority s else p));
  _ ← ps_acquire;
  t ← ps_deref that;
  current ← gets currentProcess;
  c ← ps_deref current;
  if process_eq t c then _ ← ps_release; mret p
  else
    _ ← ps_remove (priority t) that;
    _ ← ps_push p that;
    _ ← ps_release;
    mret p.

Definition store_priority (that p : Z) : PSC unit := fun s =>
  t ← or_fault (processes s !! that);
  Ret (tt, mkProcessScheduler (initialized s) (currentProcess s) (priorityPattern s) (readyQueues s)
             (lock s) (<[that := mkProcess (id t) p]> (processes s))).

(** [Process::setPriority] *)
Definition setPriority (that p : Z) : PSC unit :=
  p ← changePriority that p; store_priority that p.
End Operations.

(** ** The scheduler locks itself up *)

Section Locked.
Context {P : Type} `{PriorityPattern P} {Q : Type} `{QueueOps Q Z}.
Implicit Types s : ProcessScheduler P Q.

Definition locked s : Prop := value (lockVar (lock s)) = SPINLOCK_LOCK.

Lemma locked_acquire s : locked s -> ps_acquire s = Diverge.
Proof. unfold locked, ps_acquire. destruct (lock s) as [[v]]. simpl. by intros ->. Qed.

Lemma draw_process_lock fuel s x s' : draw_process fuel s = Ret (x, s') -> lock s' = lock s.
Proof.
  revert s. induction fuel as [|fuel IH]; intros s; [done|]. cbn [draw_process].
  destruct (getNextPriority (priorityPattern s)) as [[p pt]| | |]; outcome; try done.
  destruct (at_ (readyQueues s) p) as [q| | |]; outcome; try done.
  destruct (c_isEmpty q); [intros E; by rewrite (IH _ E)|].
  destruct (pop q) as [[n q']| | |]; outcome; try done.
  destruct (push n q') as [q2| | |]; outcome; try done.
  destruct (Array.put (readyQueues s) p q2) as [a| | |]; outcome; try done. by intros [= _ <-].
Qed.

(** C40. [startUp] takes the lock and nothing gives it back: once the process
    scheduler has started, registering, killing or ending a process and changing
    a priority wait for ever, and [yield] never switches. *)
Theorem process_scheduler_locks_up fuel fuel' s s' that p :
  lock s = new_Spinlock -> startUp fuel s = Ret (tt, s') ->
  ready that s' = Diverge /\ kill that s' = Diverge /\ exit fuel' s' = Diverge /\
  changePriority that p s' = Diverge /\ setPriority that p s' = Diverge /\
  exists s'', yield fuel' s' = Ret (tt, s'') /\ currentProcess s'' = currentProcess s' /\
    readyQueues s'' = readyQueues s' /\ locked s''.
Proof.
  intros Hl E.
  assert (Hlk : locked s').
  { revert E. unfold startUp, ps_acquire, getNextProcess. st_step. rewrite Hl.
    change (acquire 1 new_Spinlock) with (Ret (mkSpinlock (mkAtomic SPINLOCK_LOCK))). outcome.
    destruct (isProcessWaiting _) eqn:Ew; cbn [negb]; [|done]. rewrite Ew. cbn [negb].
    destruct (draw_process _ _) as [[x s1]| | |] eqn:Ed; try done. intros [= <-].
    apply draw_process_lock in Ed. unfold locked. simpl. by rewrite Ed. }
  pose proof (locked_acquire s' Hlk) as Ha.
  assert (Hcp : changePriority that p s' = Diverge) by (unfold changePriority; st_step; by rewrite Ha).
  split_and!; [by apply ST_bind_Diverge..|done|by apply ST_bind_Diverge|].
  unfold yield. st_step. destruct (isProcessWaiting s') eqn:Ew; cbn [negb]; [|by exists s'].
  unfold locked in Hlk. unfold tryAcquire, getAndSet. destruct (lock s') as [[v]] eqn:El. simpl in Hlk. subst v.
  cbn. eexists. split_and!; done.
Qed.

(** A process with its initial priority cannot be registered: there is no ready
    queue for it. *)
Theorem new_process_rejected s that i :
  lock s = new_Spinlock -> processes s !! that = Some (new_Process i) -> capacity (readyQueues s) <= 255 ->
  ready that s = Throw OUT_OF_BOUNDS.
Proof.
  intros Hl Hp Hc. unfold ready, ps_acquire, ps_deref, ps_push. st_step. rewrite Hl.
  change (acquire 1 new_Spinlock) with (Ret (mkSpinlock (mkAtomic SPINLOCK_LOCK))). outcome.
  cbn [processes with_lock]. rewrite Hp. outcome. unfold at_. cbn [readyQueues with_lock new_Process priority].
  by decide_bool.
Qed.
End Locked.

(** Two processes of a priority that fits. *)
Definition two_processes : ProcessScheduler Simple.SimplePriorityPattern (ArrayBlockingQueue.ArrayBlockingQueue Z) :=
  let s := new_ProcessScheduler ArrayBlockingQueue.new_ArrayBlockingQueue (Simple.new_SimplePriorityPattern 5) in
  let s := mkProcessScheduler false 0 (priorityPattern s) (readyQueues s) (lock s)
             {[ 0x1000 := mkProcess 1 2; 0x2000 := mkProcess 2 3 ]} in
  match ready 0x1000 s with Ret (_, s) => s | _ => s end.

Lemma process_scheduler_locks_up_witness :
  exists s', startUp 10 two_processes = Ret (tt, s') /\ ready 0x2000 s' = Diverge.
Proof.
  destruct (startUp 10 two_processes) as [[[] s']| | |] eqn:E; try (vm_compute in E; discriminate E).
  exists s'. split; [done|]. apply (process_scheduler_locks_up 10 10 two_processes s' 0x2000 0); [by vm_compute|exact E].
Defined.
