(* ===== verification/CString.v ===== *)
(** * C strings

    [lib/libc/string.c] and [lib/libc/ctype.c] over the byte memory. Loops that
    run until a terminator is met take fuel; the theorems say how much is
    enough for strings that have one. [char] is signed; bytes are compared as
    the code compares them. [malloc] and [free] are those of an [Allocator],
    an argument of the functions that call them. *)

From S2P Require Import Prelude Memory.

(** ** Loops *)

(** [while (!stop(i)) i++;] *)
Fixpoint scan (fuel : nat) (stop : Z -> bool) (i : Z) : outcome Z :=
  match fuel with
  | O => Diverge
  | S fuel => if stop i then Ret i else scan fuel stop (i + 1)
  end.

(** [while (!stop(i)) { body; i++; }] over a memory; the condition reads it. *)
Fixpoint copy_while (fuel : nat) (stop : Mem -> Z -> bool) (body : Z -> Mem -> Mem) (i : Z) (m : Mem)
    : outcome (Z * Mem) :=
  match fuel with
  | O => Diverge
  | S fuel => if stop m i then Ret (i, m) else copy_while fuel stop body (i + 1) (body i m)
  end.

(** [for (i = 0; i < bound; i++) body]: the bound, a call of [strlen], is computed
    in every round; [inr] leaves the loop. *)
Fixpoint for_until {A R} (fuel : nat) (bound : outcome Z) (body : Z -> A -> outcome (A + R)) (i : Z) (a : A)
    : outcome (A + R) :=
  match fuel with
  | O => Diverge
  | S fuel =>
      n ← bound;
      if i <? n then
        r ← body i a;
        match r with
        | inl a => for_until fuel bound body (i + 1) a
        | inr r => Ret (inr r)
        end
      else Ret (inl a)
  end.

(** The result of a loop that is not left early. *)
Definition ended {A} (r : A + Empty_set) : A := match r with inl a => a | inr e => match e with end end.

(** A [char] as the [int] it is promoted to. *)
Definition schar (c : Z) : Z := if c <? 128 then c else c - 256.

(** ** Lengths and copies *)

Definition strlen (fuel : nat) (m : Mem) (s : Z) : outcome Z :=
  scan fuel (fun i => load8 m (s + i) =? 0) 0.

(** [malloc] and [free] of [stdlib.h]. *)
Record Allocator := mkAllocator { malloc : Z -> Mem -> outcome (Z * Mem); free : Z -> Mem -> outcome Mem }.

Definition memmove (heap : Allocator) (dest src n : Z) (m : Mem) : outcome Mem :=
  '(tmp, m) ← malloc heap n m;
  let m := memcpy tmp src n m in
  let m := memcpy dest tmp n m in
  free heap tmp m.

Definition strcpy (fuel : nat) (dest src : Z) (m : Mem) : outcome Mem :=
  '(i, m) ← copy_while fuel (fun m i => load8 m (src + i) =? 0)
              (fun i m => store8 m (dest + i) (load8 m (src + i))) 0 m;
  Ret (store8 m (dest + i) (load8 m (src + i))).

Definition strncpy (fuel : nat) (dest src n : Z) (m : Mem) : outcome Mem :=
  '(i, m) ← copy_while fuel (fun m i => negb (negb (load8 m (src + i) =? 0) && (i <? n)))
              (fun i m => store8 m (dest + i) (load8 m (src + i))) 0 m;
  '(_, m) ← copy_while fuel (fun _ i => negb (i <? n)) (fun i m => store8 m (dest + i) 0) i m;
  Ret m.

Definition strcat (fuel : nat) (s1 s2 : Z) (m : Mem) : outcome Mem :=
  len ← strlen fuel m s1;
  '(j, m) ← copy_while fuel (fun m j => load8 m (s2 + j) =? 0)
              (fun j m => store8 m (s1 + len + j) (load8 m (s2 + j))) 0 m;
  Ret (store8 m (s1 + len + j) 0).

Definition strncat (fuel : nat) (s1 s2 n : Z) (m : Mem) : outcome Mem :=
  len ← strlen fuel m s1;
  '(j, m) ← copy_while fuel (fun m j => negb (negb (load8 m (s2 + j) =? 0) && (j <? n)))
              (fun j m => store8 m (s1 + len + j) (load8 m (s2 + j))) 0 m;
  Ret (if n <=? j then store8 m (s1 + len + j) 0 else m).

(** ** Comparisons *)

Definition memcmp (fuel : nat) (m : Mem) (s1 s2 n : Z) : outcome Z :=
  i ← scan fuel (fun i => negb ((i <? n) && (load8 m (s1 + i) =? load8 m (s2 + i)))) 0;
  Ret (if n <=? i then 0 else load8 m (s1 + i) - load8 m (s2 + i)).

Definition strcmp (fuel : nat) (m : Mem) (s1 s2 : Z) : outcome Z :=
  i ← scan fuel (fun i => negb (negb (load8 m (s1 + i) =? 0) && (load8 m (s1 + i) =? load8 m (s2 + i)))) 0;
  Ret (load8 m (s1 + i) - load8 m (s2 + i)).

Definition strncmp (fuel : nat) (m : Mem) (s1 s2 n : Z) : outcome Z :=
  i ← scan fuel (fun i => negb (negb (load8 m (s1 + i) =? 0) && (i <? n)
                                && (load8 m (s1 + i) =? load8 m (s2 + i)))) 0;
  Ret (if n <=? i then 0 else load8 m (s1 + i) - load8 m (s2 + i)).

(** ** Searching; 0 is the null pointer *)

Definition memchr (fuel : nat) (m : Mem) (s c n : Z) : outcome Z :=
  i ← scan fuel (fun i => (n <=? i) || (load8 m (s + i) =? u8 c)) 0;
  Ret (if n <=? i then 0 else s + i).

Definition strchr (fuel : nat) (m : Mem) (s c : Z) : outcome Z :=
  i ← scan fuel (fun i => negb (negb (load8 m (s + i) =? u8 c) && negb (load8 m (s + i) =? 0))) 0;
  Ret (if (load8 m (s + i) =? 0) && negb (c =? 0) then 0 else s + i).

Definition strcspn (fuel : nat) (m : Mem) (s1 s2 : Z) : outcome Z :=
  ret ← strlen fuel m s1;
  r ← for_until (R:=Empty_set) fuel (strlen fuel m s2)
        (fun i ret =>
           tmp ← strchr fuel m s1 (schar (load8 m (s2 + i)));
           Ret (inl (if negb (tmp =? 0) && (tmp - s1 <? ret) then tmp - s1 else ret))) 0 ret;
  Ret (ended r).

Definition strpbrk (fuel : nat) (m : Mem) (s1 s2 : Z) : outcome Z :=
  r ← for_until (R:=Empty_set) fuel (strlen fuel m s2)
        (fun i index =>
           for_until (R:=Empty_set) fuel (strlen fuel m s1)
             (fun j index =>
                Ret (inl (if (load8 m (s1 + j) =? load8 m (s2 + i)) && ((index =? -1) || (j <? index))
                          then j else index))) 0 index) 0 (-1);
  let index := ended r in
  Ret (if index =? -1 then 0 else s1 + index).

(** The comparison is between a [char] and an [int]. *)
Definition strrchr (fuel : nat) (m : Mem) (s c : Z) : outcome Z :=
  r ← for_until (R:=Empty_set) fuel (strlen fuel m s)
        (fun i index => Ret (inl (if schar (load8 m (s + i)) =? c then i else index))) 0 (-1);
  let index := ended r in
  Ret (if index =? -1 then 0 else s + index).

Definition strspn (fuel : nat) (m : Mem) (s1 s2 : Z) : outcome Z :=
  r ← for_until fuel (strlen fuel m s1)
        (fun i ret =>
           found ← for_until fuel (strlen fuel m s2)
             (fun j (_ : unit) => Ret (if load8 m (s1 + i) =? load8 m (s2 + j) then inr tt else inl tt)) 0 tt;
           Ret (match found with inr _ => inl (ret + 1) | inl _ => inr ret end)) 0 0;
  match r with inl ret => Ret ret | inr ret => Ret ret end.

Definition strstr (fuel : nat) (m : Mem) (s1 s2 : Z) : outcome Z :=
  r ← for_until fuel (strlen fuel m s1)
        (fun i (_ : unit) =>
           differs ← for_until fuel (strlen fuel m s2)
             (fun j (_ : unit) => Ret (if load8 m (s1 + (i + j)) =? load8 m (s2 + j) then inl tt else inr tt)) 0 tt;
           Ret (match differs with inl _ => inr (s1 + i) | inr _ => inl tt end)) 0 tt;
  match r with inl _ => Ret 0 | inr p => Ret p end.

(** ** Tokens *)

(** The two static pointers. *)
Record Tokenizer := mkTokenizer { strtok_pointer : Z; strtok_start_pointer : Z }.

(** The part of [strtok] behind the copy of a new string. *)
Definition next_token (fuel : nat) (s2 : Z) (t : Tokenizer) (m : Mem) : outcome (Z * Tokenizer * Mem) :=
  if strtok_pointer t =? 0 then Ret (0, t, m)
  else
    k ← strspn fuel m (strtok_pointer t) s2;
    let p := strtok_pointer t + k in
    end_index ← strcspn fuel m p s2;
    if end_index =? 0 then Ret (0, mkTokenizer p (strtok_start_pointer t), m)
    else if load8 m (p + end_index) =? 0 then Ret (p, mkTokenizer 0 (strtok_start_pointer t), m)
    else Ret (p, mkTokenizer (p + (end_index + 1)) (strtok_start_pointer t), store8 m (p + end_index) 0).

Definition strtok (heap : Allocator) (fuel : nat) (s1 s2 : Z) (t : Tokenizer) (m : Mem)
    : outcome (Z * Tokenizer * Mem) :=
  if s1 =? 0 then next_token fuel s2 t m
  else
    m ← (if strtok_pointer t =? 0 then Ret m else free heap (strtok_start_pointer t) m);
    len ← strlen fuel m s1;
    '(p, m) ← malloc heap (len + 1) m;
    m ← strcpy fuel p s1 m;
    next_token fuel s2 (mkTokenizer p p) m.

(** ** Numbers *)

Definition MINUS : Z := 45.
Definition ZERO : Z := 48.

(** The backward loop of [strtoint] from [i] on, with [int] arithmetic. *)
Fixpoint digits_from (n : nat) (m : Mem) (str i j result : Z) : Z :=
  match n with
  | O => result
  | S n =>
      let num := schar (load8 m (str + i)) - ZERO in
      if (0 <=? num) && (num <=? 10)
      then digits_from n m str (i - 1) (s32 (j * 10)) (s32 (result + s32 (num * j)))
      else digits_from n m str (i - 1) j result
  end.

Definition strtoint (fuel : nat) (m : Mem) (str : Z) : outcome Z :=
  length ← strlen fuel m str;
  let negative := load8 m str =? MINUS in
  let limit := if negative then 1 else 0 in
  let result := digits_from (Z.to_nat (length - limit)) m str (length - 1) 1 0 in
  Ret (s32 (result * (if negative then -1 else 1))).

(** ** [ctype.c] *)

Definition isupper (c : Z) : bool := (0x41 <=? c) && (c <=? 0x5a).
Definition islower (c : Z) : bool := (0x61 <=? c) && (c <=? 0x7a).
Definition isdigit (c : Z) : bool := (0x30 <=? c) && (c <=? 0x39).
Definition isgraph (c : Z) : bool := (0x21 <=? c) && (c <=? 0x7e).
Definition isprint (c : Z) : bool := (0x20 <=? c) && (c <=? 0x7e).
Definition isspace (c : Z) : bool := (0x09 <=? c) && (c <=? 0x0d).
Definition isalpha (c : Z) : bool := isupper c || islower c.
Definition isalnum (c : Z) : bool := isalpha c || isdigit c.
Definition iscntrl (c : Z) : bool := negb (isprint c).
Definition ispunct (c : Z) : bool := isgraph c && negb (isalnum c).
Definition isxdigit (c : Z) : bool :=
  isdigit c || (0x41 <=? c) && (c <=? 0x46) || (0x61 <=? c) && (c <=? 0x66).

(** ** Strings in memory *)

(** The characters [l], none of them 0, lie at [a] and are followed by a 0. *)
Record is_string (m : Mem) (a : Z) (l : list Z) : Prop := {
  str_chars : forall (i : nat) c, l !! i = Some c -> 0 < c < 256 /\ m (a + Z.of_nat i) = c;
  str_end : m (a + Z.of_nat (length l)) = 0
}.

(** The character at a position, 0 behind the last. *)
Definition char_at (l : list Z) (i : Z) : Z := default 0 (l !! Z.to_nat i).

Lemma load_char m a l i : is_string m a l -> 0 <= i <= Z.of_nat (length l) -> load8 m (a + i) = char_at l i.
Proof.
  intros [Hc He] Hi. unfold load8, char_at. destruct (l !! Z.to_nat i) as [c|] eqn:E.
  - destruct (Hc _ _ E) as [_ <-]. simpl. f_equal. lia.
  - apply lookup_ge_None in E. replace i with (Z.of_nat (length l)) by lia. exact He.
Qed.

Lemma char_nonzero m a l i : is_string m a l -> 0 <= i -> char_at l i = 0 <-> Z.of_nat (length l) <= i.
Proof.
  intros [Hc _] Hi. unfold char_at. destruct (l !! Z.to_nat i) as [c|] eqn:E; simpl.
  - pose proof (lookup_lt_Some _ _ _ E). destruct (Hc _ _ E). lia.
  - apply lookup_ge_None in E. lia.
Qed.

Lemma char_range m a l i : is_string m a l -> 0 <= char_at l i < 256.
Proof.
  intros [Hc _]. unfold char_at. destruct (l !! Z.to_nat i) as [c|] eqn:E; simpl; [|lia].
  destruct (Hc _ _ E). lia.
Qed.

(** Characters are the same after a change elsewhere. *)
Lemma is_string_frame m m' a l :
  is_string m a l -> (forall x, a <= x <= a + Z.of_nat (length l) -> m' x = m x) -> is_string m' a l.
Proof.
  intros [Hc He] Hm. constructor.
  - intros i c Hi. pose proof (lookup_lt_Some _ _ _ Hi). rewrite Hm by lia. by apply Hc.
  - rewrite Hm by lia. done.
Qed.

(** ** Loop lemmas *)

Lemma scan_run fuel stop i k :
  stop k = true -> (forall j, i <= j < k -> stop j = false) -> i <= k -> k - i < Z.of_nat fuel ->
  scan fuel stop i = Ret k.
Proof.
  intros Hk. revert i. induction fuel as [|fuel IH]; intros i Hj Hi Hf; [lia|]. cbn [scan].
  destruct (decide (i = k)) as [->|Hne]; [by rewrite Hk|].
  rewrite Hj by lia. apply IH; [|lia|lia]. intros j Hj'. apply Hj. lia.
Qed.

Lemma strlen_run fuel m a l :
  is_string m a l -> (length l < fuel)%nat -> strlen fuel m a = Ret (Z.of_nat (length l)).
Proof.
  intros Hs Hf. apply scan_run; [|intros j Hj|lia|lia].
  - apply Z.eqb_eq. by destruct Hs.
  - rewrite (load_char m a l) by (done || lia). apply Z.eqb_neq. rewrite (char_nonzero m a) by (done || lia). lia.
Qed.

(** The characters at an address, up to the 0: what a [String] made of a pointer holds. *)
Definition name_at (fuel : nat) (m : Mem) (a : Z) : outcome (list Z) :=
  n ← strlen fuel m a;
  Ret ((fun i => load8 m (a + Z.of_nat i)) <$> seq 0 (Z.to_nat n)).

Lemma name_run fuel m a l : is_string m a l -> (length l < fuel)%nat -> name_at fuel m a = Ret l.
Proof.
  intros Hs Hf. unfold name_at. rewrite (strlen_run fuel m a l) by done. outcome. rewrite Nat2Z.id. f_equal. apply list_eq. intros i. rewrite list_lookup_fmap. destruct (l !! i) as [c|] eqn:E.
  - rewrite lookup_seq_lt by (by apply lookup_lt_Some in E). cbn. f_equal. unfold load8. by destruct (str_chars _ _ _ Hs i c E).
  - apply lookup_ge_None in E. by rewrite lookup_seq_ge.
Qed.

(** A loop that copies the characters of [src] one by one, which stops at
    position [k] and does not touch what it still has to read. *)
Lemma copy_run fuel stop dest src k i m0 m :
  (forall j m', i <= j < k -> (forall x, src + j <= x <= src + k -> m' x = m0 x) -> stop m' j = false) ->
  (forall m', (m' (src + k) = m0 (src + k)) -> stop m' k = true) ->
  dest + k <= src \/ src + k < dest -> 0 <= i <= k -> k - i < Z.of_nat fuel ->
  (forall x, ~ (dest <= x < dest + i) -> m x = m0 x) -> (forall j, 0 <= j < i -> m (dest + j) = m0 (src + j)) ->
  exists m', copy_while fuel stop (fun i m => store8 m (dest + i) (load8 m (src + i))) i m = Ret (k, m') /\
    (forall x, ~ (dest <= x < dest + k) -> m' x = m0 x) /\ (forall j, 0 <= j < k -> m' (dest + j) = m0 (src + j)).
Proof.
  intros Hgo Hstop Hd. revert i m Hgo. induction fuel as [|fuel IH]; intros i m Hgo Hi Hf Hout Hin; [lia|]. cbn [copy_while].
  destruct (decide (i = k)) as [->|Hne].
  - rewrite Hstop by (apply Hout; lia). by exists m.
  - rewrite Hgo; [|lia|intros x Hx; apply Hout; lia].
    apply IH; [|lia|lia| |].
    + intros j m' Hj. apply Hgo. lia.
    + intros x Hx. rewrite store8_ne by lia. apply Hout. lia.
    + intros j Hj. unfold load8. destruct (decide (j = i)) as [->|Hji].
      * rewrite store8_eq. apply Hout. lia.
      * rewrite store8_ne by lia. apply Hin. lia.
Qed.

Lemma load8_eq m a : load8 m a = m a.
Proof. done. Qed.

(** ** Copies *)

Lemma strcpy_run fuel m dest src l :
  is_string m src l -> (length l < fuel)%nat ->
  dest + Z.of_nat (length l) < src \/ src + Z.of_nat (length l) < dest ->
  exists m', strcpy fuel dest src m = Ret m' /\ is_string m' dest l /\
    (forall x, ~ (dest <= x <= dest + Z.of_nat (length l)) -> m' x = m x).
Proof.
  intros Hs Hf Hd. pose proof Hs as [Hc He]. unfold strcpy.
  destruct (copy_run fuel (fun (m : Mem) i => load8 m (src + i) =? 0) dest src (Z.of_nat (length l)) 0 m m)
    as (m' & E & Hout & Hin); try done; try lia.
  - intros j m' Hj Hm. rewrite load8_eq, Hm by lia. rewrite <- load8_eq, (load_char m src l) by (done || lia).
    apply Z.eqb_neq. rewrite (char_nonzero m src) by (done || lia). lia.
  - intros m' Hm. rewrite load8_eq, Hm, He. done.
  - rewrite E. outcome. eexists. split; [done|]. rewrite load8_eq, Hout, He by lia. split.
    + constructor.
      * intros i c Hi. pose proof (lookup_lt_Some _ _ _ Hi). rewrite store8_ne by lia. rewrite Hin by lia. by apply Hc.
      * by rewrite store8_eq.
    + intros x Hx. rewrite store8_ne by lia. apply Hout. lia.
Qed.

Lemma strcat_run fuel m s1 s2 l1 l2 :
  is_string m s1 l1 -> is_string m s2 l2 -> (length l1 < fuel)%nat -> (length l2 < fuel)%nat ->
  s1 + Z.of_nat (length l1 + length l2) < s2 \/ s2 + Z.of_nat (length l2) < s1 ->
  exists m', strcat fuel s1 s2 m = Ret m' /\ is_string m' s1 (l1 ++ l2) /\
    (forall x, ~ (s1 <= x <= s1 + Z.of_nat (length l1 + length l2)) -> m' x = m x).
Proof.
  intros H1 H2 Hf1 Hf2 Hd. pose proof H1 as [Hc1 He1]. pose proof H2 as [Hc2 He2].
  unfold strcat. rewrite (strlen_run fuel m s1 l1) by done. outcome.
  set (n := Z.of_nat (length l1)).
  destruct (copy_run fuel (fun (m : Mem) i => load8 m (s2 + i) =? 0) (s1 + n) s2 (Z.of_nat (length l2)) 0 m m)
    as (m' & E & Hout & Hin); try done; try lia.
  - intros j m' Hj Hm. rewrite load8_eq, Hm by lia. rewrite <- load8_eq, (load_char m s2 l2) by (done || lia).
    apply Z.eqb_neq. rewrite (char_nonzero m s2) by (done || lia). lia.
  - intros m' Hm. rewrite load8_eq, Hm, He2. done.
  - rewrite E. outcome. eexists. split; [done|]. split.
    + constructor.
      * intros i c Hi. destruct (decide (i < length l1)%nat) as [Hlt|Hge].
        -- rewrite store8_ne by lia. rewrite Hout by lia. apply Hc1. by rewrite lookup_app_l in Hi.
        -- rewrite lookup_app_r in Hi by lia. pose proof (lookup_lt_Some _ _ _ Hi).
           destruct (Hc2 _ _ Hi) as [? Hm]. rewrite store8_ne by lia.
           replace (s1 + Z.of_nat i) with (s1 + n + Z.of_nat (i - length l1)) by lia.
           rewrite Hin by lia. done.
      * rewrite length_app, Nat2Z.inj_add, Z.add_assoc. apply store8_eq.
    + intros x Hx. rewrite store8_ne by lia. apply Hout. lia.
Qed.

(** ** Reference functions on lists *)

(** The difference of the first characters that differ; the shorter string is
    continued by its terminator. *)
Fixpoint diff (l1 l2 : list Z) : Z :=
  match l1, l2 with
  | [], [] => 0
  | [], y :: _ => - y
  | x :: _, [] => x
  | x :: l1, y :: l2 => if x =? y then diff l1 l2 else x - y
  end.

(** The number of leading characters with a property. *)
Fixpoint prefix_len (p : Z -> bool) (l : list Z) : nat :=
  match l with
  | [] => 0
  | x :: l => if p x then S (prefix_len p l) else 0
  end.

Definition among (l : list Z) (c : Z) : bool := bool_decide (c ∈ l).

(** The first position at which [l2] occurs, among the positions of [l1]. *)
Fixpoint find_sub (l2 l1 : list Z) : option nat :=
  match l1 with
  | [] => None
  | x :: l1' => if decide (l2 `prefix_of` l1) then Some 0%nat else S <$> find_sub l2 l1'
  end.

(** The tail of a string is a string. *)
Lemma is_string_tail m a x l : is_string m a (x :: l) -> is_string m (a + 1) l.
Proof.
  intros [Hc He]. constructor.
  - intros i c Hi. destruct (Hc (S i) c Hi) as [? Hm]. split; [done|]. rewrite <- Hm. f_equal. lia.
  - rewrite <- He. simpl. f_equal. lia.
Qed.

Lemma is_string_drop m a l n : is_string m a l -> (n <= length l)%nat -> is_string m (a + Z.of_nat n) (drop n l).
Proof.
  revert a l. induction n as [|n IH]; intros a l Hs Hn; [by rewrite Z.add_0_r, drop_0|].
  destruct l as [|x l]; simpl in Hn; [lia|]. apply is_string_tail in Hs.
  specialize (IH _ _ Hs ltac:(lia)). simpl. by replace (a + Z.of_nat (S n)) with (a + 1 + Z.of_nat n) by lia.
Qed.

Lemma string_head m a x l : is_string m a (x :: l) -> m a = x /\ 0 < x < 256.
Proof. intros [Hc _]. destruct (Hc 0%nat x eq_refl) as [? Hm]. by rewrite Z.add_0_r in Hm. Qed.

Lemma string_nil m a : is_string m a [] -> m a = 0.
Proof. intros [_ He]. by rewrite Z.add_0_r in He. Qed.

(** [strcmp] is the difference at the first mismatch. *)
Lemma strcmp_run fuel m s1 s2 l1 l2 :
  is_string m s1 l1 -> is_string m s2 l2 -> (length l1 < fuel)%nat ->
  strcmp fuel m s1 s2 = Ret (diff l1 l2).
Proof.
  intros H1 H2 Hf.
  set (stop := fun i => negb (negb (load8 m (s1 + i) =? 0) && (load8 m (s1 + i) =? load8 m (s2 + i)))).
  assert (Hgen : exists k, 0 <= k <= Z.of_nat (length l1) /\ stop k = true /\ (forall j, 0 <= j < k -> stop j = false) /\
    load8 m (s1 + k) - load8 m (s2 + k) = diff l1 l2).
  { subst stop. clear Hf. revert s1 s2 l2 H1 H2. induction l1 as [|x l1 IH]; intros s1 s2 l2 H1 H2.
    - exists 0. rewrite !Z.add_0_r. unfold load8. rewrite (string_nil m s1) by done.
      split_and!; [lia|simpl; lia|done|lia|]. destruct l2 as [|y l2].
      + by rewrite (string_nil m s2).
      + destruct (string_head m s2 y l2) as [-> _]; done.
    - destruct (string_head m s1 x l1 H1) as [Hx Hx0]. destruct l2 as [|y l2].
      + exists 0. rewrite !Z.add_0_r. unfold load8. rewrite Hx, (string_nil m s2) by done.
        split_and!; [lia|simpl; lia| |lia|simpl; lia]. destruct (Z.eqb_spec x 0); [lia|]. done.
      + destruct (string_head m s2 y l2 H2) as [Hy Hy0]. destruct (Z.eqb_spec x y) as [<-|Hne].
        * destruct (IH (s1 + 1) (s2 + 1) l2) as (k & Hk & Hst & Hgo & Hd);
            [by eapply is_string_tail|by eapply is_string_tail|].
          exists (k + 1). simpl. rewrite Z.eqb_refl, <- Hd.
          replace (s1 + (k + 1)) with (s1 + 1 + k) by lia. replace (s2 + (k + 1)) with (s2 + 1 + k) by lia.
          split_and!; [lia|lia|done| |done].
          intros j Hj. destruct (decide (j = 0)) as [->|Hj0].
          -- rewrite !Z.add_0_r. unfold load8. rewrite Hx, Hy, Z.eqb_refl. destruct (Z.eqb_spec x 0); [lia|done].
          -- specialize (Hgo (j - 1) ltac:(lia)).
             replace (s1 + 1 + (j - 1)) with (s1 + j) in Hgo by lia. by replace (s2 + 1 + (j - 1)) with (s2 + j) in Hgo by lia.
        * exists 0. rewrite !Z.add_0_r. unfold load8. rewrite Hx, Hy. simpl.
          destruct (Z.eqb_spec x y); [done|]. split_and!; [lia|lia|by rewrite andb_false_r|lia|done]. }
  destruct Hgen as (k & Hk & Hst & Hgo & Hd). unfold strcmp. fold stop.
  rewrite (scan_run fuel stop 0 k) by (done || lia). outcome. by rewrite Hd.
Qed.

(** The difference is 0 exactly for equal strings. *)
Lemma diff_zero l1 l2 :
  Forall (fun c => 0 < c) l1 -> Forall (fun c => 0 < c) l2 -> diff l1 l2 = 0 <-> l1 = l2.
Proof.
  intros H1. revert l2. induction H1 as [|x l1 Hx _ IH]; intros [|y l2] H2; simpl; try done.
  - apply Forall_cons in H2 as [? _]. split; [lia|done].
  - split; [lia|done].
  - apply Forall_cons in H2 as [? H2]. destruct (Z.eqb_spec x y) as [->|Hne].
    + rewrite IH by done. split; [by intros ->|by intros [=]].
    + split; [lia|by intros [=]].
Qed.

(** The first position of a character. *)
Definition position (c : Z) (l : list Z) : nat := prefix_len (fun x => negb (x =? c)) l.

Lemma strchr_run fuel m s c l :
  is_string m s l -> (length l < fuel)%nat -> 0 < u8 c ->
  strchr fuel m s c = Ret (if decide (u8 c ∈ l) then s + Z.of_nat (position (u8 c) l) else 0).
Proof.
  intros Hs Hf Hc0.
  set (stop := fun i => negb (negb (load8 m (s + i) =? u8 c) && negb (load8 m (s + i) =? 0))).
  assert (Hgen : let k := Z.of_nat (position (u8 c) l) in k <= Z.of_nat (length l) /\ stop k = true /\
    (forall j, 0 <= j < k -> stop j = false) /\
    load8 m (s + k) = if decide (u8 c ∈ l) then u8 c else 0).
  { subst stop. clear Hf. revert s Hs. induction l as [|x l IH]; intros s Hs.
    - change (position (u8 c) []) with 0%nat. simpl. rewrite Z.add_0_r. unfold load8. rewrite (string_nil m s) by done. rewrite andb_false_r.
      split_and!; [lia|done|lia|done].
    - destruct (string_head m s x l Hs) as [Hx Hx0]. simpl. unfold position. cbn [prefix_len].
      destruct (Z.eqb_spec x (u8 c)) as [Heq|Hne]; cbn [negb].
      + rewrite Z.add_0_r. unfold load8. rewrite Hx, Heq, Z.eqb_refl. split_and!; [lia|done|lia|].
        rewrite decide_True; [done|left].
      + destruct (IH (s + 1) (is_string_tail _ _ _ _ Hs)) as (Hk & Hst & Hgo & Hld).
        fold (position (u8 c) l). rewrite Nat2Z.inj_succ. unfold Z.succ. set (k := Z.of_nat (position (u8 c) l)) in *.
        replace (s + (k + 1)) with (s + 1 + k) by lia. split_and!; [lia|done| |].
        * intros j Hj. destruct (decide (j = 0)) as [->|Hj0].
          -- rewrite Z.add_0_r. unfold load8. rewrite Hx. destruct (Z.eqb_spec x (u8 c)); [done|].
             destruct (Z.eqb_spec x 0); [lia|done].
          -- specialize (Hgo (j - 1) ltac:(lia)). by replace (s + 1 + (j - 1)) with (s + j) in Hgo by lia.
        * rewrite Hld. apply decide_ext. rewrite elem_of_cons. naive_solver. }
  destruct Hgen as (Hk & Hst & Hgo & Hld). unfold strchr. fold stop.
  rewrite (scan_run fuel stop 0 (Z.of_nat (position (u8 c) l))) by (done || lia). outcome. rewrite Hld.
  assert (c <> 0) by (by intros ->). destruct (decide (u8 c ∈ l)).
  - by destruct (Z.eqb_spec (u8 c) 0); [lia|].
  - by destruct (Z.eqb_spec c 0).
Qed.

(** ** Loops over the characters of a string *)

(** What a loop over [l] computes when its body is the pure function [g] of the
    position and the character. *)
Fixpoint walk {A R} (g : Z -> Z -> A -> A + R) (i : Z) (l : list Z) (a : A) : A + R :=
  match l with
  | [] => inl a
  | c :: l => match g i c a with inl a => walk g (i + 1) l a | inr r => inr r end
  end.

Lemma char_at_suffix l0 i c l : 0 <= i -> drop (Z.to_nat i) l0 = c :: l -> char_at l0 i = c.
Proof.
  intros Hi Hd. unfold char_at. assert (E : drop (Z.to_nat i) l0 !! 0%nat = Some c) by (by rewrite Hd).
  rewrite lookup_drop, Nat.add_0_r in E. by rewrite E.
Qed.

Lemma drop_suffix {A} (l0 : list A) i c l :
  0 <= i -> drop (Z.to_nat i) l0 = c :: l -> drop (Z.to_nat (i + 1)) l0 = l.
Proof.
  intros Hi Hd. replace (Z.to_nat (i + 1)) with (Z.to_nat i + 1)%nat by lia.
  by rewrite <- drop_drop, Hd.
Qed.

Lemma drop_length_pos {A} (l0 : list A) i c l :
  0 <= i -> drop (Z.to_nat i) l0 = c :: l -> i < Z.of_nat (length l0).
Proof. intros Hi Hd. pose proof (f_equal length Hd) as Hl. rewrite length_drop in Hl. simpl in Hl. lia. Qed.

Lemma for_chars_from {A R} fuel (body : Z -> A -> outcome (A + R)) g l0 :
  (forall j a, 0 <= j < Z.of_nat (length l0) -> body j a = Ret (g j (char_at l0 j) a)) ->
  forall l i a, 0 <= i -> drop (Z.to_nat i) l0 = l -> (length l < fuel)%nat -> i + Z.of_nat (length l) = Z.of_nat (length l0) ->
  for_until fuel (Ret (Z.of_nat (length l0))) body i a = Ret (walk g i l a).
Proof.
  intros Hb. induction fuel as [|fuel IH]; intros l i a Hi Hd Hf Hl; [lia|]. cbn [for_until]. outcome.
  destruct l as [|c l].
  - simpl in Hl. destruct (Z.ltb_spec i (Z.of_nat (length l0))); [lia|]. done.
  - pose proof (drop_length_pos _ _ _ _ Hi Hd). destruct (Z.ltb_spec i (Z.of_nat (length l0))); [|lia].
    rewrite Hb by lia. outcome. rewrite (char_at_suffix _ _ _ _ Hi Hd). simpl.
    destruct (g i c a) as [a'|r]; [|done]. simpl in Hf, Hl. apply IH; [lia|by eapply drop_suffix|lia|lia].
Qed.

Lemma for_chars {A R} fuel m s l (body : Z -> A -> outcome (A + R)) g a :
  is_string m s l -> (length l < fuel)%nat ->
  (forall j a, 0 <= j < Z.of_nat (length l) -> body j a = Ret (g j (char_at l j) a)) ->
  for_until fuel (strlen fuel m s) body 0 a = Ret (walk g 0 l a).
Proof.
  intros Hs Hf Hb. rewrite (strlen_run fuel m s l) by done.
  apply for_chars_from; [done|lia|by rewrite drop_0|done|lia].
Qed.

(** ** Sets of characters *)

Lemma among_cons d l c : among (d :: l) c = (c =? d) || among l c.
Proof.
  unfold among. destruct (Z.eqb_spec c d) as [->|Hne]; simpl.
  - apply bool_decide_eq_true. left.
  - apply bool_decide_ext. rewrite elem_of_cons. naive_solver.
Qed.

Lemma prefix_len_le p l : (prefix_len p l <= length l)%nat.
Proof. induction l as [|x l IH]; simpl; [lia|]. destruct (p x); lia. Qed.

Lemma prefix_len_ext p q l : (forall x, p x = q x) -> prefix_len p l = prefix_len q l.
Proof. intros H. induction l as [|x l IH]; [done|]. simpl. by rewrite H, IH. Qed.

Lemma prefix_len_and p q l :
  prefix_len (fun x => p x && q x) l = (prefix_len p l `min` prefix_len q l)%nat.
Proof.
  induction l as [|x l IH]; [done|]. simpl. rewrite IH. destruct (p x), (q x); simpl; lia.
Qed.

Lemma prefix_len_full p l : (prefix_len p l < length l)%nat <-> Exists (fun x => p x = false) l.
Proof.
  induction l as [|x l IH]; simpl; [split; [lia|by intros ?%Exists_nil]|].
  rewrite Exists_cons, <- IH. destruct (p x); naive_solver lia.
Qed.

Lemma position_found c l : (position c l < length l)%nat <-> c ∈ l.
Proof.
  unfold position. rewrite prefix_len_full, Exists_exists. setoid_rewrite negb_false_iff.
  setoid_rewrite Z.eqb_eq. naive_solver.
Qed.

(** The leading characters outside a set. *)
Definition outside_len (l2 l1 : list Z) : nat := prefix_len (fun x => negb (among l2 x)) l1.

Lemma outside_len_cons d l2 l1 : outside_len (d :: l2) l1 = (position d l1 `min` outside_len l2 l1)%nat.
Proof.
  unfold outside_len, position. rewrite <- prefix_len_and. apply prefix_len_ext. intros x.
  by rewrite among_cons, negb_orb.
Qed.

Lemma outside_len_nil l1 : outside_len [] l1 = length l1.
Proof.
  unfold outside_len. rewrite (prefix_len_ext _ (fun _ => true)) by done.
  induction l1 as [|x l IH]; [done|]. simpl. by rewrite IH.
Qed.

Lemma u8_schar c : 0 <= c < 256 -> u8 (schar c) = c.
Proof. intros Hc. unfold schar, u8. destruct (Z.ltb_spec c 128); Z.div_mod_to_equations; lia. Qed.

Lemma string_chars m a l : is_string m a l -> Forall (fun c => 0 < c < 256) l.
Proof. intros [Hc _]. apply Forall_lookup. intros i c Hi. by apply (Hc i c). Qed.

(** ** Spans *)

Lemma walk_member x l2 i :
  walk (fun _ c (_ : unit) => if x =? c then inr tt else inl tt) i l2 tt = if among l2 x then inr tt else inl tt.
Proof.
  revert i. induction l2 as [|d l2 IH]; intros i; [done|]. rewrite among_cons. simpl.
  destruct (x =? d); [done|]. apply IH.
Qed.

(** The value a loop leaves, whichever way it ends. *)
Definition either {A} (r : A + A) : A := match r with inl a => a | inr a => a end.

Lemma walk_span (p : Z -> bool) l i ret :
  either (walk (fun _ c (ret : Z) => if p c then inl (ret + 1) else inr ret) i l ret) = ret + Z.of_nat (prefix_len p l).
Proof.
  revert i ret. induction l as [|c l IH]; intros i ret; simpl; [lia|].
  destruct (p c); [rewrite IH; lia|]. simpl. lia.
Qed.

Lemma strspn_run fuel m s1 s2 l1 l2 :
  is_string m s1 l1 -> is_string m s2 l2 -> (length l1 < fuel)%nat -> (length l2 < fuel)%nat ->
  strspn fuel m s1 s2 = Ret (Z.of_nat (prefix_len (among l2) l1)).
Proof.
  intros H1 H2 Hf1 Hf2. unfold strspn.
  rewrite (for_chars fuel m s1 l1 _ (fun _ c ret => if among l2 c then inl (ret + 1) else inr ret)); [|done|done|].
  - outcome. pose proof (walk_span (among l2) l1 0 0) as Hw. rewrite Z.add_0_l in Hw.
    rewrite <- Hw. by destruct (walk _ 0 l1 0).
  - intros i ret Hi. rewrite (for_chars fuel m s2 l2 _ (fun _ c _ => if char_at l1 i =? c then inr tt else inl tt)); [|done|done|].
    + rewrite walk_member. outcome. by destruct (among l2 (char_at l1 i)).
    + intros j [] Hj. rewrite (load_char m s1 l1), (load_char m s2 l2) by (done || lia).
      by destruct (char_at l1 i =? char_at l2 j).
Qed.

Lemma walk_min l1 l2 i ret :
  ret <= Z.of_nat (length l1) ->
  ended (walk (fun _ c ret => inl (Z.min ret (Z.of_nat (position c l1)))) i l2 ret)
    = Z.min ret (Z.of_nat (outside_len l2 l1)).
Proof.
  revert i ret. induction l2 as [|d l2 IH]; intros i ret Hr; simpl.
  - rewrite outside_len_nil. lia.
  - rewrite IH by lia. rewrite outside_len_cons. lia.
Qed.

Lemma strcspn_run fuel m s1 s2 l1 l2 :
  is_string m s1 l1 -> is_string m s2 l2 -> (length l1 < fuel)%nat -> (length l2 < fuel)%nat -> 0 < s1 ->
  strcspn fuel m s1 s2 = Ret (Z.of_nat (outside_len l2 l1)).
Proof.
  intros H1 H2 Hf1 Hf2 Hs. unfold strcspn. rewrite (strlen_run fuel m s1 l1) by done. outcome.
  rewrite (for_chars fuel m s2 l2 _ (fun _ c ret => inl (if (position c l1 <? length l1)%nat && (Z.of_nat (position c l1) <? ret)
             then Z.of_nat (position c l1) else ret))); [|done|done|].
  - outcome. f_equal. pose proof (prefix_len_le (fun x => negb (among l2 x)) l1) as Hle. fold (outside_len l2 l1) in Hle.
    replace (Z.of_nat (outside_len l2 l1)) with (Z.min (Z.of_nat (length l1)) (Z.of_nat (outside_len l2 l1))) by lia.
    rewrite <- (walk_min l1 l2 0) by lia. clear Hle.
    assert (Hr : Z.of_nat (length l1) <= Z.of_nat (length l1)) by lia. revert Hr.
    generalize (Z.of_nat (length l1)) at 1 3 4 as ret. generalize 0 as i. clear.
    induction l2 as [|c l2 IH]; intros i ret Hr; [done|]. simpl.
    pose proof (prefix_len_le (fun x => negb (x =? c)) l1) as Hp. fold (position c l1) in Hp.
    replace (if _ && _ then _ else ret) with (Z.min ret (Z.of_nat (position c l1))); [apply IH; lia|].
    destruct (Nat.ltb_spec (position c l1) (length l1)), (Z.ltb_spec (Z.of_nat (position c l1)) ret); simpl; lia.
  - intros j ret Hj. rewrite (load_char m s2 l2) by (done || lia).
    pose proof (char_range m s2 l2 j H2). pose proof (proj1 (char_nonzero m s2 l2 j H2 (proj1 Hj))).
    rewrite (strchr_run fuel m s1 _ l1) by (done || rewrite u8_schar; lia). rewrite u8_schar by done. outcome.
    set (c := char_at l2 j) in *. destruct (decide (c ∈ l1)) as [Hin|Hout]; rewrite <- (position_found c l1) in *.
    + destruct (Nat.ltb_spec (position c l1) (length l1)); [|lia].
      destruct (Z.eqb_spec (s1 + Z.of_nat (position c l1)) 0); [lia|]. simpl.
      by replace (s1 + Z.of_nat (position c l1) - s1) with (Z.of_nat (position c l1)) by lia.
    + destruct (Nat.ltb_spec (position c l1) (length l1)); [lia|]. done.
Qed.

(** ** Last occurrence *)

(** The last position of a character, counted from [i], or what is given. *)
Fixpoint last_position (c : Z) (i : Z) (l : list Z) (found : Z) : Z :=
  match l with
  | [] => found
  | x :: l => last_position c (i + 1) l (if x =? c then i else found)
  end.

Lemma strrchr_run fuel m s c l :
  is_string m s l -> (length l < fuel)%nat ->
  strrchr fuel m s c = Ret (let i := last_position c 0 (schar <$> l) (-1) in if i =? -1 then 0 else s + i).
Proof.
  intros Hs Hf. unfold strrchr.
  rewrite (for_chars fuel m s l _ (fun i x index => inl (if schar x =? c then i else index))); [|done|done|].
  - outcome. assert (forall i found, ended (walk (fun i x index => inl (if schar x =? c then i else index)) i l found)
      = last_position c i (schar <$> l) found) as ->; [|done].
    clear. induction l as [|x l IH]; intros i found; [done|]. simpl. by rewrite IH.
  - intros j index Hj. by rewrite (load_char m s l) by (done || lia).
Qed.

(** ** First member of a set, first occurrence of a string *)

Lemma walk_first d l i idx :
  -1 <= idx -> 0 <= i ->
  ended (walk (fun j c idx => inl (if (c =? d) && ((idx =? -1) || (j <? idx)) then j else idx)) i l idx)
    = if (position d l <? length l)%nat && ((idx =? -1) || (i + Z.of_nat (position d l) <? idx))
      then i + Z.of_nat (position d l) else idx.
Proof.
  revert i idx. induction l as [|c l IH]; intros i idx Hx Hi; [done|]. cbn [walk].
  rewrite IH; [|destruct ((c =? d) && _); lia|lia]. unfold position. cbn [prefix_len]. fold (position d l).
  destruct (Z.eqb_spec c d) as [->|Hne]; cbn [negb andb length].
  - destruct (Z.eqb_spec idx (-1)) as [->|Hm]; cbn [orb].
    + case_bool; rewrite ?andb_false_r; simpl; lia.
    + case_bool; rewrite ?andb_false_r; simpl; lia.
  - change (S (position d l) <? S (length l))%nat with (position d l <? length l)%nat.
    replace (i + Z.of_nat (S (position d l))) with (i + 1 + Z.of_nat (position d l)) by lia. done.
Qed.

(** A position below [n], or the -1 of a search that failed. *)
Definition index_of (p n : nat) : Z := if (p <? n)%nat then Z.of_nat p else -1.

Lemma walk_firsts l1 l2 i q :
  (q <= length l1)%nat ->
  ended (walk (fun _ d idx => inl (ended (walk (fun j c idx => inl (if (c =? d) && ((idx =? -1) || (j <? idx)) then j else idx)) 0 l1 idx)))
           i l2 (index_of q (length l1)))
    = index_of (q `min` outside_len l2 l1) (length l1).
Proof.
  revert i q. induction l2 as [|d l2 IH]; intros i q Hq.
  - rewrite outside_len_nil. cbn [walk ended]. by replace (q `min` length l1)%nat with q by lia.
  - cbn [walk]. rewrite walk_first by (unfold index_of; destruct (q <? length l1)%nat; lia).
    rewrite outside_len_cons, Nat.min_assoc, <- (IH (i + 1)) by lia.
    do 2 f_equal. pose proof (prefix_len_le (fun x => negb (x =? d)) l1) as Hp. fold (position d l1) in Hp.
    unfold index_of. destruct (Nat.ltb_spec q (length l1)), (Nat.ltb_spec (position d l1) (length l1)),
      (Nat.ltb_spec (q `min` position d l1) (length l1)); case_bool; simpl; lia.
Qed.

Lemma strpbrk_run fuel m s1 s2 l1 l2 :
  is_string m s1 l1 -> is_string m s2 l2 -> (length l1 < fuel)%nat -> (length l2 < fuel)%nat ->
  strpbrk fuel m s1 s2 =
    Ret (if (outside_len l2 l1 <? length l1)%nat then s1 + Z.of_nat (outside_len l2 l1) else 0).
Proof.
  intros H1 H2 Hf1 Hf2. unfold strpbrk.
  rewrite (for_chars fuel m s2 l2 _ (fun _ d idx => inl (ended (walk (fun j c idx =>
    inl (if (c =? d) && ((idx =? -1) || (j <? idx)) then j else idx)) 0 l1 idx)))); [|done|done|].
  - outcome. pose proof (walk_firsts l1 l2 0 (length l1) ltac:(lia)) as Hw.
    pose proof (prefix_len_le (fun x => negb (among l2 x)) l1) as Hle. fold (outside_len l2 l1) in Hle.
    unfold index_of in Hw at 1. rewrite Nat.ltb_irrefl in Hw. rewrite Hw. unfold index_of.
    replace (length l1 `min` outside_len l2 l1)%nat with (outside_len l2 l1) by lia.
    destruct (outside_len l2 l1 <? length l1)%nat; [|done].
    destruct (Z.eqb_spec (Z.of_nat (outside_len l2 l1)) (-1)); [lia|done].
  - intros i idx Hi. rewrite (load_char m s2 l2) by (done || lia).
    rewrite (for_chars fuel m s1 l1 _ (fun j c idx => inl (if (c =? char_at l2 i) && ((idx =? -1) || (j <? idx)) then j else idx)));
      [|done|done|].
    + by destruct (walk _ 0 l1 idx).
    + intros j idx' Hj. by rewrite (load_char m s1 l1) by (done || lia).
Qed.

Lemma walk_prefix m a l l2 i :
  is_string m (a + i) l -> Forall (fun c => 0 < c < 256) l2 ->
  walk (fun j c (_ : unit) => if load8 m (a + j) =? c then inl tt else inr tt) i l2 tt
    = if decide (l2 `prefix_of` l) then inl tt else inr tt.
Proof.
  intros Hs H2. revert l i Hs. induction H2 as [|c l2 Hc _ IH]; intros l i Hs.
  - rewrite decide_True; [done|apply prefix_nil].
  - cbn [walk]. unfold load8. destruct l as [|x l].
    + rewrite (string_nil m (a + i)) by done. destruct (Z.eqb_spec 0 c); [lia|].
      rewrite decide_False; [done|apply prefix_nil_not].
    + destruct (string_head m (a + i) x l Hs) as [-> _]. apply is_string_tail in Hs. rewrite <- Z.add_assoc in Hs.
      destruct (Z.eqb_spec x c) as [->|Hne].
      * unfold load8 in IH. rewrite (IH l) by done. destruct (decide (l2 `prefix_of` l)) as [Hp|Hp].
        -- rewrite decide_True; [done|by apply prefix_cons].
        -- rewrite decide_False; [done|by intros ?%prefix_cons_inv_2].
      * rewrite decide_False; [done|]. intros ?%prefix_cons_inv_1. congruence.
Qed.

Lemma walk_find s1 l2 l0 l i :
  0 <= i -> drop (Z.to_nat i) l0 = l ->
  match walk (R:=Z) (fun i _ (_ : unit) => if decide (l2 `prefix_of` drop (Z.to_nat i) l0) then inr (s1 + i) else inl tt) i l tt with
  | inl _ => find_sub l2 l = None
  | inr p => exists k, find_sub l2 l = Some k /\ p = s1 + i + Z.of_nat k
  end.
Proof.
  revert i. induction l as [|c l IH]; intros i Hi Hd; [done|]. cbn [walk find_sub]. rewrite Hd.
  destruct (decide (l2 `prefix_of` c :: l)); [exists 0%nat; split; [done|lia]|].
  specialize (IH (i + 1) ltac:(lia) (drop_suffix _ _ _ _ Hi Hd)). destruct (walk _ (i + 1) l tt).
  - by rewrite IH.
  - destruct IH as (k & -> & ->). exists (S k). split; [done|lia].
Qed.

Lemma strstr_run fuel m s1 s2 l1 l2 :
  is_string m s1 l1 -> is_string m s2 l2 -> (length l1 < fuel)%nat -> (length l2 < fuel)%nat ->
  strstr fuel m s1 s2 = Ret (match find_sub l2 l1 with Some k => s1 + Z.of_nat k | None => 0 end).
Proof.
  intros H1 H2 Hf1 Hf2. unfold strstr.
  rewrite (for_chars fuel m s1 l1 _ (fun i _ _ => if decide (l2 `prefix_of` drop (Z.to_nat i) l1) then inr (s1 + i) else inl tt));
    [|done|done|].
  - outcome. pose proof (walk_find s1 l2 l1 l1 0 ltac:(lia) (drop_0 l1)) as Hw.
    destruct (walk _ 0 l1 tt) as [u|p]; [by rewrite Hw|]. destruct Hw as (k & -> & ->). f_equal. lia.
  - intros i [] Hi.
    rewrite (for_chars fuel m s2 l2 _ (fun j c _ => if load8 m (s1 + i + j) =? c then inl tt else inr tt)); [|done|done|].
    + rewrite (walk_prefix m (s1 + i) (drop (Z.to_nat i) l1)).
      * outcome. by destruct (decide _).
      * rewrite Z.add_0_r. pose proof (is_string_drop m s1 l1 (Z.to_nat i) H1 ltac:(lia)) as Hd. by rewrite Z2Nat.id in Hd by lia.
      * by eapply string_chars.
    + intros j [] Hj. rewrite (load_char m s2 l2) by (done || lia). rewrite Z.add_assoc. by destruct (_ =? _).
Qed.

(** [find_sub] finds the first place where the second string stands. *)
Lemma find_sub_sound l2 l1 k :
  find_sub l2 l1 = Some k -> l2 `prefix_of` drop k l1 /\ forall j, (j < k)%nat -> ~ l2 `prefix_of` drop j l1.
Proof.
  revert k. induction l1 as [|x l1 IH]; intros k; [done|]. cbn [find_sub].
  destruct (decide (l2 `prefix_of` x :: l1)); [intros [= <-]; split; [done|lia]|].
  destruct (find_sub l2 l1) as [j|] eqn:E; [|done]. intros [= <-]. destruct (IH j eq_refl) as [Hp Hn].
  split; [done|]. intros [|j'] Hj; [done|]. apply Hn. lia.
Qed.

(** ** Tokens *)

(** The maximal runs of characters outside [d]; [cur] is the run read so far. *)
Fixpoint words_from (d cur l : list Z) : list (list Z) :=
  match l with
  | [] => match cur with [] => [] | _ => [cur] end
  | c :: l =>
      if among d c then match cur with [] => words_from d [] l | _ => cur :: words_from d [] l end
      else words_from d (cur ++ [c]) l
  end.

Definition words (d l : list Z) : list (list Z) := words_from d [] l.

Lemma words_skip d l : words d l = words d (drop (prefix_len (among d) l) l).
Proof.
  unfold words. induction l as [|c l IH]; [done|]. simpl. destruct (among d c) eqn:E; simpl; [done|].
  by rewrite E.
Qed.

Lemma words_run d cur l :
  words_from d cur l = words_from d (cur ++ take (outside_len d l) l) (drop (outside_len d l) l).
Proof.
  revert cur. induction l as [|c l IH]; intros cur; [by rewrite app_nil_r|].
  unfold outside_len. simpl. destruct (among d c) eqn:E; simpl.
  - by rewrite app_nil_r, E.
  - rewrite IH. by rewrite <- app_assoc.
Qed.

(** The word at the start of a string that does not start with a delimiter. *)
Lemma words_head d l :
  (0 < outside_len d l)%nat ->
  words d l = take (outside_len d l) l :: words d (drop (S (outside_len d l)) l).
Proof.
  intros Hn. unfold words at 1. rewrite words_run. cbn [app].
  set (n := outside_len d l) in *. pose proof (prefix_len_le (fun x => negb (among d x)) l) as Hle.
  fold (outside_len d l) in Hle. fold n in Hle.
  assert (Hne : take n l <> []) by (intros Hnil%(f_equal length); rewrite length_take in Hnil; simpl in Hnil; lia).
  replace (S n) with (n + 1)%nat by lia. rewrite <- drop_drop.
  destruct (drop n l) as [|c l'] eqn:E; cbn [words_from drop].
  - by destruct (take n l).
  - assert (Hc : among d c = true).
    { apply (f_equal (fun l => l !! 0%nat)) in E. rewrite lookup_drop, Nat.add_0_r in E. subst n. revert E. clear.
      unfold outside_len. induction l as [|x l IH]; [done|]. simpl. destruct (among d x) eqn:Ex; simpl; [by intros [= <-]|done]. }
    rewrite Hc. by destruct (take n l).
Qed.

Lemma words_none d l : outside_len d l = 0%nat -> prefix_len (among d) l = 0%nat -> l = [].
Proof. destruct l as [|c l]; [done|]. unfold outside_len. simpl. by destruct (among d c). Qed.

Lemma skip_head d l : prefix_len (among d) (drop (prefix_len (among d) l) l) = 0%nat.
Proof. induction l as [|c l IH]; [done|]. simpl. destruct (among d c) eqn:E; simpl; [done|]. by rewrite E. Qed.

Lemma is_string_take m a l n :
  is_string m a l -> (n <= length l)%nat -> is_string (store8 m (a + Z.of_nat n) 0) a (take n l).
Proof.
  intros [Hc He] Hn. constructor.
  - intros i c Hi. pose proof (lookup_lt_Some _ _ _ Hi) as Hl. rewrite length_take in Hl.
    rewrite store8_ne by lia. apply Hc. by rewrite lookup_take_lt in Hi by lia.
  - rewrite length_take, Nat.min_l by done. by rewrite store8_eq.
Qed.

(** One call on the rest [l] of the copy: it ends the tokens, or returns the
    next one and leaves the pointer at the rest behind it. *)
Lemma next_token_run fuel m s2 d l p start :
  is_string m p l -> is_string m s2 d -> (length l < fuel)%nat -> (length d < fuel)%nat -> 0 < p ->
  s2 + Z.of_nat (length d) < p \/ p + Z.of_nat (length l) < s2 ->
  (exists p', next_token fuel s2 (mkTokenizer p start) m = Ret (0, mkTokenizer p' start, m) /\ words d l = []) \/
  (exists q w m' t, next_token fuel s2 (mkTokenizer p start) m = Ret (q, t, m') /\
    p <= q /\ is_string m' q w /\ q + Z.of_nat (length w) <= p + Z.of_nat (length l) /\
    (forall x, x <> q + Z.of_nat (length w) -> m' x = m x) /\ strtok_start_pointer t = start /\
    ((strtok_pointer t = 0 /\ words d l = [w]) \/
     exists l', strtok_pointer t = q + Z.of_nat (length w) + 1 /\ is_string m' (strtok_pointer t) l' /\
       strtok_pointer t + Z.of_nat (length l') = p + Z.of_nat (length l) /\ words d l = w :: words d l')).
Proof.
  intros Hl Hd Hf Hfd Hp Hsep. unfold next_token. cbn [strtok_pointer strtok_start_pointer].
  destruct (Z.eqb_spec p 0) as [?|_]; [lia|]. rewrite (strspn_run fuel m p s2 l d) by done. outcome.
  pose proof (prefix_len_le (among d) l) as Hk. pose proof (skip_head d l) as Hskip. rewrite (words_skip d l).
  set (k := prefix_len (among d) l) in *. pose proof (is_string_drop m p l k Hl Hk) as Hr.
  pose proof (length_drop l k) as Hlr. set (r := drop k l) in *.
  rewrite (strcspn_run fuel m (p + Z.of_nat k) s2 r d) by (done || lia). outcome.
  pose proof (prefix_len_le (fun x => negb (among d x)) r) as Hn. fold (outside_len d r) in Hn.
  destruct (Z.eqb_spec (Z.of_nat (outside_len d r)) 0) as [Hz|Hnz].
  - left. eexists. split; [done|]. by rewrite (words_none d r) by (done || lia).
  - right. pose proof (words_head d r ltac:(lia)) as Hw. set (n := outside_len d r) in *.
    assert (Htl : length (take n r) = n) by (rewrite length_take; lia).
    destruct (Z.eqb_spec (load8 m (p + Z.of_nat k + Z.of_nat n)) 0) as [H0|H0];
      rewrite (load_char m _ r), (char_nonzero m _ r) in H0 by (done || lia).
    + exists (p + Z.of_nat k), r, m. eexists. split; [done|]. split_and!; try done; try lia.
      left. split; [done|]. rewrite Hw, take_ge, drop_ge by lia. done.
    + eexists (p + Z.of_nat k), (take n r), _, _. split; [done|]. rewrite Htl. split_and!; try done; try lia.
      * by apply is_string_take.
      * intros x Hx. by rewrite store8_ne by lia.
      * right. exists (drop (S n) r). cbn [strtok_pointer]. rewrite Hw. rewrite length_drop. split_and!; try done; try lia.
        pose proof (is_string_drop m _ r (S n) Hr ltac:(lia)) as Hs.
        replace (p + Z.of_nat k + (Z.of_nat n + 1)) with (p + Z.of_nat k + Z.of_nat (S n)) by lia.
        apply (is_string_frame m); [done|]. intros x Hx. rewrite store8_ne by lia. done.
Qed.

(** The usual loop around [strtok]: calls with a null pointer until there is no
    token left; the tokens returned. *)
Fixpoint remaining_tokens (n : nat) (heap : Allocator) (fuel : nat) (s2 : Z) (t : Tokenizer) (m : Mem)
    : outcome (list Z * Tokenizer * Mem) :=
  match n with
  | O => Diverge
  | S n =>
      '(p, t, m) ← strtok heap fuel 0 s2 t m;
      if p =? 0 then Ret ([], t, m)
      else '(ps, t, m) ← remaining_tokens n heap fuel s2 t m; Ret (p :: ps, t, m)
  end.

Definition all_tokens (n : nat) (heap : Allocator) (fuel : nat) (s1 s2 : Z) (t : Tokenizer) (m : Mem)
    : outcome (list Z * Tokenizer * Mem) :=
  '(p, t, m) ← strtok heap fuel s1 s2 t m;
  if p =? 0 then Ret ([], t, m)
  else '(ps, t, m) ← remaining_tokens n heap fuel s2 t m; Ret (p :: ps, t, m).

Lemma remaining_finished n heap fuel s2 start m :
  remaining_tokens (S n) heap fuel s2 (mkTokenizer 0 start) m = Ret ([], mkTokenizer 0 start, m).
Proof. done. Qed.

Lemma remaining_tokens_run n heap fuel m s2 d l p start :
  is_string m p l -> is_string m s2 d -> (length l < fuel)%nat -> (length d < fuel)%nat -> 0 < p ->
  s2 + Z.of_nat (length d) < p \/ p + Z.of_nat (length l) < s2 -> (length l + 1 < n)%nat ->
  exists ps t m', remaining_tokens n heap fuel s2 (mkTokenizer p start) m = Ret (ps, t, m') /\
    Forall2 (is_string m') ps (words d l) /\ (forall x, ~ (p <= x <= p + Z.of_nat (length l)) -> m' x = m x) /\
    Forall (fun q => p <= q) ps /\ strtok_start_pointer t = start.
Proof.
  revert m l p. induction n as [|n IH]; intros m l p Hl Hd Hf Hfd Hp Hsep Hn; [lia|].
  cbn [remaining_tokens]. unfold strtok. rewrite Z.eqb_refl.
  destruct (next_token_run fuel m s2 d l p start) as [(p' & E & Hw)|(q & w & m1 & t & E & Hq & Hqw & Hend & Hm & Hst & Ht)]; try done.
  { rewrite E. outcome. eexists [], _, m. split; [done|]. rewrite Hw. split_and!; done. }
  rewrite E. outcome. destruct (Z.eqb_spec q 0) as [?|_]; [lia|].
  destruct t as [tp ts]. cbn [strtok_pointer strtok_start_pointer] in *. subst ts.
  destruct Ht as [[-> Hw]|(l' & Htp & Hs' & Hlen & Hw)].
  - destruct n as [|n']; [lia|]. rewrite remaining_finished. outcome. eexists [q], _, m1. split; [done|]. rewrite Hw.
    split_and!; [by apply Forall2_cons| |by apply Forall_singleton|done]. intros x Hx. apply Hm. lia.
  - destruct (IH m1 l' tp) as (ps & t & m' & E' & Htok & Hout & Hge & Hst); try done; try lia.
    { apply (is_string_frame m); [done|]. intros x Hx. apply Hm. lia. }
    rewrite E'. outcome. exists (q :: ps), t, m'. split; [done|]. rewrite Hw. split_and!.
    + constructor; [|done]. apply (is_string_frame m1); [done|]. intros x Hx. apply Hout. lia.
    + intros x Hx. rewrite Hout by lia. apply Hm. lia.
    + constructor; [done|]. eapply Forall_impl; [done|]. simpl. lia.
    + done.
Qed.

Lemma all_tokens_remaining n heap fuel s1 s2 t m p m1 m2 l :
  is_string m s1 l -> (length l < fuel)%nat -> s1 <> 0 -> strtok_pointer t = 0 ->
  malloc heap (Z.of_nat (length l) + 1) m = Ret (p, m1) -> strcpy fuel p s1 m1 = Ret m2 ->
  all_tokens n heap fuel s1 s2 t m = remaining_tokens (S n) heap fuel s2 (mkTokenizer p p) m2.
Proof.
  intros Hs Hf Hs1 Ht Hmal Hcp. unfold all_tokens, strtok at 1. destruct (Z.eqb_spec s1 0); [done|].
  rewrite Ht. outcome. cbn [Z.eqb]. outcome. rewrite (strlen_run fuel m s1 l) by done. outcome. rewrite Hmal. outcome. by rewrite Hcp.
Qed.

(** ** Claims *)

(** [strcpy] followed by [strcat] builds the concatenation of two strings in
    a buffer that does not overlap them: both calls return with fuel for one
    round more than the strings are long, the buffer then holds the characters
    of the first string followed by those of the second and a terminator,
    [strlen] returns the sum of the lengths, and no byte outside the buffer
    changes. *)
Theorem strcpy_strcat_concatenate (fuel : nat) (m : Mem) (dest s1 s2 : Z) (l1 l2 : list Z)
    (H1 : is_string m s1 l1) (H2 : is_string m s2 l2)
    (Hf : (length l1 + length l2 < fuel)%nat)
    (Hd1 : dest + Z.of_nat (length l1 + length l2) < s1 \/ s1 + Z.of_nat (length l1) < dest)
    (Hd2 : dest + Z.of_nat (length l1 + length l2) < s2 \/ s2 + Z.of_nat (length l2) < dest) :
  exists m' : Mem, (m ← strcpy fuel dest s1 m; strcat fuel dest s2 m) = Ret m' /\
    is_string m' dest (l1 ++ l2) /\ strlen fuel m' dest = Ret (Z.of_nat (length l1 + length l2)) /\
    (forall x, ~ (dest <= x <= dest + Z.of_nat (length l1 + length l2)) -> m' x = m x).
Proof.
  destruct (strcpy_run fuel m dest s1 l1) as (m1 & E1 & Hs1 & Hm1); [done|lia|lia|].
  destruct (strcat_run fuel m1 dest s2 l1 l2) as (m2 & E2 & Hs2 & Hm2); [done| |lia|lia|lia|].
  { apply (is_string_frame m); [done|]. intros x Hx. apply Hm1. lia. }
  exists m2. rewrite E1. outcome. split_and!; [done|done| |].
  - rewrite <- length_app. apply strlen_run; [done|]. rewrite length_app. lia.
  - intros x Hx. rewrite Hm2, Hm1 by lia. done.
Qed.

(** The memory with the characters [l] at [a], zero elsewhere. *)
Definition string_at (a : Z) (l : list Z) (m : Mem) : Mem :=
  fun x => if (a <=? x) && (x <? a + Z.of_nat (length l)) then char_at l (x - a) else m x.

Lemma string_at_is a l m :
  Forall (fun c => 0 < c < 256) l -> m (a + Z.of_nat (length l)) = 0 -> is_string (string_at a l m) a l.
Proof.
  intros Hl He. constructor.
  - intros i c Hi. pose proof (lookup_lt_Some _ _ _ Hi). split; [by apply (proj1 (Forall_lookup _ l) Hl i)|].
    unfold string_at. decide_bool. simpl. unfold char_at. replace (Z.to_nat (a + Z.of_nat i - a)) with i by lia. by rewrite Hi.
  - unfold string_at. decide_bool. done.
Qed.

(** "ab" at 100, ",;" at 200. *)
Definition two_strings : Mem := string_at 100 [97; 98] (string_at 200 [44; 59] (fun _ => 0)).

Lemma two_strings_ok : is_string two_strings 100 [97; 98] /\ is_string two_strings 200 [44; 59].
Proof.
  split.
  - apply string_at_is; [repeat constructor; lia|done].
  - apply (is_string_frame (string_at 200 [44; 59] (fun _ => 0))).
    + apply string_at_is; [repeat constructor; lia|done].
    + intros x Hx. unfold two_strings, string_at at 1. simpl length in *. by decide_bool.
Qed.

Lemma strcpy_strcat_concatenate_witness :
  exists m' : Mem, (m ← strcpy 5 300 100 two_strings; strcat 5 300 200 m) = Ret m' /\ is_string m' 300 [97; 98; 44; 59].
Proof.
  destruct (strcpy_strcat_concatenate 5 two_strings 300 100 200 [97; 98] [44; 59]) as (m' & E & Hs & _).
  - apply two_strings_ok.
  - apply two_strings_ok.
  - simpl. lia.
  - simpl. lia.
  - simpl. lia.
  - by exists m'.
Defined.

(** The comparison and search functions of [string.c] compute, on
    terminated strings, the reference functions on their characters: [strcmp] is
    0 exactly for equal strings and otherwise the difference of the first
    characters that differ, [strchr] finds the first occurrence of a character,
    [strspn] and [strcspn] the length of the longest prefix inside and outside
    a set, [strpbrk] the first member of the set and [strstr] the first
    position where the second string stands. Every loop ends with fuel for one
    round more than the strings are long. *)
Theorem searches_match_lists (fuel : nat) (m : Mem) (s1 s2 c : Z) (l1 l2 : list Z)
    (H1 : is_string m s1 l1) (H2 : is_string m s2 l2) (Hs1 : 0 < s1) (Hc : 0 < u8 c)
    (Hf1 : (length l1 < fuel)%nat) (Hf2 : (length l2 < fuel)%nat) :
  strcmp fuel m s1 s2 = Ret (diff l1 l2) /\ (diff l1 l2 = 0 <-> l1 = l2) /\
  strchr fuel m s1 c = Ret (if decide (u8 c ∈ l1) then s1 + Z.of_nat (position (u8 c) l1) else 0) /\
  strspn fuel m s1 s2 = Ret (Z.of_nat (prefix_len (among l2) l1)) /\
  strcspn fuel m s1 s2 = Ret (Z.of_nat (outside_len l2 l1)) /\
  strpbrk fuel m s1 s2
    = Ret (if (outside_len l2 l1 <? length l1)%nat then s1 + Z.of_nat (outside_len l2 l1) else 0) /\
  strstr fuel m s1 s2 = Ret (match find_sub l2 l1 with Some k => s1 + Z.of_nat k | None => 0 end) /\
  (forall k, find_sub l2 l1 = Some k ->
     l2 `prefix_of` drop k l1 /\ forall j, (j < k)%nat -> ~ l2 `prefix_of` drop j l1).
Proof.
  assert (Hpos : forall s l, is_string m s l -> Forall (fun x => 0 < x) l).
  { intros s l Hs. eapply Forall_impl; [by eapply string_chars|]. simpl. lia. }
  split_and!.
  - by apply strcmp_run.
  - apply diff_zero; eauto.
  - by apply strchr_run.
  - by apply strspn_run.
  - by apply strcspn_run.
  - by apply strpbrk_run.
  - by apply strstr_run.
  - intros k. apply find_sub_sound.
Qed.

Lemma searches_match_lists_witness :
  strcmp 3 two_strings 100 200 = Ret (97 - 44) /\ strchr 3 two_strings 100 98 = Ret 101.
Proof.
  destruct (searches_match_lists 3 two_strings 100 200 98 [97; 98] [44; 59]) as (E1 & _ & E2 & _);
    [apply two_strings_ok|apply two_strings_ok|lia|by vm_compute|simpl; lia|simpl; lia|].
  split; [exact E1|exact E2].
Defined.

(** A loop of [strtok] calls enumerates the tokens of a string: started when
    no string is being split, with a [malloc] that returns a block outside the
    two strings and leaves them alone, the calls return, in order, pointers to
    copies of the maximal runs of characters that are not delimiters, each of
    them terminated in the final memory, and then the null pointer; neither
    string changes. *)
Theorem strtok_enumerates_tokens (n : nat) (heap : Allocator) (fuel : nat) (s1 s2 : Z) (t : Tokenizer)
    (m m1 : Mem) (p : Z) (l d : list Z)
    (H1 : is_string m s1 l) (H2 : is_string m s2 d) (Hs1 : s1 <> 0) (Ht : strtok_pointer t = 0)
    (Hf1 : (length l < fuel)%nat) (Hf2 : (length d < fuel)%nat) (Hn : (length l < n)%nat)
    (Hmalloc : malloc heap (Z.of_nat (length l) + 1) m = Ret (p, m1)) (Hp : 0 < p)
    (Hsame : forall x, s1 <= x <= s1 + Z.of_nat (length l) \/ s2 <= x <= s2 + Z.of_nat (length d) -> m1 x = m x)
    (Hsep1 : s1 + Z.of_nat (length l) < p \/ p + Z.of_nat (length l) < s1)
    (Hsep2 : s2 + Z.of_nat (length d) < p \/ p + Z.of_nat (length l) < s2) :
  exists ps t' m', all_tokens n heap fuel s1 s2 t m = Ret (ps, t', m') /\
    Forall2 (is_string m') ps (words d l) /\ is_string m' s1 l /\ is_string m' s2 d.
Proof.
  assert (H1' : is_string m1 s1 l) by (apply (is_string_frame m); [done|]; intros x Hx; apply Hsame; lia).
  assert (H2' : is_string m1 s2 d) by (apply (is_string_frame m); [done|]; intros x Hx; apply Hsame; lia).
  destruct (strcpy_run fuel m1 p s1 l) as (m2 & Ecp & Hcp & Hm2); [done|done|lia|].
  rewrite (all_tokens_remaining n heap fuel s1 s2 t m p m1 m2 l) by done.
  assert (H2'' : is_string m2 s2 d) by (apply (is_string_frame m1); [done|]; intros x Hx; apply Hm2; lia).
  destruct (remaining_tokens_run (S n) heap fuel m2 s2 d l p p) as (ps & t' & m' & E & Htok & Hout & _ & _); try done; try lia.
  exists ps, t', m'. split_and!; [done|done| |].
  - apply (is_string_frame m1); [done|]. intros x Hx. rewrite Hout by lia. apply Hm2. lia.
  - apply (is_string_frame m2); [done|]. intros x Hx. apply Hout. lia.
Qed.

(** An allocator that always returns the same block. *)
Definition one_block (a : Z) : Allocator := mkAllocator (fun _ m => Ret (a, m)) (fun _ m => Ret m).

(** "b,a" split at ",": two tokens. *)
Definition sentence : Mem := string_at 100 [98; 44; 97] (string_at 200 [44] (fun _ => 0)).

Lemma sentence_ok : is_string sentence 100 [98; 44; 97] /\ is_string sentence 200 [44].
Proof.
  split.
  - apply string_at_is; [repeat constructor; lia|done].
  - apply (is_string_frame (string_at 200 [44] (fun _ => 0))).
    + apply string_at_is; [repeat constructor; lia|done].
    + intros x Hx. unfold sentence, string_at at 1. simpl length in *. by decide_bool.
Qed.

Lemma strtok_enumerates_tokens_witness :
  exists ps t' m', all_tokens 4 (one_block 300) 4 100 200 (mkTokenizer 0 0) sentence = Ret (ps, t', m') /\
    Forall2 (is_string m') ps [[98]; [97]].
Proof.
  destruct (strtok_enumerates_tokens 4 (one_block 300) 4 100 200 (mkTokenizer 0 0) sentence sentence 300 [98; 44; 97] [44])
    as (ps & t' & m' & E & Htok & _);
    [apply sentence_ok|apply sentence_ok|lia|reflexivity|simpl; lia|simpl; lia|simpl; lia|reflexivity|lia|done|simpl; lia|simpl; lia|].
  exists ps, t', m'. split; [exact E|exact Htok].
Defined.

(** ** Deviations *)

(** A token that ends with its string clears [strtok_pointer], and the next
    string is then split without a [free] of the copy: the call is the same with
    any other [free]. *)
Theorem strtok_leaks_finished_copy (heap : Allocator) (free' : Z -> Mem -> outcome Mem) (fuel : nat)
    (s1 s2 start : Z) (m : Mem) :
  strtok heap fuel s1 s2 (mkTokenizer 0 start) m = strtok (mkAllocator (malloc heap) free') fuel s1 s2 (mkTokenizer 0 start) m.
Proof. done. Qed.

(** [strncat] of the one character "x" with room for two onto the empty string
    at 300, over old contents "yyy": no terminator is written, so the result is
    the string "xyyy". *)
Definition dirty_buffer : Mem := string_at 100 [120] (store8 (string_at 300 [121; 121; 121; 121] (fun _ => 0)) 300 0).

Theorem strncat_leaves_no_terminator :
  exists m' : Mem, strncat 4 300 100 2 dirty_buffer = Ret m' /\ (fun i => m' (300 + i)) <$> [0; 1; 2; 3; 4] = [120; 121; 121; 121; 0].
Proof. eexists. split; [vm_compute; reflexivity|]. by vm_compute. Qed.

(** [strtoint] reads the character behind '9' as the digit ten. *)
Theorem strtoint_accepts_colon : strtoint 3 (string_at 100 [49; 58] (fun _ => 0)) 100 = Ret 20.
Proof. by vm_compute. Qed.
