(* ===== verification/Format.v ===== *)
(** * Formatted output

    [lib/libc/strformat.cpp], [sprintf.cpp] and [snprintf.cpp]. A format is the
    list of its characters without the terminator; [traverse] is the suffix that
    is left, and moving beyond the terminator is a fault. The output buffer is a
    list and a write outside it is a fault. [va_arg] takes the arguments from a
    list; asking for one that is not there, or for a number where there is a
    string, is a fault. *)

From S2P Require Import Prelude Memory CString.

(** ** [strformat.cpp] *)

Definition hex : list Z := [48; 49; 50; 51; 52; 53; 54; 55; 56; 57; 65; 66; 67; 68; 69; 70].

(** [*--ptr = c] in the static buffer of 50 characters, the last of which is the
    terminator. *)
Definition prepend (c : Z) (ptr : list Z) : outcome (list Z) :=
  if (length ptr <? 49)%nat then Ret (c :: ptr) else Fault.

(** [hex[number % base]] *)
Definition digit (number base : Z) : outcome Z :=
  if base =? 0 then Fault else or_fault (hex !! Z.to_nat (number mod base)).

Fixpoint digits (fuel : nat) (number base : Z) (ptr : list Z) : outcome (list Z) :=
  match fuel with
  | O => Diverge
  | S fuel =>
      c ← digit number base;
      ptr ← prepend c ptr;
      let number := number / base in
      if negb (number =? 0) then digits fuel number base ptr else Ret ptr
  end.

(** The loop that pads; [number] is 0 by then. *)
Fixpoint pad (n : nat) (base : Z) (ptr : list Z) : outcome (list Z) :=
  match n with
  | O => Ret ptr
  | S n => c ← digit 0 base; ptr ← prepend c ptr; pad n base ptr
  end.

(** A number has at most 32 digits. *)
Definition convert (number base padding : Z) : outcome (list Z) :=
  ptr ← digits 32 number base [];
  pad (Z.to_nat (padding - Z.of_nat (length ptr))) base ptr.

(** ** Buffers and arguments

    [pos] is the [n] of the code. *)

Record Out := mkOut { strout : list Z; pos : Z }.

(** [strout[i] = c] *)
Definition put (i c : Z) (buf : list Z) : outcome (list Z) :=
  if (0 <=? i) && (i <? Z.of_nat (length buf)) then Ret (<[Z.to_nat i := c]> buf) else Fault.

(** [strout[n] = c] *)
Definition put_at_n (c : Z) (o : Out) : outcome Out :=
  buf ← put (pos o) c (strout o); Ret (mkOut buf (pos o)).

(** [strout[n++] = c] *)
Definition put_next (c : Z) (o : Out) : outcome Out :=
  buf ← put (pos o) c (strout o); Ret (mkOut buf (pos o + 1)).

Inductive arg := AInt (i : Z) | AStr (s : list Z).

Definition va_int (args : list arg) : outcome (Z * list arg) :=
  match args with AInt i :: args => Ret (i, args) | _ => Fault end.

Definition va_str (args : list arg) : outcome (list Z * list arg) :=
  match args with AStr s :: args => Ret (s, args) | _ => Fault end.

Definition PERCENT : Z := 37.

(** [*traverse] and [traverse++] *)
Definition peek (traverse : list Z) : Z := default 0 (head traverse).
Definition advance (traverse : list Z) : outcome (list Z) :=
  match traverse with [] => Fault | _ :: traverse => Ret traverse end.

(** The optional "0" and padding character behind the '%'. *)
Definition read_padding (traverse : list Z) (padding : Z) : outcome (list Z * Z) :=
  if peek traverse =? ZERO then
    traverse ← advance traverse;
    let padding := u8 (peek traverse - ZERO) in
    traverse ← advance traverse;
    Ret (traverse, padding)
  else Ret (traverse, padding).

(** ** [sprintf.cpp] *)

Module Sprintf.

Definition putc (c : Z) (o : Out) : outcome Out :=
  o ← put_next c o;
  put_at_n 0 o.

Fixpoint puts_loop (str : list Z) (o : Out) : outcome Out :=
  match str with
  | [] => Ret o
  | c :: str => o ← put_next c o; puts_loop str o
  end.

Definition puts (str : list Z) (o : Out) : outcome Out := o ← puts_loop str o; put_at_n 0 o.

(** A number argument in a base. *)
Definition put_number (base padding : Z) (args : list arg) (o : Out) : outcome (list arg * Out) :=
  '(i, args) ← va_int args;
  s ← convert (u32 i) base padding;
  o ← puts s o;
  Ret (args, o).

(** The [switch]; the cases are 'c', 'd', 'u', 'o', 's', 'x' and 'b'. *)
Definition conversion (c padding : Z) (args : list arg) (o : Out) : outcome (list arg * Out) :=
  if c =? 99 then
    '(i, args) ← va_int args;
    o ← putc (u8 i) o;
    Ret (args, o)
  else if c =? 100 then
    '(i, args) ← va_int args;
    '(i, o) ← (if s32 i <? 0 then o ← putc MINUS o; Ret (s32 (- s32 i), o) else Ret (s32 i, o));
    s ← convert (u32 i) 10 padding;
    o ← puts s o;
    Ret (args, o)
  else if c =? 117 then put_number 10 padding args o
  else if c =? 111 then put_number 8 padding args o
  else if c =? 115 then
    '(s, args) ← va_str args;
    o ← puts s o;
    Ret (args, o)
  else if c =? 120 then put_number 16 padding args o
  else if c =? 98 then put_number 2 padding args o
  else Ret (args, o).

(** The inner [while]: up to the next '%', or [None] at the end of the format. *)
Fixpoint literals (traverse : list Z) (o : Out) : outcome (option (list Z) * Out) :=
  match traverse with
  | [] => Ret (None, o)
  | c :: rest => if c =? PERCENT then Ret (Some traverse, o) else o ← putc c o; literals rest o
  end.

Fixpoint vprintf (fuel : nat) (traverse : list Z) (padding : Z) (args : list arg) (o : Out)
    : outcome (list arg * Out) :=
  match fuel with
  | O => Diverge
  | S fuel =>
      if peek traverse =? 0 then Ret (args, o)
      else
        '(traverse, o) ← literals traverse o;
        match traverse with
        | None => Ret (args, o)
        | Some traverse =>
            traverse ← advance traverse;
            '(traverse, padding) ← read_padding traverse padding;
            '(args, o) ← conversion (peek traverse) padding args o;
            traverse ← advance traverse;
            vprintf fuel traverse padding args o
        end
  end.

(** Each round but the last consumes a character of the format. The arguments
    that are left are returned: the [va_list] is passed by reference. *)
Definition sprintf_args (str format : list Z) (args : list arg) : outcome (list Z * Z * list arg) :=
  '(args, o) ← vprintf (S (length format)) format 0 args (mkOut str 0);
  Ret (strout o, pos o, args).

Definition sprintf (str format : list Z) (args : list arg) : outcome (list Z * Z) :=
  '(r, _) ← sprintf_args str format args;
  Ret r.

End Sprintf.

(** ** [snprintf.cpp] *)

Module Snprintf.

Definition putc (c : Z) (o : Out) : outcome Out := put_next c o.

(** [n] is negated when the text does not fit. *)
Fixpoint nputs (nmax : Z) (str : list Z) (o : Out) : outcome Out :=
  match str with
  | [] => put_at_n 0 o
  | c :: str =>
      if pos o =? nmax - 1 then
        o ← put_at_n 0 o;
        Ret (mkOut (strout o) (-1 * (pos o - 1)))
      else o ← put_next c o; nputs nmax str o
  end.

(** [inr] returns from [_vsnprintf]. *)
Definition give_up_if_negative (temp : Z) (args : list arg) (o : Out) : (list arg * Out) + Out :=
  if pos o <? 0 then inr (mkOut (strout o) (-1 * temp)) else inl (args, o).

Definition put_number (nmax base padding temp : Z) (args : list arg) (o : Out)
    : outcome ((list arg * Out) + Out) :=
  '(i, args) ← va_int args;
  s ← convert (u32 i) base padding;
  o ← nputs nmax s o;
  Ret (give_up_if_negative temp args o).

(** The cases 'x' and 'b' look at [n] before they write, too. *)
Definition put_checked_number (nmax base padding temp : Z) (args : list arg) (o : Out)
    : outcome ((list arg * Out) + Out) :=
  '(i, args) ← va_int args;
  match give_up_if_negative temp args o with
  | inr o => Ret (inr o)
  | inl _ =>
      s ← convert (u32 i) base padding;
      o ← nputs nmax s o;
      Ret (give_up_if_negative temp args o)
  end.

Definition conversion (nmax c padding temp : Z) (args : list arg) (o : Out) : outcome ((list arg * Out) + Out) :=
  if c =? 99 then
    '(i, args) ← va_int args;
    o ← putc (u8 i) o;
    Ret (inl (args, o))
  else if c =? 100 then
    '(i, args) ← va_int args;
    '(i, o) ← (if s32 i <? 0 then o ← putc MINUS o; Ret (s32 (- s32 i), o) else Ret (s32 i, o));
    s ← convert (u32 i) 10 padding;
    o ← nputs nmax s o;
    Ret (give_up_if_negative temp args o)
  else if c =? 111 then put_number nmax 8 padding temp args o
  else if c =? 115 then
    '(s, args) ← va_str args;
    o ← nputs nmax s o;
    Ret (give_up_if_negative temp args o)
  else if c =? 120 then put_checked_number nmax 16 padding temp args o
  else if c =? 98 then put_checked_number nmax 2 padding temp args o
  else Ret (inl (args, o)).

(** The inner [while]: the rest from the next '%' on, or a return. *)
Fixpoint literals (nmax : Z) (traverse : list Z) (o : Out) : outcome ((list Z * Out) + Out) :=
  match traverse with
  | [] => Ret (inr o)
  | c :: rest =>
      if c =? PERCENT then Ret (inl (traverse, o))
      else if pos o =? nmax - 1 then
        o ← put_at_n 0 o;
        Ret (inr (mkOut (strout o) (-1 * (pos o - 1))))
      else o ← putc c o; literals nmax rest o
  end.

Fixpoint vsnprintf (fuel : nat) (nmax : Z) (traverse : list Z) (padding : Z) (args : list arg) (o : Out) : outcome Out :=
  match fuel with
  | O => Diverge
  | S fuel =>
      if peek traverse =? 0 then Ret o
      else
        r ← literals nmax traverse o;
        match r with
        | inr o => Ret o
        | inl (traverse, o) =>
            traverse ← advance traverse;
            let temp := pos o in
            if pos o =? nmax - 1 then
              o ← put_at_n 0 o;
              Ret (mkOut (strout o) (-1 * temp))
            else
              '(traverse, padding) ← read_padding traverse padding;
              r ← conversion nmax (peek traverse) padding temp args o;
              match r with
              | inr o => Ret o
              | inl (args, o) =>
                  traverse ← advance traverse;
                  vsnprintf fuel nmax traverse padding args o
              end
        end
  end.

Definition snprintf (str : list Z) (nmax : Z) (format : list Z) (args : list arg) : outcome (list Z * Z) :=
  o ← vsnprintf (S (length format)) (s32 nmax) format 0 args (mkOut str 0);
  Ret (strout o, pos o).

End Snprintf.

(** ** [printf.cpp]

    [stdout] is the list of the characters printed; [beyond] is what lies behind
    the terminator of the format, which the copy of a specifier may read. *)

Module Printf.

Definition PRINTF_BUFFER : nat := 32.
Definition SPECIFIER_LENGTH : nat := 2.
Definition PADDING_LENGTH : nat := 2.

(** The C string in a buffer. *)
Fixpoint until_zero (buf : list Z) : list Z :=
  match buf with [] => [] | c :: buf => if c =? 0 then [] else c :: until_zero buf end.

(** The inner [while]: what is printed, and the rest from the next '%' on. *)
Fixpoint literals (traverse : list Z) (stdout : list Z) : option (list Z) * list Z :=
  match traverse with
  | [] => (None, stdout)
  | c :: rest => if c =? PERCENT then (Some traverse, stdout) else literals rest (stdout ++ [c])
  end.

(** [buffer] keeps its contents from one round to the next. *)
Fixpoint print (fuel : nat) (beyond traverse : list Z) (args : list arg) (buffer stdout : list Z) : outcome (list Z) :=
  match fuel with
  | O => Diverge
  | S fuel =>
      if peek traverse =? 0 then Ret stdout
      else
        let '(traverse, stdout) := literals traverse stdout in
        match traverse with
        | None => Ret stdout
        | Some traverse =>
            let specifier := take (SPECIFIER_LENGTH + PADDING_LENGTH) (traverse ++ 0 :: beyond) in
            traverse ← advance traverse;
            '(traverse, specifier) ←
              (if peek traverse =? ZERO then
                 traverse ← advance traverse;
                 traverse ← advance traverse;
                 Ret (traverse, specifier)
               else Ret (traverse, take SPECIFIER_LENGTH specifier));
            traverse ← advance traverse;
            if default 0 (specifier !! 1%nat) =? 115 then
              '(string, args) ← va_str args;
              print fuel beyond traverse args buffer (stdout ++ string)
            else
              '(buffer, _, args) ← Sprintf.sprintf_args buffer (until_zero specifier) args;
              print fuel beyond traverse args buffer (stdout ++ until_zero buffer)
        end
  end.

(** [stdout] is [None] while there is no stream; [buffer] starts with what is on
    the stack. *)
Definition printf (stdout : option (list Z)) (beyond buffer format : list Z) (args : list arg)
    : outcome (option (list Z)) :=
  match stdout with
  | None => Ret None
  | Some out => out ← print (S (length format)) beyond format args buffer out; Ret (Some out)
  end.

End Printf.

(** ** Digits *)

(** The number a digit stands for, and the one a text stands for. *)
Definition digit_value (c : Z) : Z := if c <=? 57 then c - 48 else c - 55.
Definition value (base : Z) (l : list Z) : Z := foldl (fun v c => v * base + digit_value c) 0 l.
Definition is_digit (base c : Z) : Prop := (48 <= c <= 57 \/ 65 <= c <= 70) /\ 0 <= digit_value c < base.

Lemma value_snoc base l c : value base (l ++ [c]) = value base l * base + digit_value c.
Proof. unfold value. by rewrite foldl_app. Qed.

Lemma value_zeros base k l : value base (replicate k 48 ++ l) = value base l.
Proof. unfold value. induction k as [|k IH]; [done|]. exact IH. Qed.

Lemma hex_digit base d :
  2 <= base <= 16 -> 0 <= d < base ->
  exists c, hex !! Z.to_nat d = Some c /\ is_digit base c /\ digit_value c = d.
Proof.
  intros Hb Hd. assert (Hlt : (Z.to_nat d < length hex)%nat) by (simpl; lia).
  destruct (lookup_lt_is_Some_2 hex _ Hlt) as [c Hc]. exists c. split; [done|].
  assert (Hv : (48 <= c <= 57 \/ 65 <= c <= 70) /\ digit_value c = d); [|unfold is_digit; lia].
  assert (Hall : Forall (fun i => forall c, hex !! Z.to_nat i = Some c -> (48 <= c <= 57 \/ 65 <= c <= 70) /\ digit_value c = i) (seqZ 0 16)).
  { let l := eval vm_compute in (seqZ 0 16) in change (seqZ 0 16) with l.
    repeat (apply Forall_cons; split; [intros c' Hc'; vm_compute in Hc'; injection Hc' as <-; unfold digit_value; case_bool; lia|]). by apply Forall_nil. }
  rewrite Forall_forall in Hall. apply Hall; [|done]. apply elem_of_seqZ. lia.
Qed.

Lemma digits_run fuel number base ptr :
  2 <= base <= 16 -> 0 <= number < base ^ Z.of_nat fuel -> (0 < fuel)%nat -> (fuel + length ptr <= 49)%nat ->
  exists ds, digits fuel number base ptr = Ret (ds ++ ptr) /\ value base ds = number /\ Forall (is_digit base) ds /\
    (1 <= length ds <= fuel)%nat /\ ((1 < length ds)%nat -> base ^ (Z.of_nat (length ds) - 1) <= number).
Proof.
  intros Hb. revert number ptr. induction fuel as [|fuel IH]; intros number ptr Hn Hf Hl; [lia|]. cbn [digits].
  pose proof (Z.mod_pos_bound number base ltac:(lia)) as Hmod. pose proof (Z.div_mod number base ltac:(lia)) as Hdm.
  destruct (hex_digit base (number mod base) Hb Hmod) as (c & Hc & Hdig & Hval).
  unfold digit at 1. destruct (Z.eqb_spec base 0) as [?|_]; [lia|]. rewrite Hc. outcome.
  unfold prepend at 1. destruct (Nat.ltb_spec (length ptr) 49); [|lia]. outcome.
  destruct (Z.eqb_spec (number / base) 0) as [Hz|Hnz]; cbn [negb].
  - exists [c]. split_and!; try done; simpl; try lia; [|by apply Forall_singleton].
    unfold value. simpl. lia.
  - rewrite Nat2Z.inj_succ, Z.pow_succ_r in Hn by lia. pose proof (Z.div_pos number base ltac:(lia) ltac:(lia)).
    assert (number / base < base ^ Z.of_nat fuel) by (apply Z.div_lt_upper_bound; lia).
    destruct fuel as [|fuel']; [simpl in *; lia|].
    destruct (IH (number / base) (c :: ptr)) as (ds & E & Hv & Hds & Hlen & Hmin); [lia|lia|simpl; lia|].
    exists (ds ++ [c]). rewrite <- app_assoc, value_snoc, length_app. split_and!; [done|lia| |simpl; lia|simpl; lia|].
    + apply Forall_app. split; [done|]. by apply Forall_singleton.
    + intros _. simpl. replace (Z.of_nat (length ds + 1) - 1) with (Z.of_nat (length ds)) by lia.
      destruct (decide (length ds = 1)%nat) as [->|Hne]; [rewrite Z.pow_1_r; nia|].
      specialize (Hmin ltac:(lia)). replace (Z.of_nat (length ds)) with (Z.succ (Z.of_nat (length ds) - 1)) by lia.
      rewrite Z.pow_succ_r by lia. nia.
Qed.

Lemma pad_run k base ptr :
  2 <= base <= 16 -> (k + length ptr <= 49)%nat -> pad k base ptr = Ret (replicate k 48 ++ ptr).
Proof.
  intros Hb. revert ptr. induction k as [|k IH]; intros ptr Hk; [done|]. cbn [pad]. unfold digit.
  destruct (Z.eqb_spec base 0) as [?|_]; [lia|]. rewrite Z.mod_0_l by lia.
  change (or_fault (hex !! Z.to_nat 0)) with (Ret 48). outcome. unfold prepend at 1. destruct (Nat.ltb_spec (length ptr) 49); [|lia]. outcome. rewrite IH by (simpl; lia).
  f_equal. by rewrite replicate_S_end, <- app_assoc.
Qed.

(** [convert] writes the digits of the number, padded with zeros. *)
Lemma convert_run number base padding :
  is_u32 number -> 2 <= base <= 16 -> padding <= 49 ->
  exists ds, convert number base padding = Ret ds /\ value base ds = number /\ Forall (is_digit base) ds /\
    (1 <= length ds <= 49)%nat /\ padding <= Z.of_nat (length ds) /\
    (Z.max 1 padding < Z.of_nat (length ds) -> base ^ (Z.of_nat (length ds) - 1) <= number).
Proof.
  intros Hn Hb Hp. unfold is_u32 in Hn.
  assert (2 ^ 32 <= base ^ Z.of_nat 32) by (apply Z.pow_le_mono_l; lia).
  destruct (digits_run 32 number base []) as (ds & E & Hv & Hds & Hlen & Hmin); [done|lia|lia|simpl; lia|].
  unfold convert. rewrite E, app_nil_r. outcome. rewrite pad_run by lia.
  exists (replicate (Z.to_nat (padding - Z.of_nat (length ds))) 48 ++ ds). rewrite value_zeros, length_app, length_replicate.
  split_and!; [done|done| |lia|lia|lia|].
  - apply Forall_app. split; [|done]. apply Forall_replicate. unfold is_digit. change (digit_value 48) with 0. lia.
  - intros Hlt. replace (Z.of_nat _ - 1) with (Z.of_nat (length ds) - 1) by lia. apply Hmin. lia.
Qed.

(** ** What a format means *)

(** The parts of a format: a character, or a conversion with an optional padding
    character. *)
Inductive piece := Lit (c : Z) | Conv (padding : option Z) (k : Z).

Definition piece_chars (p : piece) : list Z :=
  match p with
  | Lit c => [c]
  | Conv None k => [PERCENT; k]
  | Conv (Some p) k => [PERCENT; ZERO; p; k]
  end.

Definition piece_ok (p : piece) : Prop :=
  match p with
  | Lit c => c <> 0 /\ c <> PERCENT
  | Conv None k => k <> 0 /\ k <> ZERO
  | Conv (Some p) k => p <> 0 /\ k <> 0
  end.

Definition format_of (ps : list piece) : list Z := concat (piece_chars <$> ps).

(** A padding stays in force for the conversions behind it. *)
Definition next_padding (p : option Z) (padding : Z) : Z :=
  match p with Some c => u8 (c - ZERO) | None => padding end.

Definition number_text (base padding : Z) (args : list arg) : outcome (list Z * list arg) :=
  '(i, args) ← va_int args; s ← convert (u32 i) base padding; Ret (s, args).

(** The text of a conversion and the arguments behind it; [unsigned] says whether
    'u' is known. *)
Definition conv_text (unsigned : bool) (k padding : Z) (args : list arg) : outcome (list Z * list arg) :=
  if k =? 99 then '(i, args) ← va_int args; Ret ([u8 i], args)
  else if k =? 100 then
    '(i, args) ← va_int args;
    s ← convert (u32 (if s32 i <? 0 then s32 (- s32 i) else s32 i)) 10 padding;
    Ret ((if s32 i <? 0 then [MINUS] else []) ++ s, args)
  else if unsigned && (k =? 117) then number_text 10 padding args
  else if k =? 111 then number_text 8 padding args
  else if k =? 115 then va_str args
  else if k =? 120 then number_text 16 padding args
  else if k =? 98 then number_text 2 padding args
  else Ret ([], args).

(** The whole text. *)
Fixpoint render (unsigned : bool) (ps : list piece) (padding : Z) (args : list arg) : outcome (list Z) :=
  match ps with
  | [] => Ret []
  | Lit c :: ps => out ← render unsigned ps padding args; Ret (c :: out)
  | Conv p k :: ps =>
      let padding := next_padding p padding in
      '(s, args) ← conv_text unsigned k padding args;
      out ← render unsigned ps padding args;
      Ret (s ++ out)
  end.

Lemma peek_cons c rest : peek (c :: rest) = c.
Proof. done. Qed.

Lemma format_nonzero ps rest :
  Forall piece_ok ps -> format_of ps = rest -> peek rest = 0 -> rest = [].
Proof.
  intros Hok <-. destruct ps as [|p ps]; [done|]. apply Forall_cons in Hok as [Hp _].
  destruct p as [c|[p|] k]; unfold peek; simpl in *; try done. naive_solver.
Qed.

Lemma read_padding_run p k rest padding :
  piece_ok (Conv p k) ->
  read_padding (tail (piece_chars (Conv p k)) ++ rest) padding = Ret (k :: rest, next_padding p padding).
Proof.
  destruct p as [p|]; simpl; [done|]. intros [_ Hk]. unfold read_padding, peek. simpl.
  by destruct (Z.eqb_spec k ZERO).
Qed.

(** ** Writing into a buffer: the text [w] is there, [rest] is behind it *)

Definition at_end (w rest : list Z) : Out := mkOut (w ++ rest) (Z.of_nat (length w)).

Lemma pos_at_end w rest : pos (at_end w rest) = Z.of_nat (length w).
Proof. done. Qed.

Lemma put_end c w x rest : put (Z.of_nat (length w)) c (w ++ x :: rest) = Ret (w ++ c :: rest).
Proof.
  unfold put. rewrite length_app. simpl. decide_bool. simpl. f_equal.
  rewrite Nat2Z.id. rewrite insert_app_r_alt by done. by rewrite Nat.sub_diag.
Qed.

Lemma put_next_end c w x rest : put_next c (at_end w (x :: rest)) = Ret (at_end (w ++ [c]) rest).
Proof.
  unfold put_next, at_end. cbn [pos strout]. rewrite put_end. outcome. rewrite <- app_assoc, length_app. simpl.
  do 2 f_equal. lia.
Qed.

Lemma put_at_end c w x rest : put_at_n c (at_end w (x :: rest)) = Ret (at_end w (c :: rest)).
Proof. unfold put_at_n, at_end. cbn [pos strout]. rewrite put_end. done. Qed.

(** ** [sprintf] *)

Lemma puts_loop_run s w rest :
  (length s <= length rest)%nat -> Sprintf.puts_loop s (at_end w rest) = Ret (at_end (w ++ s) (drop (length s) rest)).
Proof.
  revert w rest. induction s as [|c s IH]; intros w rest Hl; [by rewrite app_nil_r, drop_0|].
  destruct rest as [|x rest]; [simpl in Hl; lia|]. cbn [Sprintf.puts_loop]. rewrite put_next_end. outcome.
  rewrite IH by (simpl in Hl; lia). by rewrite <- app_assoc.
Qed.

Lemma puts_run s w rest :
  (length s < length rest)%nat ->
  Sprintf.puts s (at_end w rest) = Ret (at_end (w ++ s) (0 :: drop (S (length s)) rest)).
Proof.
  intros Hl. unfold Sprintf.puts. rewrite puts_loop_run by lia. outcome.
  destruct (drop (length s) rest) as [|x r] eqn:E.
  { apply (f_equal length) in E. rewrite length_drop in E. simpl in E. lia. }
  rewrite put_at_end. do 2 f_equal. f_equal. replace (S (length s)) with (length s + 1)%nat by lia.
  by rewrite <- drop_drop, E.
Qed.

Lemma putc_puts c w rest :
  (1 < length rest)%nat -> Sprintf.putc c (at_end w rest) = Sprintf.puts [c] (at_end w rest).
Proof. intros Hl. unfold Sprintf.putc, Sprintf.puts. simpl. by destruct (put_next c (at_end w rest)). Qed.

(** What lies behind the text [s] after it was written where [rest] was: a
    terminator and the old bytes, or nothing was written. *)
Definition written (s rest rest' : list Z) : Prop :=
  rest' = 0 :: drop (S (length s)) rest \/ (s = [] /\ rest' = rest).

Lemma written_length s rest rest' :
  written s rest rest' -> (length s < length rest)%nat -> (length rest' = length rest - length s)%nat.
Proof. intros [->|[-> ->]] Hl; simpl; [rewrite length_drop|]; lia. Qed.

Lemma written_app s s' rest r1 r2 :
  (length (s ++ s') < length rest)%nat -> written s rest r1 -> written s' r1 r2 -> written (s ++ s') rest r2.
Proof.
  rewrite length_app. intros Hl [->|[-> ->]] [->|[-> ->]]; unfold written.
  - left. f_equal. rewrite length_app. cbn [drop]. by rewrite drop_drop.
  - left. by rewrite app_nil_r.
  - by left.
  - by right.
Qed.

Lemma puts_written s w rest :
  (length s < length rest)%nat ->
  exists rest', Sprintf.puts s (at_end w rest) = Ret (at_end (w ++ s) rest') /\ written s rest rest'.
Proof. intros Hl. rewrite puts_run by done. eexists. split; [done|]. by left. Qed.

Lemma putc_written c w rest :
  (1 < length rest)%nat ->
  exists rest', Sprintf.putc c (at_end w rest) = Ret (at_end (w ++ [c]) rest') /\ written [c] rest rest'.
Proof. intros Hl. rewrite putc_puts by done. by apply puts_written. Qed.

Lemma put_number_run base padding args s args' w rest :
  number_text base padding args = Ret (s, args') -> (length s < length rest)%nat ->
  exists rest', Sprintf.put_number base padding args (at_end w rest) = Ret (args', at_end (w ++ s) rest') /\ written s rest rest'.
Proof.
  unfold number_text, Sprintf.put_number. intros H Hl. destruct (va_int args) as [[i a]| | |]; try done. outcome.
  destruct (convert (u32 i) base padding) as [t| | |]; try done. outcome. injection H as -> ->.
  destruct (puts_written s w rest Hl) as (r & E & Hw). exists r. rewrite E. done.
Qed.

Lemma sprintf_conversion k padding args s args' w rest :
  conv_text true k padding args = Ret (s, args') -> (length s < length rest)%nat ->
  exists rest', Sprintf.conversion k padding args (at_end w rest) = Ret (args', at_end (w ++ s) rest') /\ written s rest rest'.
Proof.
  unfold conv_text, Sprintf.conversion. intros H Hl. rewrite andb_true_l in H.
  destruct (k =? 99).
  { destruct (va_int args) as [[i a]| | |]; try done. outcome. injection H as <- <-.
    destruct (putc_written (u8 i) w rest Hl) as (r & E & Hw). exists r. by rewrite E. }
  destruct (k =? 100).
  { destruct (va_int args) as [[i a]| | |]; try done. outcome.
    destruct (convert _ 10 padding) as [t| | |] eqn:Ec; try done. outcome. injection H as <- <-.
    destruct (s32 i <? 0).
    - simpl in Hl. destruct (putc_written MINUS w rest ltac:(lia)) as (r1 & E1 & Hw1). rewrite E1. outcome. rewrite Ec. outcome.
      pose proof (written_length _ _ _ Hw1 ltac:(simpl; lia)) as Hl1. simpl in Hl1.
      destruct (puts_written t (w ++ [MINUS]) r1 ltac:(lia)) as (r & E & Hw). exists r. rewrite E, <- app_assoc. split; [done|].
      by eapply written_app.
    - outcome. rewrite Ec. outcome. destruct (puts_written t w rest Hl) as (r & E & Hw). exists r. by rewrite E. }
  destruct (k =? 117); [by apply put_number_run|]. destruct (k =? 111); [by apply put_number_run|].
  destruct (k =? 115).
  { rewrite H. outcome. destruct (puts_written s w rest Hl) as (r & E & Hw). exists r. by rewrite E. }
  destruct (k =? 120); [by apply put_number_run|]. destruct (k =? 98); [by apply put_number_run|].
  injection H as <- <-. exists rest. rewrite app_nil_r. split; [done|]. by right.
Qed.

Lemma vprintf_lit fuel c rest padding args o :
  c <> 0 -> c <> PERCENT -> (peek rest = 0 -> rest = []) ->
  Sprintf.vprintf (S fuel) (c :: rest) padding args o = (o ← Sprintf.putc c o; Sprintf.vprintf (S fuel) rest padding args o).
Proof.
  intros H0 Hp Hr. cbn [Sprintf.vprintf]. unfold peek at 1. simpl.
  destruct (Z.eqb_spec c 0); [done|]. destruct (Z.eqb_spec c PERCENT); [done|].
  destruct (Sprintf.putc c o) as [o'| | |]; try done. outcome. destruct (Z.eqb_spec (peek rest) 0) as [Hz|Hz]; [|done].
  by rewrite (Hr Hz).
Qed.

Lemma vprintf_conv fuel p k rest padding args o :
  piece_ok (Conv p k) ->
  Sprintf.vprintf (S fuel) (piece_chars (Conv p k) ++ rest) padding args o =
    ('(args, o) ← Sprintf.conversion k (next_padding p padding) args o;
     Sprintf.vprintf fuel rest (next_padding p padding) args o).
Proof.
  intros Hok. pose proof (read_padding_run p k rest padding Hok) as Hr.
  assert (exists t, piece_chars (Conv p k) = PERCENT :: t) as [t Ht] by (destruct p; simpl; eauto). rewrite Ht in *.
  cbn [tail] in Hr. cbn [Sprintf.vprintf app]. rewrite peek_cons. change (PERCENT =? 0) with false. cbn [Sprintf.literals].
  rewrite Z.eqb_refl. outcome. cbn [advance]. outcome. rewrite Hr. outcome. rewrite peek_cons.
  destruct (Sprintf.conversion k (next_padding p padding) args o) as [[a o']| | |]; done.
Qed.

Lemma vprintf_run ps : forall fuel padding args out w rest,
  Forall piece_ok ps -> render true ps padding args = Ret out -> (length out < length rest)%nat ->
  (length (format_of ps) < fuel)%nat ->
  exists rest' args', Sprintf.vprintf fuel (format_of ps) padding args (at_end w rest) = Ret (args', at_end (w ++ out) rest') /\ written out rest rest'.
Proof.
  induction ps as [|p ps IH]; intros fuel padding args out w rest Hok Hr Hl Hf.
  { injection Hr as <-. destruct fuel; [simpl in Hf; lia|]. exists rest, args. rewrite app_nil_r. split; [done|]. by right. }
  apply Forall_cons in Hok as [Hp Hok]. destruct fuel as [|fuel]; [lia|].
  change (format_of (p :: ps)) with (piece_chars p ++ format_of ps) in *. rewrite length_app in Hf.
  destruct p as [c|pd k]; cbn [render] in Hr.
  - apply bind_Ret_inv in Hr as (out' & Hr & [= <-]). destruct Hp as [Hc0 Hcp].
    cbn [piece_chars app]. rewrite vprintf_lit by (done || intros; by eapply format_nonzero).
    simpl in Hl. destruct (putc_written c w rest ltac:(lia)) as (r1 & E1 & Hw1). rewrite E1. outcome.
    pose proof (written_length _ _ _ Hw1 ltac:(simpl; lia)) as Hl1. simpl in Hl1.
    destruct (IH (S fuel) padding args out' (w ++ [c]) r1 Hok Hr) as (r & args' & E & Hw); [lia|simpl in Hf; lia|].
    exists r, args'. rewrite E, <- app_assoc. split; [done|]. by apply (written_app [c] out' rest r1).
  - apply bind_Ret_inv in Hr as ([s args'] & Hs & Hr). apply bind_Ret_inv in Hr as (out' & Hr & [= <-]).
    rewrite vprintf_conv by done. rewrite length_app in Hl.
    destruct (sprintf_conversion k _ args s args' w rest Hs ltac:(lia)) as (r1 & E1 & Hw1). rewrite E1. outcome.
    pose proof (written_length _ _ _ Hw1 ltac:(lia)) as Hl1.
    destruct (IH fuel (next_padding pd padding) args' out' (w ++ s) r1 Hok Hr) as (r & args'' & E & Hw);
      [lia|destruct pd; simpl in Hf; lia|].
    exists r, args''. rewrite E, <- app_assoc. split; [done|]. by apply (written_app s out' rest r1); [rewrite length_app; lia| |].
Qed.

(** ** [snprintf] *)

(** The buffer after a text that did not fit: cut, with a terminator. *)
Definition cut (w s rest : list Z) : list Z := w ++ take (length rest - 1) s ++ [0].

Lemma nputs_run nmax s w rest :
  rest <> [] -> nmax = Z.of_nat (length w + length rest) ->
  Snprintf.nputs nmax s (at_end w rest) =
    Ret (if (length s <? length rest)%nat then at_end (w ++ s) (0 :: drop (S (length s)) rest)
         else mkOut (cut w s rest) (-1 * (nmax - 1 - 1))).
Proof.
  revert w rest. induction s as [|c s IH]; intros w rest Hne Hn; destruct rest as [|x rest]; try done.
  - cbn [Snprintf.nputs]. rewrite put_at_end. by rewrite app_nil_r.
  - cbn [Snprintf.nputs]. unfold at_end at 1. cbn [pos]. simpl in Hn. destruct rest as [|y rest].
    + simpl in Hn. decide_bool. rewrite put_at_end. outcome. unfold at_end, cut. cbn [pos strout].
      destruct (Nat.ltb_spec (length (c :: s)) (length [x])); [simpl in *; lia|]. simpl. do 2 f_equal. lia.
    + simpl in Hn. decide_bool. rewrite put_next_end. outcome. rewrite IH; [|done|rewrite length_app; simpl; lia].
      change (length (c :: s) <? length (x :: y :: rest))%nat with (length s <? length (y :: rest))%nat.
      rewrite <- app_assoc. simpl. destruct (length s <? S (length rest))%nat; [done|].
      unfold cut. rewrite <- app_assoc. simpl. by rewrite Nat.sub_0_r.
Qed.

(** A conversion writes its text, or cuts it and returns. *)
Definition converted (w s rest : list Z) (args' : list arg) (r : outcome ((list arg * Out) + Out)) : Prop :=
  ((length s < length rest)%nat /\
   exists rest', r = Ret (inl (args', at_end (w ++ s) rest')) /\ (length rest' = length rest - length s)%nat) \/
  ((length rest <= length s)%nat /\ r = Ret (inr (mkOut (cut w s rest) (-1 * Z.of_nat (length w))))).

(** Text behind a part [v] of the output that the conversion wrote itself. *)
Lemma nputs_converted nmax v s w rest args' :
  rest <> [] -> nmax = Z.of_nat (length (w ++ v) + length rest) -> 3 <= nmax ->
  converted w (v ++ s) (v ++ rest) args'
    (o ← Snprintf.nputs nmax s (at_end (w ++ v) rest);
     Ret (Snprintf.give_up_if_negative (Z.of_nat (length w)) args' o)).
Proof.
  intros Hne Hn H3. rewrite nputs_run by done. outcome. unfold converted. rewrite !length_app.
  assert (0 < length rest)%nat by (destruct rest; [done|simpl; lia]).
  destruct (Nat.ltb_spec (length s) (length rest)); unfold Snprintf.give_up_if_negative.
  - left. split; [lia|]. eexists. unfold at_end at 1. cbn [pos]. decide_bool. rewrite <- app_assoc. split; [done|].
    simpl. rewrite length_drop. lia.
  - right. split; [lia|]. cbn [pos strout]. decide_bool. do 3 f_equal. unfold cut. rewrite length_app, <- app_assoc.
    rewrite take_app_ge by lia. rewrite <- app_assoc. do 4 f_equal. lia.
Qed.

Lemma snprintf_number nmax base padding args s args' w rest :
  rest <> [] -> nmax = Z.of_nat (length w + length rest) -> 3 <= nmax ->
  number_text base padding args = Ret (s, args') ->
  converted w s rest args' (Snprintf.put_number nmax base padding (Z.of_nat (length w)) args (at_end w rest)) /\
  converted w s rest args' (Snprintf.put_checked_number nmax base padding (Z.of_nat (length w)) args (at_end w rest)).
Proof.
  intros Hne Hn H3 H. unfold number_text in H. unfold Snprintf.put_number, Snprintf.put_checked_number.
  destruct (va_int args) as [[i a]| | |]; try done. outcome.
  unfold Snprintf.give_up_if_negative at 2. unfold at_end at 2. cbn [pos]. decide_bool.
  destruct (convert (u32 i) base padding) as [t| | |]; try done. outcome. injection H as -> ->.
  pose proof (nputs_converted nmax [] s w rest args' Hne) as Hc. rewrite app_nil_r in Hc. split; by apply Hc.
Qed.

Lemma snprintf_conversion nmax k padding args s args' w rest :
  (1 < length rest)%nat -> nmax = Z.of_nat (length w + length rest) -> 3 <= nmax ->
  conv_text false k padding args = Ret (s, args') ->
  converted w s rest args' (Snprintf.conversion nmax k padding (Z.of_nat (length w)) args (at_end w rest)).
Proof.
  intros Hl Hn H3 H. unfold conv_text in H. unfold Snprintf.conversion. cbn [andb] in H.
  assert (Hne : rest <> []) by (destruct rest; [simpl in Hl; lia|done]).
  destruct (k =? 99).
  { destruct (va_int args) as [[i a]| | |]; try done. outcome. injection H as <- <-. destruct rest as [|x rest]; [done|].
    unfold Snprintf.putc. rewrite put_next_end. outcome. left. split; [done|]. eexists. split; [done|]. simpl. lia. }
  destruct (k =? 100).
  { destruct (va_int args) as [[i a]| | |]; try done. outcome.
    destruct (convert _ 10 padding) as [t| | |] eqn:Ec; try done. outcome. injection H as <- <-.
    destruct (s32 i <? 0).
    - destruct rest as [|x rest]; [done|]. unfold Snprintf.putc. rewrite put_next_end. outcome. rewrite Ec. outcome.
      assert (Hne' : rest <> []) by (destruct rest; [simpl in Hl; lia|done]).
      pose proof (nputs_converted nmax [MINUS] t w rest a Hne') as Hc. rewrite length_app in Hc. simpl in Hc, Hn.
      specialize (Hc ltac:(lia) H3). unfold converted, cut in *. simpl in *. exact Hc.
    - outcome. rewrite Ec. outcome. pose proof (nputs_converted nmax [] t w rest a Hne) as Hc. rewrite app_nil_r in Hc.
      by apply Hc. }
  destruct (k =? 111); [by apply (snprintf_number nmax 8 padding args)|].
  destruct (k =? 115).
  { rewrite H. outcome. pose proof (nputs_converted nmax [] s w rest args' Hne) as Hc. rewrite app_nil_r in Hc. by apply Hc. }
  destruct (k =? 120); [by apply (snprintf_number nmax 16 padding args)|].
  destruct (k =? 98); [by apply (snprintf_number nmax 2 padding args)|].
  injection H as <- <-. left. split; [simpl; lia|]. exists rest. rewrite app_nil_r. split; [done|]. simpl. lia.
Qed.

Lemma vsnprintf_lit fuel nmax c rest padding args o :
  c <> 0 -> c <> PERCENT -> (peek rest = 0 -> rest = []) ->
  Snprintf.vsnprintf (S fuel) nmax (c :: rest) padding args o =
    if pos o =? nmax - 1 then o ← put_at_n 0 o; Ret (mkOut (strout o) (-1 * (pos o - 1)))
    else o ← Snprintf.putc c o; Snprintf.vsnprintf (S fuel) nmax rest padding args o.
Proof.
  intros H0 Hp Hr. cbn [Snprintf.vsnprintf]. rewrite peek_cons. cbn [Snprintf.literals].
  destruct (Z.eqb_spec c 0); [done|]. destruct (Z.eqb_spec c PERCENT); [done|].
  destruct (pos o =? nmax - 1); [by destruct (put_at_n 0 o)|].
  destruct (Snprintf.putc c o) as [o'| | |]; try done. outcome. destruct (Z.eqb_spec (peek rest) 0) as [Hz|Hz]; [|done].
  by rewrite (Hr Hz).
Qed.

Lemma vsnprintf_conv fuel nmax p k rest padding args o :
  piece_ok (Conv p k) ->
  Snprintf.vsnprintf (S fuel) nmax (piece_chars (Conv p k) ++ rest) padding args o =
    if pos o =? nmax - 1 then o' ← put_at_n 0 o; Ret (mkOut (strout o') (-1 * pos o))
    else
      r ← Snprintf.conversion nmax k (next_padding p padding) (pos o) args o;
      match r with
      | inr o => Ret o
      | inl (args, o) => Snprintf.vsnprintf fuel nmax rest (next_padding p padding) args o
      end.
Proof.
  intros Hok. pose proof (read_padding_run p k rest padding Hok) as Hr.
  assert (exists t, piece_chars (Conv p k) = PERCENT :: t) as [t Ht] by (destruct p; simpl; eauto). rewrite Ht in *.
  cbn [tail] in Hr. cbn [Snprintf.vsnprintf app]. rewrite peek_cons. change (PERCENT =? 0) with false. cbn [Snprintf.literals].
  rewrite Z.eqb_refl. outcome. cbn [advance]. outcome. destruct (pos o =? nmax - 1); [done|].
  rewrite Hr. outcome. rewrite peek_cons.
  by destruct (Snprintf.conversion nmax k (next_padding p padding) (pos o) args o) as [[[a o']|o']| | |].
Qed.

(** The text fits and stands in the buffer, or it is cut. *)
Definition formatted (w out rest : list Z) (r : outcome Out) : Prop :=
  ((length out < length rest)%nat /\
   exists rest', r = Ret (at_end (w ++ out) rest') /\ (length rest' = length rest - length out)%nat) \/
  ((length rest <= length out + 1)%nat /\ exists k, r = Ret (mkOut (cut w out rest) k) /\ k <= 0).

Lemma formatted_shift w s out rest r1 r :
  (length s < length rest)%nat -> (length r1 = length rest - length s)%nat ->
  formatted (w ++ s) out r1 r -> formatted w (s ++ out) rest r.
Proof.
  intros Hs Hl [(Hf & r2 & -> & Hr2)|(Hc & k & -> & Hk)]; unfold formatted; rewrite length_app.
  - left. split; [lia|]. exists r2. rewrite <- app_assoc. split; [done|lia].
  - right. split; [lia|]. exists k. split; [|done]. unfold cut. rewrite take_app_ge by lia.
    rewrite <- !app_assoc. by replace (length r1 - 1)%nat with (length rest - 1 - length s)%nat by lia.
Qed.

Lemma vsnprintf_run ps : forall fuel nmax padding args out w rest,
  Forall piece_ok ps -> render false ps padding args = Ret out -> rest <> [] ->
  nmax = Z.of_nat (length w + length rest) -> 3 <= nmax -> (length (format_of ps) < fuel)%nat ->
  formatted w out rest (Snprintf.vsnprintf fuel nmax (format_of ps) padding args (at_end w rest)).
Proof.
  induction ps as [|p ps IH]; intros fuel nmax padding args out w rest Hok Hr Hne Hn H3 Hf.
  { injection Hr as <-. destruct fuel; [simpl in Hf; lia|]. left. destruct rest; [done|]. split; [simpl; lia|].
    eexists. rewrite app_nil_r. split; [done|]. simpl. lia. }
  apply Forall_cons in Hok as [Hp Hok]. destruct fuel as [|fuel]; [lia|].
  change (format_of (p :: ps)) with (piece_chars p ++ format_of ps) in *. rewrite length_app in Hf.
  destruct rest as [|x rest]; [done|]. simpl in Hn.
  destruct p as [c|pd k]; cbn [render] in Hr.
  - apply bind_Ret_inv in Hr as (out' & Hr & [= <-]). destruct Hp as [Hc0 Hcp].
    cbn [piece_chars app]. rewrite vsnprintf_lit by (done || intros; by eapply format_nonzero).
    rewrite pos_at_end. destruct (Z.eqb_spec (Z.of_nat (length w)) (nmax - 1)) as [Hfull|Hroom].
    + assert (rest = []) as -> by (destruct rest; [done|simpl in Hn; lia]). rewrite put_at_end. outcome. right.
      split; [simpl; lia|]. exists (-1 * (Z.of_nat (length w) - 1)). split; [done|lia].
    + unfold Snprintf.putc. rewrite put_next_end. outcome. apply (formatted_shift w [c] out' (x :: rest) rest).
      * destruct rest; simpl in *; lia.
      * simpl. lia.
      * apply IH; try done; [destruct rest; [simpl in Hn; lia|done]|rewrite length_app; simpl; lia|simpl in Hf; lia].
  - apply bind_Ret_inv in Hr as ([s args'] & Hs & Hr). apply bind_Ret_inv in Hr as (out' & Hr & [= <-]).
    rewrite vsnprintf_conv by done. rewrite pos_at_end.
    destruct (Z.eqb_spec (Z.of_nat (length w)) (nmax - 1)) as [Hfull|Hroom].
    + assert (rest = []) as -> by (destruct rest; [done|simpl in Hn; lia]). rewrite put_at_end. outcome. right.
      split; [simpl; lia|]. exists (-1 * Z.of_nat (length w)). split; [done|lia].
    + assert (Hl : (1 < length (x :: rest))%nat) by (simpl; lia).
      destruct (snprintf_conversion nmax k _ args s args' w (x :: rest) Hl ltac:(simpl; lia) H3 Hs)
        as [(Hfit & r1 & E & Hl1)|(Hbig & E)]; rewrite E; outcome.
      * apply (formatted_shift w s out' (x :: rest) r1); [done|done|].
        apply IH; try done; [destruct r1; [simpl in Hl1, Hfit; lia|done]|rewrite length_app; simpl in *; lia|destruct pd; simpl in Hf; lia].
      * right. rewrite length_app. split; [simpl in *; lia|]. exists (-1 * Z.of_nat (length w)). split; [|lia].
        unfold cut. by rewrite take_app_le by (simpl in *; lia).
Qed.

(** ** Reading numbers back *)

Lemma s32_shift x : exists k, s32 x = x + k * 2 ^ 32.
Proof.
  unfold s32, u32. pose proof (Z.div_mod x (2 ^ 32) ltac:(lia)). destruct (Z.ltb_spec (x mod 2 ^ 32) (2 ^ 31)).
  - exists (- (x / 2 ^ 32)). lia.
  - exists (- (x / 2 ^ 32) - 1). lia.
Qed.

Lemma s32_add_mul x k : s32 (x + k * 2 ^ 32) = s32 x.
Proof. unfold s32, u32. by rewrite Z.mod_add by lia. Qed.

Lemma s32_small x : - 2 ^ 31 <= x < 2 ^ 31 -> s32 x = x.
Proof.
  intros Hx. unfold s32, u32. destruct (Z.ltb_spec x 0).
  - rewrite <- (Z.mod_add x 1) by lia. rewrite Z.mod_small by lia. by decide_bool; lia.
  - rewrite Z.mod_small by lia. by decide_bool.
Qed.

(** The backward loop adds the value of the digits it passes, times the power of
    ten it is at, with wrap-around. *)
Lemma digits_from_run m a pre ds j r l :
  is_string m a l -> (exists post, l = pre ++ ds ++ post) -> Forall (is_digit 10) ds ->
  s32 (digits_from (length ds) m a (Z.of_nat (length pre + length ds) - 1) j r) = s32 (r + j * value 10 ds).
Proof.
  intros Hs. revert j r. induction ds as [|c ds IH] using rev_ind; intros j r [post Hl] Hd.
  { simpl. unfold value. simpl. f_equal. lia. }
  apply Forall_app in Hd as [Hd [Hc _]%Forall_cons]. rewrite length_app. simpl length. rewrite Nat.add_1_r. cbn [digits_from].
  assert (Hread : load8 m (a + (Z.of_nat (length pre + S (length ds)) - 1)) = c).
  { replace (Z.of_nat (length pre + S (length ds)) - 1) with (Z.of_nat (length pre + length ds)) by lia.
    destruct Hs as [Hch _]. apply (Hch (length pre + length ds)%nat). rewrite Hl.
    rewrite lookup_app_r by lia. replace (length pre + length ds - length pre)%nat with (length ds) by lia.
    rewrite <- app_assoc. by rewrite lookup_app_r, Nat.sub_diag by lia. }
  rewrite Hread. unfold is_digit, digit_value in Hc. destruct (Z.leb_spec c 57) as [Hc57|]; [|lia]. clear Hread.
  unfold schar, ZERO. decide_bool. cbn [andb].
  replace (Z.of_nat (length pre + S (length ds)) - 1 - 1) with (Z.of_nat (length pre + length ds) - 1) by lia.
  rewrite IH; [|exists ([c] ++ post); by rewrite Hl, <- !app_assoc|done]. rewrite value_snoc. unfold digit_value. decide_bool.
  destruct (s32_shift ((c - 48) * j)) as [k1 ->]. destruct (s32_shift (j * 10)) as [k2 ->].
  destruct (s32_shift (r + ((c - 48) * j + k1 * 2 ^ 32))) as [k3 ->].
  rewrite <- (s32_add_mul (r + j * (value 10 ds * 10 + (c - 48))) (k1 + k3 + k2 * value 10 ds)). f_equal. ring.
Qed.

Lemma strtoint_run fuel m a sign ds :
  is_string m a ((if sign : bool then [MINUS] else []) ++ ds) -> Forall (is_digit 10) ds -> ds <> [] ->
  (length ds + 1 < fuel)%nat ->
  strtoint fuel m a = Ret (s32 ((if sign then -1 else 1) * value 10 ds)).
Proof.
  intros Hs Hd Hne Hf. set (pre := if sign : bool then [MINUS] else []) in *.
  assert (Hpre : (length pre <= 1)%nat) by (destruct sign; simpl; lia).
  unfold strtoint. rewrite (strlen_run fuel m a (pre ++ ds)) by (done || rewrite length_app; lia). outcome.
  assert (Hsign : (load8 m a =? MINUS) = sign).
  { destruct sign.
    - destruct (string_head _ _ _ _ Hs) as [Hh _]. unfold load8. rewrite Hh. done.
    - destruct ds as [|c ds]; [done|]. destruct (string_head _ _ _ _ Hs) as [Hh _]. unfold load8. rewrite Hh.
      apply Forall_cons in Hd as [[Hc _] _]. apply Z.eqb_neq. unfold MINUS. lia. }
  rewrite Hsign. pose proof (digits_from_run m a pre ds 1 0 _ Hs ltac:(exists []; by rewrite app_nil_r) Hd) as Hr.
  rewrite length_app. replace (Z.to_nat _) with (length ds) by (destruct sign; simpl; lia).
  set (x := digits_from _ _ _ _ _ _) in *. destruct (s32_shift x) as [k Hk]. rewrite Hk in Hr.
  destruct (s32_shift (0 + 1 * value 10 ds)) as [k' Hk']. rewrite Hk' in Hr.
  f_equal. destruct sign.
  - rewrite <- (s32_add_mul (-1 * value 10 ds) (k - k')). f_equal. lia.
  - rewrite <- (s32_add_mul (1 * value 10 ds) (k' - k)). f_equal. lia.
Qed.

(** The memory at [a] holds the bytes of a buffer. *)
Definition holds (m : Mem) (a : Z) (buf : list Z) : Prop :=
  forall j c, buf !! j = Some c -> m (a + Z.of_nat j) = c.

Lemma holds_string m a text rest :
  holds m a (text ++ 0 :: rest) -> Forall (fun c => 0 < c < 256) text -> is_string m a text.
Proof.
  intros Hh Ht. constructor.
  - intros i c Hi. split; [by apply (proj1 (Forall_lookup _ text) Ht i)|]. apply Hh. by apply lookup_app_l_Some.
  - apply Hh. rewrite lookup_app_r by done. by rewrite Nat.sub_diag.
Qed.

(** The text of an [int]. *)
Lemma int_text i :
  - 2 ^ 31 <= i < 2 ^ 31 ->
  exists ds, conv_text true 100 0 [AInt i] = Ret ((if i <? 0 then [MINUS] else []) ++ ds, []) /\
    value 10 ds = Z.abs i /\ Forall (is_digit 10) ds /\ (1 <= length ds <= 10)%nat.
Proof.
  intros Hi. unfold conv_text. simpl. rewrite (s32_small i) by lia.
  assert (Hu : u32 (if i <? 0 then s32 (- i) else i) = Z.abs i).
  { destruct (Z.ltb_spec i 0); [|unfold u32; rewrite Z.mod_small; lia].
    destruct (s32_shift (- i)) as [k ->]. unfold u32. rewrite Z.mod_add, Z.mod_small by lia. lia. }
  rewrite Hu. destruct (convert_run (Z.abs i) 10 0) as (ds & E & Hv & Hd & Hl & _ & Hmin); [unfold is_u32; lia|lia|lia|].
  rewrite E. outcome. exists ds. split_and!; [done|done|done|lia|].
  destruct (decide (length ds <= 10)%nat) as [|Hlong]; [done|]. specialize (Hmin ltac:(lia)).
  assert (10 ^ 10 <= 10 ^ (Z.of_nat (length ds) - 1)) by (apply Z.pow_le_mono_r; lia). lia.
Qed.

(** ** Claims *)

(** [sprintf] writes the text of its format: for every format made of plain
    characters and conversions, if the text fits into the buffer with its
    terminator, the call ends, returns the number of characters, the buffer
    starts with the text, behind it is a terminator (unless nothing was
    written) and the bytes behind that are the old ones. *)
Theorem sprintf_writes_text (str out : list Z) (ps : list piece) (args : list arg)
    (Hps : Forall piece_ok ps) (Hout : render true ps 0 args = Ret out) (Hfit : (length out < length str)%nat) :
  exists rest, Sprintf.sprintf str (format_of ps) args = Ret (out ++ rest, Z.of_nat (length out)) /\ written out str rest.
Proof.
  unfold Sprintf.sprintf, Sprintf.sprintf_args. change (mkOut str 0) with (at_end [] str).
  destruct (vprintf_run ps (S (length (format_of ps))) 0 args out [] str Hps Hout Hfit) as (rest & args' & E & Hw); [lia|].
  exists rest. rewrite E. done.
Qed.

(** "x=%02x" with 10: "x=0A". *)
Definition sample : list piece := [Lit 120; Lit 61; Conv (Some 50) 120].

Lemma sprintf_writes_text_witness :
  exists rest, Sprintf.sprintf (replicate 6 1) [120; 61; 37; 48; 50; 120] [AInt 10] = Ret ([120; 61; 48; 65] ++ rest, 4) /\
    written [120; 61; 48; 65] (replicate 6 1) rest.
Proof.
  apply (sprintf_writes_text (replicate 6 1) [120; 61; 48; 65] sample [AInt 10]).
  - repeat constructor; done.
  - by vm_compute.
  - simpl. lia.
Defined.

(** C35. [snprintf] stays inside its buffer: with a buffer of exactly [nmax] bytes,
    at least 3, no write is out of range, for every well-formed format whose
    arguments are there.
    If the text is shorter than the buffer the call returns its length
    and the buffer starts with the text, which need not be terminated
    ([snprintf_literal_unterminated]); otherwise, or when a conversion is met
    with one byte left, the result is not positive and the buffer holds the
    first [nmax - 1] characters and a terminator. With fewer than 3 bytes the call
    behaves differently, and with none it writes outside
    ([snprintf_zero_bytes_overruns]). *)
Theorem snprintf_bounded (str out : list Z) (ps : list piece) (args : list arg)
    (Hps : Forall piece_ok ps) (Hout : render false ps 0 args = Ret out)
    (Hn : 3 <= Z.of_nat (length str) < 2 ^ 31) :
  exists buf r, Snprintf.snprintf str (Z.of_nat (length str)) (format_of ps) args = Ret (buf, r) /\
    length buf = length str /\
    ((length out < length str)%nat /\ r = Z.of_nat (length out) /\ out `prefix_of` buf \/
     (length str <= length out + 1)%nat /\ r <= 0 /\ buf = take (length str - 1) out ++ [0]).
Proof.
  unfold Snprintf.snprintf. rewrite s32_small by lia. change (mkOut str 0) with (at_end [] str).
  assert (Hne : str <> []) by (destruct str; [simpl in Hn; lia|done]).
  destruct (vsnprintf_run ps (S (length (format_of ps))) (Z.of_nat (length str)) 0 args out [] str Hps Hout Hne)
    as [(Hfit & rest & E & Hl)|(Hbig & k & E & Hk)]; [done|lia|lia| |]; rewrite E; outcome.
  - exists (out ++ rest), (Z.of_nat (length out)). split; [done|]. rewrite length_app. split; [lia|]. left.
    split_and!; [done|done|by apply prefix_app_r].
  - exists (cut [] out str), k. split; [done|]. unfold cut. cbn [app]. rewrite length_app, length_take. simpl.
    split; [lia|]. by right.
Qed.

Lemma snprintf_bounded_witness :
  exists buf r, Snprintf.snprintf (replicate 5 1) 5 [120; 61; 37; 48; 50; 120] [AInt 171] = Ret (buf, r) /\ length buf = 5%nat.
Proof.
  destruct (snprintf_bounded (replicate 5 1) [120; 61; 65; 66] sample [AInt 171]) as (buf & r & E & Hl & _).
  - repeat constructor; done.
  - by vm_compute.
  - simpl. lia.
  - exists buf, r. split; [exact E|exact Hl].
Defined.

(** Numbers survive printing and parsing: for every [int], [sprintf] with
    "%d" into a buffer of at least 12 bytes ends, and [strtoint] of a memory
    that holds the buffer returns the number again, the smallest one
    included. *)
Theorem sprintf_strtoint (i : Z) (str : list Z) (Hi : - 2 ^ 31 <= i < 2 ^ 31) (Hstr : (12 <= length str)%nat) :
  exists buf r, Sprintf.sprintf str [PERCENT; 100] [AInt i] = Ret (buf, r) /\
    forall m a fuel, holds m a buf -> (length str <= fuel)%nat -> strtoint fuel m a = Ret i.
Proof.
  destruct (int_text i Hi) as (ds & Et & Hv & Hd & Hl). set (text := (if i <? 0 then [MINUS] else []) ++ ds) in *.
  assert (Htl : (1 <= length text <= 11)%nat) by (unfold text; rewrite length_app; destruct (i <? 0); simpl; lia).
  destruct (vprintf_run [Conv None 100] 3 0 [AInt i] text [] str) as (rest & args' & E & Hw); [by repeat constructor| |lia|simpl; lia|].
  { cbn [render next_padding]. rewrite Et. outcome. by rewrite app_nil_r. }
  change (format_of [Conv None 100]) with [PERCENT; 100] in E.
  exists (text ++ rest), (Z.of_nat (length text)). unfold Sprintf.sprintf, Sprintf.sprintf_args. change (mkOut str 0) with (at_end [] str).
  change (S (length [PERCENT; 100])) with 3%nat. rewrite E. split; [done|]. intros m a fuel Hh Hf.
  destruct Hw as [->|[Hnil _]]; [|rewrite Hnil in Htl; simpl in Htl; lia].
  assert (Hs : is_string m a text).
  { eapply holds_string; [done|]. unfold text. apply Forall_app. split.
    - destruct (i <? 0); [apply Forall_singleton; unfold MINUS; lia|done].
    - eapply Forall_impl; [done|]. unfold is_digit. lia. }
  rewrite (strtoint_run fuel m a (i <? 0) ds) by (done || lia || (intros ->; simpl in Hl; lia)).
  f_equal. rewrite Hv. destruct (Z.ltb_spec i 0); rewrite s32_small by lia; lia.
Qed.

Lemma sprintf_strtoint_witness :
  exists buf r, Sprintf.sprintf (replicate 12 1) [PERCENT; 100] [AInt (- 2 ^ 31)] = Ret (buf, r) /\
    forall m a fuel, holds m a buf -> (12 <= fuel)%nat -> strtoint fuel m a = Ret (- 2 ^ 31).
Proof. apply (sprintf_strtoint (- 2 ^ 31) (replicate 12 1)); [lia|simpl; lia]. Defined.

(** ** Deviations from the documented behaviour *)

(** A text of plain characters is not terminated by [snprintf]. *)
Theorem snprintf_literal_unterminated :
  Snprintf.snprintf [1; 1; 1; 1] 4 (format_of [Lit 97; Lit 98]) [] = Ret ([97; 98; 1; 1], 2).
Proof. by vm_compute. Qed.

(** With two bytes a number that does not fit sets the position to 0, which is
    not taken as a failure: the next character overwrites the first. *)
Theorem snprintf_two_bytes_restarts :
  Snprintf.snprintf [1; 1] 2 (format_of [Conv None 100; Conv None 99]) [AInt 12; AInt 97] = Ret ([97; 0], 1).
Proof. by vm_compute. Qed.

(** With one byte a text that does not fit is reported as one character. *)
Theorem snprintf_one_byte_positive : Snprintf.snprintf [1] 1 (format_of [Lit 97]) [] = Ret ([0], 1).
Proof. by vm_compute. Qed.

(** Nothing stops a text in a buffer of 0 bytes. *)
Theorem snprintf_zero_bytes_overruns : Snprintf.snprintf [] 0 (format_of [Lit 97]) [] = Fault.
Proof. by vm_compute. Qed.

(** A format that ends with '%' is read beyond its terminator. *)
Theorem trailing_percent_overreads :
  Sprintf.sprintf [1; 1; 1; 1] [97; PERCENT] [] = Fault /\ Snprintf.snprintf [1; 1; 1; 1] 4 [97; PERCENT] [] = Fault.
Proof. split; by vm_compute. Qed.

(** A padding stays in force for later conversions without one: "%03d%d" with 1
    and 2 is "001002". *)
Theorem padding_is_kept :
  render true [Conv (Some 51) 100; Conv None 100] 0 [AInt 1; AInt 2] = Ret [48; 48; 49; 48; 48; 50].
Proof. by vm_compute. Qed.

(** A padding character behind 'a' asks for more digits than the 50 bytes of
    [convert] hold: "%0bd" underruns its buffer, the padding is 'b' - '0' = 50. *)
Theorem convert_underruns : Sprintf.sprintf (replicate 64 1) [PERCENT; 48; 98; 100] [AInt 1] = Fault.
Proof. by vm_compute. Qed.

(** The 32 binary digits of a large number and their terminator do not fit into
    the 32 bytes of [printf]. *)
Theorem printf_binary_overflows (beyond : list Z) :
  Printf.printf (Some []) beyond (replicate Printf.PRINTF_BUFFER 1) [PERCENT; 98] [AInt (2 ^ 31)] = Fault.
Proof. by vm_compute. Qed.
