(* ===== verification/KString.v ===== *)
(** * [String]

    [lib/string/String.cpp]: the length and the buffer of a string, which has
    room for a terminator behind the characters. Buffers are lists; reading
    outside one is a fault. A string returned by value is copied: [substring]
    writes no terminator, its copy has one. Pointers to C strings are the lists
    of their characters. *)

From S2P Require Import Prelude Memory Array Collections ArrayList CString Format.

Record String := mkString { len : Z; buffer : list Z }.

#[export] Instance String_eq_dec : EqDecision String.
Proof. solve_decision. Defined.

(** [buffer[i]] *)
Definition char_of (b : list Z) (i : Z) : outcome Z := if i <? 0 then Fault else or_fault (b !! Z.to_nat i).

(** [n] bytes from position [i] on, as [memcpy] reads them. *)
Definition bytes_of (b : list Z) (i n : Z) : outcome (list Z) :=
  if (0 <=? i) && (i + n <=? Z.of_nat (length b)) then Ret (take (Z.to_nat n) (drop (Z.to_nat i) b)) else Fault.

(** ** Constructors and assignment *)

Definition new_String : String := mkString 0 [0].

Definition String_char (c : Z) : String := mkString 1 [c; 0].

(** [None] is the null pointer. *)
Definition String_cstr (s : option (list Z)) : String :=
  let l := default [] s in mkString (Z.of_nat (length l)) (l ++ [0]).

Definition String_copy (other : String) : outcome String :=
  b ← bytes_of (buffer other) 0 (len other); Ret (mkString (len other) (b ++ [0])).

(** [operator=] from another object. *)
Definition assign (other : String) : outcome String :=
  b ← bytes_of (buffer other) 0 (len other + 1); Ret (mkString (len other) b).

(** Slots of a new array of strings are default constructed. *)
#[export] Instance String_junk : Junk String := fun _ => new_String.

(** ** Queries *)

Definition String_length (s : String) : Z := len s.

Definition isEmpty (s : String) : bool := len s =? 0.

Fixpoint hash_loop (n : nat) (i hash : Z) (s : String) : outcome Z :=
  match n with
  | O => Ret hash
  | S n => c ← char_of (buffer s) i; hash_loop n (i + 1) (u32 (hash + schar c)) s
  end.

Definition hashCode (s : String) : outcome Z := hash_loop (Z.to_nat (len s)) 0 0 s.

(** [operator uint32_t] *)
Definition to_uint32 (s : String) : outcome Z := hash_loop (Z.to_nat (len s)) 0 0 s.

Definition at_index (s : String) (index : Z) : outcome Z := char_of (buffer s) index.

(** [strcmp] of two buffers. *)
Fixpoint compare (b1 b2 : list Z) : outcome Z :=
  match b1, b2 with
  | x :: b1, y :: b2 => if negb (x =? 0) && (x =? y) then compare b1 b2 else Ret (x - y)
  | _, _ => Fault
  end.

(** [operator==] and [operator!=] *)
Definition equals (s other : String) : outcome bool := r ← compare (buffer s) (buffer other); Ret (r =? 0).

Definition differs (s other : String) : outcome bool :=
  r ← compare (buffer s) (buffer other); Ret (negb (r =? 0)).

Fixpoint indexOf_char_loop (n : nat) (i character : Z) (s : String) : outcome Z :=
  match n with
  | O => Diverge
  | S n =>
      if i <? len s then
        c ← char_of (buffer s) i;
        if c =? character then Ret i else indexOf_char_loop n (i + 1) character s
      else Ret UINT32_MAX
  end.

Definition indexOf_char (character start : Z) (s : String) : outcome Z :=
  indexOf_char_loop (S (Z.to_nat (len s - start))) start character s.

(** The inner loop of [indexOf]: [None] returns, [Some j] is where it ends. *)
Fixpoint match_rest (n : nat) (i j : Z) (other s : String) : outcome (option Z) :=
  match n with
  | O => Diverge
  | S n =>
      if j <? len other then
        if len s <=? u32 (i + j) then Ret None
        else
          c ← char_of (buffer s) (u32 (i + j));
          d ← char_of (buffer other) j;
          if negb (c =? d) then Ret (Some j) else match_rest n i (j + 1) other s
      else Ret (Some j)
  end.

(** [j] keeps its value from one round to the next. *)
Fixpoint indexOf_loop (n : nat) (i j : Z) (other s : String) : outcome Z :=
  match n with
  | O => Diverge
  | S n =>
      if i <? len s then
        c ← char_of (buffer s) i;
        d ← char_of (buffer other) 0;
        r ← (if c =? d then match_rest (S (Z.to_nat (len other))) i 1 other s else Ret (Some j));
        match r with
        | None => Ret UINT32_MAX
        | Some j => if j =? len other then Ret i else indexOf_loop n (i + 1) j other s
        end
      else Ret UINT32_MAX
  end.

Definition indexOf (other : String) (start : Z) (s : String) : outcome Z :=
  indexOf_loop (S (Z.to_nat (len s - start))) start 0 other s.

(** ** Parts *)

Definition substring (begin end_ : Z) (s : String) : outcome String :=
  if (end_ <? begin) || (len s <=? begin) then Ret (String_cstr (Some []))
  else
    let end_ := if len s <? end_ then len s else end_ in
    let length := end_ - begin in
    b ← bytes_of (buffer s) begin length;
    String_copy (mkString length b).

Definition add_nonempty (element : String) (result : ArrayList String) : outcome (ArrayList String) :=
  if isEmpty element then Ret result else r ← add element result; Ret (snd r).

Fixpoint split_loop (fuel : nat) (delimiter : String) (limit start end_ : Z) (result : ArrayList String) (s : String)
    : outcome (Z * ArrayList String) :=
  match fuel with
  | O => Diverge
  | S fuel =>
      if negb (end_ =? UINT32_MAX) && negb (u32 (size result + 1) =? limit) then
        t ← substring start end_ s;
        element ← assign t;
        result ← add_nonempty element result;
        let start := u32 (end_ + len delimiter) in
        end_ ← indexOf delimiter start s;
        split_loop fuel delimiter limit start end_ result s
      else Ret (start, result)
  end.

Definition split (fuel : nat) (delimiter : String) (limit : Z) (s : String) : outcome (Array String) :=
  if len s =? 0 then toArray new_ArrayList
  else
    end_ ← indexOf delimiter 0 s;
    '(start, result) ← split_loop fuel delimiter limit 0 end_ new_ArrayList s;
    t ← substring start (len s) s;
    element ← assign t;
    result ← add_nonempty element result;
    toArray result.

Definition beginsWith (string s : String) : outcome bool :=
  t ← substring 0 (len string) s; equals t string.

Definition endsWith (string s : String) : outcome bool :=
  t ← substring (u32 (len s - len string)) (len s) s; equals t string.

(** ** Concatenation *)

(** [operator+=] with another object; [realloc] keeps the old bytes. *)
Definition append (other s : String) : outcome String :=
  b ← bytes_of (buffer s) 0 (len s);
  o ← bytes_of (buffer other) 0 (len other + 1);
  Ret (mkString (u32 (len s + len other)) (b ++ o)).

(** [s += s]: the bytes are copied one by one inside the one buffer, so that the
    terminator has been overwritten when it is read. *)
Definition append_self (s : String) : outcome String :=
  b ← bytes_of (buffer s) 0 (len s + 1);
  first ← char_of b 0;
  let b := take (Z.to_nat (len s)) b in
  Ret (mkString (u32 (len s + len s)) (b ++ b ++ [first])).

(** [operator+]; the other versions make a string of their argument first. *)
Definition plus (first second : String) : outcome String :=
  tmp ← String_copy first;
  tmp ← append second tmp;
  String_copy tmp.

Definition remove (string s : String) : outcome String :=
  index ← indexOf string 0 s;
  if index =? UINT32_MAX then Ret (String_cstr (Some (Printf.until_zero (buffer s))))
  else
    a ← substring 0 index s;
    b ← substring (u32 (index + len string)) (len s) s;
    plus a b.

Definition removeAll (fuel : nat) (string s : String) : outcome String :=
  tokens ← split fuel string 0 s;
  tmp ← foldM (fun token tmp => append token tmp) (array tokens) new_String;
  String_copy tmp.

Fixpoint join_loop (n : nat) (i size : Z) (separator : String) (elements : Array String) (tmp : String) : outcome String :=
  match n with
  | O => Diverge
  | S n =>
      if i <? u32 (size - 1) then
        e ← at_ elements i;
        t ← plus e separator;
        tmp ← append t tmp;
        join_loop n (i + 1) size separator elements tmp
      else Ret tmp
  end.

Definition join (separator : String) (elements : Array String) : outcome String :=
  let size := length_ elements in
  tmp ← join_loop (S (Z.to_nat size)) 0 size separator elements new_String;
  e ← at_ elements (u32 (size - 1));
  tmp ← append e tmp;
  String_copy tmp.

(** ** Case and blanks *)

Definition isAlpha (c : Z) : bool := (0x41 <=? c) && (c <=? 0x5a) || (0x61 <=? c) && (c <=? 0x7a).

Definition CASE_OFFSET : Z := 32.

(** [tmp[i] = f(tmp[i])] for the first [len] characters. *)
Definition map_chars (f : Z -> Z) (s : String) : outcome String :=
  tmp ← String_copy s;
  b ← bytes_of (buffer tmp) 0 (len s);
  Ret (mkString (len tmp) ((f <$> b) ++ drop (Z.to_nat (len s)) (buffer tmp))).

Definition toUpperCase (s : String) : outcome String :=
  map_chars (fun c => if isAlpha (schar c) then if schar c <=? 0x5a then c else u8 (c - CASE_OFFSET) else c) s.

Definition toLowerCase (s : String) : outcome String :=
  map_chars (fun c => if isAlpha (schar c) then if 0x61 <=? schar c then c else u8 (c + CASE_OFFSET) else c) s.

Definition blank (c : Z) : bool := (c =? 9) || (c =? 32).

Fixpoint strip_front (n : nat) (startIndex : Z) (s : String) : outcome Z :=
  match n with
  | O => Diverge
  | S n =>
      if startIndex <? len s then
        c ← char_of (buffer s) startIndex;
        if blank c then strip_front n (startIndex + 1) s else Ret startIndex
      else Ret startIndex
  end.

Fixpoint strip_back (n : nat) (endIndex startIndex : Z) (s : String) : outcome Z :=
  match n with
  | O => Diverge
  | S n =>
      if startIndex <? endIndex then
        c ← char_of (buffer s) endIndex;
        if blank c then strip_back n (endIndex - 1) startIndex s else Ret endIndex
      else Ret endIndex
  end.

Definition strip (s : String) : outcome String :=
  startIndex ← strip_front (S (Z.to_nat (len s))) 0 s;
  let endIndex := u32 (len s - 1) in
  endIndex ← strip_back (S (Z.to_nat (len s))) endIndex startIndex s;
  if startIndex =? endIndex then Ret (String_cstr (Some []))
  else substring startIndex (u32 (endIndex + 1)) s.

(** ** Numbers and formats *)

Definition chars_true : list Z := [116; 114; 117; 101].
Definition chars_false : list Z := [102; 97; 108; 115; 101].

Definition valueOf_bool (value : bool) : String := String_cstr (Some (if value then chars_true else chars_false)).

(** The conversion character for a radix. *)
Definition radix_char (radix : Z) (sign : bool) : option Z :=
  if radix =? 2 then Some 98
  else if radix =? 8 then Some 111
  else if radix =? 10 then Some (if sign then 100 else 117)
  else if radix =? 16 then Some 120
  else None.

Definition valueOf (value radix : Z) (sign : bool) : outcome String :=
  let result := replicate 32 0 in
  result ← match radix_char radix sign with
           | Some c => r ← Sprintf.sprintf result [PERCENT; c] [AInt value]; Ret (fst r)
           | None => Ret result
           end;
  Ret (String_cstr (Some (Printf.until_zero result))).

Definition valueOf_padded (value radix padding : Z) (sign : bool) : outcome String :=
  let format := [PERCENT] ++ (if 0 <? padding then [ZERO; u8 (padding + ZERO)] else [])
                ++ match radix_char radix sign with Some c => [c] | None => [] end in
  r ← Sprintf.sprintf (replicate 32 0) (Printf.until_zero format) [AInt value];
  Ret (String_cstr (Some (Printf.until_zero (fst r)))).

Section Vformat.
Context `{Junk Z}.

Definition add_chars (l : list Z) (buffer : ArrayList Z) : outcome (ArrayList Z) :=
  foldM (fun c buffer => r ← add c buffer; Ret (snd r)) l buffer.

(** [buffer.add('\0')] and the string at the start of the elements. *)
Definition finish (buffer : ArrayList Z) : outcome String :=
  r ← add 0 buffer;
  Ret (String_cstr (Some (Printf.until_zero (default [] (elements (snd r)))))).

(** The inner [while]: the rest from the next '%' on, or [None] at the end. *)
Fixpoint literals (traverse : list Z) (buffer : ArrayList Z) : outcome (option (list Z) * ArrayList Z) :=
  match traverse with
  | [] => Ret (None, buffer)
  | c :: rest =>
      if c =? PERCENT then Ret (Some traverse, buffer)
      else r ← add c buffer; literals rest (snd r)
  end.

Fixpoint vformat_loop (fuel : nat) (beyond traverse : list Z) (args : list arg) (numberBuffer : list Z) (buffer : ArrayList Z)
    : outcome String :=
  match fuel with
  | O => Diverge
  | S fuel =>
      if peek traverse =? 0 then finish buffer
      else
        '(traverse, buffer) ← literals traverse buffer;
        match traverse with
        | None => finish buffer
        | Some traverse =>
            let specifier := take (Printf.SPECIFIER_LENGTH + Printf.PADDING_LENGTH) (traverse ++ 0 :: beyond) in
            traverse ← advance traverse;
            '(traverse, specifier) ←
              (if peek traverse =? ZERO then
                 traverse ← advance traverse;
                 traverse ← advance traverse;
                 Ret (traverse, specifier)
               else Ret (traverse, take Printf.SPECIFIER_LENGTH specifier));
            traverse ← advance traverse;
            if default 0 (specifier !! 1%nat) =? 115 then
              '(string, args) ← va_str args;
              buffer ← add_chars string buffer;
              vformat_loop fuel beyond traverse args numberBuffer buffer
            else
              '(numberBuffer, _, args) ← Sprintf.sprintf_args numberBuffer (Printf.until_zero specifier) args;
              buffer ← add_chars (Printf.until_zero numberBuffer) buffer;
              vformat_loop fuel beyond traverse args numberBuffer buffer
        end
  end.

(** [numberBuffer] has 64 bytes; what they and the memory behind the format hold
    is given. *)
Definition vformat (beyond numberBuffer fmt : list Z) (args : list arg) : outcome String :=
  vformat_loop (S (length fmt)) beyond fmt args numberBuffer new_ArrayList.

End Vformat.

(** ** Strings as lists of characters *)

(** The string with the characters [l]. *)
Definition str (l : list Z) : String := mkString (Z.of_nat (length l)) (l ++ [0]).

(** Characters of a C string: bytes other than 0. *)
Definition text (l : list Z) : Prop := Forall (fun c => 0 < c < 256) l.

Lemma text_app l1 l2 : text (l1 ++ l2) <-> text l1 /\ text l2.
Proof. apply Forall_app. Qed.

Lemma str_cstr l : String_cstr (Some l) = str l.
Proof. done. Qed.

Lemma bytes_of_str l i n :
  0 <= i -> 0 <= n -> i + n <= Z.of_nat (length l) ->
  bytes_of (l ++ [0]) i n = Ret (take (Z.to_nat n) (drop (Z.to_nat i) l)).
Proof.
  intros Hi Hn Hl. unfold bytes_of. rewrite length_app. simpl. decide_bool. simpl.
  rewrite drop_app_le by lia. rewrite take_app_le by (rewrite length_drop; lia). done.
Qed.

Lemma bytes_all l : bytes_of (l ++ [0]) 0 (Z.of_nat (length l) + 1) = Ret (l ++ [0]).
Proof.
  unfold bytes_of. rewrite length_app. simpl length. decide_bool. cbn [andb]. rewrite drop_0, take_ge; [done|].
  rewrite length_app. simpl. lia.
Qed.

Lemma String_copy_run n b :
  (n <= length b)%nat -> String_copy (mkString (Z.of_nat n) b) = Ret (mkString (Z.of_nat n) (take n b ++ [0])).
Proof.
  intros Hn. unfold String_copy. cbn [len buffer]. unfold bytes_of. decide_bool. simpl. outcome. by rewrite Nat2Z.id, drop_0.
Qed.

Lemma String_copy_str l : String_copy (str l) = Ret (str l).
Proof. unfold str at 1. rewrite String_copy_run by (rewrite length_app; lia). by rewrite take_app_length. Qed.

Lemma assign_str l : assign (str l) = Ret (str l).
Proof. unfold assign, str at 1 2. cbn [len buffer]. by rewrite bytes_all. Qed.

Lemma char_of_str l i :
  0 <= i <= Z.of_nat (length l) -> char_of (l ++ [0]) i = Ret (char_at l i).
Proof.
  intros Hi. unfold char_of, char_at. decide_bool. destruct (l !! Z.to_nat i) as [c|] eqn:E.
  - by rewrite (lookup_app_l_Some _ _ _ _ E).
  - apply lookup_ge_None in E. rewrite lookup_app_r by done. by replace (Z.to_nat i - length l)%nat with 0%nat by lia.
Qed.

(** [substring] is a sublist; bounds beyond the end are cut. *)
Lemma substring_str b e l :
  0 <= b -> substring b e (str l) = Ret (str (take (Z.to_nat (e - b)) (drop (Z.to_nat b) l))).
Proof.
  intros Hb. unfold substring. cbn [len buffer str].
  destruct (Z.ltb_spec e b) as [He|He]; simpl.
  { replace (Z.to_nat (e - b)) with 0%nat by lia. done. }
  destruct (Z.leb_spec (Z.of_nat (length l)) b) as [Hbl|Hbl].
  { rewrite drop_ge, take_nil by lia. done. }
  set (e' := if Z.of_nat (length l) <? e then Z.of_nat (length l) else e).
  assert (He' : b <= e' <= Z.of_nat (length l)) by (unfold e'; destruct (Z.ltb_spec (Z.of_nat (length l)) e); lia).
  rewrite bytes_of_str by lia. outcome.
  assert (Htake : take (Z.to_nat (e' - b)) (drop (Z.to_nat b) l) = take (Z.to_nat (e - b)) (drop (Z.to_nat b) l)).
  { unfold e' in *. destruct (Z.ltb_spec (Z.of_nat (length l)) e); [|done].
    rewrite !take_ge; [done| |]; rewrite length_drop; lia. }
  assert (Hlen : length (take (Z.to_nat (e' - b)) (drop (Z.to_nat b) l)) = Z.to_nat (e' - b)).
  { rewrite length_take, length_drop. lia. }
  replace (e' - b) with (Z.of_nat (Z.to_nat (e' - b))) at 1 by lia. rewrite String_copy_run by lia.
  rewrite <- Htake. unfold str. rewrite Hlen. do 2 f_equal. rewrite take_ge by lia. done.
Qed.

(** ** Comparison *)

Lemma compare_str l1 l2 : text l1 -> text l2 -> compare (l1 ++ [0]) (l2 ++ [0]) = Ret (diff l1 l2).
Proof.
  intros H1. revert l2. induction H1 as [|x l1 Hx H1 IH]; intros l2 H2.
  - destruct l2 as [|y l2]; [done|]. by simpl.
  - destruct l2 as [|y l2]; simpl.
    + destruct (Z.eqb_spec x 0); [lia|]. simpl. f_equal. lia.
    + apply Forall_cons in H2 as [Hy H2]. destruct (Z.eqb_spec x 0); [lia|]. simpl. destruct (x =? y); [|done]. by apply IH.
Qed.

Lemma equals_str l1 l2 : text l1 -> text l2 -> equals (str l1) (str l2) = Ret (bool_decide (l1 = l2)).
Proof.
  intros H1 H2. unfold equals, str. cbn [buffer]. rewrite compare_str by done. outcome. f_equal.
  assert (Hp : forall l, text l -> Forall (fun c => 0 < c) l) by (intros l Hl; eapply Forall_impl; [exact Hl|]; simpl; lia).
  pose proof (diff_zero l1 l2 (Hp _ H1) (Hp _ H2)) as Hz.
  destruct (Z.eqb_spec (diff l1 l2) 0) as [E|E]; symmetry; [apply bool_decide_eq_true|apply bool_decide_eq_false]; tauto.
Qed.

(** The buffer comparison is [strcmp] of two buffers in memory. *)
Lemma compare_strcmp m a1 a2 l1 l2 fuel :
  text l1 -> text l2 -> holds m a1 (l1 ++ [0]) -> holds m a2 (l2 ++ [0]) -> (length l1 < fuel)%nat ->
  strcmp fuel m a1 a2 = compare (l1 ++ [0]) (l2 ++ [0]).
Proof.
  intros H1 H2 Hm1 Hm2 Hf. rewrite compare_str by done.
  apply strcmp_run; [by eapply holds_string|by eapply holds_string|done].
Qed.

(** ** Concatenation *)

Lemma append_str l1 l2 :
  Z.of_nat (length l1 + length l2) < 2 ^ 32 -> append (str l2) (str l1) = Ret (str (l1 ++ l2)).
Proof.
  intros Hl. unfold append, str. cbn [len buffer]. rewrite (bytes_of_str l1 0 (Z.of_nat (length l1))) by lia. outcome. rewrite bytes_all. outcome.
  change (drop (Z.to_nat 0) l1) with l1. rewrite take_ge by lia. rewrite length_app, <- app_assoc. wrap_small.
  by rewrite Nat2Z.inj_add.
Qed.

Lemma plus_str l1 l2 :
  Z.of_nat (length l1 + length l2) < 2 ^ 32 -> plus (str l1) (str l2) = Ret (str (l1 ++ l2)).
Proof.
  intros Hl. unfold plus. rewrite String_copy_str. outcome. rewrite append_str by done. outcome. apply String_copy_str.
Qed.

(** ** Searching *)

Lemma find_sub_short d l : (length l < length d)%nat -> find_sub d l = None.
Proof.
  induction l as [|x l IH]; intros Hl; [done|]. cbn [find_sub].
  rewrite decide_False; [|intros ?%prefix_length; simpl in *; lia]. simpl in Hl. by rewrite IH by lia.
Qed.

Lemma drop_cons_at (l : list Z) i c r : drop i l = c :: r -> char_at l (Z.of_nat i) = c /\ drop (S i) l = r /\ (i < length l)%nat.
Proof.
  intros Hd. assert (Hd' : drop (Z.to_nat (Z.of_nat i)) l = c :: r) by (by rewrite Nat2Z.id).
  pose proof (drop_length_pos l (Z.of_nat i) c r ltac:(lia) Hd'). split_and!.
  - by apply (char_at_suffix l (Z.of_nat i) c r); [lia|].
  - pose proof (drop_suffix l (Z.of_nat i) c r ltac:(lia) Hd') as E. by replace (Z.to_nat (Z.of_nat i + 1)) with (S i) in E by lia.
  - lia.
Qed.

Lemma drop_nil_at (l : list Z) i : drop i l = [] -> (length l <= i)%nat.
Proof. intros Hd%(f_equal length). rewrite length_drop in Hd. simpl in Hd. lia. Qed.

(** The inner loop compares the rest of the pattern. *)
Lemma match_rest_run n d l (i j : nat) :
  (j <= length d)%nat -> (length d - j < n)%nat -> Z.of_nat (length l + length d) < 2 ^ 32 -> (i <= length l)%nat ->
  exists r, match_rest n (Z.of_nat i) (Z.of_nat j) (str d) (str l) = Ret r /\
    match r with
    | None => (length l - i < length d)%nat
    | Some k => if decide (drop j d `prefix_of` drop (i + j) l) then k = Z.of_nat (length d) else k < Z.of_nat (length d)
    end.
Proof.
  revert j. induction n as [|n IH]; intros j Hj Hn Hl Hi; [lia|]. cbn [match_rest str len buffer]. wrap_small.
  destruct (drop j d) as [|x d'] eqn:Ed.
  - pose proof (drop_nil_at _ _ Ed). decide_bool. eexists. split; [done|]. simpl. lia.
  - destruct (drop_cons_at _ _ _ _ Ed) as (Hx & Hd' & Hjd). decide_bool.
    destruct (drop (i + j) l) as [|y l'] eqn:El.
    + pose proof (drop_nil_at _ _ El). decide_bool. eexists. split; [done|]. simpl. lia.
    + destruct (drop_cons_at _ _ _ _ El) as (Hy & Hl' & Hil). decide_bool.
      rewrite <- Nat2Z.inj_add, !char_of_str by lia. outcome. rewrite Hx, Hy. destruct (Z.eqb_spec y x) as [->|Hne]; cbn [negb].
      * replace (Z.of_nat j + 1) with (Z.of_nat (S j)) by lia. destruct (IH (S j)) as (r & E & Hr); [lia|lia|lia|lia|].
        exists r. rewrite E. split; [done|]. destruct r as [k|]; [|done]. rewrite Hd' in Hr.
        replace (i + S j)%nat with (S (i + j)) in Hr by lia. rewrite Hl' in Hr.
        destruct (decide (d' `prefix_of` l')) as [Hp|Hp].
        -- rewrite decide_True; [done|by apply prefix_cons].
        -- rewrite decide_False; [done|by intros ?%prefix_cons_inv_2].
      * eexists. split; [done|]. simpl. rewrite decide_False; [lia|]. intros ?%prefix_cons_inv_1. congruence.
Qed.

(** The position of the first occurrence as the code returns it. *)
Definition found_at (start : Z) (r : option nat) : Z :=
  match r with Some k => start + Z.of_nat k | None => UINT32_MAX end.

Lemma indexOf_loop_run n x d l (i : nat) j :
  (length l - i < n)%nat -> (i <= length l)%nat -> Z.of_nat (length l + length (x :: d)) < 2 ^ 32 -> j < Z.of_nat (length (x :: d)) ->
  indexOf_loop n (Z.of_nat i) j (str (x :: d)) (str l) = Ret (found_at (Z.of_nat i) (find_sub (x :: d) (drop i l))).
Proof.
  revert i j. induction n as [|n IH]; intros i j Hn Hi Hl Hj; [lia|]. cbn [indexOf_loop].
  change (len (str l)) with (Z.of_nat (length l)). change (len (str (x :: d))) with (Z.of_nat (length (x :: d))).
  cbn [buffer str]. destruct (drop i l) as [|y r] eqn:El.
  { pose proof (drop_nil_at _ _ El). by decide_bool. }
  destruct (drop_cons_at _ _ _ _ El) as (Hy & Hr & Hil). decide_bool.
  rewrite (char_of_str l (Z.of_nat i)) by lia. outcome. rewrite Hy. change (char_of ((x :: d) ++ [0]) 0) with (Ret x). outcome.
  cbn [find_sub]. assert (Hnext : forall j', j' < Z.of_nat (length (x :: d)) ->
    indexOf_loop n (Z.of_nat i + 1) j' (str (x :: d)) (str l) = Ret (found_at (Z.of_nat i) (S <$> find_sub (x :: d) r))).
  { intros j' Hj'. replace (Z.of_nat i + 1) with (Z.of_nat (S i)) by lia. rewrite IH by lia. rewrite Hr. f_equal.
    destruct (find_sub (x :: d) r); simpl; lia. }
  destruct (Z.eqb_spec y x) as [->|Hne].
  - destruct (match_rest_run (S (Z.to_nat (Z.of_nat (length (x :: d))))) (x :: d) l i 1) as (k & E & Hk);
      [simpl; lia|lia|done|lia|]. change (Z.of_nat 1) with 1 in E. rewrite E. outcome.
    destruct k as [k|].
    + rewrite Nat.add_1_r, Hr in Hk. change (drop 1 (x :: d)) with d in Hk. destruct (decide (d `prefix_of` r)) as [Hp|Hp].
      * rewrite Hk, Z.eqb_refl, decide_True by (by apply prefix_cons). simpl. f_equal. lia.
      * decide_bool. rewrite decide_False by (by intros ?%prefix_cons_inv_2). by apply Hnext.
    + rewrite decide_False, find_sub_short; [done| |].
      * pose proof (f_equal length El) as Hlen. rewrite length_drop in Hlen. simpl in *. lia.
      * intros Hp%prefix_length. pose proof (f_equal length El) as Hlen. rewrite length_drop in Hlen. simpl in *. lia.
  - outcome. decide_bool. rewrite decide_False; [by apply Hnext|]. intros ?%prefix_cons_inv_1. congruence.
Qed.

Lemma indexOf_str d l (start : nat) :
  d <> [] -> (start <= length l)%nat -> Z.of_nat (length l + length d) < 2 ^ 32 ->
  indexOf (str d) (Z.of_nat start) (str l) = Ret (found_at (Z.of_nat start) (find_sub d (drop start l))).
Proof.
  intros Hd Hs Hl. destruct d as [|x d]; [done|]. unfold indexOf. change (len (str l)) with (Z.of_nat (length l)).
  apply indexOf_loop_run; [lia|done|done|simpl; lia].
Qed.

(** ** Splitting at a character *)

Lemma find_sub_char c l :
  find_sub [c] l = if (position c l <? length l)%nat then Some (position c l) else None.
Proof.
  induction l as [|x l IH]; [done|]. cbn [find_sub]. unfold position. cbn [prefix_len]. destruct (Z.eqb_spec x c) as [->|Hne]; cbn [negb].
  - rewrite decide_True; [done|]. apply prefix_cons, prefix_nil.
  - rewrite decide_False by (intros ?%prefix_cons_inv_1; congruence). rewrite IH. fold (position c l).
    change (S (position c l) <? length (x :: l))%nat with (position c l <? length l)%nat.
    by destruct (position c l <? length l)%nat.
Qed.

Lemma outside_char c l : outside_len [c] l = position c l.
Proof. apply prefix_len_ext. intros x. unfold among. f_equal. destruct (Z.eqb_spec x c) as [->|Hne].
  - apply bool_decide_eq_true. left.
  - apply bool_decide_eq_false. by intros ->%list_elem_of_singleton.
Qed.

Lemma words_from_forall (P : Z -> Prop) d cur l :
  Forall P cur -> Forall P l -> Forall (Forall P) (words_from d cur l) /\ (length (words_from d cur l) <= length l + 1)%nat.
Proof.
  intros Hc Hl. revert cur Hc. induction Hl as [|c l Hx Hl IH]; intros cur Hc; simpl.
  - destruct cur; simpl; [split; [done|lia]|]. split; [by apply Forall_singleton|lia].
  - destruct (among d c).
    + destruct (IH [] ltac:(done)) as [H1 H2]. destruct cur; [split; [done|lia]|]. simpl. split; [by apply Forall_cons|lia].
    + destruct (IH (cur ++ [c])) as [H1 H2]; [apply Forall_app; split; [done|by apply Forall_singleton]|]. split; [done|lia].
Qed.

(** A piece unless it is empty. *)
Definition nonempty (l : list Z) : list (list Z) := match l with [] => [] | _ => [l] end.

Lemma words_found c l :
  (position c l < length l)%nat -> words [c] l = nonempty (take (position c l) l) ++ words [c] (drop (S (position c l)) l).
Proof.
  intros Hp. rewrite <- outside_char. destruct (decide (outside_len [c] l = 0)%nat) as [E|E].
  - rewrite E. destruct l as [|x l]; [simpl in Hp; lia|]. unfold outside_len in E. simpl in E.
    destruct (among [c] x) eqn:Ex; simpl in E; [|lia]. unfold words. cbn [words_from take nonempty app drop]. by rewrite Ex.
  - rewrite words_head by lia. destruct (take (outside_len [c] l) l) eqn:Et; [|done].
    apply (f_equal length) in Et. rewrite length_take, outside_char in Et. rewrite outside_char in E. simpl in Et. lia.
Qed.

Lemma words_last c l : (length l <= position c l)%nat -> words [c] l = nonempty l.
Proof.
  intros Hp. pose proof (prefix_len_le (fun x => negb (x =? c)) l) as Hle. fold (position c l) in Hle.
  destruct l as [|x l]; [done|]. rewrite words_head; rewrite outside_char; [|simpl in *; lia].
  rewrite take_ge, drop_ge by lia. done.
Qed.

Lemma add_nonempty_run l (al : ArrayList String) :
  al_wf al -> al_length al < 2 ^ 31 ->
  exists al', add_nonempty (str l) al = Ret al' /\ al_wf al' /\ al_view al' = al_view al ++ (str <$> nonempty l).
Proof.
  intros Hwf Hn. unfold add_nonempty, isEmpty. cbn [str len]. destruct l as [|x l].
  - exists al. by rewrite app_nil_r.
  - destruct (Z.eqb_spec (Z.of_nat (length (x :: l))) 0) as [Hz|_]; [simpl in Hz; lia|].
    destruct (add_spec (str (x :: l)) al Hwf Hn) as (al' & E & Hwf' & _ & Hv). rewrite E. outcome. by exists al'.
Qed.

Lemma split_loop_run fuel c l : forall (start : nat) (al : ArrayList String),
  (start <= length l)%nat -> (length l - start < fuel)%nat -> Z.of_nat (length l) + 1 < 2 ^ 31 ->
  al_wf al -> al_length al <= Z.of_nat start ->
  exists (start' : nat) al',
    split_loop fuel (str [c]) 0 (Z.of_nat start) (found_at (Z.of_nat start) (find_sub [c] (drop start l))) al (str l)
      = Ret (Z.of_nat start', al') /\
    (start' <= length l)%nat /\ al_wf al' /\ al_length al' <= Z.of_nat start' /\
    al_view al' ++ (str <$> nonempty (drop start' l)) = al_view al ++ (str <$> words [c] (drop start l)).
Proof.
  induction fuel as [|fuel IH]; intros start al Hs Hf Hl Hwf Hal; [lia|]. cbn [split_loop].
  rewrite find_sub_char. set (r := drop start l) in *. pose proof (length_drop l start) as Hlr. fold r in Hlr.
  destruct (Nat.ltb_spec (position c r) (length r)) as [Hp|Hp]; cbn [found_at].
  - set (k := position c r) in *. pose proof (al_bounds _ Hwf). unfold size. wrap_small. unfold UINT32_MAX. decide_bool. cbn [negb andb].
    rewrite substring_str by lia. outcome.
    replace (Z.to_nat (Z.of_nat start + Z.of_nat k - Z.of_nat start)) with k by lia. rewrite Nat2Z.id. fold r.
    rewrite assign_str. outcome.
    destruct (add_nonempty_run (take k r) al Hwf ltac:(lia)) as (al1 & E & Hwf1 & Hv1). rewrite E. outcome.
    change (len (str [c])) with 1. wrap_small.
    replace (Z.of_nat start + Z.of_nat k + 1) with (Z.of_nat (start + k + 1)) by lia.
    rewrite indexOf_str by (done || simpl; lia). outcome.
    assert (Hal1 : al_length al1 <= Z.of_nat (start + k + 1)).
    { pose proof (length_al_view _ Hwf1) as H1. pose proof (length_al_view _ Hwf) as H2. rewrite Hv1, length_app, length_fmap in H1.
      assert (length (nonempty (take k r)) <= 1)%nat by (destruct (take k r); simpl; lia). lia. }
    destruct (IH (start + k + 1)%nat al1) as (start' & al' & E' & Hs' & Hwf' & Hal' & Hv'); [lia|lia|done|done|lia|].
    exists start', al'. rewrite E'. split_and!; try done. rewrite Hv', Hv1, <- app_assoc, <- fmap_app. do 2 f_equal.
    rewrite (words_found c r Hp). f_equal. fold k. unfold r. rewrite drop_drop. do 2 f_equal. lia.
  - cbn [negb]. rewrite Z.eqb_refl. cbn [negb andb]. exists start, al. fold r. split_and!; try done.
    by rewrite (words_last c r Hp).
Qed.

Lemma split_run fuel c l :
  (length l < fuel)%nat -> Z.of_nat (length l) + 1 < 2 ^ 31 ->
  split fuel (str [c]) 0 (str l) = Ret (mkArray (str <$> words [c] l) (Z.of_nat (length (words [c] l)))).
Proof.
  intros Hf Hl. unfold split. change (len (str l)) with (Z.of_nat (length l)).
  destruct (Z.eqb_spec (Z.of_nat (length l)) 0) as [Hz|Hz].
  { destruct l; [done|]. simpl in Hz. lia. }
  pose proof (indexOf_str [c] l 0 ltac:(done) ltac:(lia) ltac:(simpl; lia)) as Hi.
  change (Z.of_nat 0) with 0 in Hi. rewrite Hi. outcome.
  destruct (split_loop_run fuel c l 0 new_ArrayList) as (start & al & E & Hs & Hwf & Hal & Hv);
    [lia|lia|done|by constructor|done|]. change (Z.of_nat 0) with 0 in *. rewrite E. outcome.
  rewrite substring_str by lia. outcome. rewrite assign_str. outcome. rewrite Nat2Z.id.
  rewrite take_ge by (rewrite length_drop; lia).
  destruct (add_nonempty_run (drop start l) al Hwf ltac:(lia)) as (al' & E' & Hwf' & Hv'). rewrite E'. outcome.
  rewrite toArray_spec by done. rewrite Hv in Hv'. change (al_view new_ArrayList) with (@nil String) in Hv'. cbn [app] in Hv'.
  rewrite drop_0 in Hv'. rewrite <- (length_al_view _ Hwf'), Hv', length_fmap. done.
Qed.

(** ** Joining *)

Fixpoint joined (sep : list Z) (ws : list (list Z)) : list Z :=
  match ws with
  | [] => []
  | [w] => w
  | w :: ws => w ++ sep ++ joined sep ws
  end.

Lemma joined_cons sep w ws : ws <> [] -> joined sep (w :: ws) = w ++ sep ++ joined sep ws.
Proof. by destruct ws. Qed.

(** The array of strings with these characters. *)
Definition strings (ws : list (list Z)) : Array String := mkArray (str <$> ws) (Z.of_nat (length ws)).

Lemma strings_at ws i w : ws !! i = Some w -> at_ (strings ws) (Z.of_nat i) = Ret (str w).
Proof.
  intros Hi. pose proof (lookup_lt_Some _ _ _ Hi). unfold at_, strings. cbn [capacity array]. decide_bool.
  by rewrite Nat2Z.id, list_lookup_fmap, Hi.
Qed.

Lemma join_loop_run n sep ws : forall (i : nat) t rest,
  drop i ws = rest -> rest <> [] -> (length rest <= n)%nat ->
  Z.of_nat (length ws) < 2 ^ 32 -> Z.of_nat (length (t ++ joined sep rest)) < 2 ^ 32 ->
  exists t' w, join_loop n (Z.of_nat i) (Z.of_nat (length ws)) (str sep) (strings ws) (str t) = Ret (str t') /\
    last ws = Some w /\ t' ++ w = t ++ joined sep rest.
Proof.
  induction n as [|n IH]; intros i t rest Hd Hne Hn Hws Hl; [destruct rest; [done|simpl in Hn; lia]|]. cbn [join_loop].
  pose proof (length_drop ws i) as Hlr. rewrite Hd in Hlr. destruct rest as [|w rest]; [done|]. simpl in Hlr. wrap_small.
  assert (Hw : ws !! i = Some w).
  { assert (Hx : drop i ws !! 0%nat = Some w) by (by rewrite Hd). by rewrite lookup_drop, Nat.add_0_r in Hx. }
  assert (Hd' : drop (S i) ws = rest) by (rewrite <- Nat.add_1_r, <- drop_drop, Hd; done).
  destruct rest as [|w2 rest]; simpl in Hlr.
  - decide_bool. exists t, w. split_and!; [done| |done]. rewrite last_lookup.
    by replace (Nat.pred (length ws)) with i by lia.
  - decide_bool. rewrite (strings_at ws i w Hw). outcome. rewrite joined_cons, !length_app in Hl by done. simpl in Hl.
    rewrite plus_str by lia. outcome. rewrite append_str by (rewrite length_app; lia). outcome.
    replace (Z.of_nat i + 1) with (Z.of_nat (S i)) by lia.
    destruct (IH (S i) (t ++ w ++ sep) (w2 :: rest)) as (t' & z & E & Hz & Ht); [done|done|simpl in *; lia|done| |].
    { rewrite !length_app. simpl. lia. }
    exists t', z. rewrite E. split_and!; [done|done|]. rewrite Ht, (joined_cons sep w) by done. by rewrite <- !app_assoc.
Qed.

Lemma join_run sep ws :
  ws <> [] -> Z.of_nat (length ws) < 2 ^ 32 -> Z.of_nat (length (joined sep ws)) < 2 ^ 32 ->
  join (str sep) (strings ws) = Ret (str (joined sep ws)).
Proof.
  intros Hne Hws Hl. unfold join, length_. change (capacity (strings ws)) with (Z.of_nat (length ws)). rewrite Nat2Z.id.
  destruct (join_loop_run (S (length ws)) sep ws 0 [] ws) as (t & w & E & Hw & Ht); try done; [lia|].
  change (Z.of_nat 0) with 0 in E. change (str []) with new_String in E. rewrite E. outcome.
  assert (0 < length ws)%nat by (destruct ws; [done|simpl; lia]). wrap_small.
  rewrite last_lookup in Hw. replace (Z.of_nat (length ws) - 1) with (Z.of_nat (Nat.pred (length ws))) by lia.
  rewrite (strings_at _ _ _ Hw). outcome. cbn [app] in Ht.
  rewrite append_str by (rewrite <- length_app, Ht; done). outcome. rewrite Ht. apply String_copy_str.
Qed.

(** Splitting at the separator undoes joining. *)
Lemma words_joined c ws : Forall (fun w => w <> [] /\ c ∉ w) ws -> words [c] (joined [c] ws) = ws.
Proof.
  assert (Hpos : forall w r, c ∉ w -> position c (w ++ c :: r) = length w).
  { intros w r. induction w as [|x w IH]; intros Hc; unfold position; cbn [app prefix_len].
    - by rewrite Z.eqb_refl.
    - apply not_elem_of_cons in Hc as [Hxc Hc]. destruct (Z.eqb_spec x c); [congruence|]. simpl. f_equal. by apply IH. }
  induction 1 as [|w ws [Hw Hc] Hws IH]; [done|]. destruct ws as [|w2 ws].
  - simpl. rewrite words_last; [by destruct w|].
    destruct (decide (position c w < length w)%nat) as [Hlt|]; [by apply position_found in Hlt|lia].
  - rewrite joined_cons by done. change ([c] ++ ?x) with (c :: x). rewrite words_found; rewrite Hpos by done.
    + rewrite take_app_length. replace (S (length w)) with (length w + 1)%nat by lia. rewrite <- drop_drop, drop_app_length.
      cbn [drop]. rewrite drop_0, IH. by destruct w.
    + rewrite length_app. simpl. lia.
Qed.

(** ** Prefixes and suffixes *)

Lemma text_take n l : text l -> text (take n l).
Proof. apply Forall_take. Qed.

Lemma text_drop n l : text l -> text (drop n l).
Proof. apply Forall_drop. Qed.

Lemma prefix_by_take (p l : list Z) : take (length p) l = p <-> p `prefix_of` l.
Proof.
  split.
  - intros <-. apply prefix_take.
  - intros [r ->]. apply take_app_length.
Qed.

Lemma suffix_by_drop (p l : list Z) :
  (length p <= length l)%nat -> drop (length l - length p) l = p <-> p `suffix_of` l.
Proof.
  intros Hl. split.
  - intros <-. exists (take (length l - length p) l). by rewrite take_drop.
  - intros [r ->]. rewrite length_app. replace (length r + length p - length p)%nat with (length r) by lia. apply drop_app_length.
Qed.

Lemma beginsWith_str p l : text p -> text l -> beginsWith (str p) (str l) = Ret (bool_decide (p `prefix_of` l)).
Proof.
  intros Hp Hl. unfold beginsWith. change (len (str p)) with (Z.of_nat (length p)). rewrite substring_str by lia. outcome.
  rewrite Z.sub_0_r, Nat2Z.id. change (drop (Z.to_nat 0) l) with l. rewrite equals_str by (try apply text_take; done).
  f_equal. apply bool_decide_ext, prefix_by_take.
Qed.

Lemma endsWith_str p l :
  text p -> text l -> Z.of_nat (length p) < 2 ^ 31 -> Z.of_nat (length l) < 2 ^ 31 ->
  endsWith (str p) (str l) = Ret (bool_decide (p `suffix_of` l)).
Proof.
  intros Hp Hl Hbp Hbl. unfold endsWith. change (len (str p)) with (Z.of_nat (length p)). change (len (str l)) with (Z.of_nat (length l)).
  set (b := u32 (Z.of_nat (length l) - Z.of_nat (length p))). pose proof (u32_range (Z.of_nat (length l) - Z.of_nat (length p))) as Hb.
  fold b in Hb. unfold is_u32 in Hb. rewrite substring_str by lia. outcome.
  rewrite equals_str; [|by apply text_take, text_drop|done]. f_equal. apply bool_decide_ext.
  destruct (decide (length p <= length l)%nat) as [Hle|Hgt].
  - rewrite <- suffix_by_drop by done. unfold b. wrap_small.
    replace (Z.to_nat (Z.of_nat (length l) - Z.of_nat (length p))) with (length l - length p)%nat by lia.
    rewrite take_ge; [done|]. rewrite length_drop. lia.
  - assert (Hbig : Z.of_nat (length l) <= b).
    { unfold b, u32. rewrite <- (Z.mod_add _ 1) by lia. rewrite Z.mod_small by lia. lia. }
    rewrite (drop_ge l) by lia. rewrite take_nil. split.
    + intros <-. simpl in Hgt. lia.
    + intros Hs%suffix_length. lia.
Qed.

(** ** Claims *)

(** [split] undoes [join]: joining strings that are not empty and do not
    contain the separator character, and splitting the result at it, gives the
    same strings back; both calls end with fuel for one round more than there
    are characters. *)
Theorem split_join_roundtrip (c : Z) (ws : list (list Z)) (fuel : nat)
    (Hws : Forall (fun w => w <> [] /\ c ∉ w) ws) (Hne : ws <> [])
    (Hl : Z.of_nat (length (joined [c] ws)) + 1 < 2 ^ 31) (Hn : Z.of_nat (length ws) < 2 ^ 32)
    (Hf : (length (joined [c] ws) < fuel)%nat) :
  (s ← join (str [c]) (strings ws); split fuel (str [c]) 0 s) = Ret (strings ws).
Proof.
  rewrite join_run by (done || lia). outcome. rewrite split_run by done. by rewrite words_joined.
Qed.

Lemma split_join_roundtrip_witness :
  (s ← join (str [47]) (strings [[97; 98]; [99]]); split 5 (str [47]) 0 s) = Ret (strings [[97; 98]; [99]]).
Proof.
  apply (split_join_roundtrip 47 [[97; 98]; [99]] 5).
  - apply (bool_decide_eq_true_1 _). vm_compute. reflexivity.
  - done.
  - simpl. lia.
  - simpl. lia.
  - simpl. lia.
Defined.

(** C34. These operations of [String] are those of lists of characters: copies and
    assignments keep the characters, [operator+] and [operator+=] concatenate,
    [operator==] decides equality, [substring] is a sublist cut at the end,
    [indexOf] of a text that is not empty finds its first occurrence behind
    [start], [beginsWith] and [endsWith] decide the prefix and suffix relations,
    [join] of at least one string puts the separator between them, and [split] at
    a character yields the non-empty pieces between these characters. Every result
    is terminated and has its length. [strip], [valueOf], [join] of no strings,
    [split] at the empty string and [+=] of a string with itself deviate, see
    below. *)
Theorem string_refines_list (l1 l2 : list Z)
    (H1 : text l1) (H2 : text l2) (Hl1 : Z.of_nat (length l1) + 1 < 2 ^ 30) (Hl2 : Z.of_nat (length l2) < 2 ^ 30) :
  String_copy (str l1) = Ret (str l1) /\ assign (str l1) = Ret (str l1) /\
  plus (str l1) (str l2) = Ret (str (l1 ++ l2)) /\ append (str l2) (str l1) = Ret (str (l1 ++ l2)) /\
  equals (str l1) (str l2) = Ret (bool_decide (l1 = l2)) /\
  (forall b e, 0 <= b -> substring b e (str l1) = Ret (str (take (Z.to_nat (e - b)) (drop (Z.to_nat b) l1)))) /\
  (forall start, l2 <> [] -> (start <= length l1)%nat ->
     indexOf (str l2) (Z.of_nat start) (str l1) = Ret (found_at (Z.of_nat start) (find_sub l2 (drop start l1)))) /\
  beginsWith (str l2) (str l1) = Ret (bool_decide (l2 `prefix_of` l1)) /\
  endsWith (str l2) (str l1) = Ret (bool_decide (l2 `suffix_of` l1)) /\
  (forall ws, ws <> [] -> Z.of_nat (length ws) < 2 ^ 32 -> Z.of_nat (length (joined l2 ws)) < 2 ^ 32 ->
     join (str l2) (strings ws) = Ret (str (joined l2 ws))) /\
  (forall c fuel, (length l1 < fuel)%nat -> split fuel (str [c]) 0 (str l1) = Ret (strings (words [c] l1))).
Proof.
  split_and!.
  - apply String_copy_str.
  - apply assign_str.
  - apply plus_str. lia.
  - apply append_str. lia.
  - by apply equals_str.
  - intros b e Hb. by apply substring_str.
  - intros start Hne Hs. apply indexOf_str; [done|done|lia].
  - by apply beginsWith_str.
  - apply endsWith_str; [done|done|lia|lia].
  - apply join_run.
  - intros c fuel Hf. apply split_run; [done|lia].
Qed.

Lemma string_refines_list_witness :
  indexOf (str [98]) 0 (str [97; 98]) = Ret 1 /\ split 3 (str [97]) 0 (str [97; 98]) = Ret (strings [[98]]) /\
  beginsWith (str []) (str [97; 98]) = Ret true.
Proof.
  destruct (string_refines_list [97; 98] [98]) as (_ & _ & _ & _ & _ & _ & E1 & _ & _ & _ & E2);
    [repeat constructor; lia|repeat constructor; lia|simpl; lia|simpl; lia|].
  destruct (string_refines_list [97; 98] []) as (_ & _ & _ & _ & _ & _ & _ & E3 & _);
    [repeat constructor; lia|constructor|simpl; lia|simpl; lia|].
  split_and!; [apply (E1 0%nat); [done|simpl; lia]|apply (E2 97 3%nat); simpl; lia|exact E3].
Defined.

(** ** Deviations *)

(** [strip] of a text of one character is empty, blanks around it or not. *)
Theorem strip_loses_single_character :
  strip (str [97]) = Ret (str []) /\ strip (str [32; 97; 32]) = Ret (str []) /\ strip (str [32; 97; 98]) = Ret (str [97; 98]).
Proof. split_and!; by vm_compute. Qed.

(** [strip] of the empty string reads far behind the buffer. *)
Theorem strip_empty_overreads : strip (str []) = Fault.
Proof.
  assert (E : char_of [0] (u32 (0 - 1)) = Fault).
  { unfold char_of. change (u32 (0 - 1) <? 0) with false. rewrite lookup_ge_None_2; [done|].
    change (u32 (0 - 1)) with (2 ^ 32 - 1). simpl length. lia. }
  change (strip (str [])) with (endIndex ← (c ← char_of [0] (u32 (0 - 1));
    if blank c then strip_back 0 (u32 (0 - 1) - 1) 0 (str []) else Ret (u32 (0 - 1)));
    if 0 =? endIndex then Ret (String_cstr (Some [])) else substring 0 (u32 (endIndex + 1)) (str [])).
  by rewrite E.
Qed.

(** [join] of no strings asks for the first one. *)
Theorem join_empty_throws sep : join (str sep) (strings []) = Throw OUT_OF_BOUNDS.
Proof. done. Qed.

(** Splitting at the empty string never ends: the position found does not move. *)
Theorem split_at_empty_diverges fuel : split fuel (str []) 0 (str [97]) = Diverge.
Proof.
  unfold split. change (len (str [97]) =? 0) with false. change (indexOf (str []) 0 (str [97])) with (Ret 0). outcome.
  assert (Hloop : split_loop fuel (str []) 0 0 0 new_ArrayList (str [97]) = Diverge); [|by rewrite Hloop].
  induction fuel as [|fuel IH]; [done|]. exact IH.
Qed.

(** 32 binary digits and the terminator do not fit into the 32 bytes of
    [valueOf]. *)
Theorem valueOf_binary_overflows : valueOf (2 ^ 31) 2 true = Fault.
Proof. by vm_compute. Qed.

(** Appending a string to itself overwrites the terminator before it is copied. *)
Theorem append_self_unterminated : append_self (str [97; 98]) = Ret (mkString 4 [97; 98; 97; 98; 97]).
Proof. by vm_compute. Qed.
