(* ===== verification/StringKeys.v ===== *)
(** * Strings as keys of maps

    What a [HashMap] with keys of type [String] uses of them: equality, and the
    conversion to [uint32_t] of [lib/string/String.cpp]. *)

From S2P Require Import Prelude CString KString Array Collections ArrayList HashMap.

(** The characters of a string. *)
Definition chars (s : String) : list Z := take (Z.to_nat (len s)) (buffer s).

Lemma chars_str l : chars (str l) = l.
Proof. unfold chars. cbn [str len buffer]. rewrite Nat2Z.id. apply take_app_length. Qed.

Lemma str_inj l1 l2 : str l1 = str l2 -> l1 = l2.
Proof. intros E. rewrite <- (chars_str l1), E. apply chars_str. Qed.

#[export] Program Instance String_countable : Countable String :=
  inj_countable (fun s => (len s, buffer s)) (fun p => Some (mkString p.1 p.2)) _.
Next Obligation. by intros []. Qed.

#[export] Program Instance Pair_countable {T U} `{Countable T} `{Countable U} : Countable (Pair T U) :=
  inj_countable (fun p => (first p, second p)) (fun p => Some (mkPair p.1 p.2)) _.
Next Obligation. by intros ? ? ? ? ? ? []. Qed.

Definition hash_of (s : String) : Z := foldl (fun hash c => u32 (hash + schar c)) 0 (chars s).

Lemma hash_of_range s : is_u32 (hash_of s).
Proof.
  unfold hash_of. destruct (chars s) as [|c l _] using rev_ind; [done|]. rewrite foldl_app. apply u32_range.
Qed.

(** The conversion to [uint32_t] of a string that is in order. *)
#[export] Instance String_ToU32 : ToU32 String := {| to_u32 := hash_of; to_u32_range := hash_of_range |}.

Lemma hash_loop_run l1 l2 h : hash_loop (length l2) (Z.of_nat (length l1)) h (str (l1 ++ l2)) = Ret (foldl (fun hash c => u32 (hash + schar c)) h l2).
Proof.
  revert l1 h. induction l2 as [|c l2 IH]; intros l1 h; [done|]. cbn [length hash_loop foldl].
  assert (E : char_of (buffer (str (l1 ++ c :: l2))) (Z.of_nat (length l1)) = Ret c).
  { unfold char_of. cbn [str buffer]. rewrite <- app_assoc. decide_bool. rewrite Nat2Z.id. by rewrite lookup_app_r, Nat.sub_diag by lia. }
  rewrite E. outcome. specialize (IH (l1 ++ [c]) (u32 (h + schar c))). rewrite <- app_assoc in IH. simpl in IH.
  replace (Z.of_nat (length l1) + 1) with (Z.of_nat (length (l1 ++ [c]))) by (rewrite length_app; simpl; lia). exact IH.
Qed.

(** The hash the code computes. *)
Lemma to_uint32_hash l : to_uint32 (str l) = Ret (hash_of (str l)).
Proof. unfold to_uint32, hash_of. rewrite chars_str. cbn [str len]. rewrite Nat2Z.id. apply (hash_loop_run []). Qed.
