(* ===== verification/RamFs.v ===== *)
(** * The file system in memory

    [filesystem/ram]: [VirtualNode], [RamFsNode] and [RamFsDriver]. The nodes are
    objects on the heap: a map from addresses to nodes, 0 being the null
    pointer; using an address that is not in the map, after a [delete] for
    instance, is a fault. The address of a new node is an argument. *)

From S2P Require Import Prelude CString KString Array Collections ArrayList StringKeys.

Definition u64 (x : Z) : Z := x mod 2 ^ 64.

(** [FsNode::FileType] *)
Definition REGULAR_FILE : Z := 1.
Definition BLOCK_FILE : Z := 2.
Definition CHAR_FILE : Z := 3.
Definition DIRECTORY_FILE : Z := 4.

Definition END_OF_FILE : Z := 4.

(** ** [VirtualNode] *)

Record VirtualNode := mkNode {
  name : String;
  fileType : Z;
  length_of : Z;
  data : list Z;
  children : ArrayList Z
}.

Definition set_children (c : ArrayList Z) (n : VirtualNode) : VirtualNode :=
  mkNode (name n) (fileType n) (length_of n) (data n) c.

Definition set_data (l : Z) (d : list Z) (n : VirtualNode) : VirtualNode :=
  mkNode (name n) (fileType n) l d (children n).

Record RamFsDriver := mkRamFs { rootNode : Z; nodes : gmap Z VirtualNode }.

Definition set_nodes (m : gmap Z VirtualNode) (fs : RamFsDriver) : RamFsDriver := mkRamFs (rootNode fs) m.

(** What pointers in fresh slots hold is not known. *)
Section Operations.
Context `{Junk Z}.

(** The name is copied. *)
Definition new_VirtualNode (name : String) (fileType : Z) : outcome VirtualNode :=
  name ← String_copy name; Ret (mkNode name fileType 0 [] new_ArrayList).

Definition getName (n : VirtualNode) : outcome String := String_copy (name n).

(** [dst[i] = src[from + i]] for [i] below [k]. *)
Fixpoint copy_bytes (k : nat) (i : nat) (from : Z) (src dst : list Z) : outcome (list Z) :=
  match k with
  | O => Ret dst
  | S k =>
      c ← or_fault (src !! Z.to_nat (from + Z.of_nat i));
      if (i <? length dst)%nat then copy_bytes k (S i) from src (<[i := c]> dst) else Fault
  end.

(** [data[i + pos] = buf[i]] for [i] below [k]. *)
Fixpoint store_bytes (k : nat) (i : nat) (pos : Z) (buf data : list Z) : outcome (list Z) :=
  match k with
  | O => Ret data
  | S k =>
      c ← or_fault (buf !! i);
      if (Z.to_nat (Z.of_nat i + pos) <? length data)%nat
      then store_bytes k (S i) pos buf (<[Z.to_nat (Z.of_nat i + pos) := c]> data) else Fault
  end.

(** The number of bytes read and the buffer. *)
Definition readData (n : VirtualNode) (buf : list Z) (pos numBytes : Z) : outcome (Z * list Z) :=
  if length_of n <=? pos then Ret (0, buf)
  else
    let numBytes := if length_of n <? u64 (pos + numBytes) then length_of n - pos else numBytes in
    buf ← copy_bytes (Z.to_nat numBytes) 0 pos (data n) buf;
    Ret (numBytes, buf).

(** The loop counter has 32 bits: it never reaches a larger bound. *)
Definition writeData (n : VirtualNode) (buf : list Z) (pos numBytes : Z) : outcome (Z * VirtualNode) :=
  n ← (if length_of n <=? u64 (pos + numBytes) then
         let newData := replicate (Z.to_nat (u64 (pos + numBytes))) 0 in
         newData ← copy_bytes (Z.to_nat (length_of n)) 0 0 (data n) newData;
         Ret (set_data (u64 (pos + numBytes)) newData n)
       else Ret n);
  if 2 ^ 32 <=? numBytes then Diverge
  else
    d ← store_bytes (Z.to_nat numBytes) 0 pos buf (data n);
    Ret (numBytes, set_data (length_of n) d n).

(** ** [RamFsDriver] *)

(** [*p] *)
Definition node_at (m : gmap Z VirtualNode) (p : Z) : outcome VirtualNode := or_fault (m !! p).

(** [delete p]: the destructor deletes the children first. *)
Fixpoint destroy (fuel : nat) (p : Z) (m : gmap Z VirtualNode) : outcome (gmap Z VirtualNode) :=
  match fuel with
  | O => Diverge
  | S fuel =>
      n ← node_at m p;
      cs ← toArray (children n);
      m ← foldM (destroy fuel) (array cs) m;
      Ret (base.delete p m)
  end.

Definition SEPARATOR : String := String_cstr (Some [47]).

Fixpoint child_loop (k : nat) (i : Z) (cs : ArrayList Z) (path : String) (m : gmap Z VirtualNode) : outcome Z :=
  match k with
  | O => Diverge
  | S k =>
      if i <? size cs then
        c ← get i cs;
        n ← node_at m c;
        s ← getName n;
        same ← equals s path;
        if (same : bool) then get i cs else child_loop k (i + 1) cs path m
      else Ret 0
  end.

Definition getChildByName (parent : Z) (path : String) (m : gmap Z VirtualNode) : outcome Z :=
  n ← node_at m parent;
  child_loop (S (Z.to_nat (size (children n)))) 0 (children n) path m.

(** [for (i = 0; i < bound; i++)] over the tokens; [None] leaves the function. *)
Fixpoint descend (k : nat) (i bound : Z) (token : Array String) (currentDir : Z) (m : gmap Z VirtualNode)
    : outcome (option Z) :=
  match k with
  | O => Diverge
  | S k =>
      if i <? bound then
        t ← at_ token i;
        currentDir ← getChildByName currentDir t m;
        if currentDir =? 0 then Ret None
        else
          n ← node_at m currentDir;
          if fileType n =? DIRECTORY_FILE then descend k (i + 1) bound token currentDir m else Ret None
      else Ret (Some currentDir)
  end.

(** [mount]: [root] is the address of the new root node. *)
Definition mount (root : Z) (fs : RamFsDriver) : outcome (bool * RamFsDriver) :=
  n ← new_VirtualNode (String_cstr (Some [47])) DIRECTORY_FILE;
  Ret (true, mkRamFs root (<[root := n]> (nodes fs))).

(** The node a [RamFsNode] is made for; 0 for the null pointer. *)
Definition getNode (fuel : nat) (path : String) (fs : RamFsDriver) : outcome Z :=
  if String_length path =? 0 then Ret (rootNode fs)
  else
    token ← split fuel SEPARATOR 0 path;
    if length_ token =? 0 then Ret (rootNode fs)
    else
      let last := u32 (length_ token - 1) in
      d ← descend (S (Z.to_nat (length_ token))) 0 last token (rootNode fs) (nodes fs);
      match d with
      | None => Ret 0
      | Some currentDir => t ← at_ token last; getChildByName currentDir t (nodes fs)
      end.

(** [node] is an object that exists already. *)
Definition addNode (fuel : nat) (path : String) (node : Z) (fs : RamFsDriver) : outcome (bool * RamFsDriver) :=
  token ← split fuel SEPARATOR 0 path;
  d ← descend (S (Z.to_nat (length_ token))) 0 (length_ token) token (rootNode fs) (nodes fs);
  match d with
  | None => Ret (false, fs)
  | Some currentDir =>
      n ← node_at (nodes fs) node;
      s ← getName n;
      c ← getChildByName currentDir s (nodes fs);
      if negb (c =? 0) then Ret (false, fs)
      else
        d ← node_at (nodes fs) currentDir;
        r ← add node (children d);
        Ret (true, set_nodes (<[currentDir := set_children (snd r) d]> (nodes fs)) fs)
  end.

(** [new_] is the address of the new node. *)
Definition createNode (fuel : nat) (new_ : Z) (path : String) (fileType : Z) (fs : RamFsDriver)
    : outcome (bool * RamFsDriver) :=
  token ← split fuel SEPARATOR 0 path;
  if (0 <? String_length path) && (length_ token =? 0) then Ret (false, fs)
  else
    let last := u32 (length_ token - 1) in
    d ← descend (S (Z.to_nat (length_ token))) 0 last token (rootNode fs) (nodes fs);
    match d with
    | None => Ret (false, fs)
    | Some currentDir =>
        t ← at_ token last;
        c ← getChildByName currentDir t (nodes fs);
        if negb (c =? 0) then Ret (false, fs)
        else
          newNode ← new_VirtualNode t fileType;
          let m := <[new_ := newNode]> (nodes fs) in
          d ← node_at m currentDir;
          r ← add new_ (children d);
          Ret (true, set_nodes (<[currentDir := set_children (snd r) d]> m) fs)
    end.

Definition deleteNode (fuel : nat) (path : String) (fs : RamFsDriver) : outcome (bool * RamFsDriver) :=
  token ← split fuel SEPARATOR 0 path;
  if (0 <? String_length path) && (length_ token =? 0) then Ret (false, fs)
  else
    let last := u32 (length_ token - 1) in
    d ← descend (S (Z.to_nat (length_ token))) 0 last token (rootNode fs) (nodes fs);
    match d with
    | None => Ret (false, fs)
    | Some currentDir =>
        t ← at_ token last;
        node ← getChildByName currentDir t (nodes fs);
        if node =? 0 then Ret (false, fs)
        else
          n ← node_at (nodes fs) node;
          if negb (isEmpty (children n)) then
            m ← destroy fuel node (nodes fs);
            Ret (false, set_nodes m fs)
          else
            d ← node_at (nodes fs) currentDir;
            r ← remove node (children d);
            m ← destroy fuel node (<[currentDir := set_children (snd r) d]> (nodes fs));
            Ret (true, set_nodes m fs)
    end.

(** ** [RamFsNode] *)

Fixpoint names_loop (k : nat) (i : Z) (cs : ArrayList Z) (m : gmap Z VirtualNode) (ret : Array String) : outcome (Array String) :=
  match k with
  | O => Diverge
  | S k =>
      if i <? size cs then
        c ← get i cs;
        n ← node_at m c;
        s ← getName n;
        ret ← put ret i s;
        names_loop k (i + 1) cs m ret
      else Ret ret
  end.

Definition getChildren (node : Z) (m : gmap Z VirtualNode) : outcome (Array String) :=
  n ← node_at m node;
  names_loop (S (Z.to_nat (size (children n)))) 0 (children n) m (new_Array (size (children n))).

(** The end of the file is marked in the buffer. *)
Definition ram_readData (n : VirtualNode) (buf : list Z) (pos numBytes : Z) : outcome (Z * list Z) :=
  '(readBytes, buf) ← readData n buf pos numBytes;
  if readBytes <? numBytes then
    if (Z.to_nat readBytes <? length buf)%nat then Ret (readBytes, <[Z.to_nat readBytes := END_OF_FILE]> buf) else Fault
  else Ret (readBytes, buf).

End Operations.

(** ** The tree of names *)

Section Tree.
Implicit Types (m : gmap Z VirtualNode) (n : VirtualNode) (a c : Z) (x : list Z) (p : list (list Z)).

(** The children of a node and its name. *)
Definition kids n : list Z := al_view (children n).
Definition title m c : option (list Z) := (fun n => chars (name n)) <$> m !! c.
Definition kind m c : option Z := fileType <$> m !! c.

(** What the node at an address holds: its type and its bytes. *)
Definition stored m c : option (Z * list Z) := (fun n => (fileType n, data n)) <$> m !! c.

(** [c] is a child of [a]. *)
Definition child_of m a c : Prop := exists n, m !! a = Some n /\ c ∈ kids n.

Definition child m a x : option Z :=
  match m !! a with
  | Some n => snd <$> list_find (fun c => title m c = Some x) (kids n)
  | None => None
  end.

(** The node a path of names leads to. *)
Fixpoint resolve m a p : option Z :=
  match p with
  | [] => Some a
  | x :: p => match child m a x with Some c => resolve m c p | None => None end
  end.

Record node_ok m n : Prop := {
  ok_list : al_wf (children n) /\ al_length (children n) < 2 ^ 31 - 1;
  ok_name : exists l, text l /\ name n = str l;
  ok_nodup : NoDup (kids n);
  ok_exist : Forall (fun c => c <> 0 /\ is_Some (m !! c)) (kids n);
  ok_leaf : fileType n <> DIRECTORY_FILE -> kids n = [];
  ok_names : forall c1 c2, c1 ∈ kids n -> c2 ∈ kids n -> title m c1 = title m c2 -> c1 = c2
}.

(** Every node is in order, none has two parents and the root has none. *)
Record tree_ok m r : Prop := {
  tree_root : kind m r = Some DIRECTORY_FILE /\ r <> 0;
  tree_nodes : forall a n, m !! a = Some n -> node_ok m n;
  tree_parent : forall a b c, child_of m a c -> child_of m b c -> a = b;
  tree_orphan : forall a, ~ child_of m a r
}.

Lemma title_child m n c : node_ok m n -> c ∈ kids n -> exists n', m !! c = Some n' /\ title m c = Some (chars (name n')).
Proof.
  intros Hok Hc. pose proof (ok_exist _ _ Hok) as He. rewrite Forall_forall in He. destruct (He c Hc) as [_ [n' Hn']].
  exists n'. unfold title. by rewrite Hn'.
Qed.

Lemma child_spec m a x c :
  (forall n, m !! a = Some n -> node_ok m n) ->
  child m a x = Some c <-> child_of m a c /\ title m c = Some x.
Proof.
  intros Hok. unfold child, child_of. destruct (m !! a) as [n|] eqn:Ea; [|naive_solver].
  specialize (Hok n eq_refl). split.
  - destruct (list_find _ (kids n)) as [[i c']|] eqn:E; [|done]. intros [= <-]. apply list_find_Some in E as (Hi & Ht & _).
    split; [|done]. exists n. split; [done|]. by eapply list_elem_of_lookup_2.
  - intros [(n' & [= <-] & Hc) Ht].
    destruct (list_find (fun c => title m c = Some x) (kids n)) as [[i c']|] eqn:E.
    + apply list_find_Some in E as (Hi & Ht' & _). simpl. f_equal.
      apply (ok_names _ _ Hok); [by eapply list_elem_of_lookup_2|done|congruence].
    + apply list_find_None in E. rewrite Forall_forall in E. by destruct (E c Hc).
Qed.

Lemma resolve_app m a p q : resolve m a (p ++ q) = (b ← resolve m a p; resolve m b q).
Proof. revert a. induction p as [|x p IH]; intros a; [done|]. simpl. destruct (child m a x); [apply IH|done]. Qed.

Lemma resolve_snoc m a p x : resolve m a (p ++ [x]) = (b ← resolve m a p; child m b x).
Proof. rewrite resolve_app. destruct (resolve m a p) as [b|]; [|done]. simpl. by destruct (child m b x). Qed.

(** Only one path leads to a node. *)
Lemma resolve_inj m r p q a : tree_ok m r -> resolve m r p = Some a -> resolve m r q = Some a -> p = q.
Proof.
  intros Hok. revert q a. induction p as [|x p IH] using rev_ind; intros q a Hp Hq.
  - injection Hp as <-. destruct q as [|y q _] using rev_ind; [done|]. rewrite resolve_snoc in Hq.
    destruct (resolve m r q) as [b|]; [|done]. simpl in Hq. apply child_spec in Hq as [Hc _]; [|apply (tree_nodes _ _ Hok)].
    by destruct (tree_orphan _ _ Hok b).
  - rewrite resolve_snoc in Hp. destruct (resolve m r p) as [b|] eqn:Eb; [|done]. simpl in Hp.
    apply child_spec in Hp as [Hc Ht]; [|apply (tree_nodes _ _ Hok)].
    destruct q as [|y q _] using rev_ind.
    { injection Hq as <-. by destruct (tree_orphan _ _ Hok b). }
    rewrite resolve_snoc in Hq. destruct (resolve m r q) as [b'|] eqn:Eb'; [|done]. simpl in Hq.
    apply child_spec in Hq as [Hc' Ht']; [|apply (tree_nodes _ _ Hok)].
    assert (b' = b) as -> by (by eapply (tree_parent _ _ Hok)). rewrite (IH q b) by done. congruence.
Qed.

Lemma resolve_exists m r p a : tree_ok m r -> resolve m r p = Some a -> is_Some (m !! a) /\ a <> 0.
Proof.
  intros Hok. destruct p as [|x p _] using rev_ind.
  - intros [= <-]. destruct (tree_root _ _ Hok) as [Hk ?]. unfold kind in Hk. split; [|done]. destruct (m !! r); [done|done].
  - rewrite resolve_snoc. destruct (resolve m r p) as [b|]; [|done]. simpl. intros Hc.
    apply child_spec in Hc as [(n & Hn & Hc) _]; [|apply (tree_nodes _ _ Hok)].
    pose proof (ok_exist _ _ (tree_nodes _ _ Hok _ _ Hn)) as He. rewrite Forall_forall in He. by destruct (He a Hc).
Qed.
End Tree.

(** ** Running the searches *)

Section Searches.
Context `{Junk Z}.
Implicit Types (m : gmap Z VirtualNode) (n : VirtualNode) (a c : Z) (x : list Z) (p ws : list (list Z)).

Lemma child_loop_run m n x : forall k (i : nat),
  (forall a n, m !! a = Some n -> node_ok m n) -> node_ok m n -> text x ->
  (i <= length (kids n))%nat -> (length (kids n) - i < k)%nat ->
  child_loop k (Z.of_nat i) (children n) (str x) m =
    Ret (default 0 (snd <$> list_find (fun c => title m c = Some x) (drop i (kids n)))).
Proof.
  induction k as [|k IH]; intros i Hall Hok Hx Hi Hk; [lia|]. cbn [child_loop].
  pose proof (proj1 (ok_list _ _ Hok)) as Hwf. pose proof (length_al_view _ Hwf) as Hlen. unfold size. fold (kids n) in Hlen. rewrite <- Hlen.
  destruct (drop i (kids n)) as [|c r] eqn:Ed.
  { apply (f_equal length) in Ed. rewrite length_drop in Ed. simpl in Ed. by decide_bool. }
  assert (Hc : kids n !! i = Some c).
  { assert (Hx0 : drop i (kids n) !! 0%nat = Some c) by (by rewrite Ed). by rewrite lookup_drop, Nat.add_0_r in Hx0. }
  pose proof (lookup_lt_Some _ _ _ Hc). decide_bool. rewrite (get_spec _ _ _ Hwf Hc). outcome.
  destruct (title_child m n c Hok) as (n' & Hn' & Ht); [by eapply list_elem_of_lookup_2|].
  unfold node_at. rewrite Hn'. outcome. destruct (ok_name _ _ (Hall _ _ Hn')) as (l & Hl & Hname).
  unfold getName. rewrite Hname, String_copy_str. outcome. rewrite equals_str by done. outcome.
  rewrite Hname, chars_str in Ht. cbn [list_find]. destruct (decide (title m c = Some x)) as [Hs|Hs].
  - by rewrite bool_decide_true by congruence.
  - rewrite bool_decide_false by congruence. replace (Z.of_nat i + 1) with (Z.of_nat (S i)) by lia. rewrite IH by (done || lia).
    replace (drop (S i) (kids n)) with r.
    + by destruct (list_find _ r) as [[? ?]|].
    + rewrite <- Nat.add_1_r, <- drop_drop, Ed. done.
Qed.

Lemma getChildByName_run m r a x :
  tree_ok m r -> is_Some (m !! a) -> text x ->
  getChildByName a (str x) m = Ret (default 0 (child m a x)).
Proof.
  intros Hok [n Hn] Hx. unfold getChildByName, child, node_at. rewrite Hn. outcome.
  pose proof (tree_nodes _ _ Hok) as Hall. pose proof (proj1 (ok_list _ _ (Hall _ _ Hn))) as Hwf.
  pose proof (length_al_view _ Hwf) as Hlen. fold (kids n) in Hlen.
  pose proof (child_loop_run m n x (S (Z.to_nat (size (children n)))) 0 Hall (Hall _ _ Hn) Hx) as E.
  change (Z.of_nat 0) with 0 in E. rewrite drop_0 in E. apply E; unfold size; lia.
Qed.

(** Going down through directories only. *)
Fixpoint walk_dirs m a p : option Z :=
  match p with
  | [] => Some a
  | x :: p =>
      match child m a x with
      | Some c => if decide (kind m c = Some DIRECTORY_FILE) then walk_dirs m c p else None
      | None => None
      end
  end.

Lemma walk_dirs_resolve m r p : forall a,
  tree_ok m r -> kind m a = Some DIRECTORY_FILE ->
  walk_dirs m a p = (d ← resolve m a p; if decide (kind m d = Some DIRECTORY_FILE) then Some d else None).
Proof.
  induction p as [|x p IH]; intros a Hok Ha; simpl.
  - by rewrite decide_True.
  - destruct (child m a x) as [c|] eqn:Ec; [|done]. destruct (decide (kind m c = Some DIRECTORY_FILE)) as [Hd|Hd]; [by apply IH|].
    destruct p as [|y p]; simpl; [by rewrite decide_False|].
    apply child_spec in Ec as [(n & Hn & Hc) Ht]; [|apply (tree_nodes _ _ Hok)].
    unfold child. destruct (m !! c) as [nc|] eqn:Enc; [|done]. unfold kind in Hd. rewrite Enc in Hd.
    rewrite (ok_leaf _ _ (tree_nodes _ _ Hok _ _ Enc)); [done|]. intros Hdir. apply Hd. simpl. congruence.
Qed.

Lemma child_in_tree m r a x c : tree_ok m r -> child m a x = Some c -> is_Some (m !! c) /\ c <> 0.
Proof.
  intros Hok Hc. apply child_spec in Hc as [(n & Hn & Hc) _]; [|apply (tree_nodes _ _ Hok)].
  pose proof (ok_exist _ _ (tree_nodes _ _ Hok _ _ Hn)) as He. rewrite Forall_forall in He. by destruct (He c Hc).
Qed.

Lemma descend_run m r ws : forall k (i b : nat) a,
  tree_ok m r -> Forall text ws -> is_Some (m !! a) -> (i <= b <= length ws)%nat -> (b - i < k)%nat ->
  descend k (Z.of_nat i) (Z.of_nat b) (strings ws) a m = Ret (walk_dirs m a (take (b - i) (drop i ws))).
Proof.
  induction k as [|k IH]; intros i b a Hok Hws Ha Hi Hk; [lia|]. cbn [descend].
  destruct (decide (i = b)) as [->|Hne].
  { rewrite Nat.sub_diag. by decide_bool. }
  decide_bool. destruct (drop i ws) as [|w rest] eqn:Ed.
  { apply (f_equal length) in Ed. rewrite length_drop in Ed. simpl in Ed. lia. }
  assert (Hw : ws !! i = Some w).
  { assert (Hx0 : drop i ws !! 0%nat = Some w) by (by rewrite Ed). by rewrite lookup_drop, Nat.add_0_r in Hx0. }
  assert (Hrest : drop (S i) ws = rest) by (rewrite <- Nat.add_1_r, <- drop_drop, Ed; done).
  rewrite (strings_at ws i w Hw). outcome. assert (Htw : text w) by (by eapply (proj1 (Forall_lookup _ _) Hws)).
  rewrite (getChildByName_run m r a w) by done. outcome. replace (b - i)%nat with (S (b - S i)) by lia. cbn [take walk_dirs].
  destruct (child m a w) as [c|] eqn:Ec; [|done]. destruct (child_in_tree m r a w c Hok Ec) as [[n Hn] Hc0]. simpl.
  decide_bool. destruct (Z.eqb_spec c 0); [done|]. unfold node_at. rewrite Hn. outcome. unfold kind. rewrite Hn. simpl.
  destruct (Z.eqb_spec (fileType n) DIRECTORY_FILE) as [Hd|Hd].
  - rewrite decide_True by congruence. replace (Z.of_nat i + 1) with (Z.of_nat (S i)) by lia. rewrite IH; try done; [|lia|lia].
    by rewrite Hrest.
  - by rewrite decide_False by congruence.
Qed.
End Searches.

(** ** Adding and removing a leaf *)

Section Updates.
Implicit Types (m : gmap Z VirtualNode) (n : VirtualNode) (a c : Z) (x : list Z) (p ws : list (list Z)).

Lemma option_ext {A} (o1 o2 : option A) : (forall v, o1 = Some v <-> o2 = Some v) -> o1 = o2.
Proof. intros Hx. destruct o1 as [a|], o2 as [b|]; naive_solver. Qed.

Lemma lookup_unowned m r a c : tree_ok m r -> m !! c = None -> ~ child_of m a c.
Proof.
  intros Hok Hc (n & Hn & Hin). pose proof (ok_exist _ _ (tree_nodes _ _ Hok _ _ Hn)) as He. rewrite Forall_forall in He.
  destruct (He c Hin) as [_ [? ?]]. congruence.
Qed.

(** [new] becomes a child of the directory [d]. *)
Section Insert.
Context (m : gmap Z VirtualNode) (r d : Z) (nd : VirtualNode) (new : Z) (nn : VirtualNode) (x : list Z) (al' : ArrayList Z).
Context (Hok : tree_ok m r) (Hd : m !! d = Some nd) (Hdir : fileType nd = DIRECTORY_FILE).
Context (Hnew : m !! new = None) (Hnew0 : new <> 0) (Hfree : child m d x = None).
Context (Hname : name nn = str x) (Hx : text x) (Hleaf : children nn = new_ArrayList).
Context (Hal : al_wf al') (Hview : al_view al' = kids nd ++ [new]) (Hroom : al_length (children nd) < 2 ^ 31 - 2).

Let m' : gmap Z VirtualNode := <[d := set_children al' nd]> (<[new := nn]> m).

Lemma ins_ne : d <> new.
Proof. intros ->. congruence. Qed.

Lemma ins_lookup a n : m' !! a = Some n ->
  (a = d /\ n = set_children al' nd) \/ (a = new /\ n = nn) \/ (a <> d /\ a <> new /\ m !! a = Some n).
Proof.
  unfold m'. destruct (decide (a = d)) as [->|Had].
  - rewrite lookup_insert_eq. intros [= <-]. by left.
  - rewrite lookup_insert_ne by done. destruct (decide (a = new)) as [->|Han].
    + rewrite lookup_insert_eq. intros [= <-]. by right; left.
    + rewrite lookup_insert_ne by done. by right; right.
Qed.

Lemma ins_old a : a <> new -> title m' a = title m a /\ kind m' a = kind m a.
Proof.
  intros Ha. unfold title, kind, m'. destruct (decide (a = d)) as [->|Had].
  - rewrite lookup_insert_eq, Hd. done.
  - rewrite !lookup_insert_ne by done. done.
Qed.

Lemma ins_new : title m' new = Some x /\ kind m' new = Some (fileType nn).
Proof.
  pose proof ins_ne. unfold title, kind, m'. rewrite lookup_insert_ne, lookup_insert_eq by done. simpl.
  by rewrite Hname, chars_str.
Qed.

Lemma ins_stored a : stored m' a = if decide (a = new) then Some (fileType nn, data nn) else stored m a.
Proof.
  pose proof ins_ne. unfold stored, m'. destruct (decide (a = new)) as [->|Ha].
  - by rewrite lookup_insert_ne, lookup_insert_eq by done.
  - destruct (decide (a = d)) as [->|Had]; [by rewrite lookup_insert_eq, Hd|by rewrite !lookup_insert_ne by done].
Qed.

Lemma ins_kids : kids (set_children al' nd) = kids nd ++ [new] /\ kids nn = [].
Proof. split; [exact Hview|]. unfold kids. by rewrite Hleaf. Qed.

Lemma ins_child_of a c : child_of m' a c <-> child_of m a c \/ (a = d /\ c = new).
Proof.
  pose proof ins_ne. destruct ins_kids as [Hk Hkn]. unfold child_of, m'. split.
  - intros (n & Hn & Hc). apply ins_lookup in Hn as [[-> ->]|[[-> ->]|(? & ? & Hn)]].
    + rewrite Hk in Hc. apply elem_of_app in Hc as [Hc|Hc%list_elem_of_singleton]; [left; eauto|by right].
    + rewrite Hkn in Hc. by apply elem_of_nil in Hc.
    + left. eauto.
  - intros [(n & Hn & Hc)|[-> ->]].
    + destruct (decide (a = d)) as [->|Had].
      * exists (set_children al' nd). rewrite lookup_insert_eq. split; [done|]. rewrite Hk. apply elem_of_app. left. congruence.
      * exists n. rewrite !lookup_insert_ne by (congruence || done). done.
    + exists (set_children al' nd). rewrite lookup_insert_eq. split; [done|]. rewrite Hk. apply elem_of_app. right. by apply list_elem_of_singleton.
Qed.

Lemma ins_exists c : is_Some (m !! c) -> is_Some (m' !! c).
Proof.
  intros [n Hn]. unfold m'. destruct (decide (c = d)) as [->|]; [rewrite lookup_insert_eq; eauto|].
  rewrite lookup_insert_ne by done. destruct (decide (c = new)) as [->|]; [rewrite lookup_insert_eq; eauto|].
  rewrite lookup_insert_ne by done. eauto.
Qed.

(** What holds for a node stays true for it. *)
Lemma ins_node_ok a n : m !! a = Some n -> a <> d -> node_ok m' n.
Proof.
  intros Hn Had. pose proof (tree_nodes _ _ Hok _ _ Hn) as [Hl Hna Hnd He Hlf Hnm]. constructor; try done.
  - eapply Forall_impl; [done|]. intros c [? ?]. split; [done|]. by apply ins_exists.
  - intros c1 c2 H1 H2. rewrite Forall_forall in He.
    assert (c1 <> new /\ c2 <> new) as [? ?] by (split; intros ->; [destruct (He new H1) as [_ [? ?]]|destruct (He new H2) as [_ [? ?]]]; congruence).
    rewrite (proj1 (ins_old c1 ltac:(done))), (proj1 (ins_old c2 ltac:(done))). by apply Hnm.
Qed.

Lemma ins_fresh_name c : c ∈ kids nd -> title m c <> Some x.
Proof.
  intros Hc Ht. assert (child m d x = Some c); [|congruence]. apply child_spec; [apply (tree_nodes _ _ Hok)|].
  split; [|done]. exists nd. done.
Qed.

Lemma ins_dir_ok : node_ok m' (set_children al' nd).
Proof.
  pose proof (tree_nodes _ _ Hok _ _ Hd) as [Hl Hna Hnd He Hlf Hnm]. destruct ins_kids as [Hk _]. rewrite Forall_forall in He.
  assert (Hnot : new ∉ kids nd) by (intros Hin; destruct (He new Hin) as [_ [? ?]]; congruence).
  constructor; rewrite ?Hk; try done.
  - split; [done|]. cbn [children set_children]. pose proof (length_al_view _ Hal) as H1. pose proof (length_al_view _ (proj1 Hl)) as H2.
    rewrite Hview, length_app in H1. fold (kids nd) in H2. simpl in H1. lia.
  - apply NoDup_app. split; [done|]. split; [|by apply NoDup_singleton]. by intros c Hc ->%list_elem_of_singleton.
  - apply Forall_app. split; [|apply Forall_singleton; split; [done|]].
    + apply Forall_forall. intros c Hc. destruct (He c Hc). split; [done|]. by apply ins_exists.
    + unfold m'. rewrite lookup_insert_ne, lookup_insert_eq by apply ins_ne. eauto.
  - intros c1 c2 H1 H2. apply elem_of_app in H1, H2. setoid_rewrite list_elem_of_singleton in H1. setoid_rewrite list_elem_of_singleton in H2.
    destruct H1 as [H1| ->], H2 as [H2| ->]; [| | |done].
    + assert (c1 <> new /\ c2 <> new) as [? ?] by (split; congruence).
      rewrite (proj1 (ins_old c1 ltac:(done))), (proj1 (ins_old c2 ltac:(done))). by apply Hnm.
    + assert (c1 <> new) by congruence. rewrite (proj1 (ins_old c1 ltac:(done))), (proj1 ins_new). intros Ht. by destruct (ins_fresh_name c1 H1).
    + assert (c2 <> new) by congruence. rewrite (proj1 (ins_old c2 ltac:(done))), (proj1 ins_new). intros Ht. by destruct (ins_fresh_name c2 H2).
Qed.

Lemma ins_tree_ok : tree_ok m' r.
Proof.
  assert (Hr : r <> new).
  { intros ->. destruct (tree_root _ _ Hok) as [Hk _]. unfold kind in Hk. by rewrite Hnew in Hk. }
  constructor.
  - rewrite (proj2 (ins_old r Hr)). apply (tree_root _ _ Hok).
  - intros a n Hn. apply ins_lookup in Hn as [[-> ->]|[[-> ->]|(? & ? & Hn)]]; [apply ins_dir_ok| |by eapply ins_node_ok].
    destruct ins_kids as [_ Hkn]. constructor; rewrite ?Hkn; try done.
    + rewrite Hleaf. split; [by constructor|]. done.
    + by exists x.
    + by apply NoDup_nil.
    + by intros ? ? ?%elem_of_nil.
  - intros a b c Ha Hb. apply ins_child_of in Ha as [Ha|[-> ->]], Hb as [Hb|[-> Hc]]; try done.
    + by eapply (tree_parent _ _ Hok).
    + subst c. by destruct (lookup_unowned m r a new).
    + by destruct (lookup_unowned m r b new).
  - intros a Ha. apply ins_child_of in Ha as [Ha|[-> ->]]; [|done]. by apply (tree_orphan _ _ Hok) in Ha.
Qed.

Lemma ins_child b y : b <> new -> ~ (b = d /\ y = x) -> child m' b y = child m b y.
Proof.
  intros Hb Hby. apply option_ext. intros c. rewrite !child_spec; [|apply (tree_nodes _ _ Hok)|apply (tree_nodes _ _ ins_tree_ok)].
  rewrite ins_child_of. destruct (decide (c = new)) as [->|Hc].
  - rewrite (proj1 ins_new). pose proof (lookup_unowned m r b new Hok Hnew). naive_solver.
  - rewrite (proj1 (ins_old c Hc)). naive_solver.
Qed.

(** Exactly one path is new. *)
Lemma ins_resolve p q :
  resolve m r p = Some d -> resolve m' r q = if decide (q = p ++ [x]) then Some new else resolve m r q.
Proof.
  intros Hp. induction q as [|y q IH] using rev_ind.
  - rewrite decide_False; [done|]. by destruct p.
  - rewrite !resolve_snoc, IH. destruct (decide (q = p ++ [x])) as [->|Hq].
    + simpl. rewrite decide_False by (intros [Hl _]%app_inj_2; [apply (f_equal length) in Hl; rewrite length_app in Hl; simpl in Hl; lia|done]).
      rewrite resolve_snoc, Hp. simpl. rewrite Hfree. simpl. unfold child. destruct (m' !! new) as [n|] eqn:En; [|done].
      apply ins_lookup in En as [[? _]|[[_ ->]|(_ & ? & _)]]; [by destruct ins_ne| |done]. by rewrite (proj2 ins_kids).
    + destruct (resolve m r q) as [b|] eqn:Eb; simpl.
      2:{ rewrite decide_False; [done|]. intros [-> _]%app_inj_2; [|done]. congruence. }
      destruct (resolve_exists _ _ _ _ Hok Eb) as [[nb Hnb] _].
      destruct (decide (b = d /\ y = x)) as [[-> ->]|Hne].
      * rewrite decide_True by (f_equal; by eapply resolve_inj). apply child_spec; [apply (tree_nodes _ _ ins_tree_ok)|].
        rewrite ins_child_of, (proj1 ins_new). split; [by right|done].
      * rewrite ins_child by (done || congruence). rewrite decide_False; [done|].
        intros [-> [= ->]]%app_inj_2; [|done]. apply Hne. split; [congruence|done].
Qed.
End Insert.

(** The leaf [gone] is taken out of the directory [d]. *)
Section Remove.
Context (m : gmap Z VirtualNode) (r d : Z) (nd : VirtualNode) (gone : Z) (ng : VirtualNode) (x : list Z) (al' : ArrayList Z).
Context (Hok : tree_ok m r) (Hd : m !! d = Some nd) (Hg : m !! gone = Some ng) (Hchild : child m d x = Some gone).
Context (Hleaf : kids ng = []).
Context (Hal : al_wf al') (Hlen : al_length al' <= al_length (children nd)).
Context (Hview : forall c, c ∈ al_view al' <-> c ∈ kids nd /\ c <> gone) (Hnodup : NoDup (al_view al')).

Let m' : gmap Z VirtualNode := base.delete gone (<[d := set_children al' nd]> m).

Lemma rem_in : gone ∈ kids nd /\ title m gone = Some x.
Proof.
  pose proof Hchild as Hc0. apply child_spec in Hc0 as [(n & Hn & Hc) Ht]; [|apply (tree_nodes _ _ Hok)]. split; [|done]. congruence.
Qed.

Lemma rem_ne : d <> gone.
Proof.
  intros E. destruct rem_in as [Hin _]. assert (Hn : nd = ng) by congruence. rewrite Hn, Hleaf in Hin.
  by apply elem_of_nil in Hin.
Qed.

Lemma rem_lookup a n : m' !! a = Some n ->
  a <> gone /\ ((a = d /\ n = set_children al' nd) \/ (a <> d /\ m !! a = Some n)).
Proof.
  unfold m'. destruct (decide (a = gone)) as [->|Hag]; [by rewrite lookup_delete_eq|].
  rewrite lookup_delete_ne by done. destruct (decide (a = d)) as [->|Had].
  - rewrite lookup_insert_eq. intros [= <-]. auto.
  - rewrite lookup_insert_ne by done. auto.
Qed.

Lemma rem_old a : a <> gone -> title m' a = title m a /\ kind m' a = kind m a /\ (is_Some (m !! a) -> is_Some (m' !! a)).
Proof.
  intros Ha. unfold title, kind, m'. rewrite lookup_delete_ne by done. destruct (decide (a = d)) as [->|Had].
  - rewrite lookup_insert_eq, Hd. split_and!; [done|done|eauto].
  - by rewrite lookup_insert_ne by done.
Qed.

Lemma rem_stored a : a <> gone -> stored m' a = stored m a.
Proof.
  intros Ha. unfold stored, m'. rewrite lookup_delete_ne by done. destruct (decide (a = d)) as [->|Had].
  - by rewrite lookup_insert_eq, Hd.
  - by rewrite lookup_insert_ne by done.
Qed.

Lemma rem_child_of a c : child_of m' a c <-> child_of m a c /\ c <> gone.
Proof.
  pose proof rem_ne. unfold child_of. split.
  - intros (n & Hn & Hc). apply rem_lookup in Hn as [Hag [[-> ->]|[Had Hn]]].
    + apply Hview in Hc as [Hc Hcg]. eauto.
    + split; [eauto|]. intros ->. apply Had. apply (tree_parent _ _ Hok a d gone); [by exists n|].
      exists nd. split; [done|apply rem_in].
  - intros [(n & Hn & Hc) Hcg]. unfold m'. assert (a <> gone).
    { intros ->. assert (n = ng) as -> by congruence. rewrite Hleaf in Hc. by apply elem_of_nil in Hc. }
    rewrite lookup_delete_ne by done. destruct (decide (a = d)) as [->|Had].
    + exists (set_children al' nd). rewrite lookup_insert_eq. split; [done|]. apply Hview. split; [congruence|done].
    + exists n. by rewrite lookup_insert_ne by done.
Qed.

Lemma rem_not_root : r <> gone.
Proof. intros E. apply (tree_orphan _ _ Hok d). rewrite E. exists nd. split; [done|apply rem_in]. Qed.

(** A node whose children are among those of an old one and do not contain
    [gone] is in order. *)
Lemma rem_node_ok n n0 :
  node_ok m n0 -> al_wf (children n) -> al_length (children n) <= al_length (children n0) -> name n = name n0 ->
  fileType n = fileType n0 -> NoDup (kids n) -> (forall c, c ∈ kids n -> c ∈ kids n0 /\ c <> gone) -> node_ok m' n.
Proof.
  intros [Hl Hna Hnd He Hlf Hnm] Hw Hle Hname Hft Hn Hin. rewrite Forall_forall in He. constructor.
  - split; [done|lia].
  - by rewrite Hname.
  - done.
  - apply Forall_forall. intros c Hc. destruct (Hin c Hc) as [Hc0 Hcg]. destruct (He c Hc0). split; [done|].
    by apply (rem_old c Hcg).
  - intros Hnd'. rewrite Hft in Hnd'. specialize (Hlf Hnd'). destruct (kids n) as [|c l]; [done|].
    destruct (Hin c) as [Hc _]; [left|]. rewrite Hlf in Hc. by apply elem_of_nil in Hc.
  - intros c1 c2 H1 H2. destruct (Hin c1 H1) as [H1' Hg1], (Hin c2 H2) as [H2' Hg2].
    rewrite (proj1 (rem_old c1 Hg1)), (proj1 (rem_old c2 Hg2)). by apply Hnm.
Qed.

Lemma rem_tree_ok : tree_ok m' r.
Proof.
  constructor.
  - rewrite (proj1 (proj2 (rem_old r rem_not_root))). apply (tree_root _ _ Hok).
  - intros a n Hn. apply rem_lookup in Hn as [Hag [[-> ->]|[Had Hn]]].
    + apply (rem_node_ok _ nd); [by eapply (tree_nodes _ _ Hok)|done|done|done|done|done|]. intros c. apply Hview.
    + pose proof (tree_nodes _ _ Hok _ _ Hn) as [[Hw Hb] _ Hnd _ _ _].
      apply (rem_node_ok _ n); [by eapply (tree_nodes _ _ Hok)|done|lia|done|done|done|]. intros c Hc. split; [done|].
      intros ->. apply Had. apply (tree_parent _ _ Hok a d gone); [by exists n|]. exists nd. split; [done|apply rem_in].
  - intros a b c Ha Hb. apply rem_child_of in Ha as [Ha _], Hb as [Hb _]. by eapply (tree_parent _ _ Hok).
  - intros a Ha. apply rem_child_of in Ha as [Ha _]. by apply (tree_orphan _ _ Hok) in Ha.
Qed.

Lemma rem_child b y : b <> gone -> ~ (b = d /\ y = x) -> child m' b y = child m b y.
Proof.
  intros Hb Hby. apply option_ext. intros c. rewrite !child_spec; [|apply (tree_nodes _ _ Hok)|apply (tree_nodes _ _ rem_tree_ok)].
  rewrite rem_child_of. destruct (decide (c = gone)) as [->|Hc].
  - destruct rem_in as [Hin Ht]. split; [naive_solver|]. intros [Hco Hty]. exfalso. apply Hby. split; [|congruence].
    eapply (tree_parent _ _ Hok); [done|]. by exists nd.
  - rewrite (proj1 (rem_old c Hc)). naive_solver.
Qed.

(** Exactly one path is lost. *)
Lemma rem_resolve p q :
  resolve m r p = Some d -> resolve m' r q = if decide (q = p ++ [x]) then None else resolve m r q.
Proof.
  intros Hp. induction q as [|y q IH] using rev_ind.
  - rewrite decide_False; [done|]. by destruct p.
  - rewrite !resolve_snoc, IH. destruct (decide (q = p ++ [x])) as [->|Hq].
    + simpl. rewrite decide_False by (intros [Hl _]%app_inj_2; [apply (f_equal length) in Hl; rewrite length_app in Hl; simpl in Hl; lia|done]).
      rewrite resolve_snoc, Hp. simpl. rewrite Hchild. simpl. unfold child. by rewrite Hg, Hleaf.
    + destruct (resolve m r q) as [b|] eqn:Eb; simpl; [|by destruct (decide _)].
      destruct (decide (b = d /\ y = x)) as [[-> ->]|Hne].
      * rewrite decide_True by (f_equal; by eapply resolve_inj). destruct (child m' d x) as [c|] eqn:Ec; [|done].
        apply child_spec in Ec as [Hc Ht]; [|apply (tree_nodes _ _ rem_tree_ok)]. apply rem_child_of in Hc as [Hc Hcg].
        rewrite (proj1 (rem_old c Hcg)) in Ht. assert (child m d x = Some c); [|congruence].
        apply child_spec; [apply (tree_nodes _ _ Hok)|done].
      * assert (b <> gone).
        { intros ->. apply Hq. apply (resolve_inj m r q (p ++ [x]) gone Hok Eb). by rewrite resolve_snoc, Hp. }
        rewrite rem_child by done. rewrite decide_False; [done|].
        intros [-> [= ->]]%app_inj_2; [|done]. apply Hne. split; [congruence|done].
Qed.
End Remove.
End Updates.

(** ** The operations on paths *)

Section Paths.
Context `{Junk Z}.
Implicit Types (fs : RamFsDriver) (l x : list Z) (p q : list (list Z)).

(** The names of a path. *)
Definition path l : list (list Z) := words [47] l.

(** What is at a path: the type of the file and its bytes. *)
Definition contents fs p : option (Z * list Z) := c ← resolve (nodes fs) (rootNode fs) p; stored (nodes fs) c.

Definition type_at fs p : option Z := fst <$> contents fs p.

Lemma type_at_kind fs p : type_at fs p = c ← resolve (nodes fs) (rootNode fs) p; kind (nodes fs) c.
Proof.
  unfold type_at, contents, stored, kind. destruct (resolve _ _ p) as [c|]; [|done]. cbn. by destruct (nodes fs !! c).
Qed.

Definition fs_ok fs : Prop := tree_ok (nodes fs) (rootNode fs).

(** No directory is full. *)
Definition has_room fs : Prop := forall a n, nodes fs !! a = Some n -> al_length (children n) < 2 ^ 31 - 2.

Definition short_text fuel l : Prop := text l /\ Z.of_nat (length l) + 1 < 2 ^ 31 /\ (length l < fuel)%nat.

Lemma path_facts fuel l : short_text fuel l ->
  split fuel SEPARATOR 0 (str l) = Ret (strings (path l)) /\ Forall text (path l) /\ Z.of_nat (length (path l)) < 2 ^ 31.
Proof.
  intros (Ht & Hl & Hf). destruct (words_from_forall (fun c => 0 < c < 256) [47] [] l ltac:(done) Ht) as [Hw Hn]. split_and!.
  - change SEPARATOR with (str [47]). by apply split_run.
  - done.
  - unfold path, words. lia.
Qed.

Lemma length_strings ws : length_ (strings ws) = Z.of_nat (length ws).
Proof. done. Qed.

Lemma kind_root fs : fs_ok fs -> kind (nodes fs) (rootNode fs) = Some DIRECTORY_FILE /\ is_Some (nodes fs !! rootNode fs).
Proof.
  intros Hok. destruct (tree_root _ _ Hok) as [Hk _]. split; [done|]. unfold kind in Hk. by destruct (nodes fs !! rootNode fs).
Qed.

(** Down to the directory that holds the last name. *)
Lemma descend_init fs p x :
  fs_ok fs -> Forall text (p ++ [x]) -> Z.of_nat (length (p ++ [x])) < 2 ^ 31 ->
  u32 (length_ (strings (p ++ [x])) - 1) = Z.of_nat (length p) /\
  at_ (strings (p ++ [x])) (Z.of_nat (length p)) = Ret (str x) /\
  descend (S (Z.to_nat (length_ (strings (p ++ [x]))))) 0 (Z.of_nat (length p)) (strings (p ++ [x])) (rootNode fs) (nodes fs) =
    Ret (d ← resolve (nodes fs) (rootNode fs) p; if decide (kind (nodes fs) d = Some DIRECTORY_FILE) then Some d else None).
Proof.
  intros Hok Ht Hl. rewrite length_strings, length_app in *. change (length [x]) with 1%nat in *. split_and!.
  - wrap_small. lia.
  - apply strings_at. rewrite lookup_app_r by done. by rewrite Nat.sub_diag.
  - destruct (kind_root fs Hok) as [Hk Hr].
    pose proof (descend_run (nodes fs) (rootNode fs) (p ++ [x]) (S (Z.to_nat (Z.of_nat (length p + 1)))) 0 (length p) (rootNode fs) Hok Ht Hr) as E.
    change (Z.of_nat 0) with 0 in E. rewrite E; [|rewrite length_app; simpl; lia|lia].
    rewrite Nat.sub_0_r, drop_0, take_app_length. f_equal. by apply (walk_dirs_resolve _ (rootNode fs)).
Qed.

Lemma dir_kids_text fuel l x p : short_text fuel l -> path l = p ++ [x] -> text x.
Proof.
  intros Hs Hp. destruct (path_facts fuel l Hs) as (_ & Ht & _). rewrite Hp in Ht. apply Forall_app in Ht as [_ Ht].
  by apply Forall_cons in Ht as [Ht _].
Qed.

Lemma getNode_run fuel fs l :
  fs_ok fs -> short_text fuel l -> getNode fuel (str l) fs = Ret (default 0 (resolve (nodes fs) (rootNode fs) (path l))).
Proof.
  intros Hok Hs. unfold getNode, String_length. change (len (str l)) with (Z.of_nat (length l)).
  destruct (Z.eqb_spec (Z.of_nat (length l)) 0) as [Hz|Hz]; [by destruct l; [|simpl in Hz; lia]|].
  destruct (path_facts fuel l Hs) as (E & Ht & Hl). rewrite E. outcome. rewrite length_strings.
  destruct (path l) as [|x p _] eqn:Ep using rev_ind; [done|].
  destruct (descend_init fs p x Hok Ht Hl) as (Eu & Ea & Ed). rewrite length_strings in Eu. rewrite Eu.
  destruct (Z.eqb_spec (Z.of_nat (length (p ++ [x]))) 0) as [Hz'|_]; [rewrite length_app in Hz'; simpl in Hz'; lia|].
  rewrite length_strings in Ed. rewrite Ed. outcome. rewrite resolve_snoc.
  destruct (resolve (nodes fs) (rootNode fs) p) as [d|] eqn:Er; simpl; [|done].
  destruct (resolve_exists _ _ _ _ Hok Er) as [[nd Hd] _].
  destruct (decide (kind (nodes fs) d = Some DIRECTORY_FILE)) as [Hk|Hk].
  - rewrite Ea. outcome. apply (getChildByName_run _ (rootNode fs)); [done|eauto|by eapply dir_kids_text].
  - assert (kids nd = []) as Hnil.
    { apply (ok_leaf _ _ (tree_nodes _ _ Hok _ _ Hd)). intros Hf. apply Hk. unfold kind. rewrite Hd. simpl. congruence. }
    unfold child. by rewrite Hd, Hnil.
Qed.

(** The contents after one path was added or removed. *)
Lemma contents_none fs p x d : resolve (nodes fs) (rootNode fs) p = Some d -> fs_ok fs ->
  contents fs (p ++ [x]) = None <-> child (nodes fs) d x = None.
Proof.
  intros Hr Hok. unfold contents. rewrite resolve_snoc, Hr. simpl. destruct (child (nodes fs) d x) as [c|] eqn:Ec; simpl; [|done].
  destruct (child_in_tree _ _ _ _ _ Hok Ec) as [[n Hn] _]. unfold stored. rewrite Hn. cbn. naive_solver.
Qed.

Lemma createNode_run fuel new_ fs l ft p x :
  fs_ok fs -> has_room fs -> short_text fuel l -> path l = p ++ [x] -> new_ <> 0 -> nodes fs !! new_ = None ->
  exists b fs', createNode fuel new_ (str l) ft fs = Ret (b, fs') /\ fs_ok fs' /\
    (type_at fs p = Some DIRECTORY_FILE /\ contents fs (p ++ [x]) = None /\ b = true /\
       (forall q, contents fs' q = if decide (q = p ++ [x]) then Some (ft, []) else contents fs q) \/
     ~ (type_at fs p = Some DIRECTORY_FILE /\ contents fs (p ++ [x]) = None) /\ b = false /\ fs' = fs).
Proof.
  intros Hok Hroom Hs Hp Hn0 Hnew. unfold createNode, String_length. change (len (str l)) with (Z.of_nat (length l)).
  destruct (path_facts fuel l Hs) as (E & Ht & Hl). rewrite E. outcome. rewrite Hp in *.
  destruct (descend_init fs p x Hok Ht Hl) as (Eu & Ea & Ed). rewrite Eu, Ed.
  assert ((length_ (strings (p ++ [x])) =? 0) = false) as -> by (rewrite length_strings, length_app; apply Z.eqb_neq; simpl; lia).
  rewrite andb_false_r. outcome. pose proof (dir_kids_text fuel l x p Hs Hp) as Hx.
  rewrite type_at_kind.
  destruct (resolve (nodes fs) (rootNode fs) p) as [d|] eqn:Er; simpl.
  2:{ exists false, fs. split_and!; [done|done|]. right. naive_solver. }
  destruct (resolve_exists _ _ _ _ Hok Er) as [[nd Hd] _].
  destruct (decide (kind (nodes fs) d = Some DIRECTORY_FILE)) as [Hk|Hk].
  2:{ exists false, fs. split_and!; [done|done|]. right. naive_solver. }
  rewrite Ea. outcome. rewrite (getChildByName_run _ (rootNode fs)) by (done || eauto). outcome.
  pose proof (contents_none fs p x d Er Hok) as Hcn.
  destruct (child (nodes fs) d x) as [c|] eqn:Ec.
  { destruct (child_in_tree _ _ _ _ _ Hok Ec) as [_ Hc0]. simpl. destruct (Z.eqb_spec c 0); [done|]. simpl.
    exists false, fs. split_and!; [done|done|]. right. split; [|done]. intros [_ Hc]. apply Hcn in Hc. done. }
  simpl. unfold new_VirtualNode. rewrite String_copy_str. outcome. unfold node_at.
  assert (d <> new_) by congruence. rewrite lookup_insert_ne, Hd by done. outcome.
  pose proof (ok_list _ _ (tree_nodes _ _ Hok _ _ Hd)) as [Hwf Hb].
  destruct (add_spec new_ (children nd) Hwf ltac:(lia)) as (al' & Eadd & Hwf' & _ & Hv). rewrite Eadd. outcome.
  eexists true, _. split; [done|].
  set (nn := mkNode (str x) ft 0 [] new_ArrayList). assert (Hdir : fileType nd = DIRECTORY_FILE).
  { unfold kind in Hk. rewrite Hd in Hk. by injection Hk. }
  pose proof (ins_tree_ok (nodes fs) (rootNode fs) d nd new_ nn x al' Hok Hd Hdir Hnew Hn0 Ec eq_refl Hx eq_refl Hwf' Hv (Hroom _ _ Hd)) as Htree.
  split; [exact Htree|]. left. split_and!; [done|by apply Hcn|done|]. intros q. unfold contents at 1. cbn [nodes rootNode set_nodes].
  rewrite (ins_resolve (nodes fs) (rootNode fs) d nd new_ nn x al' Hok Hd Hdir Hnew Hn0 Ec eq_refl Hx eq_refl Hwf' Hv (Hroom _ _ Hd) p q Er).
  destruct (decide (q = p ++ [x])) as [->|Hq]; simpl.
  - pose proof (ins_stored (nodes fs) d nd new_ nn x al' Hd Hnew Ec new_) as Hst. rewrite decide_True in Hst by done. exact Hst.
  - unfold contents. destruct (resolve (nodes fs) (rootNode fs) q) as [a|] eqn:Eq; simpl; [|done].
    destruct (resolve_exists _ _ _ _ Hok Eq) as [[na Hna] _]. pose proof (ins_stored (nodes fs) d nd new_ nn x al' Hd Hnew Ec a) as Hst. rewrite decide_False in Hst by congruence. exact Hst.
Qed.

Lemma destroy_leaf fuel c n (m : gmap Z VirtualNode) :
  m !! c = Some n -> al_wf (children n) -> kids n = [] -> destroy (S fuel) c m = Ret (base.delete c m).
Proof.
  intros Hc Hwf Hk. cbn [destroy]. unfold node_at. rewrite Hc. outcome. rewrite toArray_spec by done. outcome.
  fold (kids n). by rewrite Hk.
Qed.

Lemma isEmpty_kids (n : VirtualNode) : al_wf (children n) -> isEmpty (children n) = true <-> kids n = [].
Proof.
  intros Hwf. pose proof (length_al_view _ Hwf) as Hl. fold (kids n) in Hl. unfold isEmpty. rewrite Z.eqb_eq, <- Hl.
  destruct (kids n); simpl; split; intros; (done || lia).
Qed.

Lemma list_find_self (c : Z) l : c ∈ l -> exists i, list_find (fun y => c = y) l = Some (i, c).
Proof.
  intros Hc. destruct (list_find (fun y => c = y) l) as [[i y]|] eqn:E.
  - apply list_find_Some in E as (? & <- & _). eauto.
  - by apply list_find_None_not_in in E.
Qed.

Lemma delete_nodup (l : list Z) i c : NoDup l -> l !! i = Some c ->
  NoDup (base.delete i l) /\ forall y, y ∈ base.delete i l <-> y ∈ l /\ y <> c.
Proof.
  intros Hn Hi. rewrite delete_take_drop. pose proof (take_drop_middle l i c Hi) as E.
  generalize dependent (take i l). generalize (drop (S i) l). intros u t E. subst l.
  apply NoDup_app in Hn as (H1 & H2 & H3). apply NoDup_cons in H3 as [H3 H4]. split.
  - apply NoDup_app. split_and!; [done| |done]. intros y Hy Hy'. apply (H2 y Hy). by right.
  - intros y. rewrite !elem_of_app, elem_of_cons. split.
    + intros [Hy|Hy]; split; auto; intros ->; [apply (H2 c Hy); left|done].
    + naive_solver.
Qed.

Lemma deleteNode_run fuel fs l p x :
  fs_ok fs -> short_text fuel l -> path l = p ++ [x] ->
  (resolve (nodes fs) (rootNode fs) (p ++ [x]) = None -> deleteNode fuel (str l) fs = Ret (false, fs)) /\
  (forall c n, resolve (nodes fs) (rootNode fs) (p ++ [x]) = Some c -> nodes fs !! c = Some n -> kids n = [] ->
     exists fs', deleteNode fuel (str l) fs = Ret (true, fs') /\ fs_ok fs' /\
       forall q, contents fs' q = if decide (q = p ++ [x]) then None else contents fs q).
Proof.
  intros Hok Hs Hp. unfold deleteNode, String_length. change (len (str l)) with (Z.of_nat (length l)).
  destruct (path_facts fuel l Hs) as (E & Ht & Hl). rewrite E. outcome. rewrite Hp in *.
  destruct (descend_init fs p x Hok Ht Hl) as (Eu & Ea & Ed). rewrite Eu, Ed.
  assert ((length_ (strings (p ++ [x])) =? 0) = false) as -> by (rewrite length_strings, length_app; apply Z.eqb_neq; simpl; lia).
  rewrite andb_false_r. outcome. pose proof (dir_kids_text fuel l x p Hs Hp) as Hx. rewrite resolve_snoc.
  destruct (resolve (nodes fs) (rootNode fs) p) as [d|] eqn:Er; simpl; [|by split].
  destruct (resolve_exists _ _ _ _ Hok Er) as [[nd Hd] _].
  destruct (decide (kind (nodes fs) d = Some DIRECTORY_FILE)) as [Hk|Hk].
  2:{ assert (kids nd = []) as Hnil.
      { apply (ok_leaf _ _ (tree_nodes _ _ Hok _ _ Hd)). intros Hf. apply Hk. unfold kind. rewrite Hd. simpl. congruence. }
      unfold child. rewrite Hd, Hnil. by split. }
  rewrite Ea. outcome. rewrite (getChildByName_run _ (rootNode fs)) by (done || eauto). outcome.
  destruct (child (nodes fs) d x) as [c|] eqn:Ec; simpl; [|by split]. split; [done|]. intros c' n [= <-] Hn Hkn.
  destruct (child_in_tree _ _ _ _ _ Hok Ec) as [_ Hc0]. destruct (Z.eqb_spec c 0); [done|]. unfold node_at. rewrite Hn. outcome.
  pose proof (ok_list _ _ (tree_nodes _ _ Hok _ _ Hn)) as [Hwfn _]. rewrite (proj2 (isEmpty_kids n Hwfn) Hkn). cbn [negb].
  rewrite Hd. outcome. pose proof (tree_nodes _ _ Hok _ _ Hd) as Hnd. pose proof (ok_list _ _ Hnd) as [Hwf Hb].
  destruct (rem_in (nodes fs) (rootNode fs) d nd c x Hok Hd Ec) as [Hin Htc].
  assert (Hall : allocated (children nd)).
  { unfold allocated. unfold kids, al_view, slots in Hin. destruct (elements (children nd)); [eauto|]. simpl in Hin. rewrite ?take_nil in Hin.
    by apply elem_of_nil in Hin. }
  destruct (remove_spec c (children nd) Hwf Hall) as (al' & Erem & Hwf' & _ & Hv). rewrite Erem. outcome.
  destruct (list_find_self c (kids nd) Hin) as [i Hi]. unfold kids in Hi. rewrite Hi in Hv. fold (kids nd) in Hv, Hi.
  apply list_find_Some in Hi as (Hi & _ & _). destruct (delete_nodup (kids nd) i c (ok_nodup _ _ Hnd) Hi) as [Hnodup Hview].
  rewrite <- Hv in Hnodup, Hview.
  pose proof (rem_ne (nodes fs) (rootNode fs) d nd c n x Hok Hd Hn Ec Hkn) as Hdc.
  destruct fuel as [|fuel]; [destruct Hs as (_ & _ & Hf); lia|].
  rewrite (destroy_leaf fuel c n) by (rewrite ?lookup_insert_ne by done; done). outcome.
  assert (Hlen : al_length al' <= al_length (children nd)).
  { pose proof (length_al_view _ Hwf') as H1. pose proof (length_al_view _ Hwf) as H2. rewrite Hv in H1. fold (kids nd) in H2.
    pose proof (lookup_lt_Some _ _ _ Hi). rewrite length_delete in H1 by eauto. lia. }
  eexists. split; [done|]. split; [by apply (rem_tree_ok (nodes fs) (rootNode fs) d nd c n x al')|].
  intros q. unfold contents at 1. cbn [nodes rootNode set_nodes].
  rewrite (rem_resolve (nodes fs) (rootNode fs) d nd c n x al') with (p := p) by done.
  destruct (decide (q = p ++ [x])) as [->|Hq]; [done|]. unfold contents.
  destruct (resolve (nodes fs) (rootNode fs) q) as [a|] eqn:Eq; simpl; [|done].
  apply (rem_stored (nodes fs) d nd c al' Hd). intros ->. apply Hq. eapply (resolve_inj _ _ _ _ _ Hok Eq). by rewrite resolve_snoc, Er.
Qed.

(** ** Data *)

Lemma copy_bytes_run k i from src dst :
  0 <= from -> Z.of_nat k + Z.of_nat i + from <= Z.of_nat (length src) -> (i + k <= length dst)%nat ->
  copy_bytes k i from src dst = Ret (take i dst ++ take k (drop (Z.to_nat from + i) src) ++ drop (i + k) dst).
Proof.
  intros Hfrom. revert i dst. induction k as [|k IH]; intros i dst Hsrc Hdst; cbn [copy_bytes].
  - rewrite Nat.add_0_r, take_0. cbn [app]. by rewrite take_drop.
  - destruct (lookup_lt_is_Some_2 src (Z.to_nat from + i)) as [c Hc]; [lia|].
    replace (Z.to_nat (from + Z.of_nat i)) with (Z.to_nat from + i)%nat by lia. rewrite Hc. outcome.
    destruct (Nat.ltb_spec i (length dst)); [|lia]. rewrite IH by (rewrite ?length_insert; lia). f_equal.
    rewrite drop_insert_lt by lia. rewrite (take_S_r _ _ c), <- app_assoc by (apply list_lookup_insert_eq; lia).
    rewrite take_insert_ge by lia. f_equal. rewrite (drop_S _ _ _ Hc). cbn [app take]. f_equal. f_equal.
    + f_equal. f_equal. lia.
    + f_equal. lia.
Qed.

Lemma store_bytes_run k i pos buf d :
  0 <= pos -> (i + k <= length buf)%nat -> Z.of_nat (i + k) + pos <= Z.of_nat (length d) ->
  store_bytes k i pos buf d =
    Ret (take (Z.to_nat pos + i) d ++ take k (drop i buf) ++ drop (Z.to_nat pos + i + k) d).
Proof.
  intros Hpos. revert i d. induction k as [|k IH]; intros i d Hb Hd; cbn [store_bytes].
  - rewrite Nat.add_0_r, take_0. cbn [app]. by rewrite take_drop.
  - destruct (lookup_lt_is_Some_2 buf i) as [c Hc]; [lia|]. rewrite Hc. outcome.
    replace (Z.to_nat (Z.of_nat i + pos)) with (Z.to_nat pos + i)%nat by lia. set (j := (Z.to_nat pos + i)%nat).
    destruct (Nat.ltb_spec j (length d)); [|lia]. rewrite IH by (rewrite ?length_insert; lia). f_equal.
    replace (Z.to_nat pos + S i)%nat with (S j) by lia. rewrite drop_insert_lt by lia.
    rewrite (take_S_r _ _ c), <- app_assoc by (apply list_lookup_insert_eq; lia). rewrite take_insert_ge by lia. f_equal.
    rewrite (drop_S _ _ _ Hc). cbn [app take]. do 2 f_equal. f_equal. lia.
Qed.

(** The bytes of a node after a write: zeros up to the position, the new bytes,
    the old ones behind them. *)
Definition overwrite (d buf : list Z) (pos k : nat) : list Z :=
  let padded := d ++ replicate (pos + k - length d) 0 in take pos padded ++ take k buf ++ drop (pos + k) padded.

Lemma length_overwrite d buf pos k :
  (k <= length buf)%nat -> length (overwrite d buf pos k) = (length d `max` (pos + k))%nat.
Proof. intros Hk. unfold overwrite. rewrite !length_app, !length_take, length_drop, length_app, length_replicate. lia. Qed.

Lemma writeData_run n buf pos k :
  length_of n = Z.of_nat (length (data n)) -> 0 <= pos -> (k <= length buf)%nat -> Z.of_nat k < 2 ^ 32 -> pos + Z.of_nat k < 2 ^ 64 ->
  exists n', writeData n buf pos (Z.of_nat k) = Ret (Z.of_nat k, n') /\
    data n' = overwrite (data n) buf (Z.to_nat pos) k /\ length_of n' = Z.of_nat (length (data n')) /\
    name n' = name n /\ fileType n' = fileType n /\ children n' = children n.
Proof.
  intros Hlen Hpos Hk Hw H64. unfold writeData. unfold u64. rewrite Z.mod_small by lia. set (N := (Z.to_nat pos + k)%nat).
  assert (Hpad : (if length_of n <=? pos + Z.of_nat k then
      newData ← copy_bytes (Z.to_nat (length_of n)) 0 0 (data n) (replicate (Z.to_nat (pos + Z.of_nat k)) 0);
      Ret (set_data (pos + Z.of_nat k) newData n) else Ret n)
    = Ret (set_data (Z.of_nat (length (data n) `max` N)) (data n ++ replicate (N - length (data n)) 0) n)).
  { destruct (Z.leb_spec (length_of n) (pos + Z.of_nat k)) as [Hle|Hgt].
    - rewrite copy_bytes_run by (rewrite ?length_replicate; lia). outcome. rewrite Hlen, Nat2Z.id, drop_0, (take_ge (data n)) by done.
      rewrite take_0, drop_replicate. cbn [app]. replace (Z.to_nat (pos + Z.of_nat k) - (0 + length (data n)))%nat with (N - length (data n))%nat by lia.
      by replace (pos + Z.of_nat k) with (Z.of_nat (length (data n) `max` N)) by lia.
    - replace (N - length (data n))%nat with 0%nat by lia. rewrite app_nil_r. destruct n as [a b c d e]. unfold set_data. cbn [data length_of] in *.
      by replace (Z.of_nat (length d `max` N)) with c by lia. }
  rewrite Hpad. outcome. decide_bool. cbn [data set_data length_of]. rewrite Nat2Z.id.
  rewrite store_bytes_run by (rewrite ?length_app, ?length_replicate; lia). outcome. eexists. split; [done|]. cbn [data length_of set_data name fileType children].
  rewrite Nat.add_0_r, drop_0. pose proof (length_overwrite (data n) buf (Z.to_nat pos) k Hk) as Ho. unfold overwrite in Ho.
  subst N. split_and!; try done. by rewrite Ho.
Qed.

Lemma readData_run n buf pos k :
  length_of n = Z.of_nat (length (data n)) -> 0 <= pos -> pos + Z.of_nat k <= length_of n -> length_of n < 2 ^ 64 -> (0 < k <= length buf)%nat ->
  readData n buf pos (Z.of_nat k) = Ret (Z.of_nat k, take k (drop (Z.to_nat pos) (data n)) ++ drop k buf).
Proof.
  intros Hlen Hpos Hk H64 Hb. unfold readData, u64. rewrite Z.mod_small by lia. decide_bool. rewrite copy_bytes_run by lia. outcome.
  by rewrite Nat2Z.id, Nat.add_0_r.
Qed.
End Paths.

(** ** Claims *)

(** C31. [RamFsDriver] keeps a tree of names: on a driver whose nodes form a tree,
    [getNode] returns the node the names of a path lead to, and the null pointer
    if there is none; [createNode] succeeds exactly when the parent is a
    directory that does not have the name yet, and then adds this one path, an
    empty file of the given type, and no other path changes its type or its
    bytes; [deleteNode] of a path that does not exist fails and changes nothing,
    and of a node without children removes exactly that path. The nodes form a
    tree again. Deleting a directory with children is excluded: it leaves a
    dangling pointer, [delete_nonempty_dangles]. *)
Theorem ramfs_refines_paths `{Junk Z} (fuel : nat) (fs : RamFsDriver) (l x : list Z) (p : list (list Z)) (new_ ft : Z)
    (Hok : fs_ok fs) (Hroom : has_room fs) (Hl : short_text fuel l) (Hp : path l = p ++ [x])
    (Hnew : new_ <> 0) (Hfresh : nodes fs !! new_ = None) :
  getNode fuel (str l) fs = Ret (default 0 (resolve (nodes fs) (rootNode fs) (p ++ [x]))) /\
  (exists b fs', createNode fuel new_ (str l) ft fs = Ret (b, fs') /\ fs_ok fs' /\
     (type_at fs p = Some DIRECTORY_FILE /\ contents fs (p ++ [x]) = None /\ b = true /\
        (forall q, contents fs' q = if decide (q = p ++ [x]) then Some (ft, []) else contents fs q) \/
      ~ (type_at fs p = Some DIRECTORY_FILE /\ contents fs (p ++ [x]) = None) /\ b = false /\ fs' = fs)) /\
  (resolve (nodes fs) (rootNode fs) (p ++ [x]) = None -> deleteNode fuel (str l) fs = Ret (false, fs)) /\
  (forall c n, resolve (nodes fs) (rootNode fs) (p ++ [x]) = Some c -> nodes fs !! c = Some n -> kids n = [] ->
     exists fs', deleteNode fuel (str l) fs = Ret (true, fs') /\ fs_ok fs' /\
       forall q, contents fs' q = if decide (q = p ++ [x]) then None else contents fs q).
Proof.
  split; [rewrite <- Hp; by apply getNode_run|]. split; [by apply createNode_run|]. by apply deleteNode_run.
Qed.

(** A driver after [mount]. *)
Definition mounted : RamFsDriver := mkRamFs 1 {[1 := mkNode (str [47]) DIRECTORY_FILE 0 [] new_ArrayList]}.

Lemma mounted_ok : fs_ok mounted /\ has_room mounted.
Proof.
  assert (Hone : forall a n, nodes mounted !! a = Some n -> a = 1 /\ n = mkNode (str [47]) DIRECTORY_FILE 0 [] new_ArrayList).
  { intros a n. cbn [nodes mounted]. by intros [<- <-]%lookup_singleton_Some. }
  assert (Hno : forall a c, ~ child_of (nodes mounted) a c).
  { intros a c (n & Hn & Hc). apply Hone in Hn as [-> ->]. by apply elem_of_nil in Hc. }
  split; [|intros a n [-> ->]%Hone; done]. constructor.
  - done.
  - intros a n [-> ->]%Hone. constructor; try done.
    + exists [47]. split; [|done]. apply Forall_singleton. lia.
    + apply NoDup_nil_2.
    + intros c1 c2 Hc. by apply elem_of_nil in Hc.
  - intros a b c Ha. by destruct (Hno a c).
  - intros a Ha. by destruct (Hno a 1).
Qed.

Lemma ramfs_refines_paths_witness :
  exists fs', createNode (H := fun _ => 0) 5 2 (str [47; 97]) REGULAR_FILE mounted = Ret (true, fs') /\
    contents fs' [[97]] = Some (REGULAR_FILE, []).
Proof.
  destruct (ramfs_refines_paths (H := fun _ => 0) 5 mounted [47; 97] [97] [] 2 REGULAR_FILE) as (_ & (b & fs' & E & _ & Hc) & _).
  - apply mounted_ok.
  - apply mounted_ok.
  - split; [repeat (apply Forall_cons; split; [lia|]); by apply Forall_nil|]. simpl. lia.
  - reflexivity.
  - lia.
  - reflexivity.
  - destruct Hc as [(_ & _ & -> & Hq)|(Hn & _)]; [|exfalso; apply Hn; done]. exists fs'. split; [exact E|]. rewrite Hq. reflexivity.
Defined.

(** Data written to a node are read back: after [writeData] of [k] bytes at
    [pos] [readData] of [k] bytes at [pos] returns these bytes; the bytes before and behind are the old
    ones, a gap in front of the position is filled with zeros, and the length is
    the larger of the old one and the end of the write. *)
Theorem write_read_roundtrip (n : VirtualNode) (buf out : list Z) (pos : Z) (k : nat)
    (Hlen : length_of n = Z.of_nat (length (data n))) (Hpos : 0 <= pos)
    (Hk : (0 < k <= length buf)%nat) (Hout : (k <= length out)%nat)
    (Hw : Z.of_nat k < 2 ^ 32) (H64 : pos + Z.of_nat k < 2 ^ 64) (Hbig : length_of n < 2 ^ 64) :
  exists n', writeData n buf pos (Z.of_nat k) = Ret (Z.of_nat k, n') /\
    readData n' out pos (Z.of_nat k) = Ret (Z.of_nat k, take k buf ++ drop k out) /\
    length_of n' = Z.max (length_of n) (pos + Z.of_nat k) /\
    (forall j, (Z.of_nat j < pos \/ pos + Z.of_nat k <= Z.of_nat j) -> (j < length (data n))%nat -> data n' !! j = data n !! j) /\
    (forall j, (length (data n) <= j < Z.to_nat pos)%nat -> data n' !! j = Some 0).
Proof.
  destruct (writeData_run n buf pos k Hlen Hpos (proj2 Hk) Hw H64) as (n' & E & Hd & Hl & _). exists n'. split; [done|].
  pose proof (length_overwrite (data n) buf (Z.to_nat pos) k (proj2 Hk)) as Ho. rewrite <- Hd in Ho. split_and!.
  - rewrite readData_run by lia. do 3 f_equal. rewrite Hd. unfold overwrite. rewrite drop_app_length' by (rewrite length_take, length_app, length_replicate; lia).
    rewrite take_app_length'; [done|]. rewrite length_take. lia.
  - lia.
  - intros j Hj Hjl. rewrite Hd. unfold overwrite. destruct Hj as [Hj|Hj].
    + rewrite lookup_app_l by (rewrite length_take, length_app, length_replicate; lia). rewrite lookup_take_lt by lia. by rewrite lookup_app_l by lia.
    + rewrite lookup_app_r by (rewrite length_take, length_app, length_replicate; lia). rewrite lookup_app_r by (rewrite !length_take, length_app, length_replicate; lia).
      rewrite lookup_drop, !length_take, length_app, length_replicate.
      replace (Z.to_nat pos + k + _)%nat with j by lia. by rewrite lookup_app_l by lia.
  - intros j Hj. rewrite Hd. unfold overwrite. rewrite lookup_app_l by (rewrite length_take, length_app, length_replicate; lia).
    rewrite lookup_take_lt by lia. rewrite lookup_app_r by lia. apply lookup_replicate_2. lia.
Qed.

Lemma write_read_roundtrip_witness :
  exists n', writeData (mkNode (str [97]) REGULAR_FILE 0 [] new_ArrayList) [7; 8] 2 2 = Ret (2, n') /\
    readData n' [0; 0] 2 2 = Ret (2, [7; 8]).
Proof.
  destruct (write_read_roundtrip (mkNode (str [97]) REGULAR_FILE 0 [] new_ArrayList) [7; 8] [0; 0] 2 2) as (n' & E1 & E2 & _);
    [reflexivity|lia|simpl; lia|simpl; lia|lia|lia|simpl; lia|].
  exists n'. split; [exact E1|exact E2].
Defined.

(** ** Deviations *)

#[local] Instance null_junk : Junk Z := fun _ => 0.

(** Deleting the directory "/a", which holds "/a/b", frees its nodes, reports a
    failure and leaves the pointer in the parent: the next search meets freed
    memory. *)
Theorem delete_nonempty_dangles :
  ('(_, fs) ← createNode 9 2 (str [47; 97]) DIRECTORY_FILE mounted;
   '(_, fs) ← createNode 9 3 (str [47; 97; 47; 98]) REGULAR_FILE fs;
   '(b, fs) ← deleteNode 9 (str [47; 97]) fs;
   Ret (b, getNode 9 (str [47; 97]) fs)) = Ret (false, Fault).
Proof. by vm_compute. Qed.

(** Creating or deleting the empty path asks for a name behind the last one. *)
Theorem empty_path_throws fs :
  createNode 9 2 (str []) REGULAR_FILE fs = Throw OUT_OF_BOUNDS /\ deleteNode 9 (str []) fs = Throw OUT_OF_BOUNDS.
Proof. done. Qed.
