(* ===== verification/Filesystem.v ===== *)
(** * The virtual file system

    [filesystem/core/Filesystem.cpp]: paths, mount points and the operations that
    look up the driver of a path and pass the rest of the path on. Drivers are
    objects on the heap behind the interface [FsDriver]; 0 is the null pointer. *)

From S2P Require Import Prelude Spinlock CString KString Array Collections ArrayList HashMap StringKeys RamFs.

(** ** Paths *)

Definition slash : String := String_cstr (Some [47]).
Definition dot : String := String_cstr (Some [46]).
Definition dotdot : String := String_cstr (Some [46; 46]).

(** The body of the loop over the tokens. *)
Definition parse_token (string : String) (parsedToken : ArrayList String) : outcome (ArrayList String) :=
  is_dot ← equals string dot;
  if (is_dot : bool) then Ret parsedToken
  else
    is_dotdot ← equals string dotdot;
    if (is_dotdot : bool) then
      if ArrayList.isEmpty parsedToken then Ret parsedToken
      else r ← removeAt (u32 (ArrayList.size parsedToken - 1)) parsedToken; Ret (snd r)
    else
      copy ← String_copy string;
      r ← ArrayList.add copy parsedToken;
      Ret (snd r).

Definition parsePath (fuel : nat) (path : String) : outcome String :=
  token ← split fuel slash 0 path;
  parsedToken ← foldM parse_token (array token) new_ArrayList;
  if ArrayList.isEmpty parsedToken then Ret (String_cstr (Some []))
  else
    a ← toArray parsedToken;
    s ← join slash a;
    plus slash s.

(** ** Drivers *)

Class FsDriver (D : Type) := {
  d_mount : Z -> D -> outcome (bool * D);
  d_getNode : String -> D -> outcome Z;
  d_createNode : String -> Z -> D -> outcome (bool * D);
  d_deleteNode : String -> D -> outcome (bool * D);
  d_getTypeName : D -> String;
  d_nodeName : Z -> D -> outcome String;
  d_addNode : String -> Z -> D -> outcome (bool * D)
}.

(** [Filesystem::RETURN_CODES] *)
Definition SUCCESS : Z := 0x00.
Definition FILE_NOT_FOUND : Z := 0x01.
Definition DEVICE_NOT_FOUND : Z := 0x02.
Definition MOUNT_TARGET_ALREADY_USED : Z := 0x05.
Definition MOUNTING_FAILED : Z := 0x06.
Definition ADDING_VIRTUAL_NODE_FAILED : Z := 0x07.
Definition SUBDIRECTORY_CONTAINS_MOUNT_POINT : Z := 0x08.
Definition NOTHING_MOUNTED_AT_PATH : Z := 0x09.
Definition CREATING_FILE_FAILED : Z := 0x10.
Definition CREATING_DIRECTORY_FAILED : Z := 0x11.
Definition DELETING_FILE_FAILED : Z := 0x12.

(** "RamFsDriver" *)
Definition TYPE_RAM_FS : String := String_cstr (Some [82; 97; 109; 70; 115; 68; 114; 105; 118; 101; 114]).

Record Filesystem (M D : Type) := mkFilesystem { mountPoints : M; fsLock : Spinlock; drivers : gmap Z D }.
Arguments mkFilesystem {M D} _ _ _.
Arguments mountPoints {M D} _.
Arguments fsLock {M D} _.
Arguments drivers {M D} _.

Section Operations.
Context {M D : Type} `{MapOps M String Z} `{FsDriver D}.
Implicit Types (fs : Filesystem M D) (path : String).

Abbreviation FS := (ST (Filesystem M D)).

Definition set_mounts (m : M) fs : Filesystem M D := mkFilesystem m (fsLock fs) (drivers fs).
Definition set_lock (l : Spinlock) fs : Filesystem M D := mkFilesystem (mountPoints fs) l (drivers fs).
Definition set_drivers (d : gmap Z D) fs : Filesystem M D := mkFilesystem (mountPoints fs) (fsLock fs) d.

Definition fs_acquire : FS unit := fun fs => l ← acquire 1 (fsLock fs); Ret (tt, set_lock l fs).
Definition fs_release : FS unit := modify (fun fs => set_lock (release (fsLock fs)) fs).

(** A fallible computation that does not touch the state. *)
Definition lift {A} (c : outcome A) : FS A := fun fs => a ← c; Ret (a, fs).

(** A call of a driver, for what it returns and for what it does. *)
Definition ask {A} (f : D -> outcome A) (driver : Z) : FS A := fun fs =>
  d ← or_fault (drivers fs !! driver); a ← f d; Ret (a, fs).

Definition tell {A} (f : D -> outcome (A * D)) (driver : Z) : FS A := fun fs =>
  d ← or_fault (drivers fs !! driver); '(a, d) ← f d; Ret (a, set_drivers (<[driver := d]> (drivers fs)) fs).

Definition keys : FS (Array String) := fun fs =>
  '(a, m) ← m_keySet (mountPoints fs); Ret (a, set_mounts m fs).

Definition mounted_at (key : String) : FS Z := fun fs =>
  '(d, m) ← m_get key (mountPoints fs); Ret (d, set_mounts m fs).

(** The body of the loop over the mount points. *)
Definition longer_key path (currentString ret : String) : outcome String :=
  b ← beginsWith currentString path;
  if (b : bool) then if String_length ret <? String_length currentString then assign currentString else Ret ret
  else Ret ret.

(** The driver and the rest of the path, which is returned in the argument. *)
Definition getMountedDriver path : FS (Z * String) :=
  slashed ← lift (endsWith slash path);
  path ← lift (if negb slashed then append slash path else Ret path);
  ks ← keys;
  ret ← lift (foldM (longer_key path) (array ks) new_String);
  if KString.isEmpty ret then mret (0, path)
  else
    t ← lift (substring (String_length ret) (u32 (String_length path - 1)) path);
    path ← lift (assign t);
    d ← mounted_at ret;
    mret (d, path).

(** A node is known by its driver and its address there; 0 for none. *)
Definition getNode (fuel : nat) path : FS (Z * Z) :=
  parsedPath ← lift (parsePath fuel path);
  _ ← fs_acquire;
  '(driver, parsedPath) ← getMountedDriver parsedPath;
  if driver =? 0 then _ ← fs_release; mret (0, 0)
  else
    ret ← ask (d_getNode parsedPath) driver;
    _ ← fs_release;
    mret (driver, ret).

(** [createFile] and [createDirectory] *)
Definition create (fileType failed : Z) (fuel : nat) path : FS Z :=
  parsedPath ← lift (parsePath fuel path);
  _ ← fs_acquire;
  '(driver, parsedPath) ← getMountedDriver parsedPath;
  if driver =? 0 then _ ← fs_release; mret FILE_NOT_FOUND
  else
    ret ← tell (d_createNode parsedPath fileType) driver;
    _ ← fs_release;
    mret (if (ret : bool) then SUCCESS else failed).

Definition createFile : nat -> String -> FS Z := create REGULAR_FILE CREATING_FILE_FAILED.
Definition createDirectory : nat -> String -> FS Z := create DIRECTORY_FILE CREATING_DIRECTORY_FAILED.

(** Whether one of the keys has a property. *)
Fixpoint any_key (p : String -> outcome bool) (ks : list String) : outcome bool :=
  match ks with
  | [] => Ret false
  | k :: ks => b ← p k; if (b : bool) then Ret true else any_key p ks
  end.

Definition deleteFile (fuel : nat) path : FS Z :=
  parsedPath ← lift (parsePath fuel path);
  _ ← fs_acquire;
  ks ← keys;
  inside ← lift (any_key (beginsWith parsedPath) (array ks));
  if (inside : bool) then _ ← fs_release; mret SUBDIRECTORY_CONTAINS_MOUNT_POINT
  else
    '(driver, parsedPath) ← getMountedDriver parsedPath;
    if driver =? 0 then _ ← fs_release; mret FILE_NOT_FOUND
    else
      ret ← tell (d_deleteNode parsedPath) driver;
      _ ← fs_release;
      mret (if (ret : bool) then SUCCESS else DELETING_FILE_FAILED).

(** The driver is used before it is compared with the null pointer. *)
Definition addVirtualNode (fuel : nat) path (node : Z) : FS Z :=
  _ ← fs_acquire;
  parsedPath ← lift (parsePath fuel path);
  '(driver, parsedPath) ← getMountedDriver parsedPath;
  type ← ask (fun d => Ret (d_getTypeName d)) driver;
  other ← lift (differs type TYPE_RAM_FS);
  if (other : bool) then _ ← fs_release; mret ADDING_VIRTUAL_NODE_FAILED
  else
    ret ← tell (d_addNode parsedPath node) driver;
    _ ← fs_release;
    mret (if (ret : bool) then SUCCESS else ADDING_VIRTUAL_NODE_FAILED).

(** [getDevice] of the storage service; [None] leaves [mount]. *)
Definition find_disk (getDevice : String -> Z) (fuel : nat) (devicePath fsType : String) : FS (option Z) :=
  parsedDevicePath ← lift (parsePath fuel devicePath);
  other ← lift (differs fsType TYPE_RAM_FS);
  if (other : bool) then
    '(driver, deviceNode) ← getNode fuel parsedDevicePath;
    disk ← (if deviceNode =? 0 then mret (getDevice devicePath)
            else name ← ask (d_nodeName deviceNode) driver; mret (getDevice name));
    mret (if disk =? 0 then None else Some disk)
  else mret (Some 0).

(** [new_] is the address and [instance] the driver that [createInstance] makes. *)
Definition mount (getDevice : String -> Z) (new_ : Z) (instance : D) (fuel : nat) (devicePath targetPath fsType : String) : FS Z :=
  found ← find_disk getDevice fuel devicePath fsType;
  match found with
  | None => mret DEVICE_NOT_FOUND
  | Some disk =>
      p ← lift (parsePath fuel targetPath);
      parsedPath ← lift (plus p slash);
      '(_, targetNode) ← getNode fuel parsedPath;
      n ← gets (fun fs => m_size (mountPoints fs));
      if (targetNode =? 0) && negb (n =? 0) then mret FILE_NOT_FOUND
      else
        _ ← fs_acquire;
        used ← (fun fs => b ← m_containsKey parsedPath (mountPoints fs); Ret (b, fs));
        if (used : bool) then _ ← fs_release; mret MOUNT_TARGET_ALREADY_USED
        else
          '(ok, driver) ← lift (d_mount disk instance);
          if negb ok then _ ← fs_release; mret MOUNTING_FAILED
          else
            _ ← modify (fun fs => set_drivers (<[new_ := driver]> (drivers fs)) fs);
            _ ← (fun fs => m ← m_put parsedPath new_ (mountPoints fs); Ret (tt, set_mounts m fs));
            _ ← fs_release;
            mret SUCCESS
  end.

Definition unmount (fuel : nat) path : FS Z :=
  p ← lift (parsePath fuel path);
  parsedPath ← lift (plus p slash);
  '(_, targetNode) ← getNode fuel parsedPath;
  not_root ← lift (differs path slash);
  if (targetNode =? 0) && not_root then mret FILE_NOT_FOUND
  else
    _ ← fs_acquire;
    ks ← keys;
    below ← lift (any_key (fun key => b ← beginsWith parsedPath key; if (b : bool) then differs key parsedPath else Ret false) (array ks));
    if (below : bool) then _ ← fs_release; mret SUBDIRECTORY_CONTAINS_MOUNT_POINT
    else
      used ← (fun fs => b ← m_containsKey parsedPath (mountPoints fs); Ret (b, fs));
      if (used : bool) then
        d ← mounted_at parsedPath;
        _ ← modify (fun fs => set_drivers (base.delete d (drivers fs)) fs);
        _ ← (fun fs => '(_, m) ← m_remove parsedPath (mountPoints fs); Ret (tt, set_mounts m fs));
        _ ← fs_release;
        mret SUCCESS
      else _ ← fs_release; mret NOTHING_MOUNTED_AT_PATH.

End Operations.

(** ** Normal paths *)

(** One component of a path: "." is skipped, ".." takes back the last one. *)
Definition step_component (acc : list (list Z)) (w : list Z) : list (list Z) :=
  if decide (w = [46]) then acc
  else if decide (w = [46; 46]) then take (length acc - 1) acc
  else acc ++ [w].

Definition normal (ws : list (list Z)) : list (list Z) := foldl step_component [] ws.

(** The path with these components. *)
Definition absolute (ws : list (list Z)) : list Z := match ws with [] => [] | _ => 47 :: joined [47] ws end.

(** A component of a normal path. *)
Definition plain (w : list Z) : Prop := w <> [46] /\ w <> [46; 46] /\ w <> [] /\ (47 ∉ w) /\ text w.

(** The characters of the components with a separator each. *)
Definition total (ws : list (list Z)) : nat := foldr (fun w n => (S (length w) + n)%nat) 0%nat ws.

Lemma total_app ws1 ws2 : total (ws1 ++ ws2) = (total ws1 + total ws2)%nat.
Proof. induction ws1 as [|w ws IH]; simpl; lia. Qed.

Lemma total_take n ws : (total (take n ws) <= total ws)%nat.
Proof. revert n. induction ws as [|w ws IH]; intros [|n]; simpl; [lia|lia|lia|]. specialize (IH n). lia. Qed.

Lemma total_words_from d cur l : (total (words_from d cur l) <= length cur + length l + 1)%nat.
Proof.
  revert cur. induction l as [|c l IH]; intros cur; simpl; [destruct cur; simpl; lia|].
  destruct (among d c).
  - specialize (IH []). simpl in IH. destruct cur; simpl in *; lia.
  - specialize (IH (cur ++ [c])). rewrite length_app in IH. simpl in IH. lia.
Qed.

Lemma total_normal ws acc : (total (foldl step_component acc ws) <= total acc + total ws)%nat.
Proof.
  revert acc. induction ws as [|w ws IH]; intros acc; simpl; [lia|]. specialize (IH (step_component acc w)).
  assert (total (step_component acc w) <= total acc + S (length w))%nat; [|lia].
  unfold step_component. destruct (decide _); [lia|]. destruct (decide _).
  - pose proof (total_take (length acc - 1) acc). lia.
  - rewrite total_app. simpl. lia.
Qed.

Lemma length_absolute ws : length (absolute ws) = total ws.
Proof.
  destruct ws as [|w ws]; [done|]. cbn [absolute length]. revert w.
  induction ws as [|w2 ws IH]; intros w; [simpl; lia|]. rewrite joined_cons by done. rewrite !length_app.
  specialize (IH w2). simpl in *. lia.
Qed.

Lemma words_from_plain cur l :
  47 ∉ cur -> Forall (fun w => w <> [] /\ 47 ∉ w) (words_from [47] cur l).
Proof.
  revert cur. induction l as [|c l IH]; intros cur Hc; simpl.
  - destruct cur; [done|]. by apply Forall_singleton.
  - destruct (among [47] c) eqn:Ea.
    + specialize (IH [] ltac:(by intros ?%elem_of_nil)). destruct cur; [done|]. by apply Forall_cons.
    + apply IH. intros [Hin|Hin]%elem_of_app; [done|]. apply list_elem_of_singleton in Hin as <-. done.
Qed.

Lemma normal_forall (P : list Z -> Prop) ws acc : Forall P acc -> Forall P ws -> Forall P (foldl step_component acc ws).
Proof.
  intros Ha Hw. revert acc Ha. induction Hw as [|w ws Hx Hw IH]; intros acc Ha; [done|]. simpl. apply IH.
  unfold step_component. destruct (decide _); [done|]. destruct (decide _); [by apply Forall_take|].
  apply Forall_app. split; [done|]. by apply Forall_singleton.
Qed.

Lemma normal_no_dots ws acc :
  Forall (fun w => w <> [46] /\ w <> [46; 46]) acc -> Forall (fun w => w <> [46] /\ w <> [46; 46]) (foldl step_component acc ws).
Proof.
  revert acc. induction ws as [|w ws IH]; intros acc Ha; [done|]. simpl. apply IH. unfold step_component.
  destruct (decide (w = [46])); [done|]. destruct (decide (w = [46; 46])); [by apply Forall_take|].
  apply Forall_app. split; [done|]. by apply Forall_singleton.
Qed.

Lemma normal_plain l : text l -> Forall plain (normal (words [47] l)).
Proof.
  intros Ht. pose proof (normal_no_dots (words [47] l) [] ltac:(done)) as H1.
  pose proof (normal_forall _ _ [] ltac:(done) (words_from_plain [] l ltac:(by intros ?%elem_of_nil))) as H2.
  pose proof (normal_forall _ _ [] ltac:(done) (proj1 (words_from_forall (fun c => 0 < c < 256) [47] [] l ltac:(done) Ht))) as H3.
  unfold normal, words. apply Forall_forall. rewrite Forall_forall in H1, H2, H3. intros w Hw.
  destruct (H1 w Hw), (H2 w Hw). split_and!; try done. by apply H3.
Qed.

(** A normal path is left alone. *)
Lemma normal_id ws acc : Forall plain ws -> foldl step_component acc ws = acc ++ ws.
Proof.
  intros Hw. revert acc. induction Hw as [|w ws (H1 & H2 & _) Hw IH]; intros acc; simpl; [by rewrite app_nil_r|].
  rewrite IH. unfold step_component. rewrite decide_False, decide_False by done. by rewrite <- app_assoc.
Qed.

Lemma words_absolute ws : Forall plain ws -> words [47] (absolute ws) = ws.
Proof.
  intros Hw. destruct ws as [|w ws]; [done|]. cbn [absolute].
  assert (E : words [47] (47 :: joined [47] (w :: ws)) = words [47] (joined [47] (w :: ws))) by done.
  rewrite E. apply words_joined. eapply Forall_impl; [done|]. intros x (_ & _ & ? & ? & _). done.
Qed.

Lemma text_absolute ws : Forall plain ws -> text (absolute ws).
Proof.
  intros Hw. destruct ws as [|w ws]; [by apply Forall_nil|]. cbn [absolute]. apply Forall_cons. split; [lia|]. revert w Hw.
  induction ws as [|w2 ws IH]; intros w [Hx Hw]%Forall_cons; [apply Hx|]. rewrite joined_cons by done.
  apply text_app. split; [apply Hx|]. apply text_app. split; [|by apply IH]. apply Forall_singleton. lia.
Qed.

(** ** [parsePath] *)

Lemma parse_token_run w acc (al : ArrayList String) :
  text w -> al_wf al -> al_view al = str <$> acc -> al_length al < 2 ^ 31 ->
  exists al', parse_token (str w) al = Ret al' /\ al_wf al' /\ al_view al' = str <$> step_component acc w.
Proof.
  intros Ht Hwf Hv Hn. pose proof (length_al_view _ Hwf) as Hl. rewrite Hv, length_fmap in Hl.
  unfold parse_token, step_component. change dot with (str [46]). change dotdot with (str [46; 46]).
  assert (H46 : text [46] /\ text [46; 46]) by (split; repeat (apply Forall_cons; split; [lia|]); by apply Forall_nil).
  rewrite (equals_str w [46]) by (done || apply H46). outcome.
  destruct (decide (w = [46])) as [Hw|Hw]; [rewrite bool_decide_true by done; by exists al|rewrite bool_decide_false by done].
  rewrite equals_str by (done || apply H46). outcome.
  destruct (decide (w = [46; 46])) as [Hw2|Hw2]; [rewrite bool_decide_true by done|rewrite bool_decide_false by done].
  - unfold ArrayList.isEmpty. destruct (Z.eqb_spec (al_length al) 0) as [Hz|Hz].
    { exists al. rewrite take_ge by lia. done. }
    unfold ArrayList.size. wrap_small. replace (al_length al - 1) with (Z.of_nat (length acc - 1)) by lia.
    destruct (lookup_lt_is_Some_2 acc (length acc - 1)) as [x Hx]; [lia|].
    destruct (removeAt_spec al (length acc - 1) (str x) Hwf) as (al' & E & Hwf' & _ & Hv').
    { by rewrite Hv, list_lookup_fmap, Hx. }
    rewrite E. outcome. exists al'. split_and!; [done|done|]. rewrite Hv', Hv, delete_take_drop.
    rewrite (drop_ge _ (S (length acc - 1))) by (rewrite length_fmap; lia). by rewrite app_nil_r, fmap_take.
  - rewrite String_copy_str. outcome. destruct (add_spec (str w) al Hwf Hn) as (al' & E & Hwf' & _ & Hv'). rewrite E. outcome.
    exists al'. rewrite Hv', Hv, fmap_app. done.
Qed.

Lemma length_step acc w : (length (step_component acc w) <= S (length acc))%nat.
Proof. unfold step_component. destruct (decide _); [lia|]. destruct (decide _); [rewrite length_take; lia|]. rewrite length_app. simpl. lia. Qed.

Lemma parse_tokens_run ws : forall acc (al : ArrayList String),
  Forall text ws -> al_wf al -> al_view al = str <$> acc -> Z.of_nat (length acc + length ws) < 2 ^ 31 ->
  exists al', foldM parse_token (str <$> ws) al = Ret al' /\ al_wf al' /\ al_view al' = str <$> foldl step_component acc ws.
Proof.
  induction ws as [|w ws IH]; intros acc al Ht Hwf Hv Hn; [by exists al|]. apply Forall_cons in Ht as [Hw Ht].
  pose proof (length_al_view _ Hwf) as Hl. rewrite Hv, length_fmap in Hl. simpl in Hn. rewrite fmap_cons. cbn [foldM foldl].
  destruct (parse_token_run w acc al) as (al1 & E1 & Hwf1 & Hv1); [done|done|done|lia|]. rewrite E1. outcome.
  pose proof (length_step acc w). apply IH; [done|done|done|lia].
Qed.

Lemma parsePath_run fuel l :
  short_text fuel l -> parsePath fuel (str l) = Ret (str (absolute (normal (words [47] l)))).
Proof.
  intros Hs. destruct (path_facts fuel l Hs) as (E & Ht & Hl). unfold path in *. destruct Hs as (Htl & Hll & Hf).
  unfold parsePath. change slash with SEPARATOR. rewrite E. outcome. cbn [array strings].
  destruct (parse_tokens_run (words [47] l) [] new_ArrayList Ht) as (al & Ep & Hwf & Hv); [by constructor|done|simpl; lia|].
  rewrite Ep. outcome. fold (normal (words [47] l)) in Hv. set (ws := normal (words [47] l)) in *.
  pose proof (length_al_view _ Hwf) as Hlen. rewrite Hv, length_fmap in Hlen. unfold ArrayList.isEmpty.
  destruct (Z.eqb_spec (al_length al) 0) as [Hz|Hz]; [by destruct ws; [|simpl in Hlen; lia]|].
  rewrite toArray_spec by done. outcome. rewrite Hv, <- Hlen. change (mkArray (str <$> ws) (Z.of_nat (length ws))) with (strings ws).
  assert (Htot : (total ws <= length l + 1)%nat).
  { pose proof (total_normal (words [47] l) []) as H1. pose proof (total_words_from [47] [] l) as H2. simpl in H1, H2.
    unfold ws, normal, words in *. lia. }
  assert (Hws : ws <> []) by (intros E0; rewrite E0 in Hlen; simpl in Hlen; lia).
  assert (Hjoined : S (length (joined [47] ws)) = total ws) by (rewrite <- length_absolute; by destruct ws).
  change SEPARATOR with (str [47]). rewrite join_run; [|done|pose proof (al_width _ Hwf); pose proof (al_bounds _ Hwf); lia|lia]. outcome.
  rewrite plus_str by (simpl; lia). by destruct ws.
Qed.

(** ** Mount points *)

(** A map whose keys can be listed. *)
Class MapKeysSpec (C K V : Type) `{MapSpec C K V} := m_keySet_spec : forall c, m_inv c -> Z.of_nat (base.size (m_view c)) < 2 ^ 31 ->
  exists a c', m_keySet c = Ret (a, c') /\ m_inv c' /\ m_view c' = m_view c /\ array a ≡ₚ (map_to_list (m_view c)).*1.

#[export] Instance HashMap_keys {K V} `{Countable K} `{ToU32 K} `{Junk K} : MapKeysSpec (HashMap K V) K V.
Proof.
  intros c [Hinv Hs] Hn. destruct (keySet_spec c Hinv Hn) as (a & c' & E & Hinv' & Hv & _ & _ & Hp).
  exists a, c'. split_and!; try done. split; [done|]. by rewrite Hv.
Qed.

(** The keys of the mount table are paths. *)
Definition table_ok (m : gmap String Z) : Prop :=
  Z.of_nat (base.size m) < 2 ^ 31 /\
  forall s d, m !! s = Some d -> d <> 0 /\ exists k, s = str k /\ text k /\ k <> [].

(** A path with a separator at the end. *)
Definition slashed (l : list Z) : list Z := if decide ([47] `suffix_of` l) then l else l ++ [47].

Lemma text_slash : text [47].
Proof. apply Forall_singleton. lia. Qed.

Lemma longer_key_run P k best :
  text P -> text k ->
  longer_key (str P) (str k) (str best) = Ret (str (if decide (k `prefix_of` P /\ (length best < length k)%nat) then k else best)).
Proof.
  intros HP Hk. unfold longer_key. rewrite beginsWith_str by done. outcome. unfold String_length. cbn [len str].
  destruct (decide (k `prefix_of` P)) as [Hp|Hp].
  - rewrite bool_decide_true by done. destruct (Z.ltb_spec (Z.of_nat (length best)) (Z.of_nat (length k))).
    + rewrite decide_True by (split; [done|lia]). apply (assign_str k).
    + rewrite decide_False by (intros [_ ?]; lia). done.
  - rewrite bool_decide_false by done. by rewrite decide_False by naive_solver.
Qed.

Lemma longer_keys_run P ks : forall best,
  text P -> Forall text ks ->
  exists best', foldM (longer_key (str P)) (str <$> ks) (str best) = Ret (str best') /\
    (best' = best \/ best' ∈ ks /\ best' `prefix_of` P) /\ (length best <= length best')%nat /\
    (forall k, k ∈ ks -> k `prefix_of` P -> (length k <= length best')%nat).
Proof.
  induction ks as [|k ks IH]; intros best HP Hks.
  { exists best. split_and!; [done|by left|lia|]. by intros ? ?%elem_of_nil. }
  apply Forall_cons in Hks as [Hk Hks]. rewrite fmap_cons. cbn [foldM]. rewrite longer_key_run by done. outcome.
  set (b1 := if decide _ then k else best).
  assert (Hb1 : (b1 = best \/ b1 = k /\ k `prefix_of` P) /\ (length best <= length b1)%nat /\ (k `prefix_of` P -> (length k <= length b1)%nat)).
  { unfold b1. destruct (decide _) as [[? ?]|Hn]; split_and!; auto; [lia|]. intros Hp. destruct (decide (length best < length k)%nat); [|lia]. tauto. }
  destruct (IH b1 HP Hks) as (b' & E & Hb' & Hle & Hmax). exists b'. destruct Hb1 as (Hb1 & Hle1 & Hk1). split_and!; [done| |lia|].
  - destruct Hb' as [->|[Hin Hp]]; [|right; split; [by right|done]]. destruct Hb1 as [->|[-> Hp]]; [by left|]. right. split; [left|done].
  - intros k' [->|Hin]%elem_of_cons Hp; [|by apply Hmax]. specialize (Hk1 Hp). lia.
Qed.

Lemma keys_of_table m (l : list String) : table_ok m -> l ≡ₚ (map_to_list m).*1 ->
  exists ks, l = str <$> ks /\ Forall text ks /\ forall k, k ∈ ks <-> is_Some (m !! str k).
Proof.
  intros [_ Hm] Hp.
  assert (Hin : forall s, s ∈ l <-> is_Some (m !! s)).
  { intros s. rewrite Hp, list_elem_of_fmap. split.
    - intros ([s' d] & -> & Hd%elem_of_map_to_list). eauto.
    - intros [d Hd]. exists (s, d). split; [done|]. by apply elem_of_map_to_list. }
  exists (chars <$> l). assert (Hl : l = str <$> (chars <$> l)).
  { rewrite <- list_fmap_compose. rewrite <- (list_fmap_id l) at 1. apply list_fmap_ext. intros i s Hs.
    destruct (proj1 (Hin s) (list_elem_of_lookup_2 _ _ _ Hs)) as [d Hd]. destruct (Hm s d Hd) as (_ & k & -> & _). simpl. by rewrite chars_str. }
  split_and!; [done| |].
  - apply Forall_fmap, Forall_forall. intros s Hs. destruct (proj1 (Hin s) Hs) as [d Hd]. destruct (Hm s d Hd) as (_ & k & -> & Hk & _). simpl.
    by rewrite chars_str.
  - intros k. rewrite <- Hin. split.
    + intros Hk. rewrite Hl. by apply list_elem_of_fmap_2.
    + intros Hk. rewrite <- (chars_str k). by apply list_elem_of_fmap_2.
Qed.

Section Mounts.
Context {M D : Type} `{MapOps M String Z} `{!MapSpec M String Z} `{!MapKeysSpec M String Z} `{FsDriver D}.
Implicit Types (fs : Filesystem M D).

Lemma getMountedDriver_run l fs :
  text l -> Z.of_nat (length l) + 2 < 2 ^ 31 -> m_inv (mountPoints fs) -> table_ok (m_view (mountPoints fs)) ->
  exists d rest m', getMountedDriver (str l) fs = Ret ((d, str rest), set_mounts m' fs) /\
    m_inv m' /\ m_view m' = m_view (mountPoints fs) /\
    (d = 0 /\ rest = slashed l /\ (forall k, is_Some (m_view (mountPoints fs) !! str k) -> ~ k `prefix_of` slashed l) \/
     exists k, m_view (mountPoints fs) !! str k = Some d /\ d <> 0 /\ k `prefix_of` slashed l /\
       (forall k', is_Some (m_view (mountPoints fs) !! str k') -> k' `prefix_of` slashed l -> (length k' <= length k)%nat) /\
       rest = take (length (slashed l) - 1 - length k) (drop (length k) (slashed l))).
Proof.
  intros Hl Hb Hinv Htab. unfold getMountedDriver, lift, keys. st_step. change slash with (str [47]).
  rewrite endsWith_str by (apply text_slash || done || simpl; lia). outcome.
  assert (Happ : (if negb (bool_decide ([47] `suffix_of` l)) then append (str [47]) (str l) else Ret (str l)) = Ret (str (slashed l))).
  { unfold slashed. destruct (decide _) as [Hs|Hs]; [by rewrite bool_decide_true|]. rewrite bool_decide_false by done. apply append_str. simpl. lia. }
  rewrite Happ. outcome. assert (HP : text (slashed l)).
  { unfold slashed. destruct (decide _); [done|]. apply text_app. split; [done|apply text_slash]. }
  assert (HPl : (1 <= length (slashed l) <= length l + 1)%nat).
  { unfold slashed. destruct (decide _) as [Hs|Hs]; [pose proof (suffix_length _ _ Hs); simpl in *; lia|]. rewrite length_app. simpl. lia. }
  set (P := slashed l) in *. destruct (m_keySet_spec (mountPoints fs) Hinv (proj1 Htab)) as (a & m1 & Ek & Hinv1 & Hv1 & Hp). rewrite Ek. outcome.
  destruct (keys_of_table _ _ Htab Hp) as (ks & Hks & Htk & Hin). rewrite Hks.
  destruct (longer_keys_run P ks [] HP Htk) as (best & Eb & Hbest & _ & Hmax). change (str []) with new_String in Eb. rewrite Eb. outcome.
  unfold KString.isEmpty. cbn [len str]. destruct best as [|x0 best0] eqn:Ebest.
  - change (Z.of_nat (length (@nil Z)) =? 0) with true. eexists 0, P, m1. split; [done|]. split_and!; [done|done|]. left.
    split_and!; [done|done|]. intros k Hk Hpk. specialize (Hmax k (proj2 (Hin k) Hk) Hpk). destruct Hk as [d Hd].
    destruct (proj2 Htab _ _ Hd) as (_ & k' & Hkk & _ & Hne). apply (f_equal chars) in Hkk. rewrite !chars_str in Hkk. subst k'.
    destruct k; [done|simpl in Hmax; lia].
  - rewrite <- Ebest in *. destruct (Z.eqb_spec (Z.of_nat (length best)) 0) as [Hz|_]; [rewrite Ebest in Hz; simpl in Hz; lia|].
    destruct Hbest as [Hbest|[Hbin Hbp]]; [by rewrite Ebest in Hbest|]. unfold String_length. cbn [len str].
    wrap_small. rewrite substring_str by lia. outcome. rewrite assign_str. outcome. unfold mounted_at. cbn [mountPoints set_mounts].
    destruct (proj1 (Hin best) Hbin) as [d Hd]. pose proof (m_get_spec m1 (str best) Hinv1) as Hg. rewrite Hv1, Hd in Hg.
    destruct Hg as (m2 & Eg & Hinv2 & Hv2). rewrite Eg. outcome. eexists d, _, m2. split; [done|].
    split_and!; [done|congruence|]. right. exists best. split_and!; [done|apply (proj2 Htab _ _ Hd)|done| |].
    + intros k' Hk' Hpk'. apply Hmax; [by apply Hin|done].
    + rewrite Nat2Z.id. do 2 f_equal. lia.
Qed.
End Mounts.

(** ** The driver in memory behind the interface

    [alloc] gives the address of the next node. *)

Section RamDriver.
Context `{Junk Z} (fuel : nat) (alloc : RamFsDriver -> Z).

Definition ram_driver : FsDriver RamFsDriver := {|
  d_mount _ d := RamFs.mount (alloc d) d;
  d_getNode p d := RamFs.getNode fuel p d;
  d_createNode p ft d := createNode fuel (alloc d) p ft d;
  d_deleteNode p d := deleteNode fuel p d;
  d_getTypeName _ := TYPE_RAM_FS;
  d_nodeName a d := n ← node_at (nodes d) a; getName n;
  d_addNode p a d := addNode fuel p a d
|}.
End RamDriver.

(** An address that is not in use. *)
Definition next_address (d : RamFsDriver) : Z := fresh ({[0]} ∪ dom (nodes d) : gset Z).

Lemma next_address_free d : next_address d <> 0 /\ nodes d !! next_address d = None.
Proof.
  pose proof (is_fresh ({[0]} ∪ dom (nodes d) : gset Z)) as Hf. fold (next_address d) in Hf. split.
  - set_solver.
  - apply not_elem_of_dom. set_solver.
Qed.

(** The path of a normal list of names below the root mount point. *)
Lemma slashed_absolute ws : Forall plain ws -> ws <> [] -> slashed (absolute ws) = 47 :: joined [47] ws ++ [47].
Proof.
  intros Hw Hne. unfold slashed. rewrite decide_False; [by destruct ws|]. intros [r Hr].
  destruct ws as [|w ws]; [done|]. cbn [absolute] in Hr. clear Hne.
  assert (Hlast : forall c, last (joined [47] (w :: ws)) = Some c -> c <> 47).
  { clear Hr. revert w Hw. clear. induction ws as [|w2 ws IH]; intros w Hw c Hc.
    - apply Forall_cons in Hw as [(_ & _ & _ & H47 & _) _]. intros ->. apply H47. by apply last_Some_elem_of.
    - rewrite joined_cons in Hc by done. apply Forall_cons in Hw as [_ Hw]. rewrite app_assoc, last_app in Hc.
      destruct (last (joined [47] (w2 :: ws))) as [c'|] eqn:E; [injection Hc as <-; by apply (IH w2)|].
      apply last_None in E. apply Forall_cons in Hw as [(_ & _ & Hne & _) _]. destruct ws; simpl in E; [done|].
      by apply app_eq_nil in E as [? _]. }
  assert (Hnn : joined [47] (w :: ws) <> []).
  { apply Forall_cons in Hw as [(_ & _ & Hne & _) _]. destruct ws; simpl; [done|]. by intros [? _]%app_eq_nil. }
  apply (f_equal last) in Hr. rewrite last_app, last_cons in Hr. cbn [last] in Hr.
  destruct (last (joined [47] (w :: ws))) as [c|] eqn:E; [|by apply last_None in E]. injection Hr as Hr. by apply (Hlast c).
Qed.

Section RootMount.
Context {M : Type} `{MapOps M String Z} `{!MapSpec M String Z} `{!MapKeysSpec M String Z}.
Context `{Junk Z} (fuel : nat).
#[local] Instance driver : FsDriver RamFsDriver := ram_driver fuel next_address.
Implicit Types (fs : Filesystem M RamFsDriver).

(** Only the driver at [a] is mounted, at the root. *)
Definition at_root (a : Z) (d : RamFsDriver) fs : Prop :=
  m_inv (mountPoints fs) /\ m_view (mountPoints fs) = {[str [47] := a]} /\ a <> 0 /\ drivers fs !! a = Some d.

(** And nobody holds the lock. *)
Definition root_mounted (a : Z) (d : RamFsDriver) fs : Prop := fsLock fs = new_Spinlock /\ at_root a d fs.

Lemma root_table a d fs : at_root a d fs -> table_ok (m_view (mountPoints fs)).
Proof.
  intros (_ & Hv & Ha & _). rewrite Hv. split; [rewrite map_size_singleton; lia|].
  intros s d' Hs. apply lookup_singleton_Some in Hs as [<- <-]. split; [done|]. exists [47]. split_and!; [done|apply text_slash|done].
Qed.

(** The driver gets the names without the separators around them. *)
Lemma root_driver ws a d fs :
  at_root a d fs -> Forall plain ws -> ws <> [] -> Z.of_nat (total ws) + 2 < 2 ^ 31 ->
  exists m', getMountedDriver (str (absolute ws)) fs = Ret ((a, str (joined [47] ws)), set_mounts m' fs) /\
    at_root a d (set_mounts m' fs).
Proof.
  intros Hr Hw Hne Hn. pose proof Hr as (Hinv & Hv & Ha & Hd).
  destruct (getMountedDriver_run (absolute ws) fs) as (dr & rest & m' & E & Hinv' & Hv' & Hcase);
    [by apply text_absolute|rewrite length_absolute; lia|done|by eapply root_table|].
  exists m'. assert (Hr' : at_root a d (set_mounts m' fs)) by (split_and!; [done|by rewrite <- Hv|done|done]). split; [|done]. rewrite E.
  rewrite slashed_absolute in Hcase by done. rewrite Hv in Hcase. destruct Hcase as [(_ & _ & Hno)|(k & Hk & _ & Hp & _ & ->)].
  - exfalso. apply (Hno [47]); [rewrite lookup_singleton_eq; eauto|]. by exists (joined [47] ws ++ [47]).
  - apply lookup_singleton_Some in Hk as [Hk ->]. apply (f_equal chars) in Hk. rewrite !chars_str in Hk. subst k. do 3 f_equal. cbn [length drop].
    rewrite drop_0. rewrite length_app. simpl. rewrite take_app_le by lia. rewrite take_ge by lia. done.
Qed.

(** The text of a path the driver gets. *)
Lemma joined_short ws : Forall plain ws -> ws <> [] -> Z.of_nat (total ws) + 2 < 2 ^ 31 -> (total ws < fuel)%nat ->
  short_text fuel (joined [47] ws) /\ path (joined [47] ws) = ws.
Proof.
  intros Hw Hne Hn Hf. pose proof (text_absolute ws Hw) as Ht. pose proof (length_absolute ws) as Hl.
  destruct ws as [|w ws]; [done|]. cbn [absolute] in Ht, Hl. apply Forall_cons in Ht as [_ Ht]. cbn [length] in Hl. split.
  - split_and!; [done|lia|lia].
  - apply words_joined. eapply Forall_impl; [done|]. intros x (_ & _ & ? & ? & _). done.
Qed.

Lemma fs_acquire_free fs : fsLock fs = new_Spinlock -> exists l, fs_acquire fs = Ret (tt, set_lock l fs) /\ release l = new_Spinlock.
Proof. intros Hl. unfold fs_acquire. rewrite Hl. eexists. split; [done|]. done. Qed.

Lemma total_path (l : list Z) : (total (normal (words [47%Z] l)) <= length l + 1)%nat.
Proof.
  pose proof (total_normal (words [47] l) []) as H1'. pose proof (total_words_from [47] [] l) as H2'. simpl in H1', H2'.
  unfold normal, words in *. lia.
Qed.

Lemma normal_joined (l : list Z) p x :
  short_text fuel l -> Z.of_nat (length l) + 3 < 2 ^ 31 -> (length l + 1 < fuel)%nat -> normal (words [47] l) = p ++ [x] ->
  parsePath fuel (str l) = Ret (str (absolute (p ++ [x]))) /\ Forall plain (p ++ [x]) /\
  short_text fuel (joined [47] (p ++ [x])) /\ path (joined [47] (p ++ [x])) = p ++ [x] /\ Z.of_nat (total (p ++ [x])) + 2 < 2 ^ 31.
Proof.
  intros Hs Hn Hf E. pose proof (total_path l) as Ht. pose proof (normal_plain l (proj1 Hs)) as Hp. rewrite E in Ht, Hp.
  destruct (joined_short (p ++ [x])) as [H1 H2]; [done|by destruct p|lia|lia|].
  split_and!; [rewrite <- E; by apply parsePath_run|done|done|done|lia].
Qed.

(** A call of the driver under the lock. *)
Lemma create_root (l : list Z) p x ft failed a d fs :
  short_text fuel l -> Z.of_nat (length l) + 3 < 2 ^ 31 -> (length l + 1 < fuel)%nat -> normal (words [47] l) = p ++ [x] ->
  root_mounted a d fs -> fs_ok d -> has_room d ->
  exists b d' fs', create ft failed fuel (str l) fs = Ret (if (b : bool) then SUCCESS else failed, fs') /\ root_mounted a d' fs' /\ fs_ok d' /\
    createNode fuel (next_address d) (str (joined [47] (p ++ [x]))) ft d = Ret (b, d') /\
    (type_at d p = Some DIRECTORY_FILE /\ contents d (p ++ [x]) = None /\ b = true /\
       (forall q, contents d' q = if decide (q = p ++ [x]) then Some (ft, []) else contents d q) \/
     ~ (type_at d p = Some DIRECTORY_FILE /\ contents d (p ++ [x]) = None) /\ b = false /\ d' = d).
Proof.
  intros Hs Hn Hf E Hroot Hok Hroom. destruct (normal_joined l p x Hs Hn Hf E) as (Ep & Hp & Hsj & Hpj & Ht).
  pose proof Hroot as (Hlock & _). destruct (fs_acquire_free fs Hlock) as (lk & Ea & Hrel).
  unfold create, lift. st_step. rewrite Ep. outcome. rewrite Ea. outcome.
  destruct (root_driver (p ++ [x]) a d (set_lock lk fs)) as (m' & Em & Hr'); [apply Hroot|done|by destruct p|done|]. rewrite Em. outcome.
  pose proof Hr' as (Hinv & Hv & Ha & Hd). decide_bool. unfold tell. rewrite Hd. outcome. cbn [d_createNode driver ram_driver].
  destruct (next_address_free d) as [Hn0 Hnf].
  destruct (createNode_run fuel (next_address d) d (joined [47] (p ++ [x])) ft p x) as (b & d' & Ec & Hok' & Hc); [done..|].
  rewrite Ec. outcome. exists b, d'. eexists. split; [done|]. split_and!; [|done|done|done].
  split; [exact Hrel|]. split_and!; [done|done|done|]. apply lookup_insert_eq.
Qed.

Lemma getNode_root (l : list Z) p x a d fs :
  short_text fuel l -> Z.of_nat (length l) + 3 < 2 ^ 31 -> (length l + 1 < fuel)%nat -> normal (words [47] l) = p ++ [x] ->
  root_mounted a d fs -> fs_ok d ->
  exists fs', getNode fuel (str l) fs = Ret ((a, default 0 (resolve (nodes d) (rootNode d) (p ++ [x]))), fs') /\ root_mounted a d fs'.
Proof.
  intros Hs Hn Hf E Hroot Hok. destruct (normal_joined l p x Hs Hn Hf E) as (Ep & Hp & Hsj & Hpj & Ht).
  pose proof Hroot as (Hlock & _). destruct (fs_acquire_free fs Hlock) as (lk & Ea & Hrel).
  unfold getNode, lift. st_step. rewrite Ep. outcome. rewrite Ea. outcome.
  destruct (root_driver (p ++ [x]) a d (set_lock lk fs)) as (m' & Em & Hr'); [apply Hroot|done|by destruct p|done|]. rewrite Em. outcome.
  pose proof Hr' as (Hinv & Hv & Ha & Hd). decide_bool. unfold ask. rewrite Hd. outcome. cbn [d_getNode driver ram_driver].
  rewrite getNode_run by done. rewrite Hpj. outcome. eexists. split; [done|]. split; [exact Hrel|done].
Qed.
End RootMount.

(** ** Claims *)

(** C33. [parsePath] normalises: the empty components and "." of a path are
    skipped and ".." takes back the component before it, or nothing at the
    root; the result is the remaining components, each after one separator, and
    none of them is empty, "." or ".." or has a separator in it. Parsing the
    result again gives the same path. *)
Theorem parsePath_normalises (fuel : nat) (l : list Z)
    (Hl : short_text fuel l) (Hlen : Z.of_nat (length l) + 2 < 2 ^ 31) (Hf : (length l + 1 < fuel)%nat) :
  parsePath fuel (str l) = Ret (str (absolute (normal (words [47] l)))) /\
  Forall plain (normal (words [47] l)) /\
  (p ← parsePath fuel (str l); parsePath fuel p) = parsePath fuel (str l).
Proof.
  pose proof (normal_plain l (proj1 Hl)) as Hp. split_and!; [by apply parsePath_run|done|].
  rewrite parsePath_run by done. outcome. set (ws := normal (words [47] l)) in *.
  assert (Ht : (total ws <= length l + 1)%nat) by apply total_path.
  rewrite parsePath_run by (split_and!; [by apply text_absolute|rewrite length_absolute; lia|rewrite length_absolute; lia]).
  rewrite words_absolute by done. unfold normal at 1. by rewrite normal_id.
Qed.

(** "/a/./b/..//c" is "/a/c". *)
Lemma parsePath_normalises_witness :
  parsePath 20 (str [47; 97; 47; 46; 47; 98; 47; 46; 46; 47; 47; 99]) = Ret (str [47; 97; 47; 99]).
Proof.
  apply (parsePath_normalises 20 [47; 97; 47; 46; 47; 98; 47; 46; 46; 47; 47; 99]); [|simpl; lia|simpl; lia].
  split_and!; [|simpl; lia|simpl; lia]. repeat (apply Forall_cons; split; [lia|]). by apply Forall_nil.
Defined.

(** [getMountedDriver] finds the innermost mount point: of all mount points
    the path lies under it takes the longest, returns the driver mounted there
    and leaves the part of the path below it, without the separators at its
    ends; if the path is under no mount point it returns the null pointer. The
    table of mount points stays the same. *)
Theorem mount_point_longest {M D : Type} `{MapOps M String Z} `{!MapSpec M String Z} `{!MapKeysSpec M String Z}
    (l : list Z) (fs : Filesystem M D)
    (Hl : text l) (Hn : Z.of_nat (length l) + 2 < 2 ^ 31)
    (Hinv : m_inv (mountPoints fs)) (Htab : table_ok (m_view (mountPoints fs))) :
  exists d rest m', getMountedDriver (str l) fs = Ret ((d, str rest), set_mounts m' fs) /\
    m_inv m' /\ m_view m' = m_view (mountPoints fs) /\
    (d = 0 /\ (forall k, is_Some (m_view (mountPoints fs) !! str k) -> ~ k `prefix_of` slashed l) \/
     exists k, m_view (mountPoints fs) !! str k = Some d /\ d <> 0 /\ k `prefix_of` slashed l /\
       (forall k', is_Some (m_view (mountPoints fs) !! str k') -> k' `prefix_of` slashed l -> (length k' <= length k)%nat) /\
       rest = take (length (slashed l) - 1 - length k) (drop (length k) (slashed l))).
Proof.
  destruct (getMountedDriver_run l fs) as (d & rest & m' & E & Hi & Hv & Hc); [done..|]. exists d, rest, m'. split_and!; [done..|].
  destruct Hc as [(-> & _ & Hno)|Hk]; [by left|by right].
Qed.

(** A file that is created through the file system is found there: with the
    driver in memory mounted at the root, [createFile] of a path whose parent
    directory exists and which is free itself returns [SUCCESS], adds exactly
    this path, and [getNode] of the path then returns a regular file; otherwise
    it returns [CREATING_FILE_FAILED] and the tree is unchanged. The lock of the
    file system is free again after each call. *)
Theorem create_then_find {M : Type} `{MapOps M String Z} `{!MapSpec M String Z} `{!MapKeysSpec M String Z} `{Junk Z}
    (fuel : nat) (l x : list Z) (p : list (list Z)) (a : Z) (d : RamFsDriver) (fs : Filesystem M RamFsDriver)
    (Hl : short_text fuel l) (Hn : Z.of_nat (length l) + 3 < 2 ^ 31) (Hf : (length l + 1 < fuel)%nat)
    (Hp : normal (words [47] l) = p ++ [x])
    (Hroot : root_mounted a d fs) (Hok : fs_ok d) (Hroom : has_room d) :
  exists code d' fs', createFile (H0 := driver fuel) fuel (str l) fs = Ret (code, fs') /\ root_mounted a d' fs' /\ fs_ok d' /\
    (type_at d p = Some DIRECTORY_FILE /\ contents d (p ++ [x]) = None /\ code = SUCCESS /\
       (forall q, contents d' q = if decide (q = p ++ [x]) then Some (REGULAR_FILE, []) else contents d q) /\
       (exists node fs'', getNode (H0 := driver fuel) fuel (str l) fs' = Ret ((a, node), fs'') /\ fsLock fs'' = new_Spinlock /\
          kind (nodes d') node = Some REGULAR_FILE) \/
     ~ (type_at d p = Some DIRECTORY_FILE /\ contents d (p ++ [x]) = None) /\ code = CREATING_FILE_FAILED /\ d' = d).
Proof.
  destruct (create_root fuel l p x REGULAR_FILE CREATING_FILE_FAILED a d fs) as (b & d' & fs' & E & Hr' & Hok' & _ & Hc); [done..|].
  eexists _, d', fs'. split; [exact E|]. split_and!; [done|done|].
  destruct Hc as [(H1 & H2 & -> & Hq)|(H1 & -> & ->)]; [left|by right]. split_and!; [done..|].
  destruct (getNode_root fuel l p x a d' fs') as (fs'' & Eg & Hl''); [done..|]. eexists _, fs''. split_and!; [exact Eg|apply Hl''|].
  specialize (Hq (p ++ [x])). rewrite decide_True in Hq by done. unfold contents in Hq.
  destruct (resolve (nodes d') (rootNode d') (p ++ [x])) as [c|]; [|done]. change (default 0 (Some c)) with c. cbn [mbind option_bind] in Hq.
  unfold stored in Hq. unfold kind. destruct (nodes d' !! c) as [n|]; [|done]. injection Hq as Hq _. cbn. by rewrite Hq.
Qed.

(** ** Witnesses and deviations *)

(** Tables with the driver 1 at "/" and also the driver 2 at "/b2/". *)
Lemma small_tables : exists m1 m2 : HashMap String Z,
  put (str [47]) 1 new_HashMap = Ret m1 /\ m_inv m1 /\ m_view m1 = {[str [47] := 1]} /\
  put (str [47; 98; 50; 47]) 2 m1 = Ret m2 /\ m_inv m2 /\ m_view m2 = <[str [47; 98; 50; 47] := 2]> {[str [47] := 1]}.
Proof.
  destruct (hm_inv_new (K:=String) (V:=Z) 47 ltac:(lia)) as [H0 V0].
  destruct (m_put_spec (new_HashMap_size (K:=String) (V:=Z) 47) (str [47]) 1) as (m1 & E1 & Hi1 & Hv1).
  { split; [done|]. by rewrite V0, map_size_empty. }
  { change (m_view (new_HashMap_size 47)) with (hm_view (new_HashMap_size (K:=String) (V:=Z) 47)). by rewrite V0, map_size_empty. }
  change (m_view (new_HashMap_size 47)) with (hm_view (new_HashMap_size (K:=String) (V:=Z) 47)) in Hv1. rewrite V0 in Hv1.
  destruct (m_put_spec m1 (str [47; 98; 50; 47]) 2 Hi1) as (m2 & E2 & Hi2 & Hv2).
  { rewrite Hv1. rewrite insert_empty, map_size_singleton. lia. }
  exists m1, m2. rewrite Hv1, insert_empty in Hv2. by rewrite Hv1, insert_empty.
Qed.

#[local] Instance no_junk {T} `{Inhabited T} : Junk T := fun _ => inhabitant.

Lemma mount_point_longest_witness : exists (m m' : HashMap String Z),
  getMountedDriver (D := RamFsDriver) (str [47; 98; 50; 47; 99]) (mkFilesystem m new_Spinlock ∅) =
    Ret ((2, str [99]), mkFilesystem m' new_Spinlock ∅).
Proof.
  destruct small_tables as (_ & m & _ & _ & _ & _ & Hi & Hv).
  destruct (mount_point_longest (D := RamFsDriver) [47; 98; 50; 47; 99] (mkFilesystem m new_Spinlock ∅))
    as (d & rest & m' & E & _ & _ & Hc).
  - repeat (apply Forall_cons; split; [lia|]). by apply Forall_nil.
  - simpl. lia.
  - done.
  - cbn [mountPoints]. rewrite Hv. split; [by vm_compute|]. intros s d Hs.
    apply lookup_insert_Some in Hs as [[<- <-]|[_ Hs]]; [|apply lookup_singleton_Some in Hs as [<- <-]]; split; try lia; eexists; split_and!;
      try reflexivity; repeat (apply Forall_cons; split; [lia|]); by try apply Forall_nil.
  - exists m, m'. rewrite E. cbn [mountPoints] in Hc. rewrite Hv in Hc. change (slashed _) with [47; 98; 50; 47; 99; 47] in Hc.
    destruct Hc as [[_ Hno]|(k & Hk & _ & _ & Hlong & ->)].
    + exfalso. apply (Hno [47]); [|by exists [98; 50; 47; 99; 47]]. rewrite lookup_insert_ne by done. rewrite lookup_singleton_eq. eauto.
    + specialize (Hlong [47; 98; 50; 47]). rewrite lookup_insert_eq in Hlong.
      specialize (Hlong ltac:(eauto) ltac:(by exists [99; 47])).
      apply lookup_insert_Some in Hk as [[Hk <-]|[_ [Hk <-]%lookup_singleton_Some]]; apply (f_equal chars) in Hk; rewrite !chars_str in Hk; subst k;
        [done|simpl in Hlong; lia].
Defined.

Lemma create_then_find_witness : exists (m : HashMap String Z) code d' fs',
  createFile (H0 := driver 9) 9 (str [47; 46; 47; 97]) (mkFilesystem m new_Spinlock {[1 := mounted]}) = Ret (code, fs') /\
  code = SUCCESS /\ contents d' [[97]] = Some (REGULAR_FILE, []) /\ drivers fs' !! 1 = Some d'.
Proof.
  destruct small_tables as (m & _ & _ & Hi & Hv & _).
  destruct (create_then_find 9 [47; 46; 47; 97] [97] [] 1 mounted (mkFilesystem m new_Spinlock {[1 := mounted]}))
    as (code & d' & fs' & E & Hr & _ & Hc).
  - split_and!; [|simpl; lia|simpl; lia]. repeat (apply Forall_cons; split; [lia|]). by apply Forall_nil.
  - simpl. lia.
  - simpl. lia.
  - done.
  - split; [done|]. split_and!; [done|done|done|]. apply lookup_singleton_eq.
  - apply mounted_ok.
  - apply mounted_ok.
  - exists m, code, d', fs'. destruct Hc as [(_ & _ & -> & Hq & _)|(Hno & _)]; [|by exfalso; apply Hno].
    split_and!; [done|done|by rewrite Hq|apply Hr].
Defined.

(** [deleteFile] compares the path without a separator at its end with the mount
    points: a file "/b" cannot be deleted while something is mounted at "/b2". *)
Theorem delete_blocked_by_sibling_mount :
  (m ← put (str [47]) 1 new_HashMap; m ← put (str [47; 98; 50; 47]) 2 m;
   r ← deleteFile (H0 := driver 9) 9 (str [47; 98]) (mkFilesystem m new_Spinlock {[1 := mounted]}); Ret r.1) =
  Ret SUBDIRECTORY_CONTAINS_MOUNT_POINT.
Proof. by vm_compute. Qed.

(** [addVirtualNode] calls the driver before it looks whether there is one. *)
Theorem virtual_node_without_driver_faults :
  addVirtualNode (H0 := driver 9) 9 (str [47; 98]) 1 (mkFilesystem (new_HashMap (K := String) (V := Z)) new_Spinlock ∅) = Fault.
Proof. by vm_compute. Qed.
