(* ===== verification/Boot.v ===== *)
(** * The boot sequence

    [kernel/boot/BootCoordinator.cpp] and [BootComponent.cpp]: components with
    dependencies are arranged in layers and started layer by layer; the
    coordinator waits for a layer before it starts the next one. Components and
    layers are objects on the heap. Starting a component, waiting for it and the
    final call of [onFinish] are events; a component has run when it was waited
    for. *)

From S2P Require Import Prelude Array Collections ArrayList LinkedQueue.

(** ** Components *)

Record BootComponent := mkComponent { waiting : bool; finished : bool; dependencies : ArrayList Z }.

Inductive boot_event := Start (c : Z) | Join (c : Z) | OnFinish.

Section Components.
Context `{Junk Z}.

Definition new_BootComponent (dependencies : Array Z) : outcome BootComponent :=
  al ← of_Array dependencies; Ret (mkComponent true false al).

(** [run], with [function] between the two assignments. *)
Definition run_component (c : BootComponent) : BootComponent := mkComponent false true (dependencies c).

Definition isWaiting (c : BootComponent) : bool := waiting c.
Definition hasFinished (c : BootComponent) : bool := finished c.

(** [started] is [Thread::hasStarted]. *)
Definition addDependency (started : bool) (dependency : Z) (c : BootComponent) : outcome BootComponent :=
  if started then Throw ILLEGAL_STATE
  else r ← ArrayList.add dependency (dependencies c); Ret (mkComponent (waiting c) (finished c) (snd r)).

Definition hasDependencies (c : BootComponent) : bool := negb (ArrayList.isEmpty (dependencies c)).

Definition removeDependency (dependency : Z) (c : BootComponent) : outcome BootComponent :=
  r ← ArrayList.remove dependency (dependencies c); Ret (mkComponent (waiting c) (finished c) (snd r)).
End Components.

(** ** The coordinator *)

Record BootCoordinator := mkCoordinator {
  hasStarted : bool;
  components : ArrayList Z;
  layeredComponents : ArrayList Z;
  objects : gmap Z BootComponent;
  layers : gmap Z (ArrayList Z);
  events : list boot_event
}.

Definition set_components (al : ArrayList Z) (b : BootCoordinator) : BootCoordinator :=
  mkCoordinator (hasStarted b) al (layeredComponents b) (objects b) (layers b) (events b).
Definition set_layered (al : ArrayList Z) (m : gmap Z (ArrayList Z)) (b : BootCoordinator) : BootCoordinator :=
  mkCoordinator (hasStarted b) (components b) al (objects b) m (events b).
Definition set_objects (m : gmap Z BootComponent) (b : BootCoordinator) : BootCoordinator :=
  mkCoordinator (hasStarted b) (components b) (layeredComponents b) m (layers b) (events b).
Definition set_started (b : BootCoordinator) : BootCoordinator :=
  mkCoordinator true (components b) (layeredComponents b) (objects b) (layers b) (events b).
Definition emit (e : boot_event) (b : BootCoordinator) : BootCoordinator :=
  mkCoordinator (hasStarted b) (components b) (layeredComponents b) (objects b) (layers b) (events b ++ [e]).

Section Coordinator.
Context `{Junk Z} `{NewNode (Node Z)} `{NewNode (ArrayList Z)}.
Implicit Types (b : BootCoordinator) (q : LinkedBlockingQueue Z).

Definition addComponent (component : Z) b : outcome BootCoordinator :=
  if hasStarted b then Ret b else r ← ArrayList.add component (components b); Ret (set_components (snd r) b).

Definition new_BootCoordinator (objects : gmap Z BootComponent) (components : Array Z) : outcome BootCoordinator :=
  foldM addComponent (array components) (mkCoordinator false new_ArrayList new_ArrayList objects ∅ []).

Definition getComponents b : outcome (Array Z) := ArrayList.toArray (components b).

(** The loop that looks for components without dependencies. *)
Definition select (component : Z) (s : LinkedBlockingQueue Z * BootCoordinator) : outcome (LinkedBlockingQueue Z * BootCoordinator) :=
  let '(queue, b) := s in
  c ← or_fault (objects b !! component);
  if hasDependencies c then Ret (queue, b)
  else
    queue ← LinkedQueue.push component queue;
    r ← ArrayList.remove component (components b);
    Ret (queue, set_components (snd r) b).

(** [component->removeDependency(queueComponent)] *)
Definition resolve_in (queueComponent component : Z) b : outcome BootCoordinator :=
  c ← or_fault (objects b !! component);
  c ← removeDependency queueComponent c;
  Ret (set_objects (<[component := c]> (objects b)) b).

(** The loop over the queue. *)
Definition settle (i queueComponent : Z) (s : LinkedBlockingQueue Z * BootCoordinator) : outcome (LinkedBlockingQueue Z * BootCoordinator) :=
  let '(queue, b) := s in
  b ← range_for (iterable_of (components b)) (resolve_in queueComponent) b;
  r ← LinkedQueue.remove (S (Z.to_nat (lq_length queue))) queueComponent queue;
  p ← ArrayList.get i (layeredComponents b);
  layer ← or_fault (layers b !! p);
  l ← ArrayList.add queueComponent layer;
  Ret (snd r, set_layered (layeredComponents b) (<[p := snd l]> (layers b)) b).

(** [layeredComponents.add(new ArrayList)] *)
Definition open_layer b : outcome BootCoordinator :=
  let p := new_address (layers b) in
  r ← ArrayList.add p (layeredComponents b);
  Ret (set_layered (snd r) (<[p := new_ArrayList]> (layers b)) b).

Fixpoint layers_loop (fuel : nat) (i : Z) queue b : outcome BootCoordinator :=
  match fuel with
  | O => Diverge
  | S fuel =>
      if ArrayList.isEmpty (components b) then Ret b
      else
        b ← open_layer b;
        '(queue, b) ← range_for (iterable_of (components b)) select (queue, b);
        '(queue, b) ← range_for (mkIterable (LinkedQueue.begin queue) (LinkedQueue.end' queue)) (settle i) (queue, b);
        layers_loop fuel (u32 (i + 1)) queue b
  end.

(** The components in the order of the layers, for the boot screen. *)
Definition refill (p : Z) b : outcome BootCoordinator :=
  layer ← or_fault (layers b !! p);
  range_for (iterable_of layer) (fun component b => r ← ArrayList.add component (components b); Ret (set_components (snd r) b)) b.

Definition buildComponentLayers (fuel : nat) b : outcome BootCoordinator :=
  b ← layers_loop fuel 0 new_LinkedBlockingQueue b;
  range_for (iterable_of (layeredComponents b)) refill b.

Definition start (component : Z) b : outcome BootCoordinator :=
  _ ← or_fault (objects b !! component); Ret (emit (Start component) b).

Definition join (component : Z) b : outcome BootCoordinator :=
  c ← or_fault (objects b !! component);
  Ret (emit (Join component) (set_objects (<[component := run_component c]> (objects b)) b)).

Definition run_layer (p : Z) b : outcome BootCoordinator :=
  layer ← or_fault (layers b !! p);
  b ← range_for (iterable_of layer) start b;
  b ← range_for (iterable_of layer) join b;
  Ret (set_layered (layeredComponents b) (base.delete p (layers b)) b).

Definition run (fuel : nat) b : outcome BootCoordinator :=
  if hasStarted b then Ret b
  else
    b ← buildComponentLayers fuel (set_started b);
    b ← range_for (iterable_of (layeredComponents b)) run_layer b;
    Ret (emit OnFinish b).
End Coordinator.

(** ** Layers of a dependency graph

    [deps] is the graph; a component is free among [rem] if none of its
    dependencies is there. *)

Section Layering.
Context (deps : Z -> list Z).

Definition free (rem : list Z) (c : Z) : Prop := Forall (fun d => d ∉ rem) (deps c).

#[global] Instance free_dec rem c : Decision (free rem c).
Proof. unfold free. apply _. Defined.

Definition ready (rem : list Z) : list Z := filter (free rem) rem.
Definition rest (rem : list Z) : list Z := filter (fun c => ~ free rem c) rem.

(** What is left of the dependencies. *)
Definition open (rem : list Z) (c : Z) : list Z := filter (fun d => d ∈ rem) (deps c).

Fixpoint layering (n : nat) (rem : list Z) : list (list Z) :=
  match n, rem with
  | S n, _ :: _ => ready rem :: layering n (rest rem)
  | _, _ => []
  end.

Lemma free_open rem c : free rem c <-> open rem c = [].
Proof.
  unfold free, open. induction (deps c) as [|d l IH]; [done|]. rewrite Forall_cons, filter_cons. destruct (decide (d ∈ rem)); naive_solver.
Qed.

Lemma ready_rest_perm rem : ready rem ++ rest rem ≡ₚ rem.
Proof. apply filter_app_complement. Qed.

Lemma elem_of_split rem d : d ∈ rem <-> d ∈ ready rem \/ d ∈ rest rem.
Proof. unfold ready, rest. rewrite !list_elem_of_filter. destruct (decide (free rem d)); tauto. Qed.

(** The dependencies that are left when the free components are gone. *)
Lemma open_rest rem c : open (rest rem) c = filter (fun d => d ∉ ready rem) (open rem c).
Proof.
  unfold open. rewrite list_filter_filter. apply list_filter_iff. intros d. unfold ready, rest. rewrite !list_elem_of_filter.
  destruct (decide (free rem d)); tauto.
Qed.

(** ** Acyclic graphs *)

Context (rank : Z -> nat).

(** Dependencies have a smaller rank. *)
Definition ranked (rem : list Z) : Prop := forall c d, c ∈ rem -> d ∈ deps c -> (rank d < rank c)%nat.

(** A least element is free. *)
Lemma ranked_ready rem : ranked rem -> rem <> [] -> ready rem <> [].
Proof.
  intros Hr Hne. assert (Hmin : exists c, c ∈ rem /\ forall d, d ∈ rem -> (rank c <= rank d)%nat).
  { clear Hr. induction rem as [|c l IH]; [done|]. destruct l as [|c' l].
    - exists c. split; [left|]. intros d ->%list_elem_of_singleton. lia.
    - destruct IH as (m & Hm & Hle); [done|]. destruct (decide (rank c <= rank m)%nat).
      + exists c. split; [left|]. intros d [->|Hd]%elem_of_cons; [lia|]. specialize (Hle d Hd). lia.
      + exists m. split; [by right|]. intros d [->|Hd]%elem_of_cons; [lia|by apply Hle]. }
  destruct Hmin as (c & Hc & Hle). intros E. apply (filter_nil_not_elem_of (free rem) rem c E); [|done].
  apply Forall_forall. intros d Hd Hin. specialize (Hle d Hin). specialize (Hr c d Hc Hd). lia.
Qed.

Lemma ranked_rest rem : ranked rem -> ranked (rest rem).
Proof. intros Hr c d Hc. apply Hr. unfold rest in Hc. by apply list_elem_of_filter in Hc as [_ ?]. Qed.

Lemma length_rest rem : ranked rem -> rem <> [] -> (length (rest rem) < length rem)%nat.
Proof.
  intros Hr Hne. pose proof (ranked_ready rem Hr Hne) as Hy. rewrite <- (ready_rest_perm rem) at 2. rewrite length_app.
  destruct (ready rem); [done|simpl; lia].
Qed.
End Layering.

(** ** One round of the coordinator *)

(** A component with these dependencies left. *)
Definition comp_ok (o : BootComponent) (l : list Z) : Prop := al_wf (dependencies o) /\ allocated (dependencies o) /\ al_view (dependencies o) = l.

Section Rounds.
Context `{Junk Z} `{NewNode (Node Z)} `{NewNode (ArrayList Z)} (deps : Z -> list Z).
Implicit Types (b : BootCoordinator) (q : LinkedBlockingQueue Z).

Lemma hasDependencies_ok o l : comp_ok o l -> hasDependencies o = bool_decide (l <> []).
Proof.
  intros (Hwf & _ & Hv). pose proof (length_al_view _ Hwf) as Hl. rewrite Hv in Hl. unfold hasDependencies, ArrayList.isEmpty. rewrite <- Hl.
  by destruct l.
Qed.

Lemma select_run rem l2 : forall l1 q ch b,
  NoDup (l1 ++ l2) -> Z.of_nat (length (l1 ++ l2)) < 2 ^ 30 -> chained q ch -> ch.*2 = filter (free deps rem) l1 ->
  al_wf (components b) -> allocated (components b) -> al_view (components b) = filter (fun c => ~ free deps rem c) l1 ++ l2 ->
  (forall c, c ∈ l2 -> exists o, objects b !! c = Some o /\ comp_ok o (open deps rem c)) ->
  exists q' ch' al', foldM select l2 (q, b) = Ret (q', set_components al' b) /\ chained q' ch' /\ ch'.*2 = filter (free deps rem) (l1 ++ l2) /\
    al_wf al' /\ allocated al' /\ al_view al' = filter (fun c => ~ free deps rem c) (l1 ++ l2).
Proof.
  induction l2 as [|c l2 IH]; intros l1 q ch b Hnd Hlen Hq Hch Hwf Hal Hv Ho.
  { exists q, ch, (components b). rewrite !app_nil_r in *. split_and!; try done. by destruct b. }
  destruct (Ho c) as (o & Hoc & Hok); [left|]. cbn [foldM select]. rewrite Hoc. outcome. rewrite (hasDependencies_ok _ _ Hok).
  assert (El : l1 ++ c :: l2 = (l1 ++ [c]) ++ l2) by by rewrite <- app_assoc. rewrite El in *.
  assert (Hnext : forall c', c' ∈ l2 -> exists o', objects b !! c' = Some o' /\ comp_ok o' (open deps rem c')) by (intros; apply Ho; by right).
  destruct (decide (free deps rem c)) as [Hf|Hf].
  - rewrite bool_decide_false by (intros Hn; by apply free_open in Hf).
    assert (Hchl : (length ch <= length l1)%nat) by (rewrite <- (length_fmap snd), Hch; apply length_filter).
    destruct (push_chained q ch c Hq) as (q1 & a & E1 & Hq1); [rewrite !length_app in Hlen; lia|]. rewrite E1. outcome.
    destruct (remove_filter c (components b) Hwf Hal) as (r & al1 & E2 & Hwf1 & Hal1 & Hv1).
    { rewrite Hv. apply NoDup_app in Hnd as (Hn1 & Hn2 & Hn3). apply NoDup_app in Hn1 as (Hn1 & Hn4 & _). rewrite NoDup_app. split_and!.
      - by apply NoDup_filter.
      - intros y [_ Hy]%list_elem_of_filter [->|Hy']%elem_of_cons; [apply (Hn4 c Hy); left|]. apply (Hn2 y); [set_solver|done].
      - apply NoDup_cons. split; [apply Hn2; set_solver|done]. }
    rewrite E2. outcome. destruct (IH (l1 ++ [c]) q1 (ch ++ [(a, c)]) (set_components al1 b)) as (q' & ch' & al' & E' & Hrest); try done.
    + rewrite filter_app, fmap_app, Hch. by rewrite filter_cons_True, filter_nil.
    + change (components (set_components al1 b)) with al1. rewrite Hv1, Hv.
      assert (Hr : filter (fun c => ~ free deps rem c) (l1 ++ [c]) = filter (fun c => ~ free deps rem c) l1).
      { rewrite filter_app, filter_singleton_False by tauto. apply app_nil_r. }
      rewrite Hr, filter_app, filter_cons_False by tauto.
      apply NoDup_app in Hnd as (Hn1 & Hn2 & _). apply NoDup_app in Hn1 as (_ & Hn4 & _).
      f_equal; apply filter_all; intros y Hy ->; [|apply (Hn2 c); [set_solver|done]].
      apply list_elem_of_filter in Hy as [_ Hy]. apply (Hn4 c Hy). left.
    + exists q', ch', al'. rewrite E'. split; [done|exact Hrest].
  - rewrite bool_decide_true by (intros Hn; by apply free_open in Hn). outcome.
    destruct (IH (l1 ++ [c]) q ch b) as (q' & ch' & al' & E' & Hrest); try done.
    + rewrite filter_app, filter_cons_False, filter_nil, app_nil_r by done. done.
    + rewrite Hv, filter_app, filter_cons_True, filter_nil by done. by rewrite <- app_assoc.
    + exists q', ch', al'. by rewrite E'.
Qed.
End Rounds.

Section Settling.
Context `{Junk Z} `{NewNode (Node Z)} `{NewNode (ArrayList Z)}.
Implicit Types (b : BootCoordinator) (q : LinkedBlockingQueue Z).

(** Every component forgets one dependency. *)
Lemma resolve_run x l : forall b (L : Z -> list Z),
  NoDup l -> (forall c, c ∈ l -> NoDup (L c) /\ exists o, objects b !! c = Some o /\ comp_ok o (L c)) ->
  exists m, foldM (resolve_in x) l b = Ret (set_objects m b) /\
    (forall c, c ∈ l -> exists o, m !! c = Some o /\ comp_ok o (filter (fun d => d <> x) (L c))) /\
    (forall c, c ∉ l -> m !! c = objects b !! c).
Proof.
  induction l as [|c l IH]; intros b L Hnd Ho.
  { exists (objects b). split_and!; [by destruct b|by intros ? ?%elem_of_nil|done]. }
  apply NoDup_cons in Hnd as [Hc Hnd]. destruct (Ho c) as (HL & o & Hoc & Hwf & Hal & Hv); [left|]. cbn [foldM].
  destruct (remove_filter x (dependencies o) Hwf Hal) as (r & al & E & Hwf' & Hal' & Hv'); [by rewrite Hv|].
  set (b1 := set_objects (<[c := mkComponent (waiting o) (finished o) al]> (objects b)) b).
  assert (E1 : resolve_in x c b = Ret b1) by (unfold resolve_in, removeDependency; rewrite Hoc; outcome; by rewrite E). rewrite E1. outcome. destruct (IH b1 L Hnd) as (m & Em & Hin & Hout).
  { intros c' Hc'. destruct (Ho c') as (HL' & o' & Ho' & Hok'); [by right|]. split; [done|]. exists o'. split; [|done].
    cbn [b1 objects set_objects]. rewrite lookup_insert_ne; [done|]. by intros ->. }
  exists m. rewrite Em. split_and!; [done| |].
  - intros c' [->|Hc']%elem_of_cons; [|by apply Hin]. eexists. rewrite Hout by done. split; [apply lookup_insert_eq|].
    split_and!; [done|done|]. cbn [dependencies]. by rewrite Hv', Hv.
  - intros c' Hc'. rewrite Hout by set_solver. cbn [b1 objects set_objects]. rewrite lookup_insert_ne; [done|]. intros ->. apply Hc'. left.
Qed.

(** The free components leave the queue, the dependencies of the others and fill
    the layer at [p]. *)
Lemma settle_run (i : nat) p cs r2 : forall r1 q ch b layer (L : Z -> list Z),
  chained q ch -> ch.*2 = r2 -> Z.of_nat (length (r1 ++ r2)) < 2 ^ 30 ->
  al_wf (components b) -> al_view (components b) = cs -> NoDup cs ->
  al_wf (layeredComponents b) -> al_view (layeredComponents b) !! i = Some p ->
  layers b !! p = Some layer -> al_wf layer -> al_view layer = r1 ->
  (forall c, c ∈ cs -> NoDup (L c) /\ exists o, objects b !! c = Some o /\ comp_ok o (filter (fun d => d ∉ r1) (L c))) ->
  exists q' m layer', foldM (settle (Z.of_nat i)) r2 (q, b) =
      Ret (q', set_layered (layeredComponents b) (<[p := layer']> (layers b)) (set_objects m b)) /\
    chained q' [] /\ al_wf layer' /\ al_view layer' = r1 ++ r2 /\
    (forall c, c ∈ cs -> exists o, m !! c = Some o /\ comp_ok o (filter (fun d => d ∉ r1 ++ r2) (L c))) /\
    (forall c, c ∉ cs -> m !! c = objects b !! c).
Proof.
  induction r2 as [|x r2 IH]; intros r1 q ch b layer L Hq Hch Hlen Hwf Hv Hnd Hwl Hi Hp Hwy Hvy Ho.
  { exists q, (objects b), layer. rewrite app_nil_r. apply fmap_nil_inv in Hch. rewrite Hch in Hq. split_and!; try done.
    - rewrite insert_id by done. by destruct b.
    - intros c Hc. by apply Ho. }
  destruct ch as [|[a y] ch]; [done|]. injection Hch as -> Hch. cbn [foldM settle].
  rewrite (range_for_yields _ (al_view (components b))) by (by apply ArrayList_yields). rewrite Hv.
  destruct (resolve_run x cs b (fun c => filter (fun d => d ∉ r1) (L c)) Hnd) as (m & Em & Hin & Hout).
  { intros c Hc. destruct (Ho c Hc) as [HL Hob]. split; [by apply NoDup_filter|done]. }
  rewrite Em. outcome. destruct (remove_head (S (Z.to_nat (lq_length q))) q ch a x Hq) as (q1 & E1 & Hq1). rewrite E1. outcome.
  cbn [layeredComponents set_objects layers]. rewrite (ArrayList.get_spec _ _ _ Hwl Hi). outcome. rewrite Hp. outcome.
  pose proof (length_al_view _ Hwy) as Hly. rewrite Hvy in Hly. rewrite length_app in Hlen.
  destruct (ArrayList.add_spec x layer Hwy) as (layer1 & E2 & Hwy1 & _ & Hvy1); [lia|]. rewrite E2. outcome.
  set (b1 := set_layered _ _ _). assert (El : r1 ++ x :: r2 = (r1 ++ [x]) ++ r2) by by rewrite <- app_assoc. rewrite El.
  assert (Hstep : forall c, filter (fun d => d <> x) (filter (fun d => d ∉ r1) (L c)) = filter (fun d => d ∉ r1 ++ [x]) (L c)).
  { intros c. rewrite list_filter_filter. apply list_filter_iff. intros d. set_solver. }
  destruct (IH (r1 ++ [x]) q1 ch b1 layer1 L) as (q' & m' & layer' & E' & Hq' & Hwy' & Hvy' & Hin' & Hout'); try done.
  - rewrite !length_app. simpl in *. lia.
  - cbn [b1 layers set_layered]. apply lookup_insert_eq.
  - by rewrite Hvy1, Hvy.
  - intros c Hc. split; [apply (Ho c Hc)|]. destruct (Hin c Hc) as (o & Hoc & Hok). exists o. split; [done|]. by rewrite <- Hstep.
  - exists q', m', layer'. split_and!; try done.
    + rewrite E'. unfold b1, set_layered, set_objects. cbn [layers layeredComponents hasStarted components events]. by rewrite insert_insert_eq.
    + intros c Hc. rewrite Hout' by done. cbn. by apply Hout.
Qed.
End Settling.

(** ** All rounds *)

Section Loop.
Context `{Junk Z} `{NewNode (Node Z)} `{NewNode (ArrayList Z)} (deps : Z -> list Z).
Context (deps_nodup : forall c, NoDup (deps c)).
Implicit Types (b : BootCoordinator) (q : LinkedBlockingQueue Z) (rem : list Z) (ls : list (list Z)).

(** The layer at an address. *)
Definition layer_at b (p : Z) (l : list Z) : Prop := exists al, layers b !! p = Some al /\ al_wf al /\ al_view al = l.

(** [rem] is left and the layers [ls] are built. *)
Record boot_at b rem ps ls : Prop := {
  at_wf : al_wf (components b);
  at_view : al_view (components b) = rem;
  at_nodup : NoDup rem;
  at_lwf : al_wf (layeredComponents b);
  at_lview : al_view (layeredComponents b) = ps;
  at_pnodup : NoDup ps;
  at_layers : Forall2 (layer_at b) ps ls;
  at_objects : forall c, c ∈ rem -> exists o, objects b !! c = Some o /\ comp_ok o (open deps rem c)
}.

(** Nothing but the layering changes, and no component gets lost. *)
Definition same_boot b b' : Prop :=
  hasStarted b' = hasStarted b /\ events b' = events b /\ forall c, is_Some (objects b !! c) -> is_Some (objects b' !! c).

Lemma open_layer_run b rem ps ls : boot_at b rem ps ls -> Z.of_nat (length ps) < 2 ^ 30 ->
  exists b' p, open_layer b = Ret b' /\ boot_at b' rem (ps ++ [p]) (ls ++ [[]]) /\ same_boot b b'.
Proof.
  intros [Hwf Hv Hnd Hlwf Hlv Hpnd Hls Ho] Hn. unfold open_layer. destruct (new_address_free (layers b)) as [_ Hfree].
  set (p := new_address (layers b)) in *. pose proof (length_al_view _ Hlwf) as Hll. rewrite Hlv in Hll.
  destruct (ArrayList.add_spec p (layeredComponents b) Hlwf) as (al & E & Hwf' & _ & Hv'); [lia|]. rewrite E. outcome. eexists _, p. split; [done|].
  assert (Hold : Forall2 (fun p' l => p' <> p /\ layer_at b p' l) ps ls).
  { eapply Forall2_impl; [exact Hls|]. intros p' l Hl. split; [|done]. intros ->. destruct Hl as (al' & Hal' & _). congruence. }
  split; [|split_and!; [done|done|intros c Hc; exact Hc]]. constructor; cbn [components layeredComponents layers objects set_layered snd]; try done.
  - by rewrite Hv', Hlv.
  - apply NoDup_app. split_and!; [done| |apply NoDup_singleton]. intros p' Hp' ->%list_elem_of_singleton.
    apply list_elem_of_lookup in Hp' as [i Hi]. destruct (Forall2_lookup_l _ _ _ _ _ Hold Hi) as (l & _ & Hne & _). done.
  - apply Forall2_app.
    + eapply Forall2_impl; [exact Hold|]. intros p' l [Hne (al' & Hal' & Hrest)]. exists al'. split; [|done]. cbn. by rewrite lookup_insert_ne.
    + apply Forall2_cons. split; [|done]. exists new_ArrayList. split; [apply lookup_insert_eq|]. by split; [constructor|].
Qed.

(** One round. *)
Lemma round_run b rem ps ls q i : boot_at b rem ps ls -> chained q [] -> rem <> [] -> i = Z.of_nat (length ps) ->
  Z.of_nat (length rem) < 2 ^ 30 -> Z.of_nat (length ps) < 2 ^ 30 ->
  exists p q' b', (b ← open_layer b;
      '(queue, b) ← range_for (iterable_of (components b)) select (q, b);
      range_for (mkIterable (LinkedQueue.begin queue) (LinkedQueue.end' queue)) (settle i) (queue, b)) = Ret (q', b') /\
    chained q' [] /\ boot_at b' (rest deps rem) (ps ++ [p]) (ls ++ [ready deps rem]) /\ same_boot b b'.
Proof.
  intros Hb Hq Hne -> Hr Hp. destruct (open_layer_run b rem ps ls Hb Hp) as (b1 & p & E1 & Hb1 & Hs1 & Hs2 & Hs3). rewrite E1. outcome.
  destruct Hb1 as [Hwf Hv Hnd Hlwf Hlv Hpnd Hls Ho].
  rewrite (range_for_yields _ rem) by (rewrite <- Hv; by apply ArrayList_yields).
  destruct (select_run deps rem rem [] q [] b1) as (q2 & ch & al & E2 & Hq2 & Hch & Hwf2 & Hal2 & Hv2); try done.
  { apply nonempty_allocated; [done|congruence]. }
  rewrite E2. outcome. rewrite (range_for_yields _ (ch.*2)) by (by apply yields_chained).
  assert (Hps : al_view (layeredComponents b1) !! length ps = Some p) by (rewrite Hlv; by apply list_lookup_middle).
  apply Forall2_app_inv in Hls as [Hls Hlast]; [|eapply Forall2_length, Hb]. apply Forall2_cons in Hlast as [(layer & Hp1 & Hwy & Hvy) _].
  assert (Hready : ch.*2 = ready deps rem) by done.
  assert (Hrest : al_view al = rest deps rem) by done.
  destruct (settle_run (length ps) p (rest deps rem) (ch.*2) [] q2 ch (set_components al b1) layer (open deps rem))
    as (q' & m & layer' & E3 & Hq' & Hwy' & Hvy' & Hin & Hout); try done.
  { rewrite Hready. pose proof (length_filter (free deps rem) rem). unfold ready. simpl. lia. }
  { by apply NoDup_filter. }
  { intros c Hc. split; [by apply NoDup_filter|]. unfold rest in Hc. apply list_elem_of_filter in Hc as [_ Hc]. destruct (Ho c Hc) as (o & Hoc & Hok).
    exists o. split; [done|]. rewrite filter_all; [done|]. by intros x _ ?%elem_of_nil. }
  eexists p, q', _. rewrite E3. split; [done|]. split; [done|]. split.
  - constructor; cbn [components layeredComponents layers objects set_layered set_objects set_components]; try done.
    + by apply NoDup_filter.
    + apply Forall2_app; [|apply Forall2_cons; split; [|done]].
      * apply Forall2_same_length_lookup_2; [by eapply Forall2_length|]. intros k p' l Hk Hl.
        destruct (Forall2_lookup_lr _ _ _ _ _ _ Hls Hk Hl) as (al' & Hal' & Hrl). exists al'. split; [|done]. cbn. rewrite lookup_insert_ne; [done|].
        apply NoDup_app in Hpnd as (_ & Hpn & _). intros ->. apply (Hpn p'); [by eapply list_elem_of_lookup_2|left].
      * eexists. split; [apply lookup_insert_eq|]. split; [done|]. by rewrite Hvy', Hready.
    + intros c Hc. destruct (Hin c Hc) as (o & Hoc & Hok). exists o. split; [done|]. by rewrite open_rest, <- Hready.
  - split_and!; [done|done|]. intros c Hc. apply Hs3 in Hc. cbn [objects set_layered set_objects].
    destruct (decide (c ∈ rest deps rem)) as [Hcr|Hcr]; [destruct (Hin c Hcr) as (o & Ho' & _); eauto|]. by rewrite Hout.
Qed.

Lemma layers_loop_S fuel i q b rem ps ls : boot_at b rem ps ls -> layers_loop (S fuel) i q b =
  match rem with
  | [] => Ret b
  | _ => '(queue, b) ← (b ← open_layer b;
      '(queue, b) ← range_for (iterable_of (components b)) select (q, b);
      range_for (mkIterable (LinkedQueue.begin queue) (LinkedQueue.end' queue)) (settle i) (queue, b));
      layers_loop fuel (u32 (i + 1)) queue b
  end.
Proof.
  intros [Hwf Hv _ _ _ _ _ _]. cbn [layers_loop]. pose proof (length_al_view _ Hwf) as Hl. rewrite Hv in Hl. unfold ArrayList.isEmpty. rewrite <- Hl.
  destruct rem; [done|]. change (Z.of_nat (length (z :: rem)) =? 0) with false. cbv iota.
  destruct (open_layer b) as [b1| | |]; outcome; try done. by destruct (range_for (iterable_of (components b1)) select (q, b1)) as [[]| | |].
Qed.

Lemma same_boot_trans b1 b2 b3 : same_boot b1 b2 -> same_boot b2 b3 -> same_boot b1 b3.
Proof. intros (H1' & H2' & H3') (H4 & H5 & H6). split_and!; [congruence|congruence|auto]. Qed.

Context (rank : Z -> nat).

Lemma layers_loop_run fuel : forall rem ps ls q b,
  boot_at b rem ps ls -> chained q [] -> ranked deps rank rem -> (length rem < fuel)%nat -> Z.of_nat (length ps + length rem) < 2 ^ 30 ->
  exists b' ps', layers_loop fuel (Z.of_nat (length ps)) q b = Ret b' /\
    boot_at b' [] ps' (ls ++ layering deps fuel rem) /\ same_boot b b'.
Proof.
  induction fuel as [|fuel IH]; intros rem ps ls q b Hb Hq Hrk Hf Hn; [lia|]. rewrite (layers_loop_S _ _ _ _ _ _ _ Hb).
  destruct rem as [|c rem0] eqn:Er; [exists b, ps; simpl; rewrite app_nil_r; by split_and!|]. rewrite <- Er in *.
  assert (Hne : rem <> []) by (by rewrite Er). destruct (round_run b rem ps ls q _ Hb Hq Hne eq_refl) as (p & q' & b1 & E & Hq' & Hb1 & Hs1); [lia|lia|].
  rewrite E. outcome. pose proof (length_rest deps rank rem Hrk Hne) as Hlt.
  assert (Hw : u32 (Z.of_nat (length ps) + 1) = Z.of_nat (length (ps ++ [p]))).
  { rewrite length_app. simpl. unfold u32. rewrite Z.mod_small; lia. }
  rewrite Hw. destruct (IH (rest deps rem) (ps ++ [p]) _ q' b1 Hb1 Hq') as (b' & ps' & E' & Hb' & Hs'); [by apply ranked_rest|lia|rewrite length_app; simpl; lia|].
  exists b', ps'. rewrite E'. split_and!; [done| |by eapply same_boot_trans]. rewrite <- app_assoc in Hb'.
  change ([ready deps rem] ++ layering deps fuel (rest deps rem)) with (ready deps rem :: layering deps fuel (rest deps rem)) in Hb'.
  rewrite Er in Hb' |- *. exact Hb'.
Qed.

(** Components that wait for each other are never free. *)
Lemma layers_loop_cycle (S0 : list Z) fuel : forall rem ps ls q b,
  boot_at b rem ps ls -> chained q [] -> S0 <> [] -> (forall c, c ∈ S0 -> c ∈ rem /\ exists d, d ∈ deps c /\ d ∈ S0) ->
  Z.of_nat (length ps + fuel) < 2 ^ 30 -> Z.of_nat (length rem) < 2 ^ 30 ->
  layers_loop fuel (Z.of_nat (length ps)) q b = Diverge.
Proof.
  induction fuel as [|fuel IH]; intros rem ps ls q b Hb Hq HS Hin Hn Hr; [done|]. rewrite (layers_loop_S _ _ _ _ _ _ _ Hb).
  destruct rem as [|c rem0] eqn:Er.
  { destruct S0 as [|c S0]; [done|]. destruct (Hin c) as [?%elem_of_nil _]; [left|done]. }
  rewrite <- Er in *. assert (Hne : rem <> []) by (by rewrite Er).
  destruct (round_run b rem ps ls q _ Hb Hq Hne eq_refl) as (p & q' & b1 & E & Hq' & Hb1 & _); [lia|lia|]. rewrite E. outcome.
  assert (Hw : u32 (Z.of_nat (length ps) + 1) = Z.of_nat (length (ps ++ [p]))).
  { rewrite length_app. simpl. unfold u32. rewrite Z.mod_small; lia. }
  rewrite Hw. eapply (IH _ (ps ++ [p])); [done|done|done| |rewrite length_app; simpl; lia|].
  - intros x Hx. destruct (Hin x Hx) as (Hxr & d & Hd & HdS). split; [|eauto]. unfold rest. apply list_elem_of_filter. split; [|done].
    unfold free. rewrite Forall_forall. intros Hall. apply (Hall d Hd). by apply Hin.
  - pose proof (length_filter (fun c => ~ free deps rem c) rem). unfold rest. lia.
Qed.
End Loop.

(** ** The order of the layers *)

Section Order.
Context (deps : Z -> list Z).

Lemma layering_perm (rank : Z -> nat) n : forall rem, ranked deps rank rem -> (length rem <= n)%nat -> concat (layering deps n rem) ≡ₚ rem.
Proof.
  induction n as [|n IH]; intros rem Hr Hn; [by destruct rem; [|simpl in Hn; lia]|]. destruct rem as [|c rem0] eqn:Er; [done|].
  change (layering deps (S n) (c :: rem0)) with (ready deps (c :: rem0) :: layering deps n (rest deps (c :: rem0))). rewrite <- Er in *.
  cbn [concat]. pose proof (length_rest deps rank rem Hr ltac:(by rewrite Er)). rewrite IH; [|by apply ranked_rest|lia].
  apply ready_rest_perm.
Qed.

(** What a component needs is in an earlier layer. *)
Lemma layering_order n : forall rem ls1 l ls2 c d, layering deps n rem = ls1 ++ l :: ls2 -> c ∈ l -> d ∈ deps c -> d ∈ rem -> d ∈ concat ls1.
Proof.
  induction n as [|n IH]; intros rem ls1 l ls2 c d E Hc Hd Hr; [by destruct ls1|]. destruct rem as [|c0 rem0] eqn:Er; [by destruct ls1|].
  change (layering deps (S n) (c0 :: rem0)) with (ready deps (c0 :: rem0) :: layering deps n (rest deps (c0 :: rem0))) in E. rewrite <- Er in *.
  destruct ls1 as [|l1 ls1]; injection E as <- E.
  - exfalso. unfold ready in Hc. apply list_elem_of_filter in Hc as [Hf _]. unfold free in Hf. rewrite Forall_forall in Hf. by apply (Hf d).
  - cbn [concat]. apply elem_of_app. destruct (decide (d ∈ ready deps rem)) as [|Hdr]; [by left|]. right.
    apply (IH (rest deps rem) ls1 l ls2 c d E Hc Hd). apply (elem_of_split deps) in Hr. tauto.
Qed.
End Order.

Definition layer_trace (l : list Z) : list boot_event := (Start <$> l) ++ (Join <$> l).
Definition boot_trace (ls : list (list Z)) : list boot_event := concat (layer_trace <$> ls).

Definition started (e : boot_event) : option Z := match e with Start c => Some c | _ => None end.

Lemma started_layer l : omap started (layer_trace l) = l.
Proof.
  unfold layer_trace. rewrite omap_app. assert (E : omap started (Join <$> l) = []) by (induction l; done). rewrite E, app_nil_r. clear E.
  induction l as [|c l IH]; [done|]. by rewrite fmap_cons; simpl; f_equal.
Qed.

Lemma started_trace ls : omap started (boot_trace ls) = concat ls.
Proof.
  unfold boot_trace. induction ls as [|l ls IH]; [done|]. rewrite fmap_cons. cbn [concat]. by rewrite omap_app, started_layer, IH.
Qed.

Lemma join_trace ls d : d ∈ concat ls -> Join d ∈ boot_trace ls.
Proof.
  unfold boot_trace. induction ls as [|l ls IH]; [by intros ?%elem_of_nil|]. rewrite fmap_cons. cbn [concat]. rewrite !elem_of_app. intros [Hd|Hd]; [|auto].
  left. unfold layer_trace. rewrite elem_of_app. right. by apply list_elem_of_fmap_2.
Qed.

(** An event of a layer comes after everything of the layers before. *)
Lemma start_split ls t1 c t2 : boot_trace ls = t1 ++ Start c :: t2 ->
  exists ls1 l ls2 t, ls = ls1 ++ l :: ls2 /\ c ∈ l /\ t1 = boot_trace ls1 ++ t.
Proof.
  revert t1. induction ls as [|l ls IH]; intros t1 E; [by destruct t1|]. unfold boot_trace in E. rewrite fmap_cons in E. cbn [concat] in E.
  fold (boot_trace ls) in E. apply app_eq_inv in E as [(k & Ek & E)|(k & Ek & E)].
  - destruct k as [|e k].
    + simpl in E. destruct (IH [] (eq_sym E)) as (ls1 & l' & ls2 & t & -> & Hc & Ht). exists (l :: ls1), l', ls2, t. split_and!; [done|done|].
      rewrite app_nil_r in Ek. rewrite <- Ek. unfold boot_trace at 1. rewrite fmap_cons. cbn [concat]. fold (boot_trace ls1). rewrite <- app_assoc, <- Ht.
      by rewrite app_nil_r.
    + injection E as <- E. exists [], l, ls, t1. split_and!; [done| |done]. assert (Hin : Start c ∈ layer_trace l) by (rewrite Ek; set_solver).
      unfold layer_trace in Hin. apply elem_of_app in Hin as [Hin|Hin]; apply list_elem_of_fmap in Hin as (x & Hx & Hl); [by injection Hx as ->|done].
  - destruct (IH k) as (ls1 & l' & ls2 & t & -> & Hc & ->); [done|]. exists (l :: ls1), l', ls2, t. split_and!; [done|done|].
    rewrite Ek. unfold boot_trace at 2. rewrite fmap_cons. cbn [concat]. fold (boot_trace ls1). by rewrite app_assoc.
Qed.

(** ** Running the layers *)

Section Running.
Context `{Junk Z} `{NewNode (Node Z)} `{NewNode (ArrayList Z)}.
Implicit Types (b : BootCoordinator).

Lemma fill_run l : forall b, al_wf (components b) -> al_length (components b) + Z.of_nat (length l) < 2 ^ 31 ->
  exists al, foldM (fun component b => r ← ArrayList.add component (components b); Ret (set_components (snd r) b)) l b = Ret (set_components al b) /\
    al_wf al /\ al_view al = al_view (components b) ++ l.
Proof.
  induction l as [|c l IH]; intros b Hwf Hn; [exists (components b); rewrite app_nil_r; split_and!; [by destruct b|done|done]|]. cbn [foldM]. simpl in Hn.
  destruct (ArrayList.add_spec c (components b) Hwf) as (al & E & Hwf' & _ & Hv); [lia|]. rewrite E. outcome.
  pose proof (length_al_view _ Hwf') as Hl. pose proof (length_al_view _ Hwf) as Hl0. rewrite Hv, length_app in Hl. simpl in Hl.
  destruct (IH (set_components al b)) as (al' & E' & Hwf'' & Hv'); [done|cbn; lia|]. exists al'. rewrite E'. split_and!; [done|done|].
  rewrite Hv'. cbn [components set_components]. by rewrite Hv, <- app_assoc.
Qed.

Lemma refill_run ps : forall ls b, Forall2 (layer_at b) ps ls -> al_wf (components b) ->
  al_length (components b) + Z.of_nat (length (concat ls)) < 2 ^ 31 ->
  exists al, foldM refill ps b = Ret (set_components al b) /\ al_wf al /\ al_view al = al_view (components b) ++ concat ls.
Proof.
  induction ps as [|p ps IH]; intros ls b Hls Hwf Hn.
  { apply Forall2_nil_inv_l in Hls as ->. exists (components b). rewrite app_nil_r. split_and!; [by destruct b|done|done]. }
  apply Forall2_cons_inv_l in Hls as (l & ls' & (layer & Hp & Hwl & Hvl) & Hls & ->). cbn [foldM concat] in *. rewrite length_app in Hn.
  destruct (fill_run l b Hwf) as (al & E & Hwf' & Hv); [lia|].
  assert (E1 : refill p b = Ret (set_components al b)).
  { unfold refill. rewrite Hp. outcome. rewrite (range_for_yields _ l); [exact E|]. rewrite <- Hvl. by apply ArrayList_yields. }
  rewrite E1. outcome.
  pose proof (length_al_view _ Hwf') as Hl. pose proof (length_al_view _ Hwf) as Hl0. rewrite Hv, length_app in Hl.
  destruct (IH ls' (set_components al b)) as (al' & E' & Hwf'' & Hv'); [done|done|cbn; lia|]. exists al'. rewrite E'. split_and!; [done|done|].
  rewrite Hv'. cbn [components set_components]. by rewrite Hv, <- app_assoc.
Qed.

(** Components exist. *)
Definition all_exist b (l : list Z) : Prop := forall c, c ∈ l -> is_Some (objects b !! c).

(** The components of [l] have run. *)
Definition all_finished b (l : list Z) : Prop := forall c, c ∈ l -> exists o, objects b !! c = Some o /\ hasFinished o = true.

Definition add_events (es : list boot_event) b : BootCoordinator :=
  mkCoordinator (hasStarted b) (components b) (layeredComponents b) (objects b) (layers b) (events b ++ es).

Lemma start_run l : forall b, all_exist b l -> foldM start l b = Ret (add_events (Start <$> l) b).
Proof.
  induction l as [|c l IH]; intros b He; [unfold add_events; rewrite app_nil_r; by destruct b|]. cbn [foldM].
  destruct (He c) as [o Ho]; [left|]. assert (E1 : start c b = Ret (emit (Start c) b)) by (unfold start; by rewrite Ho). rewrite E1. outcome. rewrite IH by (intros c' Hc'; apply He; by right).
  unfold add_events, emit. cbn [events hasStarted components layeredComponents objects layers]. by rewrite fmap_cons, <- app_assoc.
Qed.

Lemma join_layer_run l : forall b, all_exist b l ->
  exists m, foldM join l b = Ret (add_events (Join <$> l) (set_objects m b)) /\
    (forall c, c ∈ l -> exists o, m !! c = Some o /\ hasFinished o = true) /\
    (forall c o, objects b !! c = Some o -> exists o', m !! c = Some o' /\ (hasFinished o = true -> hasFinished o' = true)).
Proof.
  induction l as [|c l IH]; intros b He.
  { exists (objects b). split_and!; [unfold add_events; rewrite app_nil_r; by destruct b|by intros ? ?%elem_of_nil|eauto]. }
  cbn [foldM]. destruct (He c) as [o Ho]; [left|].
  set (b1 := emit (Join c) (set_objects (<[c := run_component o]> (objects b)) b)).
  assert (E1 : join c b = Ret b1) by (unfold join; by rewrite Ho). rewrite E1. outcome.
  assert (Hb1 : forall c', objects b1 !! c' = if decide (c = c') then Some (run_component o) else objects b !! c').
  { intros c'. cbn [b1 objects emit set_objects]. destruct (decide (c = c')) as [<-|]; [by rewrite lookup_insert_eq|by rewrite lookup_insert_ne]. }
  destruct (IH b1) as (m & Em & Hin & Hold).
  { intros c' Hc'. rewrite Hb1. destruct (decide _); [eauto|]. apply He. by right. }
  exists m. rewrite Em. split_and!.
  - unfold add_events, b1, emit, set_objects. cbn [events hasStarted components layeredComponents objects layers]. by rewrite fmap_cons, <- app_assoc.
  - intros c' [->|Hc']%elem_of_cons; [|by apply Hin]. destruct (Hold c (run_component o)) as (o' & Ho' & Hf); [by rewrite Hb1, decide_True|]. eauto.
  - intros c' o0 Ho0. destruct (decide (c = c')) as [<-|Hne].
    + destruct (Hold c (run_component o)) as (o' & Ho' & Hf); [by rewrite Hb1, decide_True|]. eauto.
    + destruct (Hold c' o0) as (o' & Ho' & Hf); [by rewrite Hb1, decide_False|]. eauto.
Qed.

Lemma run_layers_run ps : forall ls b, NoDup ps -> Forall2 (layer_at b) ps ls -> all_exist b (concat ls) ->
  exists b', foldM run_layer ps b = Ret b' /\ events b' = events b ++ boot_trace ls /\ all_finished b' (concat ls) /\
    components b' = components b /\ (forall c o, objects b !! c = Some o -> exists o', objects b' !! c = Some o' /\ (hasFinished o = true -> hasFinished o' = true)).
Proof.
  induction ps as [|p ps IH]; intros ls b Hnd Hls He.
  { apply Forall2_nil_inv_l in Hls as ->. exists b. split_and!; [done|by rewrite app_nil_r|by intros ? ?%elem_of_nil|done|eauto]. }
  apply Forall2_cons_inv_l in Hls as (l & ls' & (layer & Hp & Hwl & Hvl) & Hls & ->). cbn [foldM concat] in *. apply NoDup_cons in Hnd as [Hpn Hnd].
  assert (Hy : yields (iterable_of layer) l) by (rewrite <- Hvl; by apply ArrayList_yields).
  assert (Hel : all_exist b l) by (intros c Hc; apply He, elem_of_app; by left).
  destruct (join_layer_run l (add_events (Start <$> l) b) Hel) as (m & Em & Hin & Hold).
  set (b2 := add_events (Join <$> l) (set_objects m (add_events (Start <$> l) b))) in Em.
  set (b1 := set_layered (layeredComponents b2) (base.delete p (layers b2)) b2).
  assert (E1 : run_layer p b = Ret b1).
  { unfold run_layer. rewrite Hp. outcome. rewrite (range_for_yields _ l) by done. rewrite start_run by done. outcome.
    rewrite (range_for_yields _ l) by done. by rewrite Em. }
  rewrite E1. outcome. destruct (IH ls' b1) as (b' & E' & Hev & Hfin & Hcs & Hobj); [done| | |].
  - apply Forall2_same_length_lookup_2; [by eapply Forall2_length|]. intros k p' l' Hk Hl'.
    destruct (Forall2_lookup_lr _ _ _ _ _ _ Hls Hk Hl') as (al' & Hal' & Hrl). exists al'. split; [|done].
    cbn [b1 b2 layers set_layered add_events set_objects]. rewrite lookup_delete_ne; [done|]. intros ->. apply Hpn. by eapply list_elem_of_lookup_2.
  - intros c Hc. destruct (He c) as [o Ho]; [apply elem_of_app; by right|]. destruct (Hold c o) as (o' & Ho' & _); [done|]. cbn. eauto.
  - exists b'. rewrite E'. split_and!; [done| | |done|].
    + rewrite Hev. cbn [b1 b2 events set_layered add_events set_objects]. unfold boot_trace. rewrite fmap_cons. cbn [concat].
      change (layer_trace l) with ((Start <$> l) ++ (Join <$> l)). by rewrite <- !app_assoc.
    + intros c [Hc|Hc]%elem_of_app; [|by apply Hfin]. destruct (Hin c Hc) as (o & Ho & Hf). destruct (Hobj c o) as (o' & Ho' & Hf'); [done|]. eauto.
    + intros c o Ho. destruct (Hold c o Ho) as (o1 & Ho1 & Hf1). destruct (Hobj c o1 Ho1) as (o2 & Ho2 & Hf2). eauto.
Qed.
End Running.

(** ** Claims *)

Section Claims.
Context `{Junk Z} `{NewNode (Node Z)} `{NewNode (ArrayList Z)}.

(** A coordinator that has its components but has not started. *)
Definition boot_ready (deps : Z -> list Z) (cs : list Z) (b : BootCoordinator) : Prop :=
  hasStarted b = false /\ events b = [] /\ boot_at deps b cs [] [].

(** A new component has the dependencies it was given. *)
Lemma new_component_ok (a : Array Z) : wf a -> capacity a < 2 ^ 31 -> exists o, new_BootComponent a = Ret o /\ comp_ok o (array a).
Proof.
  intros [Hc Hw] Hn. unfold new_BootComponent, of_Array.
  destruct (fold_add_spec (array a) (new_ArrayList_capacity (length_ a))) as (al & E & Hwf & Hal & Hv).
  - constructor; cbn; rewrite ?length_fresh_slots; unfold length_; lia.
  - cbn. lia.
  - rewrite E. outcome. eexists. split; [done|]. split_and!; [done|apply Hal; by eexists|]. cbn [dependencies]. rewrite Hv. unfold al_view. cbn. by rewrite take_0.
Qed.

Lemma add_components_run l : forall b, hasStarted b = false -> al_wf (components b) -> al_length (components b) + Z.of_nat (length l) < 2 ^ 31 ->
  exists al, foldM addComponent l b = Ret (set_components al b) /\ al_wf al /\ al_view al = al_view (components b) ++ l.
Proof.
  intros b Hst Hwf Hn. destruct (fill_run l b Hwf Hn) as (al & E & Hrest). exists al. split; [|done]. rewrite <- E. clear E Hrest Hwf Hn al.
  revert b Hst. induction l as [|c l IH]; intros b Hst; [done|]. cbn [foldM].
  assert (E1 : addComponent c b = (r ← ArrayList.add c (components b); Ret (set_components (snd r) b))) by (unfold addComponent; by rewrite Hst).
  rewrite E1. destruct (ArrayList.add c (components b)); outcome; try done. by apply IH.
Qed.

Lemma new_coordinator_ready (deps : Z -> list Z) (objs : gmap Z BootComponent) (cs : list Z) :
  NoDup cs -> Z.of_nat (length cs) < 2 ^ 30 -> (forall c d, c ∈ cs -> d ∈ deps c -> d ∈ cs) ->
  (forall c, c ∈ cs -> exists o, objs !! c = Some o /\ comp_ok o (deps c)) ->
  exists b, new_BootCoordinator objs (mkArray cs (Z.of_nat (length cs))) = Ret b /\ boot_ready deps cs b.
Proof.
  intros Hnd Hn Hclosed Ho. unfold new_BootCoordinator. cbn [array].
  destruct (add_components_run cs (mkCoordinator false new_ArrayList new_ArrayList objs ∅ [])) as (al & E & Hwf & Hv); [done|by constructor|cbn; lia|].
  rewrite E. eexists. split; [done|]. split_and!; [done|done|]. constructor; try done; cbn.
  - apply NoDup_nil_2.
  - intros c Hc. destruct (Ho c Hc) as (o & Hoc & Hok). exists o. split; [done|]. unfold open. rewrite filter_all; [done|]. intros d Hd. by apply (Hclosed c).
Qed.

(** C9. The boot sequence ends and respects the dependencies: if the components
    depend only on each other and dependencies do not form a cycle, [run] returns
    and calls [onFinish] last; every component is started exactly once, and only
    after each of its dependencies has been waited for; all of them have
    finished. *)
Theorem boot_respects_dependencies (deps : Z -> list Z) (rank : Z -> nat) (cs : list Z) (objs : gmap Z BootComponent) (fuel : nat)
    (Hdup : forall c, NoDup (deps c)) (Hclosed : forall c d, c ∈ cs -> d ∈ deps c -> d ∈ cs)
    (Hrank : ranked deps rank cs) (Hobjs : forall c, c ∈ cs -> exists o, objs !! c = Some o /\ comp_ok o (deps c)) (Hnd : NoDup cs)
    (Hn : Z.of_nat (length cs) < 2 ^ 30) (Hfuel : (length cs < fuel)%nat) :
  exists b' tr, (b ← new_BootCoordinator objs (mkArray cs (Z.of_nat (length cs))); run fuel b) = Ret b' /\ events b' = tr ++ [OnFinish] /\ omap started tr ≡ₚ cs /\
    (forall t1 c t2 d, tr = t1 ++ Start c :: t2 -> d ∈ deps c -> Join d ∈ t1) /\ all_finished b' cs.
Proof.
  destruct (new_coordinator_ready deps objs cs Hnd Hn Hclosed Hobjs) as (b & E0 & Hst & Hev & Hb). rewrite E0. outcome. unfold run, buildComponentLayers. rewrite Hst.
  assert (Hb0 : boot_at deps (set_started b) cs [] []) by (destruct Hb; by constructor).
  destruct (layers_loop_run deps Hdup rank fuel cs [] [] new_LinkedBlockingQueue (set_started b) Hb0 new_chained Hrank Hfuel)
    as (b1 & ps & E1 & Hb1 & _ & Hev1 & Hobj1); [simpl; lia|].
  change (Z.of_nat (length (@nil Z))) with 0 in E1. rewrite E1. outcome. destruct Hb1 as [Hwf Hv _ Hlwf Hlv Hpnd Hls _]. rewrite app_nil_l in Hls.
  rewrite (range_for_yields _ ps) by (rewrite <- Hlv; by apply ArrayList_yields).
  pose proof (layering_perm deps rank fuel cs Hrank ltac:(lia)) as Hperm. set (ls := layering deps fuel cs) in *.
  pose proof (length_al_view _ Hwf) as Hlen. rewrite Hv in Hlen. simpl in Hlen.
  destruct (refill_run ps ls b1 Hls Hwf) as (al & E2 & _ & _); [rewrite Hperm; lia|]. rewrite E2. outcome.
  cbn [layeredComponents set_components]. rewrite (range_for_yields _ ps) by (rewrite <- Hlv; by apply ArrayList_yields).
  destruct (run_layers_run ps ls (set_components al b1)) as (b' & E3 & Hev3 & Hfin & _ & _); [done|done| |].
  { intros c Hc. apply Hobj1. rewrite Hperm in Hc. destruct (at_objects _ _ _ _ _ Hb0 c Hc) as (o & Ho & _). eauto. }
  rewrite E3. outcome. exists (emit OnFinish b'), (boot_trace ls). split_and!; [done| | | |].
  - cbn [events emit]. rewrite Hev3. cbn [events set_components]. rewrite Hev1. cbn [events set_started]. by rewrite Hev.
  - by rewrite started_trace.
  - intros t1 c t2 d E Hd. destruct (start_split ls t1 c t2 E) as (ls1 & l & ls2 & t & El & Hc & ->). apply elem_of_app. left. apply join_trace.
    apply (layering_order deps fuel cs ls1 l ls2 c d); [done|done|done|]. apply (Hclosed c); [|done]. rewrite <- Hperm, El. rewrite concat_app. cbn [concat]. set_solver.
  - intros c Hc. apply Hfin. by rewrite Hperm.
Qed.

(** Components that depend on each other in a circle keep the coordinator in its
    loop: it adds empty layers for ever. *)
Theorem boot_cycle_hangs (deps : Z -> list Z) (cs S0 : list Z) (b : BootCoordinator) (fuel : nat) :
  (forall c, NoDup (deps c)) -> boot_ready deps cs b -> Z.of_nat (length cs) < 2 ^ 30 -> Z.of_nat fuel < 2 ^ 30 ->
  S0 <> [] -> (forall c, c ∈ S0 -> c ∈ cs /\ exists d, d ∈ deps c /\ d ∈ S0) -> run fuel b = Diverge.
Proof.
  intros Hdup (Hst & Hev & Hb) Hn Hf HS Hin. unfold run, buildComponentLayers. rewrite Hst.
  assert (Hb0 : boot_at deps (set_started b) cs [] []) by (destruct Hb; by constructor).
  pose proof (layers_loop_cycle deps Hdup S0 fuel cs [] [] new_LinkedBlockingQueue (set_started b) Hb0 new_chained HS Hin) as E.
  change (Z.of_nat (length (@nil Z))) with 0 in E. rewrite E by (simpl; lia). done.
Qed.
End Claims.

#[local] Instance no_junk : Junk Z := fun _ => 0.

(** Component 3 needs 1 and 2, component 2 needs 1. *)
Definition sample_deps (c : Z) : list Z := if c =? 3 then [1; 2] else if c =? 2 then [1] else [].

Definition sample_object (c : Z) : BootComponent :=
  mkComponent true false (mkArrayList (Some (sample_deps c)) (Z.of_nat (length (sample_deps c))) (Z.of_nat (length (sample_deps c)))).

Definition sample_objects : gmap Z BootComponent := <[3 := sample_object 3]> (<[2 := sample_object 2]> {[1 := sample_object 1]}).

Lemma boot_respects_dependencies_witness : exists b' tr,
  (b ← new_BootCoordinator sample_objects (mkArray [3; 2; 1] 3); run 4 b) = Ret b' /\ events b' = tr ++ [OnFinish] /\ omap started tr ≡ₚ [3; 2; 1].
Proof.
  destruct (boot_respects_dependencies sample_deps Z.to_nat [3; 2; 1] sample_objects 4) as (b' & tr & E & Hev & Hp & _).
  - intros c. unfold sample_deps. destruct (c =? 3); [|destruct (c =? 2)];
      repeat (apply NoDup_cons; split; [set_solver|]); apply NoDup_nil_2.
  - intros c d Hc Hd. assert (c = 3 \/ c = 2 \/ c = 1) as [->|[->| ->]] by set_solver; simpl in Hd; set_solver.
  - intros c d Hc Hd. assert (c = 3 \/ c = 2 \/ c = 1) as [->|[->| ->]] by set_solver; simpl in Hd.
    + assert (d = 1 \/ d = 2) as [->| ->] by set_solver; lia.
    + assert (d = 1) as -> by set_solver. lia.
    + by apply elem_of_nil in Hd.
  - intros c Hc. assert (c = 3 \/ c = 2 \/ c = 1) as [->|[->| ->]] by set_solver; eexists; (split; [by vm_compute|]);
      (split; [constructor; simpl; lia|]); (split; [by eexists|]); by vm_compute.
  - repeat (apply NoDup_cons; split; [set_solver|]). apply NoDup_nil_2.
  - simpl. lia.
  - simpl. lia.
  - eauto.
Defined.

Example boot_sample_order :
  (b ← new_BootCoordinator sample_objects (mkArray [3; 2; 1] 3); b ← run 4 b; Ret (events b)) = Ret [Start 1; Join 1; Start 2; Join 2; Start 3; Join 3; OnFinish].
Proof. by vm_compute. Qed.
