(* ===== verification/EventBus.v ===== *)
(** * Events

    [kernel/service/EventBus.cpp] and [kernel/event/EventPublisher.cpp]: events
    are published into a buffer, the thread of the bus hands them to the
    publishers that are subscribed for their type, and the thread of a publisher
    hands them to its receiver. Publishers, their lists and events are objects on
    the heap; an event is its address, and [getType] its virtual method. Starting
    and killing the thread of a publisher is what the calls return. *)

From S2P Require Import Prelude Spinlock CString KString Array Collections ArrayList HashMap LinkedQueue StringKeys.

(** ** Publishers *)

Record EventPublisher := mkPublisher { receiver : Z; eventQueue : LinkedBlockingQueue Z; p_isRunning : bool }.

Section Publisher.
Context `{Junk Z} `{NewNode (LinkedQueue.Node Z)}.

Definition new_EventPublisher (receiver : Z) : EventPublisher := mkPublisher receiver new_LinkedBlockingQueue true.

Definition p_add (event : Z) (p : EventPublisher) : outcome EventPublisher :=
  q ← LinkedQueue.push event (eventQueue p); Ret (mkPublisher (receiver p) q (p_isRunning p)).

Definition stop (p : EventPublisher) : EventPublisher := mkPublisher (receiver p) (eventQueue p) false.

(** The inner loop of [run]: the events the receiver gets, in order. *)
Fixpoint deliver_loop (fuel : nat) (q : LinkedBlockingQueue Z) : outcome (list Z * LinkedBlockingQueue Z) :=
  match fuel with
  | O => Diverge
  | S fuel =>
      if LinkedQueue.isEmpty q then Ret ([], q)
      else
        '(event, q) ← LinkedQueue.pop q;
        '(es, q) ← deliver_loop fuel q;
        Ret (event :: es, q)
  end.

(** One iteration of [run], up to [yield]. *)
Definition p_run (p : EventPublisher) : outcome (list Z * EventPublisher) :=
  if p_isRunning p then
    '(es, q) ← deliver_loop (S (Z.to_nat (lq_length (eventQueue p)))) (eventQueue p);
    Ret (es, mkPublisher (receiver p) q (p_isRunning p))
  else Ret ([], p).
End Publisher.

(** ** The bus *)

Record EventBus (P R : Type) := mkBus {
  publishers : P;
  receiverMap : R;
  eventBuffer : LinkedBlockingQueue Z;
  bus_lock : Spinlock;
  registeredPublishers : Z;
  isRunning : bool;
  isInitialized : bool;
  threads : gmap Z EventPublisher;
  lists : gmap Z (ArrayList Z)
}.
Arguments mkBus {P R} _ _ _ _ _ _ _ _ _.
Arguments publishers {P R} _.
Arguments receiverMap {P R} _.
Arguments eventBuffer {P R} _.
Arguments bus_lock {P R} _.
Arguments registeredPublishers {P R} _.
Arguments isRunning {P R} _.
Arguments isInitialized {P R} _.
Arguments threads {P R} _.
Arguments lists {P R} _.

Section Bus.
Context {P R : Type} `{MapOps P String Z} `{MapOps R (Pair Z String) Z}.
Context `{Junk Z} `{NewNode (LinkedQueue.Node Z)} `{NewNode EventPublisher} `{NewNode (ArrayList Z)}.
Context (getType : Z -> String).
Implicit Types (b : EventBus P R) (type : String).

Abbreviation Bus := (ST (EventBus P R)).

Definition set_publishers (m : P) b : EventBus P R :=
  mkBus m (receiverMap b) (eventBuffer b) (bus_lock b) (registeredPublishers b) (isRunning b) (isInitialized b) (threads b) (lists b).
Definition set_receiverMap (m : R) b : EventBus P R :=
  mkBus (publishers b) m (eventBuffer b) (bus_lock b) (registeredPublishers b) (isRunning b) (isInitialized b) (threads b) (lists b).
Definition set_buffer (q : LinkedBlockingQueue Z) b : EventBus P R :=
  mkBus (publishers b) (receiverMap b) q (bus_lock b) (registeredPublishers b) (isRunning b) (isInitialized b) (threads b) (lists b).
Definition set_lock (l : Spinlock) b : EventBus P R :=
  mkBus (publishers b) (receiverMap b) (eventBuffer b) l (registeredPublishers b) (isRunning b) (isInitialized b) (threads b) (lists b).
Definition set_registered (n : Z) b : EventBus P R :=
  mkBus (publishers b) (receiverMap b) (eventBuffer b) (bus_lock b) (u32 n) (isRunning b) (isInitialized b) (threads b) (lists b).
Definition set_threads (m : gmap Z EventPublisher) b : EventBus P R :=
  mkBus (publishers b) (receiverMap b) (eventBuffer b) (bus_lock b) (registeredPublishers b) (isRunning b) (isInitialized b) m (lists b).
Definition set_lists (m : gmap Z (ArrayList Z)) b : EventBus P R :=
  mkBus (publishers b) (receiverMap b) (eventBuffer b) (bus_lock b) (registeredPublishers b) (isRunning b) (isInitialized b) (threads b) m.

Definition new_EventBus (p : P) (r : R) : EventBus P R := mkBus p r new_LinkedBlockingQueue new_Spinlock 0 true true ∅ ∅.

Definition bus_acquire : Bus unit := fun b => l ← acquire 1 (bus_lock b); Ret (tt, set_lock l b).
Definition bus_release : Bus unit := modify (fun b => set_lock (release (bus_lock b)) b).

(** Calls of the two maps. *)
Definition type_known type : Bus bool := fun b => r ← m_containsKey type (publishers b); Ret (r, b).
Definition list_of type : Bus Z := fun b => '(lp, m) ← m_get type (publishers b); Ret (lp, set_publishers m b).
Definition put_type type (lp : Z) : Bus unit := fun b => m ← m_put type lp (publishers b); Ret (tt, set_publishers m b).
Definition remove_type type : Bus unit := fun b => '(_, m) ← m_remove type (publishers b); Ret (tt, set_publishers m b).
Definition key_known (key : Pair Z String) : Bus bool := fun b => r ← m_containsKey key (receiverMap b); Ret (r, b).
Definition publisher_of (key : Pair Z String) : Bus Z := fun b => '(p, m) ← m_get key (receiverMap b); Ret (p, set_receiverMap m b).
Definition put_key (key : Pair Z String) (p : Z) : Bus unit := fun b => m ← m_put key p (receiverMap b); Ret (tt, set_receiverMap m b).
Definition remove_key (key : Pair Z String) : Bus unit := fun b => '(_, m) ← m_remove key (receiverMap b); Ret (tt, set_receiverMap m b).

(** [new EventPublisher(receiver)] and [new ArrayList<EventPublisher *>] *)
Definition create_publisher (receiver : Z) : Bus Z := fun b =>
  let p := new_address (threads b) in Ret (p, set_threads (<[p := new_EventPublisher receiver]> (threads b)) b).
Definition create_list : Bus Z := fun b =>
  let lp := new_address (lists b) in Ret (lp, set_lists (<[lp := new_ArrayList]> (lists b)) b).

(** A call on the list at [lp]. *)
Definition on_list {A} (f : ArrayList Z -> outcome (A * ArrayList Z)) (lp : Z) : Bus A := fun b =>
  al ← or_fault (lists b !! lp); '(a, al) ← f al; Ret (a, set_lists (<[lp := al]> (lists b)) b).

(** The list for a type, made when there is none. *)
Definition find_list type : Bus Z :=
  typed ← type_known type;
  _ ← (if (typed : bool) then mret tt else lp ← create_list; put_type type lp);
  list_of type.

(** The thread that is started. *)
Definition subscribe (receiver : Z) type : Bus Z :=
  publisher ← create_publisher receiver;
  let key := mkPair receiver type in
  _ ← bus_acquire;
  known ← key_known key;
  if (known : bool) then throw ILLEGAL_STATE
  else
    _ ← put_key key publisher;
    lp ← find_list type;
    _ ← on_list (ArrayList.add publisher) lp;
    _ ← modify (fun b => set_registered (registeredPublishers b + 1) b);
    _ ← bus_release;
    mret publisher.

(** The thread that is killed, if there is one. *)
Definition unsubscribe (receiver : Z) type : Bus (option Z) :=
  let key := mkPair receiver type in
  _ ← bus_acquire;
  known ← key_known key;
  if negb known then _ ← bus_release; mret None
  else
    publisher ← publisher_of key;
    lp ← list_of type;
    _ ← on_list (ArrayList.remove publisher) lp;
    lp ← list_of type;
    empty ← on_list (fun al => Ret (ArrayList.isEmpty al, al)) lp;
    _ ← (if (empty : bool) then remove_type type else mret tt);
    _ ← remove_key key;
    _ ← modify (fun b => set_threads (base.delete publisher (threads b)) b);
    _ ← modify (fun b => set_registered (registeredPublishers b - 1) b);
    _ ← bus_release;
    mret (Some publisher).

Definition publish (event : Z) : Bus unit := fun b =>
  if negb (isInitialized b) then Ret (tt, b)
  else q ← LinkedQueue.push event (eventBuffer b); Ret (tt, set_buffer q b).

(** [publisher->add(event)] *)
Definition hand_over (event publisher : Z) b : outcome (EventBus P R) :=
  p ← or_fault (threads b !! publisher);
  p ← p_add event p;
  Ret (set_threads (<[publisher := p]> (threads b)) b).

(** An event of a type nobody is subscribed for ends the loop. *)
Fixpoint notify (fuel : nat) : Bus unit :=
  match fuel with
  | O => diverge
  | S fuel =>
      buffer ← gets eventBuffer;
      if LinkedQueue.isEmpty buffer then mret tt
      else
        event ← (fun b => '(event, q) ← LinkedQueue.pop (eventBuffer b); Ret (event, set_buffer q b));
        typed ← type_known (getType event);
        if negb typed then mret tt
        else
          lp ← list_of (getType event);
          publisherList ← (fun b => al ← or_fault (lists b !! lp); Ret (al, b));
          _ ← (fun b => b ← range_for (iterable_of (publisherList : ArrayList Z)) (hand_over event) b; Ret (tt, b));
          notify fuel
  end.

(** One iteration of [run], up to [yield]. *)
Definition bus_run : Bus unit :=
  running ← gets isRunning;
  if negb running then mret tt
  else
    _ ← bus_acquire;
    n ← gets (fun b => lq_length (eventBuffer b));
    _ ← notify (S (Z.to_nat n));
    bus_release.
End Bus.

(** ** Delivery *)

Section Delivery.
Context {P R : Type} `{MapOps P String Z} `{!MapSpec P String Z} `{MapOps R (Pair Z String) Z} `{!MapSpec R (Pair Z String) Z}.
Context `{Junk Z} `{NewNode (LinkedQueue.Node Z)} `{NewNode EventPublisher} `{NewNode (ArrayList Z)}.
Context (getType : Z -> String).
Implicit Types (b : EventBus P R) (t : String) (es : list Z).

(** The list of the publishers for a type. *)
Definition subs b t : list Z :=
  match m_view (publishers b) !! t with
  | Some lp => match lists b !! lp with Some al => al_view al | None => [] end
  | None => []
  end.

(** The two maps, the lists and the publishers fit together. *)
Record bus_ok b : Prop := {
  bo_pinv : m_inv (publishers b);
  bo_rinv : m_inv (receiverMap b);
  bo_lists : forall t lp, m_view (publishers b) !! t = Some lp ->
    exists al, lists b !! lp = Some al /\ al_wf al /\ NoDup (al_view al) /\ al_view al <> [];
  bo_ptr : forall t1 t2 lp, m_view (publishers b) !! t1 = Some lp -> m_view (publishers b) !! t2 = Some lp -> t1 = t2;
  bo_sub : forall t p, p ∈ subs b t <-> exists r, m_view (receiverMap b) !! mkPair r t = Some p;
  bo_key : forall k1 k2 p, m_view (receiverMap b) !! k1 = Some p -> m_view (receiverMap b) !! k2 = Some p -> k1 = k2;
  bo_threads : forall k p, m_view (receiverMap b) !! k = Some p ->
    exists pub, threads b !! p = Some pub /\ receiver pub = first k /\ p_isRunning pub = true /\ lq_inv (eventQueue pub);
  bo_count : registeredPublishers b = Z.of_nat (base.size (m_view (receiverMap b)));
  bo_buffer : lq_inv (eventBuffer b)
}.

(** The events waiting at a publisher. *)
Definition queued b (p : Z) : list Z := match threads b !! p with Some pub => lq_view (eventQueue pub) | None => [] end.

(** Every queue has room for [n] more events. *)
Definition room b (n : nat) : Prop :=
  forall k p, m_view (receiverMap b) !! k = Some p -> Z.of_nat (length (queued b p) + n) < 2 ^ 32.

Lemma bus_alive b t p : bus_ok b -> p ∈ subs b t -> exists pub, threads b !! p = Some pub /\ p_isRunning pub = true /\ lq_inv (eventQueue pub).
Proof. intros Hb Hp. apply (bo_sub _ Hb) in Hp as [r Hr]. destruct (bo_threads _ Hb _ _ Hr) as (pub & ? & _ & ? & ?). eauto. Qed.

Lemma hand_over_run e l : forall b, NoDup l ->
  (forall p, p ∈ l -> exists pub, threads b !! p = Some pub /\ lq_inv (eventQueue pub) /\ Z.of_nat (length (lq_view (eventQueue pub))) + 1 < 2 ^ 32) ->
  exists m, foldM (hand_over e) l b = Ret (set_threads m b) /\
    (forall p, p ∉ l -> m !! p = threads b !! p) /\
    (forall p pub, p ∈ l -> threads b !! p = Some pub -> exists q, m !! p = Some (mkPublisher (receiver pub) q (p_isRunning pub)) /\
       lq_inv q /\ lq_view q = lq_view (eventQueue pub) ++ [e]).
Proof.
  induction l as [|p l IH]; intros b Hnd Hal.
  { exists (threads b). split_and!; [by destruct b|done|by intros ? ? ?%elem_of_nil]. }
  apply NoDup_cons in Hnd as [Hp Hnd]. destruct (Hal p) as (pub & Ht & Hq & Hlen); [left|]. cbn [foldM].
  destruct (lq_push (eventQueue pub) e Hq Hlen) as (q & Eq & Hq' & Hv).
  set (pub' := mkPublisher (receiver pub) q (p_isRunning pub)). set (b1 := set_threads (<[p := pub']> (threads b)) b).
  assert (E1 : hand_over e p b = Ret b1) by (unfold hand_over, p_add; rewrite Ht; outcome; by rewrite Eq).
  rewrite E1. outcome. clear E1.
  assert (Hold : forall p', p' <> p -> threads b1 !! p' = threads b !! p').
  { intros p' Hp'. cbn [b1 threads set_threads]. by rewrite lookup_insert_ne. }
  destruct (IH b1 Hnd) as (m & Em & Hout & Hin).
  { intros p' Hp'. rewrite Hold by (by intros ->). apply Hal. by right. }
  exists m. rewrite Em. split_and!; [done| |].
  - intros p' Hp'. rewrite Hout by set_solver. apply Hold. set_solver.
  - intros p' pub0 Hp' Hpub0. destruct (decide (p' = p)) as [->|Hne].
    + rewrite Ht in Hpub0. injection Hpub0 as <-. exists q. rewrite Hout by done. split; [apply lookup_insert_eq|done].
    + apply Hin; [set_solver|]. by rewrite Hold.
Qed.

(** Only the queues of the publishers change, each by the events of its type. *)
Definition delivered b b' (es left : list Z) : Prop :=
  bus_ok b' /\ bus_lock b' = bus_lock b /\ isRunning b' = isRunning b /\ isInitialized b' = isInitialized b /\ lq_view (eventBuffer b') = left /\
  m_view (receiverMap b') = m_view (receiverMap b) /\ (forall t, subs b' t = subs b t) /\
  forall r t p, m_view (receiverMap b) !! mkPair r t = Some p -> queued b' p = queued b p ++ filter (fun e => getType e = t) es.

(** Somebody is subscribed for the type of an event. *)
Definition wanted b (e : Z) : Prop := is_Some (m_view (publishers b) !! getType e).

Lemma wanted_subs b e : bus_ok b -> wanted b e <-> subs b (getType e) <> [].
Proof.
  intros Hb. unfold wanted, subs. destruct (m_view (publishers b) !! getType e) as [lp|] eqn:E; [|by split; [intros [? ?]|done]].
  destruct (bo_lists _ Hb _ _ E) as (al & -> & _ & _ & Hne). split; [done|eauto].
Qed.

Lemma bus_ok_ext b b' m p r q : bus_ok b ->
  b' = set_buffer q (set_publishers p (set_receiverMap r (set_threads m b))) ->
  m_inv p -> m_view p = m_view (publishers b) -> m_inv r -> m_view r = m_view (receiverMap b) -> lq_inv q ->
  (forall k a, m_view (receiverMap b) !! k = Some a -> exists pub, m !! a = Some pub /\ receiver pub = first k /\ p_isRunning pub = true /\ lq_inv (eventQueue pub)) ->
  bus_ok b'.
Proof.
  intros Hb -> Hp Ep Hr Er Hq Ht. destruct Hb. constructor; cbn; try done; rewrite ?Ep, ?Er; try done.
  intros t a. unfold subs. cbn. rewrite Ep. apply bo_sub0.
Qed.

(** One event. *)
Lemma notify_step e b es : bus_ok b -> lq_view (eventBuffer b) = e :: es -> wanted b e ->
  room b 1 ->
  exists b', (forall fuel, notify getType (S fuel) b = notify getType fuel b') /\ delivered b b' [e] es.
Proof.
  intros Hb Hv Hw Hroom. destruct (lq_pop _ _ _ (bo_buffer _ Hb) Hv) as (q & Eq & Hq & Hvq).
  destruct Hw as [lp Hlp]. pose proof (m_get_spec (publishers b) (getType e) (bo_pinv _ Hb)) as Hg. rewrite Hlp in Hg. destruct Hg as (pm & Eg & Hpi & Hpv).
  destruct (bo_lists _ Hb _ _ Hlp) as (al & Hal & Hwf & Hnd & Hne).
  assert (Hsubs : subs b (getType e) = al_view al) by (unfold subs; by rewrite Hlp, Hal).
  set (b1 := set_publishers pm (set_buffer q b)).
  destruct (hand_over_run e (al_view al) b1 Hnd) as (m & Em & Hout & Hin).
  { intros p Hp. destruct (bus_alive b (getType e) p Hb) as (pub & Hpub & _ & Hqi); [by rewrite Hsubs|]. exists pub. split_and!; [done|done|].
    rewrite <- Hsubs in Hp. apply (bo_sub _ Hb) in Hp as [r Hr]. specialize (Hroom _ _ Hr). unfold queued in Hroom. rewrite Hpub in Hroom. lia. }
  exists (set_threads m b1). split.
  - intros fuel. cbn [notify]. st_step. rewrite (lq_isEmpty _ (bo_buffer _ Hb)), Hv, bool_decide_false by done. rewrite Eq. outcome.
    unfold type_known. cbn [publishers set_buffer]. rewrite (m_containsKey_spec _ _ (bo_pinv _ Hb)), Hlp, bool_decide_true by eauto. outcome.
    unfold list_of. cbn [negb publishers set_buffer]. rewrite Eg. outcome. cbn [lists set_publishers set_buffer]. rewrite Hal. outcome.
    rewrite (range_for_yields _ (al_view al)) by (by apply ArrayList_yields). fold b1. rewrite Em. done.
  - assert (Hq' : forall k p, m_view (receiverMap b) !! k = Some p -> exists pub pub', threads b !! p = Some pub /\ m !! p = Some pub' /\
        receiver pub' = receiver pub /\ p_isRunning pub' = p_isRunning pub /\ lq_inv (eventQueue pub') /\
        lq_view (eventQueue pub') = lq_view (eventQueue pub) ++ filter (fun e => getType e = second k) [e]).
    { intros k p Hk. destruct (bo_threads _ Hb _ _ Hk) as (pub & Hpub & _ & _ & Hqi). exists pub. destruct (decide (p ∈ al_view al)) as [Hp|Hp].
      - destruct (Hin p pub Hp Hpub) as (q2 & Hm & Hq2 & Hv2). eexists. split_and!; [done|exact Hm|done|done|done|]. cbn [eventQueue]. rewrite Hv2. f_equal.
        rewrite <- Hsubs in Hp. apply (bo_sub _ Hb) in Hp as [r Hr]. pose proof (bo_key _ Hb _ _ _ Hk Hr) as ->. by rewrite filter_cons_True.
      - exists pub. rewrite (Hout p Hp). split_and!; [done|done|done|done|done|]. rewrite filter_cons_False, filter_nil; [by rewrite app_nil_r|]. intros Et.
        apply Hp. rewrite <- Hsubs. apply (bo_sub _ Hb). exists (first k). rewrite Et. by destruct k. }
    split_and!; try done.
    + apply (bus_ok_ext b _ m pm (receiverMap b) q); try done; [apply (bo_rinv _ Hb)|].
      intros k p Hk. destruct (Hq' k p Hk) as (pub & pub' & Hpub & Hm & Hrc & Hrn & Hqi & _). exists pub'.
      destruct (bo_threads _ Hb _ _ Hk) as (pub0 & Hpub0 & Hf & Hrun & _). rewrite Hpub in Hpub0. injection Hpub0 as <-. split_and!; [done|congruence|congruence|done].
    + intros t. unfold subs. cbn. by rewrite Hpv.
    + intros r t p Hk. destruct (Hq' _ p Hk) as (pub & pub' & Hpub & Hm & _ & _ & _ & Hview). unfold queued. cbn. by rewrite Hm, Hpub.
Qed.

Lemma delivered_trans b1 b2 b3 d1 d2 l1 l2 : delivered b1 b2 d1 l1 -> delivered b2 b3 d2 l2 -> delivered b1 b3 (d1 ++ d2) l2.
Proof.
  intros (_ & A1 & A2 & A3 & _ & A4 & A5 & A6) (B0 & B1 & B2 & B3 & B4 & B5 & B6 & B7).
  split_and!; [done|congruence|congruence|congruence|done|congruence| |].
  - intros t. by rewrite B6.
  - intros r t p Hk. rewrite (B7 r t p) by (by rewrite A4). by rewrite (A6 r t p Hk), filter_app, app_assoc.
Qed.

Lemma delivered_wanted b b' d l e : bus_ok b -> delivered b b' d l -> wanted b' e <-> wanted b e.
Proof. intros Hb (Hb' & _ & _ & _ & _ & _ & Hs & _). by rewrite !wanted_subs, Hs. Qed.

Lemma delivered_room b b' d l n : delivered b b' d l -> room b (length d + n) -> room b' n.
Proof.
  intros (_ & _ & _ & _ & _ & Hr & _ & Hq) Hroom [r t] p Hk. rewrite Hr in Hk. rewrite (Hq r t p Hk), length_app. specialize (Hroom _ _ Hk).
  pose proof (length_filter (fun e => getType e = t) d). lia.
Qed.

(** An event nobody wants is dropped, and the loop ends. *)
Lemma notify_unwanted e b es fuel : bus_ok b -> lq_view (eventBuffer b) = e :: es -> ~ wanted b e ->
  exists b', notify getType (S fuel) b = Ret (tt, b') /\ delivered b b' [e] es.
Proof.
  intros Hb Hv Hw. destruct (lq_pop _ _ _ (bo_buffer _ Hb) Hv) as (q & Eq & Hq & Hvq). exists (set_buffer q b). split.
  - cbn [notify]. st_step. rewrite (lq_isEmpty _ (bo_buffer _ Hb)), Hv, bool_decide_false by done. rewrite Eq. outcome.
    unfold type_known. cbn [publishers set_buffer]. rewrite (m_containsKey_spec _ _ (bo_pinv _ Hb)), bool_decide_false by done. done.
  - split_and!; try done.
    + apply (bus_ok_ext b _ (threads b) (publishers b) (receiverMap b) q); try done; [apply (bo_pinv _ Hb)|apply (bo_rinv _ Hb)|apply (bo_threads _ Hb)].
    + intros r t p Hk. rewrite filter_cons_False, filter_nil; [by rewrite app_nil_r|]. intros <-. apply Hw, wanted_subs; [done|].
      intros E. assert (Hp : p ∈ subs b (getType e)) by (apply (bo_sub _ Hb); eauto). rewrite E in Hp. by apply elem_of_nil in Hp.
Qed.

(** The events that end a round. *)
Definition unwanted b es : nat := length (filter (fun e => ~ wanted b e) es).

Lemma unwanted_delivered b b' d l es : bus_ok b -> delivered b b' d l -> unwanted b' es = unwanted b es.
Proof. intros Hb Hd. unfold unwanted. f_equal. apply list_filter_iff. intros x. by rewrite (delivered_wanted b b' _ _ x Hb Hd). Qed.

Lemma notify_run es : forall b fuel, bus_ok b -> lq_view (eventBuffer b) = es -> (length es < fuel)%nat -> room b (length es) ->
  exists b' sent left, notify getType fuel b = Ret (tt, b') /\ es = sent ++ left /\ delivered b b' sent left /\
    (left = [] \/ (unwanted b left < unwanted b es)%nat).
Proof.
  induction es as [|e es IH]; intros b fuel Hb Hv Hf Hroom; (destruct fuel as [|fuel]; [simpl in Hf; lia|]).
  - exists b, [], []. split_and!; try done; [|split_and!; try done; intros; by rewrite filter_nil, app_nil_r|by left]. cbn [notify]. st_step.
    by rewrite (lq_isEmpty _ (bo_buffer _ Hb)), Hv, bool_decide_true.
  - simpl in Hf, Hroom. destruct (decide (wanted b e)) as [Hw|Hw].
    + destruct (notify_step e b es Hb Hv Hw) as (b1 & E1 & Hd1); [intros k p Hk; specialize (Hroom k p Hk); lia|]. rewrite E1.
      destruct (IH b1 fuel) as (b' & sent & left & E & -> & Hd & Hl); [apply Hd1|apply Hd1|lia|by apply (delivered_room b b1 [e] (es) _ Hd1)|].
      exists b', (e :: sent), left. split_and!; [done|done|by apply (delivered_trans _ _ _ [e] sent _ _ Hd1)|].
      destruct Hl as [Hl|Hl]; [by left|right].
      rewrite !(unwanted_delivered b b1 [e] _ _ Hb Hd1) in Hl. unfold unwanted in *. by rewrite filter_cons_False by tauto.
    + destruct (notify_unwanted e b es fuel Hb Hv Hw) as (b' & E & Hd). exists b', [e], es. split_and!; [done|done|done|]. right.
      unfold unwanted. rewrite filter_cons_True by done. simpl. lia.
Qed.

(** One iteration of the thread of the bus. *)
Lemma bus_run_run b es : bus_ok b -> bus_lock b = new_Spinlock -> isRunning b = true -> lq_view (eventBuffer b) = es -> room b (length es) ->
  exists b' sent left, bus_run getType b = Ret (tt, b') /\ es = sent ++ left /\ delivered b b' sent left /\
    (left = [] \/ (unwanted b left < unwanted b es)%nat).
Proof.
  intros Hb Hl Hr Hv Hroom. destruct (acquire 1 (bus_lock b)) as [lk| | |] eqn:El; rewrite Hl in El; try by vm_compute in El.
  assert (Hb1 : bus_ok (set_lock lk b)) by (destruct Hb; by constructor).
  destruct (notify_run es (set_lock lk b) (S (length es)) Hb1 Hv) as (b' & sent & left & E & Hes & Hd & Hleft); [lia|done|].
  exists (set_lock (release (bus_lock b')) b'), sent, left. split_and!; [|done| |done].
  - unfold bus_run. st_step. rewrite Hr. cbn [negb]. unfold bus_acquire. rewrite Hl, El. outcome. cbn [eventBuffer set_lock].
    rewrite (lq_length_view _ (bo_buffer _ Hb)), Hv, Nat2Z.id. by rewrite E.
  - destruct Hd as (D0 & D1 & D2 & D3 & D4 & D5 & D6 & D7). split_and!; try done.
    destruct D0. by constructor.
Qed.

Fixpoint rounds (n : nat) : ST (EventBus P R) unit :=
  match n with
  | O => mret tt
  | S n => _ ← bus_run getType; rounds n
  end.

Lemma rounds_run n : forall b es, bus_ok b -> bus_lock b = new_Spinlock -> isRunning b = true -> lq_view (eventBuffer b) = es -> room b (length es) ->
  (unwanted b es < n)%nat -> exists b', rounds n b = Ret (tt, b') /\ delivered b b' es [].
Proof.
  induction n as [|n IH]; intros b es Hb Hl Hr Hv Hroom Hn; [lia|]. cbn [rounds]. st_step.
  destruct (bus_run_run b es Hb Hl Hr Hv Hroom) as (b1 & sent & left & E & -> & Hd & Hleft). rewrite E.
  pose proof Hd as (D0 & D1 & D2 & D3 & D4 & D5 & D6 & D7).
  pose proof (unwanted_delivered b b1 sent left left Hb Hd) as Hiff.
  destruct n as [|n].
  - destruct Hleft as [->|Hlt]; [|lia]. rewrite app_nil_r. by exists b1.
  - destruct (IH b1 left) as (b' & E' & Hd'); [done|congruence|congruence|done| | |].
    + apply (delivered_room b b1 sent left); [done|]. by rewrite <- length_app.
    + rewrite Hiff. destruct Hleft as [->|]; [cbn; lia|lia].
    + exists b'. split; [done|]. by eapply delivered_trans.
Qed.

Lemma publish_run es : forall b, bus_ok b -> isInitialized b = true -> Z.of_nat (length (lq_view (eventBuffer b)) + length es) < 2 ^ 32 ->
  exists q, foldM (fun e b => r ← publish e b; Ret (snd r)) es b = Ret (set_buffer q b) /\ lq_inv q /\ lq_view q = lq_view (eventBuffer b) ++ es.
Proof.
  induction es as [|e es IH]; intros b Hb Hi Hn.
  { exists (eventBuffer b). rewrite app_nil_r. split_and!; [by destruct b|apply Hb|done]. }
  simpl in Hn. cbn [foldM]. destruct (lq_push (eventBuffer b) e (bo_buffer _ Hb)) as (q & E & Hq & Hv); [lia|].
  assert (E1 : publish e b = Ret (tt, set_buffer q b)) by (unfold publish; rewrite Hi; cbn [negb]; by rewrite E).
  rewrite E1. outcome. destruct (IH (set_buffer q b)) as (q' & E' & Hq' & Hv'); [|done|cbn [eventBuffer set_buffer]; rewrite Hv, length_app; simpl; lia|].
  - apply (bus_ok_ext b _ (threads b) (publishers b) (receiverMap b) q); try done; [apply (bo_pinv _ Hb)|apply (bo_rinv _ Hb)|apply (bo_threads _ Hb)].
  - exists q'. rewrite E'. split_and!; [done|done|]. rewrite Hv'. cbn [eventBuffer set_buffer]. by rewrite Hv, <- app_assoc.
Qed.
End Delivery.

Lemma deliver_run `{NewNode (LinkedQueue.Node Z)} es : forall fuel q, lq_inv q -> lq_view q = es -> (length es < fuel)%nat ->
  exists q', deliver_loop fuel q = Ret (es, q') /\ lq_inv q' /\ lq_view q' = [].
Proof.
  induction es as [|e es IH]; intros fuel q Hq Hv Hf; (destruct fuel as [|fuel]; [simpl in Hf; lia|]); cbn [deliver_loop]; rewrite lq_isEmpty, Hv by done.
  - rewrite bool_decide_true by done. by exists q.
  - rewrite bool_decide_false by done. destruct (lq_pop q e es Hq Hv) as (q1 & E & Hq1 & Hv1). rewrite E. outcome. simpl in Hf.
    destruct (IH fuel q1 Hq1 Hv1) as (q' & E' & Hq'); [lia|]. rewrite E'. outcome. by exists q'.
Qed.

(** ** Subscriptions *)

Section Subscriptions.
Context {P R : Type} `{MapOps P String Z} `{!MapSpec P String Z} `{MapOps R (Pair Z String) Z} `{!MapSpec R (Pair Z String) Z}.
Context `{Junk Z} `{NewNode (LinkedQueue.Node Z)} `{NewNode EventPublisher} `{NewNode (ArrayList Z)}.
Implicit Types (b : EventBus P R) (t : String).

(** The tables are far from full. *)
Definition spacious b : Prop :=
  Z.of_nat (base.size (m_view (receiverMap b))) + 1 < 2 ^ 32 /\ Z.of_nat (base.size (m_view (publishers b))) + 1 < 2 ^ 32 /\
  forall t, Z.of_nat (length (subs b t)) < 2 ^ 31.

Lemma fresh_thread b t p : bus_ok b -> threads b !! p = None -> p ∉ subs b t.
Proof. intros Hb Hp Hin. destruct (bus_alive b t p Hb Hin) as (pub & Hpub & _). congruence. Qed.

Lemma fresh_value b k p : bus_ok b -> threads b !! p = None -> m_view (receiverMap b) !! k <> Some p.
Proof. intros Hb Hp Hk. destruct (bo_threads _ Hb _ _ Hk) as (pub & Hpub & _). congruence. Qed.

(** [lp] holds the publishers for [t]; a list that is new is empty. *)
Definition list_ready b t lp (pm : P) (L : gmap Z (ArrayList Z)) : Prop :=
  m_inv pm /\ m_view pm !! t = Some lp /\ (exists al, L !! lp = Some al /\ al_wf al /\ al_view al = subs b t) /\
  (forall t', t' <> t -> m_view pm !! t' = m_view (publishers b) !! t') /\
  (forall t' lp', t' <> t -> m_view (publishers b) !! t' = Some lp' -> lp' <> lp /\ L !! lp' = lists b !! lp').

Lemma old_list b t lp : bus_ok b -> m_view (publishers b) !! t = Some lp -> list_ready b t lp (publishers b) (lists b).
Proof.
  intros Hb Hlp. destruct (bo_lists _ Hb _ _ Hlp) as (al & Hal & Hwf & _ & _). split_and!; [apply Hb|done| |done|].
  - exists al. split_and!; [done|done|]. unfold subs. by rewrite Hlp, Hal.
  - intros t' lp' Hne Hlp'. split; [|done]. intros ->. by apply Hne, (bo_ptr _ Hb _ _ lp).
Qed.

Lemma new_list b t lp pm : bus_ok b -> m_view (publishers b) !! t = None -> lists b !! lp = None -> m_inv pm ->
  m_view pm = <[t := lp]> (m_view (publishers b)) -> list_ready b t lp pm (<[lp := new_ArrayList]> (lists b)).
Proof.
  intros Hb Ht Hlp Hpm Hv. unfold list_ready. rewrite Hv. split_and!; [done|apply lookup_insert_eq| | |].
  - exists new_ArrayList. rewrite lookup_insert_eq. split_and!; [done|by constructor|]. unfold subs. by rewrite Ht.
  - intros t' Hne. by rewrite lookup_insert_ne.
  - intros t' lp' Hne Hlp'. destruct (bo_lists _ Hb _ _ Hlp') as (al & Hal & _). assert (lp' <> lp) by congruence. by rewrite lookup_insert_ne.
Qed.

(** The bus with one more publisher. *)
Lemma bus_ok_subscribe b t r p lp pm rm L al' lk :
  bus_ok b -> threads b !! p = None -> m_view (receiverMap b) !! mkPair r t = None -> list_ready b t lp pm L ->
  m_inv rm -> m_view rm = <[mkPair r t := p]> (m_view (receiverMap b)) -> Z.of_nat (base.size (m_view (receiverMap b))) + 1 < 2 ^ 32 ->
  al_wf al' -> al_view al' = subs b t ++ [p] ->
  let b' := mkBus pm rm (eventBuffer b) lk (u32 (registeredPublishers b + 1)) (isRunning b) (isInitialized b)
              (<[p := new_EventPublisher r]> (threads b)) (<[lp := al']> L) in
  bus_ok b' /\ subs b' t = subs b t ++ [p] /\ forall t', t' <> t -> subs b' t' = subs b t'.
Proof.
  intros Hb Hp Hk (Hpm & Hlp & _ & Hother & Hlists) Hrm Hv Hn Hwf Hal' b'.
  assert (Hsub : subs b' t = subs b t ++ [p]) by (unfold subs at 1; cbn; by rewrite Hlp, lookup_insert_eq).
  assert (Hsub' : forall t', t' <> t -> subs b' t' = subs b t').
  { intros t' Hne. unfold subs. cbn. rewrite (Hother t' Hne). destruct (m_view (publishers b) !! t') as [lp'|] eqn:E; [|done].
    destruct (Hlists t' lp' Hne E) as [Hd HL]. by rewrite lookup_insert_ne, HL. }
  split; [|done]. constructor; cbn.
  - done.
  - done.
  - intros t' lp' Hlp'. destruct (decide (t' = t)) as [->|Hne].
    + rewrite Hlp in Hlp'. injection Hlp' as <-. exists al'. rewrite lookup_insert_eq, Hal'. split_and!; [done|done| |by destruct (subs b t)].
      apply NoDup_app. split_and!; [|intros x Hx ->%list_elem_of_singleton; by apply (fresh_thread b t p)|apply NoDup_singleton].
      unfold subs. destruct (m_view (publishers b) !! t) as [lp0|] eqn:E; [|apply NoDup_nil_2]. by destruct (bo_lists _ Hb _ _ E) as (al & -> & _ & ? & _).
    + rewrite Hother in Hlp' by done. destruct (Hlists t' lp' Hne Hlp') as [Hd HL]. rewrite lookup_insert_ne, HL by done. by apply (bo_lists _ Hb t').
  - intros t1 t2 lp'. destruct (decide (t1 = t)) as [->|H1'], (decide (t2 = t)) as [->|H2']; [done| | |rewrite !Hother by done; apply Hb].
    + rewrite Hlp, (Hother t2) by done. intros [= <-] E2. by destruct (Hlists t2 lp H2' E2).
    + rewrite Hlp, (Hother t1) by done. intros E1 [= <-]. by destruct (Hlists t1 lp H1' E1).
  - intros t' p'. fold b'. rewrite Hv. destruct (decide (t' = t)) as [->|Hne].
    + rewrite Hsub, elem_of_app, list_elem_of_singleton, (bo_sub _ Hb). split.
      * intros [[r' Hr']| ->]; [|exists r; apply lookup_insert_eq]. exists r'. rewrite lookup_insert_ne; [done|]. intros E. rewrite E in Hk. congruence.
      * intros [r' Hr']. apply lookup_insert_Some in Hr' as [[_ <-]|[_ Hr']]; [by right|left; eauto].
    + rewrite Hsub' by done. rewrite (bo_sub _ Hb). split; intros [r' Hr']; exists r'.
      * rewrite lookup_insert_ne; [done|]. congruence.
      * rewrite lookup_insert_ne in Hr'; [done|]. congruence.
  - rewrite Hv. intros k1 k2 p' E1 E2. apply lookup_insert_Some in E1 as [[<- <-]|[_ E1]], E2 as [[<- E2]|[_ E2]]; [done| | |by apply (bo_key _ Hb _ _ p')].
    + by apply (fresh_value b k2 p) in E2.
    + subst p'. by apply (fresh_value b k1 p) in E1.
  - rewrite Hv. intros k p' E1. apply lookup_insert_Some in E1 as [[<- <-]|[_ E1]].
    + eexists. rewrite lookup_insert_eq. split_and!; [done|done|done|apply lq_new].
    + rewrite lookup_insert_ne; [by apply (bo_threads _ Hb)|]. intros <-. by apply (fresh_value b k p) in E1.
  - rewrite Hv, map_size_insert_None by done. rewrite (bo_count _ Hb). unfold u32. rewrite Z.mod_small; lia.
  - apply Hb.
Qed.

Lemma find_list_run b b1 t : bus_ok b -> publishers b1 = publishers b -> lists b1 = lists b -> spacious b ->
  exists lp pm L, find_list t b1 = Ret (lp, set_publishers pm (set_lists L b1)) /\ list_ready b t lp pm L.
Proof.
  intros Hb Ep El (_ & Hn & _). unfold find_list, type_known. st_step. rewrite Ep, (m_containsKey_spec _ _ (bo_pinv _ Hb)). outcome.
  destruct (m_view (publishers b) !! t) as [lp|] eqn:E.
  - rewrite bool_decide_true by eauto. unfold list_of. rewrite Ep. pose proof (m_get_spec (publishers b) t (bo_pinv _ Hb)) as Hg. rewrite E in Hg.
    destruct Hg as (pm & Eg & Hpm & Hv). rewrite Eg. outcome. exists lp, pm, (lists b). split; [by destruct b1; cbn in *; subst|].
    destruct (old_list b t lp Hb E) as (_ & H1' & H2' & H3' & H4'). split_and!; [done|by rewrite Hv|done|intros; by rewrite Hv|done].
  - rewrite bool_decide_false by (by intros [? ?]). unfold create_list, put_type. st_step. destruct (new_address_free (lists b)) as [_ Hfree].
    rewrite El in *. set (lp := new_address (lists b)) in *. cbn [publishers set_lists]. rewrite Ep.
    destruct (m_put_spec (publishers b) t lp (bo_pinv _ Hb) Hn) as (pm & E1 & Hpm & Hv). rewrite E1. outcome. unfold list_of. cbn [publishers set_publishers].
    pose proof (m_get_spec pm t Hpm) as Hg. rewrite Hv, lookup_insert_eq in Hg. destruct Hg as (pm' & Eg & Hpm' & Hv'). rewrite Eg. outcome.
    exists lp, pm', (<[lp := new_ArrayList]> (lists b)). split; [done|]. by apply new_list; rewrite ?Hv', ?Hv.
Qed.

Lemma subscribe_run b r t : bus_ok b -> spacious b -> bus_lock b = new_Spinlock -> m_view (receiverMap b) !! mkPair r t = None ->
  exists p b', subscribe r t b = Ret (p, b') /\ bus_ok b' /\ bus_lock b' = new_Spinlock /\
    m_view (receiverMap b') = <[mkPair r t := p]> (m_view (receiverMap b)) /\
    threads b !! p = None /\ threads b' = <[p := new_EventPublisher r]> (threads b) /\
    subs b' t = subs b t ++ [p] /\ (forall t', t' <> t -> subs b' t' = subs b t').
Proof.
  intros Hb Hsp Hl Hk. destruct (lock_free _ Hl) as (lk & El & Hrel). pose proof Hsp as (Hn & _ & Hsub).
  unfold subscribe, create_publisher. st_step. destruct (new_address_free (threads b)) as [_ Hfree]. set (p := new_address (threads b)) in *.
  unfold bus_acquire. cbn [bus_lock set_threads]. rewrite El. outcome. unfold key_known. cbn [receiverMap set_lock set_threads].
  rewrite (m_containsKey_spec _ _ (bo_rinv _ Hb)), Hk, bool_decide_false by (by intros [? ?]). outcome.
  unfold put_key. cbn [receiverMap set_lock set_threads]. destruct (m_put_spec (receiverMap b) (mkPair r t) p (bo_rinv _ Hb) Hn) as (rm & Er & Hrm & Hrv).
  rewrite Er. outcome. set (b1 := set_receiverMap rm _).
  destruct (find_list_run b b1 t Hb eq_refl eq_refl Hsp) as (lp & pm & L & Ef & Hready). pose proof Hready as (_ & _ & (al & Hal & Hwf & Hview) & _).
  pose proof (length_al_view _ Hwf) as Hlen. rewrite Hview in Hlen. specialize (Hsub t).
  destruct (ArrayList.add_spec p al Hwf) as (al' & Ea & Hwf' & _ & Hview'); [lia|].
  destruct (bus_ok_subscribe b t r p lp pm rm L al' (release lk) Hb Hfree Hk Hready Hrm Hrv Hn Hwf') as (Hb' & Hs1 & Hs2); [by rewrite Hview', Hview|].
  eexists p, _. split.
  { rewrite Ef. unfold on_list. cbn [lists set_publishers set_lists]. rewrite Hal. outcome. rewrite Ea. done. }
  split_and!; [exact Hb'|done|done|done|done|exact Hs1|exact Hs2].
Qed.

(** The bus with one publisher less. *)
Lemma bus_ok_unsubscribe b t r p lp pm rm al' lk :
  bus_ok b -> m_view (receiverMap b) !! mkPair r t = Some p -> m_view (publishers b) !! t = Some lp ->
  al_wf al' -> al_view al' = filter (fun x => x <> p) (subs b t) ->
  m_inv pm -> m_view pm = (if decide (al_view al' = []) then base.delete t (m_view (publishers b)) else m_view (publishers b)) ->
  m_inv rm -> m_view rm = base.delete (mkPair r t) (m_view (receiverMap b)) -> Z.of_nat (base.size (m_view (receiverMap b))) < 2 ^ 32 ->
  let b' := mkBus pm rm (eventBuffer b) lk (u32 (registeredPublishers b - 1)) (isRunning b) (isInitialized b)
              (base.delete p (threads b)) (<[lp := al']> (lists b)) in
  bus_ok b' /\ forall t', subs b' t' = if decide (t' = t) then filter (fun x => x <> p) (subs b t) else subs b t'.
Proof.
  intros Hb Hk Hlp Hwf Hal Hpm Hpv Hrm Hrv Hn b'.
  assert (Hother : forall t', t' <> t -> m_view pm !! t' = m_view (publishers b) !! t').
  { intros t' Hne. rewrite Hpv. destruct (decide _); [by rewrite lookup_delete_ne|done]. }
  assert (Hsub : forall t', subs b' t' = if decide (t' = t) then filter (fun x => x <> p) (subs b t) else subs b t').
  { intros t'. destruct (decide (t' = t)) as [->|Hne].
    - unfold subs at 1. cbn. rewrite Hpv, <- Hal. destruct (decide _) as [E|E]; [by rewrite lookup_delete_eq, E|by rewrite Hlp, lookup_insert_eq].
    - unfold subs. cbn. rewrite Hother by done. destruct (m_view (publishers b) !! t') as [lp'|] eqn:E; [|done].
      rewrite lookup_insert_ne; [done|]. intros ->. by apply Hne, (bo_ptr _ Hb _ _ lp'). }
  assert (Hkey : forall k p', m_view rm !! k = Some p' -> m_view (receiverMap b) !! k = Some p' /\ p' <> p).
  { intros k p'. rewrite Hrv. intros [Hne Hk']%lookup_delete_Some. split; [done|]. intros ->. by apply Hne, (bo_key _ Hb _ _ p). }
  split; [|done]. constructor; cbn; try done.
  - intros t' lp' E. destruct (decide (t' = t)) as [->|Hne].
    + rewrite Hpv in E. destruct (decide _) as [E0|E0]; [by rewrite lookup_delete_eq in E|]. rewrite Hlp in E. injection E as <-.
      exists al'. rewrite lookup_insert_eq. split_and!; [done|done| |done]. rewrite Hal. apply NoDup_filter.
      destruct (bo_lists _ Hb _ _ Hlp) as (al & Ha & _ & Hnd & _). unfold subs. by rewrite Hlp, Ha.
    + rewrite Hother in E by done. rewrite lookup_insert_ne; [by apply (bo_lists _ Hb t')|]. intros ->. by apply Hne, (bo_ptr _ Hb _ _ lp').
  - intros t1 t2 lp' E1 E2. apply (bo_ptr _ Hb t1 t2 lp'); [revert E1|revert E2]; rewrite Hpv; (destruct (decide _); [by intros [_ ?]%lookup_delete_Some|done]).
  - intros t' p'. fold b'. rewrite Hsub. destruct (decide (t' = t)) as [->|Hne].
    + rewrite list_elem_of_filter, (bo_sub _ Hb). split.
      * intros [Hp' [r' Hr']]. exists r'. rewrite Hrv, lookup_delete_ne; [done|]. intros E. rewrite <- E in Hr'. congruence.
      * intros [r' Hr']. apply Hkey in Hr' as [Hr' Hp']. eauto.
    + rewrite (bo_sub _ Hb). split; intros [r' Hr']; exists r'.
      * rewrite Hrv, lookup_delete_ne; [done|]. congruence.
      * by apply Hkey in Hr' as [Hr' _].
  - intros k1 k2 p' [E1 _]%Hkey [E2 _]%Hkey. by apply (bo_key _ Hb _ _ p').
  - intros k p' [E1 Hp']%Hkey. rewrite lookup_delete_ne by done. by apply (bo_threads _ Hb).
  - rewrite Hrv, map_size_delete, Hk. rewrite (bo_count _ Hb).
    assert (base.size (m_view (receiverMap b)) <> 0%nat) by (intros E%map_size_empty_iff; rewrite E, lookup_empty in Hk; done).
    unfold u32. rewrite Z.mod_small; lia.
  - apply Hb.
Qed.

Lemma unsubscribe_run b r t p : bus_ok b -> spacious b -> bus_lock b = new_Spinlock -> m_view (receiverMap b) !! mkPair r t = Some p ->
  exists b', unsubscribe r t b = Ret (Some p, b') /\ bus_ok b' /\ bus_lock b' = new_Spinlock /\
    m_view (receiverMap b') = base.delete (mkPair r t) (m_view (receiverMap b)) /\ threads b' = base.delete p (threads b) /\
    forall t', subs b' t' = if decide (t' = t) then filter (fun x => x <> p) (subs b t) else subs b t'.
Proof.
  intros Hb (Hn & _) Hl Hk. destruct (lock_free _ Hl) as (lk & El & Hrel).
  assert (Hp : p ∈ subs b t) by (apply (bo_sub _ Hb); eauto).
  destruct (m_view (publishers b) !! t) as [lp|] eqn:Elp; [|unfold subs in Hp; rewrite Elp in Hp; by apply elem_of_nil in Hp].
  destruct (bo_lists _ Hb _ _ Elp) as (al & Hal & Hwf & Hnd & Hne).
  assert (Hview : subs b t = al_view al) by (unfold subs; by rewrite Elp, Hal).
  pose proof (m_get_spec (receiverMap b) (mkPair r t) (bo_rinv _ Hb)) as Hg. rewrite Hk in Hg. destruct Hg as (rm1 & Eg & Hrm1 & Hrv1).
  pose proof (m_get_spec (publishers b) t (bo_pinv _ Hb)) as Hg. rewrite Elp in Hg. destruct Hg as (pm1 & Eg1 & Hpm1 & Hpv1).
  pose proof (m_get_spec pm1 t Hpm1) as Hg. rewrite Hpv1, Elp in Hg. destruct Hg as (pm2 & Eg2 & Hpm2 & Hpv2).
  destruct (remove_filter p al Hwf (nonempty_allocated al Hwf Hne) Hnd) as (x & al' & Ea & Hwf' & _ & Hview'). rewrite <- Hview in Hview'.
  assert (Htype : exists pm, (if ArrayList.isEmpty al' then '(_, m) ← m_remove t pm2; Ret (tt, m) else Ret (tt, pm2)) = Ret (tt, pm) /\ m_inv pm /\
    m_view pm = if decide (al_view al' = []) then base.delete t (m_view (publishers b)) else m_view (publishers b)).
  { unfold ArrayList.isEmpty. pose proof (length_al_view _ Hwf') as Hlen. rewrite <- Hlen. destruct (decide (al_view al' = [])) as [E|E].
    - rewrite E. change (Z.of_nat (length (@nil Z)) =? 0) with true. pose proof (m_remove_spec pm2 t Hpm2) as Hm. rewrite Hpv2, Elp in Hm.
      destruct Hm as (pm & Em & Hpm & Hpv). rewrite Em. exists pm. by split_and!.
    - destruct (al_view al'); [done|]. exists pm2. done. }
  destruct Htype as (pm & Et & Hpm & Hpv).
  pose proof (m_remove_spec rm1 (mkPair r t) Hrm1) as Hm. rewrite Hrv1, Hk in Hm. destruct Hm as (rm & Em & Hrm & Hrv).
  destruct (bus_ok_unsubscribe b t r p lp pm rm al' (release lk) Hb Hk Elp Hwf' Hview' Hpm Hpv Hrm Hrv) as [Hb' Hs']; [lia|].
  set (b' := mkBus _ _ _ _ _ _ _ _ _) in Hb', Hs'. exists b'. split.
  { unfold unsubscribe. st_step. unfold bus_acquire. rewrite El. outcome. unfold key_known. cbn [receiverMap set_lock].
    rewrite (m_containsKey_spec _ _ (bo_rinv _ Hb)), Hk, bool_decide_true by eauto. outcome. cbn [negb].
    unfold publisher_of. cbn [receiverMap set_lock]. rewrite Eg. outcome. unfold list_of. cbn [publishers set_receiverMap set_lock]. rewrite Eg1. outcome.
    unfold on_list. cbn [lists set_publishers set_receiverMap set_lock]. rewrite Hal. outcome. rewrite Ea. outcome.
    cbn [publishers set_lists set_publishers]. rewrite Eg2. outcome. cbn [lists set_publishers set_lists]. rewrite lookup_insert_eq. outcome.
    unfold remove_type, remove_key. cbn [lists set_lists]. rewrite insert_insert_eq.
    destruct (ArrayList.isEmpty al') eqn:Ee.
    - cbn [publishers set_lists set_publishers]. destruct (m_remove t pm2) as [[]| | |]; try done. outcome. injection Et as ->.
      cbn [receiverMap set_lists set_publishers set_receiverMap]. rewrite Em. outcome. reflexivity.
    - injection Et as ->. cbn [receiverMap set_lists set_publishers set_receiverMap]. rewrite Em. outcome. reflexivity. }
  by split_and!.
Qed.
End Subscriptions.

(** ** Claims *)

(** C10. The event bus keeps a set of subscriptions: [subscribe] of a receiver for
    a type adds the pair with a new publisher and starts it, and raises an
    exception if the pair is there already; [unsubscribe] removes exactly that
    pair, kills its publisher and leaves the order of the others, and does
    nothing if there is no such pair. Each call releases the lock, keeps the
    count of publishers and keeps the two tables and the lists consistent. *)
Theorem eventbus_refines_subscriptions {P R : Type} `{MapOps P String Z} `{!MapSpec P String Z} `{MapOps R (Pair Z String) Z} `{!MapSpec R (Pair Z String) Z}
    `{Junk Z} `{NewNode (LinkedQueue.Node Z)} `{NewNode EventPublisher} `{NewNode (ArrayList Z)} (b : EventBus P R) (r : Z) (t : String)
    (Hb : bus_ok b) (Hsp : spacious b) (Hl : bus_lock b = new_Spinlock) :
  match m_view (receiverMap b) !! mkPair r t with
  | None =>
      unsubscribe r t b = Ret (None, b) /\
      exists p b', subscribe r t b = Ret (p, b') /\ bus_ok b' /\ bus_lock b' = new_Spinlock /\
        m_view (receiverMap b') = <[mkPair r t := p]> (m_view (receiverMap b)) /\
        threads b !! p = None /\ threads b' = <[p := new_EventPublisher r]> (threads b) /\
        subs b' t = subs b t ++ [p] /\ (forall t', t' <> t -> subs b' t' = subs b t')
  | Some p =>
      subscribe r t b = Throw ILLEGAL_STATE /\
      exists b', unsubscribe r t b = Ret (Some p, b') /\ bus_ok b' /\ bus_lock b' = new_Spinlock /\
        m_view (receiverMap b') = base.delete (mkPair r t) (m_view (receiverMap b)) /\ threads b' = base.delete p (threads b) /\
        forall t', subs b' t' = if decide (t' = t) then filter (fun x => x <> p) (subs b t) else subs b t'
  end.
Proof.
  destruct (lock_free _ Hl) as (lk & El & Hrel). destruct (m_view (receiverMap b) !! mkPair r t) as [p|] eqn:Hk.
  - split; [|by apply unsubscribe_run]. unfold subscribe, create_publisher, bus_acquire, key_known. st_step. cbn [bus_lock set_threads]. rewrite El. outcome.
    cbn [receiverMap set_lock set_threads]. rewrite (m_containsKey_spec _ _ (bo_rinv _ Hb)), Hk, bool_decide_true by eauto. done.
  - split; [|by apply subscribe_run]. unfold unsubscribe, bus_acquire, key_known, bus_release. st_step. rewrite El. outcome.
    cbn [receiverMap set_lock]. rewrite (m_containsKey_spec _ _ (bo_rinv _ Hb)), Hk, bool_decide_false by (by intros [? ?]). cbn [negb]. outcome.
    change (Ret (@None Z, set_lock (release lk) b) = Ret (None, b)). rewrite Hrel, <- Hl. by destruct b.
Qed.

(** C11. Events arrive: after [publish] of some events, the thread of the bus hands
    every event in its buffer to each publisher subscribed for its type, in the
    order they were published, and the publisher's next turn passes them to its
    receiver. An event nobody is subscribed for ends a turn of the bus, so that
    one turn more than there are such events empties the buffer. *)
Theorem events_delivered_in_order {P R : Type} `{MapOps P String Z} `{!MapSpec P String Z} `{MapOps R (Pair Z String) Z} `{!MapSpec R (Pair Z String) Z}
    `{Junk Z} `{NewNode (LinkedQueue.Node Z)} `{NewNode EventPublisher} `{NewNode (ArrayList Z)} (getType : Z -> String)
    (b : EventBus P R) (es : list Z) (r p : Z) (t : String) (n : nat)
    (Hb : bus_ok b) (Hl : bus_lock b = new_Spinlock) (Hrun : isRunning b = true) (Hinit : isInitialized b = true)
    (Hk : m_view (receiverMap b) !! mkPair r t = Some p)
    (Hroom : room b (length (lq_view (eventBuffer b) ++ es))) (Hbuf : Z.of_nat (length (lq_view (eventBuffer b)) + length es) < 2 ^ 32)
    (Hn : (unwanted getType b (lq_view (eventBuffer b) ++ es) < n)%nat) :
  exists b1 b2 pub pub', foldM (fun e b => r ← publish e b; Ret (snd r)) es b = Ret b1 /\ rounds getType n b1 = Ret (tt, b2) /\
    lq_view (eventBuffer b2) = [] /\ bus_ok b2 /\ bus_lock b2 = new_Spinlock /\ threads b2 !! p = Some pub /\ receiver pub = r /\
    p_run pub = Ret (queued b p ++ filter (fun e => getType e = t) (lq_view (eventBuffer b) ++ es), pub') /\ lq_view (eventQueue pub') = [].
Proof.
  destruct (publish_run es b Hb Hinit Hbuf) as (q & E1 & Hq & Hv). set (all := lq_view (eventBuffer b) ++ es) in *.
  assert (Hb1 : bus_ok (set_buffer q b)).
  { apply (bus_ok_ext b _ (threads b) (publishers b) (receiverMap b) q); try done; [apply (bo_pinv _ Hb)|apply (bo_rinv _ Hb)|apply (bo_threads _ Hb)]. }
  destruct (rounds_run getType n (set_buffer q b) all Hb1 Hl Hrun Hv Hroom Hn) as (b2 & E2 & Hb2 & D1 & D2 & D3 & D4 & D5 & D6 & D7).
  cbn [receiverMap set_buffer] in D5. destruct (bo_threads _ Hb2 (mkPair r t) p) as (pub & Hpub & Hrc & Hrn & Hqi); [by rewrite D5|].
  specialize (D7 r t p Hk). unfold queued at 1 in D7. rewrite Hpub in D7.
  destruct (deliver_run _ (S (Z.to_nat (lq_length (eventQueue pub)))) (eventQueue pub) Hqi D7) as (q' & E3 & Hq' & Hv').
  { rewrite (lq_length_view _ Hqi), D7. lia. }
  exists (set_buffer q b), b2, pub, (mkPublisher (receiver pub) q' (p_isRunning pub)). split_and!; try done; [by rewrite D1|].
  unfold p_run. by rewrite Hrn, E3.
Qed.

(** ** Witnesses *)

#[local] Instance no_junk {T} `{Inhabited T} : Junk T := fun _ => inhabitant.
#[local] Instance key_inhabited : Inhabited (Pair Z String) := populate (mkPair 0 new_String).
#[local] Instance string_inhabited : Inhabited String := populate new_String.

Definition empty_bus : EventBus (HashMap String Z) (HashMap (Pair Z String) Z) := new_EventBus new_HashMap new_HashMap.

Lemma empty_bus_ok : bus_ok empty_bus /\ spacious empty_bus /\ m_view (receiverMap empty_bus) = ∅.
Proof.
  destruct (hm_inv_new (K:=String) (V:=Z) 47 ltac:(lia)) as [H0 V0]. destruct (hm_inv_new (K:=Pair Z String) (V:=Z) 47 ltac:(lia)) as [H1 V1].
  assert (EP : m_view (publishers empty_bus) = ∅) by exact V0. assert (ER : m_view (receiverMap empty_bus) = ∅) by exact V1.
  assert (ES : forall t, subs empty_bus t = []) by (intros t; unfold subs; by rewrite EP, lookup_empty).
  split_and!; [constructor| |done].
  - split; [exact H0|]. change (hm_view _) with (m_view (publishers empty_bus)). by rewrite EP, map_size_empty.
  - split; [exact H1|]. change (hm_view _) with (m_view (receiverMap empty_bus)). by rewrite ER, map_size_empty.
  - intros t lp. by rewrite EP, lookup_empty.
  - intros t1 t2 lp. by rewrite EP, lookup_empty.
  - intros t p. rewrite ES, ER. split; [by intros ?%elem_of_nil|]. intros [r Hr]. by rewrite lookup_empty in Hr.
  - intros k1 k2 p. by rewrite ER, lookup_empty.
  - intros k p. by rewrite ER, lookup_empty.
  - by rewrite ER, map_size_empty.
  - apply lq_new.
  - split_and!; [by rewrite ER, map_size_empty|by rewrite EP, map_size_empty|]. intros t. rewrite ES. simpl. lia.
Qed.

Lemma eventbus_refines_subscriptions_witness : exists p b',
  subscribe 5 (str [97]) empty_bus = Ret (p, b') /\ bus_ok b' /\ subs b' (str [97]) = [p].
Proof.
  destruct empty_bus_ok as (Hb & Hsp & Hr). pose proof (eventbus_refines_subscriptions empty_bus 5 (str [97]) Hb Hsp eq_refl) as Hc.
  rewrite Hr, lookup_empty in Hc. destruct Hc as (_ & p & b' & E & Hb' & _ & _ & _ & _ & Hs & _). exists p, b'. split_and!; [done|done|]. rewrite Hs.
  unfold subs. assert (m_view (publishers empty_bus) = ∅) as -> by exact (proj2 (hm_inv_new (K:=String) (V:=Z) 47 ltac:(lia))). by rewrite lookup_empty.
Defined.

Lemma events_delivered_in_order_witness : exists b b1 b2 p pub pub',
  subscribe 5 (str [97]) empty_bus = Ret (p, b) /\
  foldM (fun e b => r ← publish e b; Ret (snd r)) [1; 2; 3] b = Ret b1 /\
  rounds (fun e => if e =? 2 then str [98] else str [97]) 4 b1 = Ret (tt, b2) /\ threads b2 !! p = Some pub /\
  p_run pub = Ret ([1; 3], pub').
Proof.
  destruct empty_bus_ok as (Hb & Hsp & Hr).
  destruct (subscribe_run empty_bus 5 (str [97]) Hb Hsp eq_refl) as (p & b & E & Hb' & Hl & Hrm & _ & Hth & _ & _); [by rewrite Hr|].
  assert (Hbuf : lq_view (eventBuffer b) = [] /\ isRunning b = true /\ isInitialized b = true).
  { vm_compute in E. injection E as _ <-. done. }
  destruct Hbuf as (Hbuf & Hrun & Hinit). rewrite Hr, insert_empty in Hrm.
  assert (Hq : queued b p = []) by (unfold queued; rewrite Hth, lookup_insert_eq; apply lq_new).
  destruct (events_delivered_in_order (fun e => if e =? 2 then str [98] else str [97]) b [1; 2; 3] 5 p (str [97]) 4)
    as (b1 & b2 & pub & pub' & E1 & E2 & _ & _ & _ & Hpub & _ & E3 & _); try done.
  - rewrite Hrm. apply lookup_singleton_eq.
  - intros k p'. rewrite Hrm. intros [_ <-]%lookup_singleton_Some. rewrite Hq, Hbuf. simpl. lia.
  - rewrite Hbuf. simpl. lia.
  - rewrite Hbuf. unfold unwanted. pose proof (length_filter (fun e => ~ wanted (fun e => if e =? 2 then str [98] else str [97]) b e) ([] ++ [1; 2; 3])). simpl in *. lia.
  - rewrite Hq, Hbuf in E3. exists b, b1, b2, p, pub, pub'. done.
Defined.

(** ** Deviation *)

(** A turn of the bus ends at an event nobody is subscribed for, though others
    that are wanted wait behind it. *)
Theorem notify_stops_at_unwanted :
  ('(p, b) ← subscribe 5 (str [97]) empty_bus;
   b ← foldM (fun e b => r ← publish e b; Ret (snd r)) [2; 1] b;
   '(_, b) ← bus_run (fun e => if e =? 2 then str [98] else str [97]) b;
   Ret (queued b p, lq_view (eventBuffer b))) = Ret ([], [1]).
Proof. by vm_compute. Qed.
