(* ===== verification/RingBuffer.v ===== *)
(** * [Util::RingBuffer], [Util::SmartPointer] and [Util::Optional]

    [lib/util/RingBuffer.h]: a buffer for the data of interrupt handlers;
    [lib/util/SmartPointer.h]: pointers with a counter in each copy, and
    [lib/util/Optional.h]. A destructor or an assignment of a smart pointer that
    deletes the object returns its address. *)

From S2P Require Import Prelude Array Spinlock.

Record RingBuffer (T : Type) := mkRing {
  ring : Array T;
  r_capacity : Z;
  readIndex : Z;
  writeIndex : Z;
  r_size : Z
}.
Arguments mkRing {T} _ _ _ _ _.
Arguments ring {T} _.
Arguments r_capacity {T} _.
Arguments readIndex {T} _.
Arguments writeIndex {T} _.
Arguments r_size {T} _.

Section Operations.
Context {T : Type} `{Junk T}.
Implicit Types (b : RingBuffer T) (x : T).

Definition new_RingBuffer (capacity : Z) : outcome (RingBuffer T) :=
  if capacity =? 0 then Throw INVALID_ARGUMENT else Ret (mkRing (new_Array capacity) capacity 0 0 0).

(** The next index, back to the start at the end. *)
Definition advance (i capacity : Z) : Z := let i := u32 (i + 1) in if capacity <=? i then 0 else i.

Definition push x b : outcome (RingBuffer T) :=
  a ← put (ring b) (writeIndex b) x;
  Ret (mkRing a (r_capacity b) (readIndex b) (advance (writeIndex b) (r_capacity b)) (u32 (r_size b + 1))).

Definition pop b : outcome (T * RingBuffer T) :=
  tmp ← at_ (ring b) (readIndex b);
  Ret (tmp, mkRing (ring b) (r_capacity b) (advance (readIndex b) (r_capacity b)) (writeIndex b) (u32 (r_size b - 1))).

Definition isEmpty b : bool := r_size b =? 0.
End Operations.

(** ** The queue in the buffer *)

Section Views.
Context {T : Type} `{Junk T}.
Implicit Types (b : RingBuffer T) (x : T) (l : list T).

(** The elements lie from [readIndex] on, around the end. *)
Record holds b l : Prop := {
  ho_wf : wf (ring b);
  ho_capacity : r_capacity b = capacity (ring b);
  ho_read : 0 <= readIndex b < r_capacity b;
  ho_fit : Z.of_nat (length l) <= r_capacity b;
  ho_size : r_size b = Z.of_nat (length l);
  ho_write : writeIndex b = (readIndex b + Z.of_nat (length l)) mod r_capacity b;
  ho_elements : forall i x, l !! i = Some x -> array (ring b) !! Z.to_nat ((readIndex b + Z.of_nat i) mod r_capacity b) = Some x
}.

Lemma advance_mod i c : 0 <= i < c -> c < 2 ^ 32 -> advance i c = (i + 1) mod c.
Proof.
  intros Hi Hc. unfold advance, u32. rewrite (Z.mod_small (i + 1) (2 ^ 32)) by lia. destruct (Z.leb_spec c (i + 1)).
  - assert (i + 1 = c) as -> by lia. symmetry. apply Z_mod_same_full.
  - rewrite Z.mod_small by lia. done.
Qed.

Lemma wrap_inj c r i j : 0 < c -> 0 <= i < c -> 0 <= j < c -> (r + i) mod c = (r + j) mod c -> i = j.
Proof.
  intros Hc Hi Hj E. assert (Hd : (i - j) mod c = 0).
  { replace (i - j) with ((r + i) - (r + j)) by lia. rewrite Zminus_mod, E, Z.sub_diag. apply Zmod_0_l. }
  apply Z_div_exact_full_2 in Hd; [|lia]. assert (-1 < (i - j) / c < 1); [|nia]. split; nia.
Qed.

Lemma new_ring c : 0 < c < 2 ^ 32 -> exists b, new_RingBuffer (T := T) c = Ret b /\ holds b [] /\ r_capacity b = c.
Proof.
  intros Hc. unfold new_RingBuffer. decide_bool. eexists. split; [done|]. split; [|done]. constructor; cbn; try done; try lia.
  apply wf_new_Array. unfold is_u32. lia.
Qed.

Lemma ring_push b l x : holds b l -> Z.of_nat (length l) < r_capacity b ->
  exists b', push x b = Ret b' /\ holds b' (l ++ [x]) /\ r_capacity b' = r_capacity b.
Proof.
  intros [Hwf Hc Hr Hf Hs Hw He] Hn. pose proof Hwf as [Hlen Hcap].
  assert (Hwr : 0 <= writeIndex b < r_capacity b) by (rewrite Hw; apply Z.mod_pos_bound; lia).
  unfold push. rewrite put_in_range by (done || lia). outcome. eexists. split; [done|]. split; [|done].
  constructor; cbn [ring r_capacity readIndex writeIndex r_size]; rewrite ?length_app; simpl.
  - by apply wf_put.
  - done.
  - done.
  - lia.
  - rewrite Hs. unfold u32. rewrite Z.mod_small; lia.
  - rewrite advance_mod by lia. rewrite Hw, Zplus_mod_idemp_l. f_equal. lia.
  - intros i y Hi. apply lookup_app_Some in Hi as [Hi|[Hge Hi]].
    + pose proof (lookup_lt_Some _ _ _ Hi) as Hlt. cbn [array]. rewrite list_lookup_insert_ne; [by apply He|]. intros E. apply Z2Nat.inj in E; [|lia|apply Z.mod_pos_bound; lia].
      rewrite Hw in E. apply wrap_inj in E; lia.
    + apply list_lookup_singleton_Some in Hi as [Hi ->]. assert (i = length l) as -> by lia. rewrite <- Hw. apply list_lookup_insert_eq. lia.
Qed.

Lemma ring_pop b l x : holds b (x :: l) -> exists b', pop b = Ret (x, b') /\ holds b' l /\ r_capacity b' = r_capacity b.
Proof.
  intros [Hwf Hc Hr Hf Hs Hw He]. pose proof Hwf as [Hlen Hcap]. simpl in Hf, Hs, Hw. unfold pop.
  pose proof (He 0%nat x eq_refl) as H0. rewrite Z.add_0_r, Z.mod_small in H0 by lia.
  rewrite (at_in_range _ _ x) by (done || lia). outcome. eexists. split; [done|]. split; [|done].
  constructor; cbn [ring r_capacity readIndex writeIndex r_size]; rewrite ?advance_mod by lia.
  - done.
  - done.
  - apply Z.mod_pos_bound. lia.
  - lia.
  - rewrite Hs. unfold u32. rewrite Z.mod_small; lia.
  - rewrite Zplus_mod_idemp_l, Hw. f_equal. lia.
  - intros i y Hi. rewrite Zplus_mod_idemp_l. specialize (He (S i) y Hi). rewrite <- He. do 3 f_equal. lia.
Qed.

Lemma ring_isEmpty b l : holds b l -> isEmpty b = bool_decide (l = []).
Proof. intros Hb. unfold isEmpty. rewrite (ho_size _ _ Hb). by destruct l. Qed.
End Views.

(** ** Smart pointers *)

Record SmartPointer := mkSmart { pointer : Z; counter : Z; sp_lock : Spinlock }.

(** Each object has a lock of its own, which is taken and given back. *)
Definition locked {A} (s : SmartPointer) (f : SmartPointer -> outcome (A * SmartPointer)) : outcome (A * SmartPointer) :=
  l ← acquire 1 (sp_lock s);
  '(a, s) ← f (mkSmart (pointer s) (counter s) l);
  Ret (a, mkSmart (pointer s) (counter s) (release (sp_lock s))).

(** The constructors without an argument and from a plain pointer. *)
Definition new_null : outcome SmartPointer :=
  r ← locked (mkSmart 0 0 new_Spinlock) (fun s => Ret (tt, mkSmart 0 1 (sp_lock s))); Ret (snd r).

Definition new_SmartPointer (p : Z) : outcome SmartPointer :=
  r ← locked (mkSmart p 0 new_Spinlock) (fun s => Ret (tt, mkSmart p 1 (sp_lock s))); Ret (snd r).

Definition copy_SmartPointer (copy : SmartPointer) : outcome SmartPointer :=
  r ← locked (mkSmart 0 0 new_Spinlock) (fun s => Ret (tt, mkSmart (pointer copy) (u32 (counter copy + 1)) (sp_lock s))); Ret (snd r).

(** The object that is deleted, if any. *)
Definition destroy (s : SmartPointer) : outcome (option Z) :=
  r ← locked s (fun s => Ret (if counter s =? 0 then Some (pointer s) else None, mkSmart (pointer s) (u32 (counter s - 1)) (sp_lock s)));
  Ret (fst r).

(** [self] is [this == &other]. *)
Definition assign (self : bool) (s other : SmartPointer) : outcome (option Z * SmartPointer) :=
  if self then Ret (None, s)
  else locked s (fun s => Ret (if counter s =? 0 then Some (pointer s) else None,
                               mkSmart (pointer other) (u32 (counter other + 1)) (sp_lock s))).

Definition get (s : SmartPointer) : Z := pointer s.

Definition smart_eq (s other : SmartPointer) : bool := pointer s =? pointer other.
Definition smart_neq (s other : SmartPointer) : bool := negb (pointer s =? pointer other).
Definition smart_eq_pointer (s : SmartPointer) (p : Z) : bool := pointer s =? p.
Definition smart_neq_pointer (s : SmartPointer) (p : Z) : bool := negb (pointer s =? p).

(** The smart pointers a program can make: [n] bounds the number of copies in a row. *)
Inductive made : nat -> SmartPointer -> Prop :=
| made_null s : new_null = Ret s -> made 0 s
| made_new p s : new_SmartPointer p = Ret s -> made 0 s
| made_copy n s s' : made n s -> copy_SmartPointer s = Ret s' -> made (S n) s'
| made_assign n m s other r s' : made n s -> made m other -> assign false s other = Ret (r, s') -> made (S m) s'.

Lemma made_counter n s : made n s -> Z.of_nat n + 1 < 2 ^ 32 -> counter s = Z.of_nat n + 1 /\ sp_lock s = new_Spinlock.
Proof.
  induction 1 as [s E|p s E|n s s' Hs IH E|n m s other r s' Hs IHs Ho IHo E]; intros Hn.
  - vm_compute in E. by injection E as <-.
  - unfold new_SmartPointer in E. cbn in E. by injection E as <-.
  - destruct IH as [Hc _]; [lia|]. unfold copy_SmartPointer in E. cbn in E. injection E as <-. cbn. split; [|done]. rewrite Hc. unfold u32. rewrite Z.mod_small; lia.
  - destruct IHo as [Hc _]; [lia|]. unfold assign, locked in E. destruct (acquire 1 (sp_lock s)) as [l| | |]; try done. cbn in E. injection E as _ <-. cbn.
    split; [|done]. rewrite Hc. unfold u32. rewrite Z.mod_small; lia.
Qed.

(** ** [Optional] *)

Record Optional (T : Type) := mkOptional { opt_element : T; opt_isInitialized : bool }.
Arguments mkOptional {T} _ _.
Arguments opt_element {T} _.
Arguments opt_isInitialized {T} _.

Definition new_Optional {T} `{Junk T} : Optional T := mkOptional (junk 0) false.
Definition Optional_of {T} (element : T) : Optional T := mkOptional element true.
Definition isNull {T} (o : Optional T) : bool := negb (opt_isInitialized o).
Definition value {T} (o : Optional T) : T := opt_element o.

(** ** Claims *)

(** A ring buffer that is not full is a queue: starting from a new buffer,
    [push] appends as long as there is room, [pop] returns the oldest element,
    around the end of the array, and [isEmpty] tells whether one is left. *)
Theorem ring_buffer_fifo {T} `{Junk T} (b : RingBuffer T) (l : list T) (x : T)
    (Hb : holds b l) (Hn : Z.of_nat (length l) < r_capacity b) :
  isEmpty b = bool_decide (l = []) /\
  (exists b', push x b = Ret b' /\ holds b' (l ++ [x])) /\
  (forall y l', l = y :: l' -> exists b', pop b = Ret (y, b') /\ holds b' l').
Proof.
  split_and!; [by apply ring_isEmpty| |].
  - destruct (ring_push b l x Hb Hn) as (b' & E & Hb' & _). eauto.
  - intros y l' ->. destruct (ring_pop b l' y Hb) as (b' & E & Hb' & _). eauto.
Qed.

Lemma ring_buffer_fifo_witness : exists b b' : RingBuffer Z,
  new_RingBuffer (H := fun _ => 0) 2 = Ret b /\ push 7 b = Ret b' /\ holds b' [7].
Proof.
  destruct (new_ring (H := fun _ => 0) 2) as (b & E & Hb & Hc); [lia|].
  destruct (ring_buffer_fifo b [] 7 Hb) as (_ & (b' & E' & Hb') & _); [rewrite Hc; simpl; lia|]. exists b, b'. done.
Defined.

(** ** Deviations *)

#[local] Instance no_junk : Junk Z := fun _ => 0.

(** [push] into a full buffer overwrites the oldest element, which [pop] then
    returns twice. *)
Theorem ring_overflow_duplicates :
  (b ← new_RingBuffer 2; b ← foldM push [1; 2; 3] b; '(x, b) ← pop b; '(y, b) ← pop b; '(z, b) ← pop b; Ret [x; y; z]) = Ret [3; 2; 3].
Proof. by vm_compute. Qed.

(** [pop] of an empty buffer succeeds and makes it look almost full. *)
Theorem ring_pop_empty : (b ← new_RingBuffer 2; '(_, b) ← pop b; Ret (isEmpty b, r_size b)) = Ret (false, UINT32_MAX).
Proof. by vm_compute. Qed.

(** No smart pointer ever deletes its object: the counter starts at one, grows
    with every copy and is compared with zero before it is decremented. *)
Theorem smart_pointer_never_deletes n s : made n s -> Z.of_nat n + 1 < 2 ^ 32 ->
  destroy s = Ret None /\ forall other, exists s', assign false s other = Ret (None, s').
Proof.
  intros Hs Hn. destruct (made_counter n s Hs Hn) as [Hc Hl]. unfold destroy, assign, locked. rewrite Hl. cbn. rewrite Hc. decide_bool. split; [done|]. eauto.
Qed.
