(* ===== verification/Keyboard.v ===== *)
(** * The keyboard

    [device/input/Key.cpp] and [Keyboard.cpp]: the decoding of scan codes. The
    code is a state machine over the last prefix, the modifiers and the keys that
    are held down. What the controller answers to a command byte is the argument
    [reply]; the waiting loops on its status are assumed to end. *)

From S2P Require Import Prelude Array RingBuffer.

(** ** Keys *)

Record Key := mkKey { asc : Z; scan : Z; modi : Z; pressed : bool }.

Module mbit.
Definition shift : Z := 1.
Definition alt_left : Z := 2.
Definition alt_right : Z := 4.
Definition ctrl_left : Z := 8.
Definition ctrl_right : Z := 16.
Definition caps_lock : Z := 32.
Definition num_lock : Z := 64.
Definition scroll_lock : Z := 128.
End mbit.

Definition new_Key : Key := mkKey 0 0 0 false.
Definition valid (k : Key) : bool := negb (scan k =? 0).
Definition isPressed (k : Key) : bool := pressed k.
Definition setPressed (value : bool) (k : Key) : Key := mkKey (asc k) (scan k) (modi k) value.
Definition invalidate (k : Key) : Key := mkKey (asc k) 0 (modi k) (pressed k).
Definition set_ascii (a : Z) (k : Key) : Key := mkKey (u8 a) (scan k) (modi k) (pressed k).
Definition set_scancode (s : Z) (k : Key) : Key := mkKey (asc k) (u8 s) (modi k) (pressed k).

(** [modi = pressed ? modi | bit : modi & ~bit], and the test of a bit. *)
Definition set_bit (bit : Z) (on : bool) (k : Key) : Key :=
  mkKey (asc k) (scan k) (u8 (if on then Z.lor (modi k) bit else Z.land (modi k) (Z.lnot bit))) (pressed k).
Definition has_bit (bit : Z) (k : Key) : bool := negb (Z.land (modi k) bit =? 0).

Definition set_shift := set_bit mbit.shift.
Definition set_altLeft := set_bit mbit.alt_left.
Definition set_altRight := set_bit mbit.alt_right.
Definition set_ctrlLeft := set_bit mbit.ctrl_left.
Definition set_ctrlRight := set_bit mbit.ctrl_right.
Definition set_capsLock := set_bit mbit.caps_lock.
Definition set_numLock := set_bit mbit.num_lock.
Definition set_scrollLock := set_bit mbit.scroll_lock.

Definition shift := has_bit mbit.shift.
Definition altLeft := has_bit mbit.alt_left.
Definition altRight := has_bit mbit.alt_right.
Definition ctrlLeft := has_bit mbit.ctrl_left.
Definition ctrlRight := has_bit mbit.ctrl_right.
Definition capsLock := has_bit mbit.caps_lock.
Definition numLock := has_bit mbit.num_lock.
Definition scrollLock := has_bit mbit.scroll_lock.

Definition alt (k : Key) : bool := altLeft k || altRight k.
Definition ctrl (k : Key) : bool := ctrlLeft k || ctrlRight k.

Definition Key_del : Z := 0x53.
Definition Key_div : Z := 8.

(** ** Tables *)

Definition normal_tab : list Z :=
  [0; 0; 49; 50; 51; 52; 53; 54; 55; 56; 57; 48; 225; 39; 8;
   0; 113; 119; 101; 114; 116; 122; 117; 105; 111; 112; 129; 43; 10;
   0; 97; 115; 100; 102; 103; 104; 106; 107; 108; 148; 132; 94; 0; 35;
   121; 120; 99; 118; 98; 110; 109; 44; 46; 45; 0;
   42; 0; 32; 0; 0; 0; 0; 0; 0; 0; 0; 0; 0; 0; 0; 0; 0; 0; 0; 45;
   0; 0; 0; 43; 0; 0; 0; 0; 0; 0; 0; 60; 0; 0].

Definition shift_tab : list Z :=
  [0; 0; 33; 34; 21; 36; 37; 38; 47; 40; 41; 61; 63; 96; 0;
   0; 81; 87; 69; 82; 84; 90; 85; 73; 79; 80; 154; 42; 0;
   0; 65; 83; 68; 70; 71; 72; 74; 75; 76; 153; 142; 248; 0; 39;
   89; 88; 67; 86; 66; 78; 77; 59; 58; 95; 0;
   0; 0; 32; 0; 0; 0; 0; 0; 0; 0; 0; 0; 0; 0; 0; 0; 0; 0; 0; 0;
   0; 0; 0; 0; 0; 0; 0; 0; 0; 0; 0; 62; 0; 0].

Definition alt_tab : list Z :=
  [0; 0; 0; 253; 0; 0; 0; 0; 123; 91; 93; 125; 92; 0; 0;
   0; 64; 0; 0; 0; 0; 0; 0; 0; 0; 0; 0; 126; 0;
   0; 0; 0; 0; 0; 0; 0; 0; 0; 0; 0; 0; 0; 0; 0;
   0; 0; 0; 0; 0; 0; 230; 0; 0; 0; 0;
   0; 0; 0; 0; 0; 0; 0; 0; 0; 0; 0; 0; 0; 0; 0; 0; 0; 0; 0; 0;
   0; 0; 0; 0; 0; 0; 0; 0; 0; 0; 0; 124; 0; 0].

Definition asc_num_tab : list Z := [55; 56; 57; 45; 52; 53; 54; 43; 49; 50; 51; 48; 44].
Definition scan_num_tab : list Z := [8; 9; 10; 53; 5; 6; 7; 27; 2; 3; 4; 11; 51].

(** Reading behind the end of a table has no meaning. *)
Definition tab (t : list Z) (i : Z) : outcome Z := or_fault (t !! Z.to_nat i).

(** ** The keyboard *)

Definition break_bit : Z := 0x80.
Definition prefix1 : Z := 0xe0.
Definition prefix2 : Z := 0xe1.
Definition led_caps : Z := 4.
Definition led_num : Z := 2.
Definition led_scroll : Z := 1.
Definition set_led : Z := 0xed.
Definition ack : Z := 0xfa.
Definition outb_ : Z := 0x01.
Definition auxb : Z := 0x20.
Definition KB_BUFFER_SIZE : nat := 4.

Record Keyboard := mkKeyboard {
  prefix : Z;
  gather : Key;
  leds : Z;
  keysPressed : Z;
  buffer : list Z;
  interruptDataBuffer : RingBuffer Z
}.

Definition set_prefix (p : Z) (kb : Keyboard) : Keyboard :=
  mkKeyboard p (gather kb) (leds kb) (keysPressed kb) (buffer kb) (interruptDataBuffer kb).
Definition set_gather (k : Key) (kb : Keyboard) : Keyboard :=
  mkKeyboard (prefix kb) k (leds kb) (keysPressed kb) (buffer kb) (interruptDataBuffer kb).
Definition set_leds (l : Z) (kb : Keyboard) : Keyboard :=
  mkKeyboard (prefix kb) (gather kb) l (keysPressed kb) (buffer kb) (interruptDataBuffer kb).
Definition set_held (n : Z) (l : list Z) (kb : Keyboard) : Keyboard :=
  mkKeyboard (prefix kb) (gather kb) (leds kb) (u32 n) l (interruptDataBuffer kb).
Definition set_data (b : RingBuffer Z) (kb : Keyboard) : Keyboard :=
  mkKeyboard (prefix kb) (gather kb) (leds kb) (keysPressed kb) (buffer kb) b.

(** [gather] changed by a call. *)
Definition on_key (f : Key -> Key) (kb : Keyboard) : Keyboard := set_gather (f (gather kb)) kb.

Definition getKeysPressed (kb : Keyboard) : Z := keysPressed kb.

Definition isKeyPressed (scancode : Z) (kb : Keyboard) : bool := existsb (Z.eqb scancode) (buffer kb).

(** The loops over the buffer: the first entry that equals [old] becomes [new]. *)
Fixpoint replace_first (old new : Z) (l : list Z) : option (list Z) :=
  match l with
  | [] => None
  | x :: l => if x =? old then Some (new :: l) else cons x <$> replace_first old new l
  end.

Definition addToBuffer (scancode : Z) (kb : Keyboard) : Keyboard :=
  if isKeyPressed scancode kb then kb
  else match replace_first 0 scancode (buffer kb) with
       | Some l => set_held (keysPressed kb + 1) l kb
       | None => kb
       end.

Definition removeFromBuffer (scancode : Z) (kb : Keyboard) : Keyboard :=
  match replace_first scancode 0 (buffer kb) with
  | Some l => set_held (keysPressed kb - 1) l kb
  | None => kb
  end.

(** [plugin] empties the buffer. *)
Definition plugin (kb : Keyboard) : Keyboard :=
  mkKeyboard (prefix kb) (gather kb) (leds kb) (keysPressed kb) (replicate KB_BUFFER_SIZE 0) (interruptDataBuffer kb).

Section Decoding.
Context (reply : Z -> Z).

Definition setLed (led : Z) (on : bool) (kb : Keyboard) : Keyboard :=
  if reply set_led =? ack then set_leds (u8 (if on then Z.lor (leds kb) led else Z.land (leds kb) (Z.lnot led))) kb else kb.

(** The constructor leaves the prefix, the leds and the buffer as they are in memory. *)
Definition new_Keyboard `{Junk Z} (prefix0 leds0 : Z) (buffer0 : list Z) (kp0 : Z) : outcome Keyboard :=
  data ← new_RingBuffer 1024;
  let kb := mkKeyboard prefix0 new_Key leds0 kp0 buffer0 data in
  let kb := setLed led_num false (setLed led_scroll false (setLed led_caps false kb)) in
  Ret (set_held 0 (buffer kb) kb).

Definition getAsciiCode (code : Z) (kb : Keyboard) : outcome Keyboard :=
  let g := gather kb in
  let from t := a ← tab t code; Ret (on_key (fun k => set_scancode code (set_ascii a k)) kb) in
  if (code =? 53) && (prefix kb =? prefix1) then Ret (on_key (fun k => set_scancode Key_div (set_ascii 47 k)) kb)
  else if numLock g && (prefix kb =? 0) && (71 <=? code) && (code <=? 83) then
    a ← tab asc_num_tab (code - 71); s ← tab scan_num_tab (code - 71);
    Ret (on_key (fun k => set_scancode s (set_ascii a k)) kb)
  else if altRight g then from alt_tab
  else if shift g then from shift_tab
  else if capsLock g then
    if ((16 <=? code) && (code <=? 26)) || ((30 <=? code) && (code <=? 40)) || ((44 <=? code) && (code <=? 50)) then from shift_tab
    else from normal_tab
  else from normal_tab.

(** A break code: a modifier is released. Another key leaves the prefix alone. *)
Definition release_key (code : Z) (kb : Keyboard) : Keyboard :=
  if (code =? 42) || (code =? 54) then set_prefix 0 (on_key (set_shift false) kb)
  else if code =? 56 then set_prefix 0 (on_key (if prefix kb =? prefix1 then set_altRight false else set_altLeft false) kb)
  else if code =? 29 then set_prefix 0 (on_key (if prefix kb =? prefix1 then set_ctrlRight false else set_ctrlLeft false) kb)
  else kb.

(** A make code. *)
Definition press_key (code : Z) (kb : Keyboard) : outcome (bool * Keyboard) :=
  if (code =? 42) || (code =? 54) then Ret (false, on_key (set_shift true) kb)
  else if code =? 56 then Ret (false, on_key (if prefix kb =? prefix1 then set_altRight true else set_altLeft true) kb)
  else if code =? 29 then Ret (false, on_key (if prefix kb =? prefix1 then set_ctrlRight true else set_ctrlLeft true) kb)
  else if code =? 58 then
    let kb := on_key (fun k => set_capsLock (negb (capsLock k)) k) kb in Ret (false, setLed led_caps (capsLock (gather kb)) kb)
  else if code =? 70 then
    let kb := on_key (fun k => set_scrollLock (negb (scrollLock k)) k) kb in Ret (false, setLed led_scroll (scrollLock (gather kb)) kb)
  else if code =? 69 then
    if ctrlLeft (gather kb) then kb ← getAsciiCode code kb; Ret (true, kb)
    else let kb := on_key (fun k => set_numLock (negb (numLock k)) k) kb in Ret (false, setLed led_num (numLock (gather kb)) kb)
  else kb ← getAsciiCode code kb; Ret (true, kb).

Definition decodeKey (code : Z) (kb : Keyboard) : outcome (bool * Keyboard) :=
  let isBreak := negb (Z.land code break_bit =? 0) in
  let scancode := Z.land code (Z.lnot break_bit) in
  let kb := if isBreak then on_key (setPressed false) (removeFromBuffer scancode kb)
            else on_key (setPressed true) (addToBuffer scancode kb) in
  if (code =? prefix1) || (code =? prefix2) then Ret (false, set_prefix code kb)
  else if isBreak then Ret (false, release_key scancode kb)
  else '(done, kb) ← press_key code kb; Ret (done, set_prefix 0 kb).

(** ** Interrupts *)

(** [control] and [data] are read from the ports. *)
Definition trigger (control data : Z) (kb : Keyboard) : outcome Keyboard :=
  if negb (Z.land control 1 =? 1) then Ret kb
  else if negb (Z.land control auxb =? 0) then Ret kb
  else b ← push data (interruptDataBuffer kb); Ret (set_data b kb).

Definition hasInterruptData (kb : Keyboard) : bool := negb (isEmpty (interruptDataBuffer kb)).

(** What [parseInterruptData] asks for: the key event it publishes, and whether it
    reboots the machine before. *)
Definition parseInterruptData (kb : Keyboard) : outcome (option (bool * Key) * Keyboard) :=
  '(data, b) ← pop (interruptDataBuffer kb);
  '(done, kb) ← decodeKey data (set_data b kb);
  if (done : bool) then
    let key := gather kb in
    Ret (Some (ctrl key && alt key && (scan key =? Key_del), key), kb)
  else Ret (None, kb).
End Decoding.

Example table_sizes : (length normal_tab, length shift_tab, length alt_tab) = (89, 89, 89)%nat.
Proof. reflexivity. Qed.

(** ** Scan codes *)

Lemma scan_codes c : 0 <= c < 128 ->
  Z.land c break_bit = 0 /\ Z.land c (Z.lnot break_bit) = c /\ Z.land (c + 128) break_bit = 128 /\ Z.land (c + 128) (Z.lnot break_bit) = c.
Proof.
  intros Hc. assert (H : forallb (fun n => let c := Z.of_nat n in
    (Z.land c break_bit =? 0) && (Z.land c (Z.lnot break_bit) =? c) && (Z.land (c + 128) break_bit =? 128) && (Z.land (c + 128) (Z.lnot break_bit) =? c))
    (seq 0 128) = true) by by vm_compute.
  rewrite forallb_forall in H. specialize (H (Z.to_nat c)). rewrite Z2Nat.id in H by lia.
  assert (Hin : In (Z.to_nat c) (seq 0 128)) by (apply in_seq; lia). specialize (H Hin). rewrite !andb_true_iff, !Z.eqb_eq in H. tauto.
Qed.

(** A make code and a break code of the same key. *)
Lemma decode_make reply c kb : 0 <= c < 128 -> decodeKey reply c kb =
  '(done, kb) ← press_key reply c (on_key (setPressed true) (addToBuffer c kb)); Ret (done, set_prefix 0 kb).
Proof.
  intros Hc. destruct (scan_codes c Hc) as (E1 & E2 & _). unfold decodeKey. rewrite E1, E2. unfold prefix1, prefix2. by decide_bool.
Qed.

Lemma decode_break reply c kb : 0 <= c < 128 -> c <> 0x60 -> c <> 0x61 ->
  decodeKey reply (c + 128) kb = Ret (false, release_key c (on_key (setPressed false) (removeFromBuffer c kb))).
Proof.
  intros Hc H1 H2. destruct (scan_codes c Hc) as (_ & _ & E3 & E4). unfold decodeKey. rewrite E3, E4. unfold prefix1, prefix2. by decide_bool.
Qed.

Lemma decode_prefix reply c kb : c = 0x60 \/ c = 0x61 ->
  decodeKey reply (c + 128) kb = Ret (false, set_prefix (c + 128) (on_key (setPressed false) (removeFromBuffer c kb))).
Proof. by intros [->| ->]. Qed.

(** ** The keys that are held *)

Definition nonzero (l : list Z) : list Z := filter (fun x => x <> 0) l.

Definition held_list (kb : Keyboard) : list Z := nonzero (buffer kb).

Record kb_ok (kb : Keyboard) : Prop := {
  kb_length : length (buffer kb) = KB_BUFFER_SIZE;
  kb_nodup : NoDup (held_list kb);
  kb_count : keysPressed kb = Z.of_nat (length (held_list kb))
}.

Definition held (kb : Keyboard) : gset Z := list_to_set (held_list kb).

Lemma length_nonzero l : (length (nonzero l) <= length l)%nat.
Proof. apply length_filter. Qed.

Lemma size_held kb : kb_ok kb -> Z.of_nat (size (held kb)) = keysPressed kb.
Proof. intros Hk. unfold held. rewrite size_list_to_set by apply Hk. symmetry. apply Hk. Qed.

Lemma elem_of_held kb c : c ∈ held kb <-> c ∈ buffer kb /\ c <> 0.
Proof. unfold held, held_list, nonzero. rewrite elem_of_list_to_set, list_elem_of_filter. tauto. Qed.

Lemma replace_first_spec old new l :
  match replace_first old new l with
  | None => old ∉ l
  | Some l' => exists l1 l2, l = l1 ++ old :: l2 /\ l' = l1 ++ new :: l2
  end.
Proof.
  induction l as [|x l IH]; simpl; [by intros ?%elem_of_nil|]. destruct (Z.eqb_spec x old) as [->|Hne]; [by exists [], l|].
  destruct (replace_first old new l) as [l'|]; simpl.
  - destruct IH as (l1 & l2 & -> & ->). by exists (x :: l1), l2.
  - intros [->|Hin]%elem_of_cons; done.
Qed.

Lemma isKeyPressed_spec c kb : isKeyPressed c kb = bool_decide (c ∈ buffer kb).
Proof.
  unfold isKeyPressed. apply eq_bool_prop_intro. rewrite Is_true_true, existsb_exists, bool_decide_spec. split.
  - intros (x & Hx%list_elem_of_In & ->%Z.eqb_eq). done.
  - intros Hc%list_elem_of_In. exists c. by rewrite Z.eqb_refl.
Qed.

(** A zero means a slot that is free. *)
Lemma free_slot kb : kb_ok kb -> 0 ∈ buffer kb <-> size (held kb) <> KB_BUFFER_SIZE.
Proof.
  intros Hk. unfold held. rewrite size_list_to_set by apply Hk. rewrite <- (kb_length _ Hk). unfold held_list, nonzero. split.
  - intros H0. pose proof (length_filter_lt (fun x => x <> 0) (buffer kb) 0 H0 ltac:(tauto)). lia.
  - intros Hne. destruct (decide (0 ∈ buffer kb)) as [|H0]; [done|]. exfalso. apply Hne. rewrite filter_all; [done|]. by intros x Hx ->.
Qed.

Lemma filter_held (l1 l2 : list Z) x : nonzero (l1 ++ x :: l2) = nonzero l1 ++ (if decide (x = 0) then [] else [x]) ++ nonzero l2.
Proof.
  unfold nonzero. rewrite filter_app. destruct (decide (x = 0)) as [->|Hx]; [by rewrite filter_cons_False by tauto|by rewrite filter_cons_True].
Qed.

Lemma add_held c kb : kb_ok kb -> c <> 0 ->
  kb_ok (addToBuffer c kb) /\ held (addToBuffer c kb) = if decide (c ∈ held kb \/ size (held kb) = KB_BUFFER_SIZE) then held kb else {[c]} ∪ held kb.
Proof.
  intros Hk Hc. unfold addToBuffer. rewrite isKeyPressed_spec. destruct (decide (c ∈ buffer kb)) as [Hin|Hin].
  { rewrite bool_decide_true by done. rewrite decide_True; [done|]. left. by apply elem_of_held. }
  rewrite bool_decide_false by done. pose proof (replace_first_spec 0 c (buffer kb)) as Hr. pose proof (free_slot kb Hk) as Hfree.
  destruct (replace_first 0 c (buffer kb)) as [l|].
  - destruct Hr as (l1 & l2 & El & ->). rewrite decide_False.
    2:{ intros [Hh|Hh]; [by apply elem_of_held in Hh as [? _]|]. apply (proj1 Hfree); [|done]. rewrite El. set_solver. }
    destruct Hk as [Hlen Hnd Hcnt]. unfold held_list in Hnd, Hcnt. rewrite El, filter_held, decide_True, app_nil_l in Hnd, Hcnt by done.
    assert (Hl : held_list (set_held (keysPressed kb + 1) (l1 ++ c :: l2) kb) ≡ₚ c :: held_list kb).
    { unfold held_list. cbn. rewrite El, !filter_held. rewrite decide_False, decide_True by done. rewrite app_nil_l. simpl. by rewrite Permutation_middle. }
    assert (Hck : c ∉ held_list kb) by (unfold held_list, nonzero; rewrite list_elem_of_filter; tauto). split.
    + constructor; cbn.
      * rewrite <- Hlen, El, !length_app. done.
      * rewrite Hl. apply NoDup_cons. split; [done|]. unfold held_list. by rewrite El, filter_held, decide_True, app_nil_l.
      * rewrite Hl. simpl. rewrite Hcnt. unfold held_list. rewrite El, filter_held, decide_True, app_nil_l by done.
        assert (length (nonzero l1 ++ nonzero l2) <= 4)%nat; [|unfold u32; rewrite Z.mod_small; lia].
        unfold KB_BUFFER_SIZE in Hlen. rewrite El, length_app in Hlen. simpl in Hlen. rewrite length_app.
        pose proof (length_nonzero l1). pose proof (length_nonzero l2). lia.
    + unfold held. by rewrite Hl.
  - rewrite decide_True; [done|]. right. destruct (decide (size (held kb) = KB_BUFFER_SIZE)); [done|tauto].
Qed.

Lemma remove_held c kb : kb_ok kb -> c <> 0 -> kb_ok (removeFromBuffer c kb) /\ held (removeFromBuffer c kb) = held kb ∖ {[c]}.
Proof.
  intros Hk Hc. unfold removeFromBuffer. pose proof (replace_first_spec c 0 (buffer kb)) as Hr. destruct (replace_first c 0 (buffer kb)) as [l|].
  - destruct Hr as (l1 & l2 & El & ->). destruct Hk as [Hlen Hnd Hcnt].
    assert (Hl : held_list kb ≡ₚ c :: held_list (set_held (keysPressed kb - 1) (l1 ++ 0 :: l2) kb)).
    { unfold held_list. cbn. rewrite El, !filter_held. rewrite decide_False, decide_True by done. simpl. by rewrite Permutation_middle. }
    rewrite Hl in Hnd, Hcnt. apply NoDup_cons in Hnd as [Hnc Hnd]. split.
    + constructor; [|done|].
      * cbn. rewrite <- Hlen, El, !length_app. done.
      * set (h := held_list _) in *. assert (length h <= 4)%nat.
        { unfold h, held_list. etransitivity; [apply length_nonzero|]. cbn. unfold KB_BUFFER_SIZE in Hlen. rewrite El in Hlen. rewrite length_app in *. simpl in *. lia. }
        cbn [keysPressed set_held]. rewrite Hcnt. simpl length. unfold u32. rewrite Z.mod_small; lia.
    + unfold held. rewrite Hl. simpl. set_solver.
  - split; [done|]. apply set_eq. intros x. rewrite elem_of_difference, elem_of_singleton, elem_of_held. naive_solver.
Qed.

(** ** Runs of the decoder *)

Section Runs.
Context (reply : Z -> Z).
Implicit Types (kb : Keyboard) (c : Z).

(** The keys that are complete, in order. *)
Fixpoint decode_all (codes : list Z) kb : outcome (list Key * Keyboard) :=
  match codes with
  | [] => Ret ([], kb)
  | code :: codes =>
      '(complete, kb) ← decodeKey reply code kb;
      '(ks, kb') ← decode_all codes kb;
      Ret (if (complete : bool) then gather kb :: ks else ks, kb')
  end.

(** A call that leaves the keys that are held alone. *)
Definition same_held kb kb' : Prop := buffer kb' = buffer kb /\ keysPressed kb' = keysPressed kb.

Lemma tab_in (t : list Z) c : 0 <= c < Z.of_nat (length t) -> exists a, tab t c = Ret a /\ t !! Z.to_nat c = Some a.
Proof.
  intros Hc. unfold tab. destruct (lookup_lt_is_Some_ex t (Z.to_nat c)) as [a Ha]; [lia|]. exists a. by rewrite Ha.
Qed.

Lemma getAsciiCode_total c kb : 0 <= c < 89 -> exists k, getAsciiCode c kb = Ret (set_gather k kb).
Proof.
  intros Hc. unfold getAsciiCode. destruct (tab_in normal_tab c) as (a & Ea & _); [done|]. destruct (tab_in shift_tab c) as (a2 & Ea2 & _); [done|].
  destruct (tab_in alt_tab c) as (a3 & Ea3 & _); [done|]. rewrite Ea, Ea2, Ea3. outcome.
  destruct ((c =? 53) && _); [eauto|]. destruct (numLock _ && _ && (71 <=? c) && (c <=? 83)) eqn:En.
  - rewrite !andb_true_iff, !Z.leb_le in En. destruct (tab_in asc_num_tab (c - 71)) as (x & Ex & _); [simpl; lia|].
    destruct (tab_in scan_num_tab (c - 71)) as (y & Ey & _); [simpl; lia|]. rewrite Ex, Ey. outcome. eauto.
  - repeat (match goal with |- context [if ?x then _ else _] => destruct x end); eauto.
Qed.

Lemma setLed_held led on kb : same_held kb (setLed reply led on kb).
Proof. unfold setLed. by destruct (_ =? _). Qed.

Lemma press_key_total c kb : 0 <= c < 89 -> exists d kb', press_key reply c kb = Ret (d, kb') /\ same_held kb kb'.
Proof.
  intros Hc. destruct (getAsciiCode_total c kb Hc) as [k Ek]. unfold press_key. rewrite Ek. outcome.
  repeat (match goal with |- context [if ?x then _ else _] => destruct x end); eexists _, _; (split; [done|]); try done;
    unfold setLed; by destruct (reply set_led =? ack).
Qed.

Lemma release_key_held c kb : same_held kb (release_key c kb).
Proof. unfold release_key. repeat (match goal with |- context [if ?x then _ else _] => destruct x end); done. Qed.

Lemma same_held_ok kb kb' : same_held kb kb' -> kb_ok kb -> kb_ok kb' /\ held kb' = held kb.
Proof. intros [Eb En] [H1 H2 H3]. unfold held, held_list in *. rewrite Eb. split; [|done]. constructor; unfold held_list; by rewrite ?Eb, ?En. Qed.

(** ** Pressed keys *)

(** Codes a keyboard sends: make codes of the tables and break codes. *)
Definition scan_ok (code : Z) : Prop := 0 < code < 89 \/ 128 < code < 256.

(** A fifth key is not recorded. *)
Definition track (s : gset Z) (code : Z) : gset Z :=
  if decide (code < 128) then if decide (code ∈ s \/ size s = KB_BUFFER_SIZE) then s else {[code]} ∪ s
  else s ∖ {[code - 128]}.

Lemma decode_track code kb : kb_ok kb -> scan_ok code ->
  exists d kb', decodeKey reply code kb = Ret (d, kb') /\ kb_ok kb' /\ held kb' = track (held kb) code.
Proof.
  intros Hk [Hc|Hc]; unfold track.
  - rewrite decide_True by lia. rewrite decode_make by lia. destruct (add_held code kb Hk) as [Hk1 Hh1]; [lia|].
    destruct (press_key_total code (on_key (setPressed true) (addToBuffer code kb))) as (d & kb' & E & Hs); [lia|]. rewrite E. outcome.
    exists d, (set_prefix 0 kb'). split; [done|]. destruct (same_held_ok (addToBuffer code kb) (set_prefix 0 kb')) as [Ha Hb]; [done|done|]. by rewrite Hb.
  - rewrite decide_False by lia. assert (E0 : decodeKey reply code kb = decodeKey reply ((code - 128) + 128) kb) by (f_equal; lia). rewrite E0. destruct (remove_held (code - 128) kb Hk) as [Hk1 Hh1]; [lia|].
    destruct (decide (code - 128 = 0x60 \/ code - 128 = 0x61)) as [Hp|Hp].
    + rewrite decode_prefix by done. eexists _, _. split; [done|]. rewrite <- Hh1. by apply (same_held_ok (removeFromBuffer (code - 128) kb)).
    + rewrite decode_break by (lia || tauto). eexists _, _. split; [done|].
      pose proof (release_key_held (code - 128) (on_key (setPressed false) (removeFromBuffer (code - 128) kb))) as Hs.
      rewrite <- Hh1. by apply (same_held_ok (removeFromBuffer (code - 128) kb)).
Qed.

Lemma decode_all_track codes : forall kb, kb_ok kb -> Forall scan_ok codes ->
  exists ks kb', decode_all codes kb = Ret (ks, kb') /\ kb_ok kb' /\ held kb' = foldl track (held kb) codes.
Proof.
  induction codes as [|code codes IH]; intros kb Hk Hc; [by exists [], kb|]. apply Forall_cons in Hc as [Hcode Hc]. cbn [decode_all foldl].
  destruct (decode_track code kb Hk Hcode) as (d & kb1 & E1 & Hk1 & Hh1). rewrite E1. outcome.
  destruct (IH kb1 Hk1 Hc) as (ks & kb' & E & Hk' & Hh'). rewrite E. outcome. eexists _, kb'. split; [done|]. by rewrite Hh', Hh1.
Qed.

(** ** Typing *)

(** A key that types: not a modifier and not a lock. *)
Definition types c : Prop := 0 < c < 89 /\ Forall (fun x => c <> x) [29; 42; 54; 56; 58; 69; 70].

(** The codes of a key pressed and released, with shift or without. *)
Definition stroke (s : bool * Z) : list Z := if s.1 then [42; s.2; s.2 + 128; 170] else [s.2; s.2 + 128].
Definition char_typed (s : bool * Z) : Z := default 0 ((if s.1 then shift_tab else normal_tab) !! Z.to_nat s.2).

(** Prefix and modifiers. *)
Definition mode kb (m : Z) : Prop := prefix kb = 0 /\ modi (gather kb) = m.

Lemma held_mode kb m c : mode kb m -> mode (addToBuffer c kb) m /\ mode (removeFromBuffer c kb) m.
Proof.
  intros Hm. unfold addToBuffer, removeFromBuffer. split; [destruct (isKeyPressed c kb); [done|]|]; by destruct (replace_first _ _ _).
Qed.

Lemma press_types c kb (sh : bool) : types c -> mode kb (if sh then 1 else 0) ->
  exists kb', decodeKey reply c kb = Ret (true, kb') /\ mode kb' (if sh then 1 else 0) /\ asc (gather kb') = u8 (char_typed (sh, c)).
Proof.
  intros [Hc Hno] Hm. rewrite decode_make by lia. destruct (held_mode kb _ c Hm) as [[Hp Hmod] _]. set (kb1 := on_key (setPressed true) (addToBuffer c kb)).
  rewrite !Forall_cons in Hno. destruct (tab_in (if sh then shift_tab else normal_tab) c) as (a & Ea & Ha); [destruct sh; simpl; lia|].
  assert (Hg : getAsciiCode c kb1 = Ret (on_key (fun k => set_scancode c (set_ascii a k)) kb1)).
  { unfold getAsciiCode, numLock, altRight, shift, capsLock, has_bit. change (prefix kb1) with (prefix (addToBuffer c kb)). change (modi (gather kb1)) with (modi (gather (addToBuffer c kb))).
    rewrite Hp, Hmod. change (0 =? prefix1) with false. rewrite andb_false_r. destruct sh; cbn in Ea |- *; by rewrite Ea. }
  eexists. split.
  - unfold press_key. decide_bool. cbn [orb]. rewrite Hg. outcome. reflexivity.
  - split; [by split|]. cbn. unfold char_typed. cbn [fst snd]. by rewrite Ha.
Qed.

Lemma release_types c kb m : types c -> mode kb m -> exists kb', decodeKey reply (c + 128) kb = Ret (false, kb') /\ mode kb' m.
Proof.
  intros [Hc Hno] Hm. rewrite decode_break by lia. eexists. split; [done|]. destruct (held_mode kb m c Hm) as [_ Hm']. rewrite !Forall_cons in Hno.
  unfold release_key. decide_bool. exact Hm'.
Qed.

Lemma stroke_run s kb : types s.2 -> mode kb 0 ->
  exists k kb', decode_all (stroke s) kb = Ret ([k], kb') /\ mode kb' 0 /\ (asc k, modi k) = (u8 (char_typed s), if s.1 then 1 else 0).
Proof.
  destruct s as [[|] c]; cbn [fst snd]; intros Hc Hm; unfold stroke; cbn [fst snd decode_all].
  - destruct (held_mode kb 0 42 Hm) as [[Hp1 Hm1] _]. rewrite (decode_make reply 42) by lia. change (press_key reply 42 ?x) with (Ret (false, on_key (set_shift true) x)). outcome.
    set (kb1 := set_prefix 0 _). assert (Hk1 : mode kb1 1) by (split; [done|]; cbn; by rewrite Hm1).
    destruct (press_types c kb1 true Hc Hk1) as (kb2 & E2 & Hk2 & Ha). rewrite E2. outcome.
    destruct (release_types c kb2 1 Hc Hk2) as (kb3 & E3 & Hk3). rewrite E3. outcome. change 170 with (42 + 128). rewrite (decode_break reply 42) by lia. outcome.
    eexists _, _. split; [done|]. split; [|cbn [fst]; by rewrite <- Ha, (proj2 Hk2)]. destruct (held_mode kb3 1 42 Hk3) as [_ [Hp4 Hm4]]. split; [done|]. cbn. by rewrite Hm4.
  - destruct (press_types c kb false Hc Hm) as (kb2 & E2 & Hk2 & Ha). rewrite E2. outcome.
    destruct (release_types c kb2 0 Hc Hk2) as (kb3 & E3 & Hk3). rewrite E3. outcome. eexists _, _. split; [done|]. split; [done|]. cbn [fst]. by rewrite <- Ha, (proj2 Hk2).
Qed.

Lemma decode_all_app l1 l2 kb : decode_all (l1 ++ l2) kb =
  '(ks1, kb1) ← decode_all l1 kb; '(ks2, kb2) ← decode_all l2 kb1; Ret (ks1 ++ ks2, kb2).
Proof.
  revert kb. induction l1 as [|c l1 IH]; intros kb; cbn [app decode_all]; [outcome; by destruct (decode_all l2 kb) as [[]| | |]|].
  destruct (decodeKey reply c kb) as [[d kb1]| | |]; try done. outcome. rewrite IH. destruct (decode_all l1 kb1) as [[ks1 kb2]| | |]; try done. outcome.
  destruct (decode_all l2 kb2) as [[ks2 kb3]| | |]; try done. outcome. by destruct d.
Qed.

(** ** Interrupts *)

(** The data of a burst of interrupts, and [n] calls that decode it. *)
Definition interrupts (codes : list Z) kb : outcome Keyboard := foldM (trigger 1) codes kb.

Fixpoint drain (n : nat) kb : outcome (list (bool * Key) * Keyboard) :=
  match n with
  | O => Ret ([], kb)
  | S n =>
      '(event, kb) ← parseInterruptData reply kb;
      '(events, kb) ← drain n kb;
      Ret (option_list event ++ events, kb)
  end.

Definition event_of (k : Key) : bool * Key := (ctrl k && alt k && (scan k =? Key_del), k).

Lemma interrupts_held codes : forall kb l, holds (interruptDataBuffer kb) l -> Z.of_nat (length l + length codes) <= r_capacity (interruptDataBuffer kb) ->
  exists b, interrupts codes kb = Ret (set_data b kb) /\ holds b (l ++ codes).
Proof.
  induction codes as [|c codes IH]; intros kb l Hl Hn.
  - exists (interruptDataBuffer kb). rewrite app_nil_r. by destruct kb.
  - simpl in Hn. destruct (ring_push _ l c Hl) as (b & E & Hb & Hcap); [lia|]. assert (Et : trigger 1 c kb = Ret (set_data b kb)) by (unfold trigger; rewrite E; done). unfold interrupts. cbn [foldM]. rewrite Et. outcome.
    destruct (IH (set_data b kb) (l ++ [c])) as (b' & E' & Hb'); [done|cbn; rewrite length_app, Hcap; simpl; lia|].
    exists b'. rewrite <- app_assoc in Hb'. split; [exact E'|done].
Qed.

(** Decoding does not look at the data that waits. *)
Lemma held_data b c kb : addToBuffer c (set_data b kb) = set_data b (addToBuffer c kb) /\ removeFromBuffer c (set_data b kb) = set_data b (removeFromBuffer c kb).
Proof.
  unfold addToBuffer, removeFromBuffer, isKeyPressed. cbn [buffer set_data]. split; [destruct (existsb _ _); [done|]|]; by destruct (replace_first _ _ _).
Qed.

Lemma setLed_data b led on kb : setLed reply led on (set_data b kb) = set_data b (setLed reply led on kb).
Proof. unfold setLed. by destruct (_ =? _). Qed.

Ltac cases := repeat (match goal with |- context [if ?x then _ else _] => destruct x end); try done.

Lemma ascii_data b c kb : getAsciiCode c (set_data b kb) = kb ← getAsciiCode c kb; Ret (set_data b kb).
Proof.
  unfold getAsciiCode. cbn [prefix gather set_data]. destruct (tab asc_num_tab _), (tab scan_num_tab _), (tab alt_tab _), (tab shift_tab _), (tab normal_tab _); outcome; cases.
Qed.

Lemma release_data b c kb : release_key c (set_data b kb) = set_data b (release_key c kb).
Proof. unfold release_key. cbn [prefix set_data]. cases. Qed.

Lemma press_data b c kb : press_key reply c (set_data b kb) = '(d, kb) ← press_key reply c kb; Ret (d, set_data b kb).
Proof.
  unfold press_key. cbn [prefix gather set_data]. rewrite ascii_data. change (on_key ?f (set_data b kb)) with (set_data b (on_key f kb)). rewrite !setLed_data.
  destruct (getAsciiCode c kb); outcome; cases.
Qed.

Lemma decode_data b c kb : decodeKey reply c (set_data b kb) = '(d, kb) ← decodeKey reply c kb; Ret (d, set_data b kb).
Proof.
  unfold decodeKey. destruct (held_data b (Z.land c (Z.lnot break_bit)) kb) as [-> ->]. set (kb1 := if negb _ then on_key (setPressed false) (set_data _ _) else _).
  set (kb2 := if negb _ then on_key (setPressed false) (removeFromBuffer _ kb) else _). assert (kb1 = set_data b kb2) as -> by (unfold kb1, kb2; cases).
  rewrite press_data, release_data. destruct (press_key reply c kb2) as [[]| | |]; outcome; cases.
Qed.

Lemma decode_all_data b codes : forall kb, decode_all codes (set_data b kb) = '(ks, kb) ← decode_all codes kb; Ret (ks, set_data b kb).
Proof.
  induction codes as [|c codes IH]; intros kb; [done|]. cbn [decode_all]. rewrite decode_data. destruct (decodeKey reply c kb) as [[d kb1]| | |]; [|done..].
  outcome. rewrite IH. by destruct (decode_all codes kb1) as [[]| | |].
Qed.

Lemma no_data b kb : holds b [] -> hasInterruptData (set_data b kb) = false.
Proof. intros Hb. unfold hasInterruptData. change (interruptDataBuffer _) with b. by rewrite (ring_isEmpty b [] Hb). Qed.

Lemma drain_decodes codes : forall kb ks kb', holds (interruptDataBuffer kb) codes -> decode_all codes kb = Ret (ks, kb') ->
  exists b, drain (length codes) kb = Ret (event_of <$> ks, set_data b kb') /\ holds b [].
Proof.
  induction codes as [|c codes IH]; intros kb ks kb' Hb E.
  - injection E as <- <-. exists (interruptDataBuffer kb). split; [by destruct kb|done].
  - destruct (ring_pop _ _ _ Hb) as (b1 & Ep & Hb1 & _). cbn [decode_all] in E. cbn [length drain]. unfold parseInterruptData. rewrite Ep. outcome. rewrite decode_data.
    destruct (decodeKey reply c kb) as [[d kb1]| | |]; [|done..]. revert E. outcome. intros E.
    destruct (decode_all codes kb1) as [[ks1 kb2]| | |] eqn:E1; [|done..]. revert E. outcome. intros E. injection E as <- <-.
    destruct (IH (set_data b1 kb1) ks1 (set_data b1 kb2)) as (b2 & E2 & Hb2); [done|by rewrite decode_all_data, E1|].
    exists b2. split; [|done]. destruct d; outcome; rewrite E2; done.
Qed.
End Runs.

Lemma char_typed_u8 s : u8 (char_typed s) = char_typed s.
Proof.
  unfold char_typed. assert (H : Forall (fun x => u8 x = x) (normal_tab ++ shift_tab)) by (apply (bool_decide_unpack _); by vm_compute).
  apply Forall_app in H as [Hn Hs]. destruct s.1.
  - destruct (shift_tab !! _) as [x|] eqn:E; [|done]. exact (Forall_lookup_1 _ _ _ _ Hs E).
  - destruct (normal_tab !! _) as [x|] eqn:E; [|done]. exact (Forall_lookup_1 _ _ _ _ Hn E).
Qed.

Lemma strokes_run reply strokes : forall kb, Forall (fun s => types s.2) strokes -> mode kb 0 ->
  exists ks kb', decode_all reply (concat (stroke <$> strokes)) kb = Ret (ks, kb') /\ mode kb' 0 /\ asc <$> ks = char_typed <$> strokes /\ Forall (fun k => (event_of k).1 = false) ks.
Proof.
  induction strokes as [|s strokes IH]; intros kb Hs Hm; [by exists [], kb|]. apply Forall_cons in Hs as [Hs1 Hs].
  destruct (stroke_run reply s kb Hs1 Hm) as (k & kb1 & E1 & Hm1 & [= Hk Hmod]). destruct (IH kb1 Hs Hm1) as (ks & kb' & E & Hm' & Hks & Hre).
  exists (k :: ks), kb'. rewrite !fmap_cons. cbn [concat]. rewrite decode_all_app, E1. outcome. rewrite E. outcome. split; [done|]. split; [done|]. split; [by rewrite Hk, char_typed_u8, Hks|].
  constructor; [|done]. unfold event_of, ctrl, alt, ctrlLeft, ctrlRight, altLeft, altRight, has_bit. cbn [fst]. rewrite Hmod. by destruct s.1.
Qed.

(** ** Claims *)

Section Claims.
Context (reply : Z -> Z) (kb : Keyboard).
Hypothesis Hdata : holds (interruptDataBuffer kb) [].

(** Whatever codes arrive, the keyboard knows which keys are held: when a
    burst of interrupts that fits into the buffer has been decoded, no data is left,
    the set of held keys is the one that the make codes add to and the break codes
    remove from, with at most four keys at a time, [getKeysPressed] is its size and
    [isKeyPressed] its membership test. *)
Theorem keyboard_tracks_held (codes : list Z) (Hk : kb_ok kb) (Hc : Forall scan_ok codes)
    (Hn : Z.of_nat (length codes) <= r_capacity (interruptDataBuffer kb)) :
  exists kb1 events kb2,
    interrupts codes kb = Ret kb1 /\ drain reply (length codes) kb1 = Ret (events, kb2) /\
    hasInterruptData kb2 = false /\ kb_ok kb2 /\ held kb2 = foldl track (held kb) codes /\
    getKeysPressed kb2 = Z.of_nat (size (held kb2)) /\
    forall c, c <> 0 -> isKeyPressed c kb2 = bool_decide (c ∈ held kb2).
Proof.
  destruct (interrupts_held codes kb [] Hdata Hn) as (b & Ei & Hb). destruct (decode_all_track reply codes kb Hk Hc) as (ks & kb' & Ed & Hk' & Hh).
  destruct (drain_decodes reply codes (set_data b kb) ks (set_data b kb')) as (b' & E & Hb'); [done|by rewrite decode_all_data, Ed|].
  exists (set_data b kb), (event_of <$> ks), (set_data b' kb'). destruct (same_held_ok kb' (set_data b' kb')) as [Hk2 Hh2]; [done|done|].
  split_and!; [done|done| |done| | |].
  - by apply no_data.
  - by rewrite Hh2.
  - symmetry. by apply size_held.
  - intros c Hc0. rewrite isKeyPressed_spec. apply bool_decide_ext. rewrite elem_of_held. tauto.
Qed.

(** What is typed is what the program gets: keys pressed and released, each
    with the shift key or without, arrive as exactly the key events with the
    characters of the shifted and the plain table in the order of the strokes, none
    asks for a reboot, and the keyboard is ready for the next stroke. *)
Theorem keyboard_types_text (strokes : list (bool * Z)) (Hs : Forall (fun s => types s.2) strokes) (Hm : mode kb 0)
    (Hn : Z.of_nat (length (concat (stroke <$> strokes))) <= r_capacity (interruptDataBuffer kb)) :
  exists kb1 events kb2,
    interrupts (concat (stroke <$> strokes)) kb = Ret kb1 /\
    drain reply (length (concat (stroke <$> strokes))) kb1 = Ret (events, kb2) /\
    (fun e => asc e.2) <$> events = char_typed <$> strokes /\ Forall (fun e => e.1 = false) events /\
    mode kb2 0 /\ hasInterruptData kb2 = false.
Proof.
  set (codes := concat _) in *. destruct (interrupts_held codes kb [] Hdata Hn) as (b & Ei & Hb).
  destruct (strokes_run reply strokes kb Hs Hm) as (ks & kb' & Ed & Hm' & Hks & Hre). fold codes in Ed.
  destruct (drain_decodes reply codes (set_data b kb) ks (set_data b kb')) as (b' & E & Hb'); [done|by rewrite decode_all_data, Ed|].
  exists (set_data b kb), (event_of <$> ks), (set_data b' kb'). refine (conj Ei (conj E (conj _ (conj _ (conj Hm' _))))).
  - by rewrite <- list_fmap_compose, <- Hks.
  - by apply Forall_fmap.
  - by apply no_data.
Qed.
End Claims.

#[local] Instance junk_zero : Junk Z := fun _ => 0.

(** A keyboard that was plugged in and acknowledges commands. *)
Definition fresh : Keyboard := match new_Keyboard (fun _ => ack) 0 0 [] 0 with Ret kb => plugin kb | _ => mkKeyboard 0 new_Key 0 0 [] (mkRing (mkArray [] 0) 0 0 0 0) end.

Lemma fresh_ready : holds (interruptDataBuffer fresh) [] /\ r_capacity (interruptDataBuffer fresh) = 1024 /\ kb_ok fresh /\ mode fresh 0.
Proof.
  destruct (new_ring (T := Z) 1024) as (b & E & Hb & Hc); [lia|]. assert (Ef : interruptDataBuffer fresh = b).
  { unfold fresh, new_Keyboard. rewrite E. done. }
  rewrite Ef. split_and!; try done. constructor; try done. constructor.
Qed.

(** Shift, e, released: then the left cursor key, which is sent with a prefix. *)
Lemma keyboard_tracks_held_witness : exists kb1 events kb2,
  interrupts [42; 18; 146; 0xE0; 75] fresh = Ret kb1 /\ drain (fun _ => ack) 5 kb1 = Ret (events, kb2) /\ isKeyPressed 42 kb2 = true /\ isKeyPressed 18 kb2 = false.
Proof.
  destruct fresh_ready as (Hd & Hcap & Hk & _).
  destruct (keyboard_tracks_held (fun _ => ack) fresh Hd [42; 18; 146; 0xE0; 75] Hk) as (kb1 & ev & kb2 & E1 & E2 & _ & _ & Hh & _ & Hp).
  - repeat (constructor; [unfold scan_ok; lia|]). constructor.
  - rewrite Hcap. simpl. lia.
  - exists kb1, ev, kb2. split_and!; [exact E1|exact E2| |]; rewrite Hp by lia; rewrite Hh; by vm_compute.
Defined.

(** "Hi" *)
Lemma keyboard_types_text_witness : exists kb1 events kb2,
  interrupts [42; 35; 163; 170; 23; 151] fresh = Ret kb1 /\ drain (fun _ => ack) 6 kb1 = Ret (events, kb2) /\ (fun e => asc e.2) <$> events = [72; 105].
Proof.
  destruct fresh_ready as (Hd & Hcap & _ & Hm).
  destruct (keyboard_types_text (fun _ => ack) fresh Hd [(true, 35); (false, 23)]) as (kb1 & ev & kb2 & E1 & E2 & Ha & _).
  - repeat constructor; cbn; lia.
  - exact Hm.
  - rewrite Hcap. simpl. lia.
  - exists kb1, ev, kb2. split_and!; [exact E1|exact E2|exact Ha].
Defined.

(** ** Deviations *)

(** The release of an extended key leaves its prefix behind: the left control key
    that is pressed after the left cursor key counts as the right one. *)
Theorem prefix_survives_release : exists ks kb,
  decode_all (fun _ => ack) [0xE0; 0x4B; 0xE0; 0xCB; 0x1D] fresh = Ret (ks, kb) /\ ctrlLeft (gather kb) = false /\ ctrlRight (gather kb) = true.
Proof. eexists _, _. split_and!; by vm_compute. Qed.

(** The two shift keys share a bit: releasing one ends the effect of the other. *)
Theorem shift_keys_share : exists ks kb,
  decode_all (fun _ => ack) [42; 54; 182] fresh = Ret (ks, kb) /\ isKeyPressed 42 kb = true /\ shift (gather kb) = false.
Proof. eexists _, _. split_and!; by vm_compute. Qed.

(** The tables end before the largest make code. *)
Theorem tables_too_short : decodeKey (fun _ => ack) 89 fresh = Fault.
Proof. by vm_compute. Qed.

(** A zero in the buffer is a free slot, so that the release of key 0 counts below zero. *)
Theorem release_of_no_key : exists kb, decodeKey (fun _ => ack) 128 fresh = Ret (false, kb) /\ getKeysPressed kb = UINT32_MAX.
Proof. eexists. split; by vm_compute. Qed.
