(* ===== verification/Interrupts.v ===== *)
(** * Interrupts

    [kernel/interrupt/InterruptDispatcher.cpp], [InterruptManager.cpp] and
    [device/misc/Pic.cpp]. The dispatcher keeps a list of handlers per interrupt
    number and calls them in order; handlers that gather data are polled by the
    thread of the manager. A handler is the address of a device; what its virtual
    methods do to the devices is the class [InterruptHandler]. A mask register of
    the interrupt controller holds what was written to it. *)

From S2P Require Import Prelude Spinlock Array Collections ArrayList HashMap LinkedQueue.

(** ** The interrupt controller *)

Module PicInterrupt.
Definition PIT : Z := 0.
Definition KEYBOARD : Z := 1.
Definition RTC : Z := 8.
End PicInterrupt.

Definition EOI : Z := 0x20.
Definition READ_ISR : Z := 0x0B.
Definition SPURIOUS_INTERRUPT : Z := 0x80.
Definition PIC1_COMMAND : Z := 0x20.
Definition PIC2_COMMAND : Z := 0xA0.

(** The two mask registers, and the bytes that were written to the command ports. *)
Record Pic := mkPic { pic1_data : Z; pic2_data : Z; commands : list (Z * Z) }.

Definition getMask (interrupt : Z) : Z :=
  if PicInterrupt.RTC <=? interrupt then u8 (Z.shiftl 1 (interrupt - 8)) else u8 (Z.shiftl 1 interrupt).

(** [getDataPort], read and written. *)
Definition data_inb (interrupt : Z) (p : Pic) : Z := if PicInterrupt.RTC <=? interrupt then pic2_data p else pic1_data p.
Definition data_outb (interrupt value : Z) (p : Pic) : Pic :=
  if PicInterrupt.RTC <=? interrupt then mkPic (pic1_data p) (u8 value) (commands p) else mkPic (u8 value) (pic2_data p) (commands p).
Definition command_outb (port value : Z) (p : Pic) : Pic := mkPic (pic1_data p) (pic2_data p) (commands p ++ [(port, value)]).

Definition getCommandPort (interrupt : Z) : Z := if PicInterrupt.RTC <=? interrupt then PIC2_COMMAND else PIC1_COMMAND.

Definition allow (interrupt : Z) (p : Pic) : Pic := data_outb interrupt (Z.land (data_inb interrupt p) (Z.lnot (getMask interrupt))) p.
Definition forbid (interrupt : Z) (p : Pic) : Pic := data_outb interrupt (Z.lor (data_inb interrupt p) (getMask interrupt)) p.
Definition status (interrupt : Z) (p : Pic) : bool := negb (Z.land (data_inb interrupt p) (getMask interrupt) =? 0).

Definition sendEOI (interrupt : Z) (p : Pic) : Pic :=
  let p := if PicInterrupt.RTC <=? interrupt then command_outb PIC2_COMMAND EOI p else p in command_outb PIC1_COMMAND EOI p.

(** [isr] is what the controller answers. *)
Definition isSpurious (isr : Z) (p : Pic) : bool * Pic := (Z.land isr SPURIOUS_INTERRUPT =? 0, command_outb PIC1_COMMAND READ_ISR p).

(** ** Handlers *)

Class InterruptHandler (D : Type) := {
  h_trigger : Z -> Z -> D -> outcome D;
  h_hasInterruptData : Z -> D -> bool;
  h_parseInterruptData : Z -> D -> outcome D
}.

(** ** The dispatcher *)

Definition PAGE_FAULT : Z := 0x0E.
Definition SOFTWARE_EXCEPTIONS_START : Z := 200.

(** [System::panic] halts the machine. *)
Inductive verdict := Panic | Returned.

Record InterruptDispatcher (P G D : Type) := mkDispatcher {
  handler : P;
  debugHandlers : G;
  lists : gmap Z (ArrayList Z);
  pic : Pic;
  devices : D
}.
Arguments mkDispatcher {P G D} _ _ _ _ _.
Arguments handler {P G D} _.
Arguments debugHandlers {P G D} _.
Arguments lists {P G D} _.
Arguments pic {P G D} _.
Arguments devices {P G D} _.

Section Dispatcher.
Context {P G D : Type} `{MapOps P Z Z} `{MapOps G Z Z} `{InterruptHandler D}.
Context `{Junk Z} `{NewNode (ArrayList Z)}.
(** The debugger: whether it is initialised, and what it does at an exception. *)
Context (gdb : bool) (handleInterrupt : D -> outcome D).
Implicit Types (d : InterruptDispatcher P G D).

Abbreviation Disp := (ST (InterruptDispatcher P G D)).

Definition set_handler (m : P) d : InterruptDispatcher P G D := mkDispatcher m (debugHandlers d) (lists d) (pic d) (devices d).
Definition set_debug (m : G) d : InterruptDispatcher P G D := mkDispatcher (handler d) m (lists d) (pic d) (devices d).
Definition set_lists (m : gmap Z (ArrayList Z)) d : InterruptDispatcher P G D := mkDispatcher (handler d) (debugHandlers d) m (pic d) (devices d).
Definition set_pic (p : Pic) d : InterruptDispatcher P G D := mkDispatcher (handler d) (debugHandlers d) (lists d) p (devices d).
Definition set_devices (s : D) d : InterruptDispatcher P G D := mkDispatcher (handler d) (debugHandlers d) (lists d) (pic d) s.

Definition slot_known (slot : Z) : Disp bool := fun d => r ← m_containsKey slot (handler d); Ret (r, d).
Definition slot_list (slot : Z) : Disp Z := fun d => '(lp, m) ← m_get slot (handler d); Ret (lp, set_handler m d).

(** [handler.put(slot, new ArrayList)] and [list->add(&isr)] *)
Definition new_slot (slot : Z) : Disp unit := fun d =>
  let lp := new_address (lists d) in
  m ← m_put slot lp (handler d); Ret (tt, set_lists (<[lp := new_ArrayList]> (lists d)) (set_handler m d)).
Definition add_handler (isr lp : Z) : Disp unit := fun d =>
  al ← or_fault (lists d !! lp); r ← ArrayList.add isr al; Ret (tt, set_lists (<[lp := snd r]> (lists d)) d).

Definition assign (slot isr : Z) : Disp unit :=
  known ← slot_known slot;
  _ ← (if (known : bool) then mret tt else new_slot slot);
  lp ← slot_list slot;
  add_handler isr lp.

(** A null pointer is 0. *)
Definition report (slot : Z) : Disp Z :=
  known ← slot_known slot;
  if negb known then mret 0 else slot_list slot.

Definition sendEoi (slot : Z) : Disp unit :=
  if 32 <? slot then modify (fun d => set_pic (sendEOI (u8 (slot - 32)) (pic d)) d) else mret tt.

Definition assignDebug (slot debugHandler : Z) : Disp unit := fun d => m ← m_put slot debugHandler (debugHandlers d); Ret (tt, set_debug m d).

Definition reportDebug (slot : Z) : Disp Z := fun d =>
  known ← m_containsKey slot (debugHandlers d);
  if negb known then Ret (0, d) else '(f, m) ← m_get slot (debugHandlers d); Ret (f, set_debug m d).

(** The loop over the handlers: [list->get(i)->trigger] *)
Definition trigger_all (interrupt lp : Z) : Disp unit := fun d =>
  al ← or_fault (lists d !! lp);
  s ← foldM (fun i s => h ← ArrayList.get (Z.of_nat i) al; h_trigger h interrupt s) (seq 0 (Z.to_nat (ArrayList.size al))) (devices d);
  Ret (tt, set_devices s d).

Definition check_spurious (isr : Z) : Disp bool := fun d => let '(b, p) := isSpurious isr (pic d) in Ret (b, set_pic p d).
Definition debug : Disp unit := fun d => s ← handleInterrupt (devices d); Ret (tt, set_devices s d).

(** [interrupt] is the number in the frame. *)
Definition dispatch (isr interrupt : Z) : Disp verdict :=
  let slot := u8 interrupt in
  if (slot <? 32) && negb gdb && negb (slot =? PAGE_FAULT) then mret Panic
  else if SOFTWARE_EXCEPTIONS_START <=? slot then mret Panic
  else
    spurious ← (if slot =? 39 then check_spurious isr else mret false);
    if (spurious : bool) then mret Returned
    else
      n ← gets (fun d => m_size (handler d));
      if n =? 0 then _ ← sendEoi slot; mret Returned
      else
        list ← report slot;
        if (list =? 0) && (32 <=? slot) then throw ILLEGAL_STATE
        else
          _ ← (if list =? 0 then mret tt else trigger_all interrupt list);
          _ ← (if (slot <? 32) && gdb && negb (slot =? 14) then debug else mret tt);
          _ ← sendEoi slot;
          mret Returned.

(** The constructor: interrupt 0x80 is the system call. *)
Definition new_InterruptDispatcher (systemCall : Z) (m : P) (g : G) (p : Pic) (s : D) : outcome (InterruptDispatcher P G D) :=
  r ← assign 0x80 systemCall (mkDispatcher m g ∅ p s); Ret (snd r).
End Dispatcher.

(** ** The manager *)

Record InterruptManager := mkManager { interruptHandler : ArrayList Z; im_lock : Spinlock }.

Section Manager.
Context {D : Type} `{InterruptHandler D} `{Junk Z}.
Implicit Types (m : InterruptManager) (s : D).

Definition new_InterruptManager : InterruptManager := mkManager new_ArrayList new_Spinlock.

Definition registerInterruptHandler (device : Z) m : outcome InterruptManager :=
  l ← acquire 1 (im_lock m); r ← ArrayList.add device (interruptHandler m); Ret (mkManager (snd r) (release l)).

Definition deregisterInterruptHandler (device : Z) m : outcome InterruptManager :=
  l ← acquire 1 (im_lock m); r ← ArrayList.remove device (interruptHandler m); Ret (mkManager (snd r) (release l)).

(** The body of the inner loop: a handler that has data parses some of it. *)
Definition poll (al : ArrayList Z) (i : nat) (x : bool * D) : outcome (bool * D) :=
  let '(doYield, s) := x in
  h ← ArrayList.get (Z.of_nat i) al;
  if h_hasInterruptData h s then s ← h_parseInterruptData h s; Ret (false, s) else Ret (doYield, s).

(** The [do] loop, up to [yield]. *)
Fixpoint run_loop (fuel : nat) m s : outcome (InterruptManager * D) :=
  match fuel with
  | O => Diverge
  | S fuel =>
      l ← acquire 1 (im_lock m);
      '(doYield, s) ← foldM (poll (interruptHandler m)) (seq 0 (Z.to_nat (ArrayList.size (interruptHandler m)))) (true, s);
      let m := mkManager (interruptHandler m) (release l) in
      if negb doYield then run_loop fuel m s else Ret (m, s)
  end.

(** The frame is a dummy with zeros. *)
Definition handleDisabledInterrupts m s : outcome D :=
  foldM (fun i s => h ← ArrayList.get (Z.of_nat i) (interruptHandler m); h_trigger h 0 s) (seq 0 (Z.to_nat (ArrayList.size (interruptHandler m)))) s.
End Manager.

(** ** Dispatching *)

Section Dispatching.
Context {P G D : Type} `{MapOps P Z Z} `{!MapSpec P Z Z} `{MapOps G Z Z} `{InterruptHandler D}.
Context `{Junk Z} `{NewNode (ArrayList Z)}.
Implicit Types (d : InterruptDispatcher P G D) (slot : Z).

(** The handlers of a slot, in the order in which they were assigned. *)
Definition handlers_of d slot : list Z :=
  match m_view (handler d) !! slot with
  | Some lp => match lists d !! lp with Some al => al_view al | None => [] end
  | None => []
  end.

Record disp_ok d : Prop := {
  do_inv : m_inv (handler d);
  do_lists : forall slot lp, m_view (handler d) !! slot = Some lp ->
    lp <> 0 /\ exists al, lists d !! lp = Some al /\ al_wf al /\ al_view al <> [];
  do_ptr : forall s1 s2 lp, m_view (handler d) !! s1 = Some lp -> m_view (handler d) !! s2 = Some lp -> s1 = s2
}.

Lemma handlers_none d slot : disp_ok d -> handlers_of d slot = [] <-> m_view (handler d) !! slot = None.
Proof.
  intros Hd. unfold handlers_of. destruct (m_view (handler d) !! slot) as [lp|] eqn:E; [|done].
  destruct (do_lists _ Hd _ _ E) as (_ & al & -> & _ & Hne). done.
Qed.

Lemma handlers_list d slot lp : disp_ok d -> m_view (handler d) !! slot = Some lp ->
  exists al, lists d !! lp = Some al /\ al_wf al /\ al_view al = handlers_of d slot.
Proof. intros Hd E. destruct (do_lists _ Hd _ _ E) as (_ & al & Ha & Hwf & _). exists al. unfold handlers_of. by rewrite E, Ha. Qed.

(** A list that is new or was there gets one more handler. *)
Lemma disp_ok_add d slot isr lp m al : disp_ok d -> lp <> 0 -> m_inv m -> m_view m = <[slot := lp]> (m_view (handler d)) ->
  (forall s, s <> slot -> m_view (handler d) !! s <> Some lp) -> al_wf al -> al_view al = handlers_of d slot ++ [isr] ->
  let d' := set_lists (<[lp := al]> (lists d)) (set_handler m d) in
  disp_ok d' /\ forall s, handlers_of d' s = if decide (s = slot) then handlers_of d slot ++ [isr] else handlers_of d s.
Proof.
  intros Hd Hlp Hm Hv Hother Hwf Hal d'. split.
  - constructor; cbn; rewrite ?Hv; [done| |].
    + intros s lp' [[<- <-]|[Hs E]]%lookup_insert_Some.
      * split; [done|]. exists al. rewrite lookup_insert_eq, Hal. split_and!; [done|done|]. by destruct (handlers_of d slot).
      * rewrite lookup_insert_ne by (intros <-; by apply (Hother s)). by apply (do_lists _ Hd s).
    + intros s1 s2 lp' [[<- <-]|[Hs1 E1]]%lookup_insert_Some [[<- E]|[Hs2 E2]]%lookup_insert_Some; [done| | |by apply (do_ptr _ Hd _ _ lp')].
      * by apply Hother in E2.
      * subst lp'. by apply Hother in E1.
  - intros s. unfold handlers_of. cbn. rewrite Hv. destruct (decide (s = slot)) as [->|Hne].
    + by rewrite !lookup_insert_eq, Hal.
    + rewrite lookup_insert_ne by done. destruct (m_view (handler d) !! s) as [lp'|] eqn:E; [|done]. rewrite lookup_insert_ne; [done|]. intros <-. by apply (Hother s).
Qed.

Lemma slot_list_run d slot lp : disp_ok d -> m_view (handler d) !! slot = Some lp ->
  exists m, slot_list slot d = Ret (lp, set_handler m d) /\ m_inv m /\ m_view m = m_view (handler d).
Proof.
  intros Hd E. pose proof (m_get_spec (handler d) slot (do_inv _ Hd)) as Hg. rewrite E in Hg. destruct Hg as (m & Eg & Hm & Hv).
  exists m. unfold slot_list. by rewrite Eg.
Qed.

Lemma assign_run d slot isr : disp_ok d -> Z.of_nat (length (handlers_of d slot)) < 2 ^ 31 -> Z.of_nat (base.size (m_view (handler d))) + 1 < 2 ^ 32 ->
  exists d', assign slot isr d = Ret (tt, d') /\ disp_ok d' /\ pic d' = pic d /\ devices d' = devices d /\ debugHandlers d' = debugHandlers d /\
    (base.size (m_view (handler d')) <= S (base.size (m_view (handler d))))%nat /\
    forall s, handlers_of d' s = if decide (s = slot) then handlers_of d slot ++ [isr] else handlers_of d s.
Proof.
  intros Hd Hlen Hsize. unfold assign, slot_known. st_step. rewrite (m_containsKey_spec _ _ (do_inv _ Hd)). outcome.
  destruct (m_view (handler d) !! slot) as [lp|] eqn:E.
  - rewrite bool_decide_true by eauto. destruct (slot_list_run d slot lp Hd E) as (m & El & Hm & Hv). rewrite El.
    destruct (handlers_list d slot lp Hd E) as (al & Ha & Hwf & Hal). pose proof (length_al_view _ Hwf) as Hn. rewrite Hal in Hn.
    destruct (ArrayList.add_spec isr al Hwf) as (al' & Ea & Hwf' & _ & Hal'); [lia|]. unfold add_handler. cbn [lists set_handler]. rewrite Ha. outcome. rewrite Ea. outcome.
    destruct (disp_ok_add d slot isr lp m al' Hd) as [Hd' Hh']; try done.
    + by destruct (do_lists _ Hd _ _ E).
    + by rewrite Hv, insert_id.
    + intros s Hs Es. by apply Hs, (do_ptr _ Hd _ _ lp).
    + by rewrite Hal', Hal.
    + eexists. split; [done|]. split_and!; [exact Hd'|done|done|done|cbn; rewrite Hv; lia|exact Hh'].
  - rewrite bool_decide_false by (by intros [? ?]). unfold new_slot. destruct (new_address_free (lists d)) as [Hnz Hfree]. set (lp := new_address (lists d)) in *.
    destruct (m_put_spec (handler d) slot lp (do_inv _ Hd) Hsize) as (m & Em & Hm & Hv). rewrite Em. outcome.
    unfold slot_list. cbn [handler set_handler set_lists]. pose proof (m_get_spec m slot Hm) as Hg. rewrite Hv, lookup_insert_eq in Hg. destruct Hg as (m' & Eg & Hm' & Hv').
    rewrite Eg. outcome. unfold add_handler. cbn [lists set_handler set_lists]. rewrite lookup_insert_eq. outcome.
    destruct (ArrayList.add_spec isr (new_ArrayList (T := Z))) as (al' & Ea & Hwf' & _ & Hal'); [by constructor|cbn; lia|]. rewrite Ea. outcome.
    destruct (disp_ok_add d slot isr lp m' al' Hd) as [Hd' Hh']; try done.
    + intros s Hs Es. destruct (do_lists _ Hd _ _ Es) as (_ & al & Ha & _). congruence.
    + rewrite Hal', (proj2 (handlers_none d slot Hd) E). done.
    + eexists. split; [done|]. cbn. rewrite insert_insert_eq. split_and!; [exact Hd'|done|done|done| |exact Hh'].
      rewrite Hv', map_size_insert_None by done. lia.
Qed.

(** The bytes a handled interrupt sends to the controllers. *)
Definition acknowledged slot : list (Z * Z) :=
  (if slot =? 39 then [(PIC1_COMMAND, READ_ISR)] else []) ++
  (if slot <=? 32 then [] else if slot <? 40 then [(PIC1_COMMAND, EOI)] else [(PIC2_COMMAND, EOI); (PIC1_COMMAND, EOI)]).

Definition spurious isr slot : Prop := slot = 39 /\ Z.land isr SPURIOUS_INTERRUPT = 0.

Lemma report_run d slot lp : disp_ok d -> m_view (handler d) !! slot = Some lp ->
  exists m, report slot d = Ret (lp, set_handler m d) /\ m_inv m /\ m_view m = m_view (handler d).
Proof.
  intros Hd E. unfold report, slot_known. st_step. rewrite (m_containsKey_spec _ _ (do_inv _ Hd)), E. outcome. by apply slot_list_run.
Qed.

Lemma report_none d slot : disp_ok d -> m_view (handler d) !! slot = None -> report slot d = Ret (0, d).
Proof. intros Hd E. unfold report, slot_known. st_step. by rewrite (m_containsKey_spec _ _ (do_inv _ Hd)), E. Qed.

Lemma trigger_all_run d n lp al : lists d !! lp = Some al -> al_wf al ->
  trigger_all n lp d = s ← foldM (fun h => h_trigger h n) (al_view al) (devices d); Ret (tt, set_devices s d).
Proof. intros Hl Hwf. unfold trigger_all. rewrite Hl. outcome. by rewrite (foldM_get (fun h => h_trigger h n) al Hwf). Qed.

Lemma disp_ok_same d d' : disp_ok d -> m_inv (handler d') -> m_view (handler d') = m_view (handler d) -> lists d' = lists d ->
  disp_ok d' /\ forall s, handlers_of d' s = handlers_of d s.
Proof.
  intros Hd Hm Hv Hl. split; [|intros s; unfold handlers_of; by rewrite Hv, Hl].
  constructor; [done| |]; rewrite Hv, ?Hl; apply Hd.
Qed.

Lemma sendEoi_run d slot : 0 <= slot < 256 -> exists p, sendEoi slot d = Ret (tt, set_pic p d) /\
  pic1_data p = pic1_data (pic d) /\ pic2_data p = pic2_data (pic d) /\
  commands p = commands (pic d) ++ (if slot <=? 32 then [] else if slot <? 40 then [(PIC1_COMMAND, EOI)] else [(PIC2_COMMAND, EOI); (PIC1_COMMAND, EOI)]).
Proof.
  intros Hs. unfold sendEoi. destruct (Z.leb_spec slot 32).
  - decide_bool. exists (pic d). rewrite app_nil_r. by destruct d.
  - decide_bool. eexists. split; [done|]. unfold sendEOI, PicInterrupt.RTC. rewrite u8_small by (unfold is_u8; lia).
    destruct (Z.ltb_spec slot 40); decide_bool; cbn; rewrite <- ?app_assoc; done.
Qed.

Lemma spurious_run d isr slot : exists p,
  (if slot =? 39 then check_spurious isr else mret false : ST _ bool) d = Ret (bool_decide (spurious isr slot), set_pic p d) /\
  pic1_data p = pic1_data (pic d) /\ pic2_data p = pic2_data (pic d) /\
  commands p = commands (pic d) ++ (if slot =? 39 then [(PIC1_COMMAND, READ_ISR)] else []).
Proof.
  unfold spurious. destruct (Z.eqb_spec slot 39) as [->|Hne].
  - unfold check_spurious, isSpurious. exists (command_outb PIC1_COMMAND READ_ISR (pic d)). split; [|done]. do 2 f_equal. destruct (Z.eqb_spec (Z.land isr SPURIOUS_INTERRUPT) 0) as [E|E].
    + by rewrite bool_decide_true.
    + rewrite bool_decide_false by tauto. done.
  - exists (pic d). rewrite bool_decide_false by tauto. rewrite app_nil_r. by destruct d.
Qed.

(** The numbers that do not stop the machine. *)
Definition accepted (gdb : bool) slot : Prop := 32 <= slot < 200 \/ slot = PAGE_FAULT \/ slot < 32 /\ gdb = true.

(** The exceptions of the processor go to the debugger as well, page faults aside. *)
Definition debugged (gdb : bool) slot : bool := bool_decide (slot < 32 /\ slot <> PAGE_FAULT /\ gdb = true).

(** Interrupt [slot] has been served: the devices are [s], the registrations and
    the masks are as before, and the controllers got their acknowledgements. *)
Definition served d d' slot (s : D) : Prop :=
  disp_ok d' /\ (forall s, handlers_of d' s = handlers_of d s) /\ devices d' = s /\
  pic1_data (pic d') = pic1_data (pic d) /\ pic2_data (pic d') = pic2_data (pic d) /\
  commands (pic d') = commands (pic d) ++ acknowledged slot.

(** From the test for spurious interrupts on. *)
Lemma dispatch_accepted gdb hI d isr n : accepted gdb (u8 n) -> ~ spurious isr (u8 n) ->
  exists p, pic1_data p = pic1_data (pic d) /\ pic2_data p = pic2_data (pic d) /\
    commands p = commands (pic d) ++ (if u8 n =? 39 then [(PIC1_COMMAND, READ_ISR)] else []) /\
    dispatch gdb hI isr n d =
      (if m_size (handler d) =? 0 then _ ← sendEoi (u8 n); mret Returned
       else
         list ← report (u8 n);
         if (list =? 0) && (32 <=? u8 n) then throw ILLEGAL_STATE
         else
           _ ← (if list =? 0 then mret tt else trigger_all n list);
           _ ← (if debugged gdb (u8 n) then debug hI else mret tt);
           _ ← sendEoi (u8 n);
           mret Returned : ST (InterruptDispatcher P G D) verdict) (set_pic p d).
Proof.
  intros Hacc Hsp. pose proof (u8_range n) as Hr. unfold is_u8 in Hr. set (slot := u8 n) in *. unfold accepted, PAGE_FAULT in Hacc.
  destruct (spurious_run d isr slot) as (p1 & E1 & P1 & P2 & P3). rewrite bool_decide_false in E1 by done.
  assert (Hg1 : (slot <? 32) && negb gdb && negb (slot =? PAGE_FAULT) = false)
    by (unfold PAGE_FAULT; destruct Hacc as [?|[?|[? Hgdb]]]; decide_bool; destruct gdb; rewrite ?andb_false_r; done).
  assert (Hg2 : (slot <? 32) && gdb && negb (slot =? 14) = debugged gdb slot).
  { unfold debugged, PAGE_FAULT. apply eq_true_iff_eq. rewrite bool_decide_eq_true, !andb_true_iff, negb_true_iff, Z.ltb_lt, Z.eqb_neq. naive_solver. }
  exists p1. split_and!; [done|done|done|]. unfold dispatch. fold slot. rewrite Hg1. unfold SOFTWARE_EXCEPTIONS_START.
  rewrite (proj2 (Z.leb_gt 200 slot)) by lia. rewrite (ST_bind_Ret _ _ _ _ _ E1), Hg2. done.
Qed.

Lemma no_slot_known d : disp_ok d -> (m_size (handler d) =? 0) = bool_decide (m_view (handler d) = ∅).
Proof.
  intros Hd. rewrite (m_size_spec _ (do_inv _ Hd)). destruct (decide (m_view (handler d) = ∅)) as [E|E].
  - by rewrite bool_decide_true, E, map_size_empty by done.
  - rewrite bool_decide_false by done. apply Z.eqb_neq. intros Hz. apply E, map_size_empty_iff. lia.
Qed.

(** The work for an interrupt, and its acknowledgement. *)
Lemma dispatch_served gdb hI d isr n : disp_ok d -> accepted gdb (u8 n) -> ~ spurious isr (u8 n) -> m_view (handler d) <> ∅ ->
  handlers_of d (u8 n) <> [] \/ u8 n < 32 ->
  let work := s ← foldM (fun h => h_trigger h n) (handlers_of d (u8 n)) (devices d); if debugged gdb (u8 n) then hI s else Ret s in
  (forall s, work = Ret s -> exists d', dispatch gdb hI isr n d = Ret (Returned, d') /\ served d d' (u8 n) s) /\
  (forall e, work = Throw e -> dispatch gdb hI isr n d = Throw e).
Proof.
  intros Hd Hacc Hsp Hne Hh work. pose proof (u8_range n) as Hr. unfold is_u8 in Hr.
  destruct (dispatch_accepted gdb hI d isr n Hacc Hsp) as (p1 & P1 & P2 & P3 & ->). rewrite no_slot_known, bool_decide_false by done.
  set (slot := u8 n) in *. destruct (disp_ok_same d (set_pic p1 d)) as [Hd1 Hh1]; [done|apply Hd|done|done|].
  assert (Hrep : exists lp m, report slot (set_pic p1 d) = Ret (lp, set_handler m (set_pic p1 d)) /\ m_inv m /\ m_view m = m_view (handler d) /\
    (lp =? 0) && (32 <=? slot) = false /\
    (if lp =? 0 then mret tt else trigger_all n lp) (set_handler m (set_pic p1 d))
      = s ← foldM (fun h => h_trigger h n) (handlers_of d slot) (devices d); Ret (tt, set_devices s (set_handler m (set_pic p1 d)))).
  { destruct (m_view (handler d) !! slot) as [lp|] eqn:E.
    - destruct (report_run (set_pic p1 d) slot lp Hd1 E) as (m & E2 & Hm & Hv). destruct (handlers_list d slot lp Hd E) as (al & Ha & Hwf & <-).
      destruct (do_lists _ Hd _ _ E) as [Hlp _]. apply Z.eqb_neq in Hlp. exists lp, m. rewrite Hlp. split_and!; try done. exact (trigger_all_run (set_handler m (set_pic p1 d)) n lp al Ha Hwf).
    - exists 0, (handler d). rewrite (report_none (set_pic p1 d)) by done. pose proof (proj2 (handlers_none d slot Hd) E) as Hn. rewrite Hn in *.
      destruct Hh as [?|Hh]; [done|]. split_and!; [by destruct d|apply Hd|done|by decide_bool|by destruct d]. }
  destruct Hrep as (lp & m & E2 & Hm & Hv & Hlp & E3). set (d2 := set_handler m (set_pic p1 d)) in *. unfold mret, ST_ret in E3. st_step. rewrite E2, Hlp, E3.
  split; [intros s Hw|intros e Hw]; unfold work in Hw; destruct (foldM _ (handlers_of d slot) (devices d)) as [s1|e1| |] eqn:Ef; try done; cbn in Hw |- *.
  - destruct (sendEoi_run (set_devices s d2) slot Hr) as (p4 & E4 & Q1 & Q2 & Q3).
    exists (set_pic p4 (set_devices s d2)). split.
    + destruct (debugged gdb slot); [|injection Hw as ->; by rewrite E4].
      assert (Eg : debug hI (set_devices s1 d2) = Ret (tt, set_devices s d2)) by (unfold debug; cbn [devices set_devices]; by rewrite Hw).
      by rewrite Eg, E4.
    + destruct (disp_ok_same d (set_pic p4 (set_devices s d2))) as [Hd' Hh']; [done|done|done|done|].
      split_and!; try done; cbn; [by rewrite Q1|by rewrite Q2|]. unfold acknowledged. cbn in Q3. by rewrite Q3, P3, app_assoc.
  - destruct (debugged gdb slot); [|done]. unfold debug. cbn. by rewrite Hw.
  - by injection Hw as ->.
Qed.

(** A number with handlers that does not involve the debugger. *)
Lemma dispatch_handled gdb hI d isr n s : disp_ok d -> u8 n = PAGE_FAULT \/ 32 <= u8 n < 200 -> ~ spurious isr (u8 n) ->
  handlers_of d (u8 n) <> [] -> foldM (fun h => h_trigger h n) (handlers_of d (u8 n)) (devices d) = Ret s ->
  exists d', dispatch gdb hI isr n d = Ret (Returned, d') /\ served d d' (u8 n) s.
Proof.
  intros Hd Hslot Hsp Hne Hs. destruct (dispatch_served gdb hI d isr n Hd) as [Hrun _]; try done.
  - destruct Hslot; [right; left|left]; done.
  - intros E. apply Hne, (handlers_none d _ Hd). by rewrite E.
  - by left.
  - apply Hrun. rewrite Hs. outcome. unfold debugged. rewrite bool_decide_false; [done|]. unfold PAGE_FAULT in *. lia.
Qed.
End Dispatching.

(** ** Masks *)

Lemma mask_pow i : 0 <= i < 16 -> getMask i = 2 ^ (i mod 8) /\ 0 <= i mod 8 < 8.
Proof.
  intros Hi. assert (H : forallb (fun n => getMask (Z.of_nat n) =? 2 ^ (Z.of_nat n mod 8)) (seq 0 16) = true) by by vm_compute.
  rewrite forallb_forall in H. specialize (H (Z.to_nat i)). rewrite Z2Nat.id, Z.eqb_eq in H by lia. split; [|apply Z.mod_pos_bound; lia].
  apply H, in_seq. lia.
Qed.

Lemma land_pow2 v k : 0 <= k -> Z.land v (2 ^ k) = if Z.testbit v k then 2 ^ k else 0.
Proof.
  intros Hk. apply Z.bits_inj'. intros n Hn. rewrite Z.land_spec, Z.pow2_bits_eqb by done. destruct (Z.eqb_spec k n) as [->|Hne].
  - rewrite andb_true_r. destruct (Z.testbit v n); [by rewrite Z.pow2_bits_true|by rewrite Z.bits_0].
  - rewrite andb_false_r. destruct (Z.testbit v k); [by rewrite Z.pow2_bits_false|by rewrite Z.bits_0].
Qed.

Lemma status_bit i p : 0 <= i < 16 -> status i p = Z.testbit (data_inb i p) (i mod 8).
Proof.
  intros Hi. destruct (mask_pow i Hi) as [E Hk]. unfold status. rewrite E, land_pow2 by lia. pose proof (Z.pow_pos_nonneg 2 (i mod 8)).
  destruct (Z.testbit _ _); [|done]. rewrite (proj2 (Z.eqb_neq _ _)) by lia. done.
Qed.

Lemma u8_testbit x n : 0 <= n < 8 -> Z.testbit (u8 x) n = Z.testbit x n.
Proof. intros Hn. unfold u8. change 256 with (2 ^ 8). rewrite Z.mod_pow2_bits_low by lia. done. Qed.

(** Two interrupts of the same controller have different bits. *)
Lemma other_interrupt i j p v : 0 <= i < 16 -> 0 <= j < 16 ->
  data_inb j (data_outb i v p) = (if Bool.eqb (PicInterrupt.RTC <=? i) (PicInterrupt.RTC <=? j) then u8 v else data_inb j p).
Proof. intros Hi Hj. unfold data_inb, data_outb. by destruct (_ <=? i), (_ <=? j). Qed.

(** The status of an interrupt after its bit, or another one, was changed by [f]. *)
Lemma status_change i j p (f : Z -> Z) (b : bool) : 0 <= i < 16 -> 0 <= j < 16 ->
  (forall v n, 0 <= n -> Z.testbit (f v) n = if n =? i mod 8 then b else Z.testbit v n) ->
  status j (data_outb i (f (data_inb i p)) p) = if decide (i = j) then b else status j p.
Proof.
  intros Hi Hj Hf. rewrite !status_bit, other_interrupt by done. destruct (mask_pow j Hj) as [_ Hk]. unfold PicInterrupt.RTC. destruct (decide (i = j)) as [->|Hne].
  - rewrite eqb_reflx, u8_testbit, Hf, Z.eqb_refl by lia. done.
  - destruct (Z.leb_spec 8 i) as [Hi8|Hi8], (Z.leb_spec 8 j) as [Hj8|Hj8]; cbn [Bool.eqb]; try done; rewrite u8_testbit, Hf by lia.
    + rewrite (proj2 (Z.eqb_neq _ _)); [|intros E; apply Hne; Z.div_mod_to_equations; lia]. unfold data_inb, PicInterrupt.RTC. by decide_bool.
    + rewrite (proj2 (Z.eqb_neq _ _)); [|intros E; apply Hne; Z.div_mod_to_equations; lia]. unfold data_inb, PicInterrupt.RTC. by decide_bool.
Qed.

Lemma allow_status i j p : 0 <= i < 16 -> 0 <= j < 16 -> status j (allow i p) = if decide (i = j) then false else status j p.
Proof.
  intros Hi Hj. destruct (mask_pow i Hi) as [E Hk]. apply (status_change i j p (fun v => Z.land v (Z.lnot (getMask i)))); [done|done|].
  intros v n Hn. rewrite E, Z.land_spec, Z.lnot_spec, Z.pow2_bits_eqb by lia. rewrite (Z.eqb_sym n). destruct (_ =? n); [apply andb_false_r|apply andb_true_r].
Qed.

Lemma forbid_status i j p : 0 <= i < 16 -> 0 <= j < 16 -> status j (forbid i p) = if decide (i = j) then true else status j p.
Proof.
  intros Hi Hj. destruct (mask_pow i Hi) as [E Hk]. apply (status_change i j p (fun v => Z.lor v (getMask i))); [done|done|].
  intros v n Hn. rewrite E, Z.lor_spec, Z.pow2_bits_eqb by lia. rewrite (Z.eqb_sym n). destruct (_ =? n); [apply orb_true_r|apply orb_false_r].
Qed.

(** ** The thread of the manager *)

(** What the manager relies on: each call of [parseInterruptData] uses up one of
    the finitely many data of its handler and leaves those of the others alone. *)
Class HandlerSpec (D : Type) `{InterruptHandler D} := {
  hs_inv : D -> Prop;
  hs_pending : Z -> D -> nat;
  hs_has : forall h s, hs_inv s -> h_hasInterruptData h s = bool_decide (hs_pending h s <> 0%nat);
  hs_parse : forall h s, hs_inv s -> hs_pending h s <> 0%nat ->
    exists s', h_parseInterruptData h s = Ret s' /\ hs_inv s' /\ S (hs_pending h s') = hs_pending h s /\
      forall h', h' <> h -> hs_pending h' s' = hs_pending h' s
}.

Section Polling.
Context {D : Type} `{InterruptHandler D} `{!HandlerSpec D} `{Junk Z}.
Implicit Types (s : D) (m : InterruptManager) (hs : list Z).

(** [poll] for the handler at an index. *)
Definition poll_handler (h : Z) (x : bool * D) : outcome (bool * D) :=
  let '(doYield, s) := x in
  if h_hasInterruptData h s then s ← h_parseInterruptData h s; Ret (false, s) else Ret (doYield, s).

Lemma poll_all al x : al_wf al -> foldM (poll al) (seq 0 (Z.to_nat (ArrayList.size al))) x = foldM poll_handler (al_view al) x.
Proof.
  intros Hwf. rewrite <- (foldM_get poll_handler al Hwf). generalize (seq 0 (Z.to_nat (ArrayList.size al))). intros l. revert x.
  induction l as [|i l IH]; intros x; [done|]. cbn [foldM].
  assert (E : poll al i x = h ← ArrayList.get (Z.of_nat i) al; poll_handler h x) by (by destruct x). rewrite E.
  destruct (ArrayList.get (Z.of_nat i) al ≫= _); [outcome; apply IH|done..].
Qed.

(** One round: every handler with data parses one of them. *)
Lemma manager_round_run hs : forall b s, NoDup hs -> hs_inv s ->
  exists s', foldM poll_handler hs (b, s) = Ret (b && forallb (fun h => bool_decide (hs_pending h s = 0%nat)) hs, s') /\ hs_inv s' /\
    forall h, hs_pending h s' = if decide (h ∈ hs) then pred (hs_pending h s) else hs_pending h s.
Proof.
  induction hs as [|h hs IH]; intros b s Hnd Hs.
  { exists s. rewrite andb_true_r. split_and!; [done|done|]. intros h. by rewrite decide_False by apply not_elem_of_nil. }
  apply NoDup_cons in Hnd as [Hh Hnd]. cbn [foldM forallb].
  assert (Hstep : exists s1, poll_handler h (b, s) = Ret (b && bool_decide (hs_pending h s = 0%nat), s1) /\ hs_inv s1 /\
    hs_pending h s1 = pred (hs_pending h s) /\ forall h', h' <> h -> hs_pending h' s1 = hs_pending h' s).
  { unfold poll_handler. rewrite hs_has by done. destruct (decide (hs_pending h s = 0%nat)) as [E|E].
    - rewrite bool_decide_false, bool_decide_true by tauto. exists s. rewrite andb_true_r, E. done.
    - rewrite bool_decide_true, bool_decide_false by done. destruct (hs_parse h s Hs E) as (s1 & E1 & Hs1 & Hp1 & Ho1). rewrite E1. outcome.
      exists s1. rewrite andb_false_r. split_and!; [done|done|lia|done]. }
  destruct Hstep as (s1 & E1 & Hs1 & Hp1 & Ho1). rewrite E1. outcome. destruct (IH (b && bool_decide (hs_pending h s = 0%nat)) s1 Hnd Hs1) as (s' & E & Hs' & Hp).
  exists s'. rewrite E. split_and!; [|done|].
  - rewrite <- andb_assoc. do 4 f_equal. apply eq_true_iff_eq. rewrite !forallb_forall.
    assert (Hsame : forall x, In x hs -> hs_pending x s1 = hs_pending x s) by (intros x Hx%list_elem_of_In; apply Ho1; by intros ->).
    split; intros Hall x Hx; specialize (Hall x Hx); by rewrite Hsame in * by done.
  - intros x. rewrite Hp. destruct (decide (x = h)) as [->|Hne].
    + rewrite decide_False, decide_True by (done || left). done.
    + rewrite Ho1 by done. destruct (decide (x ∈ hs)); [rewrite decide_True by (by right)|rewrite decide_False by set_solver]; done.
Qed.

Lemma run_loop_run fuel : forall m s, al_wf (interruptHandler m) -> NoDup (al_view (interruptHandler m)) -> im_lock m = new_Spinlock -> hs_inv s ->
  (forall h, h ∈ al_view (interruptHandler m) -> (hs_pending h s < fuel)%nat) -> fuel <> 0%nat ->
  exists s', run_loop fuel m s = Ret (m, s') /\ hs_inv s' /\ forall h, h ∈ al_view (interruptHandler m) -> hs_pending h s' = 0%nat.
Proof.
  induction fuel as [|fuel IH]; intros m s Hwf Hnd Hl Hs Hf Hne; [done|]. destruct m as [al lk]. cbn [interruptHandler im_lock] in *. subst lk. cbn [run_loop interruptHandler im_lock].
  destruct (lock_free _ eq_refl) as (lk & El & Hrel). rewrite El. outcome. rewrite poll_all by done.
  destruct (manager_round_run (al_view al) true s Hnd Hs) as (s1 & E1 & Hs1 & Hp1). rewrite E1. outcome. rewrite Hrel. cbn [andb].
  destruct (forallb _ _) eqn:Hall; cbn [negb].
  - exists s1. split_and!; [done|done|]. intros h Hh. rewrite Hp1, decide_True by done. rewrite forallb_forall in Hall.
    specialize (Hall h). rewrite bool_decide_eq_true in Hall. rewrite Hall; [done|]. by apply list_elem_of_In.
  - assert (Hfuel : fuel <> 0%nat).
    { intros ->. assert (Ht : forallb (fun h => bool_decide (hs_pending h s = 0%nat)) (al_view al) = true); [|congruence].
      apply forallb_forall. intros h Hh%list_elem_of_In. apply bool_decide_eq_true. specialize (Hf h Hh). lia. }
    apply (IH (mkManager al new_Spinlock) s1); try done. intros h Hh. rewrite Hp1, decide_True by done. specialize (Hf h Hh). lia.
Qed.
End Polling.

(** ** Claims *)

(** C13. An interrupt does what its number asks for, on every path of [dispatch].
    An exception of the processor without a debugger, a page fault aside, and a
    software exception stop the machine; a spurious interrupt is dropped. Any other
    number: before the first handler is assigned it is only acknowledged; an
    interrupt without handlers is an error; otherwise exactly the handlers of this
    number run, in the order in which they were assigned, none for an exception
    without handlers, then the debugger if it is initialised and the number is an
    exception other than a page fault, and the controllers get the
    acknowledgements that the number calls for, with masks and registrations left
    alone; an error of a handler or of the debugger is passed on. [assign] appends
    to the list of one number. *)
Theorem dispatch_runs_handlers {P G D} `{MapOps P Z Z} `{!MapSpec P Z Z} `{MapOps G Z Z} `{InterruptHandler D} `{Junk Z} `{NewNode (ArrayList Z)}
    (gdb : bool) (hI : D -> outcome D) (d : InterruptDispatcher P G D) (isr n : Z) (Hd : disp_ok d) :
  let slot := u8 n in
  let work := s ← foldM (fun h => h_trigger h n) (handlers_of d slot) (devices d); if debugged gdb slot then hI s else Ret s in
  (200 <= slot \/ slot < 32 /\ slot <> PAGE_FAULT /\ gdb = false -> dispatch gdb hI isr n d = Ret (Panic, d)) /\
  (spurious isr slot -> exists d', dispatch gdb hI isr n d = Ret (Returned, d') /\ devices d' = devices d /\ commands (pic d') = commands (pic d) ++ [(PIC1_COMMAND, READ_ISR)]) /\
  (accepted gdb slot -> ~ spurious isr slot ->
    (m_view (handler d) = ∅ -> exists d', dispatch gdb hI isr n d = Ret (Returned, d') /\ served d d' slot (devices d)) /\
    (m_view (handler d) <> ∅ -> handlers_of d slot = [] -> 32 <= slot -> dispatch gdb hI isr n d = Throw ILLEGAL_STATE) /\
    (m_view (handler d) <> ∅ -> handlers_of d slot <> [] \/ slot < 32 ->
      (forall s, work = Ret s -> exists d', dispatch gdb hI isr n d = Ret (Returned, d') /\ served d d' slot s) /\
      (forall e, work = Throw e -> dispatch gdb hI isr n d = Throw e))) /\
  (forall isr' slot', Z.of_nat (length (handlers_of d slot')) < 2 ^ 31 -> Z.of_nat (base.size (m_view (handler d))) + 1 < 2 ^ 32 ->
    exists d', assign slot' isr' d = Ret (tt, d') /\ disp_ok d' /\
      forall s, handlers_of d' s = if decide (s = slot') then handlers_of d slot' ++ [isr'] else handlers_of d s).
Proof.
  intros slot work. pose proof (u8_range n) as Hr. unfold is_u8 in Hr. fold slot in Hr. split_and!.
  - intros Hs. unfold dispatch. fold slot. unfold SOFTWARE_EXCEPTIONS_START, PAGE_FAULT in *. destruct Hs as [Hs|(Hs & Hp & ->)]; decide_bool; done.
  - intros Hs. pose proof Hs as [E _]. destruct (spurious_run d isr slot) as (p & Es & _ & _ & Hc). rewrite bool_decide_true in Es by done.
    exists (set_pic p d). split; [|split; [done|by rewrite E in Hc]].
    unfold dispatch, SOFTWARE_EXCEPTIONS_START. fold slot. rewrite (proj2 (Z.ltb_ge slot 32)), (proj2 (Z.leb_gt 200 slot)) by lia.
    cbn [andb]. by rewrite (ST_bind_Ret _ _ _ _ _ Es).
  - intros Hacc Hns. split_and!.
    + intros He. destruct (dispatch_accepted gdb hI d isr n Hacc Hns) as (p & P1 & P2 & P3 & ->). rewrite no_slot_known, bool_decide_true by done. fold slot in P3 |- *.
      destruct (sendEoi_run (set_pic p d) slot Hr) as (p4 & E4 & Q1 & Q2 & Q3). st_step. rewrite E4. eexists. split; [done|].
      destruct (disp_ok_same d (set_pic p4 (set_pic p d))) as [Hd' Hh']; [done|apply Hd|done|done|].
      split_and!; try done; cbn; [by rewrite Q1|by rewrite Q2|]. unfold acknowledged. cbn in Q3. by rewrite Q3, P3, app_assoc.
    + intros Hne Hh Hs. destruct (dispatch_accepted gdb hI d isr n Hacc Hns) as (p & _ & _ & _ & ->). rewrite no_slot_known, bool_decide_false by done. fold slot.
      destruct (disp_ok_same d (set_pic p d)) as [Hd1 _]; [done|apply Hd|done|done|]. st_step.
      rewrite (report_none (set_pic p d) slot Hd1) by (apply (handlers_none d slot Hd), Hh). change (0 =? 0) with true. decide_bool. done.
    + by apply dispatch_served.
  - intros isr' slot' Hl Hs. destruct (assign_run d slot' isr' Hd Hl Hs) as (d' & E & Hd' & _ & _ & _ & _ & Hh). eauto.
Qed.

(** The masks of the interrupt controllers: [allow] and [forbid] change the
    status of one of the sixteen interrupts and of no other one. *)
Theorem pic_masks (p : Pic) (i j : Z) (Hi : 0 <= i < 16) (Hj : 0 <= j < 16) :
  status j (allow i p) = (if decide (i = j) then false else status j p) /\ status j (forbid i p) = (if decide (i = j) then true else status j p).
Proof. split; [by apply allow_status|by apply forbid_status]. Qed.

(** C14. The thread of the manager catches up: when every handler has finitely many
    data and parsing uses them up, the polling loop ends, within one round more than the
    largest number of data of a handler, with no data left at any registered handler and the lock free. *)
Theorem manager_drains {D} `{InterruptHandler D} `{!HandlerSpec D} `{Junk Z} (m : InterruptManager) (s : D) (fuel : nat)
    (Hwf : al_wf (interruptHandler m)) (Hnd : NoDup (al_view (interruptHandler m))) (Hl : im_lock m = new_Spinlock) (Hs : hs_inv s)
    (Hf : forall h, h ∈ al_view (interruptHandler m) -> (hs_pending h s < fuel)%nat) (Hne : fuel <> 0%nat) :
  exists s', run_loop fuel m s = Ret (m, s') /\ hs_inv s' /\
    forall h, h ∈ al_view (interruptHandler m) -> h_hasInterruptData h s' = false.
Proof.
  destruct (run_loop_run fuel m s Hwf Hnd Hl Hs Hf Hne) as (s' & E & Hs' & Hp). exists s'. split_and!; [done|done|].
  intros h Hh. rewrite hs_has, bool_decide_false by (rewrite ?Hp by done; tauto). done.
Qed.

(** ** Witnesses *)

Section Examples.
#[local] Instance junk_none : Junk Z := fun _ => 0.

(** Devices that count: a trigger adds a datum and parsing takes one. *)
#[local] Instance Counter : InterruptHandler (gmap Z nat) := {|
  h_trigger h _ s := Ret (<[h := S (default 0%nat (s !! h))]> s);
  h_hasInterruptData h s := negb (Nat.eqb (default 0%nat (s !! h)) 0);
  h_parseInterruptData h s := Ret (<[h := pred (default 0%nat (s !! h))]> s)
|}.

#[local] Program Instance Counter_spec : HandlerSpec (gmap Z nat) := {|
  hs_inv _ := True;
  hs_pending h s := default 0%nat (s !! h)
|}.
Next Obligation. intros h s _. cbn. by destruct (default 0%nat (s !! h)). Qed.
Next Obligation.
  intros h s _ Hp. cbn in *. eexists. split_and!; [done|done|rewrite lookup_insert_eq; simpl; lia|]. intros h' Hne. by rewrite lookup_insert_ne.
Qed.

Definition no_handlers : InterruptDispatcher (HashMap Z Z) (HashMap Z Z) (gmap Z nat) := mkDispatcher new_HashMap new_HashMap ∅ (mkPic 0xFB 0xFF []) ∅.

Lemma no_handlers_ok : disp_ok no_handlers /\ m_view (handler no_handlers) = ∅.
Proof.
  destruct (hm_inv_new (K := Z) (V := Z) DEFAULT_TABLE_SIZE) as [Hm Hv]; [by vm_compute|].
  assert (Hz : m_view (handler no_handlers) = ∅) by exact Hv. split; [|done]. constructor; [|intros *; by rewrite Hz, lookup_empty..].
  split; [exact Hm|]. change (hm_view _) with (m_view (handler no_handlers)). by rewrite Hz, map_size_empty.
Qed.

(** Two handlers share the number of the mouse. *)
Lemma two_handlers : exists d1 d2, assign 44 100 no_handlers = Ret (tt, d1) /\ assign 44 200 d1 = Ret (tt, d2) /\ disp_ok d2 /\ handlers_of d2 44 = [100; 200] /\ handlers_of d2 3 = [] /\ devices d2 = ∅ /\ commands (pic d2) = [].
Proof.
  destruct no_handlers_ok as [Hd Hv]. assert (Hn : handlers_of no_handlers 44 = []) by (apply (handlers_none _ _ Hd); by rewrite Hv).
  destruct (assign_run no_handlers 44 100 Hd) as (d1 & E1 & Hd1 & P1 & D1 & _ & S1 & H1); [by rewrite Hn|by rewrite Hv, map_size_empty|].
  assert (Hh1 : handlers_of d1 44 = [100]) by (by rewrite H1, decide_True, Hn). rewrite Hv, map_size_empty in S1.
  destruct (assign_run d1 44 200 Hd1) as (d2 & E2 & Hd2 & P2 & D2 & _ & _ & H2); [by rewrite Hh1|lia|].
  exists d1, d2. split_and!; [done|done|done|by rewrite H2, decide_True, Hh1| |by rewrite D2, D1|by rewrite P2, P1].
  rewrite H2, decide_False, H1, decide_False by done. apply (handlers_none _ _ Hd). by rewrite Hv.
Qed.

Lemma dispatch_runs_handlers_witness : exists d1 d2 d' d'', assign 44 100 no_handlers = Ret (tt, d1) /\ assign 44 200 d1 = Ret (tt, d2) /\
  dispatch false Ret 0 44 d2 = Ret (Returned, d') /\ devices d' = {[100 := 1%nat; 200 := 1%nat]} /\
  commands (pic d') = [(PIC2_COMMAND, EOI); (PIC1_COMMAND, EOI)] /\
  dispatch true (fun _ => Ret {[7 := 1%nat]}) 0 3 d2 = Ret (Returned, d'') /\ devices d'' = {[7 := 1%nat]}.
Proof.
  destruct two_handlers as (d1 & d2 & E1 & E2 & Hd2 & Hh & Hh3 & Hv & Hc).
  assert (Hne : m_view (handler d2) <> ∅).
  { intros E. apply (handlers_none d2 44) in Hd2 as Hn. rewrite E, lookup_empty in Hn. destruct Hn as [_ Hn]. rewrite Hh in Hn. by specialize (Hn eq_refl). }
  destruct (dispatch_runs_handlers false Ret d2 0 44 Hd2) as (_ & _ & Hrun & _).
  destruct Hrun as (_ & _ & Hrun); [left; by vm_compute|intros [? _]; discriminate|].
  destruct Hrun as [Hrun _]; [done|left; change (u8 44) with 44; by rewrite Hh|].
  destruct (Hrun {[100 := 1%nat; 200 := 1%nat]}) as (d' & E & _ & _ & Hv' & _ & _ & Hc').
  { change (u8 44) with 44. rewrite Hh, Hv. by vm_compute. }
  destruct (dispatch_runs_handlers true (fun _ => Ret {[7 := 1%nat]}) d2 0 3 Hd2) as (_ & _ & Hrun2 & _).
  destruct Hrun2 as (_ & _ & Hrun2); [right; right; by vm_compute|intros [? _]; discriminate|].
  destruct Hrun2 as [Hrun2 _]; [done|right; by vm_compute|].
  destruct (Hrun2 {[7 := 1%nat]}) as (d'' & E' & _ & _ & Hv'' & _).
  { change (u8 3) with 3. rewrite Hh3. reflexivity. }
  exists d1, d2, d', d''. split_and!; [done|done|done|done| |done|done]. rewrite Hc', Hc. reflexivity.
Defined.

Lemma pic_masks_witness : status PicInterrupt.KEYBOARD (allow PicInterrupt.KEYBOARD (mkPic 0xFB 0xFF [])) = false.
Proof. destruct (pic_masks (mkPic 0xFB 0xFF []) 1 1) as [E _]; [lia|lia|]. exact E. Defined.

Lemma manager_drains_witness : exists al m s, ArrayList.add 100 new_ArrayList = Ret (true, al) /\
  run_loop 4 m {[100 := 3%nat]} = Ret (m, s) /\ h_hasInterruptData 100 s = false.
Proof.
  destruct (ArrayList.add_spec 100 (new_ArrayList (T := Z))) as (al & E & Hwf & _ & Hv); [by constructor|cbn; lia|].
  destruct (manager_drains (mkManager al new_Spinlock) ({[100 := 3%nat]} : gmap Z nat) 4) as (s & Er & _ & Hn); cbn [interruptHandler]; rewrite ?Hv; try done.
  - apply NoDup_singleton.
  - intros h ->%list_elem_of_singleton. cbn. rewrite lookup_singleton_eq. simpl. lia.
  - exists al, (mkManager al new_Spinlock), s. split_and!; [done|done|]. apply Hn. cbn [interruptHandler]. rewrite Hv. by left.
Defined.
End Examples.
