(* ===== verification/InputPath.v ===== *)
(** * From the keyboard to the event bus

    The composition of [Keyboard::plugin], the interrupt dispatcher and the
    thread of the interrupt manager. The machine holds the keyboard, the byte that
    waits in the data port and the key events that were published. *)

From S2P Require Import Prelude Spinlock Array Collections ArrayList HashMap LinkedQueue RingBuffer Keyboard Interrupts.

(** The address of the keyboard object, and [InterruptDispatcher::KEYBOARD]. *)
Definition KEYBOARD_DEVICE : Z := 0x1000.
Definition KEYBOARD : Z := 33.

Record Machine := mkMachine { kbd : Keyboard; port : Z; published : list (bool * Key) }.

Section Devices.
Context (reply : Z -> Z).

(** The virtual methods of the keyboard. The status port says that a byte of the keyboard waits. *)
Definition keyboard_trigger (device interrupt : Z) (m : Machine) : outcome Machine :=
  if device =? KEYBOARD_DEVICE then kb ← Keyboard.trigger 1 (port m) (kbd m); Ret (mkMachine kb (port m) (published m)) else Fault.

Definition keyboard_parse (device : Z) (m : Machine) : outcome Machine :=
  if device =? KEYBOARD_DEVICE then
    '(event, kb) ← Keyboard.parseInterruptData reply (kbd m);
    Ret (mkMachine kb (port m) (published m ++ option_list event))
  else Fault.

#[export] Instance Keyboard_handler : InterruptHandler Machine := {|
  h_trigger := keyboard_trigger;
  h_hasInterruptData device m := (device =? KEYBOARD_DEVICE) && Keyboard.hasInterruptData (kbd m);
  h_parseInterruptData := keyboard_parse
|}.

(** ** The keyboard keeps the promise of a handler *)

Definition machine_ok (m : Machine) : Prop :=
  exists codes, holds (interruptDataBuffer (kbd m)) codes /\ kb_ok (kbd m) /\ Forall scan_ok codes.

Lemma parse_run c codes kb d kb1 : holds (interruptDataBuffer kb) (c :: codes) -> decodeKey reply c kb = Ret (d, kb1) ->
  exists b, Keyboard.parseInterruptData reply kb = Ret (if (d : bool) then Some (event_of (gather kb1)) else None, set_data b kb1) /\ holds b codes.
Proof.
  intros Hb E. destruct (ring_pop _ _ _ Hb) as (b & Ep & Hb1 & _). exists b. unfold Keyboard.parseInterruptData. rewrite Ep. outcome. rewrite decode_data, E. outcome.
  split; [by destruct d|done].
Qed.

Lemma has_data kb codes : holds (interruptDataBuffer kb) codes -> Keyboard.hasInterruptData kb = bool_decide (codes <> []).
Proof. intros Hb. unfold Keyboard.hasInterruptData. rewrite (ring_isEmpty _ codes Hb). by destruct codes. Qed.

#[export] Program Instance Keyboard_spec : HandlerSpec Machine := {|
  hs_inv := machine_ok;
  hs_pending device m := if device =? KEYBOARD_DEVICE then Z.to_nat (r_size (interruptDataBuffer (kbd m))) else 0%nat
|}.
Next Obligation.
  intros h m (codes & Hb & _). cbn. destruct (h =? KEYBOARD_DEVICE); [|done]. rewrite (has_data _ _ Hb), (ho_size _ _ Hb), Nat2Z.id. by destruct codes.
Qed.
Next Obligation.
  intros h m (codes & Hb & Hk & Hc) Hp. cbn in *. unfold keyboard_parse. destruct (Z.eqb_spec h KEYBOARD_DEVICE) as [->|]; [|done].
  rewrite (ho_size _ _ Hb), Nat2Z.id in Hp. destruct codes as [|c codes]; [done|]. apply Forall_cons in Hc as [Hc1 Hc].
  destruct (decode_track reply c (kbd m) Hk Hc1) as (d & kb1 & E & Hk1 & _). destruct (parse_run c codes (kbd m) d kb1 Hb E) as (b & Ep & Hb1). rewrite Ep. outcome.
  eexists. split; [done|]. split_and!.
  - exists codes. split_and!; [done| |done]. by apply (same_held_ok kb1).
  - cbn [kbd interruptDataBuffer set_data]. rewrite (ho_size _ _ Hb), (ho_size _ _ Hb1), !Nat2Z.id. done.
  - intros h' Hne. by apply Z.eqb_neq in Hne as ->.
Qed.

(** ** The thread of the manager *)

Lemma run_loop_S `{Junk Z} fuel mgr (m : Machine) : run_loop (S fuel) mgr m =
  (l ← acquire 1 (im_lock mgr);
   '(doYield, m) ← foldM (poll (interruptHandler mgr)) (seq 0 (Z.to_nat (ArrayList.size (interruptHandler mgr)))) (true, m);
   let mgr := mkManager (interruptHandler mgr) (release l) in
   if negb doYield then run_loop fuel mgr m else Ret (mgr, m)).
Proof. done. Qed.

Lemma run_loop_drain mgr n : al_wf (interruptHandler mgr) -> al_view (interruptHandler mgr) = [KEYBOARD_DEVICE] -> im_lock mgr = new_Spinlock ->
  forall kb port pub codes es kb' `{Junk Z}, holds (interruptDataBuffer kb) codes -> length codes = n -> drain reply n kb = Ret (es, kb') ->
  run_loop (S n) mgr (mkMachine kb port pub) = Ret (mgr, mkMachine kb' port (pub ++ es)).
Proof.
  intros Hwf Hv Hl. destruct mgr as [al lk]. cbn [interruptHandler im_lock] in *. subst lk. destruct (lock_free _ eq_refl) as (lk & El & Hrel).
  induction n as [|n IH]; intros kb prt pub codes es kb' ? Hb Hlen E; rewrite run_loop_S; cbn [interruptHandler im_lock]; rewrite El; outcome; rewrite poll_all, Hv by done;
    cbn [foldM]; unfold poll_handler; cbn [h_hasInterruptData Keyboard_handler kbd]; rewrite Z.eqb_refl, (has_data _ _ Hb); cbn [andb].
  - destruct codes; [|done]. injection E as <- <-. rewrite app_nil_r. cbn. by rewrite Hrel.
  - destruct codes as [|c codes]; [done|]. rewrite bool_decide_true by done. cbn [drain] in E. cbn [h_parseInterruptData Keyboard_handler]. unfold keyboard_parse. rewrite Z.eqb_refl. cbn [kbd].
    destruct (decodeKey reply c kb) as [[d kb1]| | |] eqn:Ed.
    1: destruct (parse_run c codes kb d kb1 Hb Ed) as (b & Ep & Hb1); rewrite Ep in E |- *; revert E; outcome; intros E.
    2-4: exfalso; revert E; destruct (ring_pop _ _ _ Hb) as (b & Ep & _); unfold Keyboard.parseInterruptData; rewrite Ep; outcome; rewrite decode_data, Ed; done.
    destruct (drain reply n (set_data b kb1)) as [[es1 kb2]| | |] eqn:E1; [|done..]. revert E. outcome. intros E. injection E as <- <-. cbn [negb]. rewrite Hrel.
    rewrite (IH _ prt (pub ++ _) codes es1 kb2) by (done || by injection Hlen). by rewrite <- app_assoc.
Qed.
End Devices.

(** ** The whole path *)

Section Path.
Context {P G : Type} `{MapOps P Z Z} `{!MapSpec P Z Z} `{MapOps G Z Z} `{Junk Z} `{NewNode (ArrayList Z)}.
Context (reply : Z -> Z) (isr : Z).
#[local] Instance handlers : InterruptHandler Machine := Keyboard_handler reply.

Record Input := mkInput { dispatcher : InterruptDispatcher P G Machine; manager : InterruptManager }.

Definition on_machine (f : Machine -> Machine) (x : Input) : Input := mkInput (set_devices (f (devices (dispatcher x))) (dispatcher x)) (manager x).

(** [Keyboard::plugin] *)
Definition plugin (x : Input) : outcome Input :=
  let x := on_machine (fun m => mkMachine (Keyboard.plugin (kbd m)) (port m) (published m)) x in
  mgr ← registerInterruptHandler KEYBOARD_DEVICE (manager x);
  '(_, d) ← assign KEYBOARD KEYBOARD_DEVICE (dispatcher x);
  Ret (mkInput (set_pic (allow PicInterrupt.KEYBOARD (pic d)) d) mgr).

(** The keyboard sends a byte: it waits in the port and the processor is interrupted. *)
Definition key_interrupt (code : Z) (x : Input) : outcome Input :=
  let x := on_machine (fun m => mkMachine (kbd m) code (published m)) x in
  '(_, d) ← dispatch false Ret isr KEYBOARD (dispatcher x);
  Ret (mkInput d (manager x)).

(** A turn of the manager. *)
Definition manager_turn (fuel : nat) (x : Input) : outcome Input :=
  '(mgr, m) ← run_loop fuel (manager x) (devices (dispatcher x));
  Ret (mkInput (set_devices m (dispatcher x)) mgr).

Record plugged (x : Input) : Prop := {
  pg_disp : disp_ok (dispatcher x);
  pg_handlers : handlers_of (dispatcher x) KEYBOARD = [KEYBOARD_DEVICE];
  pg_manager : al_wf (interruptHandler (manager x));
  pg_polled : al_view (interruptHandler (manager x)) = [KEYBOARD_DEVICE];
  pg_lock : im_lock (manager x) = new_Spinlock
}.

Lemma plugin_run x : disp_ok (dispatcher x) -> handlers_of (dispatcher x) KEYBOARD = [] -> Z.of_nat (base.size (m_view (handler (dispatcher x)))) + 1 < 2 ^ 32 ->
  manager x = new_InterruptManager ->
  exists x', plugin x = Ret x' /\ plugged x' /\ status PicInterrupt.KEYBOARD (pic (dispatcher x')) = false /\
    devices (dispatcher x') = mkMachine (Keyboard.plugin (kbd (devices (dispatcher x)))) (port (devices (dispatcher x))) (published (devices (dispatcher x))).
Proof.
  intros Hd Hh Hs Hm. unfold plugin, registerInterruptHandler. cbn [manager on_machine]. rewrite Hm. destruct (lock_free new_Spinlock eq_refl) as (lk & El & Hrel).
  cbn [im_lock interruptHandler new_InterruptManager]. rewrite El. outcome. destruct (ArrayList.add_spec KEYBOARD_DEVICE (new_ArrayList (T := Z))) as (al & Ea & Hwf & _ & Hv); [by constructor|cbn; lia|].
  rewrite Ea. outcome. rewrite Hrel. set (x1 := on_machine _ x). destruct (disp_ok_same (dispatcher x) (dispatcher x1)) as [Hd1 Hh1]; [done|apply Hd|done|done|].
  destruct (assign_run (dispatcher x1) KEYBOARD KEYBOARD_DEVICE Hd1) as (d' & E & Hd' & Hp & Hdev & _ & _ & Hh'); [by rewrite Hh1, Hh|done|]. rewrite E. outcome.
  eexists. split; [done|]. destruct (disp_ok_same d' (set_pic (allow PicInterrupt.KEYBOARD (pic d')) d')) as [Hd2 Hh2]; [done|apply Hd'|done|done|]. split_and!.
  - constructor; cbn [dispatcher manager interruptHandler im_lock]; [done| |done|done|done]. by rewrite Hh2, Hh', decide_True, Hh1, Hh.
  - cbn [pic set_pic dispatcher]. rewrite allow_status by (unfold PicInterrupt.KEYBOARD; lia). by rewrite decide_True.
  - exact Hdev.
Qed.

Lemma key_interrupt_run code x kb : plugged x -> Keyboard.trigger 1 code (kbd (devices (dispatcher x))) = Ret kb ->
  exists x', key_interrupt code x = Ret x' /\ plugged x' /\ kbd (devices (dispatcher x')) = kb /\ published (devices (dispatcher x')) = published (devices (dispatcher x)).
Proof.
  intros [Hd Hh Hwf Hv Hl] Et. unfold key_interrupt. set (x1 := on_machine _ x). destruct (disp_ok_same (dispatcher x) (dispatcher x1)) as [Hd1 Hh1]; [done|apply Hd|done|done|].
  destruct (dispatch_handled false Ret (dispatcher x1) isr KEYBOARD (mkMachine kb code (published (devices (dispatcher x)))) Hd1)
    as (d' & E & Hd' & Hh' & Hdev & _).
  - right. unfold KEYBOARD. by vm_compute.
  - by intros [? _].
  - change (u8 KEYBOARD) with KEYBOARD. by rewrite Hh1, Hh.
  - change (u8 KEYBOARD) with KEYBOARD. rewrite Hh1, Hh. cbn [foldM].
    assert (Ek : h_trigger KEYBOARD_DEVICE KEYBOARD (devices (dispatcher x1)) = Ret (mkMachine kb code (published (devices (dispatcher x))))); [|by rewrite Ek].
    change (h_trigger ?a ?b ?c) with (keyboard_trigger a b c). unfold keyboard_trigger. rewrite Z.eqb_refl. change (port _) with code. change (kbd (devices (dispatcher x1))) with (kbd (devices (dispatcher x))). by rewrite Et.
  - rewrite E. outcome. eexists. split; [done|]. cbn [dispatcher]. rewrite Hdev. split; [|done]. constructor; cbn [dispatcher manager]; try done. by rewrite Hh', Hh1.
Qed.

Lemma key_interrupts_run codes : forall x l, plugged x -> holds (interruptDataBuffer (kbd (devices (dispatcher x)))) l ->
  Z.of_nat (length l + length codes) <= r_capacity (interruptDataBuffer (kbd (devices (dispatcher x)))) ->
  exists x' b, foldM key_interrupt codes x = Ret x' /\ plugged x' /\ holds b (l ++ codes) /\
    kbd (devices (dispatcher x')) = set_data b (kbd (devices (dispatcher x))) /\ published (devices (dispatcher x')) = published (devices (dispatcher x)).
Proof.
  induction codes as [|c codes IH]; intros x l Hx Hl Hn.
  - exists x, (interruptDataBuffer (kbd (devices (dispatcher x)))). rewrite app_nil_r. split_and!; [done|done|done|by destruct (kbd _)|done].
  - simpl in Hn. destruct (ring_push _ l c Hl) as (b & E & Hb & Hcap); [lia|].
    assert (Et : Keyboard.trigger 1 c (kbd (devices (dispatcher x))) = Ret (set_data b (kbd (devices (dispatcher x))))) by (unfold Keyboard.trigger; rewrite E; done).
    destruct (key_interrupt_run c x _ Hx Et) as (x1 & E1 & Hx1 & Hk1 & Hp1). cbn [foldM]. rewrite E1. outcome.
    destruct (IH x1 (l ++ [c]) Hx1) as (x' & b' & E' & Hx' & Hb' & Hk' & Hp'); [by rewrite Hk1|rewrite Hk1; cbn; rewrite length_app, Hcap; simpl; lia|].
    exists x', b'. rewrite E'. rewrite <- app_assoc in Hb'. split_and!; [done|done|done|by rewrite Hk', Hk1|by rewrite Hp'].
Qed.
End Path.

(** ** Claims *)

(** C12. A keyboard that is plugged in works: its interrupt is unmasked, and when
    keys are pressed and released, each with shift or without, every code interrupts
    the processor, the dispatcher calls the keyboard, and one turn of the thread of the manager
    publishes exactly the key events with the characters of the strokes, in order. *)
Theorem keystrokes_become_events {P G} `{MapOps P Z Z} `{!MapSpec P Z Z} `{MapOps G Z Z} `{Junk Z} `{NewNode (ArrayList Z)}
    (reply : Z -> Z) (isr : Z) (x : Input (P := P) (G := G)) (strokes : list (bool * Z))
    (Hd : disp_ok (dispatcher x)) (Hh : handlers_of (dispatcher x) KEYBOARD = []) (Hsize : Z.of_nat (base.size (m_view (handler (dispatcher x)))) + 1 < 2 ^ 32)
    (Hm : manager x = new_InterruptManager) (Hb : holds (interruptDataBuffer (kbd (devices (dispatcher x)))) []) (Hmode : mode (kbd (devices (dispatcher x))) 0)
    (Hs : Forall (fun s => types s.2) strokes)
    (Hn : Z.of_nat (length (concat (stroke <$> strokes))) <= r_capacity (interruptDataBuffer (kbd (devices (dispatcher x))))) :
  let codes := concat (stroke <$> strokes) in
  exists x1 x2 x3 events, plugin x = Ret x1 /\ status PicInterrupt.KEYBOARD (pic (dispatcher x1)) = false /\
    foldM (key_interrupt reply isr) codes x1 = Ret x2 /\ manager_turn reply (S (length codes)) x2 = Ret x3 /\
    published (devices (dispatcher x3)) = published (devices (dispatcher x)) ++ events /\ (fun e => asc e.2) <$> events = char_typed <$> strokes.
Proof.
  intros codes. destruct (plugin_run x Hd Hh Hsize Hm) as (x1 & E1 & Hx1 & Hst & Hdev1).
  destruct (key_interrupts_run reply isr codes x1 [] Hx1) as (x2 & b & E2 & Hx2 & Hb2 & Hk2 & Hp2); [by rewrite Hdev1|by rewrite Hdev1|].
  destruct (strokes_run reply strokes (kbd (devices (dispatcher x2))) Hs) as (ks & kb' & Ed & _ & Hks & _); [by rewrite Hk2, Hdev1|].
  destruct (drain_decodes reply codes (kbd (devices (dispatcher x2))) ks kb') as (b' & E & _); [by rewrite Hk2|done|].
  destruct Hx2 as [_ _ Hwf Hv Hl]. destruct (devices (dispatcher x2)) as [kb2 prt2 pub2] eqn:E4.
  exists x1, x2, (mkInput (set_devices (mkMachine (set_data b' kb') prt2 (pub2 ++ (event_of <$> ks))) (dispatcher x2)) (manager x2)), (event_of <$> ks). split_and!; [done|done|done| | |].
  - unfold manager_turn. rewrite E4. unfold handlers. rewrite (run_loop_drain reply (manager x2) (length codes) Hwf Hv Hl kb2 prt2 pub2 codes (event_of <$> ks) (set_data b' kb')); [done| |done|done].
    cbn [kbd] in Hk2. by rewrite Hk2.
  - cbn in Hp2 |- *. by rewrite Hp2, Hdev1.
  - by rewrite <- list_fmap_compose, <- Hks.
Qed.

#[local] Instance junk_zero : Junk Z := fun _ => 0.

(** "Hi" *)
Lemma keystrokes_become_events_witness : exists x1 x2 x3 events,
  plugin (mkInput (mkDispatcher new_HashMap new_HashMap ∅ (mkPic 0xFB 0xFF []) (mkMachine fresh 0 [])) new_InterruptManager) = Ret x1 /\
  foldM (key_interrupt (P := HashMap Z Z) (G := HashMap Z Z) (fun _ => ack) 0) [42; 35; 163; 170; 23; 151] x1 = Ret x2 /\
  manager_turn (fun _ => ack) 7 x2 = Ret x3 /\ published (devices (dispatcher x3)) = events /\ (fun e => asc e.2) <$> events = [72; 105].
Proof.
  destruct fresh_ready as (Hd & Hcap & _ & Hm). set (x := mkInput _ _).
  assert (Hx : disp_ok (dispatcher x) /\ m_view (handler (dispatcher x)) = ∅).
  { destruct (hm_inv_new (K := Z) (V := Z) DEFAULT_TABLE_SIZE) as [Hi Hv]; [by vm_compute|]. assert (Hz : m_view (handler (dispatcher x)) = ∅) by exact Hv.
    split; [|done]. constructor; [|intros *; by rewrite Hz, lookup_empty..]. split; [exact Hi|]. change (hm_view _) with (m_view (handler (dispatcher x))). by rewrite Hz, map_size_empty. }
  destruct Hx as [Hok Hz].
  destruct (keystrokes_become_events (fun _ => ack) 0 x [(true, 35); (false, 23)] Hok) as (x1 & x2 & x3 & ev & E1 & _ & E2 & E3 & Hp & Ha).
  - unfold handlers_of. by rewrite Hz, lookup_empty.
  - by rewrite Hz, map_size_empty.
  - done.
  - exact Hd.
  - exact Hm.
  - repeat constructor; cbn; lia.
  - change (interruptDataBuffer _) with (interruptDataBuffer fresh). rewrite Hcap. simpl. lia.
  - exists x1, x2, x3, ev. split_and!; [exact E1|exact E2|exact E3|exact Hp|exact Ha].
Defined.
