(* ===== verification/Partitions.v ===== *)
(** * Storage devices and their partition tables

    [device/storage/device/StorageDevice.cpp], [Partition.cpp],
    [VirtualDiskDrive.cpp] and [kernel/service/StorageService.cpp]. The virtual
    methods [read] and [write] of a storage device are the class [Storage]; a
    sector is a list of bytes. Logical partitions form a linked list of tables on
    the disk. Names are texts; the map of the service is a finite map. *)

From S2P Require Import Prelude Spinlock CString Format Array Collections ArrayList.

(** ** Devices *)

(** [None] is the result [false]. *)
Class Storage (D : Type) := {
  sectorSize : D -> Z;
  st_read : Z -> Z -> D -> outcome (option (list Z));
  st_write : list Z -> Z -> Z -> D -> outcome (option D)
}.

Record VirtualDiskDrive := mkVirtual { v_sectorSize : Z; v_sectorCount : Z; v_buffer : list Z }.

(** The constructor corrects its argument, not the field. *)
Definition new_VirtualDiskDrive `{Junk Z} (sectorSize sectorCount : Z) : VirtualDiskDrive :=
  let size := if sectorSize <? 512 then 512 else sectorSize in
  mkVirtual sectorSize sectorCount (fresh_slots (u32 (sectorCount * size))).

Definition v_read (sector count : Z) (d : VirtualDiskDrive) : outcome (option (list Z)) :=
  if v_sectorCount d <? u32 (sector + count) then Ret None
  else
    let from := u32 (sector * v_sectorSize d) in
    let n := u32 (count * v_sectorSize d) in
    if from + n <=? Z.of_nat (length (v_buffer d)) then Ret (Some (take (Z.to_nat n) (drop (Z.to_nat from) (v_buffer d)))) else Fault.

Definition v_write (buff : list Z) (sector count : Z) (d : VirtualDiskDrive) : outcome (option VirtualDiskDrive) :=
  if v_sectorCount d <? u32 (sector + count) then Ret None
  else
    let from := u32 (sector * v_sectorSize d) in
    let n := u32 (count * v_sectorSize d) in
    if (from + n <=? Z.of_nat (length (v_buffer d))) && (n <=? Z.of_nat (length buff)) then
      Ret (Some (mkVirtual (v_sectorSize d) (v_sectorCount d)
        (take (Z.to_nat from) (v_buffer d) ++ take (Z.to_nat n) buff ++ drop (Z.to_nat (from + n)) (v_buffer d))))
    else Fault.

#[export] Instance VirtualDisk_storage : Storage VirtualDiskDrive := {| sectorSize := v_sectorSize; st_read := v_read; st_write := v_write |}.

(** A partition passes its requests on to the device it lies on. *)
Record Partition (D : Type) := mkPartition { parentDevice : D; startSector : Z; sectorCount : Z; p_systemId : Z }.
Arguments mkPartition {D} _ _ _ _.
Arguments parentDevice {D} _.
Arguments startSector {D} _.
Arguments sectorCount {D} _.
Arguments p_systemId {D} _.

Section PartitionDevice.
Context {D : Type} `{Storage D}.

Definition p_read (sector count : Z) (p : Partition D) : outcome (option (list Z)) :=
  if sectorCount p <? count then Ret None else st_read (u32 (startSector p + sector)) count (parentDevice p).

Definition p_write (buff : list Z) (sector count : Z) (p : Partition D) : outcome (option (Partition D)) :=
  if sectorCount p <? count then Ret None
  else r ← st_write buff (u32 (startSector p + sector)) count (parentDevice p);
       Ret (option_map (fun d => mkPartition d (startSector p) (sectorCount p) (p_systemId p)) r).

#[export] Instance Partition_storage : Storage (Partition D) := {| sectorSize p := sectorSize (parentDevice p); st_read := p_read; st_write := p_write |}.
End PartitionDevice.

(** ** Table entries *)

Module Code.
Definition SUCCESS : Z := 0.
Definition READ_SECTOR_FAILED : Z := 1.
Definition WRITE_SECTOR_FAILED : Z := 2.
Definition INVALID_MBR_SIGNATURE : Z := 3.
Definition EXTENDED_PARTITION_NOT_FOUND : Z := 4.
Definition UNUSED_PARTITION : Z := 5.
Definition NON_EXISTENT_PARITION : Z := 6.
Definition DEVICE_NOT_PARTITIONABLE : Z := 7.
End Code.

Definition EMPTY : Z := 0.
Definition EXTENDED_PARTITION : Z := 5.
Definition EXTENDED_PARTITION_LBA : Z := 0x0f.
Definition PARTITON_TABLE_START : Z := 0x1be.

Record PartitionTableEntry := mkEntry {
  active_flag : Z;
  start_head : Z;
  start_sector_cylinder : Z;
  system_id : Z;
  end_head : Z;
  end_sector_cylinder : Z;
  relative_sector : Z;
  sector_count : Z
}.

#[export] Instance PartitionTableEntry_eq_dec : EqDecision PartitionTableEntry.
Proof. solve_decision. Defined.

Definition no_entry : PartitionTableEntry := mkEntry 0 0 0 0 0 0 0 0.

(** Little-endian numbers of [n] bytes. *)
Fixpoint le_bytes (n : nat) (v : Z) : list Z :=
  match n with
  | O => []
  | S n => v mod 256 :: le_bytes n (v / 256)
  end.

Fixpoint le_value (l : list Z) : Z :=
  match l with
  | [] => 0
  | b :: l => b + 256 * le_value l
  end.

(** The structure is packed. *)
Definition encode (e : PartitionTableEntry) : list Z :=
  [active_flag e; start_head e] ++ le_bytes 2 (start_sector_cylinder e) ++ [system_id e; end_head e] ++ le_bytes 2 (end_sector_cylinder e) ++
  le_bytes 4 (relative_sector e) ++ le_bytes 4 (sector_count e).

Definition decode (l : list Z) : PartitionTableEntry :=
  mkEntry (nth 0 l 0) (nth 1 l 0) (le_value (take 2 (drop 2 l))) (nth 4 l 0) (nth 5 l 0) (le_value (take 2 (drop 6 l)))
    (le_value (take 4 (drop 8 l))) (le_value (take 4 (drop 12 l))).

(** Bytes of a sector; outside of it there is nothing. *)
Definition bytes_at (off n : Z) (sector : list Z) : outcome (list Z) :=
  if off + n <=? Z.of_nat (length sector) then Ret (take (Z.to_nat n) (drop (Z.to_nat off) sector)) else Fault.

Definition put_bytes (off : Z) (bytes sector : list Z) : outcome (list Z) :=
  if off + Z.of_nat (length bytes) <=? Z.of_nat (length sector)
  then Ret (take (Z.to_nat off) sector ++ bytes ++ drop (Z.to_nat off + length bytes) sector) else Fault.

Definition entry_offset (i : Z) : Z := PARTITON_TABLE_START + 0x10 * i.
Definition get_entry (i : Z) (sector : list Z) : outcome PartitionTableEntry := l ← bytes_at (entry_offset i) 16 sector; Ret (decode l).
Definition put_entry (i : Z) (e : PartitionTableEntry) (sector : list Z) : outcome (list Z) := put_bytes (entry_offset i) (encode e) sector.

Definition get_signature (sector : list Z) : outcome Z := l ← bytes_at 510 2 sector; Ret (le_value l).
Definition put_signature (sector : list Z) : outcome (list Z) := put_bytes 510 (le_bytes 2 0xaa55) sector.

Definition is_extended (e : PartitionTableEntry) : bool := (system_id e =? EXTENDED_PARTITION) || (system_id e =? EXTENDED_PARTITION_LBA).

Record PartitionInfo := mkInfo { number : Z; type : Z; active : bool; systemId : Z; i_startSector : Z; i_sectorCount : Z }.

#[export] Instance PartitionInfo_eq_dec : EqDecision PartitionInfo.
Proof. solve_decision. Defined.

(** The types ['p'], ['e'] and ['l']. *)
Definition type_p : Z := 112.
Definition type_e : Z := 101.
Definition type_l : Z := 108.

Definition info (number type start : Z) (e : PartitionTableEntry) : PartitionInfo :=
  mkInfo number type (active_flag e =? 0x80) (system_id e) start (sector_count e).

(** ** The storage service *)

(** What is registered: a whole device, or a partition with its first sector, sector
    count and system id. *)
Inductive registered := Whole | Part (start count sid : Z).
Abbreviation Service := (gmap (list Z) registered).

(** [String::format("%sp%u", name, number)] *)
Definition partition_name (name : list Z) (number : Z) : outcome (list Z) := ds ← digits 32 number 10 []; Ret (name ++ [112] ++ ds).

(** [removeDevice] takes every name that begins with [name]. *)
Definition removeDevice (name : list Z) (s : Service) : Service := filter (fun kv => ~ name `prefix_of` kv.1) s.

(** ** The device *)

Record StorageDevice (D : Type) := mkDevice {
  disk : D;
  partitionList : ArrayList PartitionInfo;
  partLock : Spinlock;
  name : list Z;
  service : Service
}.
Arguments mkDevice {D} _ _ _ _ _.
Arguments disk {D} _.
Arguments partitionList {D} _.
Arguments partLock {D} _.
Arguments name {D} _.
Arguments service {D} _.

Section Device.
Context {D : Type} `{Storage D} `{Junk Z} `{Junk PartitionInfo}.
Implicit Types (d : StorageDevice D) (mbr : list Z) (e : PartitionTableEntry).

Abbreviation Dev := (ST (StorageDevice D)).

Definition set_disk (s : D) d : StorageDevice D := mkDevice s (partitionList d) (partLock d) (name d) (service d).
Definition set_list (al : ArrayList PartitionInfo) d : StorageDevice D := mkDevice (disk d) al (partLock d) (name d) (service d).
Definition set_partLock (l : Spinlock) d : StorageDevice D := mkDevice (disk d) (partitionList d) l (name d) (service d).
Definition set_service (s : Service) d : StorageDevice D := mkDevice (disk d) (partitionList d) (partLock d) (name d) s.

(** Every path of the code releases the lock before it returns. *)
Definition locked {A} (body : Dev A) : Dev A := fun d =>
  l ← acquire 1 (partLock d);
  '(a, d) ← body (set_partLock l d);
  Ret (a, set_partLock (release (partLock d)) d).

Definition read_sector (sector : Z) : Dev (option (list Z)) := fun d => r ← st_read sector 1 (disk d); Ret (r, d).

(** Whether the sector was written. *)
Definition write_sector mbr (sector : Z) : Dev bool := fun d =>
  r ← st_write mbr sector 1 (disk d);
  match r with Some s => Ret (true, set_disk s d) | None => Ret (false, d) end.

(** A computation on bytes that may leave a sector. *)
Definition lift {A} (x : outcome A) : Dev A := fun d => a ← x; Ret (a, d).

Definition list_add (i : PartitionInfo) : Dev unit := fun d => r ← ArrayList.add i (partitionList d); Ret (tt, set_list (snd r) d).

(** [registerDevice(new Partition(...))]: a partition has no table of its own to scan. *)
Definition registerPartition (start count sid number : Z) : Dev unit := fun d =>
  n ← partition_name (name d) number; Ret (tt, set_service (<[n := Part start count sid]> (service d)) d).

Definition unregisterPartition (number : Z) : Dev unit := fun d =>
  n ← partition_name (name d) number; Ret (tt, set_service (removeDevice n (service d)) d).

(** The list of logical partitions. The result of [read] is not tested: without it the bytes are undefined. *)
Fixpoint logical_loop (fuel : nat) (base partNumber nextLogicalMbr : Z) : Dev unit :=
  match fuel with
  | O => diverge
  | S fuel =>
      r ← read_sector nextLogicalMbr;
      match r with
      | None => fault
      | Some logicalMbr =>
          signature ← lift (get_signature logicalMbr);
          if negb (signature =? 0xaa55) then mret tt
          else
            current ← lift (get_entry 0 logicalMbr);
            next ← lift (get_entry 1 logicalMbr);
            if system_id current =? EMPTY then mret tt
            else
              _ ← list_add (info partNumber type_l (u32 (nextLogicalMbr + relative_sector current)) current);
              if system_id next =? EMPTY then mret tt
              else logical_loop fuel base (u8 (partNumber + 1)) (u32 (base + relative_sector next))
      end
  end.

(** One of the four primary partitions. *)
Definition list_primary (fuel : nat) mbr (i : Z) : Dev unit :=
  current ← lift (get_entry i mbr);
  if system_id current =? EMPTY then mret tt
  else if is_extended current then
    _ ← list_add (info 5 type_e (relative_sector current) current);
    logical_loop fuel (relative_sector current) 5 (relative_sector current)
  else list_add (info (u8 (i + 1)) type_p (relative_sector current) current).

Definition list_all (fuel : nat) : Dev unit :=
  _ ← modify (fun d => set_list (ArrayList.clear (partitionList d)) d);
  r ← read_sector 0;
  match r with
  | None => mret tt
  | Some mbr =>
      signature ← lift (get_signature mbr);
      if negb (signature =? 0xaa55) then mret tt
      else
        _ ← list_primary fuel mbr 0;
        _ ← list_primary fuel mbr 1;
        _ ← list_primary fuel mbr 2;
        list_primary fuel mbr 3
  end.

Definition list_array : Dev (Array PartitionInfo) := fun d => a ← ArrayList.toArray (partitionList d); Ret (a, d).

Definition readPartitionTable (fuel : nat) : Dev (Array PartitionInfo) := _ ← locked (list_all fuel); list_array.

(** The loop that looks for the extended partition. *)
Definition find_extended mbr : outcome (option PartitionTableEntry) :=
  e0 ← get_entry 0 mbr; if is_extended e0 then Ret (Some e0) else
  e1 ← get_entry 1 mbr; if is_extended e1 then Ret (Some e1) else
  e2 ← get_entry 2 mbr; if is_extended e2 then Ret (Some e2) else
  e3 ← get_entry 3 mbr; if is_extended e3 then Ret (Some e3) else Ret None.

(** A sector that the code writes to the disk, or the code it returns. *)
Definition write_or_fail mbr (sector : Z) (next : Dev Z) : Dev Z :=
  ok ← write_sector mbr sector;
  if negb ok then mret Code.WRITE_SECTOR_FAILED else next.

Definition zeros : Dev (list Z) := gets (fun d => replicate (Z.to_nat (sectorSize (disk d))) 0).

(** The entry that [writePartition] puts together. *)
Definition new_entry (active : bool) (sid start count : Z) : PartitionTableEntry := mkEntry (if active then 0x80 else 0) 0 0 sid 0 0 start count.

(** An extended partition gets an empty table at its start. *)
Definition init_extended (sid start : Z) (next : Dev Z) : Dev Z :=
  if (sid =? 5) || (sid =? 0xf) then
    sector ← zeros;
    logicalMbr ← lift (put_signature sector);
    write_or_fail logicalMbr start next
  else next.

Definition write_primary mbr (partNumber : Z) (active : bool) (sid start count : Z) : Dev Z :=
  init_extended sid start (
    mbr ← lift (put_entry (partNumber - 1) (new_entry active sid start count) mbr);
    write_or_fail mbr 0 (
      _ ← registerPartition start count sid partNumber;
      mret Code.SUCCESS)).

(** Where the loop over the logical partitions stops: an error, or the table at
    [sector], with the number reached, and whether a partition is to be appended. *)
Inductive place := Failed (code : Z) | At (append : bool) (i : Z) (mbr : list Z) (sector : Z).

Fixpoint find_place (fuel : nat) (base partNumber i sector : Z) : Dev place :=
  match fuel with
  | O => diverge
  | S fuel =>
      r ← read_sector sector;
      match r with
      | None => mret (Failed Code.READ_SECTOR_FAILED)
      | Some currentMbr =>
          signature ← lift (get_signature currentMbr);
          if negb (signature =? 0xaa55) then mret (Failed Code.INVALID_MBR_SIGNATURE)
          else
            current ← lift (get_entry 0 currentMbr);
            next ← lift (get_entry 1 currentMbr);
            if (system_id current =? EMPTY) || (i =? partNumber) then mret (At false i currentMbr sector)
            else if system_id next =? EMPTY then mret (At true i currentMbr sector)
            else find_place fuel base partNumber (u8 (i + 1)) (u32 (base + relative_sector next))
      end
  end.

Definition append_logical (base i : Z) currentMbr (sector : Z) (active : bool) (sid start count : Z) : Dev Z :=
  let partEntry := new_entry active sid (u32 (start - base)) count in
  currentMbr ← lift (put_entry 1 (mkEntry (active_flag partEntry) 0 0 EXTENDED_PARTITION_LBA 0 0 (u32 (start - base)) count) currentMbr);
  write_or_fail currentMbr sector (
    sectorZeros ← zeros;
    newLogicalMbr ← lift (put_entry 0 (new_entry active sid 1 (u32 (count - 1))) sectorZeros);
    newLogicalMbr ← lift (put_signature newLogicalMbr);
    write_or_fail newLogicalMbr start (
      _ ← registerPartition start count sid i;
      mret Code.SUCCESS)).

Definition edit_logical (i : Z) currentMbr (sector : Z) (active : bool) (sid start count : Z) : Dev Z :=
  e ← lift (get_entry 0 currentMbr);
  currentMbr ← lift (put_entry 0 (mkEntry (if active then 0x80 else 0) (start_head e) (start_sector_cylinder e) sid (end_head e) (end_sector_cylinder e)
    (if relative_sector e =? 0 then 1 else relative_sector e) count) currentMbr);
  write_or_fail currentMbr sector (
    _ ← registerPartition start count sid i;
    mret Code.SUCCESS).

Definition write_logical mbr (partNumber : Z) (active : bool) (sid start count : Z) : Dev Z :=
  ext ← lift (find_extended mbr);
  match ext with
  | None => mret Code.EXTENDED_PARTITION_NOT_FOUND
  | Some extPart =>
      let base := relative_sector extPart in
      p ← find_place 256 base partNumber 5 base;
      match p with
      | Failed code => mret code
      | At true i currentMbr sector => append_logical base i currentMbr sector active sid start count
      | At false i currentMbr sector => edit_logical i currentMbr sector active sid start count
      end
  end.

Definition writePartition (partNumber : Z) (active : bool) (sid start count : Z) : Dev Z :=
  if partNumber <? 1 then mret Code.NON_EXISTENT_PARITION
  else locked (
    r ← read_sector 0;
    match r with
    | None => mret Code.READ_SECTOR_FAILED
    | Some mbr =>
        signature ← lift (get_signature mbr);
        if negb (signature =? 0xaa55) then mret Code.INVALID_MBR_SIGNATURE
        else if partNumber <=? 4 then write_primary mbr partNumber active sid start count
        else write_logical mbr partNumber active sid start count
    end).

(** The names in [/dev/storage] that belong to logical partitions of this device: the
    code removes those whose number is above four. [children] is what the directory holds. *)
Definition number_in (dev child : list Z) : outcome Z :=
  let text := drop (length dev + 1) child in strtoint (S (length text)) (string_at 1 text (fun _ => 0)) 1.

Definition remove_child (logical_only : bool) (child : list Z) d : outcome (StorageDevice D) :=
  if bool_decide (child <> name d /\ name d `prefix_of` child) then
    remove ← (if logical_only then n ← number_in (name d) child; Ret (4 <? n) else Ret true);
    if (remove : bool) then Ret (set_service (removeDevice child (service d)) d) else Ret d
  else Ret d.

Definition remove_children (logical_only : bool) (children : list (list Z)) : Dev unit := fun d =>
  d ← foldM (remove_child logical_only) children d; Ret (tt, d).

Definition delete_primary (children : list (list Z)) mbr (partNumber : Z) : Dev Z :=
  e ← lift (get_entry (partNumber - 1) mbr);
  mbr ← lift (put_entry (partNumber - 1) no_entry mbr);
  write_or_fail mbr 0 (
    _ ← unregisterPartition partNumber;
    _ ← (if is_extended e then remove_children true children else mret tt);
    mret Code.SUCCESS).

(** The first table is all there is to change; its type and flag stay. *)
Definition delete_first (base : Z) : Dev Z :=
  r ← read_sector base;
  match r with
  | None => mret Code.READ_SECTOR_FAILED
  | Some firstMbr =>
      first ← lift (get_entry 0 firstMbr);
      second ← lift (get_entry 1 firstMbr);
      let write firstMbr := write_or_fail firstMbr base (_ ← unregisterPartition 5; mret Code.SUCCESS) in
      if system_id second =? EMPTY then firstMbr ← lift (put_entry 0 no_entry firstMbr); write firstMbr
      else
        r ← read_sector (u32 (base + relative_sector second));
        match r with
        | None => mret Code.READ_SECTOR_FAILED
        | Some secondMbr =>
            first2 ← lift (get_entry 0 secondMbr);
            second2 ← lift (get_entry 1 secondMbr);
            firstMbr ← lift (put_entry 0 (mkEntry (active_flag first) (start_head first) (start_sector_cylinder first) (system_id first) (end_head first)
              (end_sector_cylinder first) (u32 (relative_sector second + relative_sector first2)) (sector_count first2)) firstMbr);
            firstMbr ← lift (put_entry 1 second2 firstMbr);
            write firstMbr
        end
  end.

(** The loop that looks for the partition: an error, or its table, with the sector of the
    table before it. *)
Inductive victim := Missing (code : Z) | Victim (last : Z) (mbr : list Z) (sector : Z) (next : PartitionTableEntry).

Fixpoint find_victim (fuel : nat) (base partNumber i last sector : Z) : Dev victim :=
  match fuel with
  | O => diverge
  | S fuel =>
      r ← read_sector sector;
      match r with
      | None => mret (Missing Code.READ_SECTOR_FAILED)
      | Some currentMbr =>
          signature ← lift (get_signature currentMbr);
          if negb (signature =? 0xaa55) then mret (Missing Code.INVALID_MBR_SIGNATURE)
          else
            current ← lift (get_entry 0 currentMbr);
            next ← lift (get_entry 1 currentMbr);
            if system_id current =? EMPTY then mret (Missing Code.UNUSED_PARTITION)
            else if (system_id next =? EMPTY) || (i =? partNumber) then
              if i <? partNumber then mret (Missing Code.NON_EXISTENT_PARITION) else mret (Victim last currentMbr sector next)
            else find_victim fuel base partNumber (u8 (i + 1)) sector (u32 (base + relative_sector next))
      end
  end.

Definition unlink (partNumber last : Z) currentMbr (sector : Z) (next : PartitionTableEntry) : Dev Z :=
  r ← read_sector last;
  match r with
  | None => mret Code.READ_SECTOR_FAILED
  | Some lastMbr =>
      currentMbr ← lift (put_entry 0 no_entry currentMbr);
      currentMbr ← lift (put_entry 1 no_entry currentMbr);
      lastMbr ← lift (put_entry 1 next lastMbr);
      write_or_fail currentMbr sector (
        write_or_fail lastMbr last (
          _ ← unregisterPartition partNumber;
          mret Code.SUCCESS))
  end.

Definition deletePartition (children : list (list Z)) (partNumber : Z) : Dev Z :=
  if partNumber <? 1 then mret Code.NON_EXISTENT_PARITION
  else locked (
    r ← read_sector 0;
    match r with
    | None => mret Code.WRITE_SECTOR_FAILED
    | Some mbr =>
        if partNumber <=? 4 then delete_primary children mbr partNumber
        else
          ext ← lift (find_extended mbr);
          match ext with
          | None => mret Code.EXTENDED_PARTITION_NOT_FOUND
          | Some extPart =>
              let base := relative_sector extPart in
              if partNumber =? 5 then delete_first base
              else
                v ← find_victim 256 base partNumber 5 0 base;
                match v with
                | Missing code => mret code
                | Victim last currentMbr sector next => unlink partNumber last currentMbr sector next
                end
          end
    end).

(** Only the first 510 bytes of the sector are cleared. *)
Definition createPartitionTable (children : list (list Z)) : Dev Z :=
  locked (
    size ← gets (fun d => sectorSize (disk d));
    mbr ← lift (put_bytes 0 (replicate 510 0) (fresh_slots size));
    mbr ← lift (put_signature mbr);
    write_or_fail mbr 0 (
      _ ← remove_children false children;
      mret Code.SUCCESS)).

(** [StorageService::registerDevice] for this device: the partitions it finds are registered as well. *)
Definition register_info (i : PartitionInfo) : Dev unit := registerPartition (i_startSector i) (i_sectorCount i) (systemId i) (number i).
Definition register_all (partitions : Array PartitionInfo) : Dev unit := fun d =>
  d ← foldM (fun i d => r ← register_info i d; Ret (snd r)) (array partitions) d; Ret (tt, d).

Definition registerDevice (fuel : nat) : Dev unit :=
  _ ← modify (fun d => set_service (<[name d := Whole]> (service d)) d);
  partitions ← readPartitionTable fuel;
  register_all partitions.
End Device.

(** ** Bytes *)

Lemma length_le_bytes n v : length (le_bytes n v) = n.
Proof. revert v. induction n as [|n IH]; intros v; simpl; [done|]. by rewrite IH. Qed.

Lemma le_value_bytes n v : 0 <= v < 256 ^ Z.of_nat n -> le_value (le_bytes n v) = v.
Proof.
  revert v. induction n as [|n IH]; intros v Hv; [cbn in *; lia|]. cbn [le_bytes le_value]. rewrite Nat2Z.inj_succ, Z.pow_succ_r in Hv by lia.
  rewrite IH; [|split; [apply Z.div_pos; lia|apply Z.div_lt_upper_bound; lia]]. rewrite (Z.div_mod v 256) at 3 by lia. lia.
Qed.

(** The fields fit into their bytes. *)
Record entry_ok (e : PartitionTableEntry) : Prop := {
  eo_start : 0 <= start_sector_cylinder e < 2 ^ 16;
  eo_end : 0 <= end_sector_cylinder e < 2 ^ 16;
  eo_relative : 0 <= relative_sector e < 2 ^ 32;
  eo_count : 0 <= sector_count e < 2 ^ 32
}.

Lemma length_encode e : length (encode e) = 16%nat.
Proof. done. Qed.

Lemma decode_encode e : entry_ok e -> decode (encode e) = e.
Proof.
  intros [H1 H2 H3 H4]. unfold decode. change (encode e) with ([active_flag e; start_head e] ++ le_bytes 2 (start_sector_cylinder e) ++ [system_id e; end_head e] ++
    le_bytes 2 (end_sector_cylinder e) ++ le_bytes 4 (relative_sector e) ++ le_bytes 4 (sector_count e)).
  change (take 2 (drop 2 _)) with (le_bytes 2 (start_sector_cylinder e)). change (take 2 (drop 6 _)) with (le_bytes 2 (end_sector_cylinder e)).
  change (take 4 (drop 8 _)) with (le_bytes 4 (relative_sector e)). change (take 4 (drop 12 _)) with (le_bytes 4 (sector_count e)).
  rewrite !le_value_bytes by (simpl; lia). by destruct e.
Qed.

Lemma bytes_at_in off n (s : list Z) : off + n <= Z.of_nat (length s) -> bytes_at off n s = Ret (take (Z.to_nat n) (drop (Z.to_nat off) s)).
Proof. intros Hn. unfold bytes_at. by decide_bool. Qed.

(** Bytes written at [off] are what is read there; other bytes are the old ones. *)
Lemma put_bytes_run off b (s : list Z) : 0 <= off -> off + Z.of_nat (length b) <= Z.of_nat (length s) ->
  exists s', put_bytes off b s = Ret s' /\ length s' = length s /\ bytes_at off (Z.of_nat (length b)) s' = Ret b /\
    forall off2 n, 0 <= off2 -> 0 <= n -> off2 + n <= off \/ off + Z.of_nat (length b) <= off2 -> bytes_at off2 n s' = bytes_at off2 n s.
Proof.
  intros Hoff Hlen. unfold put_bytes. decide_bool. eexists. split; [done|]. set (k := Z.to_nat off). set (s' := take k s ++ b ++ drop (k + length b) s).
  assert (Hs' : length s' = length s) by (unfold s'; rewrite !length_app, length_take, length_drop; lia). split_and!; [done| |].
  - rewrite bytes_at_in by lia. f_equal. unfold s'. rewrite drop_app_ge, length_take by (rewrite length_take; lia). replace (Z.to_nat off - k `min` length s)%nat with 0%nat by lia.
    rewrite drop_0, take_app_le by lia. apply take_ge. lia.
  - intros off2 n Ho Hn Hd. unfold bytes_at. rewrite Hs'. destruct (off2 + n <=? Z.of_nat (length s)) eqn:E; [|done]. apply Z.leb_le in E. f_equal.
    apply list_eq. intros i. destruct (decide (i < Z.to_nat n)%nat) as [Hi|Hi]; [|rewrite !lookup_ge_None_2; [done|rewrite length_take; lia..]].
    rewrite !lookup_take_lt, !lookup_drop by done. unfold s'. destruct Hd as [Hd|Hd].
    + rewrite lookup_app_l by (rewrite length_take; lia). by rewrite lookup_take_lt by lia.
    + rewrite lookup_app_r by (rewrite length_take; lia). rewrite length_take. rewrite lookup_app_r by lia. rewrite lookup_drop. f_equal. lia.
Qed.

(** ** Tables *)

(** A sector with a signature and four entries. *)
Record is_table (mbr : list Z) (es : list PartitionTableEntry) : Prop := {
  tb_size : 512 <= Z.of_nat (length mbr);
  tb_entries : length es = 4%nat;
  tb_signature : get_signature mbr = Ret 0xaa55;
  tb_get : forall k e, es !! k = Some e -> get_entry (Z.of_nat k) mbr = Ret e;
  tb_ok : Forall entry_ok es
}.

Lemma table_put mbr es k e : is_table mbr es -> (k < 4)%nat -> entry_ok e ->
  exists mbr', put_entry (Z.of_nat k) e mbr = Ret mbr' /\ is_table mbr' (<[k := e]> es) /\ length mbr' = length mbr.
Proof.
  intros [Hsz Hlen Hsig Hget Hok] Hk He. unfold put_entry, entry_offset, PARTITON_TABLE_START.
  destruct (put_bytes_run (0x1be + 0x10 * Z.of_nat k) (encode e) mbr) as (mbr' & E & Hl & Hb & Ho); [lia|rewrite length_encode; lia|].
  rewrite length_encode in Hb, Ho. exists mbr'. split_and!; [done| |done]. constructor.
  - by rewrite Hl.
  - by rewrite length_insert.
  - unfold get_signature. rewrite Ho by lia. exact Hsig.
  - intros k' e' Hk'. destruct (decide (k' = k)) as [->|Hne].
    + rewrite list_lookup_insert_eq in Hk' by lia. injection Hk' as <-. unfold get_entry, entry_offset, PARTITON_TABLE_START. change (Z.of_nat 16) with 16 in Hb. rewrite Hb. outcome. by rewrite decode_encode.
    + rewrite list_lookup_insert_ne in Hk' by done. pose proof (lookup_lt_Some _ _ _ Hk') as Hlt. specialize (Hget _ _ Hk').
      unfold get_entry, entry_offset, PARTITON_TABLE_START in *. rewrite Ho by lia. exact Hget.
  - by apply Forall_insert.
Qed.


(** The table the code makes from zeros. *)
Lemma blank_table n : 512 <= Z.of_nat n -> exists mbr, put_signature (replicate n 0) = Ret mbr /\ is_table mbr (replicate 4 no_entry) /\ length mbr = n.
Proof.
  intros Hn. unfold put_signature. destruct (put_bytes_run 510 (le_bytes 2 0xaa55) (replicate n 0)) as (mbr & E & Hl & Hb & Ho); [lia|rewrite length_replicate; simpl; lia|].
  rewrite length_replicate in Hl. exists mbr. split_and!; [done| |done]. constructor; [lia|done| | |].
  - unfold get_signature. change 2 with (Z.of_nat (length (le_bytes 2 0xaa55))). by rewrite Hb.
  - intros k e Hk. apply lookup_replicate in Hk as [-> Hk]. unfold get_entry, entry_offset, PARTITON_TABLE_START. rewrite Ho by (simpl; lia).
    rewrite bytes_at_in by (rewrite length_replicate; lia). rewrite drop_replicate, take_replicate. outcome. f_equal.
    replace (Z.to_nat 16 `min` _)%nat with 16%nat by lia. reflexivity.
  - repeat constructor; cbn; lia.
Qed.

(** ** Storage that keeps what is written *)

Class StorageSpec (D : Type) `{Storage D} := {
  st_inv : D -> Prop;
  st_sector : Z -> D -> option (list Z);
  st_size : forall d, st_inv d -> 512 <= sectorSize d;
  st_length : forall d s data, st_inv d -> st_sector s d = Some data -> Z.of_nat (length data) = sectorSize d;
  st_read_spec : forall d s data, st_inv d -> st_sector s d = Some data -> st_read s 1 d = Ret (Some data);
  st_write_spec : forall d s old data, st_inv d -> st_sector s d = Some old -> Z.of_nat (length data) = sectorSize d ->
    exists d', st_write data s 1 d = Ret (Some d') /\ st_inv d' /\ sectorSize d' = sectorSize d /\
      forall s', st_sector s' d' = if decide (s' = s) then Some data else st_sector s' d
}.

(** A disk that fits into memory. *)
Definition virtual_ok (d : VirtualDiskDrive) : Prop :=
  512 <= v_sectorSize d /\ 0 <= v_sectorCount d /\ v_sectorCount d * v_sectorSize d < 2 ^ 32 /\ Z.of_nat (length (v_buffer d)) = v_sectorCount d * v_sectorSize d.

Definition virtual_sector (s : Z) (d : VirtualDiskDrive) : option (list Z) :=
  if decide (0 <= s < v_sectorCount d) then Some (take (Z.to_nat (v_sectorSize d)) (drop (Z.to_nat (s * v_sectorSize d)) (v_buffer d))) else None.

Lemma virtual_range s d data : virtual_ok d -> virtual_sector s d = Some data ->
  0 <= s < v_sectorCount d /\ u32 (s + 1) = s + 1 /\ u32 (s * v_sectorSize d) = s * v_sectorSize d /\ u32 (1 * v_sectorSize d) = v_sectorSize d /\
  0 <= s * v_sectorSize d <= Z.of_nat (length (v_buffer d)) - v_sectorSize d /\
  data = take (Z.to_nat (v_sectorSize d)) (drop (Z.to_nat (s * v_sectorSize d)) (v_buffer d)).
Proof.
  intros (H1 & H2 & H3 & H4) E. unfold virtual_sector in E. destruct (decide _) as [Hs|]; [|done]. injection E as <-.
  assert (v_sectorCount d * 512 <= v_sectorCount d * v_sectorSize d) by nia. assert ((s + 1) * v_sectorSize d <= v_sectorCount d * v_sectorSize d) by nia.
  rewrite Z.mul_1_l. split_and!; try nia; try done; apply u32_small; unfold is_u32; nia.
Qed.

#[export] Program Instance VirtualDisk_spec : StorageSpec VirtualDiskDrive := {| st_inv := virtual_ok; st_sector := virtual_sector |}.
Next Obligation. by intros d (? & _). Qed.
Next Obligation. intros d s data Hd E. destruct (virtual_range s d data Hd E) as (_ & _ & _ & _ & Hl & ->). rewrite length_take, length_drop. cbn. destruct Hd as (? & _). lia. Qed.
Next Obligation.
  intros d s data Hd E. destruct (virtual_range s d data Hd E) as (Hs & U1 & U2 & U3 & Hl & ->). cbn. unfold v_read. rewrite U1, U2, U3. by decide_bool.
Qed.
Next Obligation.
  intros d s old data Hd E Hlen. destruct (virtual_range s d old Hd E) as (Hs & U1 & U2 & U3 & Hl & _). cbn in *. pose proof Hd as (H1 & H2 & H3 & H4).
  set (sz := v_sectorSize d) in *. set (buf := v_buffer d) in *.
  set (buf' := take (Z.to_nat (s * sz)) buf ++ take (Z.to_nat sz) data ++ drop (Z.to_nat (s * sz + sz)) buf).
  assert (Hl' : length buf' = length buf) by (unfold buf'; rewrite !length_app, !length_take, length_drop; lia).
  exists (mkVirtual sz (v_sectorCount d) buf'). split_and!.
  - unfold v_write. fold sz buf. rewrite U1, U2, U3. decide_bool. done.
  - split_and!; cbn; [done|done|done|]. by rewrite Hl'.
  - done.
  - intros s'. unfold virtual_sector. cbn. destruct (decide (s' = s)) as [->|Hne].
    + rewrite decide_True by done. f_equal. unfold buf'. rewrite drop_app_ge, length_take by (rewrite length_take; lia).
      replace (_ - _)%nat with 0%nat by lia. rewrite drop_0, take_app_le by (rewrite length_take; lia). rewrite take_take, Nat.min_id. apply take_ge. lia.
    + destruct (decide (0 <= s' < v_sectorCount d)) as [Hs'|]; [|done]. f_equal. fold sz buf. apply list_eq. intros i.
      assert ((s' + 1) * sz <= v_sectorCount d * sz) by nia.
      destruct (decide (i < Z.to_nat sz)%nat) as [Hi|Hi]; [|rewrite !lookup_ge_None_2; [done|rewrite length_take; lia..]].
      rewrite !lookup_take_lt, !lookup_drop by done. unfold buf'. destruct (decide (s' < s)) as [Hlt|Hge].
      * assert ((s' + 1) * sz <= s * sz) by nia. rewrite lookup_app_l by (rewrite length_take; lia). by rewrite lookup_take_lt by lia.
      * assert ((s + 1) * sz <= s' * sz) by nia. rewrite lookup_app_r by (rewrite length_take; lia). rewrite length_take. rewrite lookup_app_r by (rewrite length_take; lia).
        rewrite length_take, lookup_drop. f_equal. lia.
Qed.

(** ** What lies on a disk *)

Section Layout.
Context {D : Type} `{StorageSpec D}.
Implicit Types (k : D) (es : list PartitionTableEntry) (logs : list (Z * PartitionTableEntry)).

Definition table_at (s : Z) es k : Prop := exists mbr, st_sector s k = Some mbr /\ is_table mbr es.

(** The logical partitions from the table at [s] on, with the sectors of their tables. *)
Inductive chain k (base : Z) : Z -> list (Z * PartitionTableEntry) -> Prop :=
| chain_last s es p n : table_at s es k -> es !! 0%nat = Some p -> es !! 1%nat = Some n -> system_id p <> EMPTY -> system_id n = EMPTY -> chain k base s [(s, p)]
| chain_next s es p n logs : table_at s es k -> es !! 0%nat = Some p -> es !! 1%nat = Some n -> system_id p <> EMPTY -> system_id n <> EMPTY ->
    chain k base (u32 (base + relative_sector n)) logs -> chain k base s ((s, p) :: logs).

(** The logical partitions of an extended partition, or its empty first table. *)
Definition logicals k (ext : PartitionTableEntry) logs : Prop :=
  chain k (relative_sector ext) (relative_sector ext) logs \/
  (logs = [] /\ relative_sector ext <> 0 /\ exists es p n, table_at (relative_sector ext) es k /\ es !! 0%nat = Some p /\ es !! 1%nat = Some n /\ system_id p = EMPTY /\ system_id n = EMPTY).

Record layout k (prims : list PartitionTableEntry) logs : Prop := {
  lo_inv : st_inv k;
  lo_table : table_at 0 prims k;
  lo_unique : forall i j e f, prims !! i = Some e -> prims !! j = Some f -> is_extended e = true -> is_extended f = true -> i = j;
  lo_logs : forall e, e ∈ prims -> is_extended e = true -> logicals k e logs;
  lo_none : (forall e, e ∈ prims -> is_extended e = false) -> logs = [];
  lo_sectors : NoDup (0 :: logs.*1)
}.

Lemma table_frame s es k k' : table_at s es k -> st_sector s k' = st_sector s k -> table_at s es k'.
Proof. intros (mbr & Hs & Ht) E. exists mbr. by rewrite E. Qed.

Lemma chain_head k base s logs : chain k base s logs -> exists p rest, logs = (s, p) :: rest.
Proof. destruct 1; eauto. Qed.

Lemma chain_frame k k' base s logs : chain k base s logs -> (forall s', s' ∈ logs.*1 -> st_sector s' k' = st_sector s' k) -> chain k' base s logs.
Proof.
  induction 1 as [s es p n Ht Hp Hn Hpe Hne|s es p n logs Ht Hp Hn Hpe Hne Hc IH]; intros Hf.
  - apply (chain_last k' base s es p n); try done. apply (table_frame s es k); [done|]. apply Hf. left.
  - apply (chain_next k' base s es p n); try done.
    + apply (table_frame s es k); [done|]. apply Hf. left.
    + apply IH. intros s' Hs'. apply Hf. by right.
Qed.

Lemma second_entry es p n ptr : es !! 0%nat = Some p -> es !! 1%nat = Some n -> <[1%nat := ptr]> es !! 0%nat = Some p /\ <[1%nat := ptr]> es !! 1%nat = Some ptr.
Proof. by destruct es as [|? [|? es]]. Qed.

(** The list can be continued by changing the second entry of its last table. *)
Lemma chain_extend k base s logs : chain k base s logs ->
  exists sl p es, last logs = Some (sl, p) /\ table_at sl es k /\ es !! 0%nat = Some p /\
    forall k' ptr rest, NoDup logs.*1 -> (forall s', s' ∈ logs.*1 -> s' <> sl -> st_sector s' k' = st_sector s' k) -> table_at sl (<[1%nat := ptr]> es) k' ->
      system_id ptr <> EMPTY -> chain k' base (u32 (base + relative_sector ptr)) rest -> chain k' base s (logs ++ rest).
Proof.
  induction 1 as [s es p n Ht Hp Hn Hpe Hne|s es p n logs Ht Hp Hn Hpe Hne Hc IH].
  - exists s, p, es. split_and!; [done|done|done|]. intros k' ptr rest _ _ Ht' Hptr Hc. apply (chain_next k' base s (<[1%nat := ptr]> es) p ptr); try done.
    + by apply (second_entry es p n).
    + by apply (second_entry es p n).
  - destruct IH as (sl & q & esl & Hl & Htl & Hq & Hx). exists sl, q, esl. destruct (chain_head _ _ _ _ Hc) as (p1 & rest1 & E1).
    split_and!; [by rewrite E1 in Hl |- *|done|done|]. intros k' ptr rest Hnd Hf Ht' Hptr Hc'. cbn [fmap list_fmap] in Hnd. apply NoDup_cons in Hnd as [Hs Hnd].
    apply (chain_next k' base s es p n); try done.
    + apply (table_frame s es k); [done|]. apply Hf; [left|]. intros ->. apply Hs. apply last_Some_elem_of in Hl. apply list_elem_of_fmap. by exists (sl, q).
    + apply (Hx k' ptr); try done. intros s' Hs' Hsl. apply Hf; [by right|done].
Qed.

(** An element behind the first one is removed by copying the second entry of its table into the
    one before it. *)
Lemma chain_remove k base s logs j : chain k base s logs -> (S j < length logs)%nat ->
  exists sp pp sv pv ep ev n, logs !! j = Some (sp, pp) /\ logs !! S j = Some (sv, pv) /\ table_at sp ep k /\ table_at sv ev k /\ ev !! 1%nat = Some n /\
    forall k', NoDup logs.*1 -> (forall s', s' ∈ logs.*1 -> s' <> sp -> s' <> sv -> st_sector s' k' = st_sector s' k) -> table_at sp (<[1%nat := n]> ep) k' ->
      chain k' base s (base.delete (S j) logs).
Proof.
  intros Hc. revert j. induction Hc as [s es p n Ht Hp Hn Hpe Hne|s es p n logs Ht Hp Hn Hpe Hne Hc IH]; intros j Hj; [simpl in Hj; lia|].
  destruct j as [|j].
  - destruct Hc as [s1 es1 p1 n1 Ht1 Hp1 Hn1 Hpe1 Hne1|s1 es1 p1 n1 logs Ht1 Hp1 Hn1 Hpe1 Hne1 Hc].
    + exists s, p, s1, p1, es, es1, n1. split_and!; try done. intros k' _ _ Ht'. destruct (second_entry es p n n1 Hp Hn). by apply (chain_last k' base s (<[1%nat := n1]> es) p n1).
    + exists s, p, s1, p1, es, es1, n1. split_and!; try done. intros k' Hnd Hf Ht'. destruct (second_entry es p n n1 Hp Hn). apply (chain_next k' base s (<[1%nat := n1]> es) p n1); try done.
      apply (chain_frame k); [done|]. intros s' Hs'. cbn in Hnd. apply NoDup_cons in Hnd as [Ha Hnd]. apply NoDup_cons in Hnd as [Hb _]. apply Hf; [by right; right| |]; intros ->; [apply Ha; by right|done].
  - simpl in Hj. destruct (IH j) as (sp & pp & sv & pv & ep & ev & m & Ej & Esj & Htp & Htv & Hm & Hx); [lia|].
    exists sp, pp, sv, pv, ep, ev, m. split_and!; try done. intros k' Hnd Hf Ht'. cbn in Hnd. apply NoDup_cons in Hnd as [Hs Hnd]. cbn.
    assert (Hin : forall x q i, logs !! i = Some (x, q) -> s <> x) by (intros x q i Hi ->; apply Hs, list_elem_of_fmap; exists (x, q); split; [done|]; by eapply list_elem_of_lookup_2).
    apply (chain_next k' base s es p n); try done.
    + apply (table_frame s es k); [done|]. apply Hf; [left|by eapply Hin|by eapply Hin].
    + apply Hx; [done| |done]. intros s' Hs'. apply Hf. by right.
Qed.
End Layout.

(** ** Reading the table *)

Section Runs.
Context {D : Type} `{StorageSpec D} `{Junk Z} `{Junk PartitionInfo}.
Implicit Types (d : StorageDevice D) (es : list PartitionTableEntry) (logs : list (Z * PartitionTableEntry)).

Lemma read_table d s es : st_inv (disk d) -> table_at s es (disk d) ->
  exists mbr, read_sector s d = Ret (Some mbr, d) /\ is_table mbr es /\ st_sector s (disk d) = Some mbr.
Proof. intros Hd (mbr & Hs & Ht). exists mbr. unfold read_sector. by rewrite (st_read_spec _ _ mbr) by done. Qed.

Lemma lift_run {A} (x : outcome A) (a : A) d : x = Ret a -> lift x d = Ret (a, d).
Proof. intros E. unfold lift. by rewrite E. Qed.

Lemma table_signature mbr es d : is_table mbr es -> lift (get_signature mbr) d = Ret (0xaa55, d).
Proof. intros Ht. apply lift_run, Ht. Qed.

Lemma table_entry mbr es i e d : is_table mbr es -> es !! i = Some e -> lift (get_entry (Z.of_nat i) mbr) d = Ret (e, d).
Proof. intros Ht Hi. by apply lift_run, Ht. Qed.

(** The logical partitions with their numbers. *)
Fixpoint numbered (n : Z) logs : list PartitionInfo :=
  match logs with
  | [] => []
  | (s, p) :: logs => info n type_l (u32 (s + relative_sector p)) p :: numbered (u8 (n + 1)) logs
  end.

Definition listed logs (i : Z) (e : PartitionTableEntry) : list PartitionInfo :=
  if system_id e =? EMPTY then []
  else if is_extended e then info 5 type_e (relative_sector e) e :: numbered 5 logs
  else [info (i + 1) type_p (relative_sector e) e].

Definition listing es logs : list PartitionInfo := concat (imap (fun i e => listed logs (Z.of_nat i) e) es).

(** [added d d' l]: only the list has changed, by [l]. *)
Definition added d d' (l : list PartitionInfo) : Prop :=
  exists al, d' = set_list al d /\ al_wf al /\ al_view al = al_view (partitionList d) ++ l.

Lemma added_trans d1 d2 d3 l1 l2 : added d1 d2 l1 -> added d2 d3 l2 -> added d1 d3 (l1 ++ l2).
Proof. intros (al1 & -> & _ & V1) (al2 & -> & W2 & V2). exists al2. split_and!; [done|done|]. rewrite V2. cbn. by rewrite V1, app_assoc. Qed.

Lemma list_add_run d i : al_wf (partitionList d) -> Z.of_nat (length (al_view (partitionList d))) < 2 ^ 31 ->
  exists d', list_add i d = Ret (tt, d') /\ added d d' [i].
Proof.
  intros Hwf Hn. rewrite length_al_view in Hn by done. destruct (ArrayList.add_spec i (partitionList d) Hwf Hn) as (al & E & Hwf' & _ & Hv).
  unfold list_add. rewrite E. outcome. eexists. split; [done|]. by exists al.
Qed.

Lemma logical_loop_run base s logs k : chain k base s logs -> forall d n fuel, disk d = k -> st_inv k -> al_wf (partitionList d) ->
  Z.of_nat (length (al_view (partitionList d)) + length logs) < 2 ^ 31 -> (length logs < fuel)%nat ->
  exists d', logical_loop fuel base n s d = Ret (tt, d') /\ added d d' (numbered n logs).
Proof.
  induction 1 as [s es p m Ht Hp Hm Hpe Hme|s es p m logs Ht Hp Hm Hpe Hme Hc IH]; intros d n fuel Hk Hi Hwf Hlen Hf; (destruct fuel as [|fuel]; [simpl in Hf; lia|]);
    simpl in Hlen, Hf; subst k; cbn [logical_loop numbered];
    destruct (read_table d s es Hi Ht) as (mbr & Er & Htab & _); rewrite (ST_bind_Ret _ _ _ _ _ Er), (ST_bind_Ret _ _ _ _ _ (table_signature mbr es d Htab));
    change (negb (0xaa55 =? 0xaa55)) with false; cbn iota;
    rewrite (ST_bind_Ret _ _ _ _ _ (table_entry mbr es 0 p d Htab Hp)), (ST_bind_Ret _ _ _ _ _ (table_entry mbr es 1 m d Htab Hm));
    apply Z.eqb_neq in Hpe; rewrite Hpe;
    destruct (list_add_run d (info n type_l (u32 (s + relative_sector p)) p) Hwf) as (d1 & E1 & Ha1); [lia|idtac|lia|idtac]; rewrite (ST_bind_Ret _ _ _ _ _ E1).
  - rewrite (proj2 (Z.eqb_eq _ _) Hme). by exists d1.
  - apply Z.eqb_neq in Hme. rewrite Hme. pose proof Ha1 as (al & -> & Hwf1 & Hv1). destruct (IH (set_list al d) (u8 (n + 1)) fuel) as (d' & E & Ha); try done.
    + cbn [partitionList set_list]. rewrite Hv1, length_app. simpl. lia.
    + lia.
    + exists d'. split; [exact E|]. by apply (added_trans d (set_list al d) d' [_]).
Qed.

Lemma list_primary_run d mbr es logs i e fuel : st_inv (disk d) -> is_table mbr es -> es !! i = Some e -> (is_extended e = true -> logicals (disk d) e logs) ->
  al_wf (partitionList d) -> Z.of_nat (length (al_view (partitionList d)) + length logs) + 1 < 2 ^ 31 -> (length logs < fuel)%nat ->
  exists d', list_primary fuel mbr (Z.of_nat i) d = Ret (tt, d') /\ added d d' (listed logs (Z.of_nat i) e).
Proof.
  intros Hi Ht He Hlog Hwf Hlen Hf. pose proof (lookup_lt_Some _ _ _ He) as Hlt. rewrite (tb_entries _ _ Ht) in Hlt.
  unfold list_primary, listed. rewrite (ST_bind_Ret _ _ _ _ _ (table_entry mbr es i e d Ht He)).
  assert (Hsame : added d d []) by (exists (partitionList d); rewrite app_nil_r; by destruct d).
  destruct (system_id e =? EMPTY); [by exists d|]. destruct (is_extended e); [|rewrite u8_small by (unfold is_u8; lia); apply list_add_run; [done|lia]].
  destruct (list_add_run d (info 5 type_e (relative_sector e) e) Hwf) as (d1 & E1 & Ha1); [lia|]. rewrite (ST_bind_Ret _ _ _ _ _ E1).
  pose proof Ha1 as (al & -> & Hwf1 & Hv1). destruct (Hlog eq_refl) as [Hc|(-> & _ & es' & p & n & Ht' & Hp & Hn & Hpe & _)].
  - destruct (logical_loop_run _ _ _ _ Hc (set_list al d) 5 fuel) as (d' & E & Ha); try done.
    + cbn [partitionList set_list]. rewrite Hv1, length_app. simpl. lia.
    + exists d'. split; [exact E|]. by apply (added_trans d (set_list al d) d' [_]).
  - destruct fuel as [|fuel]; [lia|]. cbn [logical_loop numbered]. destruct (read_table (set_list al d) (relative_sector e) es' Hi Ht') as (mbr' & Er & Htab & _).
    rewrite (ST_bind_Ret _ _ _ _ _ Er), (ST_bind_Ret _ _ _ _ _ (table_signature mbr' es' _ Htab)). change (negb (0xaa55 =? 0xaa55)) with false. cbn iota.
    rewrite (ST_bind_Ret _ _ _ _ _ (table_entry mbr' es' 0 p _ Htab Hp)), (ST_bind_Ret _ _ _ _ _ (table_entry mbr' es' 1 n _ Htab Hn)).
    rewrite (proj2 (Z.eqb_eq _ _) Hpe). by eexists.
Qed.

Lemma length_numbered n logs : length (numbered n logs) = length logs.
Proof. revert n. induction logs as [|[s p] logs IH]; intros n; simpl; [done|]. by rewrite IH. Qed.

Lemma length_listed logs i e : (length (listed logs i e) <= S (length logs))%nat.
Proof. unfold listed. destruct (_ =? _); [simpl; lia|]. destruct (is_extended e); simpl; [rewrite length_numbered|]; lia. Qed.

Lemma locked_run {A} (body : ST (StorageDevice D) A) d a d' : partLock d = new_Spinlock ->
  (forall l, exists d1, body (set_partLock l d) = Ret (a, d1) /\ partLock d1 = l /\ set_partLock new_Spinlock d1 = d') ->
  locked body d = Ret (a, d').
Proof.
  intros Hl Hb. destruct (lock_free _ Hl) as (lk & El & Hrel). destruct (Hb lk) as (d1 & E & Hlk & <-). unfold locked. rewrite El. outcome. rewrite E. outcome. by rewrite Hlk, Hrel.
Qed.

Lemma readPartitionTable_run d prims logs fuel : layout (disk d) prims logs -> partLock d = new_Spinlock -> al_wf (partitionList d) ->
  Z.of_nat (length logs) < 2 ^ 28 -> (length logs < fuel)%nat ->
  exists a al, readPartitionTable fuel d = Ret (a, set_list al d) /\ al_wf al /\ array a = listing prims logs.
Proof.
  intros [Hi (mbr & Hs & Ht) Hu Hlog _ _] Hl Hwf Hn Hf. pose proof (tb_entries _ _ Ht) as H4. destruct prims as [|e0 [|e1 [|e2 [|e3 [|? ?]]]]]; try done.
  assert (Hall : forall l, exists d1, list_all fuel (set_partLock l d) = Ret (tt, d1) /\ exists al, d1 = set_list al (set_partLock l d) /\ al_wf al /\ al_view al = listing [e0; e1; e2; e3] logs).
  { intros l. set (d0 := set_list (ArrayList.clear (partitionList d)) (set_partLock l d)).
    assert (Hwf0 : al_wf (partitionList d0)) by (pose proof (al_bounds _ Hwf); apply wf_with_length; [done|lia]).
    assert (Hv0 : al_view (partitionList d0) = []) by done.
    assert (Hstep : forall d' l i e, added d0 d' l -> Z.of_nat (length l + length logs) + 1 < 2 ^ 31 -> [e0; e1; e2; e3] !! i = Some e ->
      exists d'', list_primary fuel mbr (Z.of_nat i) d' = Ret (tt, d'') /\ added d0 d'' (l ++ listed logs (Z.of_nat i) e)).
    { intros d' l' i e Ha Hlen He. pose proof Ha as (al & -> & Hwf' & Hv'). rewrite Hv0, app_nil_l in Hv'.
      destruct (list_primary_run (set_list al d0) mbr [e0; e1; e2; e3] logs i e fuel) as (d'' & E & Ha'); try done.
      - intros Hx. apply Hlog; [|done]. by eapply list_elem_of_lookup_2.
      - cbn [partitionList set_list]. by rewrite Hv'.
      - exists d''. split; [done|]. by apply (added_trans d0 (set_list al d0)). }
    pose proof (length_listed logs (Z.of_nat 0) e0). pose proof (length_listed logs (Z.of_nat 1) e1). pose proof (length_listed logs (Z.of_nat 2) e2).
    destruct (Hstep d0 [] 0%nat e0) as (d1 & E1 & A1); [by exists (partitionList d0)|simpl; lia|done|].
    destruct (Hstep d1 _ 1%nat e1 A1) as (d2 & E2 & A2); [rewrite !length_app; cbn [length]; lia|done|].
    destruct (Hstep d2 _ 2%nat e2 A2) as (d3 & E3 & A3); [rewrite !length_app; cbn [length]; lia|done|].
    destruct (Hstep d3 _ 3%nat e3 A3) as (d4 & E4 & A4); [rewrite !length_app; cbn [length]; lia|done|].
    exists d4. split.
    - assert (E0 : read_sector 0 d0 = Ret (Some mbr, d0)) by (unfold read_sector; by rewrite (st_read_spec _ _ mbr)).
      unfold list_all. rewrite (ST_bind_Ret _ _ _ tt d0 eq_refl), (ST_bind_Ret _ _ _ _ _ E0), (ST_bind_Ret _ _ _ _ _ (table_signature mbr _ d0 Ht)).
      change (negb (0xaa55 =? 0xaa55)) with false. cbn iota. by rewrite (ST_bind_Ret _ _ _ _ _ E1), (ST_bind_Ret _ _ _ _ _ E2), (ST_bind_Ret _ _ _ _ _ E3).
    - destruct A4 as (al & -> & Hwf4 & Hv4). exists al. split_and!; [done|done|]. rewrite Hv4, Hv0. unfold listing. cbn [imap concat]. rewrite app_nil_r, !app_nil_l, <- !app_assoc. done. }
  destruct (lock_free _ Hl) as (lk & El & Hrel). destruct (Hall lk) as (d1 & E1 & al & -> & Hwf1 & Hv1).
  exists (mkArray (al_view al) (al_length al)), al. split; [|split; [done|exact Hv1]]. unfold readPartitionTable. st_step. unfold locked. rewrite El. outcome. rewrite E1. outcome.
  unfold list_array. cbn [partitionList set_partLock set_list partLock]. rewrite (toArray_spec al Hwf1). outcome. rewrite Hrel, <- Hl. by destruct d.
Qed.

(** ** Writing *)

Lemma write_table d s mbr es : st_inv (disk d) -> is_Some (st_sector s (disk d)) -> is_table mbr es -> Z.of_nat (length mbr) = sectorSize (disk d) ->
  exists k, write_sector mbr s d = Ret (true, set_disk k d) /\ st_inv k /\ sectorSize k = sectorSize (disk d) /\ table_at s es k /\
    forall s', s' <> s -> st_sector s' k = st_sector s' (disk d).
Proof.
  intros Hd (m & Hm) Ht Hlen. destruct (st_write_spec (disk d) s m mbr Hd Hm Hlen) as (k & E & Hk & Hsz & Hs). exists k. unfold write_sector. rewrite E. split_and!; [done|done|done| |].
  - exists mbr. by rewrite Hs, decide_True.
  - intros s' Hne. by rewrite Hs, decide_False.
Qed.

Lemma write_same d d0 mbr s k : disk d0 = disk d -> write_sector mbr s d = Ret (true, set_disk k d) -> write_sector mbr s d0 = Ret (true, set_disk k d0).
Proof.
  unfold write_sector. intros ->. destruct (st_write mbr s 1 (disk d)) as [[x|]| | |]; try done. outcome. intros E. by injection E as ->.
Qed.

Lemma write_or_fail_run mbr s d k (next : ST (StorageDevice D) Z) : write_sector mbr s d = Ret (true, set_disk k d) -> write_or_fail mbr s next d = next (set_disk k d).
Proof. intros E. unfold write_or_fail. by rewrite (ST_bind_Ret _ _ _ _ _ E). Qed.

Lemma partition_name_run dev n : 0 <= n < 256 -> exists t, partition_name dev n = Ret t.
Proof.
  intros Hn. unfold partition_name. destruct (digits_run 32 n 10 []) as (ds & E & _); [lia|split; [lia|]; change (10 ^ Z.of_nat 32) with (10 ^ 32); lia|lia|simpl; lia|]. rewrite E. outcome. eauto.
Qed.

(** What the calls change besides the disk: the lock stays taken, and the names change. *)
Definition settled d k d' : Prop := disk d' = k /\ partLock d' = partLock d /\ partitionList d' = partitionList d /\ name d' = name d.

Lemma register_run d start count sid n : 0 <= n < 256 -> exists sv, registerPartition start count sid n d = Ret (tt, set_service sv d).
Proof. intros Hn. unfold registerPartition. destruct (partition_name_run (name d) n Hn) as [t Et]. rewrite Et. outcome. eauto. Qed.

Lemma unregister_run d n : 0 <= n < 256 -> exists sv, unregisterPartition n d = Ret (tt, set_service sv d).
Proof. intros Hn. unfold unregisterPartition. destruct (partition_name_run (name d) n Hn) as [t Et]. rewrite Et. outcome. eauto. Qed.

Lemma new_entry_ok a sid start count : 0 <= start < 2 ^ 32 -> 0 <= count < 2 ^ 32 -> entry_ok (new_entry a sid start count).
Proof. intros. constructor; cbn; lia. Qed.

(** The body of a call runs with the lock taken. *)
Lemma locked_settled (body : ST (StorageDevice D) Z) d code k : partLock d = new_Spinlock ->
  (forall d0, disk d0 = disk d -> name d0 = name d -> exists d1, body d0 = Ret (code, d1) /\ settled d0 k d1) ->
  exists d', locked body d = Ret (code, d') /\ disk d' = k /\ partLock d' = new_Spinlock /\ partitionList d' = partitionList d /\ name d' = name d.
Proof.
  intros Hl Hb. destruct (lock_free _ Hl) as (lk & El & Hrel). destruct (Hb (set_partLock lk d)) as (d1 & E & S1 & S2 & S3 & S4); [done|done|].
  eexists. split; [unfold locked; rewrite El; outcome; rewrite E; outcome; reflexivity|]. cbn. rewrite S2. cbn. split_and!; [done|done|done|done].
Qed.

(** Finds the table at sector 0 and enters it. *)
Lemma writePartition_open d mbr es n a sid start count : 1 <= n -> st_inv (disk d) -> st_sector 0 (disk d) = Some mbr -> is_table mbr es ->
  writePartition n a sid start count d =
  locked (fun d0 => if n <=? 4 then write_primary mbr n a sid start count d0 else write_logical mbr n a sid start count d0) d.
Proof.
  intros Hn Hd Hs Ht. unfold writePartition. decide_bool. unfold locked. destruct (acquire 1 (partLock d)) as [lk| | |]; [|done..]. outcome.
  set (d0 := set_partLock lk d). assert (Er : read_sector 0 d0 = Ret (Some mbr, d0)) by (unfold read_sector; by rewrite (st_read_spec _ _ mbr)).
  rewrite (ST_bind_Ret _ _ _ _ _ Er), (ST_bind_Ret _ _ _ _ _ (table_signature mbr es d0 Ht)). change (negb (0xaa55 =? 0xaa55)) with false. cbn iota.
  by destruct (n <=? 4).
Qed.

Lemma layout_primary k k' prims logs i e : layout k prims logs -> (i < 4)%nat -> st_inv k' -> table_at 0 (<[i := e]> prims) k' ->
  (forall s, s <> 0 -> st_sector s k' = st_sector s k) -> is_extended e = false -> (forall f, prims !! i = Some f -> is_extended f = false) ->
  layout k' (<[i := e]> prims) logs.
Proof.
  intros [Hi Ht Hu Hlog Hno Hsec] Hlt Hk' Ht' Hf He Hold. apply NoDup_cons in Hsec as [H0sec Hnd].
  assert (Hback : forall j f, <[i := e]> prims !! j = Some f -> is_extended f = true -> prims !! j = Some f).
  { intros j f Hj Hx. destruct (decide (i = j)) as [->|Hne]; [|by rewrite list_lookup_insert_ne in Hj].
    apply list_lookup_insert_Some in Hj as [(_ & <- & _)|(? & _)]; congruence. }
  assert (Hlen : length prims = 4%nat) by (by destruct Ht as (m & _ & ?%tb_entries)).
  constructor; try done.
  - intros j l f g Hj Hl Hf' Hg. apply (Hu j l f g); eauto.
  - intros f [j Hj]%list_elem_of_lookup_1 Hx. apply Hback in Hj; [|done]. destruct (Hlog f) as [Hc|(-> & Hne & es & p & n & Htab & Hp)]; [by eapply list_elem_of_lookup_2|done| |].
    + left. apply (chain_frame k); [done|]. intros s' Hs'. apply Hf. by intros ->.
    + right. split_and!; [done|done|]. exists es, p, n. split; [|done]. apply (table_frame _ _ k); [done|]. by apply Hf.
  - intros Hnone. apply Hno. intros f [j Hj]%list_elem_of_lookup_1. destruct (decide (i = j)) as [->|Hne]; [by apply Hold|].
    apply Hnone. apply (list_elem_of_lookup_2 _ j). by rewrite list_lookup_insert_ne.
  - by apply NoDup_cons.
Qed.

Lemma write_primary_run d prims logs i a sid start count : layout (disk d) prims logs -> partLock d = new_Spinlock -> (i < 4)%nat ->
  0 <= start < 2 ^ 32 -> 0 <= count < 2 ^ 32 -> is_extended (new_entry a sid start count) = false -> (forall f, prims !! i = Some f -> is_extended f = false) ->
  exists d', writePartition (Z.of_nat i + 1) a sid start count d = Ret (Code.SUCCESS, d') /\ partLock d' = new_Spinlock /\ partitionList d' = partitionList d /\
    layout (disk d') (<[i := new_entry a sid start count]> prims) logs.
Proof.
  intros Hlay Hl Hi Hs Hc He Hold. pose proof Hlay as [Hd Htab _ _ _ _]. destruct Htab as (mbr & Hmbr & Ht). rewrite (writePartition_open d mbr prims) by (done || lia).
  destruct (table_put mbr prims i (new_entry a sid start count) Ht Hi (new_entry_ok a sid start count Hs Hc)) as (mbr' & Ep & Ht' & Hlen).
  destruct (write_table d 0 mbr' _ Hd (ex_intro _ mbr Hmbr) Ht') as (k & Ew & Hk & _ & Htk & Hfk); [rewrite Hlen; by apply (st_length _ 0)|].
  edestruct (locked_settled (fun d0 => if Z.of_nat i + 1 <=? 4 then write_primary mbr (Z.of_nat i + 1) a sid start count d0 else write_logical mbr (Z.of_nat i + 1) a sid start count d0) d Code.SUCCESS k Hl)
    as (d' & E & Ek & Hl' & Hlist & _).
  - intros d0 Hd0 Hn0. decide_bool. unfold write_primary, init_extended. assert (He' : (sid =? 5) || (sid =? 0xf) = false) by exact He. rewrite He'.
    replace (Z.of_nat i + 1 - 1) with (Z.of_nat i) by lia. rewrite (ST_bind_Ret _ _ _ _ _ (lift_run _ _ d0 Ep)).
    rewrite (write_or_fail_run _ _ _ _ _ (write_same d d0 mbr' 0 k Hd0 Ew)). destruct (register_run (set_disk k d0) start count sid (Z.of_nat i + 1)) as [sv Esv]; [lia|].
    rewrite (ST_bind_Ret _ _ _ _ _ Esv). eexists. split; [done|]. by split_and!.
  - rewrite E. exists d'. split_and!; [done|done|done|]. rewrite Ek. by apply (layout_primary (disk d)).
Qed.

(** ** Logical partitions *)

Lemma find_extended_run mbr prims i e : is_table mbr prims -> prims !! i = Some e -> is_extended e = true ->
  (forall j f, prims !! j = Some f -> is_extended f = true -> i = j) -> find_extended mbr = Ret (Some e).
Proof.
  intros Ht Hi He Hu. pose proof (tb_entries _ _ Ht) as H4. destruct prims as [|e0 [|e1 [|e2 [|e3 [|? ?]]]]]; try done.
  pose proof (tb_get _ _ Ht 0 e0 eq_refl) as G0. pose proof (tb_get _ _ Ht 1 e1 eq_refl) as G1. pose proof (tb_get _ _ Ht 2 e2 eq_refl) as G2. pose proof (tb_get _ _ Ht 3 e3 eq_refl) as G3.
  change (get_entry 0 mbr = Ret e0) in G0. change (get_entry 1 mbr = Ret e1) in G1. change (get_entry 2 mbr = Ret e2) in G2. change (get_entry 3 mbr = Ret e3) in G3.
  unfold find_extended. rewrite G0. outcome.
  destruct (is_extended e0) eqn:X0; [rewrite (Hu 0%nat e0 eq_refl X0) in Hi; by injection Hi as ->|]. rewrite G1. outcome.
  destruct (is_extended e1) eqn:X1; [rewrite (Hu 1%nat e1 eq_refl X1) in Hi; by injection Hi as ->|]. rewrite G2. outcome.
  destruct (is_extended e2) eqn:X2; [rewrite (Hu 2%nat e2 eq_refl X2) in Hi; by injection Hi as ->|]. rewrite G3. outcome.
  destruct (is_extended e3) eqn:X3; [rewrite (Hu 3%nat e3 eq_refl X3) in Hi; by injection Hi as ->|]. exfalso.
  destruct i as [|[|[|[|i]]]]; simpl in Hi; try done; injection Hi as ->; congruence.
Qed.

(** Past the end of the list: the last table, to append behind. *)
Lemma find_place_run base s logs k : chain k base s logs -> forall d i n fuel, disk d = k -> st_inv k -> 0 <= i -> i + Z.of_nat (length logs) <= n -> n < 256 -> (length logs <= fuel)%nat ->
  exists sl p mbr, last logs = Some (sl, p) /\ st_sector sl k = Some mbr /\ find_place fuel base n i s d = Ret (At true (i + Z.of_nat (length logs) - 1) mbr sl, d).
Proof.
  induction 1 as [s es p m Ht Hp Hm Hpe Hme|s es p m logs Ht Hp Hm Hpe Hme Hc IH]; intros d i n fuel Hk Hinv Hi Hn Hn2 Hf; (destruct fuel as [|fuel]; [simpl in Hf; lia|]);
    simpl in Hn, Hf; subst k; destruct (read_table d s es Hinv Ht) as (mbr & Er & Htab & Hs); cbn [find_place];
    rewrite (ST_bind_Ret _ _ _ _ _ Er), (ST_bind_Ret _ _ _ _ _ (table_signature mbr es d Htab)); change (negb (0xaa55 =? 0xaa55)) with false; cbn iota;
    rewrite (ST_bind_Ret _ _ _ _ _ (table_entry mbr es 0 p d Htab Hp)), (ST_bind_Ret _ _ _ _ _ (table_entry mbr es 1 m d Htab Hm));
    apply Z.eqb_neq in Hpe; rewrite Hpe, (proj2 (Z.eqb_neq i n)) by lia; cbn [orb].
  - rewrite (proj2 (Z.eqb_eq _ _) Hme). exists s, p, mbr. split_and!; [done|done|]. by replace (i + Z.of_nat (length [(s, p)]) - 1) with i by (simpl; lia).
  - apply Z.eqb_neq in Hme. rewrite Hme. rewrite u8_small by (unfold is_u8; lia).
    destruct (IH d (i + 1) n fuel) as (sl & q & mbr' & Hl & Hsl & E); try done; try lia.
    exists sl, q, mbr'. destruct (chain_head _ _ _ _ Hc) as (p1 & rest1 & E1). split_and!; [by rewrite E1 in Hl |- *|done|]. rewrite E. by replace (i + Z.of_nat (length ((s, p) :: logs)) - 1) with (i + 1 + Z.of_nat (length logs) - 1) by (simpl; lia).
Qed.

Lemma u32_back base start : 0 <= start < 2 ^ 32 -> u32 (base + u32 (start - base)) = start.
Proof. intros Hs. unfold u32. rewrite Zplus_mod_idemp_r. replace (base + (start - base)) with start by lia. by apply Z.mod_small. Qed.

Lemma layout_logs k k' prims logs logs' i e : layout k prims logs -> prims !! i = Some e -> is_extended e = true -> st_inv k' -> st_sector 0 k' = st_sector 0 k ->
  chain k' (relative_sector e) (relative_sector e) logs' -> NoDup (0 :: logs'.*1) -> layout k' prims logs'.
Proof.
  intros [Hi Ht Hu Hlog Hno Hsec] Hi' He Hk' H0' Hc Hnd. constructor; try done.
  - by apply (table_frame 0 prims k).
  - intros f [j Hj]%list_elem_of_lookup_1 Hf. pose proof (Hu i j e f Hi' Hj He Hf) as ->. rewrite Hi' in Hj. injection Hj as ->. by left.
  - intros Hnone. rewrite (Hnone e) in He; [done|]. by eapply list_elem_of_lookup_2.
Qed.

(** The table of a logical partition that is appended. *)
Lemma new_table_run n a sid count : 512 <= Z.of_nat n -> 0 <= count < 2 ^ 32 ->
  exists mbr0 mbr, put_entry 0 (new_entry a sid 1 count) (replicate n 0) = Ret mbr0 /\ put_signature mbr0 = Ret mbr /\ length mbr = n /\
    is_table mbr [new_entry a sid 1 count; no_entry; no_entry; no_entry].
Proof.
  intros Hn Hc. destruct (blank_table n Hn) as (blank & _ & Hblank & _). set (e := new_entry a sid 1 count). assert (He : entry_ok e) by (constructor; cbn; lia).
  destruct (put_bytes_run (entry_offset 0) (encode e) (replicate n 0)) as (mbr0 & E0 & Hl0 & Hb0 & Ho0); [by vm_compute|rewrite length_encode, length_replicate; unfold entry_offset, PARTITON_TABLE_START; lia|].
  rewrite length_encode, length_replicate in *. unfold entry_offset, PARTITON_TABLE_START in *. change (Z.of_nat 16) with 16 in *.
  destruct (put_bytes_run 510 (le_bytes 2 0xaa55) mbr0) as (mbr & E1 & Hl1 & Hb1 & Ho1); [lia|simpl; lia|]. change (Z.of_nat (length (le_bytes 2 0xaa55))) with 2 in *.
  exists mbr0, mbr. split_and!; [exact E0|exact E1|by rewrite Hl1, Hl0|]. constructor.
  - lia.
  - done.
  - unfold get_signature. by rewrite Hb1.
  - intros k f Hk. unfold get_entry, entry_offset, PARTITON_TABLE_START. pose proof (lookup_lt_Some _ _ _ Hk) as Hlt. cbn [length] in Hlt. rewrite Ho1 by lia. destruct k as [|k].
    + injection Hk as <-. change (0x1be + 0x10 * Z.of_nat 0) with (0x1be + 0x10 * 0). rewrite Hb0. outcome. by rewrite decode_encode.
    + rewrite Ho0 by lia. rewrite bytes_at_in by (rewrite length_replicate; lia). rewrite drop_replicate, take_replicate. outcome.
      replace (Z.to_nat 16 `min` _)%nat with 16%nat by lia. assert (f = no_entry) as -> by (destruct k as [|[|[|k]]]; [simpl in Hk; congruence..|lia]). done.
  - repeat (constructor; [try done; repeat constructor; cbn; lia|]). constructor.
Qed.

Lemma append_run d prims logs i e n a sid start count : layout (disk d) prims logs -> partLock d = new_Spinlock -> prims !! i = Some e -> is_extended e = true ->
  logs <> [] -> 5 + Z.of_nat (length logs) <= n < 256 -> 0 <= start < 2 ^ 32 -> 0 <= count < 2 ^ 32 -> sid <> EMPTY -> start ∉ 0 :: logs.*1 -> is_Some (st_sector start (disk d)) ->
  exists d', writePartition n a sid start count d = Ret (Code.SUCCESS, d') /\ partLock d' = new_Spinlock /\ partitionList d' = partitionList d /\
    layout (disk d') prims (logs ++ [(start, new_entry a sid 1 (u32 (count - 1)))]).
Proof.
  intros Hlay Hl Hi He Hne Hn Hst Hct Hsid Hfresh Hsec. pose proof Hlay as [Hd (mbr & Hmbr & Ht) Hu Hlog _ Hnd]. rewrite (writePartition_open d mbr prims) by (done || lia).
  set (base := relative_sector e). destruct (Hlog e) as [Hc|(-> & _)]; [by eapply list_elem_of_lookup_2|done| |done].
  destruct (chain_extend _ _ _ _ Hc) as (sl & p & es & Hlast & (mbl & Hmbl & Htl) & Hp & Hext). pose proof (u32_range (count - 1)) as Hc1. pose proof (u32_range (start - base)) as Hr1.
  set (ptr := mkEntry (if a then 0x80 else 0) 0 0 EXTENDED_PARTITION_LBA 0 0 (u32 (start - base)) count).
  assert (Hptr : entry_ok ptr) by (constructor; cbn; unfold is_u32 in *; lia).
  destruct (table_put mbl es 1 ptr Htl ltac:(lia) Hptr) as (mbl' & Ep & Htl' & Hlen1).
  assert (Hin : sl ∈ logs.*1) by (apply list_elem_of_fmap; exists (sl, p); split; [done|by apply last_Some_elem_of]). apply NoDup_cons in Hnd as [H0n Hnd]. apply not_elem_of_cons in Hfresh as [Hs0 Hsn].
  destruct (write_table d sl mbl' _ Hd (ex_intro _ mbl Hmbl) Htl') as (k1 & Ew1 & Hk1 & Hsz1 & Htk1 & Hf1); [rewrite Hlen1; by apply (st_length _ sl)|].
  pose proof (st_size _ Hd) as Hsz. destruct (new_table_run (Z.to_nat (sectorSize (disk d))) a sid (u32 (count - 1))) as (m0 & m1 & En0 & En1 & Hlm & Htm); [lia|done|].
  destruct (write_table (set_disk k1 d) start m1 [new_entry a sid 1 (u32 (count - 1)); no_entry; no_entry; no_entry] Hk1) as (k2 & Ew2 & Hk2 & _ & Htk2 & Hf2);
    [cbn; rewrite Hf1; [done|by intros ->]|done|cbn; rewrite Hlm; lia|].
  edestruct (locked_settled (fun d0 => if n <=? 4 then write_primary mbr n a sid start count d0 else write_logical mbr n a sid start count d0) d Code.SUCCESS k2 Hl)
    as (d' & E & Ek & Hl' & Hlist & _).
  - intros d0 Hd0 _. rewrite (proj2 (Z.leb_gt n 4)) by lia. unfold write_logical.
    rewrite (ST_bind_Ret _ _ _ _ _ (lift_run _ _ d0 (find_extended_run mbr prims i e Ht Hi He (fun j f Hj Hf => Hu i j e f Hi Hj He Hf)))). fold base.
    destruct (find_place_run base base logs (disk d) Hc d0 5 n 256) as (sl' & p' & mb & Hl2 & Hmb & Efp); [done|done|lia|lia|lia|lia|].
    rewrite Hlast in Hl2. injection Hl2 as <- <-. rewrite Hmbl in Hmb. injection Hmb as <-. rewrite (ST_bind_Ret _ _ _ _ _ Efp).
    unfold append_logical. rewrite (ST_bind_Ret _ _ _ _ _ (lift_run _ _ d0 Ep)), (write_or_fail_run _ _ _ _ _ (write_same d d0 _ _ k1 Hd0 Ew1)).
    assert (Ez : zeros (set_disk k1 d0) = Ret (replicate (Z.to_nat (sectorSize (disk d))) 0, set_disk k1 d0)) by (unfold zeros, gets; cbn [disk set_disk]; by rewrite Hsz1).
    rewrite (ST_bind_Ret _ _ _ _ _ Ez), (ST_bind_Ret _ _ _ _ _ (lift_run _ _ _ En0)), (ST_bind_Ret _ _ _ _ _ (lift_run _ _ _ En1)).
    rewrite (write_or_fail_run _ _ _ _ _ (write_same (set_disk k1 d) (set_disk k1 d0) _ _ k2 eq_refl Ew2)).
    destruct (register_run (set_disk k2 (set_disk k1 d0)) start count sid (5 + Z.of_nat (length logs) - 1)) as [sv Esv]; [lia|].
    rewrite (ST_bind_Ret _ _ _ _ _ Esv). eexists. split; [done|]. by split_and!.
  - rewrite E. exists d'. split_and!; [done|done|done|]. rewrite Ek. apply (layout_logs (disk d) k2 prims logs _ i e); try done.
    + rewrite Hf2 by done. cbn. apply Hf1. intros <-. done.
    + fold base. apply (Hext k2 ptr); [done| | |done|].
      * intros s' Hs' Hsl. rewrite Hf2 by (by intros ->). cbn. by apply Hf1.
      * apply (table_frame _ _ k1); [done|]. apply Hf2. by intros ->.
      * cbn [relative_sector ptr]. rewrite u32_back by done. by apply (chain_last _ _ _ _ _ no_entry Htk2).
    + rewrite fmap_app. cbn. rewrite app_comm_cons. apply NoDup_app. split_and!; [by apply NoDup_cons| |apply NoDup_singleton].
      intros x Hx ->%list_elem_of_singleton. apply elem_of_cons in Hx as [->|Hx]; done.
Qed.

(** The partition with number [n], and the sector of the table before it. *)
Lemma find_victim_run base s logs k : chain k base s logs -> forall d t i before fuel, disk d = k -> st_inv k -> 0 <= i -> i + Z.of_nat t < 256 -> (t < length logs)%nat -> (t < fuel)%nat ->
  exists sv pv mbr es nx, logs !! t = Some (sv, pv) /\ st_sector sv k = Some mbr /\ is_table mbr es /\ es !! 1%nat = Some nx /\
    find_victim fuel base (i + Z.of_nat t) i before s d = Ret (Victim (match t with O => before | S t => default 0 (fst <$> logs !! t) end) mbr sv nx, d).
Proof.
  induction 1 as [s es p m Ht Hp Hm Hpe Hme|s es p m logs Ht Hp Hm Hpe Hme Hc IH]; intros d t i before fuel Hk Hinv Hi Hn Hlt Hf; (destruct fuel as [|fuel]; [lia|]);
    subst k; destruct (read_table d s es Hinv Ht) as (mbr & Er & Htab & Hs); cbn [find_victim];
    rewrite (ST_bind_Ret _ _ _ _ _ Er), (ST_bind_Ret _ _ _ _ _ (table_signature mbr es d Htab)); change (negb (0xaa55 =? 0xaa55)) with false; cbn iota;
    rewrite (ST_bind_Ret _ _ _ _ _ (table_entry mbr es 0 p d Htab Hp)), (ST_bind_Ret _ _ _ _ _ (table_entry mbr es 1 m d Htab Hm));
    apply Z.eqb_neq in Hpe; rewrite Hpe.
  - destruct t as [|t]; [|simpl in Hlt; lia]. rewrite (proj2 (Z.eqb_eq _ _) Hme). cbn [orb]. rewrite (proj2 (Z.ltb_ge _ _)) by lia. by exists s, p, mbr, es, m.
  - apply Z.eqb_neq in Hme. rewrite Hme. cbn [orb]. destruct t as [|t].
    + rewrite (proj2 (Z.eqb_eq i _)), (proj2 (Z.ltb_ge _ _)) by lia. by exists s, p, mbr, es, m.
    + rewrite (proj2 (Z.eqb_neq i _)), u8_small by (unfold is_u8; lia). simpl in Hlt.
      destruct (IH d t (i + 1) s fuel) as (sv & pv & mb & ev & nx & E1 & E2 & E3 & E4 & E5); try done; try lia.
      exists sv, pv, mb, ev, nx. split_and!; try done. replace (i + Z.of_nat (S t)) with (i + 1 + Z.of_nat t) by lia. rewrite E5.
      destruct t as [|t]; [done|]. done.
Qed.

Lemma deletePartition_open d mbr prims i e n children : 5 < n -> st_inv (disk d) -> st_sector 0 (disk d) = Some mbr -> is_table mbr prims -> prims !! i = Some e -> is_extended e = true ->
  (forall j f, prims !! j = Some f -> is_extended f = true -> i = j) ->
  deletePartition children n d = locked (v ← find_victim 256 (relative_sector e) n 5 0 (relative_sector e);
    match v with Missing code => mret code | Victim last currentMbr sector next => unlink n last currentMbr sector next end) d.
Proof.
  intros Hn Hd Hs Ht Hi He Hu. unfold deletePartition. decide_bool. unfold locked. destruct (acquire 1 (partLock d)) as [lk| | |]; [|done..]. outcome.
  set (d0 := set_partLock lk d). assert (Er : read_sector 0 d0 = Ret (Some mbr, d0)) by (unfold read_sector; by rewrite (st_read_spec _ _ mbr)).
  by rewrite (ST_bind_Ret _ _ _ _ _ Er), (ST_bind_Ret _ _ _ _ _ (lift_run _ _ d0 (find_extended_run mbr prims i e Ht Hi He Hu))).
Qed.

Lemma delete_run d prims logs i e j children : layout (disk d) prims logs -> partLock d = new_Spinlock -> prims !! i = Some e -> is_extended e = true ->
  (S j < length logs)%nat -> Z.of_nat j < 250 ->
  exists d', deletePartition children (6 + Z.of_nat j) d = Ret (Code.SUCCESS, d') /\ partLock d' = new_Spinlock /\ partitionList d' = partitionList d /\
    layout (disk d') prims (base.delete (S j) logs).
Proof.
  intros Hlay Hl Hi He Hj Hj2. pose proof Hlay as [Hd (mbr & Hmbr & Ht) Hu Hlog _ Hnd].
  rewrite (deletePartition_open d mbr prims i e (6 + Z.of_nat j)) by (done || lia || (intros; by eapply Hu)). set (base := relative_sector e).
  destruct (Hlog e) as [Hc|(-> & _)]; [by eapply list_elem_of_lookup_2|done| |simpl in Hj; lia]. fold base in Hc. apply NoDup_cons in Hnd as [H0n Hnd].
  destruct (chain_remove _ _ _ _ j Hc Hj) as (sp & pp & sv & pv & ep & ev & nx & Ejp & Ejv & (mbp & Hmbp & Htp) & (mbv & Hmbv & Htv) & Hnx & Hrem).
  assert (Hne : sp <> sv).
  { intros ->. assert (Ha : logs.*1 !! j = Some sv) by (by rewrite list_lookup_fmap, Ejp). assert (Hb : logs.*1 !! S j = Some sv) by (by rewrite list_lookup_fmap, Ejv).
    pose proof (NoDup_lookup _ _ _ _ Hnd Ha Hb). lia. }
  assert (Hsp : sp ∈ logs.*1) by (apply list_elem_of_fmap; exists (sp, pp); split; [done|by eapply list_elem_of_lookup_2]).
  assert (Hsv : sv ∈ logs.*1) by (apply list_elem_of_fmap; exists (sv, pv); split; [done|by eapply list_elem_of_lookup_2]).
  assert (Hno : entry_ok no_entry) by (constructor; cbn; lia). assert (Hnxok : entry_ok nx) by (by apply (Forall_lookup_1 _ _ 1 _ (tb_ok _ _ Htv))).
  destruct (table_put mbv ev 0 no_entry Htv ltac:(lia) Hno) as (v1 & Ev1 & Htv1 & Hlv1). destruct (table_put v1 _ 1 no_entry Htv1 ltac:(lia) Hno) as (v2 & Ev2 & Htv2 & Hlv2).
  destruct (table_put mbp ep 1 nx Htp ltac:(lia) Hnxok) as (p1 & Ep1 & Htp1 & Hlp1).
  destruct (write_table d sv v2 _ Hd (ex_intro _ mbv Hmbv) Htv2) as (k1 & Ew1 & Hk1 & Hsz1 & Htk1 & Hf1); [rewrite Hlv2, Hlv1; by apply (st_length _ sv)|].
  destruct (write_table (set_disk k1 d) sp p1 (<[1%nat := nx]> ep) Hk1) as (k2 & Ew2 & Hk2 & _ & Htk2 & Hf2);
    [cbn; rewrite Hf1 by done; eauto|done|cbn; rewrite Hlp1, Hsz1; by apply (st_length _ sp)|].
  edestruct (locked_settled (v ← find_victim 256 base (6 + Z.of_nat j) 5 0 base;
    match v with Missing code => mret code | Victim last currentMbr sector next => unlink (6 + Z.of_nat j) last currentMbr sector next end) d Code.SUCCESS k2 Hl)
    as (d' & E & Ek & Hl' & Hlist & _).
  - intros d0 Hd0 _. destruct (find_victim_run base base logs (disk d) Hc d0 (S j) 5 0 256) as (sv' & pv' & mb & es' & nx' & F1 & F2 & F3 & F4 & F5); try done; try lia.
    rewrite Ejv in F1. injection F1 as <- <-. rewrite Hmbv in F2. injection F2 as <-.
    assert (nx' = nx) as ->. { pose proof (tb_get _ _ F3 1 nx' F4) as G1. pose proof (tb_get _ _ Htv 1 nx Hnx) as G2. rewrite G1 in G2. by injection G2. }
    replace (5 + Z.of_nat (S j)) with (6 + Z.of_nat j) in F5 by lia. rewrite Ejp in F5. cbn [fst fmap option_fmap option_map default] in F5. rewrite (ST_bind_Ret _ _ _ _ _ F5).
    unfold unlink. assert (Er : read_sector sp d0 = Ret (Some mbp, d0)) by (unfold read_sector; rewrite Hd0; by rewrite (st_read_spec _ _ mbp)).
    rewrite (ST_bind_Ret _ _ _ _ _ Er), (ST_bind_Ret _ _ _ _ _ (lift_run _ _ d0 Ev1)), (ST_bind_Ret _ _ _ _ _ (lift_run _ _ d0 Ev2)), (ST_bind_Ret _ _ _ _ _ (lift_run _ _ d0 Ep1)).
    rewrite (write_or_fail_run _ _ _ _ _ (write_same d d0 _ _ k1 Hd0 Ew1)), (write_or_fail_run _ _ _ _ _ (write_same (set_disk k1 d) (set_disk k1 d0) _ _ k2 eq_refl Ew2)).
    destruct (unregister_run (set_disk k2 (set_disk k1 d0)) (6 + Z.of_nat j)) as [sv1 Esv]; [lia|]. rewrite (ST_bind_Ret _ _ _ _ _ Esv). eexists. split; [done|]. by split_and!.
  - rewrite E. exists d'. split_and!; [done|done|done|]. rewrite Ek. apply (layout_logs (disk d) k2 prims logs _ i e); try done.
    + rewrite Hf2 by (by intros <-). cbn. apply Hf1. by intros <-.
    + apply (Hrem k2); [done| |done]. intros s' Hs' H1' H2'. rewrite Hf2 by done. cbn. by apply Hf1.
    + eapply sublist_NoDup; [|apply sublist_skip, fmap_sublist, sublist_delete]. by apply NoDup_cons.
Qed.

(** ** From an empty disk *)

(** The name space is left alone but for names that begin with that of the device. *)
Lemma remove_all_run children : forall d, exists sv, remove_children false children d = Ret (tt, set_service sv d).
Proof.
  intros d. unfold remove_children. assert (Hf : exists sv, foldM (remove_child false) children d = Ret (set_service sv d)).
  { revert d. induction children as [|c children IH]; intros d; [exists (service d); by destruct d|]. cbn [foldM].
    assert (Hc : exists s1, remove_child false c d = Ret (set_service s1 d)).
    { unfold remove_child. case_bool_decide; [by eexists|]. exists (service d). by destruct d. }
    destruct Hc as [s1 Ec]. rewrite Ec. outcome. destruct (IH (set_service s1 d)) as [sv E]. exists sv. by rewrite E. }
  destruct Hf as [sv E]. exists sv. by rewrite E.
Qed.

Lemma create_table_run n : 512 <= n -> exists m0 mbr, put_bytes 0 (replicate 510 0) (fresh_slots n) = Ret m0 /\ put_signature m0 = Ret mbr /\ Z.of_nat (length mbr) = n /\ is_table mbr (replicate 4 no_entry).
Proof.
  intros Hn. assert (Hlen : length (fresh_slots n : list Z) = Z.to_nat n) by (unfold fresh_slots; by rewrite length_fmap, length_seq).
  destruct (put_bytes_run 0 (replicate 510 0) (fresh_slots n)) as (m0 & E0 & Hl0 & Hb0 & _); [lia|rewrite length_replicate, Hlen; lia|]. rewrite length_replicate in Hb0.
  destruct (put_bytes_run 510 (le_bytes 2 0xaa55) m0) as (mbr & E1 & Hl1 & Hb1 & Ho1); [lia|simpl; lia|]. change (Z.of_nat (length (le_bytes 2 0xaa55))) with 2 in *.
  exists m0, mbr. split_and!; [exact E0|exact E1|lia|]. constructor; [lia|done| | |repeat constructor; cbn; lia].
  - unfold get_signature. by rewrite Hb1.
  - intros k e Hk. apply lookup_replicate in Hk as [-> Hk]. unfold get_entry, entry_offset, PARTITON_TABLE_START. rewrite Ho1 by lia. rewrite bytes_at_in by lia. outcome. f_equal.
    rewrite bytes_at_in in Hb0 by lia. apply (f_equal (fun x => match x with Ret l => l | _ => [] end)) in Hb0. cbv beta iota in Hb0. change (Z.to_nat 0) with 0%nat in Hb0. rewrite drop_0 in Hb0.
    assert (E : take (Z.to_nat 16) (drop (Z.to_nat (0x1be + 0x10 * Z.of_nat k)) m0) = replicate 16 0); [|by rewrite E].
    assert (E2 : take (Z.to_nat 16) (drop (Z.to_nat (0x1be + 0x10 * Z.of_nat k)) m0) = take (Z.to_nat 16) (drop (Z.to_nat (0x1be + 0x10 * Z.of_nat k)) (take (Z.to_nat (Z.of_nat 510)) m0))).
    { rewrite skipn_firstn_comm, take_take. f_equal. lia. }
    rewrite E2, Hb0, drop_replicate, take_replicate. f_equal. lia.
Qed.

Lemma create_run d children : st_inv (disk d) -> is_Some (st_sector 0 (disk d)) -> partLock d = new_Spinlock ->
  exists d', createPartitionTable children d = Ret (Code.SUCCESS, d') /\ partLock d' = new_Spinlock /\ partitionList d' = partitionList d /\
    layout (disk d') (replicate 4 no_entry) [] /\ forall s, s <> 0 -> st_sector s (disk d') = st_sector s (disk d).
Proof.
  intros Hd Hs Hl. destruct (create_table_run (sectorSize (disk d)) (st_size _ Hd)) as (m0 & mbr & E0 & E1 & Hlen & Ht).
  destruct (write_table d 0 mbr _ Hd Hs Ht Hlen) as (k & Ew & Hk & _ & Htk & Hf).
  destruct (locked_settled (size ← gets (fun d => sectorSize (disk d)); mbr ← lift (put_bytes 0 (replicate 510 0) (fresh_slots size)); mbr ← lift (put_signature mbr);
    write_or_fail mbr 0 (_ ← remove_children false children; mret Code.SUCCESS)) d Code.SUCCESS k Hl) as (d' & E & Ek & Hl' & Hlist & _).
  - intros d0 Hd0 _. rewrite (ST_bind_Ret _ _ _ _ _ (eq_refl : gets _ d0 = Ret (sectorSize (disk d0), d0))), Hd0.
    rewrite (ST_bind_Ret _ _ _ _ _ (lift_run _ _ d0 E0)), (ST_bind_Ret _ _ _ _ _ (lift_run _ _ d0 E1)), (write_or_fail_run _ _ _ _ _ (write_same d d0 mbr 0 k Hd0 Ew)).
    destruct (remove_all_run children (set_disk k d0)) as [sv Esv]. rewrite (ST_bind_Ret _ _ _ _ _ Esv). eexists. split; [done|]. by split_and!.
  - exists d'. split_and!; [exact E|done|done| |by rewrite Ek]. rewrite Ek. assert (Hno : forall e, e ∈ replicate 4 no_entry -> e = no_entry) by (intros e He; by apply elem_of_replicate in He as [-> _]).
    constructor; try done.
    + intros i j e f Hi. apply list_elem_of_lookup_2, Hno in Hi as ->. done.
    + intros e ->%Hno. done.
    + apply NoDup_singleton.
Qed.

(** An extended partition on a disk that has none. *)
Lemma write_extended_run d prims i a sid start count : layout (disk d) prims [] -> (forall e, e ∈ prims -> is_extended e = false) -> partLock d = new_Spinlock -> (i < 4)%nat ->
  0 < start < 2 ^ 32 -> 0 <= count < 2 ^ 32 -> is_extended (new_entry a sid start count) = true -> is_Some (st_sector start (disk d)) ->
  exists d', writePartition (Z.of_nat i + 1) a sid start count d = Ret (Code.SUCCESS, d') /\ partLock d' = new_Spinlock /\ partitionList d' = partitionList d /\
    layout (disk d') (<[i := new_entry a sid start count]> prims) [] /\ forall s, s <> 0 -> s <> start -> st_sector s (disk d') = st_sector s (disk d).
Proof.
  intros Hlay Hnone Hl Hi Hs Hc He Hsec. pose proof Hlay as [Hd (mbr & Hmbr & Ht) _ _ _ _]. rewrite (writePartition_open d mbr prims) by (done || lia). set (e := new_entry a sid start count) in *.
  pose proof (st_size _ Hd) as Hsz. destruct (blank_table (Z.to_nat (sectorSize (disk d)))) as (b & Eb & Htb & Hlb); [lia|].
  destruct (write_table d start b _ Hd Hsec Htb) as (k1 & Ew1 & Hk1 & Hsz1 & Htk1 & Hf1); [lia|].
  destruct (table_put mbr prims i e Ht Hi) as (mbr' & Ep & Ht' & Hlen); [constructor; cbn; lia|].
  destruct (write_table (set_disk k1 d) 0 mbr' (<[i := e]> prims) Hk1) as (k2 & Ew2 & Hk2 & _ & Htk2 & Hf2);
    [cbn; rewrite Hf1 by lia; eauto|done|cbn; rewrite Hlen, Hsz1; by apply (st_length _ 0)|].
  edestruct (locked_settled (fun d0 => if Z.of_nat i + 1 <=? 4 then write_primary mbr (Z.of_nat i + 1) a sid start count d0 else write_logical mbr (Z.of_nat i + 1) a sid start count d0) d Code.SUCCESS k2 Hl)
    as (d' & E & Ek & Hl' & Hlist & _).
  - intros d0 Hd0 Hn0. decide_bool. unfold write_primary, init_extended. assert (He' : (sid =? 5) || (sid =? 0xf) = true) by exact He. rewrite He'.
    assert (Ez : zeros d0 = Ret (replicate (Z.to_nat (sectorSize (disk d))) 0, d0)) by (unfold zeros, gets; by rewrite Hd0).
    rewrite (ST_bind_Ret _ _ _ _ _ Ez), (ST_bind_Ret _ _ _ _ _ (lift_run _ _ d0 Eb)), (write_or_fail_run _ _ _ _ _ (write_same d d0 _ _ k1 Hd0 Ew1)).
    replace (Z.of_nat i + 1 - 1) with (Z.of_nat i) by lia. rewrite (ST_bind_Ret _ _ _ _ _ (lift_run _ _ (set_disk k1 d0) Ep)).
    rewrite (write_or_fail_run _ _ _ _ _ (write_same (set_disk k1 d) (set_disk k1 d0) _ _ k2 eq_refl Ew2)).
    destruct (register_run (set_disk k2 (set_disk k1 d0)) start count sid (Z.of_nat i + 1)) as [sv Esv]; [lia|].
    rewrite (ST_bind_Ret _ _ _ _ _ Esv). eexists. split; [done|]. by split_and!.
  - rewrite E. exists d'. split_and!; [done|done|done| |intros s H0s H1s; rewrite Ek, Hf2 by done; by apply Hf1]. rewrite Ek.
    pose proof (tb_entries _ _ Ht) as H4. assert (Hx : forall j f, <[i := e]> prims !! j = Some f -> is_extended f = true -> j = i /\ f = e).
    { intros j f Hj Hf. apply list_lookup_insert_Some in Hj as [(-> & -> & _)|(Hne & Hj)]; [done|]. rewrite Hnone in Hf; [done|]. by eapply list_elem_of_lookup_2. }
    constructor; try done.
    + intros j l f g Hj Hl1 Hf Hg. destruct (Hx _ _ Hj Hf) as [-> _], (Hx _ _ Hl1 Hg) as [-> _]. done.
    + intros f [j Hj]%list_elem_of_lookup_1 Hf. destruct (Hx _ _ Hj Hf) as [_ ->]. right. split_and!; [done|cbn; lia|]. exists (replicate 4 no_entry), no_entry, no_entry.
      split_and!; try done. apply (table_frame _ _ k1); [done|]. apply Hf2. cbn. lia.
    + apply NoDup_singleton.
Qed.

(** The first logical partition takes the empty table; where it starts is not asked for. *)
Lemma first_logical_run d prims i e n a sid start count : layout (disk d) prims [] -> partLock d = new_Spinlock -> prims !! i = Some e -> is_extended e = true ->
  5 <= n < 256 -> 0 <= count < 2 ^ 32 -> sid <> EMPTY ->
  exists d' p, writePartition n a sid start count d = Ret (Code.SUCCESS, d') /\ partLock d' = new_Spinlock /\ partitionList d' = partitionList d /\
    layout (disk d') prims [(relative_sector e, p)] /\ system_id p = sid /\ sector_count p = count /\ active_flag p = (if a then 0x80 else 0) /\
    forall s, s <> relative_sector e -> st_sector s (disk d') = st_sector s (disk d).
Proof.
  intros Hlay Hl Hi He Hn Hct Hsid. pose proof Hlay as [Hd (mbr & Hmbr & Ht) Hu Hlog _ _]. rewrite (writePartition_open d mbr prims) by (done || lia). set (base := relative_sector e).
  destruct (Hlog e) as [Hc|(_ & Hb0 & es & q & m & (mb & Hmb & Htb) & Hq & Hm & Hqe & Hme)]; [by eapply list_elem_of_lookup_2|done|by destruct (chain_head _ _ _ _ Hc) as (? & ? & ?)|]. fold base in Hb0, Hmb.
  assert (Hqok : entry_ok q) by (by apply (Forall_lookup_1 _ _ 0 _ (tb_ok _ _ Htb))).
  set (p := mkEntry (if a then 0x80 else 0) (start_head q) (start_sector_cylinder q) sid (end_head q) (end_sector_cylinder q) (if relative_sector q =? 0 then 1 else relative_sector q) count).
  assert (Hpok : entry_ok p) by (destruct Hqok; constructor; cbn; try done; destruct (_ =? _); lia).
  destruct (table_put mb es 0 p Htb ltac:(lia) Hpok) as (mb' & Ep & Htb' & Hlen).
  destruct (write_table d base mb' _ Hd (ex_intro _ mb Hmb) Htb') as (k & Ew & Hk & _ & Htk & Hf); [rewrite Hlen; by apply (st_length _ base)|].
  edestruct (locked_settled (fun d0 => if n <=? 4 then write_primary mbr n a sid start count d0 else write_logical mbr n a sid start count d0) d Code.SUCCESS k Hl)
    as (d' & E & Ek & Hl' & Hlist & _).
  - intros d0 Hd0 _. rewrite (proj2 (Z.leb_gt n 4)) by lia. unfold write_logical.
    rewrite (ST_bind_Ret _ _ _ _ _ (lift_run _ _ d0 (find_extended_run mbr prims i e Ht Hi He (fun j f Hj Hf => Hu i j e f Hi Hj He Hf)))). fold base.
    assert (Efp : find_place 256 base n 5 base d0 = Ret (At false 5 mb base, d0)).
    { cbn [find_place]. assert (Er : read_sector base d0 = Ret (Some mb, d0)) by (unfold read_sector; rewrite Hd0; by rewrite (st_read_spec _ _ mb)).
      rewrite (ST_bind_Ret _ _ _ _ _ Er), (ST_bind_Ret _ _ _ _ _ (table_signature mb es d0 Htb)). change (negb (0xaa55 =? 0xaa55)) with false. cbn iota.
      rewrite (ST_bind_Ret _ _ _ _ _ (table_entry mb es 0 q d0 Htb Hq)), (ST_bind_Ret _ _ _ _ _ (table_entry mb es 1 m d0 Htb Hm)). by rewrite (proj2 (Z.eqb_eq _ _) Hqe). }
    rewrite (ST_bind_Ret _ _ _ _ _ Efp). unfold edit_logical. rewrite (ST_bind_Ret _ _ _ _ _ (table_entry mb es 0 q d0 Htb Hq)), (ST_bind_Ret _ _ _ _ _ (lift_run _ _ d0 Ep)).
    rewrite (write_or_fail_run _ _ _ _ _ (write_same d d0 _ _ k Hd0 Ew)). destruct (register_run (set_disk k d0) start count sid 5) as [sv Esv]; [lia|].
    rewrite (ST_bind_Ret _ _ _ _ _ Esv). eexists. split; [done|]. by split_and!.
  - rewrite E. exists d', p. split_and!; try done; [|by rewrite Ek]. rewrite Ek. apply (layout_logs (disk d) k prims [] _ i e); try done.
    + by apply Hf.
    + apply (chain_last _ _ _ _ p m Htk); try done; [by destruct es|by destruct es].
    + apply NoDup_cons. split; [|apply NoDup_singleton]. intros Hx%list_elem_of_singleton. done.
Qed.

Lemma delete_primary_run d prims logs i children : layout (disk d) prims logs -> partLock d = new_Spinlock -> (i < 4)%nat -> (forall f, prims !! i = Some f -> is_extended f = false) ->
  exists d', deletePartition children (Z.of_nat i + 1) d = Ret (Code.SUCCESS, d') /\ partLock d' = new_Spinlock /\ partitionList d' = partitionList d /\
    layout (disk d') (<[i := no_entry]> prims) logs.
Proof.
  intros Hlay Hl Hi Hold. pose proof Hlay as [Hd Htab _ _ _ _]. destruct Htab as (mbr & Hmbr & Ht). pose proof (tb_entries _ _ Ht) as H4.
  assert (Hf0 : exists f, prims !! i = Some f) by (apply lookup_lt_is_Some_ex; lia). destruct Hf0 as [f Hf0].
  destruct (table_put mbr prims i no_entry Ht Hi) as (mbr' & Ep & Ht' & Hlen); [constructor; cbn; lia|].
  destruct (write_table d 0 mbr' _ Hd (ex_intro _ mbr Hmbr) Ht') as (k & Ew & Hk & _ & Htk & Hfk); [rewrite Hlen; by apply (st_length _ 0)|].
  unfold deletePartition. decide_bool. edestruct (locked_settled (r ← read_sector 0; match r with None => mret Code.WRITE_SECTOR_FAILED | Some mbr => delete_primary children mbr (Z.of_nat i + 1) end) d Code.SUCCESS k Hl)
    as (d' & E & Ek & Hl' & Hlist & _).
  - intros d0 Hd0 _. assert (Er : read_sector 0 d0 = Ret (Some mbr, d0)) by (unfold read_sector; rewrite Hd0; by rewrite (st_read_spec _ _ mbr)).
    rewrite (ST_bind_Ret _ _ _ _ _ Er). unfold delete_primary. replace (Z.of_nat i + 1 - 1) with (Z.of_nat i) by lia.
    rewrite (ST_bind_Ret _ _ _ _ _ (table_entry mbr prims i f d0 Ht Hf0)), (ST_bind_Ret _ _ _ _ _ (lift_run _ _ d0 Ep)), (write_or_fail_run _ _ _ _ _ (write_same d d0 _ _ k Hd0 Ew)).
    destruct (unregister_run (set_disk k d0) (Z.of_nat i + 1)) as [sv Esv]; [lia|]. rewrite (ST_bind_Ret _ _ _ _ _ Esv), (Hold f Hf0). eexists. split; [done|]. by split_and!.
  - exists d'. split_and!; [|done|done|rewrite Ek; by apply (layout_primary (disk d))]. rewrite <- E. reflexivity.
Qed.
End Runs.

(** ** Claims *)

Section Claims.
Context {D : Type} `{StorageSpec D} `{Junk Z} `{Junk PartitionInfo}.
Context (d : StorageDevice D) (prims : list PartitionTableEntry) (logs : list (Z * PartitionTableEntry)).
Hypothesis Hlay : layout (disk d) prims logs.
Hypothesis Hlock : partLock d = new_Spinlock.

(** [readPartitionTable] finds what lies on the disk: the primary partitions in
    the order of their slots, and behind an extended one its logical partitions in the order
    of their linked tables, with their numbers, flags, types, absolute start sectors and sizes; it ends,
    changes nothing on the disk and gives the lock back. *)
Theorem partition_table_listed (fuel : nat) (Hwf : al_wf (partitionList d)) (Hn : Z.of_nat (length logs) < 2 ^ 28) (Hf : (length logs < fuel)%nat) :
  exists a d', readPartitionTable fuel d = Ret (a, d') /\ array a = listing prims logs /\ disk d' = disk d /\ partLock d' = new_Spinlock.
Proof. destruct (readPartitionTable_run d prims logs fuel Hlay Hlock Hwf Hn Hf) as (a & al & E & _ & Ha). by exists a, (set_list al d). Qed.

(** C15. Changes of the partition table are changes of the table and the list it
    stands for: [writePartition] replaces a primary entry, starts an extended partition
    with an empty list, starts the list of logical partitions or appends to it, and [deletePartition]
    clears a primary entry or takes a logical partition behind the first one out of the linked list. Each call
    succeeds, keeps the tables on the disk well formed and gives the lock back. Three changes are left out: deleting the
    first logical partition, after which the second one has its type ([delete_first_keeps_type]), writing over a logical
    partition that exists, and deleting or replacing the extended partition. *)
Theorem partition_changes_refine_list :
  (forall i a sid start count, (i < 4)%nat -> 0 <= start < 2 ^ 32 -> 0 <= count < 2 ^ 32 -> is_extended (new_entry a sid start count) = false ->
    (forall f, prims !! i = Some f -> is_extended f = false) ->
    exists d', writePartition (Z.of_nat i + 1) a sid start count d = Ret (Code.SUCCESS, d') /\ partLock d' = new_Spinlock /\
      layout (disk d') (<[i := new_entry a sid start count]> prims) logs) /\
  (forall i a sid start count, (forall e, e ∈ prims -> is_extended e = false) -> (i < 4)%nat -> 0 < start < 2 ^ 32 -> 0 <= count < 2 ^ 32 ->
    is_extended (new_entry a sid start count) = true -> is_Some (st_sector start (disk d)) ->
    exists d', writePartition (Z.of_nat i + 1) a sid start count d = Ret (Code.SUCCESS, d') /\ partLock d' = new_Spinlock /\
      layout (disk d') (<[i := new_entry a sid start count]> prims) []) /\
  (forall i e n a sid start count, logs = [] -> prims !! i = Some e -> is_extended e = true -> 5 <= n < 256 -> 0 <= count < 2 ^ 32 -> sid <> EMPTY ->
    exists d' p, writePartition n a sid start count d = Ret (Code.SUCCESS, d') /\ partLock d' = new_Spinlock /\
      layout (disk d') prims [(relative_sector e, p)] /\ system_id p = sid /\ sector_count p = count /\ active_flag p = if a then 0x80 else 0) /\
  (forall i e n a sid start count, prims !! i = Some e -> is_extended e = true -> logs <> [] -> 5 + Z.of_nat (length logs) <= n < 256 ->
    0 <= start < 2 ^ 32 -> 0 <= count < 2 ^ 32 -> sid <> EMPTY -> start ∉ 0 :: logs.*1 -> is_Some (st_sector start (disk d)) ->
    exists d', writePartition n a sid start count d = Ret (Code.SUCCESS, d') /\ partLock d' = new_Spinlock /\
      layout (disk d') prims (logs ++ [(start, new_entry a sid 1 (u32 (count - 1)))])) /\
  (forall i children, (i < 4)%nat -> (forall f, prims !! i = Some f -> is_extended f = false) ->
    exists d', deletePartition children (Z.of_nat i + 1) d = Ret (Code.SUCCESS, d') /\ partLock d' = new_Spinlock /\ layout (disk d') (<[i := no_entry]> prims) logs) /\
  (forall i e j children, prims !! i = Some e -> is_extended e = true -> (S j < length logs)%nat -> Z.of_nat j < 250 ->
    exists d', deletePartition children (6 + Z.of_nat j) d = Ret (Code.SUCCESS, d') /\ partLock d' = new_Spinlock /\ layout (disk d') prims (base.delete (S j) logs)).
Proof.
  split_and!.
  - intros i a sid start count Hi Hs Hc He Ho. destruct (write_primary_run d prims logs i a sid start count Hlay Hlock Hi Hs Hc He Ho) as (d' & E & Hl & _ & Hla). by exists d'.
  - intros i a sid start count Hno Hi Hs Hc He Hsec. assert (E0 : logs = []) by (by apply (lo_none _ _ _ Hlay)). rewrite E0 in Hlay.
    destruct (write_extended_run d prims i a sid start count Hlay Hno Hlock Hi Hs Hc He Hsec) as (d' & E & Hl & _ & Hla & _). by exists d'.
  - intros i e n a sid start count E0 Hi He Hn Hc Hsid. rewrite E0 in Hlay.
    destruct (first_logical_run d prims i e n a sid start count Hlay Hlock Hi He Hn Hc Hsid) as (d' & p & E & Hl & _ & Hla & H1' & H2' & H3' & _). by exists d', p.
  - intros i e n a sid start count Hi He Hne Hn Hs Hc Hsid Hf Hsec.
    destruct (append_run d prims logs i e n a sid start count Hlay Hlock Hi He Hne Hn Hs Hc Hsid Hf Hsec) as (d' & E & Hl & _ & Hla). by exists d'.
  - intros i children Hi Ho. destruct (delete_primary_run d prims logs i children Hlay Hlock Hi Ho) as (d' & E & Hl & _ & Hla). by exists d'.
  - intros i e j children Hi He Hj Hj2. destruct (delete_run d prims logs i e j children Hlay Hlock Hi He Hj Hj2) as (d' & E & Hl & _ & Hla). by exists d'.
Qed.
End Claims.

(** ** Examples *)

Section Examples.
#[local] Instance zero_bytes : Junk Z := fun _ => 0.
#[local] Instance zero_info : Junk PartitionInfo := fun _ => mkInfo 0 0 false 0 0 0.

(** "hdd1", with 16 sectors of 512 bytes *)
Definition hdd1 : list Z := [104; 100; 100; 49].
Definition small_disk : StorageDevice VirtualDiskDrive := mkDevice (new_VirtualDiskDrive 512 16) new_ArrayList new_Spinlock hdd1 ∅.

Lemma small_disk_ok : st_inv (disk small_disk) /\ forall s, 0 <= s < 16 -> is_Some (st_sector s (disk small_disk)).
Proof.
  split.
  - split_and!; by vm_compute.
  - intros s Hs. change (is_Some (virtual_sector s (disk small_disk))). unfold virtual_sector. rewrite decide_True by done. eauto.
Qed.

Lemma partition_changes_refine_list_witness : exists d1 d2, createPartitionTable [] small_disk = Ret (Code.SUCCESS, d1) /\
  writePartition 1 true 6 2 4 d1 = Ret (Code.SUCCESS, d2) /\ layout (disk d2) [new_entry true 6 2 4; no_entry; no_entry; no_entry] [].
Proof.
  destruct small_disk_ok as [Hd Hs]. destruct (create_run small_disk [] Hd (Hs 0 ltac:(lia)) eq_refl) as (d1 & E1 & Hl & _ & Hlay & _).
  destruct (partition_changes_refine_list d1 (replicate 4 no_entry) [] Hlay Hl) as (Hw & _).
  destruct (Hw 0%nat true 6 2 4) as (d2 & E2 & _ & Hlay2); [lia|lia|lia|done|intros f Hf; by injection Hf as <-|]. exists d1, d2. split_and!; [done|done|exact Hlay2].
Defined.

Lemma partition_table_listed_witness : exists d1 a d2, createPartitionTable [] small_disk = Ret (Code.SUCCESS, d1) /\ readPartitionTable 1 d1 = Ret (a, d2) /\ array a = [].
Proof.
  destruct small_disk_ok as [Hd Hs]. destruct (create_run small_disk [] Hd (Hs 0 ltac:(lia)) eq_refl) as (d1 & E1 & Hl & Hlist & Hlay & _).
  destruct (partition_table_listed d1 (replicate 4 no_entry) [] Hlay Hl 1) as (a & d2 & E2 & Ha & _); [rewrite Hlist; unfold small_disk; cbn [partitionList]; by constructor|done|simpl; lia|].
  exists d1, a, d2. split_and!; [done|done|exact Ha].
Defined.

(** An extended partition with three logical ones, the second of which is deleted. *)
Definition session : ST (StorageDevice VirtualDiskDrive) (list PartitionInfo) :=
  _ ← createPartitionTable [];
  _ ← writePartition 1 true 6 1 2;
  _ ← writePartition 2 false 5 3 12;
  _ ← writePartition 5 false 6 3 2;
  _ ← writePartition 6 false 0xb 6 3;
  _ ← writePartition 7 false 0xc 9 3;
  _ ← deletePartition [] 6;
  a ← readPartitionTable 4;
  mret (array a).

Example session_listing : exists d, session small_disk =
  Ret ([mkInfo 1 type_p true 6 1 2; mkInfo 5 type_e false 5 3 12; mkInfo 5 type_l false 6 4 2; mkInfo 6 type_l false 0xc 10 2], d).
Proof. eexists. by vm_compute. Qed.

(** ** Deviations *)

(** The extended partition is listed with the number of the first logical one, so that one
    of them is registered only; a new logical partition is registered with the
    number of the one before it, and at the sector of its table. *)
Theorem appended_partition_registered_wrong : exists d,
  (_ ← createPartitionTable []; _ ← writePartition 2 false 5 3 12; _ ← writePartition 5 false 6 3 2; writePartition 6 false 0xb 6 3) small_disk = Ret (Code.SUCCESS, d) /\
  service d !! (hdd1 ++ [112; 54]) = None /\ service d !! (hdd1 ++ [112; 53]) = Some (Part 6 3 0xb) /\
  exists a d', readPartitionTable 4 d = Ret (a, d') /\ array a !! 2%nat = Some (mkInfo 6 type_l false 0xb 7 2).
Proof. eexists. split; [by vm_compute|]. split_and!; [by vm_compute|by vm_compute|]. eexists _, _. split; by vm_compute. Qed.

(** When the first of several logical partitions is deleted, the second one takes over its table but not its type: it is listed with the type of the deleted partition. *)
Theorem delete_first_keeps_type : exists d,
  (_ ← createPartitionTable []; _ ← writePartition 2 false 5 3 12; _ ← writePartition 5 true 6 3 2; _ ← writePartition 6 false 0xb 6 3;
   _ ← deletePartition [] 5; a ← readPartitionTable 4; mret (array a)) small_disk = Ret ([mkInfo 5 type_e false 5 3 12; mkInfo 5 type_l true 6 7 2], d).
Proof. eexists. by vm_compute. Qed.

(** A partition does not keep its requests within its bounds. *)
Theorem partition_read_escapes : exists data, p_read 10 1 (mkPartition (disk small_disk) 2 3 6) = Ret (Some data) /\ st_sector 12 (disk small_disk) = Some data.
Proof. eexists. split; by vm_compute. Qed.

(** Removing the first partition removes the tenth as well. *)
Theorem remove_takes_prefixes : removeDevice (hdd1 ++ [112; 49]) {[hdd1 ++ [112; 49; 48] := Part 1 1 6]} = ∅.
Proof. by vm_compute. Qed.

(** A virtual disk with small sectors gets a large buffer but keeps the small size: the table does not fit into a sector. *)
Theorem small_sectors_fault : createPartitionTable [] (mkDevice (new_VirtualDiskDrive 256 16) new_ArrayList new_Spinlock hdd1 ∅) = Fault.
Proof. by vm_compute. Qed.

(** The test of the range wraps around. *)
Theorem virtual_range_wraps : v_read UINT32_MAX 1 (disk small_disk) = Fault.
Proof. by vm_compute. Qed.
End Examples.
