(* ===== verification/Tar.v ===== *)
(** * Tar archives

    [lib/file/tar/Archive.cpp], [filesystem/tar/TarArchiveDriver.cpp] and
    [TarArchiveNode.cpp]: an archive in memory, with headers of 512 bytes and the
    contents behind them, and the read-only driver on top of it. *)

From S2P Require Import Prelude Memory CString KString Array Collections ArrayList.

(** ** Headers *)

Definition BLOCKSIZE : Z := 0x200.
Definition LF_OLDNORMAL : Z := 48.
Definition REGULAR_FILE : Z := 0x01.
Definition DIRECTORY_FILE : Z := 0x04.

(** The offsets of the fields of [Header]. *)
Definition filename_offset : Z := 0.
Definition size_offset : Z := 100 + 8 + 8 + 8.
Definition typeFlag_offset : Z := size_offset + 12 + 12 + 8.

(** The backward loop over the octal digits. *)
Fixpoint size_loop (i : nat) (count ret : Z) (m : Mem) (size : Z) : Z :=
  match i with
  | O => ret
  | S i' => size_loop i' (u32 (count * 8)) (u32 (ret + (load8 m (size + Z.of_nat i - 1) - 48) * count)) m size
  end.

Definition calculateSize (m : Mem) (size : Z) : Z := size_loop 11 1 0 m size.
Definition calculateFileSize (m : Mem) (octalSize : Z) : Z := size_loop 11 1 0 m octalSize.

(** ** Archives *)

Record Archive := mkArchive { fileCount : Z; totalSize : Z; headers : ArrayList Z }.

Definition new_Archive : Archive := mkArchive 0 0 new_ArrayList.

(** The header behind the contents. *)
Definition next_header (addr size : Z) : Z :=
  let addr := u32 (addr + u32 (u32 (size / BLOCKSIZE + 1) * BLOCKSIZE)) in
  if negb (size mod 512 =? 0) then u32 (addr + 512) else addr.

Section Archives.
Context `{Junk Z} (m : Mem).

Fixpoint from_loop (fuel : nat) (addr : Z) (tar : Archive) : outcome Archive :=
  match fuel with
  | O => Diverge
  | S fuel =>
      if load8 m addr =? 0 then Ret tar
      else
        let size := calculateSize m (addr + size_offset) in
        r ← ArrayList.add addr (headers tar);
        let tar := mkArchive (if load8 m (addr + typeFlag_offset) =? LF_OLDNORMAL then u32 (fileCount tar + 1) else fileCount tar)
                             (u32 (totalSize tar + size)) (snd r) in
        from_loop fuel (next_header addr size) tar
  end.

Definition from (fuel : nat) (address : Z) : outcome Archive := from_loop fuel address new_Archive.

(** The headers of files, in an array of [fileCount] elements. *)
Definition pick (header : Z) (s : Z * Array Z) : outcome (Z * Array Z) :=
  let '(arrayIndex, fileHeaders) := s in
  if load8 m (header + typeFlag_offset) =? LF_OLDNORMAL then
    fileHeaders ← put fileHeaders arrayIndex header; Ret (u32 (arrayIndex + 1), fileHeaders)
  else Ret (arrayIndex, fileHeaders).

Definition getFileHeaders (tar : Archive) : outcome (Array Z) :=
  r ← foldM (fun i s => header ← ArrayList.get (Z.of_nat i) (headers tar); pick header s) (seq 0 (Z.to_nat (ArrayList.size (headers tar))))
            (0, new_Array (fileCount tar));
  Ret (snd r).

(** [String(header->filename)] *)
Definition filename (header : Z) : outcome String :=
  n ← strlen 513 m (header + filename_offset);
  Ret (String_cstr (Some ((fun i => load8 m (header + filename_offset + Z.of_nat i)) <$> seq 0 (Z.to_nat n)))).

(** The first header for which [f] gives something: a loop that returns from its body. *)
Fixpoint first_header {A} (f : Z -> outcome (option A)) (hs : list Z) : outcome (option A) :=
  match hs with
  | [] => Ret None
  | h :: hs => r ← f h; match r with Some a => Ret (Some a) | None => first_header f hs end
  end.

Definition getFile (path : String) (tar : Archive) : outcome Z :=
  fileHeaders ← getFileHeaders tar;
  r ← first_header (fun header => name ← filename header; same ← equals path name; Ret (if (same : bool) then Some (header + BLOCKSIZE) else None)) (array fileHeaders);
  Ret (default 0 r).
End Archives.

(** ** Nodes *)

Record TarArchiveNode := mkNode { fileType : Z; fileName : String; fileSize : Z; fileBuffer : Z; children : ArrayList String }.

Definition slash : String := str [47].

Section Nodes.
Context `{Junk Z} `{Junk String} (m : Mem).

(** [tokens[tokens.length() - 1]] *)
Definition last_token (fuel : nat) (path : String) : outcome String :=
  tokens ← split fuel slash 0 path;
  at_ tokens (u32 (length_ tokens - 1)).

Definition file_node (fuel : nat) (archive : Archive) (fileHeader : Z) : outcome TarArchiveNode :=
  path ← filename m fileHeader;
  name ← (if KString.isEmpty path then Ret new_String else last_token fuel path);
  let size := calculateFileSize m (fileHeader + size_offset) in
  path ← filename m fileHeader;
  data ← getFile m path archive;
  Ret (mkNode REGULAR_FILE name size data new_ArrayList).

(** The loop that collects the names of the children. *)
Definition add_child (fuel : nat) (path : String) (header : Z) (children : ArrayList String) : outcome (ArrayList String) :=
  fullPath ← filename m header;
  below ← beginsWith path fullPath;
  other ← differs fullPath path;
  if (below : bool) && other then
    subPath ← substring (KString.len path) (KString.len fullPath) fullPath;
    tokens ← split fuel slash 0 subPath;
    childName ← at_ tokens 0;
    known ← ArrayList.contains childName children;
    if negb known then r ← ArrayList.add childName children; Ret (snd r) else Ret children
  else Ret children.

Definition directory_node (fuel : nat) (archive : Archive) (path : String) : outcome TarArchiveNode :=
  root ← equals path slash;
  name ← (if KString.isEmpty path || (root : bool) then Ret slash else last_token fuel path);
  hs ← getFileHeaders m archive;
  children ← foldM (add_child fuel path) (array hs) new_ArrayList;
  Ret (mkNode DIRECTORY_FILE name 0 0 children).

Definition getName (n : TarArchiveNode) : String := fileName n.
Definition getFileType (n : TarArchiveNode) : Z := fileType n.
Definition getLength (n : TarArchiveNode) : Z := fileSize n.
Definition getChildren (n : TarArchiveNode) : outcome (Array String) := ArrayList.toArray (children n).

(** The bytes that are copied into the buffer of the caller. Positions have 64 bits. *)
Definition readData (pos numBytes : Z) (n : TarArchiveNode) : list Z :=
  if negb (fileType n =? REGULAR_FILE) then []
  else if fileSize n <=? pos then []
  else
    let numBytes := if fileSize n <? (pos + numBytes) mod 2 ^ 64 then fileSize n - pos else numBytes in
    (fun i => load8 m (fileBuffer n + pos + Z.of_nat i)) <$> seq 0 (Z.to_nat numBytes).

Definition writeData (n : TarArchiveNode) : Z := 0.

(** ** The driver *)

(** [currentPath.beginsWith(path) && currentPath[path.length()] == '/'] *)
Definition is_below (path currentPath : String) : outcome bool :=
  below ← beginsWith path currentPath;
  if (below : bool) then c ← at_index currentPath (KString.len path); Ret (c =? 47) else Ret false.

Definition try_header (fuel : nat) (archive : Archive) (path : String) (header : Z) : outcome (option TarArchiveNode) :=
  currentPath ← filename m header;
  same ← equals path currentPath;
  if (same : bool) then n ← file_node fuel archive header; Ret (Some n)
  else
    root ← equals path (str []);
    below ← (if (root : bool) then Ret true else is_below path currentPath);
    if (below : bool) then n ← directory_node fuel archive path; Ret (Some n) else Ret None.

Definition getNode (fuel : nat) (archive : Archive) (path : String) : outcome (option TarArchiveNode) :=
  hs ← getFileHeaders m archive; first_header (try_header fuel archive path) (array hs).

(** The archive cannot be changed. *)
Definition createNode : bool := false.
Definition deleteNode : bool := false.
End Nodes.

(** ** What an archive holds *)

Record member := mkMember { title : list Z; flag : Z; content : list Z }.

Definition octal_value (ds : list Z) : Z := foldl (fun v d => 8 * v + (d - 48)) 0 ds.

Record header_at (m : Mem) (a : Z) (f : member) : Prop := {
  ha_title : is_string m a (title f);
  ha_short : (length (title f) <= 100)%nat;
  ha_size : exists ds, length ds = 11%nat /\ octal_value ds = Z.of_nat (length (content f)) /\ forall i d, ds !! i = Some d -> m (a + size_offset + Z.of_nat i) = d;
  ha_flag : m (a + typeFlag_offset) = flag f;
  ha_content : forall i c, content f !! i = Some c -> m (a + BLOCKSIZE + Z.of_nat i) = c
}.

(** The bytes a member takes: its header, and its contents in whole blocks. *)
Definition span (f : member) : Z :=
  let n := Z.of_nat (length (content f)) in BLOCKSIZE * (1 + n / BLOCKSIZE + if decide (n mod BLOCKSIZE = 0) then 0 else 1).

(** Members one behind the other, up to an empty name. *)
Fixpoint stored (m : Mem) (a : Z) (fs : list member) : Prop :=
  match fs with
  | [] => m a = 0
  | f :: fs => title f <> [] /\ header_at m a f /\ stored m (a + span f) fs
  end.

Fixpoint places (a : Z) (fs : list member) : list (Z * member) :=
  match fs with
  | [] => []
  | f :: fs => (a, f) :: places (a + span f) fs
  end.

Definition files (hs : list (Z * member)) : list (Z * member) := filter (fun h => flag h.2 = LF_OLDNORMAL) hs.

Lemma span_pos f : BLOCKSIZE <= span f.
Proof. unfold span, BLOCKSIZE. cbv zeta. assert (0 <= Z.of_nat (length (content f)) / 0x200) by (apply Z.div_pos; lia). destruct (decide _); lia. Qed.

(** ** Sizes *)

Lemma octal_snoc ds d : octal_value (ds ++ [d]) = 8 * octal_value ds + (d - 48).
Proof. unfold octal_value. by rewrite foldl_app. Qed.

Lemma size_loop_run m s ds : (forall i d, ds !! i = Some d -> m (s + Z.of_nat i) = d) -> forall i count ret, (i <= length ds)%nat -> is_u32 ret ->
  size_loop i count ret m s = u32 (ret + count * octal_value (take i ds)).
Proof.
  intros Hds. induction i as [|i IH]; intros count ret Hi Hr.
  - cbn. rewrite Z.mul_0_r, Z.add_0_r. symmetry. by apply u32_small.
  - destruct (lookup_lt_is_Some_ex ds i) as [d Hd]; [lia|]. cbn [size_loop]. rewrite IH by (lia || apply u32_range). rewrite (take_S_r _ _ _ Hd), octal_snoc.
    unfold load8. replace (s + Z.of_nat (S i) - 1) with (s + Z.of_nat i) by lia. rewrite (Hds i d Hd). unfold u32. rewrite Zplus_mod, Zmult_mod_idemp_l, <- Zplus_mod.
    rewrite Zplus_mod_idemp_l. f_equal. ring.
Qed.

Lemma header_digits m a f : header_at m a f -> Z.of_nat (length (content f)) < 2 ^ 32 -> size_loop 11 1 0 m (a + size_offset) = Z.of_nat (length (content f)).
Proof.
  intros Hh Hn. destruct (ha_size _ _ _ Hh) as (ds & Hlen & Hv & Hds). rewrite (size_loop_run m _ ds) by (done || lia || (unfold is_u32; lia)).
  rewrite take_ge by lia. rewrite Hv. rewrite Z.mul_1_l. apply u32_small. unfold is_u32. lia.
Qed.

#[local] Opaque size_loop.

Lemma header_size m a f : header_at m a f -> Z.of_nat (length (content f)) < 2 ^ 32 -> calculateSize m (a + size_offset) = Z.of_nat (length (content f)).
Proof. apply header_digits. Qed.

Lemma header_fileSize m a f : header_at m a f -> Z.of_nat (length (content f)) < 2 ^ 32 -> calculateFileSize m (a + size_offset) = Z.of_nat (length (content f)).
Proof. apply header_digits. Qed.

#[local] Opaque calculateSize calculateFileSize.

(** ** Reading the headers *)

Section Reading.
Context `{Junk Z} (m : Mem).
Implicit Types (fs : list member) (a : Z).

Definition total fs : Z := foldr (fun f n => span f + n) 0 fs.

Lemma total_pos fs : 0 <= total fs.
Proof.
  induction fs as [|f fs IH]; [done|]. change (total (f :: fs)) with (span f + total fs). pose proof (span_pos f). unfold BLOCKSIZE in *. lia.
Qed.

Lemma next_place a f : 0 <= a -> a + span f < 2 ^ 32 -> Z.of_nat (length (content f)) < 2 ^ 32 -> next_header a (Z.of_nat (length (content f))) = a + span f.
Proof.
  intros Ha Hs Hn. unfold next_header, span in *. set (size := Z.of_nat _) in *. cbv zeta in *. unfold BLOCKSIZE in *. assert (Hq : 0 <= size / 0x200) by (apply Z.div_pos; lia).
  change 512 with 0x200 in *. destruct (Z.eqb_spec (size mod 0x200) 0) as [E|E]; cbn [negb]; (destruct (decide _); [|done]) || (destruct (decide _); [done|]).
  - wrap_small. lia.
  - wrap_small. lia.
Qed.

Lemma from_loop_run fs : forall a tar fuel, stored m a fs -> 0 <= a -> a + total fs < 2 ^ 32 -> Forall (fun f => Z.of_nat (length (content f)) < 2 ^ 32) fs ->
  al_wf (headers tar) -> Z.of_nat (length (al_view (headers tar)) + length fs) < 2 ^ 31 -> 0 <= fileCount tar -> fileCount tar + Z.of_nat (length fs) < 2 ^ 32 -> (length fs < fuel)%nat ->
  exists tar', from_loop m fuel a tar = Ret tar' /\ al_wf (headers tar') /\ al_view (headers tar') = al_view (headers tar) ++ (places a fs).*1 /\
    fileCount tar' = fileCount tar + Z.of_nat (length (files (places a fs))).
Proof.
  induction fs as [|f fs IH]; intros a tar fuel Hst Ha Ht Hsz Hwf Hlen Hc Hcn Hf; (destruct fuel as [|fuel]; [simpl in Hf; lia|]); cbn [from_loop]; unfold load8 at 1.
  - cbn in Hst. rewrite Hst. exists tar. split_and!; [done|done|by rewrite app_nil_r|cbn; lia].
  - destruct Hst as (Hne & Hh & Hst). apply Forall_cons in Hsz as [Hsz1 Hsz]. change (total (f :: fs)) with (span f + total fs) in Ht. simpl in Hlen, Hf, Hcn. pose proof (span_pos f) as Hsp. unfold BLOCKSIZE in Hsp.
    pose proof (total_pos fs) as Htot.
    assert (Hm : (m a =? 0) = false).
    { apply Z.eqb_neq. destruct (title f) as [|c t] eqn:Et; [done|]. destruct (str_chars _ _ _ (ha_title _ _ _ Hh) 0 c) as [Hc0 Hm0]; [by rewrite Et|]. rewrite Z.add_0_r in Hm0. lia. }
    rewrite Hm, (header_size m a f Hh Hsz1). pose proof (length_al_view _ Hwf) as Hl.
    destruct (ArrayList.add_spec a (headers tar) Hwf) as (al & Ea & Hwf' & _ & Hv); [lia|]. rewrite Ea. outcome. rewrite (next_place a f) by (lia || done).
    unfold load8. rewrite (ha_flag _ _ _ Hh). set (tar1 := mkArchive _ _ al).
    assert (Hc1 : fileCount tar1 = fileCount tar + (if decide (flag f = LF_OLDNORMAL) then 1 else 0)).
    { cbn. destruct (decide (flag f = LF_OLDNORMAL)) as [E|E]; [rewrite (proj2 (Z.eqb_eq _ _) E); apply u32_small; unfold is_u32; lia|rewrite (proj2 (Z.eqb_neq _ _) E); lia]. }
    destruct (IH (a + span f) tar1 fuel) as (tar' & E & Hwf2 & Hv2 & Hc2); try done; try lia.
    + cbn. rewrite Hv, length_app. simpl. lia.
    + rewrite Hc1. destruct (decide _); lia.
    + rewrite Hc1. destruct (decide _); lia.
    + exists tar'. rewrite E. split_and!; [done|done| |].
      * rewrite Hv2. cbn. rewrite Hv, <- app_assoc. done.
      * rewrite Hc2, Hc1. cbn [places]. unfold files. destruct (decide (flag f = LF_OLDNORMAL)); [rewrite filter_cons_True by done|rewrite filter_cons_False by done]; simpl; lia.
Qed.

(** The header of each member lies at its place. *)
Lemma stored_places fs : forall a b f, stored m a fs -> (b, f) ∈ places a fs -> header_at m b f /\ title f <> [] /\ f ∈ fs.
Proof.
  induction fs as [|g fs IH]; intros a b f Hst Hin; [by apply elem_of_nil in Hin|]. destruct Hst as (Hne & Hh & Hst). apply elem_of_cons in Hin as [[= -> ->]|Hin].
  - split_and!; [done|done|left].
  - destruct (IH _ _ _ Hst Hin) as (? & ? & ?). split_and!; [done|done|by right].
Qed.

Lemma pick_run hs : forall k (arr : Array Z), Forall (fun h => m (h.1 + typeFlag_offset) = flag h.2) hs -> wf arr -> 0 <= k -> k + Z.of_nat (length (files hs)) <= capacity arr -> capacity arr < 2 ^ 32 ->
  exists arr', foldM (pick m) hs.*1 (k, arr) = Ret (k + Z.of_nat (length (files hs)), arr') /\ wf arr' /\ capacity arr' = capacity arr /\
    take (Z.to_nat k + length (files hs)) (array arr') = take (Z.to_nat k) (array arr) ++ (files hs).*1.
Proof.
  induction hs as [|[h f] hs IH]; intros k arr Hfl Hwf Hk Hn Hc.
  - exists arr. cbn. rewrite Z.add_0_r, Nat.add_0_r, app_nil_r. done.
  - apply Forall_cons in Hfl as [Hf1 Hfl]. cbn [fst snd] in Hf1. rewrite fmap_cons. cbn [foldM fst]. unfold files in *. cbn [snd] in *.
    assert (Ep : forall s, pick m h s = let '(i, hs) := s in if flag f =? LF_OLDNORMAL then hs ← put hs i h; Ret (u32 (i + 1), hs) else Ret (i, hs)) by (intros [i arr']; unfold pick, load8; by rewrite Hf1).
    rewrite Ep. clear Ep.
    destruct (decide (flag f = LF_OLDNORMAL)) as [E|E].
    + rewrite filter_cons_True in Hn |- * by done. cbn [length] in Hn |- *. rewrite (proj2 (Z.eqb_eq _ _) E). rewrite put_in_range by (done || lia). outcome. rewrite u32_small by (unfold is_u32; lia).
      destruct (IH (k + 1) (mkArray (<[Z.to_nat k := h]> (array arr)) (capacity arr))) as (arr' & Ea & Hw & Hcap & Hv); [done|by apply wf_put|lia|cbn; lia|done|].
      exists arr'. rewrite Ea. destruct Hwf as [Hlen _]. split_and!; [do 2 f_equal; lia|done|done|]. rewrite fmap_cons. cbn [fst].
      replace (Z.to_nat (k + 1) + _)%nat with (Z.to_nat k + S (length (filter (fun h => flag h.2 = LF_OLDNORMAL) hs)))%nat in Hv by lia. rewrite Hv. cbn [array].
      replace (Z.to_nat (k + 1)) with (S (Z.to_nat k)) by lia. rewrite (take_S_r _ _ h) by (apply list_lookup_insert_eq; lia). rewrite take_insert_ge by lia. by rewrite <- app_assoc.
    + rewrite filter_cons_False in Hn |- * by done. rewrite (proj2 (Z.eqb_neq _ _) E). outcome. by apply IH.
Qed.

(** An archive that was read. *)
Record reads (tar : Archive) (hs : list (Z * member)) : Prop := {
  rd_wf : al_wf (headers tar);
  rd_view : al_view (headers tar) = hs.*1;
  rd_count : fileCount tar = Z.of_nat (length (files hs));
  rd_small : Z.of_nat (length hs) < 2 ^ 31;
  rd_headers : forall b f, (b, f) ∈ hs -> header_at m b f /\ Z.of_nat (length (content f)) < 2 ^ 32
}.

Lemma length_files hs : (length (files hs) <= length hs)%nat.
Proof. apply length_filter. Qed.

Lemma getFileHeaders_run tar hs : reads tar hs -> exists arr, getFileHeaders m tar = Ret arr /\ array arr = (files hs).*1.
Proof.
  intros [Hwf Hv Hc Hs Hh]. unfold getFileHeaders. rewrite (foldM_get (pick m) (headers tar) Hwf), Hv. pose proof (length_files hs) as Hl.
  destruct (pick_run hs 0 (new_Array (fileCount tar))) as (arr & E & Hw & Hcap & Ha).
  - apply Forall_forall. intros [b f] Hb. cbn. apply (ha_flag m b f), (Hh b f Hb).
  - apply wf_new_Array. unfold is_u32. lia.
  - lia.
  - cbn. lia.
  - cbn. lia.
  - rewrite E. outcome. exists arr. split; [done|]. cbn in Hcap. destruct Hw as [Hlen _]. change (Z.to_nat 0) with 0%nat in Ha. rewrite take_0 in Ha. cbn [app Nat.add] in Ha. rewrite <- Ha. symmetry. apply take_ge. lia.
Qed.

Lemma filename_run b f : header_at m b f -> filename m b = Ret (str (title f)).
Proof.
  intros Hh. pose proof (ha_title _ _ _ Hh) as Ht. pose proof (ha_short _ _ _ Hh) as Hs. unfold filename, filename_offset. rewrite Z.add_0_r.
  rewrite (strlen_run 513 m b (title f)) by (done || lia). outcome. rewrite Nat2Z.id, str_cstr. do 2 f_equal. apply list_eq. intros i. rewrite list_lookup_fmap.
  destruct (title f !! i) as [c|] eqn:E.
  - rewrite lookup_seq_lt by (by apply lookup_lt_Some in E). cbn. f_equal. unfold load8. by destruct (str_chars _ _ _ Ht i c E).
  - apply lookup_ge_None in E. by rewrite lookup_seq_ge.
Qed.

Lemma title_text b f : header_at m b f -> text (title f).
Proof. intros Hh. apply Forall_lookup. intros i c Hc. by destruct (str_chars _ _ _ (ha_title _ _ _ Hh) i c Hc). Qed.

(** The first header that is accepted. *)
Lemma first_header_run {A} (g : Z -> outcome (option A)) hs1 h hs2 (x : A) : (forall b, b ∈ hs1 -> g b = Ret None) -> g h = Ret (Some x) -> first_header g (hs1 ++ h :: hs2) = Ret (Some x).
Proof.
  intros H1 Hh. induction hs1 as [|b hs1 IH]; cbn [app first_header]; [by rewrite Hh|]. rewrite H1 by left. outcome. apply IH. intros b' Hb'. apply H1. by right.
Qed.

Lemma getFile_run tar hs (fs1 : list (Z * member)) b f (fs2 : list (Z * member)) : reads tar hs -> files hs = fs1 ++ (b, f) :: fs2 -> (forall h, h ∈ fs1 -> title h.2 <> title f) ->
  getFile m (str (title f)) tar = Ret (b + BLOCKSIZE).
Proof.
  intros Hr Hf Hfirst. unfold getFile. destruct (getFileHeaders_run tar hs Hr) as (arr & E & Ha). rewrite E. outcome. rewrite Ha, Hf, fmap_app, fmap_cons.
  assert (Hat : forall b f, (b, f) ∈ files hs -> header_at m b f) by (intros b' f' Hin; apply list_elem_of_filter in Hin as [_ Hin]; by apply (rd_headers _ _ Hr b' f')).
  assert (Hbf : header_at m b f) by (apply Hat; rewrite Hf; set_solver).
  rewrite (first_header_run _ _ b _ (b + BLOCKSIZE)); [done| |].
  - intros b' Hb'. apply list_elem_of_fmap in Hb' as ([b1 f1] & -> & Hin). assert (Hh1 : header_at m b1 f1) by (apply Hat; rewrite Hf; set_solver).
    cbn [fst]. rewrite (filename_run b1 f1 Hh1). outcome. rewrite equals_str by (by eapply title_text). outcome. rewrite bool_decide_false; [done|]. intros Et. by apply (Hfirst (b1, f1) Hin).
  - rewrite (filename_run b f Hbf). outcome. rewrite equals_str by (by eapply title_text). outcome. by rewrite bool_decide_true.
Qed.

Lemma from_run fs a fuel : stored m a fs -> 0 <= a -> a + total fs < 2 ^ 32 -> Forall (fun f => Z.of_nat (length (content f)) < 2 ^ 32) fs -> Z.of_nat (length fs) < 2 ^ 31 -> (length fs < fuel)%nat ->
  exists tar, from m fuel a = Ret tar /\ reads tar (places a fs).
Proof.
  intros Hst Ha Ht Hsz Hl Hf. destruct (from_loop_run fs a new_Archive fuel Hst Ha Ht Hsz ltac:(done)) as (tar & E & Hwf & Hv & Hc); [change (al_view _) with (@nil Z); cbn; lia|done|cbn; lia|done|].
  exists tar. split; [done|]. split; [done|by rewrite Hv|by rewrite Hc| |].
  - enough (length (places a fs) = length fs) by lia. clear. revert a. induction fs as [|f fs IH]; intros a; [done|]. cbn. by rewrite IH.
  - intros b f Hb. destruct (stored_places fs a b f Hst Hb) as (Hh & _ & Hin). split; [done|]. rewrite Forall_forall in Hsz. by apply Hsz.
Qed.
End Reading.

(** ** Looking a file up *)

(** [g] keeps the driver from reaching a file with the title [t]: it has the same title, or lies in a directory of that title. *)
Definition hides (t : list Z) (g : member) : Prop := title g = t \/ (t ++ [47]) `prefix_of` title g.

Section Lookup.
Context `{Junk Z} `{Junk String} (m : Mem).

Lemma last_token_run fuel l ws w : (length l < fuel)%nat -> Z.of_nat (length l) + 1 < 2 ^ 31 -> words [47] l = ws ++ [w] -> last_token fuel (str l) = Ret (str w).
Proof.
  intros Hf Hl Hw. unfold last_token, slash. rewrite split_run by done. outcome. cbn [length_ capacity]. rewrite Hw, length_app. cbn [length].
  destruct (words_from_forall (fun _ => True) [47] [] l ltac:(done) ltac:(by apply Forall_forall)) as [_ Hn]. fold (words [47] l) in Hn. rewrite Hw, length_app in Hn. cbn [length] in Hn.
  rewrite u32_small by (unfold is_u32; lia). apply at_in_range; [|lia|].
  - split; cbn; [rewrite length_fmap, length_app; cbn; lia|unfold is_u32; lia].
  - cbn [array]. rewrite fmap_app, lookup_app_r by (rewrite length_fmap; lia). rewrite length_fmap. by replace (_ - _)%nat with 0%nat by lia.
Qed.

Lemma is_below_str t u : text t -> text u -> u <> t -> is_below (str t) (str u) = Ret (bool_decide ((t ++ [47]) `prefix_of` u)).
Proof.
  intros Ht Hu Hne. unfold is_below. rewrite beginsWith_str by done. outcome. destruct (bool_decide_reflect (t `prefix_of` u)) as [[v ->]|Hp].
  - destruct v as [|c v]; [by rewrite app_nil_r in Hne|]. unfold at_index, char_of. change (KString.len (str t)) with (Z.of_nat (length t)). decide_bool. rewrite Nat2Z.id. cbn [str buffer].
    rewrite <- app_assoc, lookup_app_r, Nat.sub_diag by done. cbn. f_equal. destruct (Z.eqb_spec c 47) as [->|Hc]; symmetry; [apply bool_decide_eq_true|apply bool_decide_eq_false].
    + exists v. by rewrite <- app_assoc.
    + intros [v' Hv]. rewrite <- app_assoc in Hv. by simplify_eq/=.
  - symmetry. f_equal. apply bool_decide_eq_false. intros Hv. apply Hp. etrans; [|done]. by eexists.
Qed.

Lemma archive_node_run fuel tar hs (fs1 : list (Z * member)) b f (fs2 : list (Z * member)) ws w : reads m tar hs -> files hs = fs1 ++ (b, f) :: fs2 -> (forall h, h ∈ fs1 -> ~ hides (title f) h.2) ->
  words [47] (title f) = ws ++ [w] -> (100 < fuel)%nat ->
  getNode m fuel tar (str (title f)) = Ret (Some (mkNode REGULAR_FILE (str w) (Z.of_nat (length (content f))) (b + BLOCKSIZE) new_ArrayList)).
Proof.
  intros Hr Hf Hfirst Hw Hfuel. unfold getNode. destruct (getFileHeaders_run m tar hs Hr) as (arr & E & Ha). rewrite E. outcome. rewrite Ha, Hf, fmap_app, fmap_cons.
  assert (Hat : forall b f, (b, f) ∈ files hs -> header_at m b f /\ Z.of_nat (length (content f)) < 2 ^ 32) by (intros b' f' Hin; apply list_elem_of_filter in Hin as [_ Hin]; by apply (rd_headers _ _ _ Hr b' f')).
  destruct (Hat b f) as [Hbf Hsz]; [rewrite Hf; set_solver|]. pose proof (title_text m b f Hbf) as Ht. pose proof (ha_short _ _ _ Hbf) as Hs.
  assert (Hne : title f <> []) by (intros E0; rewrite E0 in Hw; by destruct ws).
  apply first_header_run.
  - intros b' Hb'. apply list_elem_of_fmap in Hb' as ([b1 f1] & -> & Hin). destruct (Hat b1 f1) as [Hh1 _]; [rewrite Hf; set_solver|]. specialize (Hfirst _ Hin). cbn [fst snd] in *.
    pose proof (title_text m b1 f1 Hh1) as Ht1. unfold try_header. rewrite (filename_run m b1 f1 Hh1). outcome. rewrite !equals_str by (done || constructor). outcome.
    rewrite bool_decide_false by (intros Et; apply Hfirst; by left). rewrite (bool_decide_false (title f = [])) by done. rewrite is_below_str by (done || (intros Et; apply Hfirst; by left)). outcome.
    rewrite bool_decide_false; [done|]. intros Hp. apply Hfirst. by right.
  - cbn [fst]. unfold try_header. rewrite (filename_run m b f Hbf). outcome. rewrite (equals_str (title f) (title f)) by done. outcome. rewrite bool_decide_true by done. unfold file_node.
    rewrite (filename_run m b f Hbf). outcome. rewrite (getFile_run m tar hs fs1 b f fs2 Hr Hf) by (intros h Hh Et; apply (Hfirst h Hh); by left). 
    rewrite (header_fileSize m b f Hbf Hsz).
    assert (Hem : KString.isEmpty (str (title f)) = false) by (unfold KString.isEmpty; cbn; apply Z.eqb_neq; destruct (title f); [done|cbn; lia]). rewrite Hem.
    rewrite (last_token_run fuel (title f) ws w) by (done || lia). by outcome.
Qed.
End Lookup.

(** ** Files can be read back *)

Lemma content_span f : Z.of_nat (length (content f)) <= span f.
Proof.
  unfold span, BLOCKSIZE. cbv zeta. set (n := Z.of_nat (length (content f))). pose proof (Z.div_mod n 0x200 ltac:(lia)). pose proof (Z.mod_pos_bound n 0x200 ltac:(lia)).
  destruct (decide _); lia.
Qed.

Lemma total_bounds fs : Forall (fun f => Z.of_nat (length (content f)) <= total fs) fs /\ 0x200 * Z.of_nat (length fs) <= total fs.
Proof.
  induction fs as [|f fs [IH1 IH2]]; [split; [constructor|done]|]. change (total (f :: fs)) with (span f + total fs). pose proof (span_pos f) as Hp. unfold BLOCKSIZE in Hp.
  pose proof (content_span f). pose proof (total_pos fs). split; [|cbn [length]; lia]. constructor; [lia|]. eapply Forall_impl; [exact IH1|]. cbn. intros g ?. lia.
Qed.

Lemma places_app fs1 fs2 : forall a, places a (fs1 ++ fs2) = places a fs1 ++ places (a + total fs1) fs2.
Proof.
  induction fs1 as [|f fs1 IH]; intros a; [cbn; by rewrite Z.add_0_r|]. cbn [app places]. rewrite IH. change (total (f :: fs1)) with (span f + total fs1). by rewrite Z.add_assoc.
Qed.

Lemma places_member fs : forall a h, h ∈ places a fs -> h.2 ∈ fs.
Proof. induction fs as [|f fs IH]; intros a h Hh; [by apply elem_of_nil in Hh|]. apply elem_of_cons in Hh as [->|Hh]; [left|right; by eapply IH]. Qed.

Lemma archive_read_run m b f pos numBytes (n : TarArchiveNode) : header_at m b f -> fileType n = REGULAR_FILE -> fileSize n = Z.of_nat (length (content f)) -> fileBuffer n = b + BLOCKSIZE ->
  0 <= pos -> 0 <= numBytes -> pos + numBytes < 2 ^ 64 -> readData m pos numBytes n = take (Z.to_nat numBytes) (drop (Z.to_nat pos) (content f)).
Proof.
  intros Hh Ht Hs Hb Hp Hn Hw. unfold readData. rewrite Ht, Hs, Hb, Z.eqb_refl. cbn [negb]. destruct (Z.leb_spec (Z.of_nat (length (content f))) pos) as [Hle|Hlt].
  - rewrite drop_ge by lia. by rewrite take_nil.
  - rewrite Z.mod_small by lia. set (k := if _ <? _ then _ else _). assert (Hk : Z.to_nat k = Nat.min (Z.to_nat numBytes) (length (content f) - Z.to_nat pos)) by (unfold k; destruct (Z.ltb_spec (Z.of_nat (length (content f))) (pos + numBytes)); lia).
    apply list_eq. intros i. rewrite list_lookup_fmap, Hk. destruct (decide (i < Nat.min (Z.to_nat numBytes) (length (content f) - Z.to_nat pos))%nat) as [Hi|Hi].
    + rewrite lookup_seq_lt, lookup_take_lt, lookup_drop by lia. destruct (lookup_lt_is_Some_2 (content f) (Z.to_nat pos + i)) as [c Hc]; [lia|]. cbn. rewrite Hc. f_equal. unfold load8.
      rewrite <- (ha_content _ _ _ Hh _ _ Hc). f_equal. lia.
    + rewrite lookup_seq_ge by lia. cbn. symmetry. apply lookup_ge_None. rewrite length_take, length_drop. lia.
Qed.

(** C32. Take an archive in memory with members one behind the other, each with its name, its size as eleven octal digits and its contents, and in it a regular file that no earlier one
    hides (none has the same name, and none lies in a directory of that name). Then [Archive::from] reads the headers up to the empty name, and the node the driver gives for the name
    of the file is a regular file with the last word of the path as its name and the length of the contents, and [readData] gives the bytes of the contents from [pos] on,
    [numBytes] or as many as there are. *)
Theorem tar_reads_file {J1 : Junk Z} {J2 : Junk String} (m : Mem) (a : Z) (fs1 fs2 : list member) (f : member) (ws : list (list Z)) (w : list Z) (pos numBytes : Z) (fuel : nat)
    (Hst : stored m a (fs1 ++ f :: fs2)) (Ha : 0 <= a) (Hend : a + total (fs1 ++ f :: fs2) < 2 ^ 32)
    (Hflag : flag f = LF_OLDNORMAL) (Hfirst : forall g, g ∈ fs1 -> flag g = LF_OLDNORMAL -> ~ hides (title f) g) (Hw : words [47] (title f) = ws ++ [w])
    (Hpos : 0 <= pos) (Hnum : 0 <= numBytes) (Hsum : pos + numBytes < 2 ^ 64) (Hfuel : (length (fs1 ++ f :: fs2) < fuel)%nat) (Hfuel' : (100 < fuel)%nat) :
  exists tar node, from m fuel a = Ret tar /\ getNode m fuel tar (str (title f)) = Ret (Some node) /\
    getFileType node = REGULAR_FILE /\ getName node = str w /\ getLength node = Z.of_nat (length (content f)) /\
    readData m pos numBytes node = take (Z.to_nat numBytes) (drop (Z.to_nat pos) (content f)).
Proof.
  destruct (total_bounds (fs1 ++ f :: fs2)) as [Hb1 Hb2]. destruct (from_run m (fs1 ++ f :: fs2) a fuel Hst Ha Hend) as (tar & E & Hr); [|lia|done|].
  { eapply Forall_impl; [exact Hb1|]. cbn. intros g ?. lia. }
  set (b := a + total fs1). set (ps := places (b + span f) fs2).
  assert (Hf : files (places a (fs1 ++ f :: fs2)) = files (places a fs1) ++ (b, f) :: files ps).
  { rewrite places_app. unfold files. rewrite filter_app. cbn [places]. by rewrite filter_cons_True. }
  assert (Hbf : header_at m b f).
  { apply (rd_headers _ _ _ Hr). rewrite places_app. apply elem_of_app. right. left. }
  eexists tar, _. split; [done|]. split.
  - apply (archive_node_run m fuel tar _ _ b f (files ps) ws w Hr Hf); [|done|lia]. intros h Hh. apply list_elem_of_filter in Hh as [Hl Hh]. apply Hfirst; [by eapply places_member|done].
  - split; [done|]. split; [done|]. split; [done|]. by apply (archive_read_run m b f).
Qed.

(** ** An archive with "etc/a" ("hi!") and "etcb" ("xyz") at 4096 *)

Definition digits3 : list Z := replicate 10 48 ++ [51].

Definition put_member (a : Z) (f : member) (digits : list Z) (m : Mem) : Mem :=
  string_at a (title f) (string_at (a + size_offset) digits (string_at (a + typeFlag_offset) [flag f] (string_at (a + BLOCKSIZE) (content f) m))).

Definition etc_a : member := mkMember [101; 116; 99; 47; 97] 48 [104; 105; 33].
Definition etcb : member := mkMember [101; 116; 99; 98] 48 [120; 121; 122].
Definition small_archive : Mem := put_member 4096 etc_a digits3 (put_member 5120 etcb digits3 (fun _ => 0)).

Lemma bytes_at (m : Mem) (a : Z) l : (fun i => m (a + Z.of_nat i)) <$> seq 0 (length l) = l -> forall i c, l !! i = Some c -> m (a + Z.of_nat i) = c.
Proof.
  intros Hl i c Hc. pose proof (lookup_lt_Some _ _ _ Hc) as Hi. rewrite <- Hl in Hc. rewrite list_lookup_fmap, lookup_seq_lt in Hc by done. by injection Hc.
Qed.

Lemma member_at (m : Mem) (a : Z) (f : member) ds : Forall (fun c => 0 < c < 256) (title f) -> (length (title f) <= 100)%nat -> length ds = 11%nat ->
  octal_value ds = Z.of_nat (length (content f)) -> m (a + Z.of_nat (length (title f))) = 0 -> m (a + typeFlag_offset) = flag f ->
  (fun i => m (a + Z.of_nat i)) <$> seq 0 (length (title f)) = title f -> (fun i => m (a + size_offset + Z.of_nat i)) <$> seq 0 (length ds) = ds ->
  (fun i => m (a + BLOCKSIZE + Z.of_nat i)) <$> seq 0 (length (content f)) = content f -> header_at m a f.
Proof.
  intros Ht Hs Hd Ho He Hf H1 H2 H3. split; [|done| |done|by apply bytes_at].
  - split; [|done]. intros i c Hc. split; [by apply (proj1 (Forall_lookup _ _) Ht i)|by apply (bytes_at m a (title f))].
  - exists ds. split; [done|]. split; [done|]. by apply bytes_at.
Qed.

Lemma small_archive_stored : stored small_archive 4096 [etc_a; etcb].
Proof.
  split; [done|]. split; [|split; [done|split; [|done]]].
  - apply (member_at _ _ _ digits3); [repeat constructor; lia|cbn; lia|done..].
  - apply (member_at _ _ _ digits3); [repeat constructor; lia|cbn; lia|done..].
Qed.

Lemma tar_reads_file_witness : exists tar node, @from Z_junk small_archive 101 4096 = Ret tar /\ @getNode Z_junk String_junk small_archive 101 tar (str (title etcb)) = Ret (Some node) /\
  getFileType node = REGULAR_FILE /\ getName node = str [101; 116; 99; 98] /\ getLength node = 3 /\ readData small_archive 1 5 node = [121; 122].
Proof.
  apply (@tar_reads_file Z_junk String_junk small_archive 4096 [etc_a] [] etcb [] [101; 116; 99; 98] 1 5 101).
  - exact small_archive_stored.
  - lia.
  - vm_compute. reflexivity.
  - reflexivity.
  - intros g Hg _. apply list_elem_of_singleton in Hg as ->. intros [E|[v E]]; discriminate E.
  - vm_compute. reflexivity.
  - lia.
  - lia.
  - vm_compute. reflexivity.
  - cbn. lia.
  - lia.
Defined.

(** ** Where the code departs from what it means to do *)

(** The node of a directory cannot be built: the list of its children has no memory when [contains] reads its first slot. *)
Theorem tar_directory_faults {J1 : Junk Z} {J2 : Junk String} : exists tar, from small_archive 101 4096 = Ret tar /\ getNode small_archive 101 tar (str [101; 116; 99]) = Fault.
Proof. eexists. split; [by vm_compute|]. by vm_compute. Qed.

(** And a directory counts every name that begins with its own as one below it: with memory for the list, the file "etcb" gives "etc" the child "b". *)
Theorem tar_directory_takes_sibling : @add_child String_junk small_archive 101 (str [101; 116; 99]) 5120 (mkArrayList (Some (replicate 2 new_String)) 2 0) =
  Ret (mkArrayList (Some [str [98]; new_String]) 2 1).
Proof. by vm_compute. Qed.
