(* ===== verification/Gdb.v ===== *)
(** * The debugger's server

    [kernel/debug/GdbServer.cpp]: the remote protocol of gdb over a port. Packets
    with checksums, registers and memory as hexadecimal text, and the loop that
    serves requests while a thread is stopped.

    Buffers, the stopped thread's frame and the local variables whose address is
    taken lie in one memory. The port is the list of characters that arrive and the
    list of those sent; waiting for a character that never arrives does not end. *)

From S2P Require Import Prelude Memory.

Definition BUFMAX : Z := 400.
Definition REG_ESP : Z := 4.
Definition REG_EBP : Z := 5.
Definition REG_EIP : Z := 8.
Definition NUM_REGS_BYTES : Z := 16 * 4.
Definition WRITE_MEMORY_HEX : Z := 77.
Definition READ_MEMORY_HEX : Z := 109.
Definition CONTINUE : Z := 99.
Definition STEP : Z := 115.
Definition TOGGLE_DEBUG : Z := 100.
Definition GET_REGISTERS : Z := 103.
Definition SET_REGISTERS : Z := 71.
Definition SET_REGISTER : Z := 80.
Definition GET_HALT_REASON : Z := 63.

(** [mapped] says which pages are present. *)
Record GdbServer := mkGdb { mem : Mem; mapped : Z -> bool; memError : bool; rx : list Z; tx : list Z }.

Definition G := ST GdbServer.

Definition set_mem (m : Mem) (s : GdbServer) : GdbServer := mkGdb m (mapped s) (memError s) (rx s) (tx s).
Definition set_memError (b : bool) (s : GdbServer) : GdbServer := mkGdb (mem s) (mapped s) b (rx s) (tx s).

Definition peek (a : Z) : G Z := gets (fun s => load8 (mem s) a).
Definition poke (a v : Z) : G unit := modify (fun s => set_mem (store8 (mem s) a v) s).

(** ** The port *)

Definition readChar : G Z := fun s =>
  match rx s with [] => Diverge | c :: r => Ret (c, mkGdb (mem s) (mapped s) (memError s) r (tx s)) end.

Definition sendChar (c : Z) : G unit := modify (fun s => mkGdb (mem s) (mapped s) (memError s) (rx s) (tx s ++ [c])).

(** ** Hexadecimal text *)

Definition hexCharacters : list Z := [48; 49; 50; 51; 52; 53; 54; 55; 56; 57; 97; 98; 99; 100; 101; 102].
Definition hexCharacter (i : Z) : Z := default 0 (hexCharacters !! Z.to_nat i).

Definition hex (ch : Z) : Z :=
  if (97 <=? ch) && (ch <=? 102) then ch - 97 + 10
  else if (48 <=? ch) && (ch <=? 57) then ch - 48
  else if (65 <=? ch) && (ch <=? 70) then ch - 65 + 10
  else 255.

(** An access to a page that is not present enters the page fault handler, which notes an error and maps the page ([Management::trigger]). *)
Definition page (a : Z) : Z := a / 4096.

Definition touch (a : Z) : G unit := fun s =>
  if mapped s (page a) then Ret (tt, s)
  else if a =? 0 then Throw NULLPOINTER
  else Ret (tt, mkGdb (mem s) (fun p => (p =? page a) || mapped s p) true (rx s) (tx s)).

Definition getChar (a : Z) : G Z := _ ← touch a; peek a.
Definition setChar (a v : Z) : G unit := _ ← touch a; poke a v.

(** Gives the number of digits, the value and the pointer behind them. *)
Fixpoint hexToInt (fuel : nat) (numChars intValue ptr : Z) : G (Z * Z * Z) :=
  match fuel with
  | O => diverge
  | S fuel =>
      ch ← peek ptr;
      if ch =? 0 then mret (numChars, intValue, ptr)
      else
        let hexValue := hex ch in
        if hexValue <? 16 then hexToInt fuel (u32 (numChars + 1)) (Z.lor (u32 (Z.shiftl intValue 4)) hexValue) (ptr + 1)
        else mret (numChars, intValue, ptr)
  end.

Fixpoint mem2hex_loop (n : nat) (a buf : Z) (mayFault : bool) : G Z :=
  match n with
  | O => _ ← poke buf 0; mret buf
  | S n =>
      ch ← getChar a;
      e ← gets memError;
      if mayFault && e then mret buf
      else
        _ ← poke buf (hexCharacter (Z.shiftr ch 4));
        _ ← poke (buf + 1) (hexCharacter (Z.land ch 0x0F));
        mem2hex_loop n (u32 (a + 1)) (buf + 2) mayFault
  end.

Definition mem2hex (a buf count : Z) (mayFault : bool) : G Z :=
  if a =? 0 then _ ← modify (set_memError true); mret buf else mem2hex_loop (Z.to_nat count) a buf mayFault.

Fixpoint hex2mem_loop (n : nat) (buf a : Z) (mayFault : bool) : G Z :=
  match n with
  | O => mret a
  | S n =>
      c ← peek buf;
      d ← peek (buf + 1);
      let ch := u8 (u8 (Z.shiftl (hex c) 4) + hex d) in
      _ ← setChar a ch;
      e ← gets memError;
      if mayFault && e then mret (buf + 2) else hex2mem_loop n (buf + 2) (u32 (a + 1)) mayFault
  end.

Definition hex2mem (buf a count : Z) (mayFault : bool) : G Z :=
  if a =? 0 then _ ← modify (set_memError true); mret buf else hex2mem_loop (Z.to_nat count) buf a mayFault.

(** ** Registers *)

Record GdbRegisters := mkRegisters {
  r_eax : Z; r_ecx : Z; r_edx : Z; r_ebx : Z; r_esp : Z; r_ebp : Z; r_esi : Z; r_edi : Z;
  r_pc : Z; r_ps : Z; r_cs : Z; r_ss : Z; r_ds : Z; r_es : Z; r_fs : Z; r_gs : Z }.

(** The words of the structure, in its order. *)
Definition words_of (r : GdbRegisters) : list Z :=
  [r_eax r; r_ecx r; r_edx r; r_ebx r; r_esp r; r_ebp r; r_esi r; r_edi r; r_pc r; r_ps r; r_cs r; r_ss r; r_ds r; r_es r; r_fs r; r_gs r].

(** The offsets of the fields of [InterruptFrame]. *)
Module Frame.
Definition gs : Z := 0.
Definition fs : Z := 4.
Definition es : Z := 8.
Definition ds : Z := 12.
Definition edi : Z := 16.
Definition esi : Z := 20.
Definition ebp : Z := 24.
Definition esp : Z := 28.
Definition ebx : Z := 32.
Definition edx : Z := 36.
Definition ecx : Z := 40.
Definition eax : Z := 44.
Definition interrupt : Z := 48.
Definition eip : Z := 56.
Definition cs : Z := 60.
Definition eflags : Z := 64.
Definition ss : Z := 72.
Definition size : Z := 76.
End Frame.

Section Server.
Context (inBuffer outBuffer frame gdbRegs_at regValue_at ptr_at : Z).

Definition fromInterruptFrame (m : Mem) : GdbRegisters := {|
  r_eax := load32 m (frame + Frame.eax); r_ebx := load32 m (frame + Frame.ebx); r_ecx := load32 m (frame + Frame.ecx); r_edx := load32 m (frame + Frame.edx);
  r_esp := load32 m (frame + Frame.esp); r_ebp := load32 m (frame + Frame.ebp); r_esi := load32 m (frame + Frame.esi); r_edi := load32 m (frame + Frame.edi);
  r_pc := load32 m (frame + Frame.eip); r_ps := load32 m (frame + Frame.eflags); r_cs := load16 m (frame + Frame.cs); r_ss := load16 m (frame + Frame.ss);
  r_gs := load16 m (frame + Frame.gs); r_fs := load16 m (frame + Frame.fs); r_es := load16 m (frame + Frame.es); r_ds := load16 m (frame + Frame.ds) |}.

(** Consecutive words. *)
Fixpoint store_words (a : Z) (ws : list Z) (m : Mem) : Mem :=
  match ws with [] => m | w :: ws => store_words (a + 4) ws (store32 m a w) end.

Definition field32 (f v : Z) : G unit := modify (fun s => set_mem (store32 (mem s) (frame + f) v) s).
Definition field16 (f v : Z) : G unit := modify (fun s => set_mem (store16 (mem s) (frame + f) (u16 v)) s).

(** Register [i] of a [GdbRegisters] at [a]. *)
Definition word_at (a i : Z) : G Z := gets (fun s => load32 (mem s) (a + 4 * i)).

Definition setFrameRegisters (regs : Z) : G unit :=
  w ← word_at regs 0; _ ← field32 Frame.eax w;
  w ← word_at regs 3; _ ← field32 Frame.ebx w;
  w ← word_at regs 1; _ ← field32 Frame.ecx w;
  w ← word_at regs 2; _ ← field32 Frame.edx w;
  w ← word_at regs 4; _ ← field32 Frame.esp w;
  w ← word_at regs 5; _ ← field32 Frame.ebp w;
  w ← word_at regs 6; _ ← field32 Frame.esi w;
  w ← word_at regs 7; _ ← field32 Frame.edi w;
  w ← word_at regs 8; _ ← field32 Frame.eip w;
  w ← word_at regs 9; _ ← field32 Frame.eflags w;
  w ← word_at regs 13; _ ← field16 Frame.es w;
  w ← word_at regs 12; _ ← field16 Frame.ds w;
  w ← word_at regs 14; _ ← field16 Frame.fs w;
  w ← word_at regs 15; _ ← field16 Frame.gs w;
  w ← word_at regs 10; _ ← field16 Frame.cs w;
  w ← word_at regs 11; field16 Frame.ss w.

Definition setFrameRegister (regNumber value : Z) : G unit :=
  if regNumber =? 0 then field32 Frame.eax value
  else if regNumber =? 1 then field32 Frame.ecx value
  else if regNumber =? 2 then field32 Frame.edx value
  else if regNumber =? 3 then field32 Frame.ebx value
  else if regNumber =? 4 then field32 Frame.esp value
  else if regNumber =? 5 then field32 Frame.ebp value
  else if regNumber =? 6 then field32 Frame.esi value
  else if regNumber =? 7 then field32 Frame.edi value
  else if regNumber =? 8 then field32 Frame.eip value
  else if regNumber =? 9 then field32 Frame.eflags value
  else if regNumber =? 10 then field16 Frame.cs value
  else if regNumber =? 11 then field16 Frame.ss value
  else if regNumber =? 12 then field16 Frame.ds value
  else if regNumber =? 13 then field16 Frame.es value
  else if regNumber =? 14 then field16 Frame.fs value
  else if regNumber =? 15 then field16 Frame.gs value
  else mret tt.

Definition computeSignal (interrupt : Z) : Z :=
  if interrupt =? 0 then 8 else if interrupt =? 1 then 5 else if interrupt =? 3 then 5 else if interrupt =? 4 then 16
  else if interrupt =? 5 then 16 else if interrupt =? 6 then 4 else if interrupt =? 7 then 8 else if interrupt =? 8 then 7
  else if interrupt =? 9 then 11 else if interrupt =? 10 then 11 else if interrupt =? 11 then 11 else if interrupt =? 12 then 11
  else if interrupt =? 13 then 11 else if interrupt =? 14 then 11 else if interrupt =? 16 then 7 else 7.

(** ** Packets *)

(** [while ((ch = readChar()) != '$');] *)
Fixpoint await (fuel : nat) : G unit :=
  match fuel with
  | O => diverge
  | S fuel => ch ← readChar; if ch =? 36 then mret tt else await fuel
  end.

(** The characters up to the '#', with the jump back at another '$'. Gives the checksum, the count and the last character. *)
Fixpoint packet_loop (fuel : nat) (checksum count ch : Z) : G (Z * Z * Z) :=
  match fuel with
  | O => diverge
  | S fuel =>
      if count <? BUFMAX - 1 then
        ch ← readChar;
        if ch =? 36 then packet_loop fuel 0 0 ch
        else if ch =? 35 then mret (checksum, count, ch)
        else
          _ ← poke (inBuffer + count) ch;
          packet_loop fuel (u8 (checksum + ch)) (u32 (count + 1)) ch
      else mret (checksum, count, ch)
  end.

(** The two digits behind the '#'. *)
Definition read_checksum : G Z :=
  ch ← readChar;
  let xmitcsum := u8 (Z.shiftl (hex ch) 4) in
  ch ← readChar;
  mret (u8 (xmitcsum + hex ch)).

Definition accept : G Z :=
  _ ← sendChar 43;
  c ← peek (inBuffer + 2);
  if c =? 58 then
    c ← peek inBuffer; _ ← sendChar c;
    c ← peek (inBuffer + 1); _ ← sendChar c;
    mret (inBuffer + 3)
  else mret inBuffer.

Fixpoint getPacket (fuel : nat) : G Z :=
  match fuel with
  | O => diverge
  | S fuel =>
      _ ← await (S fuel);
      r ← packet_loop (S fuel) 0 0 36;
      let '(checksum, count, ch) := r in
      _ ← poke (inBuffer + count) 0;
      if ch =? 35 then
        xmitcsum ← read_checksum;
        if negb (checksum =? xmitcsum) then _ ← sendChar 45; getPacket fuel
        else accept
      else getPacket fuel
  end.

(** The characters of a buffer up to its 0, with their checksum. *)
Fixpoint send_text (fuel : nat) (checksum ptr : Z) : G Z :=
  match fuel with
  | O => diverge
  | S fuel =>
      ch ← peek ptr;
      if ch =? 0 then mret checksum
      else _ ← sendChar ch; send_text fuel (u8 (checksum + ch)) (ptr + 1)
  end.

Fixpoint putPacket (fuel : nat) (buffer : Z) : G unit :=
  match fuel with
  | O => diverge
  | S fuel =>
      _ ← sendChar 36;
      checksum ← send_text (S fuel) 0 buffer;
      _ ← sendChar 35;
      _ ← sendChar (hexCharacter (Z.shiftr checksum 4));
      _ ← sendChar (hexCharacter (Z.land checksum 0x0F));
      ch ← readChar;
      if negb (ch =? 43) then putPacket fuel buffer else mret tt
  end.

(** ** Requests *)

(** [strcpy(outBuffer, "...")] *)
Fixpoint put_text (a : Z) (l : list Z) : G unit :=
  match l with [] => poke a 0 | c :: l => _ ← poke a c; put_text (a + 1) l end.

Definition answer (l : list Z) : G unit := put_text outBuffer l.

Definition OK : list Z := [79; 75].
Definition E01 : list Z := [69; 48; 49].
Definition E02 : list Z := [69; 48; 50].
Definition E03 : list Z := [69; 48; 51].

Definition readMemory (fuel : nat) (ptr : Z) : G unit :=
  '(n, address, ptr) ← hexToInt fuel 0 0 ptr;
  if n =? 0 then answer E01 else
  c ← peek ptr;
  if negb (c =? 44) then answer E01 else
  '(n, length, ptr) ← hexToInt fuel 0 0 (ptr + 1);
  if n =? 0 then answer E01 else
  _ ← modify (set_memError false);
  _ ← mem2hex address outBuffer length true;
  e ← gets memError;
  if (e : bool) then answer E03 else mret tt.

Definition writeMemory (fuel : nat) (ptr : Z) : G unit :=
  '(n, address, ptr) ← hexToInt fuel 0 0 ptr;
  if n =? 0 then answer E02 else
  c ← peek ptr;
  if negb (c =? 44) then answer E02 else
  '(n, length, ptr) ← hexToInt fuel 0 0 (ptr + 1);
  if n =? 0 then answer E02 else
  c ← peek ptr;
  if negb (c =? 58) then answer E02 else
  _ ← modify (set_memError false);
  _ ← hex2mem (ptr + 1) address length true;
  e ← gets memError;
  if (e : bool) then answer E03 else answer OK.

Definition setRegister (fuel : nat) (ptr : Z) : G unit :=
  '(n, regno, ptr) ← hexToInt fuel 0 0 ptr;
  if n =? 0 then mret tt else
  c ← peek ptr;
  if negb (c =? 61) then mret tt else
  _ ← hex2mem (ptr + 1) regValue_at 4 false;
  regValue ← gets (fun s => load32 (mem s) regValue_at);
  _ ← setFrameRegister (u8 regno) regValue;
  answer OK.

Definition resume (fuel : nat) (stepping : bool) (ptr : Z) : G unit :=
  '(n, address, ptr) ← hexToInt fuel 0 0 ptr;
  _ ← (if negb (n =? 0) then field32 Frame.eip address else mret tt);
  flags ← gets (fun s => load32 (mem s) (frame + Frame.eflags));
  _ ← field32 Frame.eflags (Z.land flags 0xfffffeff);
  if stepping then
    flags ← gets (fun s => load32 (mem s) (frame + Frame.eflags));
    field32 Frame.eflags (Z.lor flags 0x100)
  else mret tt.

(** One request; [true] when the thread goes on. The registers that are set all at once are read where the pointer [ptr] itself is stored. *)
Definition serve (fuel : nat) (sigval ptr : Z) : G bool :=
  c ← peek ptr;
  let ptr := ptr + 1 in
  if c =? GET_HALT_REASON then
    _ ← answer [83; hexCharacter (Z.shiftr sigval 4); hexCharacter (Z.land sigval 0x0F)]; mret false
  else if c =? TOGGLE_DEBUG then mret false
  else if c =? GET_REGISTERS then _ ← mem2hex gdbRegs_at outBuffer NUM_REGS_BYTES false; mret false
  else if c =? SET_REGISTERS then
    _ ← modify (fun s => set_mem (store32 (mem s) ptr_at ptr) s);
    _ ← setFrameRegisters ptr_at; _ ← answer OK; mret false
  else if c =? SET_REGISTER then _ ← setRegister fuel ptr; mret false
  else if c =? READ_MEMORY_HEX then _ ← readMemory fuel ptr; mret false
  else if c =? WRITE_MEMORY_HEX then _ ← writeMemory fuel ptr; mret false
  else if c =? STEP then _ ← resume fuel true ptr; mret true
  else if c =? CONTINUE then _ ← resume fuel false ptr; mret true
  else mret false.

(** The registers of each request are copied before it is served. *)
Fixpoint serve_loop (fuel : nat) (sigval : Z) : G unit :=
  match fuel with
  | O => diverge
  | S fuel =>
      _ ← poke outBuffer 0;
      ptr ← getPacket (S fuel);
      _ ← modify (fun s => set_mem (store_words gdbRegs_at (words_of (fromInterruptFrame (mem s))) (mem s)) s);
      r ← serve (S fuel) sigval ptr;
      if (r : bool) then mret tt
      else _ ← putPacket (S fuel) outBuffer; serve_loop fuel sigval
  end.

(** One register of the message that the thread has stopped. *)
Definition put_register (number field ptr : Z) : G Z :=
  _ ← poke ptr (hexCharacter number);
  _ ← poke (ptr + 1) 58;
  ptr ← mem2hex (frame + field) (ptr + 2) 4 false;
  _ ← poke ptr 59;
  mret (ptr + 1).

Definition handleInterrupt (fuel : nat) : G unit :=
  interrupt ← gets (fun s => load32 (mem s) (frame + Frame.interrupt));
  let sigval := computeSignal interrupt in
  _ ← poke outBuffer 84;
  _ ← poke (outBuffer + 1) (hexCharacter (Z.shiftr sigval 4));
  _ ← poke (outBuffer + 2) (hexCharacter (Z.land sigval 0x0F));
  ptr ← put_register REG_ESP Frame.esp (outBuffer + 3);
  ptr ← put_register REG_EBP Frame.ebp ptr;
  ptr ← put_register REG_EIP Frame.eip ptr;
  _ ← poke ptr 0;
  _ ← putPacket fuel outBuffer;
  serve_loop fuel sigval.
End Server.

(** ** Text in memory *)

Definition holds (m : Mem) (a : Z) (l : list Z) : Prop := forall i c, l !! i = Some c -> m (a + Z.of_nat i) = c.

Fixpoint store_list (a : Z) (l : list Z) (m : Mem) : Mem :=
  match l with [] => m | c :: l => store_list (a + 1) l (store8 m a c) end.

Definition within (a n x : Z) : Prop := a <= x < a + n.
Definition apart (a n b k : Z) : Prop := forall x, within a n x -> within b k x -> False.

Lemma holds_cons m a c l : holds m a (c :: l) <-> m a = c /\ holds m (a + 1) l.
Proof.
  split.
  - intros Hl. split; [by specialize (Hl 0%nat c eq_refl); rewrite Z.add_0_r in Hl|]. intros i d Hd. rewrite <- (Hl (S i) d Hd). f_equal. lia.
  - intros [Hc Hl] [|i] d Hd; [cbn in Hd; rewrite Z.add_0_r; congruence|]. rewrite <- (Hl i d Hd). f_equal. lia.
Qed.

Lemma holds_app m a l1 l2 : holds m a (l1 ++ l2) <-> holds m a l1 /\ holds m (a + Z.of_nat (length l1)) l2.
Proof.
  revert a. induction l1 as [|c l1 IH]; intros a; cbn [app length].
  - rewrite Z.add_0_r. split; [intros Hl; split; [by intros i c Hc|done]|by intros [_ Hl]].
  - rewrite !holds_cons, IH. replace (a + 1 + Z.of_nat (length l1)) with (a + Z.of_nat (S (length l1))) by lia. tauto.
Qed.

Lemma holds_ext m m' a l : holds m a l -> (forall x, within a (Z.of_nat (length l)) x -> m' x = m x) -> holds m' a l.
Proof. intros Hl Hm i c Hc. pose proof (lookup_lt_Some _ _ _ Hc). rewrite Hm by (unfold within; lia). by apply Hl. Qed.

Lemma store_list_outside a l m x : ~ within a (Z.of_nat (length l)) x -> store_list a l m x = m x.
Proof.
  revert a m. induction l as [|c l IH]; intros a m Hx; [done|]. unfold within in *. cbn [store_list length] in *. rewrite IH by lia. apply store8_ne. lia.
Qed.

Lemma store_list_holds a l m : holds (store_list a l m) a l.
Proof.
  revert a m. induction l as [|c l IH]; intros a m; [by intros i c Hc|]. apply holds_cons. cbn [store_list]. split; [|apply IH].
  rewrite store_list_outside by (unfold within; lia). apply store8_eq.
Qed.

Lemma store_list_inside a l m m' x : within a (Z.of_nat (length l)) x -> store_list a l m x = store_list a l m' x.
Proof.
  intros Hx. unfold within in Hx. destruct (lookup_lt_is_Some_2 l (Z.to_nat (x - a))) as [c Hc]; [lia|].
  pose proof (store_list_holds a l m _ _ Hc) as E1. pose proof (store_list_holds a l m' _ _ Hc) as E2. replace (a + Z.of_nat (Z.to_nat (x - a))) with x in E1, E2 by lia. congruence.
Qed.

Lemma store_list_app a l1 l2 m : store_list a (l1 ++ l2) m = store_list (a + Z.of_nat (length l1)) l2 (store_list a l1 m).
Proof.
  revert a m. induction l1 as [|c l1 IH]; intros a m; cbn [app store_list length]; [by rewrite Z.add_0_r|]. rewrite IH. f_equal. lia.
Qed.

Lemma bytes_store_list a l m : bytes m -> Forall is_u8 l -> bytes (store_list a l m).
Proof. intros Hm Hl. revert a m Hm. induction Hl as [|c l Hc _ IH]; intros a m Hm; [done|]. cbn. apply IH. by apply bytes_store8. Qed.

Lemma holds_apart m a l b k : holds m a l -> apart a (Z.of_nat (length l)) b (Z.of_nat (length k)) -> holds (store_list b k m) a l.
Proof. intros Hl Ha. eapply holds_ext; [done|]. intros x Hx. apply store_list_outside. intros Hx'. by apply (Ha x). Qed.

(** ** Hexadecimal text *)

Definition byte_text (b : Z) : list Z := [hexCharacter (Z.shiftr b 4); hexCharacter (Z.land b 0x0F)].
Definition bytes_text (bs : list Z) : list Z := bs ≫= byte_text.
Definition is_digit (c : Z) : Prop := hex c < 16.
Definition hex_value (ds : list Z) : Z := foldl (fun v c => (16 * v + hex c) mod 2 ^ 32) 0 ds.

Lemma hexCharacter_facts i : 0 <= i < 16 -> 0 < hexCharacter i < 256 /\ hex (hexCharacter i) = i /\ hexCharacter i <> 35 /\ hexCharacter i <> 36.
Proof.
  intros Hi. assert (Hall : Forall (fun i => (0 < hexCharacter i < 256) /\ hex (hexCharacter i) = i /\ hexCharacter i <> 35 /\ hexCharacter i <> 36) (seqZ 0 16)).
  { apply (bool_decide_unpack _). by vm_compute. }
  rewrite Forall_forall in Hall. apply Hall, elem_of_seqZ. lia.
Qed.

Lemma nibbles b : is_u8 b -> 0 <= Z.shiftr b 4 < 16 /\ 0 <= Z.land b 0x0F < 16 /\ u8 (u8 (Z.shiftl (Z.shiftr b 4) 4) + Z.land b 0x0F) = b.
Proof.
  unfold is_u8, u8. intros Hb. change 0x0F with (Z.ones 4). rewrite Z.land_ones, Z.shiftr_div_pow2, Z.shiftl_mul_pow2 by lia. change (2 ^ 4) with 16. change (2 ^ 8) with 256 in *.
  pose proof (Z.mod_pos_bound b 16 ltac:(lia)). pose proof (Z.div_mod b 16 ltac:(lia)). assert (0 <= b / 16 < 16) by (split; [apply Z.div_pos; lia|apply Z.div_lt_upper_bound; lia]).
  split; [done|]. split; [done|]. rewrite (Z.mod_small (b / 16 * 16)) by lia. rewrite Z.mod_small by lia. lia.
Qed.

Lemma hex_range c : 0 <= hex c < 256.
Proof. unfold hex. repeat match goal with |- context [if ?b then _ else _] => destruct b eqn:? end; rewrite ?andb_true_iff, ?Z.leb_le in *; lia. Qed.

Lemma add_digit v c : 0 <= v -> is_digit c -> Z.lor (u32 (Z.shiftl v 4)) (hex c) = (16 * v + hex c) mod 2 ^ 32.
Proof.
  intros Hv Hc. unfold is_digit in Hc. pose proof (hex_range c). unfold u32. rewrite Z.shiftl_mul_pow2 by lia. change (2 ^ 4) with 16.
  assert (E : (v * 16) mod 2 ^ 32 = 16 * (v mod 2 ^ 28)) by (change (2 ^ 32) with (2 ^ 28 * 16); rewrite Z.mul_mod_distr_r by lia; lia).
  rewrite E. pose proof (Z.mod_pos_bound v (2 ^ 28) ltac:(lia)).
  assert (En : Z.land (16 * (v mod 2 ^ 28)) (hex c) = 0).
  { apply Z.bits_inj'. intros n Hn. rewrite Z.land_spec, Z.bits_0. destruct (Z.lt_ge_cases n 4) as [Hn4|Hn4].
    - change 16 with (2 ^ 4). rewrite (Z.mul_comm (2 ^ 4)), Z.mul_pow2_bits_low by lia. done.
    - rewrite (Z.bits_above_log2 (hex c)); [by rewrite andb_false_r|lia|]. destruct (decide (hex c = 0)) as [->|]; [cbn; lia|]. apply Z.log2_lt_pow2; [lia|].
      apply Z.lt_le_trans with (2 ^ 4); [lia|]. apply Z.pow_le_mono_r; lia. }
  rewrite <- Z.lxor_lor, <- Z.add_nocarry_lxor by done. symmetry. rewrite Z.add_mod, (Z.mul_comm 16 v), E, (Z.mod_small (hex c)) by lia. apply Z.mod_small. lia.
Qed.

Lemma hex_value_snoc_range ds v : 0 <= v < 2 ^ 32 -> 0 <= foldl (fun v c => (16 * v + hex c) mod 2 ^ 32) v ds < 2 ^ 32.
Proof. revert v. induction ds as [|d ds IH]; intros v Hv; [done|]. cbn. apply IH. apply Z.mod_pos_bound. lia. Qed.

Lemma hex_value_range ds : is_u32 (hex_value ds).
Proof. by apply hex_value_snoc_range. Qed.

Lemma bytes_text_cons b bs : bytes_text (b :: bs) = byte_text b ++ bytes_text bs.
Proof. done. Qed.

Lemma length_bytes_text bs : length (bytes_text bs) = (2 * length bs)%nat.
Proof. induction bs as [|b bs IH]; [done|]. rewrite bytes_text_cons, length_app, IH. cbn [length byte_text]. lia. Qed.

Lemma bytes_text_chars bs : Forall is_u8 bs -> Forall (fun c => 0 < c < 256 /\ c <> 35 /\ c <> 36) (bytes_text bs).
Proof.
  intros Hbs. induction Hbs as [|b bs Hb _ IH]; [constructor|]. rewrite bytes_text_cons. destruct (nibbles b Hb) as (N1 & N2 & _). apply Forall_app. split; [|done].
  destruct (hexCharacter_facts _ N1) as (? & _ & ?). destruct (hexCharacter_facts _ N2) as (? & _ & ?). constructor; [done|]. constructor; [done|]. constructor.
Qed.

(** ** The loops *)

Section Loops.
Implicit Types (m : Mem) (mp : Z -> bool) (e : bool) (r t : list Z).

(** Every page of a region is present. *)
Definition present mp (a n : Z) : Prop := forall x, within a n x -> mp (page x) = true.

Lemma hexToInt_run ds c m mp e r t : forall fuel ptr k v, holds m ptr (ds ++ [c]) -> Forall is_digit ds -> ~ is_digit c -> ~ 0 ∈ ds -> (length ds < fuel)%nat -> 0 <= v < 2 ^ 32 ->
  0 <= k -> k + Z.of_nat (length ds) < 2 ^ 32 ->
  hexToInt fuel k v ptr (mkGdb m mp e r t) = Ret (k + Z.of_nat (length ds), foldl (fun v c => (16 * v + hex c) mod 2 ^ 32) v ds, ptr + Z.of_nat (length ds), mkGdb m mp e r t).
Proof.
  induction ds as [|d ds IH]; intros fuel ptr k v Hh Hds Hc Hz Hf Hv Hk Hkl; (destruct fuel as [|fuel]; [cbn in Hf; lia|]); cbn [app] in Hh; apply holds_cons in Hh as [Hd Hh];
    cbn [hexToInt]; unfold peek; st_step; cbn [mem]; unfold load8; rewrite Hd.
  - cbn [length foldl]. rewrite !Z.add_0_r. destruct (c =? 0); [done|]. by rewrite (proj2 (Z.ltb_ge _ _)) by (unfold is_digit in Hc; lia).
  - apply Forall_cons in Hds as [Hd1 Hds]. rewrite (proj2 (Z.eqb_neq _ _)) by (intros ->; apply Hz; left). rewrite (proj2 (Z.ltb_lt _ _)) by done.
    rewrite add_digit by (done || lia). cbn [length] in *. rewrite u32_small by (unfold is_u32; lia). rewrite IH; try done; try lia; [|set_solver|apply Z.mod_pos_bound; lia].
    cbn [foldl]. replace (k + 1 + Z.of_nat (length ds)) with (k + Z.of_nat (S (length ds))) by lia. by replace (ptr + 1 + Z.of_nat (length ds)) with (ptr + Z.of_nat (S (length ds))) by lia.
Qed.

Lemma hex_run ds c m mp e r t fuel ptr : holds m ptr (ds ++ [c]) -> Forall is_digit ds -> ~ is_digit c -> (length ds < fuel)%nat -> Z.of_nat (length ds) < 2 ^ 32 ->
  hexToInt fuel 0 0 ptr (mkGdb m mp e r t) = Ret (Z.of_nat (length ds), hex_value ds, ptr + Z.of_nat (length ds), mkGdb m mp e r t).
Proof.
  intros Hh Hds Hc Hf Hl. rewrite (hexToInt_run ds c); try done. rewrite Forall_forall in Hds. intros Hz. specialize (Hds 0 Hz). by vm_compute in Hds.
Qed.

Lemma touch_present mp m e r t a : mp (page a) = true -> touch a (mkGdb m mp e r t) = Ret (tt, mkGdb m mp e r t).
Proof. intros Ha. unfold touch. cbn. by rewrite Ha. Qed.

Lemma mem2hex_loop_run bs m mp e r t mayFault : forall a buf m1, (forall i b, bs !! i = Some b -> m (a + Z.of_nat i) = b) -> (forall x, within a (Z.of_nat (length bs)) x -> m1 x = m x) ->
  apart a (Z.of_nat (length bs)) buf (2 * Z.of_nat (length bs) + 1) -> present mp a (Z.of_nat (length bs)) -> 0 <= a -> a + Z.of_nat (length bs) <= 2 ^ 32 -> mayFault && e = false ->
  mem2hex_loop (length bs) a buf mayFault (mkGdb m1 mp e r t) = Ret (buf + 2 * Z.of_nat (length bs), mkGdb (store_list buf (bytes_text bs ++ [0]) m1) mp e r t).
Proof.
  induction bs as [|b bs IH]; intros a buf m1 Hb Hm Hap Hp Ha Hl He; cbn [length mem2hex_loop].
  - unfold poke. st_step. cbn. by rewrite Z.add_0_r.
  - cbn [length] in *. assert (Hin : within a (Z.of_nat (S (length bs))) a) by (unfold within; lia). unfold getChar. rewrite (ST_bind_Ret _ _ _ b (mkGdb m1 mp e r t)).
    2:{ rewrite (ST_bind_Ret _ _ _ tt (mkGdb m1 mp e r t)) by (apply touch_present, Hp, Hin). unfold peek. st_step. cbn [mem]. unfold load8. rewrite (Hm a Hin), <- (Hb 0%nat b eq_refl). do 3 f_equal. lia. }
    unfold poke. st_step. cbn [memError]. rewrite He. unfold set_mem. cbn [mem mapped memError rx tx].
    destruct (decide (length bs = 0%nat)) as [E0|E0].
    + apply nil_length_inv in E0 as ->. cbn. unfold poke. st_step. cbn. by replace (buf + 1 + 1) with (buf + 2) by lia.
    + rewrite u32_small by (unfold is_u32; lia). rewrite IH; try done; try lia.
      * change (bytes_text (b :: bs)) with ([hexCharacter (Z.shiftr b 4); hexCharacter (Z.land b 0x0F)] ++ bytes_text bs). cbn [app store_list]. replace (buf + 1 + 1) with (buf + 2) by lia.
        by replace (buf + 2 + 2 * Z.of_nat (length bs)) with (buf + 2 * Z.of_nat (S (length bs))) by lia.
      * intros i c Hc. rewrite <- (Hb (S i) c Hc). f_equal. lia.
      * intros x Hx. unfold within in Hx. rewrite !store8_ne; [apply Hm; unfold within; lia| |]; intros Ex; apply (Hap x); unfold within; lia.
      * intros x Hx Hx'. unfold within in Hx, Hx'. apply (Hap x); unfold within; lia.
      * intros x Hx. apply Hp. unfold within in *. lia.
Qed.

Lemma hex2mem_loop_run bs mp e r t mayFault : forall a buf m, holds m buf (bytes_text bs) -> Forall is_u8 bs ->
  apart a (Z.of_nat (length bs)) buf (2 * Z.of_nat (length bs)) -> present mp a (Z.of_nat (length bs)) -> 0 <= a -> a + Z.of_nat (length bs) <= 2 ^ 32 -> mayFault && e = false ->
  exists p, hex2mem_loop (length bs) buf a mayFault (mkGdb m mp e r t) = Ret (p, mkGdb (store_list a bs m) mp e r t).
Proof.
  induction bs as [|b bs IH]; intros a buf m Hh Hbs Hap Hp Ha Hl He; cbn [length hex2mem_loop]; [by eexists|].
  cbn [length] in *. apply Forall_cons in Hbs as [Hb Hbs]. change (bytes_text (b :: bs)) with (hexCharacter (Z.shiftr b 4) :: hexCharacter (Z.land b 0x0F) :: bytes_text bs) in Hh.
  apply holds_cons in Hh as [H1 Hh]. apply holds_cons in Hh as [H2 Hh]. destruct (nibbles b Hb) as (N1 & N2 & N3).
  unfold peek. st_step. cbn [mem]. unfold load8. rewrite H1, H2, (proj1 (proj2 (hexCharacter_facts _ N1))), (proj1 (proj2 (hexCharacter_facts _ N2))), N3.
  unfold setChar. st_step. rewrite touch_present by (apply Hp; unfold within; lia). unfold poke. st_step. cbn [memError set_mem]. rewrite He. unfold set_mem. cbn [mem mapped memError rx tx store_list].
  destruct (decide (length bs = 0%nat)) as [E0|E0]; [apply nil_length_inv in E0 as ->; by eexists|]. rewrite u32_small by (unfold is_u32; lia). apply IH; try done; try lia.
  - replace (buf + 1 + 1) with (buf + 2) in Hh by lia. eapply holds_ext; [done|]. intros x Hx. apply store8_ne. intros ->. unfold within in Hx.
    rewrite length_bytes_text in Hx. apply (Hap a); unfold within; lia.
  - intros x Hx Hx'. apply (Hap x); unfold within in *; lia.
  - intros x Hx. apply Hp. unfold within in *. lia.
Qed.

(** ** Packets *)

Definition checksum_of (l : list Z) : Z := foldl (fun c x => u8 (c + x)) 0 l.
Definition framed (l : list Z) : list Z := 36 :: l ++ 35 :: byte_text (checksum_of l).

(** What a packet may contain. *)
Definition payload (l : list Z) : Prop := Forall (fun c => 0 < c < 256 /\ c <> 35 /\ c <> 36) l /\ Z.of_nat (length l) < BUFMAX - 1.

Lemma checksum_range l : forall c, is_u8 c -> is_u8 (foldl (fun c x => u8 (c + x)) c l).
Proof. induction l as [|x l IH]; intros c Hc; [done|]. cbn. apply IH. unfold u8, is_u8. apply Z.mod_pos_bound. lia. Qed.

Lemma packet_loop_run inBuffer l mp e t rest : forall fuel ck k ch m, Forall (fun c => 0 < c < 256 /\ c <> 35 /\ c <> 36) l -> 0 <= k -> k + Z.of_nat (length l) < BUFMAX - 1 -> (length l < fuel)%nat ->
  packet_loop inBuffer fuel ck k ch (mkGdb m mp e (l ++ 35 :: rest) t) =
  Ret (foldl (fun c x => u8 (c + x)) ck l, k + Z.of_nat (length l), 35, mkGdb (store_list (inBuffer + k) l m) mp e rest t).
Proof.
  unfold BUFMAX. induction l as [|c l IH]; intros fuel ck k ch m Hl Hk Hn Hf; (destruct fuel as [|fuel]; [cbn in Hf; lia|]); cbn [packet_loop app length foldl store_list] in *; unfold BUFMAX; decide_bool;
    unfold readChar at 1; st_step; cbn [rx mem mapped memError tx].
  - cbn. by rewrite Z.add_0_r.
  - apply Forall_cons in Hl as [(Hc & H35 & H36) Hl]. rewrite !(proj2 (Z.eqb_neq _ _)) by done. unfold poke, set_mem. st_step. cbn [rx mem mapped memError tx].
    rewrite u32_small by (unfold is_u32; lia). rewrite IH by (done || lia). replace (inBuffer + (k + 1)) with (inBuffer + k + 1) by lia. by replace (k + 1 + Z.of_nat (length l)) with (k + Z.of_nat (S (length l))) by lia.
Qed.

(** The buffer after a packet does not look like one with a sequence number. *)
Definition plain_packet (m : Mem) (inBuffer : Z) (l : list Z) : Prop := if decide (length l < 2)%nat then m (inBuffer + 2) <> 58 else l !! 2%nat <> Some 58.

Lemma read_checksum_run b m mp e rest t : is_u8 b -> read_checksum (mkGdb m mp e (byte_text b ++ rest) t) = Ret (b, mkGdb m mp e rest t).
Proof.
  intros Hb. destruct (nibbles b Hb) as (N1 & N2 & N3). unfold read_checksum, readChar, byte_text. st_step. cbn [app rx mem mapped memError tx].
  by rewrite (proj1 (proj2 (hexCharacter_facts _ N1))), (proj1 (proj2 (hexCharacter_facts _ N2))), N3.
Qed.

Lemma getPacket_run inBuffer l m mp e rest t fuel : payload l -> plain_packet m inBuffer l -> (length l < fuel)%nat ->
  getPacket inBuffer fuel (mkGdb m mp e (framed l ++ rest) t) = Ret (inBuffer, mkGdb (store_list inBuffer (l ++ [0]) m) mp e rest (t ++ [43])).
Proof.
  intros [Hl Hn] Hp Hf. destruct fuel as [|fuel]; [lia|]. unfold framed. cbn [app getPacket await]. unfold readChar at 1. st_step. cbn [rx mem mapped memError tx Z.eqb Pos.eqb].
  rewrite <- app_assoc. cbn [app]. rewrite packet_loop_run by (done || lia). rewrite Z.add_0_r. unfold poke, set_mem. st_step. cbn [rx mem mapped memError tx]. cbn [Z.eqb Pos.eqb].
  change (foldl _ 0 l) with (checksum_of l). rewrite (read_checksum_run (checksum_of l)) by (apply checksum_range; done). rewrite Z.eqb_refl. cbn [negb].
  rewrite Z.add_0_l, <- (store_list_app inBuffer l [0] m : _ = store8 _ _ 0). unfold accept, sendChar, peek. st_step. cbn [rx mem mapped memError tx]. unfold load8.
  rewrite (proj2 (Z.eqb_neq _ _)); [done|]. unfold plain_packet in Hp. pose proof (store_list_holds inBuffer (l ++ [0]) m) as Hh. change (inBuffer + 2) with (inBuffer + Z.of_nat 2) in *. destruct (decide _) as [Hs|Hs].
  - rewrite store_list_outside by (unfold within; rewrite length_app; cbn; lia). done.
  - destruct (l !! 2%nat) as [c|] eqn:Ec.
    + rewrite (Hh 2%nat c) by (by apply lookup_app_l_Some). congruence.
    + apply lookup_ge_None in Ec. rewrite (Hh 2%nat 0); [done|]. rewrite lookup_app_r by lia. by replace (2 - length l)%nat with 0%nat by lia.
Qed.

Lemma send_text_run l mp e r m : forall fuel ck ptr t, holds m ptr (l ++ [0]) -> ~ 0 ∈ l -> (length l < fuel)%nat ->
  send_text fuel ck ptr (mkGdb m mp e r t) = Ret (foldl (fun c x => u8 (c + x)) ck l, mkGdb m mp e r (t ++ l)).
Proof.
  induction l as [|c l IH]; intros fuel ck ptr t Hh Hz Hf; (destruct fuel as [|fuel]; [cbn in Hf; lia|]); cbn [app length send_text foldl] in *; apply holds_cons in Hh as [Hc Hh];
    unfold peek; st_step; cbn [mem]; unfold load8; rewrite Hc.
  - by rewrite app_nil_r.
  - rewrite (proj2 (Z.eqb_neq _ _)) by (intros ->; apply Hz; left). unfold sendChar. st_step. cbn [rx mem mapped memError tx]. rewrite IH by (done || lia || set_solver). by rewrite <- app_assoc.
Qed.

Lemma putPacket_run buffer l m mp e r t fuel : holds m buffer (l ++ [0]) -> ~ 0 ∈ l -> (length l < fuel)%nat ->
  putPacket fuel buffer (mkGdb m mp e (43 :: r) t) = Ret (tt, mkGdb m mp e r (t ++ framed l)).
Proof.
  intros Hh Hz Hf. destruct fuel as [|fuel]; [lia|]. cbn [putPacket]. unfold sendChar, readChar. st_step. cbn [rx mem mapped memError tx]. rewrite (send_text_run l) by done.
  cbn [rx mem mapped memError tx Z.eqb Pos.eqb negb]. do 3 f_equal. unfold framed, byte_text. rewrite <- !app_assoc. done.
Qed.
End Loops.

(** ** What the debugger sees *)

(** The sixteen registers in the order of the protocol, and the memory of the program. *)
Record target := mkTarget { regs : list Z; memory : Mem }.

Definition word_bytes (w : Z) : list Z := [w mod 2 ^ 8; w / 2 ^ 8 mod 2 ^ 8; w / 2 ^ 16 mod 2 ^ 8; w / 2 ^ 24 mod 2 ^ 8].
Definition le_value (bs : list Z) : Z := foldr (fun b v => b + 2 ^ 8 * v) 0 bs.

Inductive command :=
| HaltReason
| ReadRegisters
| WriteRegister (ds bs : list Z)
| ReadMemory (da dn : list Z)
| WriteMemory (da dn bs : list Z)
| Other (l : list Z).

Definition text (c : command) : list Z :=
  match c with
  | HaltReason => [GET_HALT_REASON]
  | ReadRegisters => [GET_REGISTERS]
  | WriteRegister ds bs => SET_REGISTER :: ds ++ 61 :: bytes_text bs
  | ReadMemory da dn => READ_MEMORY_HEX :: da ++ 44 :: dn
  | WriteMemory da dn bs => WRITE_MEMORY_HEX :: da ++ 44 :: dn ++ 58 :: bytes_text bs
  | Other l => l
  end.

(** The last six registers have 16 bits. *)
Definition limit (r : nat) (v : Z) : Z := if decide (r < 10)%nat then v else u16 v.

Definition after (c : command) (t : target) : target :=
  match c with
  | WriteRegister ds bs => let r := Z.to_nat (hex_value ds) in mkTarget (<[r := limit r (le_value bs)]> (regs t)) (memory t)
  | WriteMemory da dn bs => mkTarget (regs t) (store_list (hex_value da) bs (memory t))
  | _ => t
  end.

Definition reply (sigval : Z) (c : command) (t : target) : list Z :=
  match c with
  | HaltReason => 83 :: byte_text sigval
  | ReadRegisters => bytes_text (regs t ≫= word_bytes)
  | ReadMemory da dn => bytes_text ((fun i => memory t (hex_value da + Z.of_nat i)) <$> seq 0 (Z.to_nat (hex_value dn)))
  | WriteRegister _ _ | WriteMemory _ _ _ => OK
  | Other _ => []
  end.

Definition reg (t : target) (i : nat) : Z := regs t !!! i.

Definition register_text (i : nat) (t : target) : list Z := [hexCharacter (Z.of_nat i); 58] ++ bytes_text (word_bytes (reg t i)) ++ [59].

Definition stop_text (sigval : Z) (t : target) : list Z := 84 :: byte_text sigval ++ register_text 4 t ++ register_text 5 t ++ register_text 8 t.

(** The thread goes on, at another address if one is given, and stops after one instruction if it is stepping. *)
Definition resumed (stepping : bool) (ds : list Z) (t : target) : target :=
  let rs := if decide (ds = []) then regs t else <[8%nat := hex_value ds]> (regs t) in
  let fl := Z.land (rs !!! 9%nat) 0xfffffeff in
  mkTarget (<[9%nat := if stepping then Z.lor fl 0x100 else fl]> rs) (memory t).

(** What is sent in a session, and the target behind it. *)
Fixpoint transcript (sigval : Z) (cs : list command) (t : target) : list Z :=
  match cs with
  | [] => []
  | c :: cs => 43 :: framed (reply sigval c t) ++ transcript sigval cs (after c t)
  end.

Definition finally (cs : list command) (t : target) : target := foldl (fun t c => after c t) t cs.

(** What the client sends for it. *)
Definition requests (cs : list command) : list Z := cs ≫= fun c => framed (text c) ++ [43].

(** ** The relation with the server *)

Section Sessions.
Context (inBuffer outBuffer frame gdbRegs_at regValue_at ptr_at : Z) (mp : Z -> bool).
Implicit Types (m : Mem) (t : target).

Definition reserved (x : Z) : Prop :=
  within inBuffer BUFMAX x \/ within outBuffer BUFMAX x \/ within frame Frame.size x \/ within gdbRegs_at NUM_REGS_BYTES x \/ within regValue_at 4 x.

(** Buffers, frame and local variables do not overlap, and lie in pages that are present. *)
Record layout : Prop := {
  in_out : apart inBuffer BUFMAX outBuffer BUFMAX;
  in_frame : apart inBuffer BUFMAX frame Frame.size;
  in_regs : apart inBuffer BUFMAX gdbRegs_at NUM_REGS_BYTES;
  in_value : apart inBuffer BUFMAX regValue_at 4;
  out_frame : apart outBuffer BUFMAX frame Frame.size;
  out_regs : apart outBuffer BUFMAX gdbRegs_at NUM_REGS_BYTES;
  out_value : apart outBuffer BUFMAX regValue_at 4;
  frame_regs : apart frame Frame.size gdbRegs_at NUM_REGS_BYTES;
  frame_value : apart frame Frame.size regValue_at 4;
  frame_place : 0 < frame /\ frame + Frame.size <= 2 ^ 32 /\ present mp frame Frame.size;
  regs_place : 0 < gdbRegs_at /\ gdbRegs_at + NUM_REGS_BYTES <= 2 ^ 32 /\ present mp gdbRegs_at NUM_REGS_BYTES;
  value_place : 0 < regValue_at /\ regValue_at + 4 <= 2 ^ 32 /\ present mp regValue_at 4
}.

Record related m t : Prop := {
  re_bytes : bytes m;
  re_regs : words_of (fromInterruptFrame frame m) = regs t;
  re_memory : forall x, ~ reserved x -> m x = memory t x;
  re_plain : m (inBuffer + 2) <> 58
}.

(** Memory of the program that a request may touch. *)
Definition accessible (a n : Z) : Prop := 0 < a /\ a + n <= 2 ^ 32 /\ present mp a n /\ forall x, within a n x -> ~ reserved x.

Definition numeral (ds : list Z) : Prop := ds <> [] /\ Forall is_digit ds.

Definition known (ch : Z) : Prop :=
  ch ∈ [GET_HALT_REASON; TOGGLE_DEBUG; GET_REGISTERS; SET_REGISTERS; SET_REGISTER; READ_MEMORY_HEX; WRITE_MEMORY_HEX; STEP; CONTINUE].

Definition fits (c : command) : Prop :=
  match c with
  | HaltReason | ReadRegisters => True
  | WriteRegister ds bs => numeral ds /\ hex_value ds < 16 /\ length bs = 4%nat /\ Forall is_u8 bs /\ Z.of_nat (length (text c)) < BUFMAX - 1
  | ReadMemory da dn => numeral da /\ numeral dn /\ accessible (hex_value da) (hex_value dn) /\ 2 * hex_value dn < BUFMAX /\ Z.of_nat (length (text c)) < BUFMAX - 1
  | WriteMemory da dn bs => numeral da /\ numeral dn /\ accessible (hex_value da) (hex_value dn) /\ hex_value dn = Z.of_nat (length bs) /\ Forall is_u8 bs /\ Z.of_nat (length (text c)) < BUFMAX - 1
  | Other l => payload l /\ l !! 2%nat <> Some 58 /\ forall ch, head l = Some ch -> ~ known ch
  end.

Lemma frame_ext m m' : (forall x, within frame Frame.size x -> m' x = m x) -> fromInterruptFrame frame m' = fromInterruptFrame frame m.
Proof.
  intros Hm. unfold fromInterruptFrame. unfold within, Frame.size in Hm.
  f_equal; try (apply load32_ext; intros x Hx; apply Hm; unfold Frame.eax, Frame.ebx, Frame.ecx, Frame.edx, Frame.esp, Frame.ebp, Frame.esi, Frame.edi, Frame.eip, Frame.eflags in Hx; lia);
    unfold load16, Frame.cs, Frame.ss, Frame.ds, Frame.es, Frame.fs, Frame.gs; rewrite !Hm by lia; done.
Qed.

Lemma related_ext m m' t : related m t -> bytes m' -> (forall x, within frame Frame.size x -> m' x = m x) -> (forall x, ~ reserved x -> m' x = m x) -> m' (inBuffer + 2) <> 58 -> related m' t.
Proof.
  intros [H1 H2 H3 H4] Hb Hf Hm Hp. split; [done|by rewrite (frame_ext m m')|intros x Hx; rewrite Hm by done; by apply H3|done].
Qed.

Context (L : layout).

Lemma related_region a n l m t : related m t -> Forall is_u8 l -> Z.of_nat (length l) <= n -> apart frame Frame.size a n -> apart inBuffer BUFMAX a n -> (forall x, within a n x -> reserved x) ->
  related (store_list a l m) t.
Proof.
  intros HR Hl Hn Hf Hi Hr. apply (related_ext m); [done|apply bytes_store_list; [apply HR|done]| | |].
  - intros x Hx. apply store_list_outside. intros Hx'. apply (Hf x Hx). unfold within in *. lia.
  - intros x Hx. apply store_list_outside. intros Hx'. apply Hx, Hr. unfold within in *. lia.
  - rewrite store_list_outside; [apply HR|]. intros Hx'. apply (Hi (inBuffer + 2)); unfold within, BUFMAX in *; lia.
Qed.

Lemma apart_sym a n b k : apart a n b k -> apart b k a n.
Proof. intros H x H1 H2. by apply (H x). Qed.

Lemma related_out l m t : related m t -> Forall is_u8 l -> Z.of_nat (length l) <= BUFMAX -> related (store_list outBuffer l m) t.
Proof. intros HR Hl Hn. apply (related_region outBuffer BUFMAX); try done; [apply apart_sym, L|apply L|]. intros x Hx. unfold reserved. tauto. Qed.

Lemma related_copy l m t : related m t -> Forall is_u8 l -> Z.of_nat (length l) <= NUM_REGS_BYTES -> related (store_list gdbRegs_at l m) t.
Proof. intros HR Hl Hn. apply (related_region gdbRegs_at NUM_REGS_BYTES); try done; [apply L|apply L|]. intros x Hx. unfold reserved. tauto. Qed.

Lemma related_value l m t : related m t -> Forall is_u8 l -> Z.of_nat (length l) <= 4 -> related (store_list regValue_at l m) t.
Proof. intros HR Hl Hn. apply (related_region regValue_at 4); try done; [apply L|apply L|]. intros x Hx. unfold reserved. tauto. Qed.

(** *** Words *)

Lemma store32_list m a w : store32 m a w = store_list a (word_bytes w) m.
Proof. unfold store32, word_bytes. cbn [store_list]. by replace (a + 1 + 1 + 1) with (a + 3) by lia; replace (a + 1 + 1) with (a + 2) by lia. Qed.

Lemma store_words_list ws : forall a m, store_words a ws m = store_list a (ws ≫= word_bytes) m.
Proof.
  induction ws as [|w ws IH]; intros a m; [done|]. change ((w :: ws) ≫= word_bytes) with (word_bytes w ++ (ws ≫= word_bytes)). rewrite store_list_app, <- store32_list. cbn [store_words]. by rewrite IH.
Qed.

Lemma word_bytes_u8 w : Forall is_u8 (word_bytes w).
Proof. unfold is_u8. repeat (constructor; [apply Z.mod_pos_bound; lia|]). constructor. Qed.

Lemma words_bytes_u8 ws : Forall is_u8 (ws ≫= word_bytes).
Proof. induction ws as [|w ws IH]; [constructor|]. apply Forall_app. split; [apply word_bytes_u8|done]. Qed.

Lemma length_words_bytes ws : length (ws ≫= word_bytes) = (4 * length ws)%nat.
Proof. induction ws as [|w ws IH]; [done|]. change ((w :: ws) ≫= word_bytes) with (word_bytes w ++ (ws ≫= word_bytes)). rewrite length_app, IH. cbn [length word_bytes]. lia. Qed.

Lemma le_bytes b0 b1 b2 b3 : is_u8 b0 -> is_u8 b1 -> is_u8 b2 -> is_u8 b3 -> word_bytes (b0 + 2 ^ 8 * b1 + 2 ^ 16 * b2 + 2 ^ 24 * b3) = [b0; b1; b2; b3].
Proof.
  unfold is_u8, word_bytes. intros H0 H1 H2 H3. set (w := _ + _).
  assert (Ew : w = b0 + (b1 + (b2 + b3 * 2 ^ 8) * 2 ^ 8) * 2 ^ 8) by (unfold w; lia).
  assert (E1 : w / 2 ^ 8 = b1 + (b2 + b3 * 2 ^ 8) * 2 ^ 8) by (rewrite Ew, Z.div_add, Z.div_small by lia; lia).
  assert (E2 : w / 2 ^ 16 = b2 + b3 * 2 ^ 8) by (change (2 ^ 16) with (2 ^ 8 * 2 ^ 8); rewrite <- Z.div_div, E1, Z.div_add, Z.div_small by lia; lia).
  assert (E3 : w / 2 ^ 24 = b3) by (change (2 ^ 24) with (2 ^ 16 * 2 ^ 8); rewrite <- Z.div_div, E2, Z.div_add, Z.div_small by lia; lia).
  rewrite E3, E2, E1, Ew, !Z.mod_add, !Z.mod_small by lia. done.
Qed.

Lemma holds_word m a : bytes m -> holds m a (word_bytes (load32 m a)).
Proof.
  intros Hb. unfold load32. rewrite le_bytes by apply Hb. rewrite !holds_cons. replace (a + 1 + 1 + 1) with (a + 3) by lia. replace (a + 1 + 1) with (a + 2) by lia.
  split_and!; [done..|]. by intros i c Hc.
Qed.

Lemma load32_holds m a bs : holds m a bs -> length bs = 4%nat -> load32 m a = le_value bs.
Proof.
  intros Hh Hl. destruct bs as [|b0 [|b1 [|b2 [|b3 [|]]]]]; try done. rewrite !holds_cons in Hh. destruct Hh as (H0 & H1 & H2 & H3 & _).
  replace (a + 1 + 1 + 1) with (a + 3) in * by lia. replace (a + 1 + 1) with (a + 2) in * by lia. unfold load32, le_value. rewrite H0, H1, H2, H3. cbn [foldr]. lia.
Qed.

Lemma put_text_run l e r tr : forall a m, put_text a l (mkGdb m mp e r tr) = Ret (tt, mkGdb (store_list a (l ++ [0]) m) mp e r tr).
Proof. induction l as [|c l IH]; intros a m; [done|]. cbn [put_text]. unfold poke. st_step. unfold set_mem. cbn [mem mapped memError rx tx]. by rewrite IH. Qed.

(** The answer lies in its buffer, and nothing else has changed. *)
Lemma answer_run l e r tr m t : related m t -> Forall is_u8 l -> Z.of_nat (length l) < BUFMAX ->
  exists m', answer outBuffer l (mkGdb m mp e r tr) = Ret (tt, mkGdb m' mp e r tr) /\ related m' t /\ holds m' outBuffer (l ++ [0]).
Proof.
  intros HR Hl Hn. eexists. unfold answer. rewrite put_text_run. split; [done|]. split; [|apply store_list_holds].
  apply related_out; [done|apply Forall_app; split; [done|by constructor]|]. rewrite length_app. cbn. lia.
Qed.

(** *** Numerals *)

Lemma digit_char c : is_digit c -> (48 <= c <= 57) \/ (65 <= c <= 70) \/ (97 <= c <= 102).
Proof.
  unfold is_digit, hex. repeat match goal with |- context [if ?b then _ else _] => destruct b eqn:? end; rewrite ?andb_true_iff, ?Z.leb_le in *; lia.
Qed.

Lemma numeral_chars ds : Forall is_digit ds -> Forall (fun c => 0 < c < 256 /\ c <> 35 /\ c <> 36) ds.
Proof. intros Hds. eapply Forall_impl; [exact Hds|]. intros c Hc. apply digit_char in Hc. lia. Qed.

Lemma not_digit c : c ∈ [0; 44; 58; 61] -> ~ is_digit c.
Proof. intros Hc. apply (Forall_forall (fun c => ~ is_digit c) [0; 44; 58; 61]); [|done]. repeat (constructor; [by vm_compute|]). constructor. Qed.

(** A numeral in front of another character. *)
Lemma numeral_run ds c l m e r tr fuel ptr : holds m ptr (ds ++ c :: l) -> numeral ds -> c ∈ [0; 44; 58; 61] -> Z.of_nat (length ds) < BUFMAX -> (400 <= fuel)%nat ->
  hexToInt fuel 0 0 ptr (mkGdb m mp e r tr) = Ret (Z.of_nat (length ds), hex_value ds, ptr + Z.of_nat (length ds), mkGdb m mp e r tr) /\ (Z.of_nat (length ds) =? 0) = false /\
  m (ptr + Z.of_nat (length ds)) = c /\ holds m (ptr + Z.of_nat (length ds) + 1) l.
Proof.
  unfold BUFMAX. intros Hh [Hne Hds] Hc Hl Hf. pose proof Hh as Hh1. apply holds_app in Hh1 as [Hd Hr]. apply holds_cons in Hr as [Hm Hr]. split; [|split; [|done]].
  - apply (hex_run ds c); [|done|by apply not_digit|lia|lia]. apply holds_app. split; [done|]. apply holds_cons. split; [done|]. by intros i x Hx.
  - apply Z.eqb_neq. destruct ds; [done|cbn; lia].
Qed.

(** *** Registers *)

Ltac fields_now :=
  unfold Frame.eax, Frame.ebx, Frame.ecx, Frame.edx, Frame.esp, Frame.ebp, Frame.esi, Frame.edi, Frame.eip, Frame.eflags, Frame.cs, Frame.ss, Frame.gs, Frame.fs, Frame.es, Frame.ds, Frame.size in *.

(** One field of the frame written. *)
Definition updates m m' (r : nat) (v : Z) : Prop :=
  words_of (fromInterruptFrame frame m') = <[r := limit r v]> (words_of (fromInterruptFrame frame m)) /\ (forall x, ~ within frame Frame.size x -> m' x = m x) /\ bytes m'.

Lemma update_field32 f m v r : is_u32 v -> bytes m -> In (r, f) [(0, Frame.eax); (1, Frame.ecx); (2, Frame.edx); (3, Frame.ebx); (4, Frame.esp); (5, Frame.ebp); (6, Frame.esi); (7, Frame.edi); (8, Frame.eip); (9, Frame.eflags)]%nat ->
  updates m (store32 m (frame + f) v) r v.
Proof.
  intros Hv Hm Hin. split; [|split; [|by apply bytes_store32]].
  - unfold words_of, fromInterruptFrame, limit. cbn [r_eax r_ecx r_edx r_ebx r_esp r_ebp r_esi r_edi r_pc r_ps r_cs r_ss r_ds r_es r_fs r_gs].
    repeat (destruct Hin as [[= <- <-]|Hin]; [cbn; fields_now; rewrite load_store32_eq by done; rewrite !load_store32_ne, !load16_store32_ne by lia; done|]). done.
  - intros x Hx. apply store32_outside. unfold within in Hx. repeat (destruct Hin as [[= <- <-]|Hin]; [fields_now; lia|]). done.
Qed.

Lemma update_field16 f m v r : bytes m -> In (r, f) [(10, Frame.cs); (11, Frame.ss); (12, Frame.ds); (13, Frame.es); (14, Frame.fs); (15, Frame.gs)]%nat ->
  updates m (store16 m (frame + f) (u16 v)) r v.
Proof.
  intros Hm Hin. split; [|split; [|by apply bytes_store16]].
  - unfold words_of, fromInterruptFrame, limit. cbn [r_eax r_ecx r_edx r_ebx r_esp r_ebp r_esi r_edi r_pc r_ps r_cs r_ss r_ds r_es r_fs r_gs].
    repeat (destruct Hin as [[= <- <-]|Hin]; [cbn; fields_now; rewrite load16_store16; rewrite !load32_store16_ne, !load16_store16_ne by lia; done|]). done.
  - intros x Hx. apply store16_outside. unfold within in Hx. repeat (destruct Hin as [[= <- <-]|Hin]; [fields_now; lia|]). done.
Qed.

Lemma setFrameRegister_run (r : nat) v m e rs tr : (r < 16)%nat -> is_u32 v -> bytes m ->
  exists m', setFrameRegister frame (Z.of_nat r) v (mkGdb m mp e rs tr) = Ret (tt, mkGdb m' mp e rs tr) /\ updates m m' r v.
Proof.
  intros Hr Hv Hm. unfold setFrameRegister, field32, field16. do 16 (destruct r as [|r]; [eexists; split; [reflexivity|]; cbn [mem]; (apply update_field32; [done|done|cbn; tauto]) || (apply update_field16; [done|cbn; tauto])|]). lia.
Qed.

Lemma updates_related m m' r v t : related m t -> updates m m' r v -> related m' (mkTarget (<[r := limit r v]> (regs t)) (memory t)).
Proof.
  intros [H1 H2 H3 H4] (U1 & U2 & U3). split; [done|by rewrite U1, H2| |].
  - intros x Hx. rewrite U2; [by apply H3|]. intros Hf. apply Hx. unfold reserved. tauto.
  - rewrite U2; [done|]. intros Hf. apply (in_frame L (inBuffer + 2)); [unfold within, BUFMAX; lia|done].
Qed.

(** *** Requests *)

Lemma mem2hex_run bs m e r tr a buf count mayFault : holds m a bs -> Z.of_nat (length bs) = count -> 0 < a -> a + count <= 2 ^ 32 -> present mp a count -> apart a count buf (2 * count + 1) -> mayFault && e = false ->
  mem2hex a buf count mayFault (mkGdb m mp e r tr) = Ret (buf + 2 * count, mkGdb (store_list buf (bytes_text bs ++ [0]) m) mp e r tr).
Proof.
  intros Hh <- Ha Hl Hp Hap He. unfold mem2hex. decide_bool. rewrite Nat2Z.id. by apply (mem2hex_loop_run bs m); try lia.
Qed.

Lemma hex2mem_run bs m e r tr a buf count mayFault : holds m buf (bytes_text bs) -> Forall is_u8 bs -> Z.of_nat (length bs) = count -> 0 < a -> a + count <= 2 ^ 32 -> present mp a count -> apart a count buf (2 * count) ->
  mayFault && e = false -> exists p, hex2mem buf a count mayFault (mkGdb m mp e r tr) = Ret (p, mkGdb (store_list a bs m) mp e r tr).
Proof. intros Hh Hb <- Ha Hl Hp Hap He. unfold hex2mem. decide_bool. rewrite Nat2Z.id. apply hex2mem_loop_run; try done; lia. Qed.

Lemma apart_sub a n b k a' n' b' k' : apart a n b k -> (forall x, within a' n' x -> within a n x) -> (forall x, within b' k' x -> within b k x) -> apart a' n' b' k'.
Proof. intros H Ha Hb x H1 H2. apply (H x); auto. Qed.

(** What serving a request has to do. *)
Definition serves (fuel : nat) (sigval : Z) (c : command) : Prop := forall m t e r tr,
  related m t -> holds m inBuffer (text c ++ [0]) -> fits c -> holds m gdbRegs_at (regs t ≫= word_bytes) -> m outBuffer = 0 ->
  exists m' e', serve outBuffer frame gdbRegs_at regValue_at ptr_at fuel sigval inBuffer (mkGdb m mp e r tr) = Ret (false, mkGdb m' mp e' r tr) /\
    related m' (after c t) /\ holds m' outBuffer (reply sigval c t ++ [0]).

Lemma length_regs m t : related m t -> length (regs t) = 16%nat.
Proof. intros HR. by rewrite <- (re_regs _ _ HR). Qed.

Lemma bytes_text_u8 bs : Forall is_u8 bs -> Forall is_u8 (bytes_text bs).
Proof. intros Hb. eapply Forall_impl; [by apply bytes_text_chars|]. unfold is_u8. cbn. lia. Qed.

Ltac dispatch H := unfold serve, peek; st_step; cbn [mem]; unfold load8; rewrite H;
  unfold GET_HALT_REASON, TOGGLE_DEBUG, GET_REGISTERS, SET_REGISTERS, SET_REGISTER, READ_MEMORY_HEX, WRITE_MEMORY_HEX, STEP, CONTINUE; cbn [Z.eqb Pos.eqb].

Lemma serves_halt fuel sigval : is_u8 sigval -> serves fuel sigval HaltReason.
Proof.
  intros Hs m t e r tr HR Hh _ _ _. apply holds_cons in Hh as [Hc _]. dispatch Hc.
  destruct (answer_run (83 :: byte_text sigval) e r tr m t HR) as (m' & E & HR' & Hh').
  - constructor; [done|]. pose proof (bytes_text_u8 [sigval]) as Hb. rewrite bytes_text_cons, app_nil_r in Hb. apply Hb. by apply Forall_singleton.
  - done.
  - exists m', e. unfold byte_text in E. rewrite E. done.
Qed.

Lemma serves_registers fuel sigval : serves fuel sigval ReadRegisters.
Proof.
  intros m t e r tr HR Hh _ Hg _. apply holds_cons in Hh as [Hc _]. dispatch Hc. pose proof (length_words_bytes (regs t)) as Hl. rewrite (length_regs m t HR) in Hl.
  destruct (regs_place L) as (Hp1 & Hp2 & Hp3).
  rewrite (mem2hex_run (regs t ≫= word_bytes)); [|done|rewrite Hl; done|done..| |done].
  - eexists _, e. split; [done|]. split; [|apply store_list_holds]. apply related_out; [done| |rewrite length_app, length_bytes_text, Hl; done].
    apply Forall_app. split; [apply bytes_text_u8, words_bytes_u8|by repeat constructor].
  - eapply apart_sub; [apply apart_sym, (out_regs L)|done|]. unfold within, NUM_REGS_BYTES, BUFMAX. lia.
Qed.

Lemma serves_other fuel sigval l : serves fuel sigval (Other l).
Proof.
  intros m t e r tr HR Hh (_ & _ & Hk) _ Ho. exists m, e. split; [|split; [done|apply holds_cons; split; [done|by intros i c Hc]]].
  unfold serve, peek. st_step. cbn [mem]. unfold load8. assert (Hn : ~ known (m inBuffer)).
  { destruct l as [|c l]; cbn [text app] in Hh; apply holds_cons in Hh as [-> _]; [|by apply Hk]. unfold known. apply (bool_decide_unpack _). by vm_compute. }
  unfold known in Hn. rewrite !not_elem_of_cons in Hn. destruct Hn as (N1 & N2 & N3 & N4 & N5 & N6 & N7 & N8 & N9 & _). by rewrite !(proj2 (Z.eqb_neq _ _)) by done.
Qed.

Lemma le_value_range bs : Forall is_u8 bs -> length bs = 4%nat -> is_u32 (le_value bs).
Proof.
  intros Hb Hl. destruct bs as [|b0 [|b1 [|b2 [|b3 [|]]]]]; try done. rewrite !Forall_cons in Hb. destruct Hb as (H0 & H1 & H2 & H3 & _). unfold is_u8, is_u32, le_value in *. cbn [foldr]. lia.
Qed.

Lemma serves_writeRegister fuel sigval ds bs : (400 <= fuel)%nat -> serves fuel sigval (WriteRegister ds bs).
Proof.
  intros Hf m t e r tr HR Hh (Hds & Hr & Hl & Hb & Ht) _ _. cbn [text app] in Hh, Ht. rewrite <- app_assoc in Hh. cbn [app] in Hh. apply holds_cons in Hh as [Hc Hh]. dispatch Hc. cbn [length] in Ht. rewrite length_app in Ht. cbn [length] in Ht.
  rewrite length_bytes_text in Ht. destruct (numeral_run ds 61 (bytes_text bs ++ [0]) m e r tr fuel (inBuffer + 1) Hh Hds) as (E1 & E2 & E3 & Hh'); [set_solver|lia|done|].
  unfold setRegister. st_step. rewrite E1. rewrite E2. unfold peek. st_step. cbn [mem]. unfold load8. rewrite E3. cbn [Z.eqb Pos.eqb negb].
  apply holds_app in Hh' as [Hh' _]. destruct (value_place L) as (Hv1 & Hv2 & Hv3). unfold BUFMAX in Ht.
  destruct (hex2mem_run bs m e r tr regValue_at (inBuffer + 1 + Z.of_nat (length ds) + 1) 4 false Hh' Hb) as [p E4]; [lia|done|done|done| |done|].
  { eapply apart_sub; [apply apart_sym, (in_value L)|done|]. unfold within, BUFMAX. lia. }
  rewrite E4. unfold gets. cbn [mem]. rewrite (load32_holds _ _ bs (store_list_holds _ _ _) Hl).
  assert (HR1 : related (store_list regValue_at bs m) t) by (apply related_value; [done|done|lia]). pose proof (hex_value_range ds) as Hrange. unfold is_u32 in Hrange.
  destruct (setFrameRegister_run (Z.to_nat (hex_value ds)) (le_value bs) (store_list regValue_at bs m) e r tr) as (m1 & E5 & HU); [lia|by apply le_value_range|apply HR1|].
  unfold u8. rewrite Z.mod_small by lia. rewrite Z2Nat.id in E5 by lia. rewrite E5. pose proof (updates_related _ _ _ _ _ HR1 HU) as HR2.
  destruct (answer_run OK e r tr m1 _ HR2) as (m2 & E6 & HR3 & Hh3); [by repeat constructor|done|]. rewrite E6. exists m2, e. done.
Qed.

Lemma memory_holds m t a n : related m t -> (forall x, within a (Z.of_nat n) x -> ~ reserved x) -> holds m a ((fun i => memory t (a + Z.of_nat i)) <$> seq 0 n).
Proof.
  intros HR Hx i c Hc. apply list_lookup_fmap_Some in Hc as (j & -> & Hj). apply lookup_seq in Hj as [-> Hj]. apply HR, Hx. unfold within. lia.
Qed.

Lemma memory_bytes m t a n : related m t -> (forall x, within a (Z.of_nat n) x -> ~ reserved x) -> Forall is_u8 ((fun i => memory t (a + Z.of_nat i)) <$> seq 0 n).
Proof.
  intros HR Hx. apply Forall_lookup. intros i c Hc. apply list_lookup_fmap_Some in Hc as (j & -> & Hj). apply lookup_seq in Hj as [-> Hj]. rewrite <- (re_memory _ _ HR); [apply HR|]. apply Hx. unfold within. lia.
Qed.

Lemma serves_readMemory fuel sigval da dn : (400 <= fuel)%nat -> serves fuel sigval (ReadMemory da dn).
Proof.
  intros Hf m t e r tr HR Hh (Hda & Hdn & (Ha1 & Ha2 & Ha3 & Ha4) & Hn & Ht) _ _. cbn [text app] in Hh, Ht. rewrite <- app_assoc in Hh. cbn [app] in Hh. apply holds_cons in Hh as [Hc Hh]. dispatch Hc.
  cbn [length] in Ht. rewrite length_app in Ht. cbn [length] in Ht. unfold BUFMAX in *. pose proof (hex_value_range dn) as Hrange. unfold is_u32 in Hrange.
  destruct (numeral_run da 44 (dn ++ [0]) m e r tr fuel (inBuffer + 1) Hh Hda) as (E1 & E2 & E3 & Hh'); [set_solver|unfold BUFMAX; lia|done|].
  destruct (numeral_run dn 0 [] m e r tr fuel _ Hh' Hdn) as (F1 & F2 & _ & _); [set_solver|unfold BUFMAX; lia|done|].
  unfold readMemory. st_step. rewrite E1, E2. unfold peek. st_step. cbn [mem]. unfold load8. rewrite E3. cbn [Z.eqb Pos.eqb negb]. rewrite F1, F2. unfold modify, set_memError. cbn [mem mapped memError rx tx].
  set (a := hex_value da) in *. set (n := hex_value dn) in *. rewrite <- (Z2Nat.id n) in Ha4 by lia. set (bs := (fun i => memory t (a + Z.of_nat i)) <$> seq 0 (Z.to_nat n)).
  assert (Hlen : length bs = Z.to_nat n) by (unfold bs; by rewrite length_fmap, length_seq).
  rewrite (mem2hex_run bs); [|by apply memory_holds|lia|done|done|done| |done].
  - unfold gets. cbn [memError]. eexists _, false. split; [done|]. split; [|apply store_list_holds]. apply related_out; [done| |rewrite length_app, length_bytes_text; unfold BUFMAX; cbn; lia].
    apply Forall_app. split; [apply bytes_text_u8; by eapply memory_bytes|by repeat constructor].
  - intros x Hx Hx'. rewrite Z2Nat.id in Ha4 by lia. apply (Ha4 x Hx). unfold reserved, within, BUFMAX in *. right. left. lia.
Qed.

Lemma serves_writeMemory fuel sigval da dn bs : (400 <= fuel)%nat -> serves fuel sigval (WriteMemory da dn bs).
Proof.
  intros Hf m t e r tr HR Hh (Hda & Hdn & (Ha1 & Ha2 & Ha3 & Ha4) & Hn & Hb & Ht) _ _. cbn [text app] in Hh, Ht. rewrite <- app_assoc in Hh. cbn [app] in Hh. rewrite <- app_assoc in Hh. cbn [app] in Hh. apply holds_cons in Hh as [Hc Hh]. dispatch Hc.
  cbn [length] in Ht. rewrite length_app in Ht. cbn [length] in Ht. rewrite length_app in Ht. cbn [length] in Ht. rewrite length_bytes_text in Ht. unfold BUFMAX in *.
  destruct (numeral_run da 44 (dn ++ 58 :: bytes_text bs ++ [0]) m e r tr fuel (inBuffer + 1) Hh Hda) as (E1 & E2 & E3 & Hh'); [set_solver|unfold BUFMAX; lia|done|].
  destruct (numeral_run dn 58 (bytes_text bs ++ [0]) m e r tr fuel _ Hh' Hdn) as (F1 & F2 & F3 & Hh''); [set_solver|unfold BUFMAX; lia|done|].
  unfold writeMemory. st_step. rewrite E1, E2. unfold peek. st_step. cbn [mem]. unfold load8. rewrite E3. cbn [Z.eqb Pos.eqb negb]. rewrite F1, F2. cbn [mem]. rewrite F3. cbn [Z.eqb Pos.eqb negb].
  unfold modify, set_memError. cbn [mem mapped memError rx tx]. apply holds_app in Hh'' as [Hh'' _].
  destruct (hex2mem_run bs m false r tr (hex_value da) _ (hex_value dn) true Hh'' Hb) as [p E4]; [lia|done|done|done| |done|].
  { intros x Hx Hx'. apply (Ha4 x Hx). unfold reserved, within, BUFMAX in *. left. lia. }
  rewrite E4. unfold gets. cbn [memError]. rewrite Hn in Ha4.
  assert (HR1 : related (store_list (hex_value da) bs m) (after (WriteMemory da dn bs) t)).
  { split; [apply bytes_store_list; [apply HR|done]| | |].
    - cbn [after regs]. rewrite (frame_ext m); [apply HR|]. intros x Hx. apply store_list_outside. intros Hx'. apply (Ha4 x Hx'). unfold reserved. tauto.
    - intros x Hx. cbn [after memory]. destruct (decide (within (hex_value da) (Z.of_nat (length bs)) x)) as [Hw|Hw]; [by apply store_list_inside|].
      rewrite !store_list_outside by done. by apply HR.
    - rewrite store_list_outside; [apply HR|]. intros Hx'. apply (Ha4 _ Hx'). left. unfold within, BUFMAX. lia. }
  destruct (answer_run OK false r tr _ _ HR1) as (m2 & E6 & HR3 & Hh3); [by repeat constructor|done|]. rewrite E6. exists m2, false. done.
Qed.

Lemma serves_all fuel sigval c : (400 <= fuel)%nat -> is_u8 sigval -> serves fuel sigval c.
Proof.
  intros Hf Hs. destruct c; [by apply serves_halt|apply serves_registers|by apply serves_writeRegister|by apply serves_readMemory|by apply serves_writeMemory|apply serves_other].
Qed.

(** *** Packets of requests and answers *)

Lemma payload_numeral ds x l : Forall is_digit ds -> 0 < x < 256 /\ x <> 35 /\ x <> 36 -> Forall (fun c => 0 < c < 256 /\ c <> 35 /\ c <> 36) l -> Forall (fun c => 0 < c < 256 /\ c <> 35 /\ c <> 36) (ds ++ x :: l).
Proof. intros Hd Hx Hl. apply Forall_app. split; [by apply numeral_chars|]. by constructor. Qed.

Lemma fits_payload c : fits c -> payload (text c).
Proof.
  destruct c as [| |ds bs|da dn|da dn bs|l]; cbn [fits text].
  - intros _. split; [by repeat constructor|done].
  - intros _. split; [by repeat constructor|done].
  - intros ([_ Hd] & _ & _ & Hb & Hl). split; [|done]. constructor; [done|]. apply payload_numeral; [done|lia|by apply bytes_text_chars].
  - intros ([_ Ha] & [_ Hn] & _ & _ & Hl). split; [|done]. constructor; [done|]. apply payload_numeral; [done|lia|by apply numeral_chars].
  - intros ([_ Ha] & [_ Hn] & _ & _ & Hb & Hl). split; [|done]. constructor; [done|]. apply payload_numeral; [done|lia|]. apply payload_numeral; [done|lia|by apply bytes_text_chars].
  - by intros [Hp _].
Qed.

Lemma third_char ds x y l : numeral ds -> y <> 58 -> (x :: ds ++ y :: l) !! 2%nat <> Some 58.
Proof.
  intros [Hne Hd] Hy. destruct ds as [|d1 [|d2 ds]]; [done|cbn; congruence|]. cbn. rewrite !Forall_cons in Hd. destruct Hd as (_ & Hd & _). apply digit_char in Hd. intros [= ->]. lia.
Qed.

Lemma fits_plain c : fits c -> text c !! 2%nat <> Some 58.
Proof.
  destruct c as [| |ds bs|da dn|da dn bs|l]; cbn [fits text]; [done|done| | | |tauto].
  - intros (Hd & _). by apply third_char.
  - intros (Hd & _). by apply third_char.
  - intros (Hd & _). by apply third_char.
Qed.

Lemma reply_chars sigval c m t : is_u8 sigval -> related m t -> fits c -> Forall is_u8 (reply sigval c t) /\ ~ 0 ∈ reply sigval c t /\ (length (reply sigval c t) < 400)%nat.
Proof.
  intros Hs HR Hfit.
  assert (Hb : forall bs, Forall is_u8 bs -> (length bs < 200)%nat -> Forall is_u8 (bytes_text bs) /\ ~ 0 ∈ bytes_text bs /\ (length (bytes_text bs) < 400)%nat).
  { intros bs Hbs Hl. split; [by apply bytes_text_u8|]. split; [|rewrite length_bytes_text; lia]. intros Hz. pose proof (bytes_text_chars bs Hbs) as Hc. rewrite Forall_forall in Hc. specialize (Hc 0 Hz). lia. }
  destruct c as [| |ds bs|da dn|da dn bs|l]; cbn [reply fits] in *.
  - destruct (Hb [sigval]) as (H1 & H2 & _); [by apply Forall_singleton|cbn; lia|]. rewrite bytes_text_cons, app_nil_r in H1, H2. split; [by constructor|]. split; [|cbn; lia]. set_solver.
  - apply Hb; [apply words_bytes_u8|]. rewrite length_words_bytes, (length_regs m t HR). lia.
  - split; [by repeat constructor|]. split; [|cbn; lia]. apply (bool_decide_unpack _). by vm_compute.
  - destruct Hfit as (_ & _ & (_ & _ & _ & Ha) & Hn & _). pose proof (hex_value_range dn) as Hr. unfold is_u32 in Hr. apply Hb; [|rewrite length_fmap, length_seq; unfold BUFMAX in Hn; lia]. eapply memory_bytes; [done|]. by rewrite Z2Nat.id by lia.
  - split; [by repeat constructor|]. split; [|cbn; lia]. apply (bool_decide_unpack _). by vm_compute.
  - split; [constructor|]. split; [set_solver|cbn; lia].
Qed.

Lemma received l m t : related m t -> payload l -> l !! 2%nat <> Some 58 -> related (store_list inBuffer (l ++ [0]) m) t.
Proof.
  intros HR [Hl Hn] Hp. assert (Hlen : Z.of_nat (length (l ++ [0])) <= BUFMAX) by (rewrite length_app; cbn; lia). apply (related_ext m); [done| | | |].
  - apply bytes_store_list; [apply HR|]. apply Forall_app. split; [|by repeat constructor]. eapply Forall_impl; [exact Hl|]. unfold is_u8. cbn. lia.
  - intros x Hx. apply store_list_outside. intros Hx'. apply (in_frame L x); [unfold within in *; lia|done].
  - intros x Hx. apply store_list_outside. intros Hx'. apply Hx. left. unfold within in *. lia.
  - change (inBuffer + 2) with (inBuffer + Z.of_nat 2). destruct ((l ++ [0]) !! 2%nat) as [c|] eqn:Ec.
    + rewrite (store_list_holds inBuffer (l ++ [0]) m 2%nat c Ec). intros ->. apply lookup_app_Some in Ec as [Ec|[_ Ec]]; [done|]. by destruct (2 - length l)%nat.
    + apply lookup_ge_None in Ec. rewrite store_list_outside by (unfold within; lia). apply HR.
Qed.

(** A request and its answer. *)
Lemma request_step c cs_fuel sigval m t e rest tr : fits c -> related m t -> is_u8 sigval -> (400 <= cs_fuel)%nat ->
  exists m' e', serve_loop inBuffer outBuffer frame gdbRegs_at regValue_at ptr_at (S cs_fuel) sigval (mkGdb m mp e (framed (text c) ++ 43 :: rest) tr) =
    serve_loop inBuffer outBuffer frame gdbRegs_at regValue_at ptr_at cs_fuel sigval (mkGdb m' mp e' rest (tr ++ 43 :: framed (reply sigval c t))) /\ related m' (after c t).
Proof.
  intros Hfit HR Hs Hf. pose proof (fits_payload c Hfit) as Hpay. pose proof (fits_plain c Hfit) as Hpl. cbn [serve_loop]. unfold poke at 1. st_step. unfold set_mem at 1. cbn [mem mapped memError rx tx].
  assert (HR1 : related (store8 m outBuffer 0) t) by (apply (related_out [0]); [done|by repeat constructor|done]).
  assert (Hpp : plain_packet (store8 m outBuffer 0) inBuffer (text c)) by (unfold plain_packet; destruct (decide _); [apply HR1|done]).
  assert (Hlt : (length (text c) < S cs_fuel)%nat) by (destruct Hpay as [_ Hn]; unfold BUFMAX in Hn; lia).
  rewrite (getPacket_run inBuffer (text c)) by done. unfold set_mem. cbn [mem mapped memError rx tx].
  pose proof (received (text c) _ t HR1 Hpay Hpl) as HR2. set (m2 := store_list inBuffer (text c ++ [0]) (store8 m outBuffer 0)) in *.
  rewrite store_words_list, (re_regs _ _ HR2). set (m3 := store_list gdbRegs_at (regs t ≫= word_bytes) m2).
  assert (Hlen : Z.of_nat (length (regs t ≫= word_bytes)) = NUM_REGS_BYTES) by (rewrite length_words_bytes, (length_regs m t HR); done).
  assert (HR3 : related m3 t) by (apply related_copy; [done|apply words_bytes_u8|lia]).
  assert (Ht : Z.of_nat (length (text c ++ [0])) <= 400) by (destruct Hpay as [_ Hn]; unfold BUFMAX in Hn; rewrite length_app; cbn; lia).
  destruct (serves_all (S cs_fuel) sigval c ltac:(lia) Hs m3 t e (43 :: rest) (tr ++ [43])) as (m4 & e4 & E4 & HR4 & Hh4); [done| |done|apply store_list_holds| |].
  { apply holds_apart; [apply store_list_holds|]. eapply apart_sub; [apply (in_regs L)| |]; intros x; unfold within, BUFMAX; lia. }
  { unfold m3, m2. rewrite !store_list_outside; [by rewrite store8_eq| |].
    - intros Hx. apply (in_out L outBuffer); unfold within, BUFMAX in *; lia.
    - intros Hx. apply (out_regs L outBuffer); unfold within, BUFMAX in *; lia. }
  rewrite E4. destruct (reply_chars sigval c m t Hs HR Hfit) as (_ & Hz & Hrl). rewrite (putPacket_run outBuffer (reply sigval c t)) by (done || lia).
  exists m4, e4. split; [|done]. by rewrite <- app_assoc.
Qed.

Lemma requests_run cs : forall sigval m t e rest tr fuel, Forall fits cs -> related m t -> is_u8 sigval -> (400 <= fuel)%nat ->
  exists m' e', serve_loop inBuffer outBuffer frame gdbRegs_at regValue_at ptr_at (length cs + fuel) sigval (mkGdb m mp e (requests cs ++ rest) tr) =
    serve_loop inBuffer outBuffer frame gdbRegs_at regValue_at ptr_at fuel sigval (mkGdb m' mp e' rest (tr ++ transcript sigval cs t)) /\ related m' (finally cs t).
Proof.
  induction cs as [|c cs IH]; intros sigval m t e rest tr fuel Hcs HR Hs Hf.
  - exists m, e. cbn. by rewrite app_nil_r.
  - apply Forall_cons in Hcs as [Hc Hcs]. change (requests (c :: cs)) with ((framed (text c) ++ [43]) ++ requests cs). rewrite <- !app_assoc. cbn [app length Nat.add].
    destruct (request_step c (length cs + fuel) sigval m t e (requests cs ++ rest) tr Hc HR Hs ltac:(lia)) as (m1 & e1 & E1 & HR1). rewrite E1.
    destruct (IH sigval m1 (after c t) e1 rest (tr ++ 43 :: framed (reply sigval c t)) fuel Hcs HR1 Hs Hf) as (m2 & e2 & E2 & HR2). exists m2, e2. split; [|done]. rewrite E2. cbn [transcript]. rewrite <- app_assoc. done.
Qed.

(** *** The thread goes on *)

Lemma frame_register m t (i : nat) f : related m t -> In (i, f) [(4, Frame.esp); (5, Frame.ebp); (8, Frame.eip); (9, Frame.eflags)]%nat -> load32 m (frame + f) = reg t i.
Proof. intros HR Hin. unfold reg. rewrite <- (re_regs _ _ HR). by repeat (destruct Hin as [[= <- <-]|Hin]; [done|]). Qed.

Lemma update_related f m t (r : nat) v : related m t -> is_u32 v -> In (r, f) [(8, Frame.eip); (9, Frame.eflags)]%nat -> related (store32 m (frame + f) v) (mkTarget (<[r := v]> (regs t)) (memory t)).
Proof.
  intros HR Hv Hin. assert (Hlim : limit r v = v) by (by repeat (destruct Hin as [[= <- <-]|Hin]; [done|])). rewrite <- Hlim. apply (updates_related m); [done|]. rewrite Hlim.
  apply update_field32; [done|apply HR|]. cbn in *. tauto.
Qed.

Lemma resume_run fuel stepping ds m t e r tr ptr : related m t -> holds m ptr (ds ++ [0]) -> Forall is_digit ds -> (length ds < fuel)%nat -> Z.of_nat (length ds) < 2 ^ 32 ->
  exists m', resume frame fuel stepping ptr (mkGdb m mp e r tr) = Ret (tt, mkGdb m' mp e r tr) /\ related m' (resumed stepping ds t).
Proof.
  intros HR Hh Hds Hf Hl. unfold resume. st_step. rewrite (hex_run ds 0) by (done || (apply not_digit; set_solver)). unfold resumed.
  set (t1 := mkTarget (if decide (ds = []) then regs t else <[8%nat := hex_value ds]> (regs t)) (memory t)).
  assert (Hm1 : exists m1, (if negb (Z.of_nat (length ds) =? 0) then field32 frame Frame.eip (hex_value ds) else mret tt) (mkGdb m mp e r tr) = Ret (tt, mkGdb m1 mp e r tr) /\ related m1 t1).
  { destruct ds as [|d ds]; [exists m; split; [done|by destruct t]|]. eexists. cbn [length]. rewrite (proj2 (Z.eqb_neq _ _)) by lia. cbn [negb]. split; [done|]. unfold t1. rewrite decide_False by done.
    apply (update_related Frame.eip); [done|apply hex_value_range|cbn; tauto]. }
  destruct Hm1 as (m1 & E1 & HR1). unfold mret, ST_ret in E1. rewrite E1. unfold field32, set_mem. cbn [mem mapped memError rx tx]. rewrite (frame_register m1 t1 9 Frame.eflags HR1) by (cbn; tauto).
  assert (Hu : is_u32 (reg t1 9)) by (rewrite <- (frame_register m1 t1 9 Frame.eflags HR1) by (cbn; tauto); apply load32_range, HR1).
  set (fl := Z.land (reg t1 9) 0xfffffeff). assert (Hfl : is_u32 fl) by (by apply is_u32_land).
  pose proof (update_related Frame.eflags m1 t1 9 fl HR1 Hfl ltac:(cbn; tauto)) as HR2. destruct stepping.
  - st_step. cbn [mem mapped memError rx tx]. rewrite load_store32_eq by done. eexists. split; [done|]. change (regs t1) with (if decide (ds = []) then regs t else <[8%nat := hex_value ds]> (regs t)) in *.
    assert (Hfl2 : is_u32 (Z.lor fl 0x100)) by (by apply is_u32_lor). pose proof (update_related Frame.eflags _ _ 9 _ HR2 Hfl2 ltac:(cbn; tauto)) as HR3. cbn [regs memory] in HR3. by rewrite list_insert_insert_eq in HR3.
  - eexists. split; [done|]. exact HR2.
Qed.

Definition resume_text (stepping : bool) (ds : list Z) : list Z := (if stepping then STEP else CONTINUE) :: ds.

Lemma resume_step stepping ds fuel sigval m t e rest tr : Forall is_digit ds -> Z.of_nat (length ds) < BUFMAX - 2 -> related m t -> (400 <= fuel)%nat ->
  exists m', serve_loop inBuffer outBuffer frame gdbRegs_at regValue_at ptr_at (S fuel) sigval (mkGdb m mp e (framed (resume_text stepping ds) ++ rest) tr) =
    Ret (tt, mkGdb m' mp e rest (tr ++ [43])) /\ related m' (resumed stepping ds t).
Proof.
  intros Hds Hl HR Hf. set (l := resume_text stepping ds).
  assert (Hpay : payload l) by (split; [constructor; [by destruct stepping|by apply numeral_chars]|cbn; unfold BUFMAX in *; lia]).
  assert (Hpl : l !! 2%nat <> Some 58).
  { destruct ds as [|d1 [|d2 ds]]; [done|done|]. cbn. rewrite !Forall_cons in Hds. destruct Hds as (_ & Hd & _). apply digit_char in Hd. intros [= ->]. lia. }
  cbn [serve_loop]. unfold poke at 1. st_step. unfold set_mem at 1. cbn [mem mapped memError rx tx].
  assert (HR1 : related (store8 m outBuffer 0) t) by (apply (related_out [0]); [done|by repeat constructor|done]).
  assert (Hpp : plain_packet (store8 m outBuffer 0) inBuffer l) by (unfold plain_packet; destruct (decide _); [apply HR1|done]).
  assert (Hlt : (length l < S fuel)%nat) by (destruct Hpay as [_ Hn]; unfold BUFMAX in Hn; lia).
  rewrite (getPacket_run inBuffer l) by done. unfold set_mem. cbn [mem mapped memError rx tx].
  pose proof (received l _ t HR1 Hpay Hpl) as HR2. set (m2 := store_list inBuffer (l ++ [0]) (store8 m outBuffer 0)) in *.
  rewrite store_words_list, (re_regs _ _ HR2). set (m3 := store_list gdbRegs_at (regs t ≫= word_bytes) m2).
  assert (Hlen : Z.of_nat (length (regs t ≫= word_bytes)) = NUM_REGS_BYTES) by (rewrite length_words_bytes, (length_regs m t HR); done).
  assert (HR3 : related m3 t) by (apply related_copy; [done|apply words_bytes_u8|lia]).
  assert (Hh : holds m3 inBuffer (l ++ [0])).
  { apply holds_apart; [apply store_list_holds|]. assert (Z.of_nat (length (l ++ [0])) <= BUFMAX) by (destruct Hpay as [_ Hn]; unfold BUFMAX in *; rewrite length_app; cbn [length]; lia).
    eapply apart_sub; [apply (in_regs L)| |]; intros x; unfold within; lia. }
  unfold l, resume_text in Hh. cbn [app] in Hh. apply holds_cons in Hh as [Hc Hh].
  destruct (resume_run (S fuel) stepping ds m3 t e rest (tr ++ [43]) (inBuffer + 1) HR3 Hh Hds) as (m4 & E4 & HR4); [unfold BUFMAX in Hl; lia|unfold BUFMAX in Hl; lia|].
  exists m4. split; [|done]. destruct stepping; dispatch Hc; rewrite E4; done.
Qed.

(** *** The message that the thread has stopped *)

(** Text put behind the text [T] in the output buffer. *)
Definition written m t (T : list Z) : Prop := related m t /\ holds m outBuffer T.

Lemma written_append m t T l a : written m t T -> Forall is_u8 l -> a = outBuffer + Z.of_nat (length T) -> Z.of_nat (length T + length l) <= BUFMAX -> written (store_list a l m) t (T ++ l).
Proof.
  intros [HR Hh] Hl -> Hn. split.
  - apply (related_region _ (Z.of_nat (length l))); [done|done|lia| | |].
    + eapply apart_sub; [apply apart_sym, (out_frame L)|done|]. intros x. unfold within. lia.
    + eapply apart_sub; [apply (in_out L)|done|]. intros x. unfold within. lia.
    + intros x Hx. right. left. unfold within in *. lia.
  - apply holds_app. split; [|apply store_list_holds]. eapply holds_ext; [done|]. intros x Hx. apply store_list_outside. unfold within in *. lia.
Qed.

Lemma put_register_run (i : nat) f m t T e r tr ptr : written m t T -> In (i, f) [(4, Frame.esp); (5, Frame.ebp); (8, Frame.eip)]%nat -> ptr = outBuffer + Z.of_nat (length T) -> Z.of_nat (length T) + 12 <= BUFMAX ->
  exists m', put_register frame (Z.of_nat i) f ptr (mkGdb m mp e r tr) = Ret (ptr + 11, mkGdb m' mp e r tr) /\ written m' t (T ++ register_text i t).
Proof.
  intros HW Hin Hp Hn. unfold put_register, poke, set_mem. st_step. cbn [mem mapped memError rx tx].
  assert (Hi : (i = 4 \/ i = 5 \/ i = 8)%nat) by (cbn in Hin; repeat destruct Hin as [[= <- _]|Hin]; tauto). assert (Hix : 0 <= Z.of_nat i < 16) by lia.
  assert (Hic : is_u8 (hexCharacter (Z.of_nat i))) by (destruct (hexCharacter_facts _ Hix) as [? _]; unfold is_u8; lia).
  assert (HW1 : written (store8 (store8 m ptr (hexCharacter (Z.of_nat i))) (ptr + 1) 58) t (T ++ [hexCharacter (Z.of_nat i); 58])).
  { apply (written_append m t T [hexCharacter (Z.of_nat i); 58] ptr HW); [constructor; [done|by repeat constructor]|done|cbn [length]; lia]. }
  set (m1 := store8 _ (ptr + 1) 58) in *. destruct HW1 as [HR1 Hh1]. assert (Hv : load32 m1 (frame + f) = reg t i) by (apply frame_register; [done|cbn in *; tauto]).
  destruct (frame_place L) as (F1 & F2 & F3). assert (Hfo : 0 <= f /\ f + 4 <= Frame.size) by (cbn in Hin; repeat destruct Hin as [[= _ <-]|Hin]; [done..|tauto]).
  rewrite (mem2hex_run (word_bytes (reg t i))); [|rewrite <- Hv; apply holds_word, HR1|done|lia|lia| | |done].
  - st_step. cbn [mem mapped memError rx tx]. eexists. split; [do 2 f_equal; lia|].
    assert (HW2 : written (store_list (ptr + 2) (bytes_text (word_bytes (reg t i)) ++ [0]) m1) t (T ++ [hexCharacter (Z.of_nat i); 58] ++ bytes_text (word_bytes (reg t i)))).
    { destruct (written_append m1 t (T ++ [hexCharacter (Z.of_nat i); 58]) (bytes_text (word_bytes (reg t i)) ++ [0]) (ptr + 2)) as [HR2 Hh2]; [done| | |..].
      - apply Forall_app. split; [apply bytes_text_u8, word_bytes_u8|by repeat constructor].
      - rewrite length_app. cbn [length]. lia.
      - rewrite !length_app, length_bytes_text. cbn [length word_bytes]. lia.
      - split; [done|]. rewrite <- app_assoc in Hh2. rewrite !app_assoc in Hh2. apply holds_app in Hh2 as [Hh2 _]. by rewrite <- !app_assoc in Hh2. }
    pose proof (written_append _ t _ [59] (ptr + 2 + 2 * 4) HW2 ltac:(by repeat constructor)) as HW3. unfold register_text. rewrite !app_assoc. rewrite !app_assoc in HW3. apply HW3.
    + rewrite !length_app, length_bytes_text. cbn [length word_bytes]. lia.
    + rewrite !length_app, length_bytes_text. cbn [length word_bytes]. lia.
  - intros x Hx. apply F3. unfold within in *. lia.
  - eapply apart_sub; [apply apart_sym, (out_frame L)| |]; intros x; unfold within; lia.
Qed.

Lemma computeSignal_u8 i : is_u8 (computeSignal i).
Proof. unfold computeSignal, is_u8. repeat case_match; lia. Qed.

Lemma stop_run fuel m t e rest : related m t -> (400 <= fuel)%nat -> let sigval := computeSignal (load32 m (frame + Frame.interrupt)) in
  exists m', handleInterrupt inBuffer outBuffer frame gdbRegs_at regValue_at ptr_at fuel (mkGdb m mp e (43 :: rest) []) =
    serve_loop inBuffer outBuffer frame gdbRegs_at regValue_at ptr_at fuel sigval (mkGdb m' mp e rest (framed (stop_text sigval t))) /\ related m' t.
Proof.
  intros HR Hf. cbv zeta. unfold handleInterrupt, poke, set_mem. st_step. cbn [mem mapped memError rx tx]. set (sigval := computeSignal _).
  assert (Hs : is_u8 sigval) by apply computeSignal_u8. assert (Hsb : Forall is_u8 (byte_text sigval)) by (rewrite <- (app_nil_r (byte_text sigval)); apply (bytes_text_u8 [sigval]); by apply Forall_singleton).
  set (T0 := 84 :: byte_text sigval). assert (HW0 : written (store8 (store8 (store8 m outBuffer 84) (outBuffer + 1) (hexCharacter (Z.shiftr sigval 4))) (outBuffer + 2) (hexCharacter (Z.land sigval 0x0F))) t T0).
  { assert (HW : written m t []) by (split; [done|by intros i c Hc]). pose proof (written_append m t [] T0 outBuffer HW) as HW1. unfold T0, byte_text in HW1. cbn [store_list app length] in HW1.
    replace (outBuffer + 1 + 1) with (outBuffer + 2) in HW1 by lia. apply HW1; [by constructor|lia|done]. }
  destruct (put_register_run 4 Frame.esp _ t T0 e (43 :: rest) [] (outBuffer + 3) HW0) as (m1 & E1 & HW1); [cbn; tauto|cbn; lia|done|]. change (Z.of_nat 4) with REG_ESP in E1. rewrite E1.
  destruct (put_register_run 5 Frame.ebp _ t _ e (43 :: rest) [] (outBuffer + 3 + 11) HW1) as (m2 & E2 & HW2); [cbn; tauto|cbn; lia|done|]. change (Z.of_nat 5) with REG_EBP in E2. rewrite E2.
  destruct (put_register_run 8 Frame.eip _ t _ e (43 :: rest) [] (outBuffer + 3 + 11 + 11) HW2) as (m3 & E3 & HW3); [cbn; tauto|cbn; lia|done|]. change (Z.of_nat 8) with REG_EIP in E3. rewrite E3.
  rewrite <- !app_assoc in HW3. change (T0 ++ _) with (stop_text sigval t) in HW3. cbn [mem mapped memError rx tx].
  destruct (written_append m3 t (stop_text sigval t) [0] (outBuffer + 3 + 11 + 11 + 11) HW3) as [HR4 Hh4]; [by repeat constructor|cbn; lia|done|]. cbn [store_list] in HR4, Hh4.
  rewrite (putPacket_run outBuffer (stop_text sigval t)); [by eexists|done| |cbn; lia].
  assert (Hch : forall i : nat, Forall is_u8 (word_bytes (reg t i))) by (intros i; apply word_bytes_u8).
  assert (Hall : Forall (fun c => c <> 0) (stop_text sigval t)).
  { assert (Hnz : forall l, Forall (fun c => 0 < c < 256 /\ c <> 35 /\ c <> 36) l -> Forall (fun c => c <> 0) l) by (intros l Hl; eapply Forall_impl; [exact Hl|]; cbn; lia).
    assert (Hbt : forall bs, Forall is_u8 bs -> Forall (fun c => c <> 0) (bytes_text bs)) by (intros bs Hb; by apply Hnz, bytes_text_chars).
    assert (Hrt : forall i : nat, 0 <= Z.of_nat i < 16 -> Forall (fun c => c <> 0) (register_text i t)).
    { intros i Hi. unfold register_text. destruct (hexCharacter_facts _ Hi) as [Hx _]. rewrite !Forall_app. split; [constructor; [lia|by constructor]|]. split; [by apply Hbt|by constructor]. }
    unfold stop_text. constructor; [done|]. rewrite !Forall_app. split; [|split_and!; apply Hrt; lia]. rewrite <- (app_nil_r (byte_text sigval)). apply (Hbt [sigval]). by apply Forall_singleton. }
  intros Hz. rewrite Forall_forall in Hall. by apply (Hall 0 Hz).
Qed.
End Sessions.

(** C16. A whole session of the debugger, while a thread is stopped at an interrupt. The client acknowledges the message that the thread has stopped, sends any number of requests (reason,
    registers, one register to be set, memory to be read or written, or something the server does not know), acknowledges each answer, and lets the thread go on or make one step.
    Then the server comes back from the interrupt, has consumed exactly the session, and has sent: the message with signal, stack, base and instruction pointer, the acknowledgement and the
    answer of every request as computed on the abstract target, all in packets with the right checksums. The frame of the thread and the memory of the program are those of the target after
    the requests, and nothing else of the program's memory was touched. The requests are well formed ([fits]): memory that is read or written is present and its text fits into the buffers.
    Not part of such a session are the request 'G' to set all registers, which corrupts the frame ([set_registers_takes_pointer]), the switch 'd' of the debugging output, requests that are answered with an
    error, and packets with a sequence number. *)
Theorem gdb_session (inBuffer outBuffer frame gdbRegs_at regValue_at ptr_at : Z) (mp : Z -> bool) (m : Mem) (t : target) (e : bool) (cs : list command) (stepping : bool) (ds rest : list Z) (fuel : nat)
    (HL : layout inBuffer outBuffer frame gdbRegs_at regValue_at mp) (HR : related inBuffer outBuffer frame gdbRegs_at regValue_at m t)
    (Hcs : Forall (fits inBuffer outBuffer frame gdbRegs_at regValue_at mp) cs) (Hds : Forall is_digit ds) (Hlen : Z.of_nat (length ds) < BUFMAX - 2) (Hfuel : (400 + length cs < fuel)%nat) :
  let sigval := computeSignal (load32 m (frame + Frame.interrupt)) in
  exists m' e', handleInterrupt inBuffer outBuffer frame gdbRegs_at regValue_at ptr_at fuel (mkGdb m mp e (43 :: requests cs ++ framed (resume_text stepping ds) ++ rest) []) =
      Ret (tt, mkGdb m' mp e' rest (framed (stop_text sigval t) ++ transcript sigval cs t ++ [43])) /\
    related inBuffer outBuffer frame gdbRegs_at regValue_at m' (resumed stepping ds (finally cs t)).
Proof.
  cbv zeta. set (sigval := computeSignal _). assert (Hs : is_u8 sigval) by apply computeSignal_u8.
  destruct (stop_run _ _ _ _ _ ptr_at _ HL fuel m t e (requests cs ++ framed (resume_text stepping ds) ++ rest) HR ltac:(lia)) as (m1 & E1 & HR1). rewrite E1. fold sigval.
  replace fuel with (length cs + S (fuel - length cs - 1))%nat by lia.
  destruct (requests_run _ _ _ _ _ ptr_at _ HL cs sigval m1 t e (framed (resume_text stepping ds) ++ rest) (framed (stop_text sigval t)) (S (fuel - length cs - 1)) Hcs HR1 Hs ltac:(lia)) as (m2 & e2 & E2 & HR2). rewrite E2.
  destruct (resume_step _ _ _ _ _ ptr_at _ HL stepping ds (fuel - length cs - 1) sigval m2 (finally cs t) e2 rest (framed (stop_text sigval t) ++ transcript sigval cs t) Hds Hlen HR2 ltac:(lia)) as (m3 & E3 & HR3).
  rewrite E3. exists m3, e2. split; [by rewrite <- app_assoc|done].
Qed.

(** ** A session *)

(** Buffers at 10000 and 20000, the frame at 30000, the local variables behind it; stopped at a breakpoint. *)
Definition stopped : Mem := fun x => if x =? 30000 + Frame.interrupt then 3 else 0.
Definition stopped_target : target := mkTarget (replicate 16 0) stopped.

(** Write ab cd to 100, read it back, set edx to 0x01020304. *)
Definition short_session : list command :=
  [WriteMemory [49; 48; 48] [50] [0xab; 0xcd]; ReadMemory [49; 48; 48] [50]; WriteRegister [50] [4; 3; 2; 1]; HaltReason].

Lemma short_layout : layout 10000 20000 30000 31000 32000 (fun _ => true).
Proof. split; unfold apart, within, present, BUFMAX, Frame.size, NUM_REGS_BYTES; intuition lia. Qed.

Lemma short_related : related 10000 20000 30000 31000 32000 stopped stopped_target.
Proof. split; [|done|done|done]. intros x. unfold stopped. destruct (_ =? _); done. Qed.

Lemma short_fits : Forall (fits 10000 20000 30000 31000 32000 (fun _ => true)) short_session.
Proof.
  assert (Hn : forall ds, ds ∈ [[49; 48; 48]; [50]] -> numeral ds) by (intros ds Hds; rewrite !elem_of_cons in Hds; destruct Hds as [->|[->|?%elem_of_nil]]; [split; [done|by repeat constructor]..|done]).
  assert (Ha : accessible 10000 20000 30000 31000 32000 (fun _ => true) 256 2) by (split; [lia|]; split; [lia|]; split; [done|]; unfold reserved, within, BUFMAX, Frame.size, NUM_REGS_BYTES; lia).
  repeat (apply Forall_cons; split); [| | |exact I|constructor].
  - refine (conj (Hn _ _) (conj (Hn _ _) (conj Ha (conj _ (conj _ _))))); [set_solver|set_solver|done|by repeat constructor|done].
  - refine (conj (Hn _ _) (conj (Hn _ _) (conj Ha (conj _ _)))); [set_solver|set_solver|done|done].
  - refine (conj (Hn _ _) (conj _ (conj _ (conj _ _)))); [set_solver|done|done|by repeat constructor|done].
Qed.

Lemma gdb_session_witness : exists m' e', handleInterrupt 10000 20000 30000 31000 32000 33000 405
      (mkGdb stopped (fun _ => true) false (43 :: requests short_session ++ framed (resume_text true []) ++ []) []) =
      Ret (tt, mkGdb m' (fun _ => true) e' [] (framed (stop_text 5 stopped_target) ++ transcript 5 short_session stopped_target ++ [43])) /\
    related 10000 20000 30000 31000 32000 m' (resumed true [] (finally short_session stopped_target)).
Proof.
  apply (gdb_session 10000 20000 30000 31000 32000 33000 (fun _ => true) stopped stopped_target false short_session true [] [] 405).
  - exact short_layout.
  - exact short_related.
  - exact short_fits.
  - constructor.
  - reflexivity.
  - cbn. lia.
Defined.

(** ** Damaged packets *)

(** A packet with a wrong checksum is refused, and the server waits for the next one. *)
Theorem damaged_packet_refused inBuffer l ck m mp e rest t fuel : payload l -> is_u8 ck -> ck <> checksum_of l -> (length l < S fuel)%nat ->
  getPacket inBuffer (S fuel) (mkGdb m mp e (36 :: l ++ 35 :: byte_text ck ++ rest) t) = getPacket inBuffer fuel (mkGdb (store_list inBuffer (l ++ [0]) m) mp e rest (t ++ [45])).
Proof.
  intros [Hl Hn] Hck Hne Hf. cbn [getPacket await]. unfold readChar at 1. st_step. cbn [rx mem mapped memError tx Z.eqb Pos.eqb].
  rewrite packet_loop_run by (done || lia). rewrite Z.add_0_r. unfold poke, set_mem. st_step. cbn [rx mem mapped memError tx]. cbn [Z.eqb Pos.eqb].
  change (foldl _ 0 l) with (checksum_of l). rewrite (read_checksum_run ck) by done. rewrite (proj2 (Z.eqb_neq _ _)) by congruence. cbn [negb].
  rewrite Z.add_0_l, <- (store_list_app inBuffer l [0] m : _ = store8 _ _ 0). done.
Qed.

(** ** Deviations *)

Definition serve_text (l : list Z) (m : Mem) : outcome (bool * GdbServer) :=
  serve 20000 30000 31000 32000 33000 400 5 10000 (mkGdb (store_list 10000 (l ++ [0]) m) (fun _ => true) false [] []).

(** Setting all registers reads them from the place of a pointer: eax becomes the address behind the command letter, whatever was sent. *)
Theorem set_registers_takes_pointer : (r ← serve_text (SET_REGISTERS :: bytes_text (replicate 64 1)) stopped; Ret (load32 (mem (snd r)) (30000 + Frame.eax))) = Ret 10001.
Proof. by vm_compute. Qed.

(** Reading 200 bytes writes behind the buffer for the answer. *)
Theorem long_read_leaves_buffer : (r ← serve_text [109; 49; 44; 99; 56] (store8 stopped (20000 + BUFMAX) 77); Ret (load8 (mem (snd r)) (20000 + BUFMAX))) = Ret 0.
Proof. by vm_compute. Qed.

(** The number of a register is cut to a byte: register 0x100 is eax. *)
Theorem register_number_cut : (r ← serve_text (SET_REGISTER :: [49; 48; 48; 61] ++ bytes_text [1; 0; 0; 0]) stopped; Ret (load32 (mem (snd r)) (30000 + Frame.eax))) = Ret 1.
Proof. by vm_compute. Qed.

(** After a packet with a sequence number a shorter one without is taken for one with a number, since the buffer is not cleared: the request is the rest of the old packet. *)
Theorem stale_sequence_number :
  (r1 ← getPacket 10000 400 (mkGdb stopped (fun _ => true) false (framed [48; 49; 58; 63] ++ framed [103]) []);
   r2 ← getPacket 10000 400 (snd r1); Ret (fst r1, fst r2, load8 (mem (snd r2)) (fst r2))) = Ret (10003, 10003, 63).
Proof. by vm_compute. Qed.

(** A page that is not present is an error once: it is mapped, and the next request reads it. *)
Theorem absent_page_error_once :
  let request := serve 20000 30000 31000 32000 33000 400 5 10000 in
  let answer s := (load8 (mem s) 20000, load8 (mem s) 20001, load8 (mem s) 20002) in
  (r1 ← request (mkGdb (store_list 10000 [109; 49; 44; 49; 0] stopped) (fun p => negb (p =? 0)) false [] []);
   r2 ← request (snd r1); Ret (answer (snd r1), answer (snd r2))) = Ret (69, 48, 51, (48, 48, 0)).
Proof. by vm_compute. Qed.
