(* ===== verification/Mathexpr.v ===== *)
(** * The calculator of the shell

    [application/shell/command/Mathexpr.cpp]: infix expressions evaluated with a
    list of values and a list of operators. Values are 32-bit integers; sums and
    products wrap around, and a quotient that does not exist is a divide error
    ([Fault]). *)

From S2P Require Import Prelude KString Array Collections ArrayList.

Definition precedence (op : Z) : Z :=
  if (op =? 43) || (op =? 45) then 1
  else if op =? 37 then 2
  else if (op =? 42) || (op =? 47) then 3
  else 0.

(** [idiv]: no quotient by zero, nor one of 2^31. *)
Definition idiv (f : Z -> Z -> Z) (a b : Z) : outcome Z :=
  if (b =? 0) || (a =? - 2 ^ 31) && (b =? -1) then Fault else Ret (f a b).

Definition applyOperation (a b op : Z) : outcome Z :=
  if op =? 43 then Ret (s32 (a + b))
  else if op =? 45 then Ret (s32 (a - b))
  else if op =? 42 then Ret (s32 (a * b))
  else if op =? 47 then idiv Z.quot a b
  else if op =? 37 then idiv Z.rem a b
  else Ret 0.

Section Calculator.
Context `{Junk Z}.

(** The two lists. *)
Definition stacks : Type := ArrayList Z * ArrayList Z.

(** [list.get(list.size() - 1)], then [list.remove(list.size() - 1)] *)
Definition take_last (al : ArrayList Z) : outcome (Z * ArrayList Z) :=
  x ← ArrayList.get (u32 (ArrayList.size al - 1)) al;
  r ← removeAt (u32 (ArrayList.size al - 1)) al;
  Ret (x, snd r).

(** Two values and an operator make a value. *)
Definition reduce_one (s : stacks) : outcome stacks :=
  '(val2, values) ← take_last (fst s);
  '(val1, values) ← take_last values;
  '(op, ops) ← take_last (snd s);
  v ← applyOperation val1 val2 op;
  r ← ArrayList.add v values;
  Ret (snd r, ops).

(** [while (!ops.isEmpty() && go(ops.get(ops.size() - 1)))] *)
Fixpoint reduce (fuel : nat) (go : Z -> bool) (s : stacks) : outcome stacks :=
  match fuel with
  | O => Diverge
  | S fuel =>
      if ArrayList.isEmpty (snd s) then Ret s
      else
        op ← ArrayList.get (u32 (ArrayList.size (snd s) - 1)) (snd s);
        if go op then s ← reduce_one s; reduce fuel go s else Ret s
  end.

(** One unit more than there are operators. *)
Definition reduce_while (go : Z -> bool) (s : stacks) : outcome stacks := reduce (S (Z.to_nat (ArrayList.size (snd s)))) go s.

Definition push_op (c : Z) (s : stacks) : outcome stacks := r ← ArrayList.add c (snd s); Ret (fst s, snd r).
Definition push_value (v : Z) (s : stacks) : outcome stacks := r ← ArrayList.add v (fst s); Ret (snd r, snd s).

Definition closing (s : stacks) : outcome stacks :=
  s ← reduce_while (fun op => negb (op =? 40)) s;
  if negb (ArrayList.isEmpty (snd s)) then r ← take_last (snd s); Ret (fst s, snd r) else Ret s.

Definition operator (c : Z) (s : stacks) : outcome stacks :=
  s ← reduce_while (fun op => precedence c <=? precedence op) s; push_op c s.

Definition is_digit (c : Z) : bool := (48 <=? c) && (c <=? 57).

(** The digits of a number: its value and the index behind it. *)
Fixpoint number_loop (fuel : nat) (tokens : String) (val i : Z) : outcome (Z * Z) :=
  match fuel with
  | O => Diverge
  | S fuel =>
      if i <? KString.len tokens then
        c ← at_index tokens i;
        if is_digit c then number_loop fuel tokens (s32 (val * 10 + (c - 48))) (u32 (i + 1)) else Ret (val, i)
      else Ret (val, i)
  end.

Fixpoint token_loop (fuel : nat) (tokens : String) (i : Z) (s : stacks) : outcome stacks :=
  match fuel with
  | O => Diverge
  | S fuel =>
      if i <? KString.len tokens then
        c ← at_index tokens i;
        if c =? 40 then s ← push_op c s; token_loop fuel tokens (u32 (i + 1)) s
        else if is_digit c then
          r ← number_loop (S fuel) tokens 0 i;
          s ← push_value (fst r) s;
          token_loop fuel tokens (u32 (u32 (snd r - 1) + 1)) s
        else if c =? 41 then s ← closing s; token_loop fuel tokens (u32 (i + 1)) s
        else s ← operator c s; token_loop fuel tokens (u32 (i + 1)) s
      else Ret s
  end.

Definition calculateExpression (tokens : String) : outcome Z :=
  s ← token_loop (S (Z.to_nat (KString.len tokens))) tokens 0 (new_ArrayList, new_ArrayList);
  s ← reduce_while (fun _ => true) s;
  ArrayList.get (u32 (ArrayList.size (fst s) - 1)) (fst s).
End Calculator.

(** ** Expressions *)

Inductive expr :=
| Num (ds : list Z)
| Bin (op : Z) (l r : expr)
| Paren (e : expr).

Fixpoint print (e : expr) : list Z :=
  match e with
  | Num ds => ds
  | Bin op l r => print l ++ op :: print r
  | Paren e => 40 :: print e ++ [41]
  end.

Definition number (ds : list Z) : Z := foldl (fun v c => s32 (v * 10 + (c - 48))) 0 ds.

Fixpoint eval (e : expr) : outcome Z :=
  match e with
  | Num ds => Ret (number ds)
  | Bin op l r => a ← eval l; b ← eval r; applyOperation a b op
  | Paren e => eval e
  end.

(** How tightly an expression binds. *)
Definition level (e : expr) : Z := match e with Bin op _ _ => precedence op | _ => 4 end.

(** The operators associate to the left. *)
Fixpoint well_formed (e : expr) : Prop :=
  match e with
  | Num ds => ds <> [] /\ Forall (fun c => is_digit c = true) ds
  | Bin op l r => 1 <= precedence op /\ precedence op <= level l /\ precedence op < level r /\ well_formed l /\ well_formed r
  | Paren e => well_formed e
  end.

(** ** The machine on plain lists, tops first *)

Definition tops (al : ArrayList Z) : list Z := reverse (al_view al).

Fixpoint l_reduce (go : Z -> bool) (vs os : list Z) : outcome (list Z * list Z) :=
  match os with
  | [] => Ret (vs, [])
  | op :: os' =>
      if go op then
        match vs with
        | b :: a :: vs' => v ← applyOperation a b op; l_reduce go (v :: vs') os'
        | _ => Throw OUT_OF_BOUNDS
        end
      else Ret (vs, os)
  end.

Fixpoint l_exec (e : expr) (p : list Z * list Z) : outcome (list Z * list Z) :=
  match e with
  | Num ds => Ret (number ds :: fst p, snd p)
  | Bin op l r =>
      p ← l_exec l p;
      p ← l_reduce (fun o => precedence op <=? precedence o) (fst p) (snd p);
      l_exec r (fst p, op :: snd p)
  | Paren e =>
      p ← l_exec e (fst p, 40 :: snd p);
      p ← l_reduce (fun o => negb (o =? 40)) (fst p) (snd p);
      Ret (fst p, tail (snd p))
  end.

(** A loop that stops later does the work of one that stops earlier first. *)
Lemma l_reduce_split (P Q : Z -> bool) os : (forall c, Q c = true -> P c = true) -> forall vs,
  l_reduce P vs os = p ← l_reduce Q vs os; l_reduce P (fst p) (snd p).
Proof.
  intros HQ. induction os as [|op os IH]; intros vs; [done|]. cbn [l_reduce]. destruct (Q op) eqn:E.
  - rewrite (HQ op E). destruct vs as [|b [|a vs]]; [done|done|]. destruct (applyOperation a b op) as [v| | |]; [|done..]. outcome. apply IH.
  - outcome. done.
Qed.

(** The loop stops at once. *)
Definition stops (P : Z -> bool) (os : list Z) : Prop := match os with [] => True | c :: _ => P c = false end.

Lemma l_reduce_stop P vs os : stops P os -> l_reduce P vs os = Ret (vs, os).
Proof. destruct os as [|c os]; [done|]. cbn. by intros ->. Qed.

Lemma level_pos e : well_formed e -> 1 <= level e.
Proof. destruct e; cbn; [lia|tauto|lia]. Qed.

Lemma precedence_max c : precedence c < 4.
Proof. unfold precedence. repeat case_match; lia. Qed.

(** Reading an expression on top of operators that bind less tightly, and then reducing with any condition that accepts at least the operators as tight as the expression, leaves its value on top. *)
Lemma l_exec_eval e : well_formed e -> forall P vs os, (forall c, level e <= precedence c -> P c = true) -> stops P os -> stops (fun c => level e <=? precedence c) os ->
  (p ← l_exec e (vs, os); l_reduce P (fst p) (snd p)) = (v ← eval e; Ret (v :: vs, os)).
Proof.
  induction e as [ds|op l IHl r IHr|e IH]; intros Hwf P vs os HP Hs Hl; cbn [l_exec eval] in *.
  - outcome. by apply l_reduce_stop.
  - destruct Hwf as (Hop & Hll & Hlr & Hwl & Hwr). cbn [level] in HP, Hl.
    specialize (IHl Hwl (fun c => precedence op <=? precedence c) vs os).
    assert (El : (p ← l_exec l (vs, os); l_reduce (fun c => precedence op <=? precedence c) (fst p) (snd p)) = (v ← eval l; Ret (v :: vs, os))).
    { apply IHl; [intros c Hc; apply Z.leb_le; lia|done|]. destruct os as [|c os]; [done|]. cbn in *. apply Z.leb_gt in Hl. apply Z.leb_gt. lia. }
    clear IHl. destruct (l_exec l (vs, os)) as [p1| | |]; outcome; [|by destruct (eval l)..].
    destruct (l_reduce _ (fst p1) (snd p1)) as [p2| | |]; outcome; [|by destruct (eval l)..].
    destruct (eval l) as [a| | |]; [|done..]. injection El as ->. outcome. cbn [fst snd].
    specialize (IHr Hwr (fun c => precedence op <? precedence c) (a :: vs) (op :: os)).
    assert (Er : (p ← l_exec r (a :: vs, op :: os); l_reduce (fun c => precedence op <? precedence c) (fst p) (snd p)) = (v ← eval r; Ret (v :: a :: vs, op :: os))).
    { apply IHr; [intros c Hc; apply Z.ltb_lt; lia|cbn; apply Z.ltb_irrefl|cbn; apply Z.leb_gt; lia]. }
    clear IHr. destruct (l_exec r (a :: vs, op :: os)) as [p3| | |]; outcome; [|by destruct (eval r)..].
    rewrite (l_reduce_split P (fun c => precedence op <? precedence c)) by (intros c Hc; apply HP; apply Z.ltb_lt in Hc; lia). rewrite Er.
    destruct (eval r) as [b| | |]; [|done..]. outcome. cbn [fst snd l_reduce]. rewrite (HP op) by lia. destruct (applyOperation a b op); [|done..]. outcome. by apply l_reduce_stop.
  - assert (Ee : (p ← l_exec e (vs, 40 :: os); l_reduce (fun o => negb (o =? 40)) (fst p) (snd p)) = (v ← eval e; Ret (v :: vs, 40 :: os))).
    { pose proof (level_pos e Hwf). apply IH; [done| |done|cbn; apply Z.leb_gt; cbn; lia]. intros c Hc. apply negb_true_iff, Z.eqb_neq. intros ->. cbn in Hc. lia. }
    cbn [fst snd]. revert Ee. clear IH. destruct (l_exec e (vs, 40 :: os)) as [p1| | |]; intros Ee; outcome; [|by destruct (eval e)..].
    destruct (l_reduce _ (fst p1) (snd p1)) as [p2| | |]; outcome; [|by destruct (eval e)..].
    destruct (eval e) as [v| | |]; [|done..]. injection Ee as ->. outcome. cbn [fst snd tail]. by apply l_reduce_stop.
Qed.

(** ** The lists of the code *)

Section Lists.
Context `{Junk Z}.
Implicit Types (al : ArrayList Z) (s : stacks) (p : list Z * list Z).

Lemma tops_empty al : al_wf al -> ArrayList.isEmpty al = bool_decide (tops al = []).
Proof.
  intros Hwf. pose proof (length_al_view _ Hwf) as Hl. unfold ArrayList.isEmpty, tops. destruct (al_view al) as [|x l] using rev_ind; cbn in Hl.
  - rewrite bool_decide_true by done. apply Z.eqb_eq. lia.
  - rewrite reverse_snoc, bool_decide_false by done. rewrite length_app in Hl. cbn in Hl. apply Z.eqb_neq. lia.
Qed.

Lemma top_get al x r : al_wf al -> tops al = x :: r -> ArrayList.get (u32 (ArrayList.size al - 1)) al = Ret x /\
  exists al', take_last al = Ret (x, al') /\ al_wf al' /\ tops al' = r.
Proof.
  intros Hwf Ht. unfold tops in Ht. apply (f_equal reverse) in Ht. rewrite reverse_involutive, reverse_cons in Ht.
  pose proof (length_al_view _ Hwf) as Hl. pose proof (al_bounds _ Hwf). pose proof (al_width _ Hwf). rewrite Ht, length_app in Hl. cbn in Hl.
  assert (Ei : u32 (ArrayList.size al - 1) = Z.of_nat (length (reverse r))) by (unfold ArrayList.size; rewrite u32_small by (unfold is_u32 in *; lia); lia).
  assert (Hx : al_view al !! length (reverse r) = Some x) by (rewrite Ht; apply list_lookup_middle; done). rewrite Ei.
  pose proof (get_spec al _ x Hwf Hx) as Eg. split; [done|]. destruct (removeAt_spec al _ x Hwf Hx) as (al' & E & Hwf' & _ & Hv). exists al'. unfold take_last. rewrite Ei, Eg. outcome. rewrite E. outcome.
  split; [done|]. split; [done|]. unfold tops. rewrite Hv, Ht, delete_middle, app_nil_r. apply reverse_involutive.
Qed.

Lemma top_none al : al_wf al -> tops al = [] -> take_last al = Throw OUT_OF_BOUNDS.
Proof.
  intros Hwf Ht. pose proof (tops_empty al Hwf) as E. rewrite bool_decide_true in E by done. apply Z.eqb_eq in E. unfold take_last, ArrayList.get, ArrayList.size. rewrite E. done.
Qed.

Lemma tops_add x al : al_wf al -> Z.of_nat (length (tops al)) < 2 ^ 31 -> exists al', ArrayList.add x al = Ret (true, al') /\ al_wf al' /\ tops al' = x :: tops al.
Proof.
  intros Hwf Hn. pose proof (length_al_view _ Hwf) as Hl. unfold tops in Hn. rewrite length_reverse in Hn. destruct (add_spec x al Hwf) as (al' & E & Hwf' & _ & Hv); [lia|].
  exists al'. split; [done|]. split; [done|]. unfold tops. by rewrite Hv, reverse_snoc.
Qed.

Definition repr s p : Prop := al_wf (fst s) /\ al_wf (snd s) /\ tops (fst s) = fst p /\ tops (snd s) = snd p.
Definition sz p : nat := length (fst p) + length (snd p).

(** The code gives what the machine on lists gives, errors included. *)
Definition agree (n : nat) (o : outcome stacks) (o' : outcome (list Z * list Z)) : Prop :=
  match o, o' with
  | Ret s, Ret p => repr s p /\ (sz p <= n)%nat
  | Throw e, Throw e' => e = e'
  | Fault, Fault => True
  | _, _ => False
  end.

Lemma reduce_agree go n os : Z.of_nat n < 2 ^ 31 -> forall fuel vs s, repr s (vs, os) -> (sz (vs, os) <= n)%nat -> (length os < fuel)%nat -> agree n (reduce fuel go s) (l_reduce go vs os).
Proof.
  intros Hn. induction os as [|op os IH]; intros fuel vs s (Hw1 & Hw2 & T1 & T2) Hsz Hf; cbn [fst snd] in T1, T2; (destruct fuel as [|fuel]; [cbn in Hf; lia|]); cbn [reduce l_reduce]; rewrite (tops_empty _ Hw2), T2.
  - rewrite bool_decide_true by done. by split.
  - rewrite bool_decide_false by done. destruct (top_get _ _ _ Hw2 T2) as (Eg & ops & Eo & Hwo & To). rewrite Eg. outcome. destruct (go op); [|by split].
    unfold reduce_one. destruct vs as [|b [|a vs]].
    + rewrite (top_none _ Hw1 T1). done.
    + destruct (top_get _ _ _ Hw1 T1) as (_ & v1 & E1 & Hwv1 & Tv1). rewrite E1. outcome. rewrite (top_none _ Hwv1 Tv1). done.
    + destruct (top_get _ _ _ Hw1 T1) as (_ & v1 & E1 & Hwv1 & Tv1). rewrite E1. outcome. destruct (top_get _ _ _ Hwv1 Tv1) as (_ & v2 & E2 & Hwv2 & Tv2). rewrite E2. outcome. rewrite Eo. outcome.
      destruct (applyOperation a b op) as [v| | |] eqn:Ea; outcome; [|done|done|].
      * destruct (tops_add v v2 Hwv2) as (v3 & E3 & Hwv3 & Tv3); [rewrite Tv2; unfold sz in Hsz; cbn in Hsz; lia|]. rewrite E3. outcome. apply IH.
        -- split; [done|]. split; [done|]. cbn. by rewrite Tv3, Tv2.
        -- unfold sz in *. cbn in *. lia.
        -- cbn in Hf. lia.
      * unfold applyOperation, idiv in Ea. by repeat case_match.
Qed.

Lemma reduce_while_agree go n s p : Z.of_nat n < 2 ^ 31 -> repr s p -> (sz p <= n)%nat -> agree n (reduce_while go s) (l_reduce go (fst p) (snd p)).
Proof.
  intros Hn Hr Hsz. destruct p as [vs os]. apply reduce_agree; [done|done|done|]. destruct Hr as (_ & Hw2 & _ & T2). pose proof (length_al_view _ Hw2) as Hl. cbn [fst snd] in T2. subst os. unfold tops. cbn [snd]. rewrite length_reverse.
  unfold ArrayList.size. lia.
Qed.

Lemma push_op_agree c n s p : Z.of_nat n < 2 ^ 31 -> repr s p -> (sz p < n)%nat -> agree n (push_op c s) (Ret (fst p, c :: snd p)).
Proof.
  intros Hn (Hw1 & Hw2 & T1 & T2) Hsz. unfold sz in Hsz. destruct (tops_add c _ Hw2) as (al & E & Hw & Ht); [rewrite T2; lia|]. unfold push_op. rewrite E. outcome.
  split; [|unfold sz; cbn; lia]. split; [done|]. split; [done|]. cbn. by rewrite Ht, T2.
Qed.

Lemma push_value_agree v n s p : Z.of_nat n < 2 ^ 31 -> repr s p -> (sz p < n)%nat -> agree n (push_value v s) (Ret (v :: fst p, snd p)).
Proof.
  intros Hn (Hw1 & Hw2 & T1 & T2) Hsz. unfold sz in Hsz. destruct (tops_add v _ Hw1) as (al & E & Hw & Ht); [rewrite T1; lia|]. unfold push_value. rewrite E. outcome.
  split; [|unfold sz; cbn; lia]. split; [done|]. split; [done|]. cbn. by rewrite Ht, T1.
Qed.

Lemma agree_bind n n' o o' f f' : agree n o o' -> (forall s p, repr s p -> (sz p <= n)%nat -> agree n' (f s) (f' p)) -> agree n' (o ≫= f) (o' ≫= f').
Proof. intros Ho Hf. destruct o, o'; try done. destruct Ho. by apply Hf. Qed.

Lemma operator_agree c n s p : Z.of_nat (S n) < 2 ^ 31 -> repr s p -> (sz p <= n)%nat ->
  agree (S n) (operator c s) (p ← l_reduce (fun o => precedence c <=? precedence o) (fst p) (snd p); Ret (fst p, c :: snd p)).
Proof.
  intros Hn Hr Hsz. unfold operator. eapply agree_bind; [apply reduce_while_agree; [|done|done]; lia|]. intros s' p' Hr' Hsz'. apply push_op_agree; [done|done|lia].
Qed.

Lemma closing_agree n s p : Z.of_nat n < 2 ^ 31 -> repr s p -> (sz p <= n)%nat ->
  agree n (closing s) (p ← l_reduce (fun o => negb (o =? 40)) (fst p) (snd p); Ret (fst p, tail (snd p))).
Proof.
  intros Hn Hr Hsz. unfold closing. eapply agree_bind; [by apply reduce_while_agree|]. intros s' [vs [|o os]] (Hw1 & Hw2 & T1 & T2) Hsz'; cbn [fst snd tail] in *; rewrite (tops_empty _ Hw2), T2.
  - rewrite bool_decide_true by done. by split.
  - rewrite bool_decide_false by done. cbn [negb]. destruct (top_get _ _ _ Hw2 T2) as (_ & ops & Eo & Hwo & To). rewrite Eo. outcome. split; [done|]. unfold sz in *. cbn in *. lia.
Qed.
End Lists.

(** ** Reading the text *)

Lemma at_index_str l i c : l !! i = Some c -> at_index (str l) (Z.of_nat i) = Ret c.
Proof. intros Hc. unfold at_index, char_of. decide_bool. rewrite Nat2Z.id. cbn [str buffer]. by rewrite (lookup_app_l_Some _ _ _ _ Hc). Qed.

Lemma at_index_middle pre c rest : at_index (str (pre ++ c :: rest)) (Z.of_nat (length pre)) = Ret c.
Proof. by apply at_index_str, list_lookup_middle. Qed.

(** What follows a number. *)
Definition not_digit_next (rest : list Z) : Prop := match rest with [] => True | c :: _ => is_digit c = false end.

Lemma number_loop_run ds rest : Forall (fun c => is_digit c = true) ds -> not_digit_next rest -> forall fuel pre v, (length ds < fuel)%nat -> Z.of_nat (length (pre ++ ds ++ rest)) < 2 ^ 31 ->
  number_loop fuel (str (pre ++ ds ++ rest)) v (Z.of_nat (length pre)) = Ret (foldl (fun v c => s32 (v * 10 + (c - 48))) v ds, Z.of_nat (length pre + length ds)).
Proof.
  intros Hds Hr. induction Hds as [|d ds Hd Hds IH]; intros fuel pre v Hf Hl; (destruct fuel as [|fuel]; [cbn in Hf; lia|]); cbn [number_loop]; change (KString.len (str ?l)) with (Z.of_nat (length l)).
  - cbn [app length foldl]. rewrite Nat.add_0_r. destruct rest as [|c rest].
    + rewrite app_nil_r. by rewrite Z.ltb_irrefl.
    + rewrite (proj2 (Z.ltb_lt _ _)) by (rewrite length_app; cbn; lia). rewrite at_index_middle. outcome. cbn in Hr. by rewrite Hr.
  - rewrite (proj2 (Z.ltb_lt _ _)) by (rewrite length_app; cbn; lia). cbn [app]. rewrite at_index_middle. outcome. rewrite Hd. cbn [foldl length] in *.
    rewrite !length_app in Hl. cbn [length app] in Hl. rewrite ?length_app in Hl. rewrite u32_small by (unfold is_u32; lia).
    specialize (IH fuel (pre ++ [d]) (s32 (v * 10 + (d - 48)))). rewrite <- app_assoc in IH. cbn [app] in IH. rewrite !length_app in IH. cbn [length] in IH. rewrite ?length_app in IH.
    replace (Z.of_nat (length pre) + 1) with (Z.of_nat (length pre + 1)) by lia. rewrite IH by lia. do 2 f_equal. lia.
Qed.

Section Reading.
Context `{Junk Z}.
Implicit Types (s : stacks) (p : list Z * list Z).

(** The loop over the text, from behind [pre] to behind [l], does what the machine on lists does. *)
Definition reads (pre l rest : list Z) (o : outcome (list Z * list Z)) (n : nat) s : Prop := forall fuel, (length l + length rest < fuel)%nat ->
  match o with
  | Ret p => exists s' fuel', token_loop fuel (str (pre ++ l ++ rest)) (Z.of_nat (length pre)) s = token_loop fuel' (str (pre ++ l ++ rest)) (Z.of_nat (length (pre ++ l))) s' /\ repr s' p /\ (sz p <= n + length l)%nat /\ (length rest < fuel')%nat
  | Throw e => token_loop fuel (str (pre ++ l ++ rest)) (Z.of_nat (length pre)) s = Throw e
  | Fault => token_loop fuel (str (pre ++ l ++ rest)) (Z.of_nat (length pre)) s = Fault
  | Diverge => False
  end.

(** One character that is not part of a number. *)
Lemma reads_char pre c rest (f : stacks -> outcome stacks) s o n :
  (forall fuel tokens i s, (i <? KString.len tokens) = true -> at_index tokens i = Ret c -> token_loop (S fuel) tokens i s = (s ← f s; token_loop fuel tokens (u32 (i + 1)) s)) ->
  Z.of_nat (length (pre ++ c :: rest)) < 2 ^ 31 -> agree (n + 1) (f s) o -> reads pre [c] rest o n s.
Proof.
  intros Hstep Hl Ha fuel Hf. destruct fuel as [|fuel]; [cbn in Hf; lia|]. cbn [app].
  rewrite Hstep by (apply at_index_middle || (apply Z.ltb_lt; change (KString.len (str ?l)) with (Z.of_nat (length l)); rewrite length_app; cbn; lia)).
  rewrite length_app in Hl. cbn in Hl. rewrite u32_small by (unfold is_u32; lia).
  destruct (f s) as [s'| | |], o as [p| | |]; try done; [|by cbn in Ha; subst]. destruct Ha as [Hr Hsz]. exists s', fuel. outcome. split; [rewrite length_app; cbn; do 2 f_equal; lia|]. split; [done|]. split; [cbn; lia|]. cbn in Hf. lia.
Qed.

(** Two pieces one behind the other. *)
Lemma reads_app pre l1 l2 rest o f n s : reads pre l1 (l2 ++ rest) o n s -> (forall s' p, repr s' p -> (sz p <= n + length l1)%nat -> reads (pre ++ l1) l2 rest (f p) (n + length l1) s') -> reads pre (l1 ++ l2) rest (o ≫= f) n s.
Proof.
  intros H1 H2 fuel Hf. rewrite length_app in Hf. specialize (H1 fuel). rewrite length_app in H1. specialize (H1 ltac:(lia)). rewrite <- !app_assoc in *. destruct o as [p| | |]; [|done..]. destruct H1 as (s' & fuel' & E1 & Hr & Hsz & Hf').
  specialize (H2 s' p Hr Hsz fuel' ltac:(lia)). outcome. rewrite E1. rewrite <- !app_assoc in H2. destruct (f p) as [p'| | |]; [|done..]. destruct H2 as (s'' & fuel'' & E2 & Hr2 & Hsz2 & Hf2).
  exists s'', fuel''. rewrite E2. split; [done|]. split; [done|]. split; [rewrite length_app; lia|done].
Qed.

(** Lengths of texts put together. *)
Ltac lens := repeat (rewrite ?length_app in *; cbn [length app] in *); lia.

Lemma reads_expr e : well_formed e -> forall pre rest s p, not_digit_next rest -> repr s p -> (sz p <= length pre)%nat -> Z.of_nat (length (pre ++ print e ++ rest)) < 2 ^ 31 - 1 ->
  reads pre (print e) rest (l_exec e p) (length pre) s.
Proof.
  induction e as [ds|op l IHl r IHr|e IH]; intros Hwf pre rest s p Hnd Hr Hsz Hl; cbn [print l_exec] in *.
  - destruct Hwf as [Hne Hds]. intros fuel Hf. destruct fuel as [|fuel]; [lia|]. cbn [token_loop]. change (KString.len (str ?l)) with (Z.of_nat (length l)). destruct ds as [|d ds]; [done|].
    rewrite (proj2 (Z.ltb_lt _ _)) by (rewrite !length_app; cbn; lia). cbn [app]. rewrite at_index_middle. outcome. pose proof Hds as Hds'. apply Forall_cons in Hds' as [Hd _].
    rewrite (proj2 (Z.eqb_neq _ _)) by (intros ->; done). rewrite Hd. change (pre ++ d :: ds ++ rest) with (pre ++ (d :: ds) ++ rest) in *.
    rewrite (number_loop_run (d :: ds) rest Hds Hnd) by (cbn in *; lia || (eapply Z.lt_trans; [exact Hl|lia])). outcome. change (foldl _ 0 (d :: ds)) with (number (d :: ds)).
    pose proof (push_value_agree (number (d :: ds)) (length pre + 1) s p) as Ha. destruct (push_value _ s) as [s'| | |]; (destruct Ha as [Hr' Hsz']; [rewrite !length_app in Hl; cbn in Hl; lia|done|lia|]) || (by destruct Ha; [rewrite !length_app in Hl; cbn in Hl; lia|done|lia]).
    exists s', fuel. outcome. rewrite !length_app in Hl. cbn [length] in *. rewrite !u32_small by (unfold is_u32; rewrite ?u32_small by (unfold is_u32; lia); lia).
    split; [rewrite length_app; cbn [length]; do 2 f_equal; lia|]. split; [done|]. split; [lia|lia].
  - destruct Hwf as (Hop & Hll & Hlr & Hwl & Hwr). assert (Hnop : is_digit op = false /\ op <> 40 /\ op <> 41).
    { unfold precedence in Hop. destruct (Z.eqb_spec op 43) as [->|]; [done|]. destruct (Z.eqb_spec op 45) as [->|]; [done|]. cbn in Hop. destruct (Z.eqb_spec op 37) as [->|]; [done|].
      destruct (Z.eqb_spec op 42) as [->|]; [done|]. destruct (Z.eqb_spec op 47) as [->|]; [done|]. cbn in Hop. lia. }
    destruct Hnop as (Hd & H40 & H41). apply reads_app.
    + apply IHl; try done. lens.
    + intros s1 p1 Hr1 Hsz1. change (op :: print r) with ([op] ++ print r). rewrite <- (length_app pre (print l)) in *.
      replace (p2 ← l_reduce (fun o => precedence op <=? precedence o) p1.1 p1.2; l_exec r (p2.1, op :: p2.2)) with
        ((p2 ← l_reduce (fun o => precedence op <=? precedence o) p1.1 p1.2; Ret (p2.1, op :: p2.2)) ≫= l_exec r) by (by destruct (l_reduce _ p1.1 p1.2)).
      apply reads_app.
      * apply (reads_char _ _ _ (operator op)).
        -- intros fuel tokens i s' Hi Hc. cbn [token_loop]. rewrite Hi, Hc. outcome. by rewrite !(proj2 (Z.eqb_neq _ _)), Hd by done.
        -- lens.
        -- rewrite Nat.add_1_r. apply operator_agree; [lens|done|done].
      * intros s2 p2 Hr2 Hsz2. rewrite <- (length_app _ [op]) in *. apply IHr; try done. lens.
  - change (40 :: print e ++ [41]) with ([40] ++ print e ++ [41]).
    replace (p1 ← l_exec e (p.1, 40 :: p.2); p2 ← l_reduce (fun o => negb (o =? 40)) p1.1 p1.2; Ret (p2.1, tail p2.2)) with
      (Ret (p.1, 40 :: p.2) ≫= fun p0 => l_exec e p0 ≫= fun p1 => p2 ← l_reduce (fun o => negb (o =? 40)) p1.1 p1.2; Ret (p2.1, tail p2.2)) by done.
    apply reads_app; [|intros s1 p1 Hr1 Hsz1; apply reads_app].
    + apply (reads_char _ _ _ (push_op 40)); [|lens|apply push_op_agree; [lens|done|lia]]. intros fuel tokens i s' Hi Hc. cbn [token_loop]. by rewrite Hi, Hc.
    + rewrite <- (length_app pre [40]) in *. apply IH; try done. lens.
    + rewrite <- (length_app pre [40]) in *. intros s2 p2 Hr2 Hsz2. apply (reads_char _ _ _ closing); [|lens|].
      * intros fuel tokens i s' Hi Hc. cbn [token_loop]. by rewrite Hi, Hc.
      * rewrite <- (length_app (pre ++ [40])) in *. apply closing_agree; [lens|done|lia].
Qed.
End Reading.

Lemma new_repr `{Junk Z} : repr (new_ArrayList, new_ArrayList) ([], []).
Proof. by split_and!. Qed.

(** C21. The calculator computes what an expression means: for every expression of numbers, parentheses and the operators + - % * / (binding in this order, ever more tightly, and associating to
    the left), printed as text, the evaluation with the two lists gives the value of the expression, with the sums and products of 32-bit integers, or fails with a divide error exactly
    when the expression contains a quotient that does not exist. *)
Theorem calculator_evaluates {J : Junk Z} (e : expr) (Hwf : well_formed e) (Hlen : Z.of_nat (length (print e)) < 2 ^ 31 - 1) : calculateExpression (str (print e)) = eval e.
Proof.
  pose proof (reads_expr e Hwf [] [] (new_ArrayList, new_ArrayList) ([], []) I new_repr (le_n 0)) as Hrd. cbn [app length] in Hrd. rewrite app_nil_r in Hrd. specialize (Hrd Hlen).
  pose proof (l_exec_eval e Hwf (fun _ => true) [] [] ltac:(done) I I) as Hev. unfold calculateExpression. change (KString.len (str ?l)) with (Z.of_nat (length l)). rewrite Nat2Z.id.
  specialize (Hrd (S (length (print e))) ltac:(cbn; lia)). cbn [app] in Hrd. rewrite app_nil_r in Hrd. change (Z.of_nat (length [])) with 0 in Hrd.
  destruct (l_exec e ([], [])) as [p| | |]; [|rewrite Hrd; revert Hev; destruct (eval e); intros Hev; outcome; congruence..|done]. destruct Hrd as (s & fuel & E & Hr & Hsz & Hf). rewrite E. cbn [length] in Hf. destruct fuel as [|fuel]; [lia|].
  cbn [token_loop]. change (KString.len (str ?l)) with (Z.of_nat (length l)). rewrite Z.ltb_irrefl. outcome.
  pose proof (reduce_while_agree (fun _ => true) (length (print e)) s p ltac:(lia) Hr Hsz) as Ha. rewrite Hev in Ha. destruct (reduce_while _ s) as [s2| | |], (eval e) as [v| | |]; try done; [|by cbn in Ha; subst].
  destruct Ha as [(Hw & _ & Ht & _) _]. outcome. by apply (top_get _ v []).
Qed.

(** 10-(2+3)*4%7 *)
Definition sample : expr := Bin 45 (Num [49; 48]) (Bin 37 (Bin 42 (Paren (Bin 43 (Num [50]) (Num [51]))) (Num [52])) (Num [55])).

Lemma calculator_evaluates_witness : calculateExpression (str [49; 48; 45; 40; 50; 43; 51; 41; 42; 52; 37; 55]) = Ret 4.
Proof. apply (calculator_evaluates sample); [|reflexivity]. cbn. split_and!; try done; repeat constructor. Defined.

(** ** Deviations *)

(** A sign, an unclosed parenthesis, a space or no text at all ends in an exception, and the user of the shell stops the kernel. *)
Theorem calculator_rejects_by_exception :
  calculateExpression (str [45; 50]) = Throw OUT_OF_BOUNDS /\ calculateExpression (str [40; 49]) = Throw OUT_OF_BOUNDS /\
  calculateExpression (str [49; 32; 43; 32; 50]) = Throw OUT_OF_BOUNDS /\ calculateExpression (str []) = Throw OUT_OF_BOUNDS /\ calculateExpression (str [49; 47; 48]) = Fault.
Proof. by vm_compute. Qed.

(** Text that is no expression may get a value: "1)2" is 2. *)
Theorem calculator_accepts_nonsense : calculateExpression (str [49; 41; 50]) = Ret 2.
Proof. by vm_compute. Qed.
