(* ===== verification/Clock.v ===== *)
(** * Clocks

    [lib/time/TimeProvider.cpp] and [device/time/Pit.cpp]: the time since the start,
    counted by timer interrupts. [device/misc/Cmos.cpp] and [device/time/Rtc.cpp]: the
    date, kept by a chip in binary or in decimal digits. The chip is its registers and
    the number that was written last to its address port; it does not tick. *)

From S2P Require Import Prelude Spinlock Array RingBuffer.

(** ** Time since the start *)

Record Time := mkTime { seconds : Z; fraction : Z }.

Definition addNanos (value : Z) (t : Time) : Time :=
  let fraction := u32 (fraction t + value) in
  if 1000000000 <=? fraction then mkTime (u32 (seconds t + 1)) (u32 (fraction - 1000000000)) else mkTime (seconds t) fraction.

(** The parameter is not used. *)
Definition addSeconds (value : Z) (t : Time) : Time := mkTime (u32 (seconds t + seconds t)) (fraction t).

Definition time_gt (t other : Time) : bool :=
  if seconds other <? seconds t then true else (seconds t =? seconds other) && (fraction other <? fraction t).
Definition time_ge (t other : Time) : bool :=
  if seconds other <? seconds t then true else (seconds t =? seconds other) && (fraction other <=? fraction t).
Definition time_lt (t other : Time) : bool :=
  if seconds t <? seconds other then true else (seconds t =? seconds other) && (fraction t <? fraction other).
Definition time_le (t other : Time) : bool :=
  if seconds t <? seconds other then true else (seconds t =? seconds other) && (fraction t <=? fraction other).

Definition toNanos (t : Time) : Z := u32 (u32 (seconds t * 1000000000) + fraction t).
Definition toMicros (t : Time) : Z := u32 (u32 (seconds t * 1000000) + fraction t / 1000).
Definition toMillis (t : Time) : Z := u32 (u32 (seconds t * 1000) + fraction t / 1000000).
Definition toSeconds (t : Time) : Z := seconds t.
Definition toMinutes (t : Time) : Z := seconds t / 60.
Definition toHours (t : Time) : Z := seconds t / 3600.
Definition toDays (t : Time) : Z := seconds t / 86400.
Definition toYears (t : Time) : Z := seconds t / 31536000.

Inductive TimeUnit := NANO | MICRO | MILLI | SECONDS | MINUTES | HOURS | DAYS | YEARS.

(** The numbers of the enumeration. *)
Definition unit_code (u : TimeUnit) : Z :=
  match u with NANO => 1 | MICRO => 2 | MILLI => 3 | SECONDS => 4 | MINUTES => 5 | HOURS => 6 | DAYS => 7 | YEARS => 8 end.

Definition conversionMap : list (list Z) := [
  [1; 1000; 1000000; 1000000000; 1; 1; 1; 1];
  [1000; 1; 1000; 1000000; 60000000; 3600000000; 1; 1];
  [1000000; 1000; 1; 1000; 60000; 3600000; 86400000; 1];
  [1000000000; 1000000; 1000; 1; 60; 3600; 864000; 31536000];
  [1; 60000000; 60000; 60; 1; 60; 1440; 525600];
  [1; 3600000000; 3600000; 3600; 60; 1; 24; 8760];
  [1; 1; 86400000; 864000; 1440; 24; 1; 365];
  [1; 1; 1; 31536000; 525600; 8760; 365; 1]].

(** [conversionMap[from][to]]: rows of eight, one behind the other. *)
Definition conversion (from to : Z) : outcome Z := or_fault (concat conversionMap !! Z.to_nat (8 * from + to)).

Definition convert (value : Z) (from to : TimeUnit) : outcome Z :=
  if unit_code from =? unit_code to then Ret value
  else
    f ← conversion (unit_code from) (unit_code to);
    if unit_code to <? unit_code from then Ret (u32 (f * value)) else Ret (value / f).

(** ** The timer *)

Definition TIME_BASE : Z := 838.
Definition DEFAULT_TIMER_INTERVAL : Z := 1000000.
Definition DEFAULT_YIELD_INTERVAL : Z := 5000000.

Record Pit := mkPit { timerInterval : Z; time : Time }.

Definition new_Pit : Pit := mkPit DEFAULT_TIMER_INTERVAL (mkTime 0 0).

(** The interval, and what is written to which port. *)
Definition setInterval (ns : Z) (p : Pit) : list (Z * Z) * Pit :=
  let divisor := ns / TIME_BASE in
  ([(0x43, 0x36); (0x40, u8 (Z.land divisor 0xff)); (0x40, u8 (Z.shiftr divisor 8))], mkPit ns (time p)).

(** The time goes on; [true] when another thread gets its turn. *)
Definition pit_trigger (p : Pit) : bool * Pit :=
  let t := addNanos (timerInterval p) (time p) in
  (fraction t mod DEFAULT_YIELD_INTERVAL =? 0, mkPit (timerInterval p) t).

Definition getNanos (p : Pit) : Z := toNanos (time p).
Definition getMicros (p : Pit) : Z := toMicros (time p).
Definition getMillis (p : Pit) : Z := toMillis (time p).
Definition getSeconds (p : Pit) : Z := seconds (time p).
Definition getMinutes (p : Pit) : Z := toMinutes (time p).
Definition getHours (p : Pit) : Z := toHours (time p).
Definition getDays (p : Pit) : Z := toDays (time p).
Definition getYears (p : Pit) : Z := toYears (time p).

(** [TimeService::msleep], given the times that are read one after the other: the number of times the processor is given up. *)
Fixpoint sleep_loop (st ms : Z) (times : list Z) : outcome nat :=
  match times with
  | [] => Diverge
  | now :: times => if u32 (st + ms) <? now then Ret 0%nat else n ← sleep_loop st ms times; Ret (S n)
  end.

Definition msleep (ms : Z) (times : list Z) : outcome nat :=
  match times with [] => Diverge | st :: times => sleep_loop st ms times end.

(** ** The registers of the chip *)

Record Cmos := mkCmos { registerPort : Z; regs : Z -> Z }.

Definition outb_register (v : Z) (c : Cmos) : Cmos := mkCmos v (regs c).
Definition inb_data (c : Cmos) : Z := regs c (Z.land (registerPort c) 0x7f).
Definition outb_data (v : Z) (c : Cmos) : Cmos := mkCmos (registerPort c) (fun r => if r =? Z.land (registerPort c) 0x7f then v else regs c r).

Definition readRegister (regNumber : Z) (c : Cmos) : Z * Cmos :=
  let c := outb_register (Z.land regNumber 0x7f) c in (inb_data c, c).
Definition writeRegister (regNumber value : Z) (c : Cmos) : Cmos := outb_data value (outb_register (Z.land regNumber 0x7f) c).
Definition disableNmi (c : Cmos) : Cmos := outb_register (u8 (Z.lor (registerPort c) 0x80)) c.
Definition enableNmi (c : Cmos) : Cmos := outb_register (u8 (Z.land (registerPort c) 0x7f)) c.

Definition checkAvailability (c : Cmos) : bool * Cmos :=
  let c := disableNmi c in
  let '(statusB, c) := readRegister 0x0b c in
  let statusB := Z.lxor statusB 0x03 in
  let c := writeRegister 0x0b statusB c in
  let '(now, c) := readRegister 0x0b c in
  if statusB =? now then (true, enableNmi (writeRegister 0x0b (u8 (Z.lxor statusB 0x03)) c)) else (false, enableNmi c).

(** ** The date *)

Definition SECONDS_REGISTER : Z := 0x00.
Definition MINUTES_REGISTER : Z := 0x02.
Definition HOURS_REGISTER : Z := 0x04.
Definition DAY_OF_MONTH_REGISTER : Z := 0x07.
Definition MONTH_REGISTER : Z := 0x08.
Definition YEAR_REGISTER : Z := 0x09.
Definition CENTURY_REGISTER : Z := 0x32.
Definition STATUS_REGISTER_A : Z := 0x0A.
Definition STATUS_REGISTER_B : Z := 0x0B.
Definition STATUS_REGISTER_C : Z := 0x0C.
Definition CURRENT_CENTURY : Z := 20.
Definition RTC_RATE : Z := 0x06.

Record Date := mkDate { d_seconds : Z; d_minutes : Z; d_hours : Z; d_dayOfMonth : Z; d_month : Z; d_year : Z }.

Record InterruptData := mkData { i_seconds : Z; i_minutes : Z; i_hours : Z; i_dayOfMonth : Z; i_month : Z; i_year : Z; i_century : Z }.

Record Rtc := mkRtc { currentDate : Date; lock : Spinlock; interruptDataBuffer : RingBuffer InterruptData; useBcd : bool; useTwelveHours : bool; cmos : Cmos }.

Definition set_cmos (c : Cmos) (r : Rtc) : Rtc := mkRtc (currentDate r) (lock r) (interruptDataBuffer r) (useBcd r) (useTwelveHours r) c.

Definition bcdToBinary (bcd : Z) : Z := u8 (Z.land bcd 0x0F + bcd / 16 * 10).
Definition binaryToBcd (binary : Z) : Z := u8 (binary mod 10 + Z.shiftl (binary / 10) 4).

Section Dates.
Context `{Junk InterruptData}.

Definition new_Rtc (c : Cmos) : outcome Rtc :=
  b ← new_RingBuffer 1024;
  let '(s1, c) := readRegister STATUS_REGISTER_B c in
  let '(s2, c) := readRegister STATUS_REGISTER_B c in
  Ret (mkRtc (mkDate 0 0 0 0 0 0) new_Spinlock b (Z.land s1 0x04 =? 0) (Z.land s2 0x02 =? 0) c).

(** The registers that [plugin] changes: interrupts after every update, and their rate. *)
Definition enable_updates (c : Cmos) : Cmos :=
  let c := disableNmi c in
  let '(old, c) := readRegister STATUS_REGISTER_B c in
  let c := writeRegister STATUS_REGISTER_B (u8 (Z.lor old 0x10)) c in
  let '(old, c) := readRegister STATUS_REGISTER_A c in
  let c := writeRegister STATUS_REGISTER_A (u8 (Z.lor (Z.land old 0xF0) RTC_RATE)) c in
  let '(_, c) := readRegister STATUS_REGISTER_C c in
  enableNmi c.

(** The seven registers, in the order in which they are read. *)
Definition read_data (c : Cmos) : InterruptData * Cmos :=
  let '(s, c) := readRegister SECONDS_REGISTER c in
  let '(mi, c) := readRegister MINUTES_REGISTER c in
  let '(h, c) := readRegister HOURS_REGISTER c in
  let '(d, c) := readRegister DAY_OF_MONTH_REGISTER c in
  let '(mo, c) := readRegister MONTH_REGISTER c in
  let '(y, c) := readRegister YEAR_REGISTER c in
  let '(ce, c) := readRegister CENTURY_REGISTER c in
  (mkData s mi h d mo y ce, c).

Definition rtc_trigger (r : Rtc) : outcome Rtc :=
  let '(st, c) := readRegister STATUS_REGISTER_C (cmos r) in
  if negb (Z.land st 0x10 =? 0x10) then Ret (set_cmos c r)
  else
    let '(data, c) := read_data c in
    b ← push data (interruptDataBuffer r);
    Ret (mkRtc (currentDate r) (lock r) b (useBcd r) (useTwelveHours r) c).

Definition hasInterruptData (r : Rtc) : bool := negb (isEmpty (interruptDataBuffer r)).

(** The fields in the format of the chip made numbers. *)
Definition decode_bcd (useBcd : bool) (data : InterruptData) (century : Z) : Date * Z :=
  if useBcd then
    (mkDate (bcdToBinary (i_seconds data)) (bcdToBinary (i_minutes data)) (Z.lor (bcdToBinary (i_hours data)) (Z.land (i_hours data) 0x80))
            (bcdToBinary (i_dayOfMonth data)) (bcdToBinary (i_month data)) (bcdToBinary (i_year data)), bcdToBinary century)
  else (mkDate (i_seconds data) (i_minutes data) (i_hours data) (i_dayOfMonth data) (i_month data) (i_year data), century).

Definition decode (useBcd useTwelveHours : bool) (data : InterruptData) : Date :=
  let century := if i_century data =? 0 then CURRENT_CENTURY else i_century data in
  let '(d, century) := decode_bcd useBcd data century in
  let year := u16 (d_year d + century * 100) in
  let hours := if useTwelveHours && negb (Z.land (d_hours d) 0x80 =? 0) then u8 ((Z.land (d_hours d) 0x7F + 12) mod 24) else d_hours d in
  mkDate (d_seconds d) (d_minutes d) hours (d_dayOfMonth d) (d_month d) year.

Definition parseInterruptData (r : Rtc) : outcome Rtc :=
  '(data, b) ← pop (interruptDataBuffer r);
  lk ← acquire 1 (lock r);
  Ret (mkRtc (decode (useBcd r) (useTwelveHours r) data) (release lk) b (useBcd r) (useTwelveHours r) (cmos r)).

Definition isUpdating (c : Cmos) : bool * Cmos :=
  let '(st, c) := readRegister STATUS_REGISTER_A c in (Z.land st 0x80 =? 0x80, c).

Definition getCurrentDate (r : Rtc) : Date := currentDate r.

(** Century and date in the format of the chip. *)
Definition encode (useBcd useTwelveHours : bool) (date : Date) : Date * Z :=
  let '(century, year) := if d_year date <? 100 then (CURRENT_CENTURY, d_year date) else (u8 (d_year date / 100), d_year date mod 100) in
  let hours := if useTwelveHours then d_hours date mod 12 else d_hours date in
  if useBcd then
    (mkDate (binaryToBcd (d_seconds date)) (binaryToBcd (d_minutes date)) (binaryToBcd hours) (binaryToBcd (d_dayOfMonth date)) (binaryToBcd (d_month date)) (binaryToBcd year),
     binaryToBcd century)
  else (mkDate (d_seconds date) (d_minutes date) hours (d_dayOfMonth date) (d_month date) year, century).

Definition write_date (out : Date) (century : Z) (c : Cmos) : Cmos :=
  let c := writeRegister SECONDS_REGISTER (d_seconds out) c in
  let c := writeRegister MINUTES_REGISTER (d_minutes out) c in
  let c := writeRegister HOURS_REGISTER (d_hours out) c in
  let c := writeRegister DAY_OF_MONTH_REGISTER (d_dayOfMonth out) c in
  let c := writeRegister MONTH_REGISTER (d_month out) c in
  let c := writeRegister YEAR_REGISTER (d_year out) c in
  writeRegister CENTURY_REGISTER century c.

(** [while (isUpdating());] ends at once or, for a chip that does not change by itself, never. *)
Definition setHardwareDate (date : Date) (r : Rtc) : outcome Rtc :=
  let '(out, century) := encode (useBcd r) (useTwelveHours r) date in
  lk ← acquire 1 (lock r);
  let '(updating, c) := isUpdating (cmos r) in
  if (updating : bool) then Diverge
  else
    let c := enableNmi (write_date out century (disableNmi c)) in
    Ret (mkRtc (currentDate r) (release lk) (interruptDataBuffer r) (useBcd r) (useTwelveHours r) c).
End Dates.

(** ** Counting time *)

Definition nanos (t : Time) : Z := seconds t * 1000000000 + fraction t.

(** The time is well formed. *)
Definition time_ok (t : Time) : Prop := 0 <= seconds t < 2 ^ 32 /\ 0 <= fraction t < 1000000000.

(** [n] timer interrupts, with the turns of other threads. *)
Fixpoint ticks (n : nat) (p : Pit) : list bool * Pit :=
  match n with
  | O => ([], p)
  | S n => let '(ys, p) := ticks n p in let '(y, p) := pit_trigger p in (ys ++ [y], p)
  end.

Lemma addNanos_spec v t : time_ok t -> 0 <= v <= 1000000000 -> nanos t + v < 2 ^ 32 * 1000000000 -> nanos (addNanos v t) = nanos t + v /\ time_ok (addNanos v t).
Proof.
  unfold time_ok, nanos, addNanos. intros (Hs & Hf) Hv Hn. cbv zeta. rewrite (u32_small (fraction t + v)) by (unfold is_u32; lia).
  destruct (Z.leb_spec 1000000000 (fraction t + v)); cbn [seconds fraction].
  - rewrite !u32_small by (unfold is_u32; lia). lia.
  - lia.
Qed.

Lemma fraction_mod t : time_ok t -> fraction t = nanos t mod 1000000000.
Proof. intros (_ & Hf). unfold nanos. rewrite Z.add_comm, Z.mod_add, Z.mod_small by lia. done. Qed.

Lemma yield_when t : time_ok t -> (fraction t mod DEFAULT_YIELD_INTERVAL =? 0) = bool_decide (nanos t mod DEFAULT_YIELD_INTERVAL = 0).
Proof.
  intros Ht. rewrite (fraction_mod t Ht). unfold DEFAULT_YIELD_INTERVAL. assert (E : (nanos t mod 1000000000) mod 5000000 = nanos t mod 5000000).
  { rewrite <- (Z.mod_mod_divide (nanos t) 1000000000 5000000) by (by exists 200). done. }
  rewrite E. destruct (Z.eqb_spec (nanos t mod 5000000) 0); [by rewrite bool_decide_true|by rewrite bool_decide_false].
Qed.

Lemma millis_of t : time_ok t -> toMillis t = u32 (nanos t / 1000000).
Proof.
  intros (Hs & Hf). unfold toMillis, nanos. replace (seconds t * 1000000000 + fraction t) with (fraction t + (seconds t * 1000) * 1000000) by lia. rewrite Z.div_add by lia.
  unfold u32. rewrite Zplus_mod_idemp_l. f_equal. lia.
Qed.

(** C20. The timer counts the time: with an interval of at most a second, [n] interrupts after the start the time is well formed (its fraction below a second) and stands at exactly [n]
    intervals, until the seconds no longer fit; the milliseconds that other components read are those of that time, modulo 2^32; and another thread got its turn at exactly the interrupts at
    which the time was a multiple of five milliseconds. *)
Theorem pit_counts_time (t : Z) (n : nat) (Ht : 0 < t <= 1000000000) (Hn : Z.of_nat n * t < 2 ^ 32 * 1000000000) :
  let '(ys, p) := ticks n (mkPit t (mkTime 0 0)) in
  time_ok (time p) /\ nanos (time p) = Z.of_nat n * t /\ getMillis p = u32 (Z.of_nat n * t / 1000000) /\
  ys = (fun i => bool_decide (Z.of_nat (S i) * t mod DEFAULT_YIELD_INTERVAL = 0)) <$> seq 0 n.
Proof.
  assert (Hall : timerInterval (snd (ticks n (mkPit t (mkTime 0 0)))) = t /\ time_ok (time (snd (ticks n (mkPit t (mkTime 0 0))))) /\ nanos (time (snd (ticks n (mkPit t (mkTime 0 0))))) = Z.of_nat n * t /\
    fst (ticks n (mkPit t (mkTime 0 0))) = (fun i => bool_decide (Z.of_nat (S i) * t mod DEFAULT_YIELD_INTERVAL = 0)) <$> seq 0 n).
  { induction n as [|n IH]; [done|]. specialize (IH ltac:(lia)). cbn [ticks]. destruct (ticks n _) as [ys p]. cbn [fst snd] in IH. destruct IH as (Ei & Hok & Hnn & Hys). unfold pit_trigger. cbn [fst snd timerInterval time].
    rewrite Ei. destruct (addNanos_spec t (time p) Hok) as [E Hok']; [lia|lia|]. split; [done|]. split; [done|]. split; [lia|].
    rewrite (yield_when _ Hok'), E, Hnn, Hys, seq_S, fmap_app. cbn [fmap list_fmap]. by replace (Z.of_nat n * t + t) with (Z.of_nat (S n) * t) by lia. }
  destruct (ticks n _) as [ys p]. cbn [fst snd] in Hall. destruct Hall as (_ & Hok & Hnn & Hys). split; [done|]. split; [done|]. split; [|done]. unfold getMillis. by rewrite millis_of, Hnn.
Qed.

Lemma pit_counts_time_witness : let '(ys, p) := ticks 2505 (mkPit 1000000 (mkTime 0 0)) in
  time_ok (time p) /\ nanos (time p) = 2505 * 1000000 /\ getMillis p = u32 (2505 * 1000000 / 1000000) /\ ys = (fun i => bool_decide (Z.of_nat (S i) * 1000000 mod DEFAULT_YIELD_INTERVAL = 0)) <$> seq 0 2505.
Proof. apply (pit_counts_time 1000000 2505); lia. Defined.

(** The comparisons of well formed times are those of the nanoseconds. *)
Theorem time_comparisons (t u : Time) : time_ok t -> time_ok u ->
  time_gt t u = (nanos u <? nanos t) /\ time_ge t u = (nanos u <=? nanos t) /\ time_lt t u = (nanos t <? nanos u) /\ time_le t u = (nanos t <=? nanos u).
Proof.
  unfold time_ok, nanos, time_gt, time_ge, time_lt, time_le. intros (Ht1 & Ht2) (Hu1 & Hu2).
  destruct (Z.ltb_spec (seconds u) (seconds t)), (Z.ltb_spec (seconds t) (seconds u)), (Z.eqb_spec (seconds t) (seconds u)); try lia; cbn [andb]; split_and!; symmetry;
    try (apply Z.ltb_lt; lia); try (apply Z.leb_le; lia); try (apply Z.ltb_ge; lia); try (apply Z.leb_gt; lia);
    destruct (Z.ltb_spec (fraction u) (fraction t)), (Z.ltb_spec (fraction t) (fraction u)), (Z.leb_spec (fraction u) (fraction t)), (Z.leb_spec (fraction t) (fraction u)); try lia;
    try (apply Z.ltb_lt; lia); try (apply Z.leb_le; lia); try (apply Z.ltb_ge; lia); try (apply Z.leb_gt; lia).
Qed.

(** ** Setting and reading the date *)

Definition valid_date (d : Date) : Prop :=
  0 <= d_seconds d < 60 /\ 0 <= d_minutes d < 60 /\ 0 <= d_hours d < 24 /\ 1 <= d_dayOfMonth d <= 31 /\ 1 <= d_month d <= 12 /\ 100 <= d_year d < 10000.

Lemma bcd_facts x : 0 <= x < 100 -> bcdToBinary (binaryToBcd x) = x /\ (x < 80 -> Z.land (binaryToBcd x) 0x80 = 0) /\ (0 < x -> binaryToBcd x <> 0).
Proof.
  intros Hx. assert (Hall : Forall (fun x => bcdToBinary (binaryToBcd x) = x /\ (x < 80 -> Z.land (binaryToBcd x) 0x80 = 0) /\ (0 < x -> binaryToBcd x <> 0)) (seqZ 0 100)).
  { apply (bool_decide_unpack _). by vm_compute. }
  rewrite Forall_forall in Hall. apply Hall, elem_of_seqZ. lia.
Qed.

Lemma bcd_inverse x : 0 <= x < 100 -> bcdToBinary (binaryToBcd x) = x.
Proof. intros Hx. by apply bcd_facts. Qed.

Definition data_of (p : Date * Z) : InterruptData :=
  let '(d, c) := p in mkData (d_seconds d) (d_minutes d) (d_hours d) (d_dayOfMonth d) (d_month d) (d_year d) c.

Lemma date_decode_encode (bcd : bool) d : valid_date d -> decode bcd false (data_of (encode bcd false d)) = d.
Proof.
  intros (Hs & Hmi & Hh & Hd & Hmo & Hy). unfold encode. rewrite (proj2 (Z.ltb_ge _ _)) by lia. assert (Hc : 1 <= d_year d / 100 < 100) by (split; [apply Z.div_le_lower_bound; lia|apply Z.div_lt_upper_bound; lia]).
  pose proof (Z.mod_pos_bound (d_year d) 100 ltac:(lia)) as Hm. pose proof (Z.div_mod (d_year d) 100 ltac:(lia)) as Hdm. unfold u8. rewrite (Z.mod_small (d_year d / 100)) by lia.
  assert (Ey : u16 (d_year d mod 100 + d_year d / 100 * 100) = d_year d) by (unfold u16; rewrite Z.mod_small by lia; lia).
  destruct bcd; unfold data_of, decode, decode_bcd; cbn [d_seconds d_minutes d_hours d_dayOfMonth d_month d_year i_seconds i_minutes i_hours i_dayOfMonth i_month i_year i_century andb].
  - rewrite (proj2 (Z.eqb_neq _ _)) by (apply bcd_facts; lia). rewrite (proj1 (proj2 (bcd_facts (d_hours d) ltac:(lia)))) by lia. rewrite Z.lor_0_r. cbn [d_seconds d_minutes d_hours d_dayOfMonth d_month d_year].
    rewrite !bcd_inverse by lia. rewrite Ey. by destruct d.
  - rewrite (proj2 (Z.eqb_neq _ _)) by lia. cbn [d_seconds d_minutes d_hours d_dayOfMonth d_month d_year]. rewrite Ey. by destruct d.
Qed.

(** What the chip gives back after a date was written. *)
Lemma read_written out century c : fst (read_data (enableNmi (write_date out century (disableNmi c)))) = data_of (out, century).
Proof. done. Qed.

(** C19. A date that is written to the chip comes back: with the hours counted to 24, in binary or decimal format alike, setting a valid date between the years 100 and 9999 writes registers
    from which the next update interrupt reads data that [parseInterruptData] turns into the same date; the lock is free again and no data is left behind.
    With the hours counted to 12 the afternoon is lost instead: [twelve_hours_lose_afternoon]. *)
Theorem rtc_set_then_read {J : Junk InterruptData} (d : Date) (r : Rtc) (Hd : valid_date d) (H24 : useTwelveHours r = false) (Hlk : lock r = new_Spinlock) (Hb : holds (interruptDataBuffer r) [])
    (HA : Z.land (regs (cmos r) STATUS_REGISTER_A) 0x80 = 0) (HC : Z.land (regs (cmos r) STATUS_REGISTER_C) 0x10 = 0x10) :
  exists r1 r2 r3, setHardwareDate d r = Ret r1 /\ rtc_trigger r1 = Ret r2 /\ hasInterruptData r2 = true /\ parseInterruptData r2 = Ret r3 /\
    getCurrentDate r3 = d /\ holds (interruptDataBuffer r3) [] /\ lock r3 = new_Spinlock.
Proof.
  destruct (lock_free (lock r) Hlk) as (lk & Elk & Erel). pose proof (date_decode_encode (useBcd r) d Hd) as Hdec. unfold setHardwareDate. rewrite H24, Elk. destruct (encode (useBcd r) false d) as [out century] eqn:Een. outcome.
  unfold isUpdating. change (fst (readRegister STATUS_REGISTER_A (cmos r))) with (regs (cmos r) STATUS_REGISTER_A). destruct (readRegister STATUS_REGISTER_A (cmos r)) as [st c0] eqn:E0.
  unfold readRegister in E0. injection E0 as <- <-. change (Z.land (Z.land STATUS_REGISTER_A 127) 127) with STATUS_REGISTER_A. rewrite HA. cbn [Z.eqb].
  set (c1 := outb_register (Z.land STATUS_REGISTER_A 127) (cmos r)). set (c2 := enableNmi (write_date out century (disableNmi c1))). rewrite Erel.
  destruct (ring_push (interruptDataBuffer r) [] (data_of (out, century)) Hb) as (b1 & Ep & Hb1 & Hc1); [destruct Hb; cbn; lia|]. cbn [app] in Hb1.
  destruct (ring_pop b1 [] (data_of (out, century)) Hb1) as (b2 & Epop & Hb2 & _).
  destruct (read_data (outb_register (Z.land STATUS_REGISTER_C 127) c2)) as [data c4] eqn:E4. assert (data = data_of (out, century)) as -> by (by injection E4 as <- <-).
  destruct (lock_free new_Spinlock eq_refl) as (lk2 & El2 & Er2). eexists _, _, _. split; [reflexivity|]. split.
  - unfold rtc_trigger. cbn [cmos]. destruct (readRegister STATUS_REGISTER_C c2) as [st c3] eqn:E3. unfold readRegister in E3. injection E3 as <- <-. change (Z.land (Z.land STATUS_REGISTER_C 127) 127) with STATUS_REGISTER_C. rewrite HC. cbn [Z.eqb Pos.eqb negb].
    rewrite E4. cbn [interruptDataBuffer]. rewrite Ep. outcome. reflexivity.
  - split; [unfold hasInterruptData; cbn [interruptDataBuffer]; by rewrite (ring_isEmpty _ _ Hb1)|]. unfold parseInterruptData. cbn [interruptDataBuffer lock]. rewrite Epop. outcome. rewrite El2. outcome. split; [reflexivity|].
    cbn [getCurrentDate currentDate useBcd useTwelveHours interruptDataBuffer lock]. split; [done|]. split; [done|done].
Qed.

(** A chip with decimal digits and 24 hours whose data is up to date. *)
Definition chip : Cmos := mkCmos 0 (fun r => if r =? STATUS_REGISTER_B then 0x02 else if r =? STATUS_REGISTER_C then 0x10 else 0).
#[local] Instance no_data : Junk InterruptData := fun _ => mkData 0 0 0 0 0 0 0.
Definition fresh_rtc : Rtc := mkRtc (mkDate 0 0 0 0 0 0) new_Spinlock (mkRing (new_Array 1024) 1024 0 0 0) true false chip.

Lemma fresh_ring : holds (interruptDataBuffer fresh_rtc) [].
Proof. destruct (new_ring (T := InterruptData) 1024) as (b & E & Hb & _); [lia|]. injection E as <-. exact Hb. Qed.

Lemma rtc_set_then_read_witness : exists r1 r2 r3, setHardwareDate (mkDate 58 59 23 31 12 1999) fresh_rtc = Ret r1 /\ rtc_trigger r1 = Ret r2 /\ hasInterruptData r2 = true /\ parseInterruptData r2 = Ret r3 /\
  getCurrentDate r3 = mkDate 58 59 23 31 12 1999 /\ holds (interruptDataBuffer r3) [] /\ lock r3 = new_Spinlock.
Proof.
  apply (rtc_set_then_read (mkDate 58 59 23 31 12 1999) fresh_rtc).
  - unfold valid_date. cbn. lia.
  - reflexivity.
  - reflexivity.
  - exact fresh_ring.
  - reflexivity.
  - reflexivity.
Defined.

(** ** Deviations *)

(** With hours counted to 12, the afternoon is lost when a date is set. *)
Theorem twelve_hours_lose_afternoon : decode false true (data_of (encode false true (mkDate 0 0 15 1 1 2020))) = mkDate 0 0 3 1 1 2020.
Proof. by vm_compute. Qed.

(** The flag of the afternoon is taken for a digit: one o'clock in the afternoon is read as 21 hours; noon and midnight are exchanged in binary format. *)
Theorem afternoon_decoded_wrong : d_hours (decode true true (mkData 0 0 0x81 1 1 0x20 0x20)) = 21 /\ d_hours (decode false true (mkData 0 0 0x8C 1 1 20 20)) = 0 /\ d_hours (decode false true (mkData 0 0 0x0C 1 1 20 20)) = 12.
Proof. by vm_compute. Qed.

(** The enumeration starts at one, the table at zero: a second has 60 milliseconds, and years lie behind the table. *)
Theorem convert_off_by_one : convert 1 SECONDS MILLI = Ret 60 /\ convert 1 YEARS DAYS = Fault.
Proof. by vm_compute. Qed.

(** Adding seconds doubles them. *)
Theorem addSeconds_doubles (v : Z) (t : Time) : addSeconds v t = mkTime (u32 (2 * seconds t)) (fraction t).
Proof. unfold addSeconds. by replace (seconds t + seconds t) with (2 * seconds t) by lia. Qed.

(** The first access to a register after [disableNmi] clears the bit it has set. *)
Theorem nmi_enabled_by_access (n : Z) (c : Cmos) : Z.land (registerPort (snd (readRegister n (disableNmi c)))) 0x80 = 0.
Proof. unfold readRegister, outb_register. cbn [snd registerPort]. rewrite <- Z.land_assoc. change (Z.land 127 128) with 0. apply Z.land_0_r. Qed.

(** A sleep that ends behind the wrap-around of the milliseconds ends at once. *)
Theorem msleep_wraps : msleep 100 [2 ^ 32 - 10; 2 ^ 32 - 9] = Ret 0%nat.
Proof. by vm_compute. Qed.

(** Without a century register the assumed century is taken for a number in the format of the chip. *)
Theorem missing_century_wrong : decode true false (mkData 0 0 0 1 1 0x21 0) = mkDate 0 0 0 1 1 1421.
Proof. reflexivity. Qed.

(** A day has ten times as many seconds as it should have. *)
Theorem seconds_per_day : conversion 3 6 = Ret 864000 /\ conversion 6 3 = Ret 864000.
Proof. split; reflexivity. Qed.
