(* ===== verification/Mouse.v ===== *)
(** * The mouse

    [device/input/Mouse.cpp]: the commands that set the mouse up, and the packets of
    three bytes that become events. The controller is the sequence of bytes it answers
    with and the list of what was written to its ports; polling its status has no
    effect. *)

From S2P Require Import Prelude Array RingBuffer.

(** ** The controller *)

Record Controller := mkController { answers : nat -> Z; taken : nat; sent : list (Z * Z); mouse_allowed : bool }.

Definition C := ST Controller.

Definition ctrl_port : Z := 0x64.
Definition data_port : Z := 0x60.

Definition inb_data : C Z := fun s => Ret (answers s (taken s), mkController (answers s) (S (taken s)) (sent s) (mouse_allowed s)).
Definition outb (port v : Z) : C unit := modify (fun s => mkController (answers s) (taken s) (sent s ++ [(port, v)]) (mouse_allowed s)).

Definition read : C Z := inb_data.

Definition write (byte_write : Z) : C unit := _ ← outb ctrl_port 0xD4; outb data_port byte_write.

(** The status byte of the controller: read, changed and written back. *)
Definition change_status (f : Z -> Z) : C unit :=
  _ ← outb ctrl_port 0x20;
  b ← inb_data;
  _ ← outb ctrl_port 0x60;
  outb data_port (f b).

Definition cleanup : C unit :=
  _ ← modify (fun s => mkController (answers s) (taken s) (sent s) false);
  _ ← change_status (fun b => Z.lor (Z.land b 0xFC) 0x10);
  _ ← outb ctrl_port 0xA7;
  change_status (fun b => Z.land (Z.lor b 1) 0xEF).

(** Waiting for the acknowledgement, with the command sent again on request; [false] after five other answers. *)
Fixpoint wait_ack (fuel : nat) (cnt byte_write : Z) : C bool :=
  match fuel with
  | O => diverge
  | S fuel =>
      tmp ← read;
      if tmp =? 0xFA then mret true
      else
        _ ← (if tmp =? 0xFE then write byte_write else mret tt);
        let cnt := u8 (cnt + 1) in
        if cnt =? 5 then _ ← cleanup; mret false else wait_ack fuel cnt byte_write
  end.

(** Gives [available]. *)
Definition writeCommand (available : bool) (byte_write : Z) : C bool :=
  if negb available then mret available else _ ← write byte_write; wait_ack 5 0 byte_write.

(** The second loop has no limit. *)
Fixpoint wait_data_ack (fuel : nat) (data : Z) : C unit :=
  match fuel with
  | O => diverge
  | S fuel =>
      tmp ← read;
      if tmp =? 0xFA then mret tt
      else _ ← (if tmp =? 0xFE then write data else mret tt); wait_data_ack fuel data
  end.

Definition writeCommandAndByte (fuel : nat) (available : bool) (byte_write data : Z) : C bool :=
  if negb available then mret available
  else
    _ ← write byte_write;
    acked ← wait_ack 5 0 byte_write;
    if (acked : bool) then _ ← write data; _ ← wait_data_ack fuel data; mret true else mret false.

Definition activate (fuel : nat) : C bool :=
  _ ← outb ctrl_port 0xA9;
  tmp ← inb_data;
  if tmp =? 0xFF then mret false
  else
    _ ← change_status (fun b => Z.lor (Z.land b 0xFC) 0x10);
    _ ← outb ctrl_port 0xA8;
    _ ← change_status (fun b => Z.land (Z.lor b 3) 0xEF);
    available ← writeCommand true 0xF6;
    available ← writeCommandAndByte fuel available 0xE8 0x02;
    available ← writeCommandAndByte fuel available 0xF3 80;
    writeCommand available 0xF4.

(** ** Packets *)

Inductive event :=
| MouseMovedEvent (dx dy : Z)
| MouseDoubleClickedEvent
| MouseClickedEvent (bitmask : Z)
| MouseReleasedEvent (bitmask : Z).

Record Mouse := mkMouse { cycle : Z; flags : Z; dx : Z; dy : Z; buttons : Z; lastClickTimestamp : Z; interruptDataBuffer : RingBuffer Z }.

Definition set_cycle (c : Z) (m : Mouse) : Mouse := mkMouse c (flags m) (dx m) (dy m) (buttons m) (lastClickTimestamp m) (interruptDataBuffer m).
Definition set_flags (f : Z) (m : Mouse) : Mouse := mkMouse (cycle m) f (dx m) (dy m) (buttons m) (lastClickTimestamp m) (interruptDataBuffer m).
Definition set_dx (x : Z) (m : Mouse) : Mouse := mkMouse (cycle m) (flags m) x (dy m) (buttons m) (lastClickTimestamp m) (interruptDataBuffer m).
Definition set_dy (y : Z) (m : Mouse) : Mouse := mkMouse (cycle m) (flags m) (dx m) y (buttons m) (lastClickTimestamp m) (interruptDataBuffer m).
Definition set_buttons (b last : Z) (m : Mouse) : Mouse := mkMouse (cycle m) (flags m) (dx m) (dy m) b last (interruptDataBuffer m).
Definition set_data (b : RingBuffer Z) (m : Mouse) : Mouse := mkMouse (cycle m) (flags m) (dx m) (dy m) (buttons m) (lastClickTimestamp m) b.

Section Packets.
Context `{Junk Z}.

Definition new_Mouse (flags0 dx0 dy0 : Z) : outcome Mouse := b ← new_RingBuffer 1024; Ret (mkMouse 1 flags0 dx0 dy0 0 0 b).

(** An interrupt, given the status and the byte at the data port. *)
Definition mouse_trigger (status data : Z) (m : Mouse) : outcome Mouse :=
  if Z.land status 0x20 =? 0 then Ret m else b ← push data (interruptDataBuffer m); Ret (set_data b m).

Definition hasInterruptData (m : Mouse) : bool := negb (isEmpty (interruptDataBuffer m)).

(** The buttons that changed: events of double clicks, masks of clicks and releases, time of the last click. [now i] is the time read for button [i]. *)
Fixpoint button_loop (n : nat) (i : Z) (now : Z -> Z) (flags buttons : Z) (s : list event * Z * Z * Z) : list event * Z * Z * Z :=
  match n with
  | O => s
  | S n =>
      let '(evs, clickMask, releaseMask, last) := s in
      let bit := Z.shiftl 1 i in
      let s :=
        if negb (Z.land flags bit =? Z.land buttons bit) then
          if negb (Z.land buttons bit =? 0) then (evs, clickMask, Z.lor releaseMask bit, last)
          else if u32 (now i - last) <? 300 then (evs ++ [MouseDoubleClickedEvent], Z.lor clickMask bit, releaseMask, 0)
          else (evs, Z.lor clickMask bit, releaseMask, now i)
        else s in
      button_loop n (i + 1) now flags buttons s
  end.

Definition finish_packet (now : Z -> Z) (m : Mouse) : list event * Mouse :=
  let moved :=
    if negb (negb (Z.land (flags m) 0x40 =? 0) || negb (Z.land (flags m) 0x80 =? 0)) && (negb (dx m =? 0) || negb (dy m =? 0))
    then [MouseMovedEvent (dx m) (dy m)] else [] in
  let '(evs, clickMask, releaseMask, last) := button_loop 3 0 now (flags m) (buttons m) ([], 0, 0, lastClickTimestamp m) in
  (moved ++ evs ++ (if negb (clickMask =? 0) then [MouseClickedEvent clickMask] else []) ++ (if negb (releaseMask =? 0) then [MouseReleasedEvent releaseMask] else []),
   set_cycle 1 (set_buttons (flags m) last m)).

Definition decode_byte (now : Z -> Z) (data : Z) (m : Mouse) : list event * Mouse :=
  if cycle m =? 1 then
    let m := set_flags data m in
    ([], if Z.land data 0x08 =? 0 then set_cycle 1 m else set_cycle (u32 (cycle m + 1)) m)
  else if cycle m =? 2 then
    let data := Z.land data 0xFF in
    let m := set_dx (if negb (Z.land (flags m) 0x10 =? 0) then s32 (Z.lor data 0xFFFFFF00) else data) m in
    ([], set_cycle (u32 (cycle m + 1)) m)
  else if cycle m =? 3 then
    let data := Z.land data 0xFF in
    let m := set_dy (if negb (Z.land (flags m) 0x20 =? 0) then s32 (- Z.lor data 0xFFFFFF00) else - data) m in
    finish_packet now m
  else ([], m).

Definition parseInterruptData (now : Z -> Z) (m : Mouse) : outcome (list event * Mouse) :=
  '(data, b) ← pop (interruptDataBuffer m);
  Ret (decode_byte now data (set_data b m)).
End Packets.

(** ** What a packet means *)

(** The way of the mouse, the buttons that are down, and whether a counter had overflowed. *)
Record packet := mkPacket { px : Z; py : Z; down : Z; overflow : bool }.

Definition packet_ok (p : packet) : Prop := -256 <= px p < 256 /\ -256 <= py p < 256 /\ 0 <= down p < 8.

Definition packet_flags (p : packet) : Z :=
  down p + 8 + (if px p <? 0 then 16 else 0) + (if py p <? 0 then 32 else 0) + (if overflow p then 64 else 0).

Definition packet_bytes (p : packet) : list Z := [packet_flags p; px p mod 256; py p mod 256].

(** Buttons of [a] that are not in [b]. *)
Definition only (a b : Z) : list Z := filter (fun i => Z.testbit a i = true /\ Z.testbit b i = false) [0; 1; 2].
Definition mask_of (l : list Z) : Z := foldr (fun i m => Z.lor (Z.shiftl 1 i) m) 0 l.

(** A click less than 300 ms after the last one is the second of a double click, and the next one is a first one again. *)
Fixpoint doubles (now : Z -> Z) (l : list Z) (last : Z) : list event * Z :=
  match l with
  | [] => ([], last)
  | i :: l =>
      if u32 (now i - last) <? 300 then let '(evs, last) := doubles now l 0 in (MouseDoubleClickedEvent :: evs, last)
      else doubles now l (now i)
  end.

Definition packet_events (now : Z -> Z) (p : packet) (prev last : Z) : list event * Z :=
  let '(evs, last) := doubles now (only (down p) prev) last in
  ((if overflow p || bool_decide (px p = 0 /\ py p = 0) then [] else [MouseMovedEvent (px p) (- py p)]) ++ evs ++
   (if decide (only (down p) prev = []) then [] else [MouseClickedEvent (mask_of (only (down p) prev))]) ++
   (if decide (only prev (down p) = []) then [] else [MouseReleasedEvent (mask_of (only prev (down p)))]), last).

(** Packets one after the other; [now n] gives the times when [n] bytes are left. *)
Fixpoint expected (now : nat -> Z -> Z) (ps : list packet) (prev last : Z) : list event :=
  match ps with
  | [] => []
  | p :: ps => let '(evs, last) := packet_events (now (3 * length ps + 1)%nat) p prev last in evs ++ expected now ps (down p) last
  end.

Fixpoint drain `{Junk Z} (n : nat) (now : nat -> Z -> Z) (m : Mouse) : outcome (list event * Mouse) :=
  match n with
  | O => Ret ([], m)
  | S n' => '(e1, m) ← parseInterruptData (now n) m; '(e2, m) ← drain n' now m; Ret (e1 ++ e2, m)
  end.

(** ** Bits *)

Lemma land_bit x i : 0 <= i -> Z.land x (Z.shiftl 1 i) = if Z.testbit x i then Z.shiftl 1 i else 0.
Proof.
  intros Hi. apply Z.bits_inj'. intros n Hn. rewrite Z.land_spec, Z.shiftl_1_l. destruct (decide (n = i)) as [->|Hne].
  - rewrite Z.pow2_bits_true by lia. rewrite andb_true_r. destruct (Z.testbit x i); [by rewrite Z.pow2_bits_true|by rewrite Z.bits_0].
  - rewrite Z.pow2_bits_false by lia. rewrite andb_false_r. destruct (Z.testbit x i); [by rewrite Z.pow2_bits_false by lia|by rewrite Z.bits_0].
Qed.

Definition only_of (bs : list Z) (a b : Z) : list Z := filter (fun i => Z.testbit a i = true /\ Z.testbit b i = false) bs.

Lemma button_loop_gen now f b n : forall i evs cm rm last, 0 <= i ->
  button_loop n i now f b (evs, cm, rm, last) =
  (evs ++ fst (doubles now (only_of (seqZ i (Z.of_nat n)) f b) last), Z.lor cm (mask_of (only_of (seqZ i (Z.of_nat n)) f b)),
   Z.lor rm (mask_of (only_of (seqZ i (Z.of_nat n)) b f)), snd (doubles now (only_of (seqZ i (Z.of_nat n)) f b) last)).
Proof.
  induction n as [|n IH]; intros i evs cm rm last Hi.
  - cbn. by rewrite app_nil_r, !Z.lor_0_r.
  - rewrite seqZ_cons by lia. replace (Z.pred (Z.of_nat (S n))) with (Z.of_nat n) by lia. replace (Z.succ i) with (i + 1) by lia. cbn [button_loop]. rewrite !land_bit by done. unfold only_of. rewrite !filter_cons.
    assert (Hnz : Z.shiftl 1 i <> 0) by (rewrite Z.shiftl_1_l; pose proof (Z.pow_pos_nonneg 2 i); lia).
    destruct (Z.testbit f i) eqn:F, (Z.testbit b i) eqn:B; rewrite ?Z.eqb_refl, ?(proj2 (Z.eqb_neq _ _) Hnz), ?(proj2 (Z.eqb_neq _ _) (not_eq_sym Hnz)); cbn [negb];
      rewrite ?(decide_True _ _ (conj eq_refl eq_refl : _ /\ _)), ?decide_False by (intros [? ?]; done).
    + by rewrite IH by lia.
    + cbn [doubles mask_of foldr]. destruct (u32 (now i - last) <? 300).
      * rewrite IH by lia. unfold only_of, mask_of. destruct (doubles now _ 0). cbn [fst snd]. by rewrite <- app_assoc, !Z.lor_assoc.
      * rewrite IH by lia. unfold only_of, mask_of. by rewrite !Z.lor_assoc.
    + rewrite IH by lia. unfold only_of, mask_of. cbn [foldr]. by rewrite !Z.lor_assoc.
    + by rewrite IH by lia.
Qed.

Lemma button_loop_run now f b last :
  button_loop 3 0 now f b ([], 0, 0, last) = (fst (doubles now (only f b) last), mask_of (only f b), mask_of (only b f), snd (doubles now (only f b) last)).
Proof. rewrite button_loop_gen by done. by rewrite !Z.lor_0_l. Qed.

Lemma mask_zero l : Forall (fun i => 0 <= i) l -> (mask_of l =? 0) = bool_decide (l = []).
Proof.
  intros Hl. destruct Hl as [|i l Hi _]; [done|]. rewrite bool_decide_false by done. apply Z.eqb_neq. cbn. rewrite Z.lor_eq_0_iff, Z.shiftl_1_l. pose proof (Z.pow_pos_nonneg 2 i). lia.
Qed.

Lemma only_range a b : Forall (fun i => 0 <= i) (only a b).
Proof. apply Forall_forall. intros i Hi. apply list_elem_of_filter in Hi as [_ Hi]. rewrite !elem_of_cons in Hi. destruct Hi as [->|[->|[->|?%elem_of_nil]]]; done. Qed.

(** The same buttons. *)
Definition same_buttons (a b : Z) : Prop := Forall (fun i => Z.testbit a i = Z.testbit b i) [0; 1; 2].

Lemma only_ext a a' b b' : same_buttons a a' -> same_buttons b b' -> only a b = only a' b'.
Proof.
  unfold same_buttons, only. rewrite !Forall_cons. intros (A0 & A1 & A2 & _) (B0 & B1 & B2 & _). rewrite !filter_cons, A0, A1, A2, B0, B1, B2. done.
Qed.

Lemma flags_facts p : packet_ok p -> let f := packet_flags p in
  Z.land f 0x08 <> 0 /\ (Z.land f 0x10 =? 0) = negb (px p <? 0) /\ (Z.land f 0x20 =? 0) = negb (py p <? 0) /\ (Z.land f 0x40 =? 0) = negb (overflow p) /\ Z.land f 0x80 = 0 /\ same_buttons f (down p).
Proof.
  intros (_ & _ & Hd). unfold packet_flags, same_buttons. cbv zeta.
  assert (Hall : Forall (fun d => Forall (fun a => Forall (fun b => Forall (fun c => let f := d + 8 + (if a : bool then 16 else 0) + (if b : bool then 32 else 0) + (if c : bool then 64 else 0) in
    Z.land f 0x08 <> 0 /\ (Z.land f 0x10 =? 0) = negb a /\ (Z.land f 0x20 =? 0) = negb b /\ (Z.land f 0x40 =? 0) = negb c /\ Z.land f 0x80 = 0 /\ Forall (fun i => Z.testbit f i = Z.testbit d i) [0; 1; 2])
    [true; false]) [true; false]) [true; false]) (seqZ 0 8)) by (cbv zeta; apply (bool_decide_unpack _); by vm_compute).
  assert (Hb : forall b : bool, b ∈ [true; false]) by (intros []; set_solver). rewrite Forall_forall in Hall. specialize (Hall (down p) ltac:(apply elem_of_seqZ; lia)).
  rewrite Forall_forall in Hall. specialize (Hall _ (Hb (px p <? 0))). rewrite Forall_forall in Hall. specialize (Hall _ (Hb (py p <? 0))). rewrite Forall_forall in Hall. exact (Hall _ (Hb (overflow p))).
Qed.

Lemma way_facts x : -256 <= x < 256 -> Z.land (x mod 256) 0xFF = x mod 256 /\ (if negb (negb (x <? 0)) then s32 (Z.lor (x mod 256) 0xFFFFFF00) else x mod 256) = x /\
  (if negb (negb (x <? 0)) then s32 (- Z.lor (x mod 256) 0xFFFFFF00) else - (x mod 256)) = - x.
Proof.
  intros Hx. assert (Hall : Forall (fun x => Z.land (x mod 256) 0xFF = x mod 256 /\ (if negb (negb (x <? 0)) then s32 (Z.lor (x mod 256) 0xFFFFFF00) else x mod 256) = x /\
    (if negb (negb (x <? 0)) then s32 (- Z.lor (x mod 256) 0xFFFFFF00) else - (x mod 256)) = - x) (seqZ (-256) 512)) by (apply (bool_decide_unpack _); by vm_compute).
  rewrite Forall_forall in Hall. apply Hall, elem_of_seqZ. lia.
Qed.

Section Decoding.
Context `{Junk Z}.

(** The three bytes of a packet, with the state behind them. *)
Lemma packet_decoded now1 now2 now3 p m prev : packet_ok p -> cycle m = 1 -> same_buttons (buttons m) prev ->
  exists m', (let '(e1, m) := decode_byte now1 (packet_flags p) m in let '(e2, m) := decode_byte now2 (px p mod 256) m in let '(e3, m) := decode_byte now3 (py p mod 256) m in (e1 ++ e2 ++ e3, m)) =
    (fst (packet_events now3 p prev (lastClickTimestamp m)), m') /\ cycle m' = 1 /\ same_buttons (buttons m') (down p) /\ lastClickTimestamp m' = snd (packet_events now3 p prev (lastClickTimestamp m)) /\
    interruptDataBuffer m' = interruptDataBuffer m.
Proof.
  intros Hp Hc Hb. destruct (flags_facts p Hp) as (F8 & F10 & F20 & F40 & F80 & Fb). destruct Hp as (Hx & Hy & Hd). destruct (way_facts _ Hx) as (X1 & X2 & _). destruct (way_facts _ Hy) as (Y1 & _ & Y3).
  unfold decode_byte at 1. rewrite Hc. cbn [Z.eqb Pos.eqb set_flags cycle]. rewrite (proj2 (Z.eqb_neq _ _)) by done. rewrite Hc. change (u32 (1 + 1)) with 2.
  unfold decode_byte at 1. cbn [set_cycle set_flags cycle flags Z.eqb Pos.eqb]. rewrite X1, F10, X2. change (u32 (2 + 1)) with 3.
  unfold decode_byte. cbn [set_cycle set_flags set_dx cycle flags dx dy buttons lastClickTimestamp interruptDataBuffer Z.eqb Pos.eqb]. change (u32 (2 + 1)) with 3. cbn [Z.eqb Pos.eqb]. rewrite Y1, F20, Y3.
  unfold finish_packet. cbn [set_flags set_dx set_dy set_cycle cycle flags dx dy buttons lastClickTimestamp interruptDataBuffer]. rewrite button_loop_run, (only_ext _ (down p) _ prev Fb Hb), (only_ext _ prev _ (down p) Hb Fb), F40, F80.
  unfold packet_events. destruct (doubles now3 (only (down p) prev) (lastClickTimestamp m)) as [evs last]. cbn [fst snd app]. eexists. split; [apply pair_eq; split; [|reflexivity]|split; [done|split; [exact Fb|done]]].
  rewrite !mask_zero by apply only_range. f_equal; [|f_equal; f_equal].
  - cbn [negb Z.eqb]. rewrite orb_false_r. destruct (overflow p); [done|]. cbn [negb andb orb]. destruct (Z.eqb_spec (px p) 0) as [Ex|Ex], (Z.eqb_spec (- py p) 0) as [Ey|Ey]; cbn [negb orb];
      ((rewrite bool_decide_true by lia) || (rewrite bool_decide_false by lia)); done.
  - destruct (decide (only (down p) prev = [])); [by rewrite bool_decide_true|by rewrite bool_decide_false].
  - destruct (decide (only prev (down p) = [])); [by rewrite bool_decide_true|by rewrite bool_decide_false].
Qed.

(** A byte that arrives is taken from the buffer and decoded. *)
Lemma parse_step now m x l : holds (interruptDataBuffer m) (x :: l) -> exists b, parseInterruptData now m = Ret (decode_byte now x (set_data b m)) /\ holds b l.
Proof. intros Hb. destruct (ring_pop _ _ _ Hb) as (b & E & Hb' & _). exists b. unfold parseInterruptData. rewrite E. done. Qed.

(** Decoding does not look at the buffer. *)
Lemma decode_byte_data now x b m : decode_byte now x (set_data b m) = (fst (decode_byte now x m), set_data b (snd (decode_byte now x m))).
Proof.
  unfold decode_byte, finish_packet. cbn [set_data cycle flags dx dy buttons lastClickTimestamp interruptDataBuffer set_flags set_dx set_dy set_cycle set_buttons].
  destruct (cycle m =? 1); [by destruct (Z.land x 8 =? 0)|]. destruct (cycle m =? 2); [done|]. destruct (cycle m =? 3); [|done]. by destruct (button_loop _ _ _ _ _ _) as [[[? ?] ?] ?].
Qed.

Lemma drain_noise now noise : forall l m, Forall (fun x => Z.land x 0x08 = 0) noise -> cycle m = 1 -> holds (interruptDataBuffer m) (noise ++ l) ->
  exists m', drain (length noise + length l) now m = drain (length l) now m' /\ holds (interruptDataBuffer m') l /\ cycle m' = 1 /\ buttons m' = buttons m /\ lastClickTimestamp m' = lastClickTimestamp m.
Proof.
  induction noise as [|x noise IH]; intros l m Hn Hc Hb; [by exists m|]. apply Forall_cons in Hn as [Hx Hn]. cbn [app length Nat.add] in *. destruct (parse_step (now (S (length noise + length l))) m x _ Hb) as (b & E & Hb').
  cbn [drain]. rewrite E. unfold decode_byte. cbn [set_data cycle]. rewrite Hc. cbn [Z.eqb Pos.eqb]. rewrite Hx. cbn [Z.eqb]. outcome.
  destruct (IH l (set_cycle 1 (set_flags x (set_data b m))) Hn eq_refl Hb') as (m' & E' & R). exists m'. rewrite E'. split; [|done]. by destruct (drain _ _ m') as [[? ?]| | |].
Qed.

Lemma drain_packets now ps : forall m prev, Forall packet_ok ps -> cycle m = 1 -> same_buttons (buttons m) prev -> holds (interruptDataBuffer m) (concat (packet_bytes <$> ps)) ->
  exists m', drain (3 * length ps) now m = Ret (expected now ps prev (lastClickTimestamp m), m') /\ holds (interruptDataBuffer m') [] /\ cycle m' = 1 /\ same_buttons (buttons m') (default prev (down <$> last ps)).
Proof.
  induction ps as [|p ps IH]; intros m prev Hok Hc Hs Hb; [by exists m|]. apply Forall_cons in Hok as [Hp Hok]. cbn [fmap list_fmap concat packet_bytes app] in Hb.
  replace (3 * length (p :: ps))%nat with (S (S (S (3 * length ps)))) by (cbn [length]; lia). set (k := (3 * length ps)%nat).
  destruct (parse_step (now (S (S (S k)))) m _ _ Hb) as (b1 & E1 & Hb1). cbn [drain]. rewrite E1, decode_byte_data. outcome. set (m1 := snd (decode_byte _ _ m)).
  destruct (parse_step (now (S (S k))) (set_data b1 m1) _ _ Hb1) as (b2 & E2 & Hb2). rewrite E2. change (set_data b2 (set_data b1 m1)) with (set_data b2 m1). rewrite decode_byte_data. outcome. set (m2 := snd (decode_byte _ _ m1)).
  destruct (parse_step (now (S k)) (set_data b2 m2) _ _ Hb2) as (b3 & E3 & Hb3). rewrite E3. change (set_data b3 (set_data b2 m2)) with (set_data b3 m2). rewrite decode_byte_data. outcome. set (m3 := snd (decode_byte _ _ m2)).
  destruct (packet_decoded (now (S (S (S k)))) (now (S (S k))) (now (S k)) p m prev Hp Hc Hs) as (m' & Ed & Hc' & Hs' & Hl' & _).
  destruct (decode_byte (now (S (S (S k)))) (packet_flags p) m) as [e1 n1] eqn:D1. cbn [snd fst] in m1. subst m1.
  destruct (decode_byte (now (S (S k))) (px p mod 256) n1) as [e2 n2] eqn:D2. cbn [snd fst] in m2. subst m2.
  destruct (decode_byte (now (S k)) (py p mod 256) n2) as [e3 n3] eqn:D3. cbn [snd fst] in m3. subst m3. injection Ed as Ee <-.
  destruct (IH (set_data b3 n3) (down p) Hok Hc' Hs' Hb3) as (mf & Ef & Hbf & Hcf & Hsf). fold k in Ef. rewrite Ef. outcome. exists mf. split; [|split; [done|split; [done|]]].
  - cbn [expected]. replace (3 * length ps + 1)%nat with (S k) by lia. destruct (packet_events (now (S k)) p prev (lastClickTimestamp m)) as [evs lst]. cbn [fst snd] in Ee, Hl'. cbn [set_data lastClickTimestamp]. rewrite Hl', <- Ee. by rewrite <- !app_assoc.
  - destruct ps as [|q ps]; [done|]. rewrite last_cons_cons. destruct (last (q :: ps)) as [z|] eqn:El; [exact Hsf|by apply last_None in El].
Qed.
End Decoding.

(** C18. Packets of the mouse become events: with any bytes that cannot start a packet in front, every packet that lies in the buffer gives, in order, the event that the mouse has moved by the
    signed distances of the packet (unless a counter had overflowed or it has not moved), one double click for each button pressed less than 300 ms after the last click, the mask of the buttons
    that were pressed and the mask of those that were released since the packet before; then the buffer is empty and the driver waits for a new packet. *)
Theorem mouse_decodes_packets {J : Junk Z} (now : nat -> Z -> Z) (noise : list Z) (ps : list packet) (m : Mouse) (prev : Z) (Hnoise : Forall (fun x => Z.land x 0x08 = 0) noise) (Hps : Forall packet_ok ps)
    (Hc : cycle m = 1) (Hs : same_buttons (buttons m) prev) (Hb : holds (interruptDataBuffer m) (noise ++ concat (packet_bytes <$> ps))) :
  exists m', drain (length noise + 3 * length ps) now m = Ret (expected now ps prev (lastClickTimestamp m), m') /\
    hasInterruptData m' = false /\ cycle m' = 1 /\ same_buttons (buttons m') (default prev (down <$> last ps)).
Proof.
  assert (Hl : length (concat (packet_bytes <$> ps)) = (3 * length ps)%nat) by (clear; induction ps as [|p ps IH]; [done|]; cbn in *; lia).
  destruct (drain_noise now noise _ m Hnoise Hc Hb) as (m1 & E1 & Hb1 & Hc1 & Hbt & Hlt). rewrite Hl in E1. rewrite E1.
  destruct (drain_packets now ps m1 prev Hps Hc1) as (m' & E2 & Hb2 & Hc2 & Hs2); [by rewrite Hbt|done|]. exists m'. rewrite E2, Hlt. split; [done|]. split; [|done]. unfold hasInterruptData. by rewrite (ring_isEmpty _ _ Hb2).
Qed.

(** A click of the left button, and a way of two to the left and one up, behind a byte out of step. *)
Definition some_packets : list packet := [mkPacket 0 0 1 false; mkPacket (-2) 1 1 false; mkPacket 0 0 0 false].
#[local] Instance zero_junk : Junk Z := fun _ => 0.
Definition fed (l : list Z) : Mouse := mkMouse 1 0 0 0 0 0 (mkRing (mkArray (l ++ replicate (1024 - length l) 0) 1024) 1024 0 (Z.of_nat (length l)) (Z.of_nat (length l))).

Lemma fed_holds l : Z.of_nat (length l) < 1024 -> holds (interruptDataBuffer (fed l)) l.
Proof.
  intros Hl. constructor; cbn; try lia.
  - split; cbn; [rewrite length_app, length_replicate; lia|unfold is_u32; lia].
  - symmetry. apply Z.mod_small. lia.
  - intros i x Hx. pose proof (lookup_lt_Some _ _ _ Hx). rewrite Z.mod_small by lia. replace (Z.to_nat _) with i by lia. by apply lookup_app_l_Some.
Qed.

Lemma mouse_decodes_packets_witness : exists m', drain 10 (fun _ _ => 1000) (fed (3 :: concat (packet_bytes <$> some_packets))) =
  Ret ([MouseClickedEvent 1; MouseMovedEvent (-2) (-1); MouseReleasedEvent 1], m') /\ hasInterruptData m' = false /\ cycle m' = 1 /\ same_buttons (buttons m') 0.
Proof.
  apply (mouse_decodes_packets (fun _ _ => 1000) [3] some_packets (fed (3 :: concat (packet_bytes <$> some_packets))) 0).
  - repeat constructor.
  - repeat (apply Forall_cons; split; [unfold packet_ok; cbn; lia|]). constructor.
  - reflexivity.
  - repeat constructor.
  - apply fed_holds. cbn. lia.
Defined.

(** ** Commands *)

(** Whether an acknowledgement comes within five answers. *)
Fixpoint acked (n : nat) (answers : nat -> Z) (k : nat) : bool :=
  match n with O => false | S n => (answers k =? 0xFA) || acked n answers (S k) end.

Lemma wait_ack_run n b : forall cnt s, (0 < n)%nat -> cnt = 5 - Z.of_nat n -> 0 <= cnt -> exists s', wait_ack n cnt b s = Ret (acked n (answers s) (taken s), s') /\ answers s' = answers s /\
  mouse_allowed s' = (if acked n (answers s) (taken s) then mouse_allowed s else false).
Proof.
  induction n as [|n IH]; intros cnt s Hn Hc Hc0; [lia|]. cbn [wait_ack acked]. unfold read, inb_data. st_step. destruct (answers s (taken s) =? 0xFA); [by eexists|]. cbn [orb].
  set (s1 := mkController (answers s) (S (taken s)) (sent s) (mouse_allowed s)).
  assert (E : exists s2, (if answers s (taken s) =? 0xFE then write b else mret tt) s1 = Ret (tt, s2) /\ answers s2 = answers s /\ taken s2 = S (taken s) /\ mouse_allowed s2 = mouse_allowed s) by (destruct (_ =? _); by eexists).
  destruct E as (s2 & E2 & A2 & T2 & M2). unfold mret, ST_ret in E2. rewrite E2. unfold u8. rewrite Z.mod_small by lia. destruct (Z.eqb_spec (cnt + 1) 5) as [E5|E5].
  - assert (n = 0%nat) as -> by lia. cbn [acked]. eexists. split; [reflexivity|]. by cbn.
  - destruct (IH (cnt + 1) s2) as (s' & E' & A' & M'); [lia|lia|lia|]. exists s'. rewrite E', A', M', A2, T2, M2. done.
Qed.

(** A command ends after at most five answers: the mouse stays available exactly when one of them is the acknowledgement, and otherwise its interrupts are forbidden. *)
Theorem command_acknowledged b s : exists s', writeCommand true b s = Ret (acked 5 (answers s) (taken s), s') /\ mouse_allowed s' = (if acked 5 (answers s) (taken s) then mouse_allowed s else false).
Proof.
  unfold writeCommand. cbn [negb]. unfold write, outb. st_step. set (s1 := mkController _ _ _ _). destruct (wait_ack_run 5 b 0 s1) as (s' & E & _ & M); [lia|lia|lia|]. by exists s'.
Qed.

(** ** Deviations *)

(** The data byte of a command is waited for without a limit: a mouse that never acknowledges it stops the start of the system. *)
Theorem data_byte_waits_for_ever fuel s : (forall k, answers s (S k) <> 0xFA) -> answers s 0%nat = 0xFA -> taken s = 0%nat -> writeCommandAndByte fuel true 0xE8 0x02 s = Diverge.
Proof.
  intros Hn H0 Ht. unfold writeCommandAndByte. cbn [negb wait_ack]. unfold write, outb, read, inb_data. st_step. cbn [answers taken sent mouse_allowed]. rewrite Ht, H0. cbn [Z.eqb Pos.eqb].
  assert (Hl : forall fuel s', (forall k, answers s' (S k) <> 0xFA) -> (0 < taken s')%nat -> wait_data_ack fuel 2 s' = Diverge); [|by rewrite Hl by (done || cbn; lia)].
  clear. induction fuel as [|fuel IH]; intros s Hs Ht; [done|]. cbn [wait_data_ack]. unfold read, inb_data. st_step. destruct (taken s) as [|k] eqn:Ek; [lia|]. rewrite (proj2 (Z.eqb_neq _ _)) by apply Hs.
  destruct (_ =? _); unfold write, outb; st_step; apply IH; cbn; (apply Hs || lia).
Qed.
