(* ===== verification/Elf.v ===== *)
(** * Loading modules

    [lib/elf/ElfModule.cpp], the entries of [lib/elf/ElfConstants.h] and
    [kernel/core/Symbols.cpp]: sections and symbols of an object file in memory, and the
    relocation that makes it run where it lies. The maps of symbols are used through
    [MapSpec]. *)

From S2P Require Import Prelude Memory CString KString Array Collections ArrayList HashMap StringKeys MemoryManagers.

(** ** The entries of a file *)

Module SectionType.
Definition NONE : Z := 0x00.
Definition SYMTAB : Z := 0x02.
Definition STRTAB : Z := 0x03.
Definition REL : Z := 0x09.
End SectionType.

Module Reloc.
Definition R_386_NONE : Z := 0x00.
Definition R_386_32 : Z := 0x01.
Definition R_386_PC32 : Z := 0x02.
End Reloc.

Module SymType.
Definition SECTION : Z := 0x03.
Definition FILE : Z := 0x04.
End SymType.

Module Binding.
Definition LOCAL : Z := 0x00.
Definition GLOBAL : Z := 0x01.
Definition WEAK : Z := 0x02.
End Binding.

(** Fields of [FileHeader] at [f]. *)
Definition f_sectionHeader (m : Mem) (f : Z) : Z := load32 m (f + 32).
Definition f_sectionHeaderEntrySize (m : Mem) (f : Z) : Z := load16 m (f + 46).
Definition f_sectionHeaderEntries (m : Mem) (f : Z) : Z := load16 m (f + 48).
Definition f_sectionHeaderStringIndex (m : Mem) (f : Z) : Z := load16 m (f + 50).

Definition file_isValid (m : Mem) (f : Z) : bool :=
  if negb (m f =? 0x7F) || negb (m (f + 1) =? 69) || negb (m (f + 2) =? 76) || negb (m (f + 3) =? 70) then false
  else if negb (m (f + 4) =? 0x01) then false
  else if negb (m (f + 5) =? 0x01) then false
  else load16 m (f + 18) =? 0x03.

(** Fields of [SectionHeader] at [h]. *)
Definition s_nameOffset (m : Mem) (h : Z) : Z := load32 m h.
Definition s_type (m : Mem) (h : Z) : Z := load32 m (h + 4).
Definition s_virtualAddress (m : Mem) (h : Z) : Z := load32 m (h + 12).
Definition s_offset (m : Mem) (h : Z) : Z := load32 m (h + 16).
Definition s_size (m : Mem) (h : Z) : Z := load32 m (h + 20).
Definition s_link (m : Mem) (h : Z) : Z := load32 m (h + 24).
Definition s_info (m : Mem) (h : Z) : Z := load32 m (h + 28).
Definition s_entrySize (m : Mem) (h : Z) : Z := load32 m (h + 36).

(** Fields of [SymbolEntry] at [e]. *)
Definition y_nameOffset (m : Mem) (e : Z) : Z := load32 m e.
Definition y_value (m : Mem) (e : Z) : Z := load32 m (e + 4).
Definition y_info (m : Mem) (e : Z) : Z := m (e + 12).
Definition y_section (m : Mem) (e : Z) : Z := load16 m (e + 14).
Definition getSymbolBinding (m : Mem) (e : Z) : Z := Z.shiftr (y_info m e) 4.
Definition getSymbolType (m : Mem) (e : Z) : Z := Z.land (y_info m e) 0x0F.

(** Fields of [RelocationEntry] at [r]. *)
Definition r_offset (m : Mem) (r : Z) : Z := load32 m r.
Definition r_info (m : Mem) (r : Z) : Z := load32 m (r + 4).
Definition getSymbolIndex (m : Mem) (r : Z) : Z := Z.shiftr (r_info m r) 8.
Definition getType (m : Mem) (r : Z) : Z := Z.land (r_info m r) 0xFF.

(** ** Modules *)

Record ElfModule (M : Type) := mkModule {
  mem : Mem; localSymbols : M; sections : M; symbolTable : Z; symbolTableSize : Z; stringTable : Z; stringTableSize : Z; sectionNames : Z }.
Arguments mkModule {M} _ _ _ _ _ _ _ _.
Arguments mem {M} _.
Arguments localSymbols {M} _.
Arguments sections {M} _.
Arguments symbolTable {M} _.
Arguments symbolTableSize {M} _.
Arguments stringTable {M} _.
Arguments stringTableSize {M} _.
Arguments sectionNames {M} _.

Definition symtab_name : list Z := [46; 115; 121; 109; 116; 97; 98].
Definition strtab_name : list Z := [46; 115; 116; 114; 116; 97; 98].

Section Modules.
Context {M K : Type} `{MapOps M String Z} `{MapOps K String Z} (fuel : nat) (buffer : Z) (kernel : K).

Definition E := ST (ElfModule M).

Definition set_mem (m : Mem) (s : ElfModule M) : ElfModule M :=
  mkModule m (localSymbols s) (sections s) (symbolTable s) (symbolTableSize s) (stringTable s) (stringTableSize s) (sectionNames s).
Definition set_locals (l : M) (s : ElfModule M) : ElfModule M :=
  mkModule (mem s) l (sections s) (symbolTable s) (symbolTableSize s) (stringTable s) (stringTableSize s) (sectionNames s).
Definition set_sections (l : M) (s : ElfModule M) : ElfModule M :=
  mkModule (mem s) (localSymbols s) l (symbolTable s) (symbolTableSize s) (stringTable s) (stringTableSize s) (sectionNames s).
Definition set_symtab (a n : Z) (s : ElfModule M) : ElfModule M :=
  mkModule (mem s) (localSymbols s) (sections s) a n (stringTable s) (stringTableSize s) (sectionNames s).
Definition set_strtab (a n : Z) (s : ElfModule M) : ElfModule M :=
  mkModule (mem s) (localSymbols s) (sections s) (symbolTable s) (symbolTableSize s) a n (sectionNames s).
Definition set_names (a : Z) (s : ElfModule M) : ElfModule M :=
  mkModule (mem s) (localSymbols s) (sections s) (symbolTable s) (symbolTableSize s) (stringTable s) (stringTableSize s) a.

Definition lift {A} (o : outcome A) : E A := fun s => x ← o; Ret (x, s).
Definition name (a : Z) : E String := fun s => l ← name_at fuel (mem s) a; Ret (str l, s).

(** [&buffer[fileHeader->sectionHeader + i * fileHeader->sectionHeaderEntrySize]] *)
Definition header (m : Mem) (i : Z) : Z := u32 (buffer + u32 (f_sectionHeader m buffer + u32 (i * f_sectionHeaderEntrySize m buffer))).

Definition isValid (s : ElfModule M) : bool := file_isValid (mem s) buffer.

Definition getSymbol (n : String) : E Z := fun s =>
  known ← m_containsKey n (localSymbols s);
  if (known : bool) then r ← m_get n (localSymbols s); Ret (fst r, set_locals (snd r) s) else Ret (0, s).

Definition loadSectionNames : E unit := modify (fun s =>
  let h := header (mem s) (f_sectionHeaderStringIndex (mem s) buffer) in set_names (u32 (buffer + s_offset (mem s) h)) s).

Definition put_local (n : String) (v : Z) : E unit := fun s => l ← m_put n v (localSymbols s); Ret (tt, set_locals l s).
Definition put_section (n : String) (h : Z) : E unit := fun s => l ← m_put n h (sections s); Ret (tt, set_sections l s).

(** The size of a table whose entries have no size is a divide error. *)
Definition table_size (m : Mem) (h : Z) : outcome Z := if s_entrySize m h =? 0 then Fault else Ret (s_size m h / s_entrySize m h).

Definition load_section (h : Z) : E unit :=
  m ← gets mem;
  if s_type m h =? SectionType.NONE then mret tt
  else
    _ ← modify (fun s => set_mem (store32 (mem s) (h + 12) (u32 (buffer + s_offset (mem s) h))) s);
    m ← gets mem;
    names ← gets sectionNames;
    let a := u32 (names + s_nameOffset m h) in
    n ← name a;
    _ ← put_section n h;
    _ ← put_local n (s_virtualAddress m h);
    l ← lift (name_at fuel m a);
    if decide (l = symtab_name) then n ← lift (table_size m h); modify (set_symtab (s_virtualAddress m h) n)
    else if decide (l = strtab_name) then modify (set_strtab (s_virtualAddress m h) (s_size m h))
    else mret tt.

(** [for (i = 0; i < n; i++)] *)
Fixpoint times (n : nat) (i : Z) (body : Z -> E unit) : E unit :=
  match n with O => mret tt | S n => _ ← body i; times n (i + 1) body end.

(** [for (i = 0; i < fileHeader->sectionHeaderEntries; i++)]; the number is read again in every round. It has 16 bits. *)
Fixpoint each_section (n : nat) (i : Z) (body : Z -> E unit) : E unit :=
  match n with
  | O => diverge
  | S n =>
      count ← gets (fun s => f_sectionHeaderEntries (mem s) buffer);
      if i <? count then _ ← body i; each_section n (i + 1) body else mret tt
  end.

Definition max_sections : nat := Z.to_nat (2 ^ 16).

Definition loadSections : E unit := each_section max_sections 0 (fun i => m ← gets mem; load_section (header m i)).

Definition parse_symbol (i : Z) : E unit :=
  m ← gets mem;
  table ← gets symbolTable;
  let e := u32 (table + u32 (16 * i)) in
  if y_section m e =? 0 then mret tt
  else if y_nameOffset m e =? 0 then mret tt
  else
    let b := getSymbolBinding m e in
    if negb (b =? Binding.GLOBAL) && negb (b =? Binding.WEAK) && negb (b =? Binding.LOCAL) then mret tt
    else
      strings ← gets stringTable;
      n ← name (u32 (strings + y_nameOffset m e));
      locals ← gets localSymbols;
      isPresent ← lift (m_containsKey n locals);
      if (isPresent : bool) && (b =? Binding.WEAK) then mret tt
      else put_local n (u32 (s_virtualAddress m (header m (y_section m e)) + y_value m e)).

Definition parseSymbolTable : E unit := n ← gets symbolTableSize; times (Z.to_nat n) 0 parse_symbol.

Definition getSectionName (m : Mem) (names sectionIndex : Z) : Z := u32 (names + s_nameOffset m (header m sectionIndex)).

(** [Kernel::Symbols::get] *)
Definition kernel_get (n : String) : outcome Z :=
  known ← m_containsKey n kernel;
  if (known : bool) then r ← m_get n kernel; Ret (fst r) else Ret 0.

(** The address a relocation refers to. *)
Definition symbol_address (symbol : Z) : E Z :=
  m ← gets mem;
  names ← gets sectionNames;
  strings ← gets stringTable;
  n ← name (if getSymbolType m symbol =? SymType.SECTION then getSectionName m names (y_section m symbol) else u32 (strings + y_nameOffset m symbol));
  address ← getSymbol n;
  address ← (if address =? 0 then lift (kernel_get n) else mret address);
  if address =? 0 then throw KEY_NOT_FOUND else mret address.

Definition patch (kind location address addend : Z) : Z :=
  if kind =? Reloc.R_386_32 then u32 (addend + address)
  else if kind =? Reloc.R_386_PC32 then u32 (u32 (addend + address) - location)
  else addend.

Definition relocate_entry (target table j : Z) : E unit :=
  m ← gets mem;
  symbols ← gets symbolTable;
  let r := u32 (table + u32 (8 * j)) in
  let symbol := u32 (symbols + u32 (16 * getSymbolIndex m r)) in
  if getType m r =? Reloc.R_386_NONE then mret tt
  else if getSymbolType m symbol =? SymType.FILE then mret tt
  else
    address ← symbol_address symbol;
    let location := u32 (s_virtualAddress m target + r_offset m r) in
    if (getType m r =? Reloc.R_386_32) || (getType m r =? Reloc.R_386_PC32)
    then modify (fun s => set_mem (store32 (mem s) location (patch (getType m r) location address (load32 (mem s) location))) s)
    else mret tt.

Definition relocate_section (i : Z) : E unit :=
  m ← gets mem;
  let h := header m i in
  if negb (s_type m h =? SectionType.REL) then mret tt
  else
    n ← lift (table_size m h);
    times (Z.to_nat n) 0 (relocate_entry (header m (s_info m h)) (s_virtualAddress m h)).

Definition relocate : E unit := each_section max_sections 0 relocate_section.

(** The part of [ModuleLoader::load] that works on the file in memory; [false] for a file that is no module. *)
Definition load_module : E bool := fun s =>
  if negb (isValid s) then Ret (false, s)
  else (_ ← loadSectionNames; _ ← loadSections; _ ← parseSymbolTable; _ ← relocate; mret true) s.
End Modules.

(** ** What a relocation does *)

(** A relocation entry: its kind, the place it changes and the name of the symbol it refers to. *)
Record rel := mkRel { kind : Z; location : Z; symbol : list Z }.

Section Relocations.
Context (fuel : nat) (buffer : Z).
Implicit Types (m : Mem).

Definition text_at m (a : Z) : list Z := match name_at fuel m a with Ret l => l | _ => [] end.

(** Where the name of a symbol stands. *)
Definition symbol_name m (names strings sym : Z) : Z :=
  if getSymbolType m sym =? SymType.SECTION then getSectionName buffer m names (y_section m sym) else u32 (strings + y_nameOffset m sym).

Definition entry_at (table j : Z) : Z := u32 (table + u32 (8 * j)).
Definition symbol_at m (symbols r : Z) : Z := u32 (symbols + u32 (16 * getSymbolIndex m r)).

(** The entries without effect are those without a kind and those that refer to a file. *)
Definition entry_rels m (symbols names strings target table j : Z) : list rel :=
  let r := entry_at table j in
  let sym := symbol_at m symbols r in
  if (getType m r =? Reloc.R_386_NONE) || (getSymbolType m sym =? SymType.FILE) then []
  else [mkRel (getType m r) (u32 (s_virtualAddress m target + r_offset m r)) (text_at m (symbol_name m names strings sym))].

Definition section_rels m (symbols names strings i : Z) : list rel :=
  let h := header buffer m i in
  if s_type m h =? SectionType.REL
  then seqZ 0 (s_size m h / s_entrySize m h) ≫= entry_rels m symbols names strings (header buffer m (s_info m h)) (s_virtualAddress m h)
  else [].

Definition all_rels m (symbols names strings : Z) : list rel := seqZ 0 (f_sectionHeaderEntries m buffer) ≫= section_rels m symbols names strings.
End Relocations.

(** What an entry of the symbol table adds to the symbols: a weak one does not replace another, and what follows replaces what was before. *)
Definition add_symbol (fuel : nat) (buffer : Z) (m : Mem) (symbols strings : Z) (lv : gmap String Z) (i : Z) : gmap String Z :=
  let e := u32 (symbols + u32 (16 * i)) in
  let n := str (text_at fuel m (u32 (strings + y_nameOffset m e))) in
  if decide (y_section m e = 0 \/ y_nameOffset m e = 0 \/ Binding.WEAK < getSymbolBinding m e) then lv
  else if decide (getSymbolBinding m e = Binding.WEAK /\ is_Some (lv !! n)) then lv
  else <[n := u32 (s_virtualAddress m (header buffer m (y_section m e)) + y_value m e)]> lv.

(** A symbol of the module, or else one of the kernel; addresses are not 0. *)
Definition resolve (locals kernel : gmap String Z) (n : list Z) : option Z :=
  let found (g : gmap String Z) := match g !! str n with Some a => if decide (a = 0) then None else Some a | None => None end in
  match found locals with Some a => Some a | None => found kernel end.

Definition writes (r : rel) : Prop := kind r = Reloc.R_386_32 \/ kind r = Reloc.R_386_PC32.
#[export] Instance writes_dec r : Decision (writes r).
Proof. unfold writes. apply _. Defined.

Definition apply_rel (r : rel) (a : Z) (m : Mem) : Mem :=
  if decide (writes r) then store32 m (location r) (patch (kind r) (location r) a (load32 m (location r))) else m.

(** The relocations one after the other, up to a symbol that is not defined. *)
Fixpoint apply_rels (locals kernel : gmap String Z) (rs : list rel) (m : Mem) : option Mem :=
  match rs with
  | [] => Some m
  | r :: rs => match resolve locals kernel (symbol r) with Some a => apply_rels locals kernel rs (apply_rel r a m) | None => None end
  end.

Lemma apply_rels_app locals kernel rs1 rs2 m : apply_rels locals kernel (rs1 ++ rs2) m = match apply_rels locals kernel rs1 m with Some m => apply_rels locals kernel rs2 m | None => None end.
Proof. revert m. induction rs1 as [|r rs1 IH]; intros m; [done|]. cbn. destruct (resolve _ _ _); [apply IH|done]. Qed.

(** ** The loops *)

Section Loader.
Context {M K : Type} `{MapOps M String Z} `{!MapSpec M String Z} `{MapOps K String Z} `{!MapSpec K String Z} (fuel : nat) (buffer : Z) (kernel : K).
Context (m0 : Mem) (symbols names strings : Z) (P : Z -> Prop).

(** The tables lie in [P], and what is relocated does not. *)
Definition covers (a n : Z) : Prop := forall x, a <= x < a + n -> P x.

Definition named (a : Z) : Prop := exists l, is_string m0 a l /\ (length l < fuel)%nat /\ covers a (Z.of_nat (length l) + 1).

Record entry_ok (target table j : Z) : Prop := {
  eo_entry : covers (entry_at table j) 8;
  eo_symbol : covers (symbol_at m0 symbols (entry_at table j)) 16;
  eo_header : covers (header buffer m0 (y_section m0 (symbol_at m0 symbols (entry_at table j)))) 40;
  eo_name : getType m0 (entry_at table j) <> Reloc.R_386_NONE -> getSymbolType m0 (symbol_at m0 symbols (entry_at table j)) <> SymType.FILE ->
    named (symbol_name buffer m0 names strings (symbol_at m0 symbols (entry_at table j)))
}.

Record section_ok (i : Z) : Prop := {
  so_header : covers (header buffer m0 i) 40;
  so_target : s_type m0 (header buffer m0 i) = SectionType.REL -> covers (header buffer m0 (s_info m0 (header buffer m0 i))) 40;
  so_size : s_type m0 (header buffer m0 i) = SectionType.REL -> 0 < s_entrySize m0 (header buffer m0 i);
  so_entries : s_type m0 (header buffer m0 i) = SectionType.REL -> forall j, 0 <= j < s_size m0 (header buffer m0 i) / s_entrySize m0 (header buffer m0 i) ->
    entry_ok (header buffer m0 (s_info m0 (header buffer m0 i))) (s_virtualAddress m0 (header buffer m0 i)) j
}.

Record image : Prop := {
  im_bytes : bytes m0;
  im_file : covers buffer 52;
  im_sections : forall i, 0 <= i < f_sectionHeaderEntries m0 buffer -> section_ok i;
  im_places : forall r, r ∈ all_rels fuel buffer m0 symbols names strings -> writes r -> forall x, location r <= x < location r + 4 -> ~ P x
}.

Definition agrees (m : Mem) : Prop := forall x, P x -> m x = m0 x.

Lemma agrees32 m a : agrees m -> covers a 4 -> load32 m a = load32 m0 a.
Proof. intros Hm Ha. apply load32_ext. intros x Hx. apply Hm, Ha. lia. Qed.

Lemma agrees16 m a : agrees m -> covers a 2 -> load16 m a = load16 m0 a.
Proof. intros Hm Ha. apply load16_ext; apply Hm, Ha; lia. Qed.

Lemma covers_sub a n b k : covers a n -> a <= b -> b + k <= a + n -> covers b k.
Proof. intros Ha Hb Hk x Hx. apply Ha. lia. Qed.

(** The module state that the relocation leaves alone. *)
Record ready (lv : gmap String Z) (s : ElfModule M) : Prop := {
  rd_agrees : agrees (mem s);
  rd_symbols : symbolTable s = symbols;
  rd_names : sectionNames s = names;
  rd_strings : stringTable s = strings;
  rd_inv : m_inv (localSymbols s);
  rd_view : m_view (localSymbols s) = lv
}.

(** The code does to the memory what the list of relocations says. *)
Definition relocates (lv kv : gmap String Z) (rs : list rel) (o : outcome (unit * ElfModule M)) (m : Mem) : Prop :=
  match apply_rels lv kv rs m with
  | Some m' => exists s', o = Ret (tt, s') /\ ready lv s' /\ mem s' = m'
  | None => o = Throw KEY_NOT_FOUND
  end.

Lemma header_agrees m i : covers buffer 52 -> agrees m -> header buffer m i = header buffer m0 i.
Proof.
  intros Hc Hm. unfold header, f_sectionHeader, f_sectionHeaderEntrySize. rewrite (agrees32 m) by (done || (eapply covers_sub; [exact Hc|lia|lia])). by rewrite (agrees16 m) by (done || (eapply covers_sub; [exact Hc|lia|lia])).
Qed.

Lemma name_agrees m a : named a -> agrees m -> name_at fuel m a = Ret (text_at fuel m0 a).
Proof.
  intros (l & Hs & Hf & Hc) Hm. unfold text_at. rewrite (name_run fuel m0 a l) by done. apply name_run; [|done]. apply (is_string_frame m0); [done|]. intros x Hx. apply Hm, Hc. lia.
Qed.

Lemma getSymbol_run lv n s : ready lv s -> exists s', getSymbol n s = Ret (default 0 (lv !! n), s') /\ ready lv s' /\ mem s' = mem s.
Proof.
  intros [R1 R2 R3 R4 R5 R6]. unfold getSymbol. rewrite m_containsKey_spec by done. outcome. pose proof (m_get_spec (localSymbols s) n R5) as Hg. rewrite R6 in *. destruct (lv !! n) as [v|].
  - rewrite bool_decide_true by done. destruct Hg as (c & -> & Hc & Hv). outcome. eexists. split; [done|]. split; [|done]. by split.
  - rewrite bool_decide_false by (by intros [? ?]). by exists s.
Qed.

Lemma kernel_get_run n : m_inv kernel -> kernel_get kernel n = Ret (default 0 (m_view kernel !! n)).
Proof.
  intros Hk. unfold kernel_get. rewrite m_containsKey_spec by done. outcome. pose proof (m_get_spec kernel n Hk) as Hg. destruct (m_view kernel !! n) as [v|].
  - rewrite bool_decide_true by done. by destruct Hg as (c & -> & _).
  - by rewrite bool_decide_false by (by intros [? ?]).
Qed.

Lemma symbol_address_run lv sym s : covers buffer 52 -> covers sym 16 -> covers (header buffer m0 (y_section m0 sym)) 40 -> named (symbol_name buffer m0 names strings sym) -> m_inv kernel -> ready lv s ->
  match resolve lv (m_view kernel) (text_at fuel m0 (symbol_name buffer m0 names strings sym)) with
  | Some a => exists s', symbol_address fuel buffer kernel sym s = Ret (a, s') /\ ready lv s' /\ mem s' = mem s
  | None => symbol_address fuel buffer kernel sym s = Throw KEY_NOT_FOUND
  end.
Proof.
  intros Hb Hs Hh Hn Hk HR. pose proof HR as [R1 R2 R3 R4 R5 R6]. unfold symbol_address. st_step. rewrite R3, R4.
  assert (Ea : (if getSymbolType (mem s) sym =? SymType.SECTION then getSectionName buffer (mem s) names (y_section (mem s) sym) else u32 (strings + y_nameOffset (mem s) sym)) = symbol_name buffer m0 names strings sym).
  { unfold symbol_name, getSectionName, getSymbolType, y_info, y_nameOffset, s_nameOffset, y_section. rewrite (R1 (sym + 12)) by (apply Hs; lia). rewrite (agrees32 (mem s) sym) by (done || (eapply covers_sub; [exact Hs|lia|lia])).
    rewrite (agrees16 (mem s) (sym + 14)) by (done || (eapply covers_sub; [exact Hs|lia|lia])). rewrite header_agrees by done. unfold y_section in Hh. by rewrite (agrees32 (mem s) (header _ _ _)) by (done || (eapply covers_sub; [exact Hh|lia|lia])). }
  rewrite Ea. unfold name. rewrite (name_agrees (mem s) _ Hn R1). outcome. set (n := text_at _ _ _). destruct (getSymbol_run lv (str n) s HR) as (s1 & E1 & HR1 & Hm1). rewrite E1. unfold resolve.
  assert (Hker : lift (kernel_get kernel (str n)) s1 = Ret (default 0 (m_view kernel !! str n), s1)) by (unfold lift; by rewrite kernel_get_run by done).
  destruct (lv !! str n) as [a|]; cbn [default from_option id]; [destruct (decide (a = 0)) as [->|Ha]|].
  1, 3: cbn [Z.eqb]; rewrite Hker; destruct (m_view kernel !! str n) as [b|]; cbn [default from_option id]; [|done]; destruct (decide (b = 0)) as [->|Hb0]; [done|]; rewrite (proj2 (Z.eqb_neq _ _) Hb0); by exists s1.
  rewrite (proj2 (Z.eqb_neq _ _) Ha). st_step. rewrite (proj2 (Z.eqb_neq _ _) Ha). by exists s1.
Qed.

Lemma ready_store lv r a s : ready lv s -> (writes r -> forall x, location r <= x < location r + 4 -> ~ P x) -> ready lv (set_mem (apply_rel r a (mem s)) s).
Proof.
  intros [R1 R2 R3 R4 R5 R6] Hp. split; try done. intros x Hx. cbn [mem set_mem]. unfold apply_rel. destruct (decide (writes r)) as [Hw|]; [|by apply R1]. rewrite store32_outside; [by apply R1|].
  destruct (decide (x < location r)); [by left|]. right. destruct (decide (location r + 4 <= x)); [done|]. exfalso. apply (Hp Hw x); [lia|done].
Qed.

Lemma relocate_entry_run lv target table j s : covers buffer 52 -> covers target 40 -> entry_ok target table j -> m_inv kernel -> ready lv s ->
  (forall r, r ∈ entry_rels fuel buffer m0 symbols names strings target table j -> writes r -> forall x, location r <= x < location r + 4 -> ~ P x) ->
  relocates lv (m_view kernel) (entry_rels fuel buffer m0 symbols names strings target table j) (relocate_entry fuel buffer kernel target table j s) (mem s).
Proof.
  intros Hb Ht [E1 E2 E3 E4] Hk HR Hpl. pose proof HR as [R1 R2 R3 R4 R5 R6]. unfold relocate_entry. st_step. rewrite R2. fold (entry_at table j). set (r := entry_at table j) in *.
  assert (Ei : r_info (mem s) r = r_info m0 r) by (apply agrees32; [done|eapply covers_sub; [exact E1|lia|lia]]).
  assert (Eo : r_offset (mem s) r = r_offset m0 r) by (apply agrees32; [done|eapply covers_sub; [exact E1|lia|lia]]).
  assert (Ety : getType (mem s) r = getType m0 r) by (unfold getType; by rewrite Ei). assert (Eix : getSymbolIndex (mem s) r = getSymbolIndex m0 r) by (unfold getSymbolIndex; by rewrite Ei).
  rewrite Eix. fold (symbol_at m0 symbols r). set (sym := symbol_at m0 symbols r) in *.
  assert (Est : getSymbolType (mem s) sym = getSymbolType m0 sym) by (unfold getSymbolType, y_info; by rewrite (R1 (sym + 12)) by (apply E2; lia)).
  assert (Eva : s_virtualAddress (mem s) target = s_virtualAddress m0 target) by (apply agrees32; [done|eapply covers_sub; [exact Ht|lia|lia]]).
  rewrite Ety, Est, Eva, Eo. unfold relocates. unfold entry_rels in *. fold r in Hpl |- *. fold sym in Hpl |- *.
  destruct (Z.eqb_spec (getType m0 r) Reloc.R_386_NONE) as [En|En]; [cbn; by exists s|]. destruct (Z.eqb_spec (getSymbolType m0 sym) SymType.FILE) as [Ef|Ef]; [cbn; by exists s|].
  cbn [orb] in *. set (n := text_at _ _ _) in *. set (loc := u32 _) in *. cbn [apply_rels symbol]. pose proof (symbol_address_run lv sym s Hb E2 E3 (E4 En Ef) Hk HR) as Hs. fold n in Hs.
  destruct (resolve lv (m_view kernel) n) as [a|]; [|by rewrite Hs]. destruct Hs as (s1 & Es & HR1 & Hm1). rewrite Es. pose proof (ready_store lv (mkRel (getType m0 r) loc n) a s1 HR1 (Hpl _ ltac:(left))) as HR2.
  rewrite <- Hm1. unfold apply_rel in *. cbn [kind location] in *. unfold writes in *. cbn [kind] in *.
  destruct (Z.eqb_spec (getType m0 r) Reloc.R_386_32) as [Ek|Ek]; [|destruct (Z.eqb_spec (getType m0 r) Reloc.R_386_PC32) as [Ek'|Ek']]; cbn [orb].
  - rewrite decide_True in * by tauto. by eexists.
  - rewrite decide_True in * by tauto. by eexists.
  - rewrite decide_False in * by tauto. exists s1. done.
Qed.

(** Rounds of a loop each of which does its relocations. *)
Lemma times_run lv kv (body : Z -> ST (ElfModule M) unit) (f : Z -> list rel) n : forall i s, (forall j s, i <= j < i + Z.of_nat n -> ready lv s -> relocates lv kv (f j) (body j s) (mem s)) -> ready lv s ->
  relocates lv kv (seqZ i (Z.of_nat n) ≫= f) (times n i body s) (mem s).
Proof.
  induction n as [|n IH]; intros i s Hb HR; [by exists s|]. rewrite seqZ_cons by lia. replace (Z.pred (Z.of_nat (S n))) with (Z.of_nat n) by lia. change (i :: ?l) with ([i] ++ l). rewrite bind_app. cbn [mbind list_bind]. rewrite app_nil_r.
  unfold relocates. rewrite apply_rels_app. pose proof (Hb i s ltac:(lia) HR) as H1. unfold relocates in H1. cbn [times]. st_step. destruct (apply_rels lv kv (f i) (mem s)) as [m1|]; [|by rewrite H1].
  destruct H1 as (s1 & E1 & HR1 & <-). rewrite E1. apply (IH (Z.succ i) s1); [|done]. intros j s' Hj. apply Hb. lia.
Qed.

Lemma relocate_section_run lv i s : covers buffer 52 -> section_ok i -> m_inv kernel -> ready lv s -> bytes m0 ->
  (forall r, r ∈ section_rels fuel buffer m0 symbols names strings i -> writes r -> forall x, location r <= x < location r + 4 -> ~ P x) ->
  relocates lv (m_view kernel) (section_rels fuel buffer m0 symbols names strings i) (relocate_section fuel buffer kernel i s) (mem s).
Proof.
  intros Hb [S1 S2 S3 S4] Hk HR Hby Hpl. pose proof (rd_agrees _ _ HR) as R1. unfold relocate_section. st_step. rewrite header_agrees by done. unfold section_rels in *. set (h := header buffer m0 i) in *.
  assert (Ef : forall k, 0 <= k <= 36 -> load32 (mem s) (h + k) = load32 m0 (h + k)) by (intros k' Hk'; apply agrees32; [done|eapply covers_sub; [exact S1|lia|lia]]).
  assert (Et : s_type (mem s) h = s_type m0 h) by (by apply Ef). assert (Ei : s_info (mem s) h = s_info m0 h) by (by apply Ef). assert (Ev : s_virtualAddress (mem s) h = s_virtualAddress m0 h) by (by apply Ef).
  assert (Es : s_size (mem s) h = s_size m0 h) by (by apply Ef). assert (Ee : s_entrySize (mem s) h = s_entrySize m0 h) by (by apply Ef).
  rewrite Et. destruct (Z.eqb_spec (s_type m0 h) SectionType.REL) as [E|E]; cbn [negb]; [|by exists s].
  unfold lift, table_size. rewrite Es, Ee, Ei, Ev. specialize (S3 E). rewrite (proj2 (Z.eqb_neq _ _)) by lia. outcome. rewrite (header_agrees (mem s)) by done.
  pose proof (load32_range m0 (h + 20) Hby) as Hsz. unfold is_u32 in Hsz. assert (Hq : 0 <= s_size m0 h / s_entrySize m0 h) by (apply Z.div_pos; [unfold s_size; lia|lia]).
  set (q := s_size m0 h / s_entrySize m0 h) in *. replace (seqZ 0 q) with (seqZ 0 (Z.of_nat (Z.to_nat q))) by (f_equal; lia). apply times_run; [|done].
  intros j s' Hj HR'. apply relocate_entry_run; [done|by apply S2|apply S4; [done|lia]|done|done|].
  intros r Hr. apply Hpl. apply list_elem_of_bind. exists j. split; [done|]. apply elem_of_seqZ. lia.
Qed.

Lemma each_section_run lv n : forall i s, image -> m_inv kernel -> ready lv s -> 0 <= i -> f_sectionHeaderEntries m0 buffer < i + Z.of_nat n -> i <= f_sectionHeaderEntries m0 buffer ->
  relocates lv (m_view kernel) (seqZ i (f_sectionHeaderEntries m0 buffer - i) ≫= section_rels fuel buffer m0 symbols names strings) (each_section buffer n i (relocate_section fuel buffer kernel) s) (mem s).
Proof.
  induction n as [|n IH]; intros i s Him Hk HR Hi Hn Hle; [lia|]. pose proof Him as [I1 I2 I3 I4]. cbn [each_section]. st_step.
  assert (Ec : f_sectionHeaderEntries (mem s) buffer = f_sectionHeaderEntries m0 buffer) by (apply agrees16; [apply HR|eapply covers_sub; [exact I2|lia|lia]]). rewrite Ec.
  destruct (Z.ltb_spec i (f_sectionHeaderEntries m0 buffer)) as [Hlt|Hge].
  - rewrite seqZ_cons by lia. change (i :: ?l) with ([i] ++ l). rewrite bind_app. cbn [mbind list_bind]. rewrite app_nil_r. unfold relocates. rewrite apply_rels_app.
    assert (H1 : relocates lv (m_view kernel) (section_rels fuel buffer m0 symbols names strings i) (relocate_section fuel buffer kernel i s) (mem s)).
    { apply relocate_section_run; [done|by apply I3|done|done|done|]. intros r Hr. apply I4. unfold all_rels. apply list_elem_of_bind. exists i. split; [done|]. apply elem_of_seqZ. lia. }
    unfold relocates in H1. destruct (apply_rels _ _ (section_rels _ _ _ _ _ _ i) (mem s)) as [m1|]; [|by rewrite H1]. destruct H1 as (s1 & E1 & HR1 & <-). rewrite E1.
    replace (Z.pred (f_sectionHeaderEntries m0 buffer - i)) with (f_sectionHeaderEntries m0 buffer - (i + 1)) by lia. apply (IH (i + 1) s1); try done; lia.
  - rewrite seqZ_nil by lia. by exists s.
Qed.

Lemma relocate_run lv s : image -> m_inv kernel -> ready lv s -> relocates lv (m_view kernel) (all_rels fuel buffer m0 symbols names strings) (relocate fuel buffer kernel s) (mem s).
Proof.
  intros Him Hk HR. pose proof Him as [I1 I2 I3 I4]. unfold relocate, all_rels. assert (Hc : 0 <= f_sectionHeaderEntries m0 buffer < 2 ^ 16).
  { unfold f_sectionHeaderEntries, load16. pose proof (I1 (buffer + 48)) as H1. pose proof (I1 (buffer + 48 + 1)) as H2. unfold is_u8 in *. lia. }
  replace (f_sectionHeaderEntries m0 buffer) with (f_sectionHeaderEntries m0 buffer - 0) by lia. apply each_section_run; try done; [|lia]. unfold max_sections. rewrite Z2Nat.id by lia. lia.
Qed.
(** ** Symbols *)

Record symbol_ok (i : Z) : Prop := {
  yo_entry : covers (u32 (symbols + u32 (16 * i))) 16;
  yo_header : covers (header buffer m0 (y_section m0 (u32 (symbols + u32 (16 * i))))) 40;
  yo_name : y_section m0 (u32 (symbols + u32 (16 * i))) <> 0 -> y_nameOffset m0 (u32 (symbols + u32 (16 * i))) <> 0 -> named (u32 (strings + y_nameOffset m0 (u32 (symbols + u32 (16 * i)))))
}.

Lemma put_local_run lv n v s : ready lv s -> Z.of_nat (base.size lv) + 1 < 2 ^ 32 -> exists s', put_local n v s = Ret (tt, s') /\ ready (<[n := v]> lv) s' /\ mem s' = mem s /\ symbolTableSize s' = symbolTableSize s.
Proof.
  intros [R1 R2 R3 R4 R5 R6] Hs. unfold put_local. destruct (m_put_spec (localSymbols s) n v R5) as (c & -> & Hc & Hv); [by rewrite R6|]. outcome. eexists. split; [done|]. split; [|done]. split; try done. by rewrite <- R6.
Qed.

Lemma parse_symbol_run lv i s : bytes m0 -> covers buffer 52 -> symbol_ok i -> ready lv s -> Z.of_nat (base.size lv) + 1 < 2 ^ 32 ->
  exists s', parse_symbol fuel buffer i s = Ret (tt, s') /\ ready (add_symbol fuel buffer m0 symbols strings lv i) s' /\ mem s' = mem s.
Proof.
  intros Hby Hb [Y1 Y2 Y3] HR Hsz. pose proof HR as [R1 R2 R3 R4 R5 R6]. unfold parse_symbol, add_symbol. st_step. rewrite R2. set (e := u32 (symbols + u32 (16 * i))) in *.
  assert (Ef : forall k, 0 <= k <= 12 -> load32 (mem s) (e + k) = load32 m0 (e + k)) by (intros k' Hk'; apply agrees32; [done|eapply covers_sub; [exact Y1|lia|lia]]).
  assert (En : y_nameOffset (mem s) e = y_nameOffset m0 e) by (apply agrees32; [done|eapply covers_sub; [exact Y1|lia|lia]]). assert (Ev : y_value (mem s) e = y_value m0 e) by (by apply Ef).
  assert (Es : y_section (mem s) e = y_section m0 e) by (apply agrees16; [done|eapply covers_sub; [exact Y1|lia|lia]]).
  assert (Eb : getSymbolBinding (mem s) e = getSymbolBinding m0 e) by (unfold getSymbolBinding, y_info; by rewrite (R1 (e + 12)) by (apply Y1; lia)).
  rewrite En, Ev, Es, Eb, header_agrees by done. assert (Eh : s_virtualAddress (mem s) (header buffer m0 (y_section m0 e)) = s_virtualAddress m0 (header buffer m0 (y_section m0 e))) by (apply agrees32; [done|eapply covers_sub; [exact Y2|lia|lia]]). rewrite Eh.
  destruct (Z.eqb_spec (y_section m0 e) 0) as [E0|E0]; [rewrite decide_True by tauto; by exists s|]. destruct (Z.eqb_spec (y_nameOffset m0 e) 0) as [E1|E1]; [rewrite decide_True by tauto; by exists s|].
  assert (Hbn : 0 <= getSymbolBinding m0 e) by (unfold getSymbolBinding, y_info; apply Z.shiftr_nonneg, Hby).
  unfold Binding.GLOBAL, Binding.LOCAL, Binding.WEAK in *. destruct (Z.eqb_spec (getSymbolBinding m0 e) 1) as [B1|B1], (Z.eqb_spec (getSymbolBinding m0 e) 2) as [B2|B2], (Z.eqb_spec (getSymbolBinding m0 e) 0) as [B0|B0]; try lia; cbn [negb andb];
    (destruct (decide (_ \/ _)) as [Hc|Hc]; [try lia|try lia]); try (by exists s).
  all: st_step; rewrite ?R4; unfold name; rewrite (name_agrees (mem s) _ (Y3 E0 E1) R1); outcome; set (n := str _); unfold lift; rewrite m_containsKey_spec by done; outcome; rewrite R6.
  all: try (rewrite andb_false_r; (destruct (decide (_ /\ _)) as [[Hw _]|_]; [lia|]); destruct (put_local_run lv n (u32 (s_virtualAddress m0 (header buffer m0 (y_section m0 e)) + y_value m0 e)) s HR Hsz) as (s' & E & HR' & Hm & _); by exists s').
  rewrite andb_true_r. case_bool_decide as Hd.
  - (destruct (decide (_ /\ _)) as [_|Hn]; [by exists s|tauto]).
  - (destruct (decide (_ /\ _)) as [[_ ?]|_]; [done|]). destruct (put_local_run lv n (u32 (s_virtualAddress m0 (header buffer m0 (y_section m0 e)) + y_value m0 e)) s HR Hsz) as (s' & E & HR' & Hm & _). by exists s'.
Qed.

Lemma add_symbol_size lv i : (base.size (add_symbol fuel buffer m0 symbols strings lv i) <= S (base.size lv))%nat.
Proof. unfold add_symbol. repeat case_decide; [lia|lia|]. rewrite map_size_insert. case_match; simpl; lia. Qed.

Lemma symbols_run n : forall i lv s, bytes m0 -> covers buffer 52 -> (forall j, i <= j < i + Z.of_nat n -> symbol_ok j) -> ready lv s -> Z.of_nat (base.size lv) + Z.of_nat n < 2 ^ 32 ->
  exists s', times n i (parse_symbol fuel buffer) s = Ret (tt, s') /\ ready (foldl (add_symbol fuel buffer m0 symbols strings) lv (seqZ i (Z.of_nat n))) s' /\ mem s' = mem s.
Proof.
  induction n as [|n IH]; intros i lv s Hby Hb Hok HR Hsz; [by exists s|]. rewrite seqZ_cons by lia. replace (Z.pred (Z.of_nat (S n))) with (Z.of_nat n) by lia. cbn [times foldl]. st_step.
  destruct (parse_symbol_run lv i s Hby Hb (Hok i ltac:(lia)) HR ltac:(lia)) as (s1 & -> & HR1 & <-). pose proof (add_symbol_size lv i). apply (IH (i + 1) _ s1); try done; [intros j Hj; apply Hok; lia|lia].
Qed.
End Loader.

(** ** Relocated memory *)

(** Places that are changed do not overlap. *)
Fixpoint separate (rs : list rel) : Prop :=
  match rs with
  | [] => True
  | r :: rs => (writes r -> forall r', r' ∈ rs -> writes r' -> location r + 4 <= location r' \/ location r' + 4 <= location r) /\ separate rs
  end.

Lemma patch_u32 k l a v : is_u32 v -> is_u32 (patch k l a v).
Proof. intros Hv. unfold patch. repeat case_match; [apply u32_range|apply u32_range|done]. Qed.

Lemma apply_rels_outside lv kv rs : forall m m' x, apply_rels lv kv rs m = Some m' -> (forall r, r ∈ rs -> writes r -> x < location r \/ location r + 4 <= x) -> m' x = m x.
Proof.
  induction rs as [|r rs IH]; intros m m' x E Hx; cbn in E; [by injection E as <-|]. destruct (resolve lv kv (symbol r)) as [a|]; [|done]. rewrite (IH _ _ x E) by (intros r' Hr'; apply Hx; by right).
  unfold apply_rel. destruct (decide (writes r)); [|done]. apply store32_outside, Hx; [left|done].
Qed.

Lemma apply_rels_inside lv kv rs : forall m m' r, bytes m -> separate rs -> apply_rels lv kv rs m = Some m' -> r ∈ rs -> writes r ->
  exists a, resolve lv kv (symbol r) = Some a /\ load32 m' (location r) = patch (kind r) (location r) a (load32 m (location r)).
Proof.
  induction rs as [|r0 rs IH]; intros m m' r Hb Hs E Hr Hw; [by apply elem_of_nil in Hr|]. destruct Hs as [Hs1 Hs]. cbn in E. destruct (resolve lv kv (symbol r0)) as [a|] eqn:Ea; [|done].
  assert (Hb' : bytes (apply_rel r0 a m)) by (unfold apply_rel; destruct (decide _); [by apply bytes_store32|done]). apply elem_of_cons in Hr as [->|Hr].
  - exists a. split; [done|]. assert (Eout : forall x, location r0 <= x < location r0 + 4 -> m' x = apply_rel r0 a m x).
    { intros x Hx. apply (apply_rels_outside _ _ _ _ _ _ E). intros r' Hr' Hw'. destruct (Hs1 Hw r' Hr' Hw'); lia. }
    rewrite (load32_ext (apply_rel r0 a m) m') by done. unfold apply_rel. rewrite decide_True by done. apply load_store32_eq, patch_u32, load32_range, Hb.
  - destruct (IH _ m' r Hb' Hs E Hr Hw) as (b & Eb & El). exists b. split; [done|]. rewrite El. f_equal. unfold apply_rel. destruct (decide (writes r0)) as [Hw0|]; [|done].
    apply load_store32_ne. destruct (Hs1 Hw0 r Hr Hw); lia.
Qed.

Lemma apply_rels_some lv kv rs : forall m, (forall r, r ∈ rs -> is_Some (resolve lv kv (symbol r))) -> exists m', apply_rels lv kv rs m = Some m'.
Proof.
  induction rs as [|r rs IH]; intros m Hr; [by exists m|]. cbn. destruct (Hr r ltac:(left)) as [a ->]. apply IH. intros r' Hr'. apply Hr. by right.
Qed.

Lemma apply_rels_none lv kv rs : forall m r, r ∈ rs -> resolve lv kv (symbol r) = None -> apply_rels lv kv rs m = None.
Proof.
  induction rs as [|r0 rs IH]; intros m r Hr E; [by apply elem_of_nil in Hr|]. cbn. destruct (resolve lv kv (symbol r0)) as [a|] eqn:E0; [|done]. apply elem_of_cons in Hr as [->|Hr]; [congruence|]. by apply (IH _ r).
Qed.

(** C17. A module is linked. Let the tables of an object file in memory be apart from the places
    its relocations change, and these apart from each other. The symbol table is read into the
    map of the module's symbols, entry by entry. Then every place of kind [R_386_32] holds what
    it held plus the address of the symbol, every place of kind [R_386_PC32] this less the
    address of the place; a symbol of the module is preferred to one of the kernel; and no other
    byte of memory has changed. A symbol that neither defines is an exception. *)
Theorem elf_linked {M K : Type} `{MapOps M String Z} `{!MapSpec M String Z} `{MapOps K String Z} `{!MapSpec K String Z} fuel buffer (kernel : K) (P : Z -> Prop) (s : ElfModule M) :
  image fuel buffer (mem s) (symbolTable s) (sectionNames s) (stringTable s) P ->
  (forall j, 0 <= j < symbolTableSize s -> symbol_ok fuel buffer (mem s) (symbolTable s) (stringTable s) P j) ->
  m_inv kernel -> m_inv (localSymbols s) -> 0 <= symbolTableSize s -> Z.of_nat (base.size (m_view (localSymbols s))) + symbolTableSize s < 2 ^ 32 ->
  let rs := all_rels fuel buffer (mem s) (symbolTable s) (sectionNames s) (stringTable s) in
  let lv := foldl (add_symbol fuel buffer (mem s) (symbolTable s) (stringTable s)) (m_view (localSymbols s)) (seqZ 0 (symbolTableSize s)) in
  let run := (_ ← parseSymbolTable fuel buffer; relocate fuel buffer kernel) s in
  (separate rs -> (forall r, r ∈ rs -> is_Some (resolve lv (m_view kernel) (symbol r))) ->
    exists s', run = Ret (tt, s') /\ m_view (localSymbols s') = lv /\
      (forall r a, r ∈ rs -> resolve lv (m_view kernel) (symbol r) = Some a ->
        (kind r = Reloc.R_386_32 -> load32 (mem s') (location r) = u32 (load32 (mem s) (location r) + a)) /\
        (kind r = Reloc.R_386_PC32 -> load32 (mem s') (location r) = u32 (load32 (mem s) (location r) + a - location r))) /\
      (forall x, (forall r, r ∈ rs -> writes r -> x < location r \/ location r + 4 <= x) -> mem s' x = mem s x)) /\
  (forall r, r ∈ rs -> resolve lv (m_view kernel) (symbol r) = None -> run = Throw KEY_NOT_FOUND).
Proof.
  intros Him Hok Hk Hl Hn Hsz rs lv run. pose proof Him as [I1 I2 I3 I4].
  assert (HR : ready (mem s) (symbolTable s) (sectionNames s) (stringTable s) P (m_view (localSymbols s)) s) by (by split).
  destruct (symbols_run fuel buffer (mem s) _ _ _ P (Z.to_nat (symbolTableSize s)) 0 _ s I1 I2 ltac:(intros j Hj; apply Hok; lia) HR ltac:(lia)) as (s1 & E1 & HR1 & Hm1).
  rewrite Z2Nat.id in HR1 by done. pose proof (relocate_run fuel buffer kernel _ _ _ _ P lv s1 Him Hk HR1) as H1. fold rs in H1. unfold relocates in H1. rewrite Hm1 in H1.
  assert (Erun : run = relocate fuel buffer kernel s1) by (unfold run, parseSymbolTable; st_step; by rewrite E1). rewrite Erun. split.
  - intros Hsep Hres. destruct (apply_rels_some lv (m_view kernel) rs (mem s) Hres) as [m' Em]. rewrite Em in H1. destruct H1 as (s' & Es' & HR' & <-). exists s'. split_and!; [done|apply HR'| |intros x Hx; by apply (apply_rels_outside _ _ _ _ _ _ Em)].
    intros r a Hr Ha. split; intros Hkind; destruct (apply_rels_inside _ _ _ _ _ _ I1 Hsep Em Hr ltac:(unfold writes; tauto)) as (b & Eb & ->); replace b with a by congruence; unfold patch; rewrite Hkind; [done|].
    cbn [Z.eqb Reloc.R_386_PC32 Reloc.R_386_32 Pos.eqb]. apply u32_sub_l.
  - intros r Hr Hnone. by rewrite (apply_rels_none _ _ _ _ r Hr Hnone) in H1.
Qed.

(** ** A small module *)

(** Two relocations in one section, one with a symbol [f] of the module, one with a symbol [k]
    of the kernel; the file is at 4096. *)
Definition sample_words : list (Z * Z) :=
  [(32, 64); (44, Z.shiftl 40 16); (48, 3);
   (104, 1); (108, 1); (116, 4096 + 256);
   (148, 9); (156, 4096 + 240); (164, 16); (172, 1); (180, 8);
   (208, 1); (212, 8); (220, 0x10010); (224, 3); (236, 0x10);
   (240, 0); (244, 0x101); (248, 4); (252, 0x202);
   (256, 5); (260, 2 ^ 32 - 4); (272, 0x6B006600)].
Definition sample_mem : Mem := foldl (fun m w => store32 m (4096 + fst w) (snd w)) (fun _ => 0) sample_words.
Definition sample_module : ElfModule (HashMap String Z) := mkModule sample_mem new_HashMap new_HashMap (4096 + 192) 3 (4096 + 272) 5 (4096 + 280).
Definition sample_kernel : HashMap String Z := match m_put (str [107]) 9000 new_HashMap with Ret k => k | _ => new_HashMap end.

(** The file without the section that is changed. *)
Definition sample_tables (x : Z) : Prop := 4096 <= x < 4096 + 256 \/ 4096 + 264 <= x < 4096 + 320.

Lemma sample_covers a n : (4096 <=? a) && (a + n <=? 4096 + 256) || (4096 + 264 <=? a) && (a + n <=? 4096 + 320) = true -> covers sample_tables a n.
Proof. intros E x Hx. unfold sample_tables. apply orb_true_iff in E as [E|E]; apply andb_true_iff in E as [?%Z.leb_le ?%Z.leb_le]; lia. Qed.

Lemma sample_named c a : 0 < c < 256 -> sample_mem a = c -> sample_mem (a + 1) = 0 -> covers sample_tables a 2 -> named 9 sample_mem sample_tables a.
Proof.
  intros Hc E1 E2 Ha. exists [c]. split_and!; [split| |exact Ha]; [|exact E2|simpl; lia]. intros [|i] d Hd; [|done]. injection Hd as <-. split; [done|]. simpl. by rewrite Z.add_0_r.
Qed.

Lemma sample_rels : all_rels 9 4096 sample_mem (4096 + 192) (4096 + 280) (4096 + 272) = [mkRel 1 4352 [102]; mkRel 2 4356 [107]].
Proof. vm_compute. reflexivity. Qed.

Lemma sample_symbol j : 0 <= j < 3 -> symbol_ok 9 4096 sample_mem (4096 + 192) (4096 + 272) sample_tables j.
Proof.
  intros Hj. assert (j = 0 \/ j = 1 \/ j = 2) as [-> | [-> | ->]] by lia; split; try (apply sample_covers; vm_compute; reflexivity).
  all: try (intros Hs; exfalso; apply Hs; vm_compute; reflexivity).
  intros _ _. apply (sample_named 102); [lia|vm_compute; reflexivity|vm_compute; reflexivity|apply sample_covers; vm_compute; reflexivity].
Qed.

Lemma sample_section i : 0 <= i < 3 -> section_ok 9 4096 sample_mem (4096 + 192) (4096 + 280) (4096 + 272) sample_tables i.
Proof.
  intros Hi. assert (i = 0 \/ i = 1 \/ i = 2) as [-> | [-> | ->]] by lia; split; try (intros E; vm_compute in E; congruence); try (apply sample_covers; vm_compute; reflexivity).
  - intros _. apply sample_covers. vm_compute. reflexivity.
  - intros _. vm_compute. reflexivity.
  - intros _ j Hj. change (s_size _ _ / s_entrySize _ _) with 2 in Hj. assert (j = 0 \/ j = 1) as [-> | ->] by lia; split; try (apply sample_covers; vm_compute; reflexivity); intros _ _.
    + apply (sample_named 102); [lia|vm_compute; reflexivity|vm_compute; reflexivity|apply sample_covers; vm_compute; reflexivity].
    + apply (sample_named 107); [lia|vm_compute; reflexivity|vm_compute; reflexivity|apply sample_covers; vm_compute; reflexivity].
Qed.

Lemma sample_image : image 9 4096 sample_mem (4096 + 192) (4096 + 280) (4096 + 272) sample_tables.
Proof.
  split; [|apply sample_covers; vm_compute; reflexivity|intros i Hi; change (f_sectionHeaderEntries _ _) with 3 in Hi; by apply sample_section|].
  - unfold sample_mem. generalize sample_words. intros l. assert (H0 : bytes (fun _ : Z => 0)) by (intros x; split; lia). revert H0. generalize (fun _ : Z => 0). induction l as [|w l IH]; intros m Hm; [done|]. apply IH, bytes_store32, Hm.
  - rewrite sample_rels. intros r Hr _ x Hx Hp. unfold sample_tables in Hp. apply elem_of_cons in Hr as [->|Hr]; [cbn in Hx; lia|]. apply list_elem_of_singleton in Hr as ->. cbn in Hx. lia.
Qed.

Lemma sample_separate : separate [mkRel 1 4352 [102]; mkRel 2 4356 [107]].
Proof.
  split; [|split; [|exact I]]; intros _ r' Hr; [|by apply elem_of_nil in Hr]. apply list_elem_of_singleton in Hr as ->. intros _. cbn [location]. lia.
Qed.

Lemma elf_linked_witness : exists s', (_ ← parseSymbolTable 9 4096; relocate 9 4096 sample_kernel) sample_module = Ret (tt, s') /\ load32 (mem s') 4352 = 4365 /\ load32 (mem s') 4356 = 4640 /\ mem s' 4096 = 0.
Proof.
  destruct (hm_inv_new (K:=String) (V:=Z) 47 ltac:(lia)) as [H0 V0].
  assert (Hi0 : m_inv (localSymbols sample_module)) by (split; [exact H0|]; change (hm_view _) with (hm_view (new_HashMap_size (K:=String) (V:=Z) 47)); by rewrite V0, map_size_empty).
  assert (Hv0 : m_view (localSymbols sample_module) = ∅) by exact V0.
  destruct (m_put_spec (localSymbols sample_module) (str [107]) 9000 Hi0) as (k & Ek & Hk & Hkv); [by rewrite Hv0, map_size_empty|].
  assert (Esk : sample_kernel = k) by (unfold sample_kernel; change (new_HashMap) with (localSymbols sample_module); by rewrite Ek). rewrite Esk.
  destruct (elf_linked 9 4096 k sample_tables sample_module sample_image sample_symbol Hk Hi0) as [Hl _]; [simpl; lia|rewrite Hv0, map_size_empty; simpl; lia|].
  cbn [mem symbolTable sectionNames stringTable symbolTableSize sample_module] in Hl. change (4096 + 192) with 4288 in Hl. rewrite Hv0, Hkv, Hv0 in Hl.
  pose proof sample_rels as Er. change (4096 + 192) with 4288 in Er. rewrite Er in Hl. destruct Hl as (s' & Es' & _ & Hr & Hx).
  - exact sample_separate.
  - intros r Hr. apply elem_of_cons in Hr as [->|Hr]; [eexists; vm_compute; reflexivity|]. apply list_elem_of_singleton in Hr as ->. eexists. vm_compute. reflexivity.
  - exists s'. split_and!; [exact Es'| | |].
    + etransitivity; [exact (proj1 (Hr (mkRel 1 4352 [102]) 4360 ltac:(left) ltac:(vm_compute; reflexivity)) eq_refl)|vm_compute; reflexivity].
    + etransitivity; [exact (proj2 (Hr (mkRel 2 4356 [107]) 9000 ltac:(right; left) ltac:(vm_compute; reflexivity)) eq_refl)|vm_compute; reflexivity].
    + rewrite Hx; [vm_compute; reflexivity|]. intros r Hr' _. apply elem_of_cons in Hr' as [->|Hr']; [simpl; lia|]. apply list_elem_of_singleton in Hr' as ->. simpl. lia.
Defined.
