(* ===== verification/Color.v ===== *)
(** * Colours

    [lib/graphic/Color.cpp]: a colour with its four channels, and its value at each
    colour depth, computed on demand and remembered in the object. *)

From S2P Require Import Prelude.

Definition s16 (x : Z) : Z := if u16 x <? 2 ^ 15 then u16 x else u16 x - 2 ^ 16.
Definition s8 (x : Z) : Z := if u8 x <? 2 ^ 7 then u8 x else u8 x - 2 ^ 8.

Record Color := mkColor {
  red : Z; green : Z; blue : Z; alpha : Z;
  rgb32 : Z; rgb24 : Z; rgb16 : Z; rgb15 : Z; rgb8 : Z; rgb4 : Z; rgb2 : Z; rgb1 : Z }.

(** A change of the channels forgets the values that were computed ([invalidate]). *)
Definition invalidated (r g b a : Z) : Color := mkColor r g b a (-1) (-1) (-1) (-1) (-1) (-1) (-1) (-1).
Definition invalidate (c : Color) : Color := invalidated (red c) (green c) (blue c) (alpha c).

Definition new_Color : Color := invalidated 0 0 0 255.
Definition new_Color_rgb (r g b : Z) : Color := invalidated r g b 255.
Definition new_Color_rgba (r g b a : Z) : Color := invalidated r g b a.

(** ** The value at each depth *)

Definition calcRGB32 (c : Color) : Z := u32 (Z.shiftl (alpha c) 24 + Z.shiftl (red c) 16 + Z.shiftl (green c) 8 + blue c).
Definition calcRGB24 (c : Color) : Z := u32 (Z.shiftl (red c) 16 + Z.shiftl (green c) 8 + blue c).
Definition calcRGB16 (c : Color) : Z := u16 (Z.lor (Z.lor (Z.shiftr (blue c) 3) (Z.shiftl (Z.shiftr (green c) 2) 5)) (Z.shiftl (Z.shiftr (red c) 3) 11)).
Definition calcRGB15 (c : Color) : Z := u16 (Z.lor (Z.lor (Z.shiftr (blue c) 3) (Z.shiftl (Z.shiftr (green c) 3) 5)) (Z.shiftl (Z.shiftr (red c) 3) 10)).
Definition calcRGB8 (c : Color) : Z := u8 (Z.lor (Z.lor (Z.shiftr (blue c) 6) (Z.shiftl (Z.shiftr (green c) 5) 2)) (Z.shiftl (Z.shiftr (red c) 5) 5)).
Definition calcRGB4 (c : Color) : Z :=
  let ret := u8 (Z.lor (Z.lor (Z.shiftr (blue c) 7) (Z.shiftl (Z.shiftr (green c) 7) 1)) (Z.shiftl (Z.shiftr (red c) 7) 2)) in
  let brightness := u16 ((red c + green c + blue c) / 3) in
  if (ret =? 0) && (42 <? brightness) then u8 (ret + 8)
  else if (ret =? 7) && (brightness <? 212) then ret
  else if 127 <? brightness then u8 (ret + 8)
  else ret.
Definition calcRGB2 (c : Color) : Z :=
  let r := negb (Z.shiftr (red c) 7 =? 0) in
  let g := negb (Z.shiftr (green c) 7 =? 0) in
  let b := negb (Z.shiftr (blue c) 7 =? 0) in
  if negb b && negb g && negb r then 0
  else if (b || g) && negb r then 1
  else if (b || r) && negb g then 2
  else 3.
Definition calcRGB1 (c : Color) : Z :=
  if negb (Z.shiftr (red c) 7 =? 0) || negb (Z.shiftr (green c) 7 =? 0) || negb (Z.shiftr (blue c) 7 =? 0) then 1 else 0.

(** ** Changes *)

Definition setRed (r : Z) (c : Color) : Color := invalidated r (green c) (blue c) (alpha c).
Definition setGreen (g : Z) (c : Color) : Color := invalidated (red c) g (blue c) (alpha c).
Definition setBlue (b : Z) (c : Color) : Color := invalidated (red c) (green c) b (alpha c).
Definition setAlpha (a : Z) (c : Color) : Color := invalidated (red c) (green c) (blue c) a.
Definition setRGB_channels (r g b : Z) (c : Color) : Color := invalidated r g b (alpha c).

(** The fourth argument is not used. *)
Definition setRGBA (r g b a : Z) (c : Color) : Color := invalidated r g b 0.

Definition setRGB32 (rgba : Z) (c : Color) : Color :=
  invalidated (u8 (Z.shiftr rgba 16)) (u8 (Z.shiftr (Z.land rgba 65280) 8)) (u8 (Z.land rgba 255)) (u8 (Z.shiftr rgba 24)).
Definition setRGB24 (rgb : Z) (c : Color) : Color :=
  invalidated (u8 (Z.shiftr rgb 16)) (u8 (Z.shiftr (Z.land rgb 65280) 8)) (u8 (Z.land rgb 255)) 255.
Definition setRGB16 (rgb : Z) (c : Color) : Color :=
  invalidated (u8 (Z.shiftr rgb 11 * (256 / 32))) (u8 (Z.shiftr (Z.land rgb 2016) 5 * (256 / 64))) (u8 (Z.land rgb 31 * (256 / 32))) 255.
Definition setRGB15 (rgb : Z) (c : Color) : Color :=
  invalidated (u8 (Z.shiftr rgb 10 * (256 / 32))) (u8 (Z.shiftr (Z.land rgb 992) 5 * (256 / 32))) (u8 (Z.land rgb 31 * (256 / 32))) 255.
Definition setRGB8 (rgb : Z) (c : Color) : Color :=
  invalidated (u8 (Z.shiftr rgb 5 * (256 / 8))) (u8 (Z.shiftr (Z.land rgb 28) 2 * (256 / 8))) (u8 (Z.land rgb 3 * (256 / 4))) 255.
Definition setRGB4 (rgb : Z) (c : Color) : Color :=
  if negb (Z.land rgb 8 =? 0) then invalidated 85 85 85 255
  else invalidated (if Z.land rgb 4 =? 0 then 0 else 170) (if Z.land rgb 2 =? 0 then 0 else 170) (if Z.land rgb 1 =? 0 then 0 else 170) 255.
Definition setRGB2 (rgb : Z) (c : Color) : Color :=
  invalidated (if Z.land rgb 2 =? 0 then 0 else 170) (if Z.land rgb 1 =? 0 then 0 else 170) (if Z.lor (Z.land rgb 1) (Z.land rgb 2) =? 0 then 0 else 170) 255.
Definition setRGB1 (rgb : Z) (c : Color) : Color := let v := if rgb =? 0 then 0 else 255 in invalidated v v v 255.

(** [Color(rgb, depth)] *)
Definition new_Color_depth (rgb depth : Z) : Color :=
  let c := invalidated 0 0 0 255 in
  if depth =? 32 then setRGB32 rgb c
  else if depth =? 24 then setRGB24 rgb c
  else if depth =? 16 then setRGB16 (u16 rgb) c
  else if depth =? 15 then setRGB15 (u16 rgb) c
  else if depth =? 8 then setRGB8 (u8 rgb) c
  else if depth =? 4 then setRGB4 (u8 rgb) c
  else if depth =? 2 then setRGB2 (u8 rgb) c
  else if depth =? 1 then setRGB1 (u8 rgb) c
  else setRGB32 rgb c.

(** [setRGB(rgb, depth)]; the case of 32 bits falls through to that of 24. *)
Definition setRGB (rgb depth : Z) (c : Color) : Color :=
  if depth =? 32 then setRGB24 rgb (setRGB32 rgb c)
  else if depth =? 24 then setRGB24 rgb c
  else if depth =? 16 then setRGB16 (u16 rgb) c
  else if depth =? 15 then setRGB15 (u16 rgb) c
  else if depth =? 8 then setRGB8 (u8 rgb) c
  else if depth =? 4 then setRGB4 (u8 rgb) c
  else if depth =? 2 then setRGB2 (u8 rgb) c
  else if depth =? 1 then setRGB1 (u8 rgb) c
  else setRGB32 rgb c.

(** ** Values on demand *)

Definition with32 v c := mkColor (red c) (green c) (blue c) (alpha c) v (rgb24 c) (rgb16 c) (rgb15 c) (rgb8 c) (rgb4 c) (rgb2 c) (rgb1 c).
Definition with24 v c := mkColor (red c) (green c) (blue c) (alpha c) (rgb32 c) v (rgb16 c) (rgb15 c) (rgb8 c) (rgb4 c) (rgb2 c) (rgb1 c).
Definition with16 v c := mkColor (red c) (green c) (blue c) (alpha c) (rgb32 c) (rgb24 c) v (rgb15 c) (rgb8 c) (rgb4 c) (rgb2 c) (rgb1 c).
Definition with15 v c := mkColor (red c) (green c) (blue c) (alpha c) (rgb32 c) (rgb24 c) (rgb16 c) v (rgb8 c) (rgb4 c) (rgb2 c) (rgb1 c).
Definition with8 v c := mkColor (red c) (green c) (blue c) (alpha c) (rgb32 c) (rgb24 c) (rgb16 c) (rgb15 c) v (rgb4 c) (rgb2 c) (rgb1 c).
Definition with4 v c := mkColor (red c) (green c) (blue c) (alpha c) (rgb32 c) (rgb24 c) (rgb16 c) (rgb15 c) (rgb8 c) v (rgb2 c) (rgb1 c).
Definition with2 v c := mkColor (red c) (green c) (blue c) (alpha c) (rgb32 c) (rgb24 c) (rgb16 c) (rgb15 c) (rgb8 c) (rgb4 c) v (rgb1 c).
Definition with1 v c := mkColor (red c) (green c) (blue c) (alpha c) (rgb32 c) (rgb24 c) (rgb16 c) (rgb15 c) (rgb8 c) (rgb4 c) (rgb2 c) v.

(** The members are signed; -1 stands for a value that is not known. *)
Definition getRGB32 (c : Color) : Z * Color := let c := if rgb32 c =? -1 then with32 (s32 (calcRGB32 c)) c else c in (u32 (rgb32 c), c).
Definition getRGB24 (c : Color) : Z * Color := let c := if rgb24 c =? -1 then with24 (s32 (calcRGB24 c)) c else c in (u32 (rgb24 c), c).
Definition getRGB16 (c : Color) : Z * Color := let c := if rgb16 c =? -1 then with16 (s16 (calcRGB16 c)) c else c in (u16 (rgb16 c), c).
Definition getRGB15 (c : Color) : Z * Color := let c := if rgb15 c =? -1 then with15 (s16 (calcRGB15 c)) c else c in (u16 (rgb15 c), c).
Definition getRGB8 (c : Color) : Z * Color := let c := if rgb8 c =? -1 then with8 (s8 (calcRGB8 c)) c else c in (u8 (rgb8 c), c).
Definition getRGB4 (c : Color) : Z * Color := let c := if rgb4 c =? -1 then with4 (s8 (calcRGB4 c)) c else c in (u8 (rgb4 c), c).
Definition getRGB2 (c : Color) : Z * Color := let c := if rgb2 c =? -1 then with2 (s8 (calcRGB2 c)) c else c in (u8 (rgb2 c), c).
Definition getRGB1 (c : Color) : Z * Color := let c := if rgb1 c =? -1 then with1 (s8 (calcRGB1 c)) c else c in (u8 (rgb1 c), c).

Definition getColorForDepth (depth : Z) (c : Color) : Z * Color :=
  if depth =? 32 then getRGB32 c
  else if depth =? 24 then getRGB24 c
  else if depth =? 16 then getRGB16 c
  else if depth =? 15 then getRGB15 c
  else if depth =? 8 then getRGB8 c
  else if depth =? 4 then getRGB4 c
  else if depth =? 2 then getRGB2 c
  else if depth =? 1 then getRGB1 c
  else getRGB32 c.

(** ** Blending *)

(** The mixture of two translucent colours is computed in floating point on a unit whose
    intermediate precision the compiler chooses: [mix] gives a channel of the result (from the
    alpha and the channel of the colour on top and of the one below), [mix_alpha] its alpha. *)
Section Blending.
Context (mix : Z -> Z -> Z -> Z -> Z) (mix_alpha : Z -> Z -> Z).

Definition blendWith (color c : Color) : Color :=
  if alpha color =? 0 then c
  else if (alpha c =? 0) || (alpha color =? 255) then invalidated (red color) (green color) (blue color) (alpha color)
  else
    let m x y := u8 (mix (alpha color) x (alpha c) y) in
    invalidated (m (red color) (red c)) (m (green color) (green c)) (m (blue color) (blue c)) (u8 (mix_alpha (alpha color) (alpha c))).
End Blending.

(** ** What is remembered is right *)

Definition value_at (depth : Z) (c : Color) : Z :=
  if depth =? 32 then calcRGB32 c
  else if depth =? 24 then calcRGB24 c
  else if depth =? 16 then calcRGB16 c
  else if depth =? 15 then calcRGB15 c
  else if depth =? 8 then calcRGB8 c
  else if depth =? 4 then calcRGB4 c
  else if depth =? 2 then calcRGB2 c
  else if depth =? 1 then calcRGB1 c
  else calcRGB32 c.

Definition known (v computed : Z) : Prop := v = -1 \/ v = computed.

Record coherent (c : Color) : Prop := {
  co_32 : known (rgb32 c) (s32 (calcRGB32 c)); co_24 : known (rgb24 c) (s32 (calcRGB24 c));
  co_16 : known (rgb16 c) (s16 (calcRGB16 c)); co_15 : known (rgb15 c) (s16 (calcRGB15 c));
  co_8 : known (rgb8 c) (s8 (calcRGB8 c)); co_4 : known (rgb4 c) (s8 (calcRGB4 c));
  co_2 : known (rgb2 c) (s8 (calcRGB2 c)); co_1 : known (rgb1 c) (s8 (calcRGB1 c)) }.

Definition same_channels (c c' : Color) : Prop := red c' = red c /\ green c' = green c /\ blue c' = blue c /\ alpha c' = alpha c.

Lemma coherent_invalidated r g b a : coherent (invalidated r g b a).
Proof. split; by left. Qed.

Lemma u32_s32 x : u32 (s32 x) = u32 x.
Proof. unfold s32. cbv zeta. destruct (Z.ltb_spec (u32 x) (2 ^ 31)); [apply u32_idemp|]. unfold u32. rewrite Zminus_mod, Z_mod_same_full, Z.sub_0_r, !Zmod_mod. done. Qed.
Lemma u16_s16 x : u16 (s16 x) = u16 x.
Proof. unfold s16. destruct (Z.ltb_spec (u16 x) (2 ^ 15)); unfold u16; [apply Zmod_mod|]. rewrite Zminus_mod, Z_mod_same_full, Z.sub_0_r, !Zmod_mod. done. Qed.
Lemma u8_s8 x : u8 (s8 x) = u8 x.
Proof. unfold s8. destruct (Z.ltb_spec (u8 x) (2 ^ 7)); unfold u8; [apply Zmod_mod|]. rewrite Zminus_mod, Z_mod_same_full, Z.sub_0_r, !Zmod_mod. done. Qed.

Lemma u16_idemp x : u16 (u16 x) = u16 x.
Proof. apply Zmod_mod. Qed.
Lemma u8_idemp x : u8 (u8 x) = u8 x.
Proof. apply Zmod_mod. Qed.

Lemma small_values c : u8 (calcRGB4 c) = calcRGB4 c /\ u8 (calcRGB2 c) = calcRGB2 c /\ u8 (calcRGB1 c) = calcRGB1 c.
Proof.
  split_and!.
  - unfold calcRGB4. cbv zeta. repeat case_match; apply u8_idemp.
  - unfold calcRGB2. by repeat case_match.
  - unfold calcRGB1. by case_match.
Qed.

(** Asking for a value returns it and changes no channel. *)
Lemma getColorForDepth_run depth c : coherent c -> exists c', getColorForDepth depth c = (value_at depth c, c') /\ coherent c' /\ same_channels c c'.
Proof.
  intros [H32 H24 H16 H15 H8 H4 H2 H1]. destruct (small_values c) as (E4 & E2 & E1). unfold getColorForDepth, value_at.
  assert (Hsame : same_channels c c) by done. assert (Hc : coherent c) by done.
  repeat case_match; unfold getRGB32, getRGB24, getRGB16, getRGB15, getRGB8, getRGB4, getRGB2, getRGB1.
  all: match goal with |- context [if ?v =? -1 then _ else _] => destruct (Z.eqb_spec v (-1)) as [E|E] end.
  all: eexists; split; [f_equal|split; [try exact Hc|try exact Hsame; done]].
  all: cbn [rgb32 rgb24 rgb16 rgb15 rgb8 rgb4 rgb2 rgb1 with32 with24 with16 with15 with8 with4 with2 with1].
  all: try (match goal with H : known ?v _, N : ?v <> -1 |- context [?v] => destruct H as [H| ->]; [done|] end).
  all: try (rewrite ?u32_s32, ?u16_s16, ?u8_s8; first [done | apply u32_idemp | apply u16_idemp | apply u8_idemp]).
  all: split; first [done | by right].
Qed.

(** ** Requests in any order *)

Inductive request := RRed (v : Z) | RGreen (v : Z) | RBlue (v : Z) | RAlpha (v : Z) | RChannels (r g b : Z) | RSet (rgb depth : Z) | RBlend (color : Color) | RGet (depth : Z).

Section Requests.
Context (mix : Z -> Z -> Z -> Z -> Z) (mix_alpha : Z -> Z -> Z).

Definition serve (q : request) (c : Color) : list Z * Color :=
  match q with
  | RRed v => ([], setRed v c)
  | RGreen v => ([], setGreen v c)
  | RBlue v => ([], setBlue v c)
  | RAlpha v => ([], setAlpha v c)
  | RChannels r g b => ([], setRGB_channels r g b c)
  | RSet rgb depth => ([], setRGB rgb depth c)
  | RBlend color => ([], blendWith mix mix_alpha color c)
  | RGet depth => let '(v, c) := getColorForDepth depth c in ([v], c)
  end.

Fixpoint serve_all (qs : list request) (c : Color) : list Z :=
  match qs with [] => [] | q :: qs => let '(out, c) := serve q c in out ++ serve_all qs c end.

(** The same with nothing remembered. *)
Fixpoint answers (qs : list request) (c : Color) : list Z :=
  match qs with
  | [] => []
  | RGet depth :: qs => value_at depth c :: answers qs c
  | q :: qs => answers qs (invalidate (snd (serve q c)))
  end.

Definition same_colour (c c' : Color) : Prop := coherent c /\ coherent c' /\ same_channels c c'.

Lemma same_value depth c c' : same_channels c c' -> value_at depth c = value_at depth c'.
Proof. intros (E1 & E2 & E3 & E4). unfold value_at, calcRGB32, calcRGB24, calcRGB16, calcRGB15, calcRGB8, calcRGB4, calcRGB2, calcRGB1. by rewrite E1, E2, E3, E4. Qed.

Lemma serve_same q c c' : same_colour c c' -> match q with RGet _ => True | _ => same_colour (snd (serve q c)) (invalidate (snd (serve q c'))) /\ fst (serve q c) = [] end.
Proof.
  intros (Hc & Hc' & (E1 & E2 & E3 & E4)). destruct q as [v|v|v|v|r g b|rgb depth|color|depth]; [..|done]; (split; [|done]); cbn [serve snd].
  1-5: split_and!; [apply coherent_invalidated|apply coherent_invalidated|]; unfold same_channels; cbn; by rewrite ?E1, ?E2, ?E3, ?E4.
  - unfold setRGB. repeat case_match; split_and!; first [apply coherent_invalidated | unfold setRGB4, invalidate; repeat case_match; first [apply coherent_invalidated | done] | done].
  - unfold blendWith. rewrite E4. repeat case_match; split_and!; first [done | apply coherent_invalidated | unfold same_channels; cbn; by rewrite ?E1, ?E2, ?E3, ?E4].
Qed.

(** Remembering the values of a colour does not show: any sequence of changes and questions is answered as if every value were computed anew. *)
Theorem color_values_remembered qs c : coherent c -> serve_all qs c = answers qs c.
Proof.
  intros Hc. assert (Hs : same_colour c c) by done. revert Hs. generalize c at 2 4 as c'. clear Hc. revert c. induction qs as [|q qs IH]; intros c c' Hs; [done|].
  pose proof (serve_same q c c' Hs) as H1. destruct q as [v|v|v|v|r g b|rgb depth|color|depth].
  8: { destruct Hs as (Hc & Hc' & Hch). cbn [serve_all serve answers]. destruct (getColorForDepth_run depth c Hc) as (c1 & -> & Hc1 & E1 & E2 & E3 & E4). cbn [app]. f_equal; [by apply same_value|].
       apply IH. split_and!; [done|done|]. destruct Hch as (F1 & F2 & F3 & F4). unfold same_channels. split_and!; congruence. }
  all: destruct H1 as [H1 _]; cbn [serve_all serve answers app]; by apply IH.
Qed.
End Requests.

(** ** Colours of a depth *)

(** The colour of a value has this value again, for [n] values from [v] on. *)
Fixpoint restores (depth : Z) (n : nat) (v : Z) : bool :=
  match n with O => true | S n => (value_at depth (new_Color_depth v depth) =? v) && restores depth n (v + 1) end.

Lemma restores_all depth n v0 v : restores depth n v0 = true -> v0 <= v < v0 + Z.of_nat n -> value_at depth (new_Color_depth v depth) = v.
Proof.
  revert v0. induction n as [|n IH]; intros v0 H Hv; [lia|]. cbn [restores] in H. apply andb_true_iff in H as [H1%Z.eqb_eq H2]. destruct (decide (v = v0)) as [->|Hne]; [done|]. apply (IH (v0 + 1)); [done|lia].
Qed.

Lemma byte_bits v k : 0 <= k -> u8 (Z.shiftr (Z.land v (Z.shiftl 255 k)) k) = u8 (v / 2 ^ k).
Proof.
  intros Hk. rewrite Z.shiftr_land, Z.shiftr_shiftl_l, Z.sub_diag, Z.shiftl_0_r by lia. change 255 with (Z.ones 8). rewrite Z.land_ones, Z.shiftr_div_pow2 by lia. apply u8_idemp.
Qed.

Lemma channels_of v : u8 (Z.shiftr v 16) = v / 2 ^ 16 mod 2 ^ 8 /\ u8 (Z.shiftr (Z.land v 65280) 8) = v / 2 ^ 8 mod 2 ^ 8 /\ u8 (Z.land v 255) = v mod 2 ^ 8 /\ u8 (Z.shiftr v 24) = v / 2 ^ 24 mod 2 ^ 8.
Proof.
  split_and!; [by rewrite Z.shiftr_div_pow2 by lia|exact (byte_bits v 8 ltac:(lia))| |by rewrite Z.shiftr_div_pow2 by lia].
  change 255 with (Z.ones 8). rewrite Z.land_ones by lia. apply u8_idemp.
Qed.

Lemma restores_deep v : (0 <= v < 2 ^ 32 -> value_at 32 (new_Color_depth v 32) = v) /\ (0 <= v < 2 ^ 24 -> value_at 24 (new_Color_depth v 24) = v).
Proof.
  destruct (channels_of v) as (Er & Eg & Eb & Ea). split; intros Hv; unfold value_at, new_Color_depth; cbn [Z.eqb Pos.eqb]; unfold setRGB32, setRGB24, calcRGB32, calcRGB24; cbn [red green blue alpha invalidated];
    rewrite Er, Eg, Eb, ?Ea, !Z.shiftl_mul_pow2 by lia; unfold u32; rewrite Z.mod_small; Z.div_mod_to_equations; lia.
Qed.

(** Colours of a depth are restored: the colour made from a value of 32, 24, 16, 15, 8, 2 or
    1 bits, or from one of the first nine values of four bits, has this value at this depth. *)
Theorem color_depth_roundtrip depth v : (depth ∈ [32; 24; 16; 15; 8; 2; 1] /\ 0 <= v < 2 ^ depth) \/ (depth = 4 /\ 0 <= v <= 8) ->
  fst (getColorForDepth depth (new_Color_depth v depth)) = v.
Proof.
  intros H. assert (Hc : coherent (new_Color_depth v depth)) by (unfold new_Color_depth; repeat case_match; try apply coherent_invalidated; unfold setRGB4; case_match; apply coherent_invalidated).
  destruct (getColorForDepth_run depth _ Hc) as (c' & -> & _). cbn [fst]. destruct H as [[Hd Hv]|[-> Hv]]; [|apply (restores_all 4 9 0); [by vm_compute|lia]].
  destruct (restores_deep v) as [R32 R24].
  apply elem_of_cons in Hd as [->|Hd]; [exact (R32 Hv)|]. apply elem_of_cons in Hd as [->|Hd]; [exact (R24 Hv)|].
  repeat (apply elem_of_cons in Hd as [->|Hd]; [match type of Hv with _ <= _ < ?n => apply (restores_all _ (Z.to_nat n) 0); [vm_compute; reflexivity|lia] end|]). by apply elem_of_nil in Hd.
Qed.

Lemma color_depth_roundtrip_witness : fst (getColorForDepth 16 (new_Color_depth 0xF81F 16)) = 0xF81F /\ fst (getColorForDepth 4 (new_Color_depth 6 4)) = 6.
Proof. split; apply color_depth_roundtrip; [left; split; [set_solver|lia]|right; lia]. Defined.

(** ** Deviations *)

(** The bright colours of four bits all become grey. *)
Theorem bright_colours_lost v : 8 <= v < 16 -> value_at 4 (new_Color_depth v 4) = 8.
Proof. intros Hv. assert (Hin : v ∈ seqZ 8 8) by (apply elem_of_seqZ; lia). clear Hv. revert v Hin. apply Forall_forall. repeat (constructor; [reflexivity|]). constructor. Qed.

(** [setRGBA] makes a colour transparent, whatever the alpha it is given. *)
Theorem setRGBA_transparent r g b a c : alpha (setRGBA r g b a c) = 0.
Proof. reflexivity. Qed.

(** [setRGB] loses the alpha of a value of 32 bits. *)
Theorem setRGB_loses_alpha rgb c : alpha (setRGB rgb 32 c) = 255.
Proof. reflexivity. Qed.
