(* ===== verification/Framebuffer.v ===== *)
(** * The linear frame buffer

    [device/graphic/lfb/LinearFrameBuffer.cpp] and the fonts' layout
    ([device/graphic/text/fonts/Fonts.h]): pixels in memory, lines, rectangles, circles,
    bitmaps and text drawn with them, double buffering and the choice of a resolution. *)

From S2P Require Import Prelude Memory CString Color.

Record LinearFrameBuffer := mkLfb {
  xres : Z; yres : Z; bpp : Z; pitch : Z; doubleBuffered : bool; doubleBuffer : Z; hardwareBuffer : Z; mem : Mem }.

Definition new_LinearFrameBuffer (address xres yres bpp pitch : Z) (m : Mem) : LinearFrameBuffer := mkLfb xres yres bpp pitch false 0 address m.

Definition set_mem (m : Mem) (s : LinearFrameBuffer) : LinearFrameBuffer :=
  mkLfb (xres s) (yres s) (bpp s) (pitch s) (doubleBuffered s) (doubleBuffer s) (hardwareBuffer s) m.

(** ** Pixels *)

(** Pixels of 15 bits take two bytes. *)
Definition depth_bits (s : LinearFrameBuffer) : Z := u8 (if bpp s =? 15 then 16 else bpp s).
(** The size of a pixel in bytes. *)
Definition width_of (s : LinearFrameBuffer) : Z := depth_bits s / 8.
Definition base (s : LinearFrameBuffer) : Z := if doubleBuffered s then doubleBuffer s else hardwareBuffer s.
Definition ptr (s : LinearFrameBuffer) (x y : Z) : Z := base s + x * width_of s + y * pitch s.

Definition readPixel (x y : Z) (color : Color) (s : LinearFrameBuffer) : Color :=
  if (xres s - 1 <? x) || (yres s - 1 <? y) then color
  else setRGB (load32 (mem s) (ptr s x y)) (bpp s) color.

Section Drawing.
Context (mix : Z -> Z -> Z -> Z -> Z) (mix_alpha : Z -> Z -> Z).

(** The bytes of a pixel, the lowest first. *)
Definition write_pixel (rgbColor n p : Z) (m : Mem) : Mem :=
  upto (Z.to_nat n) 0 (fun i m => store8 m (p + i) (u8 (Z.land (Z.shiftr rgbColor (i * 8)) 0xff))) m.

Definition drawPixel (x y : Z) (color : Color) (s : LinearFrameBuffer) : LinearFrameBuffer :=
  if (xres s - 1 <? x) || (yres s - 1 <? y) then s
  else if alpha color =? 0 then s
  else
    let color := if alpha color <? 255 then blendWith mix mix_alpha color (readPixel x y new_Color s) else color in
    let rgbColor := fst (getColorForDepth (bpp s) color) in
    set_mem (write_pixel rgbColor (width_of s) (ptr s x y) (mem s)) s.

(** ** Lines *)

(** [for (int i = 0; i <= dy; i++)] of a vertical line. *)
Fixpoint vertical_loop (n : nat) (x1 y1 slope : Z) (color : Color) (s : LinearFrameBuffer) : LinearFrameBuffer :=
  match n with
  | O => s
  | S n => vertical_loop n x1 (u16 (y1 + slope)) slope color (drawPixel x1 y1 color s)
  end.

(** [for (x = x1; x <= x2; x++)]; the counter has 16 bits, so that a loop that runs longer than [line_fuel] never ends. *)
Fixpoint line_loop (fuel : nat) (x x2 y d incE incNE slope : Z) (color : Color) (s : LinearFrameBuffer) : outcome LinearFrameBuffer :=
  match fuel with
  | O => Diverge
  | S fuel =>
      if x <=? x2 then
        let s := drawPixel x y color s in
        if 0 <? d then line_loop fuel (u16 (x + 1)) x2 (u16 (y + slope)) (s16 (d + incNE)) incE incNE slope color s
        else line_loop fuel (u16 (x + 1)) x2 y (s16 (d + incE)) incE incNE slope color s
      else Ret s
  end.

Definition line_fuel : nat := Z.to_nat (2 ^ 16 + 1).

(** The end points in order. *)
Definition line (x1 y1 x2 y2 : Z) (color : Color) (s : LinearFrameBuffer) : outcome LinearFrameBuffer :=
  let dx := s16 (x2 - x1) in
  let dy := s16 (y2 - y1) in
  let '(slope, dy) := if dy <? 0 then (-1, s16 (- dy)) else (1, dy) in
  if dx =? 0 then Ret (vertical_loop (Z.to_nat (dy + 1)) x1 y1 slope color s)
  else
    let d := s16 (2 * dy - dx) in
    let incE := s16 (2 * dy) in
    let incNE := s16 (2 * (dy - dx)) in
    line_loop line_fuel x1 x2 y1 d incE incNE slope color s.

Definition drawLine (x1 y1 x2 y2 : Z) (color : Color) (s : LinearFrameBuffer) : outcome LinearFrameBuffer :=
  if x2 <? x1 then line x2 y2 x1 y1 color s else line x1 y1 x2 y2 color s.

(** ** Shapes *)

Definition drawRect (x y width height : Z) (color : Color) (s : LinearFrameBuffer) : outcome LinearFrameBuffer :=
  s ← drawLine x y (u16 (x + width)) y color s;
  s ← drawLine (u16 (x + width)) y (u16 (x + width)) (u16 (y + height)) color s;
  s ← drawLine (u16 (x + width)) (u16 (y + height)) x (u16 (y + height)) color s;
  drawLine x (u16 (y + height)) x y color s.

Fixpoint fill_loop (fuel : nat) (x width i last : Z) (color : Color) (s : LinearFrameBuffer) : outcome LinearFrameBuffer :=
  match fuel with
  | O => Diverge
  | S fuel =>
      if i <=? last then s ← drawLine x i (u16 (x + width)) i color s; fill_loop fuel x width (u16 (i + 1)) last color s
      else Ret s
  end.

Definition fillRect (x y width height : Z) (color : Color) (s : LinearFrameBuffer) : outcome LinearFrameBuffer :=
  fill_loop line_fuel x width y (y + height) color s.

(** [for (uint16_t i = from; i <= to; i++)] with two rows. *)
Fixpoint rows_loop (fuel : nat) (i last ya yb : Z) (color : Color) (s : LinearFrameBuffer) : outcome LinearFrameBuffer :=
  match fuel with
  | O => Diverge
  | S fuel =>
      if i <=? last then rows_loop fuel (u16 (i + 1)) last ya yb color (drawPixel i yb color (drawPixel i ya color s))
      else Ret s
  end.

Fixpoint circle_loop (fuel : nat) (x0 y0 x y xChange yChange radiusError : Z) (color : Color) (s : LinearFrameBuffer) : outcome LinearFrameBuffer :=
  match fuel with
  | O => Diverge
  | S fuel =>
      if y <=? x then
        s ← rows_loop line_fuel (u16 (x0 - x)) (x0 + x) (u16 (y0 + y)) (u16 (y0 - y)) color s;
        s ← rows_loop line_fuel (u16 (x0 - y)) (x0 + y) (u16 (y0 + x)) (u16 (y0 - x)) color s;
        let y := s16 (y + 1) in
        let radiusError := s16 (radiusError + yChange) in
        let yChange := s16 (yChange + 2) in
        if 0 <? 2 * radiusError + xChange
        then circle_loop fuel x0 y0 (s16 (x - 1)) y (s16 (xChange + 2)) yChange (s16 (radiusError + xChange)) color s
        else circle_loop fuel x0 y0 x y xChange yChange radiusError color s
      else Ret s
  end.

Definition fillCircle (x0 y0 r : Z) (color : Color) (s : LinearFrameBuffer) : outcome LinearFrameBuffer :=
  circle_loop line_fuel x0 y0 (s16 r) 0 (s16 (1 - Z.shiftl r 1)) 0 0 color s.

(** ** Bitmaps and text *)

(** The eight pixels of a byte, the highest bit first. *)
Fixpoint bit_loop (n : nat) (bitmap xpos ypos : Z) (fg bg : Color) (s : LinearFrameBuffer) : LinearFrameBuffer :=
  match n with
  | O => s
  | S n =>
      let s := drawPixel xpos ypos (if negb (Z.land (Z.shiftl 1 (Z.of_nat n)) (load8 (mem s) bitmap) =? 0) then fg else bg) s in
      bit_loop n bitmap (u16 (xpos + 1)) ypos fg bg s
  end.

(** A row: [bitmap++] after every byte, [xpos++] after every pixel. *)
Definition byte_loop (n : nat) (bitmap xpos ypos : Z) (fg bg : Color) (s : LinearFrameBuffer) : LinearFrameBuffer :=
  upto n 0 (fun k s => bit_loop 8 (bitmap + k) (u16 (xpos + 8 * k)) ypos fg bg s) s.

Definition width_in_bytes (width : Z) : Z := u16 (width / 8 + (if negb (width mod 8 =? 0) then 1 else 0)).

Definition drawMonoBitmap (x y width height : Z) (fg bg : Color) (bitmap : Z) (s : LinearFrameBuffer) : LinearFrameBuffer :=
  upto (Z.to_nat height) 0 (fun yoff s => byte_loop (Z.to_nat (width_in_bytes width)) (bitmap + yoff * width_in_bytes width) x (u16 (y + yoff)) fg bg s) s.

Record Font := mkFont { char_width : Z; char_height : Z; font_data : Z }.
Definition char_mem_size (f : Font) : Z := u8 ((char_width f + 4) / 8 * char_height f).
Definition getChar (f : Font) (c : Z) : Z := font_data f + char_mem_size f * c.

Definition drawChar (f : Font) (x y c : Z) (fg bg : Color) (s : LinearFrameBuffer) : LinearFrameBuffer :=
  drawMonoBitmap x y (char_width f) (char_height f) fg bg (getChar f c) (drawMonoBitmap x y (char_width f) (char_height f) fg bg (getChar f 32) s).

(** [for (i = 0; s[i] != 0; ++i)] over a string in memory; [put] draws a character. *)
Fixpoint text_loop (fuel : nat) (put : Z -> Z -> LinearFrameBuffer -> LinearFrameBuffer) (f : Font) (x text : Z) (s : LinearFrameBuffer) : outcome LinearFrameBuffer :=
  match fuel with
  | O => Diverge
  | S fuel =>
      let c := load8 (mem s) text in
      if c =? 0 then Ret s else text_loop fuel put f (u16 (x + char_width f)) (text + 1) (put x c s)
  end.

Definition drawString (fuel : nat) (f : Font) (x y text : Z) (fg bg : Color) (s : LinearFrameBuffer) : outcome LinearFrameBuffer :=
  text_loop fuel (fun x c => drawChar f x y c fg bg) f x text s.

(** A pixel of a sprite: alpha, blue, green and red from the highest byte on. *)
Definition sprite_color (pixel : Z) : Color :=
  new_Color_rgba (u8 (Z.land pixel 255)) (u8 (Z.shiftr (Z.land pixel 65280) 8)) (u8 (Z.shiftr (Z.land pixel 16711680) 16)) (u8 (Z.shiftr pixel 24)).

Definition drawSprite (xPos yPos width height data : Z) (s : LinearFrameBuffer) : LinearFrameBuffer :=
  let yh := u16 (yPos + height) in
  let xw := u16 (xPos + width) in
  upto (Z.to_nat (yh - yPos)) 0 (fun j s =>
    upto (Z.to_nat (xw - xPos)) 0 (fun i s =>
      if (xres s <=? xPos + i) || (yres s <=? yPos + j) then s
      else drawPixel (xPos + i) (yPos + j) (sprite_color (load32 (mem s) (data + 4 * (i + j * width)))) s) s) s.

(** ** Positions in per cent *)

Definition per_cent (res p : Z) : Z := Z.quot (s32 (res * p)) 100.

Definition placeLine (x1_p y1_p x2_p y2_p : Z) (color : Color) (s : LinearFrameBuffer) : outcome LinearFrameBuffer :=
  drawLine (u16 (per_cent (xres s) x1_p)) (u16 (per_cent (yres s) y1_p)) (u16 (per_cent (xres s) x2_p)) (u16 (per_cent (yres s) y2_p)) color s.

Definition placeRect (x_p y_p width_p height_p : Z) (color : Color) (s : LinearFrameBuffer) : outcome LinearFrameBuffer :=
  let width := u16 (per_cent (xres s) width_p) in
  let height := u16 (per_cent (yres s) height_p) in
  drawRect (u16 (per_cent (xres s) x_p - width / 2)) (u16 (per_cent (yres s) y_p - height / 2)) width height color s.

Definition placeFilledRect (x_p y_p width_p height_p : Z) (color : Color) (s : LinearFrameBuffer) : outcome LinearFrameBuffer :=
  fillRect (u16 (per_cent (xres s) x_p)) (u16 (per_cent (yres s) y_p)) (u16 (per_cent (xres s) width_p)) (u16 (per_cent (yres s) height_p)) color s.

Definition placeFilledCircle (x_p y_p r_p : Z) (color : Color) (s : LinearFrameBuffer) : outcome LinearFrameBuffer :=
  fillCircle (u16 (per_cent (xres s) x_p)) (u16 (per_cent (yres s) y_p)) (u16 (per_cent (if yres s <? xres s then yres s else xres s) r_p)) color s.

Definition placeString (fuel : nat) (f : Font) (x_p y_p text : Z) (fg bg : Color) (s : LinearFrameBuffer) : outcome LinearFrameBuffer :=
  n ← strlen fuel (mem s) text;
  let y := u16 (per_cent (yres s) y_p - char_height f / 2) in
  let x := u16 (per_cent (xres s) x_p - u32 (char_width f * n) / 2) in
  text_loop fuel (fun x c => drawMonoBitmap x y (char_width f) (char_height f) fg bg (getChar f c)) f x text s.

Definition placeSprite (x_p y_p width height data : Z) (s : LinearFrameBuffer) : LinearFrameBuffer :=
  drawSprite (u16 (per_cent (xres s) x_p - width / 2)) (u16 (per_cent (yres s) y_p - height / 2)) width height data s.
End Drawing.

(** ** The whole screen *)

Definition getVideoMemorySize (s : LinearFrameBuffer) : Z := u32 (xres s * yres s * (bpp s / 8)).

(** Words of 64 bits are cleared; what is left over is meant to be cleared by the second loop. *)
Definition clear (s : LinearFrameBuffer) : LinearFrameBuffer :=
  let n := getVideoMemorySize s in
  let m := upto (Z.to_nat (n / 8)) 0 (fun i m => memset (base s + 8 * i) 0 8 m) (mem s) in
  set_mem (upto (Z.to_nat (n mod 8)) 0 (fun i m => memset (base s + 8 * (xres s * yres s / 8 + i)) 0 8 m) m) s.

(** [address] is where the heap puts the new buffer. *)
Definition enableDoubleBuffering (address : Z) (s : LinearFrameBuffer) : LinearFrameBuffer :=
  clear (mkLfb (xres s) (yres s) (bpp s) (pitch s) true address (hardwareBuffer s) (mem s)).

(** The number of bytes [reallocBuffer] asks for. *)
Definition double_size (s : LinearFrameBuffer) : Z := xres s * yres s * width_of s.

Definition disableDoubleBuffering (s : LinearFrameBuffer) : LinearFrameBuffer :=
  mkLfb (xres s) (yres s) (bpp s) (pitch s) false (doubleBuffer s) (hardwareBuffer s) (mem s).

Definition show (s : LinearFrameBuffer) : LinearFrameBuffer :=
  if negb (doubleBuffered s) then s
  else set_mem (upto (Z.to_nat (double_size s / 8)) 0 (fun i m => memset (doubleBuffer s + 8 * i) 0 8 (memcpy (hardwareBuffer s + 8 * i) (doubleBuffer s + 8 * i) 8 m)) (mem s)) s.

(** ** Resolutions *)

Record LfbResolution := mkRes { resX : Z; resY : Z; depth : Z; modeNumber : Z }.

Definition diff (a b : Z) : Z := if b <? a then u32 (a - b) else u32 (b - a).

(** One pass over a list for the element with the smallest difference; the first of several. *)
Definition closest (distance : LfbResolution -> Z) (l : list LfbResolution) (r0 : LfbResolution) : Z * LfbResolution :=
  foldl (fun p r => if distance r <? fst p then (distance r, r) else p) (0xffffffff, r0) l.

Definition findBestResolution (resolutions : list LfbResolution) (x y d : Z) : LfbResolution :=
  let best := snd (closest (fun r => u32 (diff x (resX r) + diff y (resY r))) resolutions (mkRes 0 0 0 0)) in
  let candidates := filter (fun r => resX r = resX best /\ resY r = resY best) resolutions in
  snd (closest (fun r => diff d (depth r)) candidates best).

Definition getLfbResolutions (s : LinearFrameBuffer) : list LfbResolution := [mkRes (xres s) (yres s) (bpp s) 0].

Definition setResolution (r : LfbResolution) (s : LinearFrameBuffer) : bool := (resX r =? xres s) && (resY r =? yres s) && (depth r =? bpp s).

Definition init (x y d : Z) (s : LinearFrameBuffer) : bool * LinearFrameBuffer :=
  let res := findBestResolution (getLfbResolutions s) x y d in
  let s := disableDoubleBuffering s in
  if setResolution res s then (true, clear (mkLfb (resX res) (resY res) (depth res) (pitch s) (doubleBuffered s) (doubleBuffer s) (hardwareBuffer s) (mem s)))
  else (false, s).

(** ** What drawing changes *)

Record frame_ok (s : LinearFrameBuffer) : Prop := {
  fo_x : 0 <= xres s < 2 ^ 16;
  fo_y : 0 <= yres s < 2 ^ 16;
  fo_size : 0 < width_of s;
  fo_pitch : xres s * width_of s <= pitch s
}.

Definition same_frame (s s' : LinearFrameBuffer) : Prop :=
  xres s' = xres s /\ yres s' = yres s /\ bpp s' = bpp s /\ pitch s' = pitch s /\ doubleBuffered s' = doubleBuffered s /\ doubleBuffer s' = doubleBuffer s /\ hardwareBuffer s' = hardwareBuffer s.

Definition visible (s : LinearFrameBuffer) (a b : Z) : Prop := 0 <= a < xres s /\ 0 <= b < yres s.

(** The bytes of a pixel. *)
Definition pixel (s : LinearFrameBuffer) (a b : Z) : list Z := (fun i => mem s (ptr s a b + i)) <$> seqZ 0 (width_of s).

Definition bytes_for (n v : Z) : list Z := (fun i => u8 (Z.land (Z.shiftr v (i * 8)) 0xff)) <$> seqZ 0 n.

(** What a colour looks like on this screen. *)
Definition ink (color : Color) (s : LinearFrameBuffer) : list Z := bytes_for (width_of s) (value_at (bpp s) color).

(** Only bytes of visible pixels change. *)
Definition confined (s s' : LinearFrameBuffer) : Prop :=
  same_frame s s' /\ forall x, (forall a b i, visible s a b -> 0 <= i < width_of s -> x <> ptr s a b + i) -> mem s' x = mem s x.

(** The visible pixels that [hit] names get the bytes [v], and nothing else changes. *)
Definition paints (hit : Z -> Z -> bool) (v : list Z) (s s' : LinearFrameBuffer) : Prop :=
  confined s s' /\ forall a b, visible s a b -> pixel s' a b = if hit a b then v else pixel s a b.

Lemma same_frame_ptr s s' a b : same_frame s s' -> ptr s' a b = ptr s a b /\ width_of s' = width_of s.
Proof. intros (E1 & E2 & E3 & E4 & E5 & E6 & E7). unfold ptr, base, width_of, depth_bits. by rewrite E3, E4, E5, E6, E7. Qed.

Lemma same_frame_trans s s1 s2 : same_frame s s1 -> same_frame s1 s2 -> same_frame s s2.
Proof. unfold same_frame. intros (? & ? & ? & ? & ? & ? & ?) (? & ? & ? & ? & ? & ? & ?). split_and!; congruence. Qed.

Lemma same_frame_visible s s' a b : same_frame s s' -> visible s' a b <-> visible s a b.
Proof. intros (E1 & E2 & _). unfold visible. by rewrite E1, E2. Qed.

Lemma same_frame_ok s s' : same_frame s s' -> frame_ok s -> frame_ok s'.
Proof. intros Hs [F1 F2 F3 F4]. destruct (same_frame_ptr s s' 0 0 Hs) as [_ E]. destruct Hs as (E1 & E2 & E3 & E4 & _). split; rewrite ?E, ?E1, ?E2, ?E4; done. Qed.

Lemma same_frame_ink s s' c : same_frame s s' -> ink c s' = ink c s.
Proof. intros Hs. unfold ink. rewrite (proj2 (same_frame_ptr s s' 0 0 Hs)). by destruct Hs as (_ & _ & -> & _). Qed.

Lemma confined_refl s : confined s s.
Proof. done. Qed.

Lemma confined_trans s s1 s2 : confined s s1 -> confined s1 s2 -> confined s s2.
Proof.
  intros [H1 M1] [H2 M2]. split; [by eapply same_frame_trans|]. intros x Hx. rewrite M2; [by apply M1|]. intros a b i Hv Hi. destruct (same_frame_ptr s s1 a b H1) as [Ep Ew]. rewrite Ep, Ew in *. apply Hx; [by apply (same_frame_visible s s1)|done].
Qed.

Lemma paints_none v s hit : (forall a b, visible s a b -> hit a b = false) -> paints hit v s s.
Proof. intros H. split; [done|]. intros a b Hv. by rewrite H. Qed.

Lemma paints_trans h1 h2 v s s1 s2 : paints h1 v s s1 -> paints h2 v s1 s2 -> paints (fun a b => h1 a b || h2 a b) v s s2.
Proof.
  intros [C1 P1] [C2 P2]. split; [by eapply confined_trans|]. intros a b Hv. rewrite P2 by (by apply (same_frame_visible s s1); [apply C1|]). rewrite P1 by done. by destruct (h1 a b), (h2 a b).
Qed.

Lemma paints_ext h1 h2 v s s' : (forall a b, visible s a b -> h1 a b = h2 a b) -> paints h1 v s s' -> paints h2 v s s'.
Proof. intros He [C P]. split; [done|]. intros a b Hv. rewrite <- He by done. by apply P. Qed.

(** Different pixels have different bytes. *)
Lemma pixels_apart s a b i x y j : frame_ok s -> visible s a b -> visible s x y -> 0 <= i < width_of s -> 0 <= j < width_of s -> ptr s a b + i = ptr s x y + j -> a = x /\ b = y /\ i = j.
Proof.
  intros [F1 F2 F3 F4] [Ha Hb] [Hx Hy] Hi Hj E. unfold ptr in E. set (w := width_of s) in *. set (p := pitch s) in *.
  assert (Ai : 0 <= a * w + i < p) by nia. assert (Aj : 0 <= x * w + j < p) by nia. assert (Eb : b = y) by nia. subst y. assert (a = x) by nia. nia.
Qed.

Lemma write_pixel_byte v n p m x : 0 <= n -> write_pixel v n p m x = if (p <=? x) && (x <? p + n) then u8 (Z.land (Z.shiftr v ((x - p) * 8)) 0xff) else m x.
Proof.
  intros Hn. unfold write_pixel. rewrite <- (Z2Nat.id n) at 2 by done. generalize (Z.to_nat n). clear n Hn. intros n.
  enough (H : forall i m, 0 <= i -> upto n i (fun i m => store8 m (p + i) (u8 (Z.land (Z.shiftr v (i * 8)) 0xff))) m x = if (p + i <=? x) && (x <? p + i + Z.of_nat n) then u8 (Z.land (Z.shiftr v ((x - p) * 8)) 0xff) else m x).
  { rewrite H by lia. by rewrite Z.add_0_r. }
  induction n as [|n IH]; intros i m0 Hi; cbn [upto].
  - destruct (Z.leb_spec (p + i) x), (Z.ltb_spec x (p + i + Z.of_nat 0)); try done; lia.
  - rewrite IH by lia. unfold store8. destruct (Z.leb_spec (p + (i + 1)) x), (Z.ltb_spec x (p + (i + 1) + Z.of_nat n)), (Z.leb_spec (p + i) x), (Z.ltb_spec x (p + i + Z.of_nat (S n))); cbn [andb]; try lia; try done.
    all: destruct (Z.eqb_spec x (p + i)) as [->|]; try lia; try done. all: by replace (p + i - p) with i by lia.
Qed.

Section Painting.
Context (mix : Z -> Z -> Z -> Z -> Z) (mix_alpha : Z -> Z -> Z).

Lemma write_confined v x y s : frame_ok s -> visible s x y -> confined s (set_mem (write_pixel v (width_of s) (ptr s x y) (mem s)) s).
Proof.
  intros Hf Hv. split; [done|]. intros a Ha. cbn [mem set_mem]. pose proof (fo_size _ Hf). rewrite write_pixel_byte by lia. destruct (Z.leb_spec (ptr s x y) a), (Z.ltb_spec a (ptr s x y + width_of s)); try done.
  exfalso. apply (Ha x y (a - ptr s x y)); [done|lia|lia].
Qed.

Lemma drawPixel_confined x y c s : frame_ok s -> 0 <= x -> 0 <= y -> confined s (drawPixel mix mix_alpha x y c s).
Proof.
  intros Hf Hx Hy. unfold drawPixel. destruct (Z.ltb_spec (xres s - 1) x); [done|]. destruct (Z.ltb_spec (yres s - 1) y); [done|]. cbn [orb]. case_match; [done|]. apply write_confined; [done|]. unfold visible. lia.
Qed.

(** The colours that are drawn as they are. *)
Definition opaque (c : Color) : Prop := coherent c /\ alpha c = 255.

Lemma drawPixel_paints x y c s : frame_ok s -> 0 <= x -> 0 <= y -> opaque c -> paints (fun a b => (a =? x) && (b =? y)) (ink c s) s (drawPixel mix mix_alpha x y c s).
Proof.
  intros Hf Hx Hy [Hc Ha]. split; [by apply drawPixel_confined|]. intros a b Hv. unfold drawPixel. rewrite Ha. change (255 =? 0) with false. change (255 <? 255) with false. cbv iota zeta.
  destruct (getColorForDepth_run (bpp s) c Hc) as (c' & -> & _). cbn [fst].
  destruct (Z.ltb_spec (xres s - 1) x) as [Hox|Hox]; [|destruct (Z.ltb_spec (yres s - 1) y) as [Hoy|Hoy]]; cbn [orb].
  1, 2: destruct Hv; destruct (Z.eqb_spec a x), (Z.eqb_spec b y); try done; lia.
  assert (Hxy : visible s x y) by (unfold visible; lia). unfold pixel at 1. change (ptr (set_mem _ s) a b) with (ptr s a b). change (width_of (set_mem _ s)) with (width_of s). cbn [mem set_mem]. pose proof (fo_size _ Hf) as Hw.
  destruct (Z.eqb_spec a x) as [Ea|Ea], (Z.eqb_spec b y) as [Eb|Eb]; cbn [andb].
  { subst. unfold ink, bytes_for. apply list_fmap_ext. intros k i Hi. apply lookup_seqZ in Hi as [Ei Hi]. rewrite write_pixel_byte by lia.
    destruct (Z.leb_spec (ptr s x y) (ptr s x y + i)), (Z.ltb_spec (ptr s x y + i) (ptr s x y + width_of s)); try lia. cbn [andb]. by replace (ptr s x y + i - ptr s x y) with i by lia. }
  all: unfold pixel; apply list_fmap_ext; intros k i Hi; apply lookup_seqZ in Hi as [Ei Hi]; rewrite write_pixel_byte by lia.
  all: destruct (Z.leb_spec (ptr s x y) (ptr s a b + i)), (Z.ltb_spec (ptr s a b + i) (ptr s x y + width_of s)); cbn [andb]; try done.
  all: exfalso; destruct (pixels_apart s a b i x y (ptr s a b + i - ptr s x y) Hf Hv Hxy) as (? & ? & ?); lia.
Qed.

(** ** Lines *)

(** The height of a line over [i] steps to the right, to the nearest pixel (the lower one of two). *)
Definition rise (dx dy i : Z) : Z := (2 * dy * i + dx - 1) / (2 * dx).

Lemma rise_bounds dx dy i : 0 < dx -> 2 * dx * rise dx dy i <= 2 * dy * i + dx - 1 < 2 * dx * (rise dx dy i + 1).
Proof. intros H. unfold rise. pose proof (Z.div_mod (2 * dy * i + dx - 1) (2 * dx) ltac:(lia)). pose proof (Z.mod_pos_bound (2 * dy * i + dx - 1) (2 * dx) ltac:(lia)). lia. Qed.

Lemma rise_is dx dy i r : 0 < dx -> 2 * dx * r <= 2 * dy * i + dx - 1 < 2 * dx * (r + 1) -> rise dx dy i = r.
Proof. intros H Hr. unfold rise. symmetry. apply (Z.div_unique _ _ r (2 * dy * i + dx - 1 - 2 * dx * r)); lia. Qed.

Lemma rise_step dx dy i : 0 < dx -> 0 <= dy <= dx -> rise dx dy (i + 1) = rise dx dy i + (if 0 <? 2 * dy * (i + 1) - dx - 2 * dx * rise dx dy i then 1 else 0).
Proof.
  intros Hx Hy. pose proof (rise_bounds dx dy i Hx) as Hb. apply rise_is; [done|]. destruct (Z.ltb_spec 0 (2 * dy * (i + 1) - dx - 2 * dx * rise dx dy i)); lia.
Qed.

Lemma s16_small x : - 2 ^ 15 <= x < 2 ^ 15 -> s16 x = x.
Proof.
  intros H. unfold s16, u16. destruct (decide (0 <= x)).
  - rewrite Z.mod_small by lia. destruct (Z.ltb_spec x (2 ^ 15)); lia.
  - replace (x mod 2 ^ 16) with (x + 2 ^ 16) by (apply (Z.mod_unique _ _ (-1)); lia). destruct (Z.ltb_spec (x + 2 ^ 16) (2 ^ 15)); lia.
Qed.

Lemma u16_small x : 0 <= x < 2 ^ 16 -> u16 x = x.
Proof. apply Z.mod_small. Qed.

Lemma line_loop_paints x1 y1 dx dy slope c n : 0 < dx < 2 ^ 14 -> 0 <= dy <= dx -> 0 <= x1 -> x1 + dx < 2 ^ 16 - 1 -> (forall k, 0 <= k <= dx -> 0 <= y1 + slope * rise dx dy k < 2 ^ 16) -> opaque c ->
  forall fuel i y d s, (n < fuel)%nat -> Z.of_nat n = dx - i + 1 -> 0 <= i -> (i <= dx -> y = y1 + slope * rise dx dy i /\ d = 2 * dy * (i + 1) - dx - 2 * dx * rise dx dy i) -> frame_ok s ->
  exists s', line_loop mix mix_alpha fuel (x1 + i) (x1 + dx) y d (2 * dy) (2 * (dy - dx)) slope c s = Ret s' /\
    paints (fun a b => (x1 + i <=? a) && (a <=? x1 + dx) && (b =? y1 + slope * rise dx dy (a - x1))) (ink c s) s s'.
Proof.
  intros Hdx Hdy Hx1 Hx2 Hys Hc. induction n as [|n IH]; intros fuel i y d s Hfuel Hn Hi Hyd Hf; (destruct fuel as [|fuel]; [lia|]); cbn [line_loop].
  - destruct (Z.leb_spec (x1 + i) (x1 + dx)); [lia|]. exists s. split; [done|]. apply paints_none. intros a b _. destruct (Z.leb_spec (x1 + i) a), (Z.leb_spec a (x1 + dx)); try done; lia.
  - destruct (Z.leb_spec (x1 + i) (x1 + dx)); [|lia]. destruct (Hyd ltac:(lia)) as [-> ->]. clear Hyd. pose proof (Hys i ltac:(lia)) as HyR. pose proof (rise_bounds dx dy i ltac:(lia)) as Hb. pose proof (rise_step dx dy i ltac:(lia) Hdy) as Hs. set (R := rise dx dy i) in *.
    pose proof (drawPixel_paints (x1 + i) (y1 + slope * R) c s Hf ltac:(lia) ltac:(lia) Hc) as P1.
    set (s1 := drawPixel mix mix_alpha (x1 + i) (y1 + slope * R) c s) in *. assert (Hf1 : frame_ok s1) by (apply (same_frame_ok s); [apply P1|done]).
    pose proof (rise_bounds dx dy (i + 1) ltac:(lia)) as Hb1. rewrite (u16_small (x1 + i + 1)) by lia. replace (x1 + i + 1) with (x1 + (i + 1)) by lia.
    assert (Hgoal : forall y' d', (i + 1 <= dx -> y' = y1 + slope * rise dx dy (i + 1) /\ d' = 2 * dy * (i + 1 + 1) - dx - 2 * dx * rise dx dy (i + 1)) ->
      exists s', line_loop mix mix_alpha fuel (x1 + (i + 1)) (x1 + dx) y' d' (2 * dy) (2 * (dy - dx)) slope c s1 = Ret s' /\ paints (fun a b => (x1 + i <=? a) && (a <=? x1 + dx) && (b =? y1 + slope * rise dx dy (a - x1))) (ink c s) s s').
    { intros y' d' Hyd'. destruct (IH fuel (i + 1) y' d' s1 ltac:(lia) ltac:(lia) ltac:(lia) Hyd' Hf1) as (s' & E & P2). exists s'. split; [done|]. rewrite (same_frame_ink s s1) in P2 by apply P1.
      refine (paints_ext _ _ _ _ _ _ (paints_trans _ _ _ _ _ _ P1 P2)). intros a b _. destruct (Z.eqb_spec a (x1 + i)) as [->|Hne].
      - replace (x1 + i - x1) with i by lia. fold R. destruct (Z.leb_spec (x1 + (i + 1)) (x1 + i)), (Z.leb_spec (x1 + i) (x1 + i)), (Z.leb_spec (x1 + i) (x1 + dx)); lia.
      - cbn [andb orb]. destruct (Z.leb_spec (x1 + (i + 1)) a), (Z.leb_spec (x1 + i) a); try done; lia. }
    destruct (Z.ltb_spec 0 (2 * dy * (i + 1) - dx - 2 * dx * R)) as [Hd|Hd]; apply Hgoal; intros Hlast; rewrite Hs in *; (split; [try (rewrite u16_small; [lia|]; pose proof (Hys (i + 1) ltac:(lia)) as Hy'; rewrite Hs in Hy'; lia); lia|rewrite s16_small; lia]).
Qed.

Lemma rise_range dx dy k : 0 < dx -> 0 <= dy -> 0 <= k <= dx -> 0 <= rise dx dy k <= dy.
Proof. intros Hx Hy Hk. pose proof (rise_bounds dx dy k Hx). assert (2 * dx * rise dx dy k < 2 * dx * (dy + 1)) by nia. assert (0 < 2 * dx * (rise dx dy k + 1)) by nia. nia. Qed.

(** The pixel of a line in column [a], for a line that goes from ([x1], [y1]) to the right. *)
Definition line_y (x1 y1 x2 y2 a : Z) : Z := y1 + (if y2 <? y1 then -1 else 1) * rise (x2 - x1) (Z.abs (y2 - y1)) (a - x1).

Lemma line_paints x1 y1 x2 y2 c s : frame_ok s -> opaque c -> 0 <= x1 -> x1 < x2 < 2 ^ 16 - 1 -> 0 <= y1 < 2 ^ 16 -> 0 <= y2 < 2 ^ 16 -> x2 - x1 < 2 ^ 14 -> Z.abs (y2 - y1) <= x2 - x1 ->
  exists s', line mix mix_alpha x1 y1 x2 y2 c s = Ret s' /\ paints (fun a b => (x1 <=? a) && (a <=? x2) && (b =? line_y x1 y1 x2 y2 a)) (ink c s) s s'.
Proof.
  intros Hf Hc Hx1 Hx2 Hy1 Hy2 Hdx Hdy. unfold line. rewrite (s16_small (x2 - x1)), (s16_small (y2 - y1)) by lia. set (dx := x2 - x1) in *. set (dy := Z.abs (y2 - y1)) in *.
  set (slope := if y2 <? y1 then -1 else 1). replace (if y2 - y1 <? 0 then (-1, s16 (- (y2 - y1))) else (1, y2 - y1)) with (slope, dy).
  2: { unfold slope, dy. destruct (Z.ltb_spec (y2 - y1) 0), (Z.ltb_spec y2 y1); try lia; f_equal; [rewrite s16_small|]; lia. }
  destruct (Z.eqb_spec dx 0); [lia|]. rewrite !s16_small by lia. assert (Hrange : forall k, 0 <= k <= dx -> 0 <= y1 + slope * rise dx dy k < 2 ^ 16).
  { intros k Hk. pose proof (rise_range dx dy k ltac:(lia) ltac:(lia) Hk). unfold slope, dy in *. destruct (Z.ltb_spec y2 y1); lia. }
  assert (E0 : rise dx dy 0 = 0) by (apply rise_is; lia). unfold line_fuel.
  destruct (line_loop_paints x1 y1 dx dy slope c (Z.to_nat (dx + 1)) ltac:(lia) ltac:(lia) Hx1 ltac:(lia) Hrange Hc (Z.to_nat (2 ^ 16 + 1)) 0 y1 (2 * dy - dx) s) as (s' & E & P); [lia|lia|lia|rewrite E0; lia|done|].
  rewrite Z.add_0_r in E, P. replace (x1 + dx) with x2 in E, P by lia. exists s'. split; [done|]. refine (paints_ext _ _ _ _ _ _ P). done.
Qed.

(** At most half a pixel from the ideal line, and exact at both ends. *)
Lemma line_y_nearest x1 y1 x2 y2 a : x1 < x2 -> x1 <= a <= x2 -> 2 * Z.abs ((line_y x1 y1 x2 y2 a - y1) * (x2 - x1) - (y2 - y1) * (a - x1)) <= x2 - x1.
Proof.
  intros Hx Ha. unfold line_y. pose proof (rise_bounds (x2 - x1) (Z.abs (y2 - y1)) (a - x1) ltac:(lia)) as Hb. set (R := rise _ _ _) in *. destruct (Z.ltb_spec y2 y1).
  - replace (Z.abs (y2 - y1)) with (y1 - y2) in Hb by lia. nia.
  - replace (Z.abs (y2 - y1)) with (y2 - y1) in Hb by lia. nia.
Qed.

(** C28. Lines are drawn as they should be: a line that is not steeper than the diagonal, given
    in either direction, colours exactly one pixel of every column between its ends (those
    outside the screen left out), the ends included; each is at most half a pixel away from the
    ideal line. Nothing else in memory changes. *)
Theorem drawLine_nearest x1 y1 x2 y2 c s : frame_ok s -> opaque c -> 0 <= x1 -> x1 < x2 < 2 ^ 16 - 1 -> 0 <= y1 < 2 ^ 16 -> 0 <= y2 < 2 ^ 16 -> x2 - x1 < 2 ^ 14 -> Z.abs (y2 - y1) <= x2 - x1 ->
  exists (col : Z -> Z) s', drawLine mix mix_alpha x1 y1 x2 y2 c s = Ret s' /\ drawLine mix mix_alpha x2 y2 x1 y1 c s = Ret s' /\
    paints (fun a b => (x1 <=? a) && (a <=? x2) && (b =? col a)) (ink c s) s s' /\ col x1 = y1 /\ col x2 = y2 /\
    forall a, x1 <= a <= x2 -> 2 * Z.abs ((col a - y1) * (x2 - x1) - (y2 - y1) * (a - x1)) <= x2 - x1.
Proof.
  intros Hf Hc Hx1 Hx2 Hy1 Hy2 Hdx Hdy. destruct (line_paints x1 y1 x2 y2 c s Hf Hc Hx1 Hx2 Hy1 Hy2 Hdx Hdy) as (s' & E & P). exists (line_y x1 y1 x2 y2), s'.
  unfold drawLine. destruct (Z.ltb_spec x2 x1), (Z.ltb_spec x1 x2); try lia. split_and!; [done|done|done| | |intros a Ha; by apply line_y_nearest].
  - pose proof (line_y_nearest x1 y1 x2 y2 x1 ltac:(lia) ltac:(lia)). nia.
  - pose proof (line_y_nearest x1 y1 x2 y2 x2 ltac:(lia) ltac:(lia)). nia.
Qed.

(** ** Rectangles *)

Lemma row_paints x y w c s : frame_ok s -> opaque c -> 0 <= x -> 0 <= w < 2 ^ 14 -> x + w < 2 ^ 16 - 1 -> 0 <= y < 2 ^ 16 ->
  exists s', drawLine mix mix_alpha x y (u16 (x + w)) y c s = Ret s' /\ paints (fun a b => (x <=? a) && (a <=? x + w) && (b =? y)) (ink c s) s s'.
Proof.
  intros Hf Hc Hx Hw Hxw Hy. rewrite u16_small by lia. unfold drawLine. destruct (Z.ltb_spec (x + w) x); [lia|]. destruct (decide (w = 0)) as [->|Hw0].
  - unfold line. replace (x + 0 - x) with 0 by lia. rewrite Z.sub_diag. change (s16 0) with 0. cbn [Z.ltb Z.compare Z.eqb]. eexists. split; [done|]. cbn [Z.to_nat Z.add Pos.to_nat Pos.iter_op vertical_loop].
    refine (paints_ext _ _ _ _ _ _ (drawPixel_paints x y c s Hf Hx ltac:(lia) Hc)). intros a b _. lia.
  - destruct (line_paints x y (x + w) y c s) as (s' & E & P); try lia; try done. exists s'. split; [done|]. refine (paints_ext _ _ _ _ _ _ P). intros a b _.
    destruct (Z.leb_spec x a), (Z.leb_spec a (x + w)); try done. cbn [andb]. f_equal. unfold line_y. rewrite Z.sub_diag. change (Z.abs 0) with 0. pose proof (rise_range (x + w - x) 0 (a - x) ltac:(lia) ltac:(lia) ltac:(lia)). replace (rise (x + w - x) 0 (a - x)) with 0 by lia. lia.
Qed.

Lemma fill_loop_paints x w c last n : opaque c -> 0 <= x -> 0 <= w < 2 ^ 14 -> x + w < 2 ^ 16 - 1 -> last < 2 ^ 16 - 1 -> forall fuel i s, (n < fuel)%nat -> Z.of_nat n = last - i + 1 -> 0 <= i -> frame_ok s ->
  exists s', fill_loop mix mix_alpha fuel x w i last c s = Ret s' /\ paints (fun a b => (x <=? a) && (a <=? x + w) && (i <=? b) && (b <=? last)) (ink c s) s s'.
Proof.
  intros Hc Hx Hw Hxw Hl. induction n as [|n IH]; intros fuel i s Hfuel Hn Hi Hf; (destruct fuel as [|fuel]; [lia|]); cbn [fill_loop].
  - destruct (Z.leb_spec i last); [lia|]. exists s. split; [done|]. apply paints_none. intros a b _. lia.
  - destruct (Z.leb_spec i last); [|lia]. destruct (row_paints x i w c s Hf Hc Hx Hw Hxw ltac:(lia)) as (s1 & -> & P1). outcome. rewrite u16_small by lia.
    destruct (IH fuel (i + 1) s1) as (s' & E & P2); [lia|lia|lia|apply (same_frame_ok s); [apply P1|done]|]. exists s'. split; [done|]. rewrite (same_frame_ink s s1) in P2 by apply P1.
    refine (paints_ext _ _ _ _ _ _ (paints_trans _ _ _ _ _ _ P1 P2)). intros a b _. lia.
Qed.

(** A filled rectangle colours exactly the pixels from its upper left corner to [width]
    columns to the right and [height] rows down, both included, as far as they are on the
    screen, and changes nothing else in memory. *)
Theorem fillRect_fills x y width height c s : frame_ok s -> opaque c -> 0 <= x -> 0 <= y -> 0 <= width < 2 ^ 14 -> 0 <= height -> x + width < 2 ^ 16 - 1 -> y + height < 2 ^ 16 - 1 ->
  exists s', fillRect mix mix_alpha x y width height c s = Ret s' /\ paints (fun a b => (x <=? a) && (a <=? x + width) && (y <=? b) && (b <=? y + height)) (ink c s) s s'.
Proof.
  intros Hf Hc Hx Hy Hw Hh Hxw Hyh. unfold fillRect, line_fuel. apply (fill_loop_paints x width c (y + height) (Z.to_nat (height + 1))); try done; lia.
Qed.

(** ** Everything stays on the screen *)

Inductive shape :=
  | Pixel (x y : Z) (c : Color)
  | Line (x1 y1 x2 y2 : Z) (c : Color)
  | Rectangle (x y width height : Z) (c : Color)
  | Filled (x y width height : Z) (c : Color)
  | Circle (x0 y0 r : Z) (c : Color)
  | Bits (x y width height : Z) (fg bg : Color) (bitmap : Z)
  | Text (fuel : nat) (f : Font) (x y text : Z) (fg bg : Color)
  | Sprite (x y width height data : Z).

Definition draw (sh : shape) (s : LinearFrameBuffer) : outcome LinearFrameBuffer :=
  match sh with
  | Pixel x y c => Ret (drawPixel mix mix_alpha x y c s)
  | Line x1 y1 x2 y2 c => drawLine mix mix_alpha x1 y1 x2 y2 c s
  | Rectangle x y w h c => drawRect mix mix_alpha x y w h c s
  | Filled x y w h c => fillRect mix mix_alpha x y w h c s
  | Circle x y r c => fillCircle mix mix_alpha x y r c s
  | Bits x y w h fg bg bitmap => Ret (drawMonoBitmap mix mix_alpha x y w h fg bg bitmap s)
  | Text fuel f x y text fg bg => drawString mix mix_alpha fuel f x y text fg bg s
  | Sprite x y w h data => Ret (drawSprite mix mix_alpha x y w h data s)
  end.

(** Where a shape begins. *)
Definition on_grid (sh : shape) : Prop :=
  match sh with
  | Pixel x y _ | Rectangle x y _ _ _ | Filled x y _ _ _ | Bits x y _ _ _ _ _ | Text _ _ x y _ _ _ | Sprite x y _ _ _ => 0 <= x /\ 0 <= y
  | Circle _ _ _ _ => True
  | Line x1 y1 x2 y2 _ => 0 <= x1 /\ 0 <= y1 /\ 0 <= x2 /\ 0 <= y2
  end.

Lemma u16_nonneg x : 0 <= u16 x.
Proof. apply Z.mod_pos_bound. lia. Qed.
Hint Resolve u16_nonneg : core.

Lemma confined_ok s s' : confined s s' -> frame_ok s -> frame_ok s'.
Proof. intros [H _]. by apply same_frame_ok. Qed.

(** A step that stays on the screen, and what follows it. *)
Lemma confined_then s s1 s2 : frame_ok s -> confined s s1 -> (frame_ok s1 -> confined s1 s2) -> confined s s2.
Proof. intros Hf H1 H2. eapply confined_trans; [done|]. apply H2. by eapply confined_ok. Qed.

Lemma upto_confined n : forall i (f : Z -> LinearFrameBuffer -> LinearFrameBuffer) s, frame_ok s -> 0 <= i -> (forall j s, 0 <= j -> frame_ok s -> confined s (f j s)) -> confined s (upto n i f s).
Proof.
  induction n as [|n IH]; intros i f s Hf Hi Hs; [done|]. cbn [upto]. apply (confined_then s (f i s)); [done|by apply Hs|]. intros Hf1. apply IH; [done|lia|done].
Qed.

Lemma vertical_confined n : forall x y slope c s, frame_ok s -> 0 <= x -> 0 <= y -> confined s (vertical_loop mix mix_alpha n x y slope c s).
Proof.
  induction n as [|n IH]; intros x y slope c s Hf Hx Hy; [done|]. cbn [vertical_loop]. eapply (confined_then _ _ _ Hf (drawPixel_confined x y c s Hf Hx Hy)). intros Hf1. by apply IH.
Qed.

Lemma line_loop_confined fuel : forall x x2 y d e ne slope c s s', frame_ok s -> 0 <= x -> 0 <= y -> line_loop mix mix_alpha fuel x x2 y d e ne slope c s = Ret s' -> confined s s'.
Proof.
  induction fuel as [|fuel IH]; intros x x2 y d e ne slope c s s' Hf Hx Hy E; [done|]. cbn [line_loop] in E. destruct (x <=? x2); [|by injection E as <-].
  eapply confined_then; [done|by apply (drawPixel_confined x y c)|]. intros Hf1. destruct (0 <? d); eapply IH in E; eauto.
Qed.

Lemma drawLine_confined x1 y1 x2 y2 c s s' : frame_ok s -> 0 <= x1 -> 0 <= y1 -> 0 <= x2 -> 0 <= y2 -> drawLine mix mix_alpha x1 y1 x2 y2 c s = Ret s' -> confined s s'.
Proof.
  intros Hf H1 H2 H3 H4. enough (H : forall x1 y1 x2 y2, 0 <= x1 -> 0 <= y1 -> line mix mix_alpha x1 y1 x2 y2 c s = Ret s' -> confined s s') by (unfold drawLine; case_match; apply H; done).
  clear x1 y1 x2 y2 H1 H2 H3 H4. intros x1 y1 x2 y2 H1 H2 E. unfold line in E. destruct (if s16 (y2 - y1) <? 0 then _ else _) as [slope dy]. destruct (s16 (x2 - x1) =? 0); [injection E as <-; by apply vertical_confined|]. by eapply line_loop_confined in E.
Qed.

Lemma fill_confined fuel : forall x w i last c s s', frame_ok s -> 0 <= x -> 0 <= i -> fill_loop mix mix_alpha fuel x w i last c s = Ret s' -> confined s s'.
Proof.
  induction fuel as [|fuel IH]; intros x w i last c s s' Hf Hx Hi E; [done|]. cbn [fill_loop] in E. destruct (i <=? last); [|by injection E as <-]. apply bind_Ret_inv in E as (s1 & E1 & E). eapply confined_then; [done|by eapply drawLine_confined in E1|]. intros Hf1. by eapply IH in E.
Qed.

Lemma rows_confined fuel : forall i last ya yb c s s', frame_ok s -> 0 <= i -> 0 <= ya -> 0 <= yb -> rows_loop mix mix_alpha fuel i last ya yb c s = Ret s' -> confined s s'.
Proof.
  induction fuel as [|fuel IH]; intros i last ya yb c s s' Hf Hi Ha Hb E; [done|]. cbn [rows_loop] in E. destruct (i <=? last); [|by injection E as <-].
  eapply confined_then; [done|by apply (drawPixel_confined i ya c)|]. intros Hf1. eapply confined_then; [done|by apply (drawPixel_confined i yb c)|]. intros Hf2. by eapply IH in E.
Qed.

Lemma circle_confined fuel : forall x0 y0 x y xc yc e c s s', frame_ok s -> circle_loop mix mix_alpha fuel x0 y0 x y xc yc e c s = Ret s' -> confined s s'.
Proof.
  induction fuel as [|fuel IH]; intros x0 y0 x y xc yc e c s s' Hf E; [done|]. cbn [circle_loop] in E. destruct (y <=? x); [|by injection E as <-]. apply bind_Ret_inv in E as (s1 & E1 & E). apply bind_Ret_inv in E as (s2 & E2 & E).
  eapply confined_then; [done|by eapply rows_confined in E1|]. intros Hf1. eapply confined_then; [done|by eapply rows_confined in E2|]. intros Hf2. cbv zeta in E. case_match; by eapply IH in E.
Qed.

Lemma bit_confined n : forall bm x y fg bg s, frame_ok s -> 0 <= x -> 0 <= y -> confined s (bit_loop mix mix_alpha n bm x y fg bg s).
Proof.
  induction n as [|n IH]; intros bm x y fg bg s Hf Hx Hy; [done|]. cbn [bit_loop]. eapply (confined_then _ _ _ Hf (drawPixel_confined x y _ s Hf Hx Hy)). intros Hf1. by apply IH.
Qed.

Lemma byte_confined n bm x y fg bg s : frame_ok s -> 0 <= y -> confined s (byte_loop mix mix_alpha n bm x y fg bg s).
Proof. intros Hf Hy. apply upto_confined; [done|lia|]. intros j s1 _ Hf1. by apply bit_confined. Qed.

Lemma mono_confined x y w h fg bg bm s : frame_ok s -> 0 <= x -> confined s (drawMonoBitmap mix mix_alpha x y w h fg bg bm s).
Proof. intros Hf Hx. apply upto_confined; [done|done|]. intros j s1 _ Hf1. by apply byte_confined. Qed.

Lemma text_confined fuel put f : (forall x c s, frame_ok s -> 0 <= x -> confined s (put x c s)) -> forall x text s s', frame_ok s -> 0 <= x -> text_loop fuel put f x text s = Ret s' -> confined s s'.
Proof.
  intros Hput. induction fuel as [|fuel IH]; intros x text s s' Hf Hx E; [done|]. cbn [text_loop] in E. cbv zeta in E. case_match; [by injection E as <-|]. eapply (confined_then _ _ _ Hf (Hput x _ s Hf Hx)). intros Hf1. by eapply IH in E.
Qed.

(** *** Drawing ends *)

(** The columns a horizontal loop runs over: its counter must be able to pass the last one. *)
Definition ends_at (x1 x2 : Z) : Prop := x1 = x2 \/ x1 < 2 ^ 16 - 1 /\ x2 < 2 ^ 16 - 1.

Lemma line_loop_returns fuel : forall x x2 y d e ne slope c s, 0 <= x -> x2 < 2 ^ 16 - 1 -> x2 - x + 1 < Z.of_nat fuel -> (0 < fuel)%nat ->
  exists s', line_loop mix mix_alpha fuel x x2 y d e ne slope c s = Ret s'.
Proof.
  induction fuel as [|fuel IH]; intros x x2 y d e ne slope c s Hx H2 Hf H0; [lia|]. cbn [line_loop]. destruct (Z.leb_spec x x2); [|eauto].
  rewrite (u16_small (x + 1)) by lia. cbv zeta. destruct (0 <? d); apply IH; lia.
Qed.

Lemma drawLine_returns x1 y1 x2 y2 c s : 0 <= x1 -> 0 <= x2 -> ends_at x1 x2 -> exists s', drawLine mix mix_alpha x1 y1 x2 y2 c s = Ret s'.
Proof.
  intros H1 H2 He. enough (H : forall x1 y1 x2 y2, 0 <= x1 -> ends_at x1 x2 -> exists s', line mix mix_alpha x1 y1 x2 y2 c s = Ret s').
  { unfold drawLine. case_match; apply H; try done. unfold ends_at in *. lia. }
  clear. intros x1 y1 x2 y2 H1 He. unfold line. destruct (if s16 (y2 - y1) <? 0 then _ else _) as [slope dy]. destruct He as [->|[Ha Hb]].
  - rewrite Z.sub_diag. change (s16 0 =? 0) with true. eauto.
  - destruct (s16 (x2 - x1) =? 0); [eauto|]. apply line_loop_returns; unfold line_fuel; lia.
Qed.

Lemma fill_returns fuel : forall x w i last c s, 0 <= x -> 0 <= i -> ends_at x (u16 (x + w)) -> last < 2 ^ 16 - 1 -> last - i + 1 < Z.of_nat fuel -> (0 < fuel)%nat ->
  exists s', fill_loop mix mix_alpha fuel x w i last c s = Ret s'.
Proof.
  induction fuel as [|fuel IH]; intros x w i last c s Hx Hi He Hl Hf H0; [lia|]. cbn [fill_loop]. destruct (Z.leb_spec i last); [|eauto].
  destruct (drawLine_returns x i (u16 (x + w)) i c s) as [s1 E1]; [done|done|done|]. rewrite E1. outcome. rewrite (u16_small (i + 1)) by lia. apply IH; done || lia.
Qed.

Lemma rows_returns fuel : forall i last ya yb c s, 0 <= i -> last < 2 ^ 16 - 1 -> last - i + 1 < Z.of_nat fuel -> (0 < fuel)%nat ->
  exists s', rows_loop mix mix_alpha fuel i last ya yb c s = Ret s'.
Proof.
  induction fuel as [|fuel IH]; intros i last ya yb c s Hi Hl Hf H0; [lia|]. cbn [rows_loop]. destruct (Z.leb_spec i last); [|eauto]. rewrite (u16_small (i + 1)) by lia. apply IH; lia.
Qed.

Lemma circle_returns fuel : forall x0 y0 x y xc yc e c s, x0 + x < 2 ^ 16 - 1 -> 0 <= x0 -> -1 <= x < 2 ^ 15 - 1 -> 0 <= y <= 2 ^ 15 - 1 -> x - y + 1 < Z.of_nat fuel -> (0 < fuel)%nat ->
  exists s', circle_loop mix mix_alpha fuel x0 y0 x y xc yc e c s = Ret s'.
Proof.
  induction fuel as [|fuel IH]; intros x0 y0 x y xc yc e c s H1 H2 Hx Hy Hf H0; [lia|]. cbn [circle_loop]. destruct (Z.leb_spec y x); [|eauto].
  pose proof (u16_nonneg (x0 - x)). pose proof (u16_nonneg (x0 - y)).
  destruct (rows_returns line_fuel (u16 (x0 - x)) (x0 + x) (u16 (y0 + y)) (u16 (y0 - y)) c s) as [s1 E1]; [done|lia|unfold line_fuel; lia|unfold line_fuel; lia|]. rewrite E1. outcome.
  destruct (rows_returns line_fuel (u16 (x0 - y)) (x0 + y) (u16 (y0 + x)) (u16 (y0 - x)) c s1) as [s2 E2]; [done|lia|unfold line_fuel; lia|unfold line_fuel; lia|]. rewrite E2. outcome.
  cbv zeta. rewrite (s16_small (y + 1)), (s16_small (x - 1)) by lia. case_match; apply IH; lia.
Qed.

(** A byte that belongs to no visible pixel. *)
Definition off_screen (s : LinearFrameBuffer) (x : Z) : Prop := forall a b i, visible s a b -> 0 <= i < width_of s -> x <> ptr s a b + i.

Lemma off_screen_confined s s' x : confined s s' -> off_screen s x -> off_screen s' x /\ mem s' x = mem s x.
Proof.
  intros [Hs Hm] Hx. split; [|by apply Hm]. intros a b i Hv Hi. destruct (same_frame_ptr s s' a b Hs) as [Ep Ew]. rewrite Ep. rewrite Ew in Hi. apply Hx; [by apply (same_frame_visible s s')|done].
Qed.

Lemma text_returns put f : (forall x c s, frame_ok s -> 0 <= x -> confined s (put x c s)) -> forall n fuel x text s, frame_ok s -> 0 <= x -> (n < fuel)%nat ->
  off_screen s (text + Z.of_nat n) -> mem s (text + Z.of_nat n) = 0 -> exists s', text_loop fuel put f x text s = Ret s'.
Proof.
  intros Hput. induction n as [|n IH]; intros [|fuel] x text s Hf Hx Hn Ho Hz; try lia; cbn [text_loop]; unfold load8.
  - rewrite Z.add_0_r in Hz. rewrite Hz. eauto.
  - destruct (mem s text =? 0); [eauto|]. pose proof (Hput x (mem s text) s Hf Hx) as Hc. destruct (off_screen_confined _ _ _ Hc Ho) as [Ho' Hm'].
    replace (text + Z.of_nat (S n)) with (text + 1 + Z.of_nat n) in * by lia. apply IH; [by eapply confined_ok|done|lia|done|congruence].
Qed.

Lemma drawChar_confined f x y c fg bg s : frame_ok s -> 0 <= x -> confined s (drawChar mix mix_alpha f x y c fg bg s).
Proof. intros Hf Hx. eapply (confined_then _ _ _ Hf (mono_confined x y _ _ fg bg _ s Hf Hx)). intros Hf2. by apply mono_confined. Qed.

(** What can be drawn: the loops of lines, rectangles and circles end before the last column
    and row of 16 bits, and a text ends with a zero that is not on the screen. *)
Definition drawable (s : LinearFrameBuffer) (sh : shape) : Prop :=
  match sh with
  | Pixel _ _ _ | Bits _ _ _ _ _ _ _ | Sprite _ _ _ _ _ => True
  | Line x1 _ x2 _ _ => ends_at x1 x2
  | Rectangle x _ w _ _ => ends_at x (u16 (x + w))
  | Filled x y w h _ => ends_at x (u16 (x + w)) /\ y + h < 2 ^ 16 - 1
  | Circle x0 _ r _ => 0 <= x0 /\ 0 <= r < 2 ^ 15 - 1 /\ x0 + r < 2 ^ 16 - 1
  | Text fuel _ _ _ text _ _ => exists n, (n < fuel)%nat /\ off_screen s (text + Z.of_nat n) /\ mem s (text + Z.of_nat n) = 0
  end.

Lemma ends_at_sym x1 x2 : ends_at x1 x2 -> ends_at x2 x1.
Proof. unfold ends_at. lia. Qed.

Lemma draw_returns sh s : frame_ok s -> on_grid sh -> drawable s sh -> (exists s', draw sh s = Ret s').
Proof.
  intros Hf Hg Hd. destruct sh as [x y c|x1 y1 x2 y2 c|x y w h c|x y w h c|x0 y0 r c|x y w h fg bg bm|fuel f x y text fg bg|x y w h data]; cbn [draw on_grid drawable] in *; [by eexists| | | | |by eexists| |by eexists].
  - apply drawLine_returns; tauto.
  - unfold drawRect. destruct Hg as [Hx Hy].
    destruct (drawLine_returns x y (u16 (x + w)) y c s) as [s1 E1]; [done|done|done|]. rewrite E1. outcome.
    destruct (drawLine_returns (u16 (x + w)) y (u16 (x + w)) (u16 (y + h)) c s1) as [s2 E2]; [done|done|by left|]. rewrite E2. outcome.
    destruct (drawLine_returns (u16 (x + w)) (u16 (y + h)) x (u16 (y + h)) c s2) as [s3 E3]; [done|done|by apply ends_at_sym|]. rewrite E3. outcome.
    apply drawLine_returns; [done|done|by left].
  - destruct Hg as [Hx Hy], Hd as [He Hl]. apply fill_returns; [exact Hx|exact Hy|exact He|exact Hl|unfold line_fuel; lia|unfold line_fuel; lia].
  - destruct Hd as (H1 & H2 & H3). unfold fillCircle. rewrite (s16_small r) by lia. apply circle_returns; unfold line_fuel; lia.
  - destruct Hg as [Hx Hy], Hd as (n & Hn & Ho & Hz). unfold drawString. eapply (text_returns _ f); try done. intros. by apply drawChar_confined.
Qed.

(** *** Drawing stays on the screen *)

Lemma draw_confined sh s s' : frame_ok s -> on_grid sh -> draw sh s = Ret s' -> confined s s'.
Proof.
  intros Hf Hg E. destruct sh as [x y c|x1 y1 x2 y2 c|x y w h c|x y w h c|x0 y0 r c|x y w h fg bg bm|fuel f x y text fg bg|x y w h data]; cbn [draw on_grid] in *.
  - injection E as <-. apply drawPixel_confined; tauto.
  - eapply drawLine_confined in E; tauto.
  - apply bind_Ret_inv in E as (s1 & E1 & E). apply bind_Ret_inv in E as (s2 & E2 & E). apply bind_Ret_inv in E as (s3 & E3 & E). eapply confined_then; [done|eapply drawLine_confined in E1; first [exact E1 | done | tauto]|]. intros Hf1.
    eapply confined_then; [done|eapply drawLine_confined in E2; first [exact E2 | done | tauto]|]. intros Hf2. eapply confined_then; [done|eapply drawLine_confined in E3; first [exact E3 | done | tauto]|]. intros Hf3. eapply drawLine_confined in E; first [exact E | done | tauto].
  - unfold fillRect in E. apply (fill_confined line_fuel x w y (y + h) c s s'); tauto.
  - unfold fillCircle in E. by apply (circle_confined line_fuel _ _ _ _ _ _ _ _ s s') in E.
  - injection E as <-. apply mono_confined; tauto.
  - eapply text_confined in E; [done| |done|tauto]. intros x1 c1 s1 Hf1 Hx1. by apply drawChar_confined.
  - injection E as <-. apply upto_confined; [done|done|]. intros j s1 Hj Hf1. apply upto_confined; [done|done|]. intros i s2 Hi Hf2. case_match; [done|]. apply drawPixel_confined; [done|lia|lia].
Qed.

(** C27. Nothing is drawn outside the screen. Whatever is drawn (a pixel, a line, a rectangle, a
    circle, a bitmap, a text, a sprite), in whatever colours: when its loops end before the last
    column and row that 16 bits can count and a text ends in memory off the screen, drawing
    ends, no byte of memory changes that is not a byte of a visible pixel, and the
    geometry of the screen stays the same. A drawing that ends in any other case changes nothing else
    either; that it need not end there is [line_to_last_column]. *)
Theorem drawing_confined sh s : frame_ok s -> on_grid sh ->
  (drawable s sh -> exists s', draw sh s = Ret s' /\ confined s s') /\ (forall s', draw sh s = Ret s' -> confined s s').
Proof.
  intros Hf Hg. split; [|intros s'; by apply draw_confined]. intros Hd. destruct (draw_returns sh s Hf Hg Hd) as [s' E]. exists s'. split; [done|]. by apply (draw_confined sh).
Qed.
End Painting.

(** ** Witnesses *)

(** A screen of 16 by 16 pixels of 16 bits at 4096, with some bytes between the rows. *)
Definition small_screen : LinearFrameBuffer := new_LinearFrameBuffer 4096 16 16 16 40 (fun _ => 0).
Definition no_mix (_ _ _ _ : Z) : Z := 0.
Definition no_alpha (_ _ : Z) : Z := 0.
Definition magenta : Color := new_Color_rgb 255 0 255.

Lemma small_screen_ok : frame_ok small_screen.
Proof. split; vm_compute; split_and?; congruence. Qed.

Lemma magenta_opaque : opaque magenta.
Proof. split; [apply coherent_invalidated|done]. Qed.

Lemma drawLine_nearest_witness : exists s', drawLine no_mix no_alpha 2 9 12 4 magenta small_screen = Ret s' /\ pixel s' 12 4 = ink magenta small_screen /\ pixel s' 3 3 = [0; 0].
Proof.
  destruct (drawLine_nearest no_mix no_alpha 2 9 12 4 magenta small_screen small_screen_ok magenta_opaque ltac:(lia) ltac:(lia) ltac:(lia) ltac:(lia) ltac:(lia) ltac:(lia)) as (col & s' & E & _ & [_ P] & _ & E2 & Hn).
  exists s'. split; [exact E|]. specialize (Hn 3 ltac:(lia)). split; rewrite P by (unfold visible, small_screen; cbn; lia).
  - rewrite E2. reflexivity.
  - destruct (Z.eqb_spec 3 (col 3)) as [E3|]; [|reflexivity]. rewrite <- E3 in Hn. lia.
Defined.

Lemma fillRect_fills_witness : exists s', fillRect no_mix no_alpha 4 5 6 30 magenta small_screen = Ret s' /\ pixel s' 10 15 = ink magenta small_screen /\ pixel s' 11 5 = [0; 0].
Proof.
  destruct (fillRect_fills no_mix no_alpha 4 5 6 30 magenta small_screen small_screen_ok magenta_opaque ltac:(lia) ltac:(lia) ltac:(lia) ltac:(lia) ltac:(lia) ltac:(lia)) as (s' & E & [_ P]).
  exists s'. split; [exact E|]. split; rewrite P by (unfold visible, small_screen; cbn; lia); reflexivity.
Defined.

Lemma drawing_confined_witness : exists s', draw no_mix no_alpha (Circle 8 8 3 magenta) small_screen = Ret s' /\ mem s' 4095 = 0 /\ pixel s' 8 8 = ink magenta small_screen.
Proof.
  destruct (drawing_confined no_mix no_alpha (Circle 8 8 3 magenta) small_screen small_screen_ok I) as [Hd _].
  destruct Hd as (s' & E & _ & Hm); [cbn; lia|]. exists s'. split; [exact E|]. split.
  - rewrite Hm; [reflexivity|]. intros a b i [Ha Hb] Hi. change (ptr small_screen a b) with (4096 + a * 2 + b * 40). lia.
  - vm_compute in E. injection E as <-. vm_compute. reflexivity.
Defined.

(** ** Resolutions *)

Lemma closest_run (f : LfbResolution -> Z) (l : list LfbResolution) : forall d (r0 : LfbResolution), Forall (fun r => f r < d) l -> l <> [] -> let p := foldl (fun p r => if f r <? fst p then (f r, r) else p) (d, r0) l in fst p = f (snd p) /\ snd p ∈ l /\ Forall (fun r => f (snd p) <= f r) l.
Proof.
  enough (H : forall (l : list LfbResolution) d (r0 : LfbResolution), let p := foldl (fun p r => if f r <? fst p then (f r, r) else p) (d, r0) l in fst p <= d /\ Forall (fun r => fst p <= f r) l /\ ((p = (d, r0)) \/ (snd p ∈ l /\ fst p = f (snd p)))).
  { intros d r0 Hl Hne p. destruct (H l d r0) as (_ & Hmin & Hp). fold p in Hmin, Hp. destruct Hp as [Ep|[Hin Ef]]; [|rewrite <- Ef; done]. exfalso. destruct l as [|r l]; [done|]. apply Forall_cons in Hl as [Hr _]. apply Forall_cons in Hmin as [Hm _]. rewrite Ep in Hm. cbn in Hm. lia. }
  clear l. intros l. induction l as [|r l IH]; intros d r0; cbn [foldl fst]; [split_and!; [done|constructor|by left]|].
  destruct (Z.ltb_spec (f r) d); cbv zeta.
  - destruct (IH (f r) r) as (H1 & H2 & H3). split_and!; [lia|constructor; [done|done]|]. right. destruct H3 as [->|[H3 H4]]; [split; [left|done]|split; [by right|done]].
  - destruct (IH d r0) as (H1 & H2 & H3). split_and!; [lia|constructor; [lia|done]|]. destruct H3 as [->|[H3 H4]]; [by left|right; split; [by right|done]].
Qed.

Definition distance (x y : Z) (r : LfbResolution) : Z := Z.abs (x - resX r) + Z.abs (y - resY r).

Lemma diff_abs a b : 0 <= a < 2 ^ 16 -> 0 <= b < 2 ^ 16 -> diff a b = Z.abs (a - b).
Proof. intros Ha Hb. unfold diff. destruct (Z.ltb_spec b a); rewrite u32_small; unfold is_u32; lia. Qed.

(** The best resolution is one that is offered, no other is closer in width and height, and of those with its width and height none is closer in depth. *)
Theorem best_resolution l x y d : l <> [] -> 0 <= x < 2 ^ 16 -> 0 <= y < 2 ^ 16 -> 0 <= d < 2 ^ 8 -> Forall (fun r => 0 <= resX r < 2 ^ 16 /\ 0 <= resY r < 2 ^ 16 /\ 0 <= depth r < 2 ^ 8) l ->
  let r := findBestResolution l x y d in r ∈ l /\ (forall r', r' ∈ l -> distance x y r <= distance x y r') /\ (forall r', r' ∈ l -> resX r' = resX r -> resY r' = resY r -> Z.abs (d - depth r) <= Z.abs (d - depth r')).
Proof.
  intros Hne Hx Hy Hd Hl. rewrite Forall_forall in Hl. unfold findBestResolution, closest. cbv zeta. set (f := fun r => u32 (diff x (resX r) + diff y (resY r))). set (g := fun r => diff d (depth r)).
  assert (Hfd : forall r, r ∈ l -> f r = distance x y r) by (intros r Hr; destruct (Hl r Hr) as (? & ? & _); unfold f, distance; rewrite !diff_abs, u32_small by (done || unfold is_u32; lia); done).
  assert (Hgd : forall r, r ∈ l -> g r = Z.abs (d - depth r)) by (intros r Hr; destruct (Hl r Hr) as (_ & _ & ?); unfold g; rewrite diff_abs by lia; done).
  destruct (closest_run f l 0xffffffff (mkRes 0 0 0 0)) as (_ & Hin & Hmin); [apply Forall_forall; intros r Hr; rewrite Hfd by done; destruct (Hl r Hr) as (? & ? & _); unfold distance; lia|done|]. set (best := snd _) in *. rewrite Forall_forall in Hmin.
  set (cs := filter _ l). assert (Hcs : forall r, r ∈ cs <-> (resX r = resX best /\ resY r = resY best) /\ r ∈ l) by (intros r; unfold cs; rewrite list_elem_of_filter; done).
  destruct (closest_run g cs 0xffffffff best) as (_ & Hin2 & Hmin2); [apply Forall_forall; intros r [_ Hr]%Hcs; rewrite Hgd by done; destruct (Hl r Hr) as (_ & _ & ?); lia|intros E; assert (Hb : best ∈ cs) by (by apply Hcs); rewrite E in Hb; by apply elem_of_nil in Hb|].
  set (r := snd (foldl _ (_, best) cs)) in *. rewrite Forall_forall in Hmin2. apply Hcs in Hin2 as [[E1 E2] Hr]. split_and!; [done| |].
  - intros r' Hr'. specialize (Hmin r' Hr'). rewrite !Hfd in Hmin by done. unfold distance in *. rewrite E1, E2. done.
  - intros r' Hr' F1 F2. rewrite <- !Hgd by done. apply Hmin2, Hcs. split; [split; congruence|done].
Qed.

(** ** Deviations *)

(** A screen of 8 by 8 pixels of 8 bits. *)
Definition tiny_screen : LinearFrameBuffer := new_LinearFrameBuffer 4096 8 8 8 8 (fun _ => 0).
Definition white : Color := new_Color_rgb 255 255 255.

(** A line that is steeper than the diagonal becomes a diagonal, which ends far from where it should. *)
Theorem steep_line_misses_end : exists s', drawLine no_mix no_alpha 2 1 3 6 white tiny_screen = Ret s' /\ pixel s' 3 6 = [0] /\ pixel s' 3 2 = [255].
Proof. eexists. split; [vm_compute; reflexivity|]. split; vm_compute; reflexivity. Qed.

(** A circle that leaves the screen on the left loses its rows that do. *)
Theorem circle_at_the_edge_lost : exists s', fillCircle no_mix no_alpha 1 4 2 white tiny_screen = Ret s' /\ pixel s' 1 4 = [0] /\ pixel s' 1 6 = [255].
Proof. eexists. split; [vm_compute; reflexivity|]. split; vm_compute; reflexivity. Qed.

(** A line to the last possible column never ends. *)
Theorem line_to_last_column : drawLine no_mix no_alpha 65000 0 65535 0 white tiny_screen = Diverge.
Proof. vm_compute. reflexivity. Qed.

(** A screen whose size is no multiple of eight bytes is cleared beyond its end. *)
Theorem clear_leaves_screen : let s := new_LinearFrameBuffer 4096 3 3 8 3 (fun _ => 7) in getVideoMemorySize s = 9 /\ mem (clear s) (4096 + 15) = 0.
Proof. split; vm_compute; reflexivity. Qed.

(** A screen of 15 bits is cleared in its upper half only. *)
Theorem clear_half_of_15_bits : let s := new_LinearFrameBuffer 4096 8 8 15 16 (fun _ => 7) in mem (clear s) (ptr s 0 4) = 7.
Proof. vm_compute. reflexivity. Qed.

(** The second buffer has no room for the bytes between the rows: the last row lies behind it. *)
Theorem double_buffer_too_small : let s := enableDoubleBuffering 8192 small_screen in ptr s 0 15 >= doubleBuffer s + double_size s.
Proof. vm_compute. congruence. Qed.
