(* ===== verification/Arguments.v ===== *)
(** * The parser of command line arguments

    [lib/util/ArgumentParser.cpp]: parameters, switches and their abbreviations are
    registered, then the arguments of a command are sorted into values of parameters,
    switches and the rest. *)

From S2P Require Import Prelude CString KString Array Collections ArrayList HashMap StringKeys.

Record ArgumentParser := mkParser {
  helpText : String; startIndex : Z; errorString : String;
  parameters : ArrayList String; switches : ArrayList String; requiredParameters : HashSet.HashSet String; abbreviationMap : HashMap String String;
  namedArguments : HashMap String String; switchMap : HashMap String bool; unnamedArguments : ArrayList String }.

(** The parser together with the array of arguments, which [parse] changes. *)
Record parsing := mkParsing { parser : ArgumentParser; arguments : Array String }.

Section Arguments.
Definition P := ST parsing.

Definition new_ArgumentParser (helpText : String) (startAt : Z) : ArgumentParser :=
  mkParser helpText startAt new_String new_ArrayList new_ArrayList HashSet.new_HashSet new_HashMap new_HashMap new_HashMap new_ArrayList.

Definition set_error (e : String) (p : ArgumentParser) : ArgumentParser :=
  mkParser (helpText p) (startIndex p) e (parameters p) (switches p) (requiredParameters p) (abbreviationMap p) (namedArguments p) (switchMap p) (unnamedArguments p).
Definition set_required (r : HashSet.HashSet String) (p : ArgumentParser) : ArgumentParser :=
  mkParser (helpText p) (startIndex p) (errorString p) (parameters p) (switches p) r (abbreviationMap p) (namedArguments p) (switchMap p) (unnamedArguments p).
Definition set_results (n : HashMap String String) (w : HashMap String bool) (u : ArrayList String) (p : ArgumentParser) : ArgumentParser :=
  mkParser (helpText p) (startIndex p) (errorString p) (parameters p) (switches p) (requiredParameters p) (abbreviationMap p) n w u.

Definition addParameter (name abbreviation : String) (required : bool) (p : ArgumentParser) : outcome ArgumentParser :=
  ps ← ArrayList.add name (parameters p);
  ab ← HashMap.put abbreviation name (abbreviationMap p);
  rq ← (if required then r ← HashSet.add name (requiredParameters p); Ret (snd r) else Ret (requiredParameters p));
  Ret (mkParser (helpText p) (startIndex p) (errorString p) (snd ps) (switches p) rq ab (namedArguments p) (switchMap p) (unnamedArguments p)).

Definition addSwitch (name abbreviation : String) (p : ArgumentParser) : outcome ArgumentParser :=
  ss ← ArrayList.add name (switches p);
  ab ← HashMap.put abbreviation name (abbreviationMap p);
  Ret (mkParser (helpText p) (startIndex p) (errorString p) (parameters p) (snd ss) (requiredParameters p) ab (namedArguments p) (switchMap p) (unnamedArguments p)).

(** String literals of the code. *)
Definition dash : String := str [45].
Definition dashes : String := str [45; 45].
Definition help_short : String := str [45; 104].
Definition help_long : String := str [45; 45; 104; 101; 108; 112].
Definition quote_end : String := str [39; 33].
Definition no_value_text : list Z := [78; 111; 32; 118; 97; 108; 117; 101; 32; 103; 105; 118; 101; 110; 32; 102; 111; 114; 32; 112; 97; 114; 97; 109; 101; 116; 101; 114; 32; 39].
Definition no_value : String := str no_value_text.
Definition unknown_text : list Z := [85; 110; 107; 110; 111; 119; 110; 32; 112; 97; 114; 97; 109; 101; 116; 101; 114; 32; 39].
Definition unknown : String := str unknown_text.
Definition missing_text : list Z := [77; 105; 115; 115; 105; 110; 103; 32; 114; 101; 113; 117; 105; 114; 101; 100; 32; 112; 97; 114; 97; 109; 101; 116; 101; 114; 115; 58; 32].
Definition missing : String := str missing_text.
Definition quote : String := str [39].
Definition quote_space : String := str [39; 32].

Definition lift {A} (o : outcome A) : P A := fun s => x ← o; Ret (x, s).
Definition with_parser (f : ArgumentParser -> outcome ArgumentParser) : P unit := fun s => p ← f (parser s); Ret (tt, mkParsing p (arguments s)).

(** [errorString = head + name + "'!"; return false;] *)
Definition fail_with (head name : String) : P bool :=
  t ← lift (plus head name);
  t ← lift (plus t quote_end);
  _ ← with_parser (fun p => Ret (set_error t p));
  mret false.

(** The name an option stands for: that of its abbreviation, or what follows the dashes. *)
Definition option_name (ab : HashMap String String) (arg : String) : outcome String :=
  sub ← substring 1 (String_length arg) arg;
  known ← HashMap.containsKey sub ab;
  if (known : bool) then r ← HashMap.get sub ab; Ret (fst r)
  else
    two ← beginsWith dashes arg;
    if (two : bool) then substring 2 (String_length arg) arg else substring 1 (String_length arg) arg.

(** [if (requiredParameters.contains(arg)) requiredParameters.remove(arg);] *)
Definition satisfied (arg : String) (p : ArgumentParser) : outcome ArgumentParser :=
  b ← HashSet.contains arg (requiredParameters p);
  if (b : bool) then r ← HashSet.remove arg (requiredParameters p); Ret (set_required (snd r) p) else Ret p.

Definition put_named (name value : String) (p : ArgumentParser) : outcome ArgumentParser :=
  n ← HashMap.put name value (namedArguments p); Ret (set_results n (switchMap p) (unnamedArguments p) p).
Definition put_switch (name : String) (p : ArgumentParser) : outcome ArgumentParser :=
  w ← HashMap.put name true (switchMap p); Ret (set_results (namedArguments p) w (unnamedArguments p) p).
Definition put_unnamed (arg : String) (p : ArgumentParser) : outcome ArgumentParser :=
  u ← ArrayList.add arg (unnamedArguments p); Ret (set_results (namedArguments p) (switchMap p) (snd u) p).

(** The rest of [parse] after the loop. *)
Definition check_required : P bool :=
  p ← gets parser;
  if negb (HashSet.isEmpty (requiredParameters p)) then
    t ← lift (range_for (iterable_of (requiredParameters p)) (fun name t => x ← plus quote name; x ← plus x quote_space; append x t) missing);
    _ ← with_parser (fun p => Ret (set_error t p));
    mret false
  else mret true.

Fixpoint parse_loop (fuel : nat) (i : Z) : P bool :=
  match fuel with
  | O => diverge
  | S fuel =>
      a ← gets arguments;
      if i <? length_ a then
        cur ← lift (at_ a i);
        b ← lift (beginsWith dash cur);
        single ← (if (b : bool) then lift (equals cur dash) else mret true);
        if (single : bool) then _ ← with_parser (put_unnamed cur); parse_loop fuel (u32 (i + 1))
        else
          h ← lift (equals cur help_short);
          h ← (if (h : bool) then mret true else lift (equals cur help_long));
          if (h : bool) then _ ← with_parser (fun p => Ret (set_error (helpText p) p)); mret false
          else
            p ← gets parser;
            name ← lift (option_name (abbreviationMap p) cur);
            a ← lift (Array.put a i name);
            _ ← modify (fun s => mkParsing (parser s) a);
            _ ← with_parser (satisfied name);
            isParameter ← lift (ArrayList.contains name (parameters p));
            if (isParameter : bool) then
              if i <? u32 (length_ a - 1) then
                value ← lift (at_ a (u32 (i + 1)));
                _ ← with_parser (put_named name value);
                parse_loop fuel (u32 (u32 (i + 1) + 1))
              else fail_with no_value name
            else
              isSwitch ← lift (ArrayList.contains name (switches p));
              if (isSwitch : bool) then _ ← with_parser (put_switch name); parse_loop fuel (u32 (i + 1))
              else fail_with unknown name
      else check_required
  end.

(** [clear] of the results, then the loop; it ends after as many rounds as there are arguments. *)
Definition parse : P bool :=
  _ ← with_parser (fun p => Ret (set_results (HashMap.clear (namedArguments p)) (HashMap.clear (switchMap p)) (ArrayList.clear (unnamedArguments p)) p));
  s ← gets (fun s => s);
  parse_loop (S (Z.to_nat (length_ (arguments s)))) (startIndex (parser s)).

Definition getNamedArgument (name : String) (p : ArgumentParser) : outcome String :=
  b ← HashMap.containsKey name (namedArguments p);
  if (b : bool) then r ← HashMap.get name (namedArguments p); Ret (fst r) else Ret (str []).

Definition checkSwitch (name : String) (p : ArgumentParser) : outcome bool :=
  b ← HashMap.containsKey name (switchMap p);
  if (b : bool) then r ← HashMap.get name (switchMap p); Ret (fst r) else Ret false.

Definition getUnnamedArguments (p : ArgumentParser) : outcome (Array String) := ArrayList.toArray (unnamedArguments p).

Definition getEnteredCommand (p : ArgumentParser) : outcome String :=
  range_for (iterable_of (unnamedArguments p)) (fun it command => x ← plus it (str [32]); append x command) (str []).
End Arguments.

(** ** What the arguments mean *)

Inductive verdict := Accepted | Help | NoValue (name : String) | Unknown (name : String) | Missing.

(** What has been found so far, and the parameters that are still required. *)
Record found := mkFound { f_named : gmap String String; f_switch : gmap String bool; f_unnamed : list String; f_required : gset String }.

Definition is_option (a : list Z) : bool := bool_decide ([45] `prefix_of` a) && negb (bool_decide (a = [45])).
Definition is_help (a : list Z) : bool := bool_decide (a = [45; 104]) || bool_decide (a = [45; 45; 104; 101; 108; 112]).

Definition name_of (abv : gmap String String) (a : list Z) : String :=
  match abv !! str (drop 1 a) with
  | Some n => n
  | None => str (if bool_decide ([45; 45] `prefix_of` a) then drop 2 a else drop 1 a)
  end.

Section Meaning.
Context (ps ss : list String) (abv : gmap String String).

(** The arguments from the left to the right: an option with a value takes the argument behind it. *)
Fixpoint sort_args (args : list (list Z)) (f : found) : verdict * found :=
  match args with
  | [] => (if decide (f_required f = ∅) then Accepted else Missing, f)
  | a :: rest =>
      if negb (is_option a) then sort_args rest (mkFound (f_named f) (f_switch f) (f_unnamed f ++ [str a]) (f_required f))
      else if is_help a then (Help, f)
      else
        let n := name_of abv a in
        let req := f_required f ∖ {[n]} in
        if decide (n ∈ ps) then
          match rest with
          | [] => (NoValue n, mkFound (f_named f) (f_switch f) (f_unnamed f) req)
          | v :: rest => sort_args rest (mkFound (<[n := str v]> (f_named f)) (f_switch f) (f_unnamed f) req)
          end
        else if decide (n ∈ ss) then sort_args rest (mkFound (f_named f) (<[n := true]> (f_switch f)) (f_unnamed f) req)
        else (Unknown n, mkFound (f_named f) (f_switch f) (f_unnamed f) req)
  end.

(** Whether the code survives the arguments: it looks for an option in the list of
    parameters, and if it is not there in the list of switches; a list to which
    nothing was ever added has no array. *)
Fixpoint searchable (args : list (list Z)) : bool :=
  match args with
  | [] => true
  | a :: rest =>
      if negb (is_option a) then searchable rest
      else if is_help a then true
      else if decide (ps = []) then false
      else if decide (name_of abv a ∈ ps) then match rest with [] => true | _ :: rest => searchable rest end
      else if decide (ss = []) then false
      else if decide (name_of abv a ∈ ss) then searchable rest
      else true
  end.

(** ** The state of the parser *)

Record holds (f : found) (p : ArgumentParser) : Prop := {
  ho_ps : al_wf (parameters p) /\ (allocated (parameters p) <-> ps <> []) /\ al_view (parameters p) = ps;
  ho_ss : al_wf (switches p) /\ (allocated (switches p) <-> ss <> []) /\ al_view (switches p) = ss;
  ho_ab : hm_inv (abbreviationMap p) /\ hm_view (abbreviationMap p) = abv;
  ho_req : hs_inv (requiredParameters p) /\ hs_view (requiredParameters p) = f_required f;
  ho_named : hm_inv (namedArguments p) /\ hm_view (namedArguments p) = f_named f;
  ho_switch : hm_inv (switchMap p) /\ hm_view (switchMap p) = f_switch f;
  ho_unnamed : al_wf (unnamedArguments p) /\ al_view (unnamedArguments p) = f_unnamed f
}.

(** A name of ordinary length. *)
Definition short (x : String) : Prop := exists l, x = str l /\ (length l <= 1000)%nat.

Record room (f : found) (n : nat) : Prop := {
  ro_named : Z.of_nat (base.size (f_named f)) + Z.of_nat n < 2 ^ 31;
  ro_switch : Z.of_nat (base.size (f_switch f)) + Z.of_nat n < 2 ^ 31;
  ro_unnamed : Z.of_nat (length (f_unnamed f)) + Z.of_nat n < 2 ^ 31;
  ro_required : (base.size (f_required f) <= 1000)%nat;
  ro_short : forall x, x ∈ f_required f -> short x
}.

Definition step_to (f : found) (help : String) (o : outcome ArgumentParser) : Prop := exists p, o = Ret p /\ holds f p /\ helpText p = help.

Lemma put_unnamed_run f p a : holds f p -> Z.of_nat (length (f_unnamed f)) < 2 ^ 31 -> step_to (mkFound (f_named f) (f_switch f) (f_unnamed f ++ [a]) (f_required f)) (helpText p) (put_unnamed a p).
Proof.
  intros [Hp Hs Ha Hr Hn Hw [Hu1 Hu2]] Hl. unfold put_unnamed. destruct (add_spec a (unnamedArguments p) Hu1) as (al & -> & Hwf & _ & Hv); [rewrite <- (length_al_view _ Hu1), Hu2; lia|]. outcome.
  eexists. split; [done|]. split; [|done]. split; cbn; try done. split; [done|]. by rewrite Hv, Hu2.
Qed.

Lemma put_named_run f p n v : holds f p -> Z.of_nat (base.size (f_named f)) + 1 < 2 ^ 32 -> step_to (mkFound (<[n := v]> (f_named f)) (f_switch f) (f_unnamed f) (f_required f)) (helpText p) (put_named n v p).
Proof.
  intros [Hp Hs Ha Hr [Hn1 Hn2] Hw Hu] Hl. unfold put_named. destruct (hm_put_spec (namedArguments p) n v Hn1) as (m & -> & Hm & Hv); [by rewrite Hn2|]. outcome.
  eexists. split; [done|]. split; [|done]. split; cbn; try done. split; [done|]. by rewrite Hv, Hn2.
Qed.

Lemma put_switch_run f p n : holds f p -> Z.of_nat (base.size (f_switch f)) + 1 < 2 ^ 32 -> step_to (mkFound (f_named f) (<[n := true]> (f_switch f)) (f_unnamed f) (f_required f)) (helpText p) (put_switch n p).
Proof.
  intros [Hp Hs Ha Hr Hn [Hw1 Hw2] Hu] Hl. unfold put_switch. destruct (hm_put_spec (switchMap p) n true Hw1) as (m & -> & Hm & Hv); [by rewrite Hw2|]. outcome.
  eexists. split; [done|]. split; [|done]. split; cbn; try done. split; [done|]. by rewrite Hv, Hw2.
Qed.

Lemma satisfied_run f p n : holds f p -> (base.size (f_required f) <= 1000)%nat -> step_to (mkFound (f_named f) (f_switch f) (f_unnamed f) (f_required f ∖ {[n]})) (helpText p) (satisfied n p).
Proof.
  intros [Hp Hs Ha [Hr1 Hr2] Hn Hw Hu] Hl. unfold satisfied. rewrite hs_contains_spec by done. outcome. rewrite Hr2. case_bool_decide as Hd.
  - destruct (hs_remove_spec (requiredParameters p) n Hr1) as (m & -> & Hm & Hv); [rewrite Hr2; lia|]. outcome. eexists. split; [done|]. split; [|done]. split; cbn; try done. split; [done|]. by rewrite Hv, Hr2.
  - eexists. split; [done|]. split; [|done]. split; cbn; try done. split; [done|]. rewrite Hr2. set_solver.
Qed.

Lemma option_name_run p f a : holds f p -> text a -> option_name (abbreviationMap p) (str a) = Ret (name_of abv a).
Proof.
  intros Hh Ha. destruct (ho_ab _ _ Hh) as [Hi Hv]. unfold option_name. change (String_length (str a)) with (Z.of_nat (length a)). rewrite !substring_str by lia. outcome.
  assert (Ed : forall k, (k <= 2)%nat -> take (Z.to_nat (Z.of_nat (length a) - Z.of_nat k)) (drop (Z.to_nat (Z.of_nat k)) a) = drop k a) by (intros k Hk; rewrite Nat2Z.id; apply take_ge; rewrite length_drop; lia).
  pose proof (Ed 1%nat ltac:(lia)) as E1. pose proof (Ed 2%nat ltac:(lia)) as E2. change (Z.of_nat 1) with 1 in E1. change (Z.of_nat 2) with 2 in E2. rewrite E1, E2. rewrite hm_containsKey_spec by done. outcome. unfold name_of. rewrite Hv.
  pose proof (hm_get_spec (abbreviationMap p) (str (drop 1 a)) Hi) as Hg. rewrite Hv in Hg. destruct (abv !! str (drop 1 a)) as [n|].
  - rewrite bool_decide_true by done. by destruct Hg as (m & -> & _).
  - rewrite bool_decide_false by (by intros [? ?]). unfold dashes. rewrite beginsWith_str; [|by repeat constructor|done]. outcome. by case_bool_decide.
Qed.

(** ** Errors *)

(** The names as the message lists them. *)
Definition quoted (names : list (list Z)) : list Z := concat ((fun l => [39] ++ l ++ [39; 32]) <$> names).

Definition error_ok (v : verdict) (f : found) (p : ArgumentParser) : Prop :=
  match v with
  | Accepted => True
  | Help => errorString p = helpText p
  | NoValue n => exists l, n = str l /\ errorString p = str (no_value_text ++ l ++ [39; 33])
  | Unknown n => exists l, n = str l /\ errorString p = str (unknown_text ++ l ++ [39; 33])
  | Missing => exists names, list_to_set (str <$> names) = f_required f /\ errorString p = str (missing_text ++ quoted names)
  end.

(** A set yields its elements. *)
Lemma set_yields (s : HashSet.HashSet String) : hs_inv s -> Z.of_nat (base.size (hs_view s)) < 2 ^ 31 -> exists l, yields (iterable_of s) l /\ (list_to_set l : gset String) = hs_view s /\ length l = base.size (hs_view s).
Proof.
  intros [Hm Ht] Hsz. unfold hs_view in *. rewrite size_dom in Hsz. destruct (keySet_spec (HashSet.map s) Hm Hsz) as (a & m' & Ek & _ & _ & Hwf & Hc & Hp). exists (array a). split; [|split].
  - exists a, (mkIterator a (HashSet.size s)). cbn [begin_ end_ iterable_of c_begin c_end HashSet.HashSet_collection]. unfold HashSet.begin, HashSet.end_of, HashSet.toArray. rewrite Ek. outcome. rewrite !new_Iterator_spec by done. by split_and!.
  - apply set_eq. intros x. rewrite elem_of_list_to_set, Hp, elem_of_dom, list_elem_of_fmap. split.
    + intros ([k b] & -> & Hin%elem_of_map_to_list). by exists b.
    + intros [b Hb]. exists (x, b). split; [done|]. by apply elem_of_map_to_list.
  - rewrite Hp, length_fmap, length_map_to_list, size_dom. done.
Qed.

Lemma quote_names names : forall t, Forall (fun l => (length l <= 1000)%nat) names -> Z.of_nat (length t) + 1003 * Z.of_nat (length names) < 2 ^ 32 ->
  foldM (fun name t => x ← plus quote name; x ← plus x quote_space; append x t) (str <$> names) (str t) = Ret (str (t ++ quoted names)).
Proof.
  induction names as [|l names IH]; intros t Hl Ht; [unfold quoted; by rewrite app_nil_r|]. apply Forall_cons in Hl as [Hl Hls]. cbn [length] in Ht. rewrite fmap_cons. cbn [foldM]. unfold quote, quote_space.
  rewrite plus_str by (rewrite ?length_app; cbn [length]; lia). outcome. rewrite plus_str by (rewrite ?length_app; cbn [length]; lia). outcome. rewrite append_str by (rewrite ?length_app; cbn [length]; lia). outcome.
  rewrite IH by (done || (rewrite !length_app; cbn [length]; lia)). f_equal. f_equal. unfold quoted. rewrite fmap_cons. cbn [concat]. by rewrite <- !app_assoc.
Qed.

Lemma check_required_run f a p : holds f p -> room f 0 -> exists s', check_required (mkParsing p a) = Ret (bool_decide (f_required f = ∅), s') /\ holds f (parser s') /\ error_ok (if decide (f_required f = ∅) then Accepted else Missing) f (parser s').
Proof.
  intros Hh [_ _ _ Hsz Hshort]. destruct (ho_req _ _ Hh) as [Hr Hv]. unfold check_required. st_step. cbn [parser].
  assert (Ee : HashSet.isEmpty (requiredParameters p) = bool_decide (f_required f = ∅)).
  { unfold HashSet.isEmpty. change (size (HashSet.map (requiredParameters p))) with (HashSet.size (requiredParameters p)). rewrite hs_size_view, Hv by done. destruct (decide (f_required f = ∅)) as [->|Hne]; [by rewrite size_empty|]. rewrite bool_decide_false by done. apply Z.eqb_neq. intros E. apply Hne. apply leibniz_equiv, size_empty_inv. lia. }
  rewrite Ee. destruct (decide (f_required f = ∅)) as [E0|Hne]; [rewrite bool_decide_true by done; by exists (mkParsing p a)|]. rewrite bool_decide_false by done. cbn [negb].
  destruct (set_yields (requiredParameters p) Hr) as (l & Hy & Hl & Hlen); [rewrite Hv; lia|]. rewrite Hv in *.
  assert (Hnames : exists names, l = str <$> names /\ Forall (fun l => (length l <= 1000)%nat) names).
  { assert (Hall : Forall short l) by (apply Forall_forall; intros x Hx; apply Hshort; rewrite <- Hl; by apply elem_of_list_to_set). clear -Hall. induction Hall as [|x l [w [-> Hw]] _ (names & -> & Hn)]; [by exists []|]. exists (w :: names). split; [done|by constructor]. }
  destruct Hnames as (names & -> & Hn). rewrite length_fmap in Hlen. unfold lift, missing. rewrite (range_for_yields _ _ _ _ Hy), quote_names by (done || (unfold missing_text; cbn [length]; lia)). outcome. unfold with_parser. outcome. eexists. split; [done|]. cbn [parser]. split.
  - destruct Hh as [? ? ? ? ? ? ?]. by split.
  - exists names. done.
Qed.

Lemma name_short a : (forall k n, abv !! k = Some n -> short n) -> (length a <= 1000)%nat -> short (name_of abv a).
Proof.
  intros Hab Ha. unfold name_of. destruct (abv !! str (drop 1 a)) as [n|] eqn:E; [by eapply Hab|]. eexists. split; [done|]. case_bool_decide; rewrite length_drop; lia.
Qed.

Lemma fail_run f a p h hl n : holds f p -> h = str hl -> (length hl <= 1000)%nat -> short n -> exists s' l, fail_with h n (mkParsing p a) = Ret (false, s') /\ holds f (parser s') /\ n = str l /\ errorString (parser s') = str (hl ++ l ++ [39; 33]).
Proof.
  intros Hh -> Hhl (l & -> & Hl). unfold fail_with, quote_end. st_step. unfold lift. rewrite plus_str by lia. outcome. rewrite plus_str by (rewrite length_app; cbn [length]; lia). outcome. unfold with_parser. outcome.
  eexists _, l. split; [done|]. cbn [parser]. split; [destruct Hh as [? ? ? ? ? ? ?]; by split|]. split; [done|]. cbn. by rewrite <- app_assoc.
Qed.

(** ** The loop *)

Definition accepted (v : verdict) : bool := match v with Accepted => true | _ => false end.

(** An argument as a user types it. *)
Definition word (a : list Z) : Prop := text a /\ (length a <= 1000)%nat.

(** The run ends with what the arguments mean. *)
Definition ends (r : verdict * found) (o : outcome (bool * parsing)) : Prop :=
  exists s', o = Ret (accepted (fst r), s') /\ holds (snd r) (parser s') /\ error_ok (fst r) (snd r) (parser s').

(** It does when the options can be looked up, and faults otherwise. *)
Definition runs (ok : bool) (r : verdict * found) (o : outcome (bool * parsing)) : Prop :=
  if ok then ends r o else o = Fault.

Lemma room_less f n m : room f n -> (m <= n)%nat -> room f m.
Proof. intros [? ? ? ? ?] Hm. split; try done; lia. Qed.

Lemma room_required f n x : room f n -> room (mkFound (f_named f) (f_switch f) (f_unnamed f) (f_required f ∖ {[x]})) n.
Proof.
  intros [R1 R2 R3 R4 R5]. split; cbn [f_named f_switch f_unnamed f_required]; try done.
  - pose proof (subseteq_size (f_required f ∖ {[x]}) (f_required f) ltac:(set_solver)). lia.
  - intros y Hy. apply R5. set_solver.
Qed.

Lemma size_insert_le {V} (m : gmap String V) k v : (base.size (<[k := v]> m) <= S (base.size m))%nat.
Proof. rewrite map_size_insert. case_match; cbn; lia. Qed.

Lemma is_option_run a : text a -> (b ← beginsWith dash (str a); if (b : bool) then equals (str a) dash else Ret true) = Ret (negb (is_option a)).
Proof.
  intros Ha. unfold dash, is_option. rewrite beginsWith_str; [|by repeat constructor|done]. outcome. case_bool_decide; [|done]. rewrite equals_str; [|done|by repeat constructor]. cbn [andb]. by rewrite negb_involutive.
Qed.

Lemma is_help_run a : text a -> (h ← equals (str a) help_short; if (h : bool) then Ret true else equals (str a) help_long) = Ret (is_help a).
Proof.
  intros Ha. unfold help_short, help_long, is_help. rewrite (equals_str a [45; 104]), (equals_str a [45; 45; 104; 101; 108; 112]) by (done || by repeat constructor). outcome. by destruct (bool_decide (a = [45; 104])).
Qed.

(** One round of the loop. *)
Lemma argument_round fuel i a p x : length_ a < 2 ^ 31 -> 0 <= i < length_ a -> at_ a i = Ret (str x) -> text x ->
  parse_loop (S fuel) i (mkParsing p a) =
    if negb (is_option x) then (_ ← with_parser (put_unnamed (str x)); parse_loop fuel (i + 1)) (mkParsing p a)
    else if is_help x then Ret (false, mkParsing (set_error (helpText p) p) a)
    else
      (name ← lift (option_name (abbreviationMap p) (str x));
       a ← lift (Array.put a i name);
       _ ← modify (fun s => mkParsing (parser s) a);
       _ ← with_parser (satisfied name);
       isParameter ← lift (ArrayList.contains name (parameters p));
       if (isParameter : bool) then
         if i <? u32 (length_ a - 1) then
           value ← lift (at_ a (u32 (i + 1)));
           _ ← with_parser (put_named name value);
           parse_loop fuel (u32 (u32 (i + 1) + 1))
         else fail_with no_value name
       else
         isSwitch ← lift (ArrayList.contains name (switches p));
         if (isSwitch : bool) then _ ← with_parser (put_switch name); parse_loop fuel (u32 (i + 1))
         else fail_with unknown name) (mkParsing p a).
Proof.
  intros Hlen Hi Hat Hx. cbn [parse_loop]. st_step. cbn [arguments parser]. destruct (Z.ltb_spec i (length_ a)); [|lia]. unfold lift at 1. rewrite Hat. outcome.
  pose proof (is_option_run x Hx) as Ho. pose proof (is_help_run x Hx) as Hhelp. unfold lift at 1. destruct (beginsWith dash (str x)) as [b| | |]; try done. cbn [mbind outcome_bind] in Ho |- *.
  assert (Hs : (if b then lift (equals (str x) dash) else fun s => Ret (true, s)) (mkParsing p a) = Ret (negb (is_option x), mkParsing p a)) by (destruct b; [unfold lift; by rewrite Ho|by injection Ho as <-]).
  rewrite Hs. rewrite (u32_small (i + 1)) by (unfold is_u32; lia). destruct (negb (is_option x)); [done|]. unfold lift at 1. destruct (equals (str x) help_short) as [h| | |]; try done. cbn [mbind outcome_bind] in Hhelp |- *.
  destruct h; [by injection Hhelp as <-|]. unfold lift at 1. rewrite Hhelp. cbn [mbind outcome_bind]. destruct (is_help x); [done|]. rewrite ?(u32_small (i + 1)) by (unfold is_u32; lia). done.
Qed.

Lemma suffix_at (a : Array String) i x rest : wf a -> drop i (array a) = str <$> (x :: rest) -> at_ a (Z.of_nat i) = Ret (str x) /\ drop (S i) (array a) = str <$> rest /\ Z.of_nat i < length_ a.
Proof.
  intros Hwf Hd. rewrite fmap_cons in Hd. assert (Hi : array a !! i = Some (str x)) by (rewrite <- (Nat.add_0_r i), <- lookup_drop, Hd; done). split_and!.
  - apply at_in_range; [done|lia|]. by rewrite Nat2Z.id.
  - by rewrite (drop_S (array a) (str x) i Hi) in Hd; injection Hd as Hd.
  - destruct Hwf as [Hc _]. unfold length_. apply lookup_lt_Some in Hi. lia.
Qed.

Lemma parse_loop_run n : (forall k v, abv !! k = Some v -> short v) -> forall rest fuel i a p f, (length rest <= n)%nat -> (length rest < fuel)%nat -> wf a -> length_ a < 2 ^ 31 ->
  drop i (array a) = str <$> rest -> Forall word rest -> holds f p -> room f (length rest) ->
  runs (searchable rest) (sort_args rest f) (parse_loop fuel (Z.of_nat i) (mkParsing p a)).
Proof.
  intros Hab. induction n as [|n IH]; intros [|x rest] fuel i a p f Hn Hfuel Hwf Hlen Hd Hw Hh Hr; cbn [length] in *; try lia; (destruct fuel as [|fuel]; [lia|]).
  1, 2: assert (Hge : length_ a <= Z.of_nat i) by (destruct Hwf as [Hc _]; unfold length_; apply (f_equal length) in Hd; rewrite length_drop in Hd; cbn in Hd; lia);
    cbn [parse_loop]; st_step; cbn [arguments]; destruct (Z.ltb_spec (Z.of_nat i) (length_ a)); [lia|]; destruct (check_required_run f a p Hh Hr) as (s' & E & Hs & He); unfold runs; cbn [searchable]; exists s'; cbn [sort_args fst snd]; rewrite E; (split; [by destruct (decide (f_required f = ∅)); [rewrite bool_decide_true|rewrite bool_decide_false]|done]).
  apply Forall_cons in Hw as [[Hx Hxl] Hw]. destruct (suffix_at a i x rest Hwf Hd) as (Hat & Hd' & Hi). rewrite (argument_round fuel (Z.of_nat i) a p x) by (done || lia). cbn [sort_args searchable]. pose proof Hr as [R1 R2 R3 R4 R5].
  destruct (is_option x); cbn [negb].
  2: { st_step. unfold with_parser. cbn [parser arguments]. destruct (put_unnamed_run f p (str x) Hh ltac:(lia)) as (p1 & -> & Hh1 & _). outcome. replace (Z.of_nat i + 1) with (Z.of_nat (S i)) by lia. apply IH; try done; [lia|lia|].
       split; cbn [f_named f_switch f_unnamed f_required]; try done; try lia. rewrite length_app. cbn [length]. lia. }
  destruct (is_help x); [unfold runs; eexists; split; [done|]; cbn [fst snd parser]; split; [destruct Hh as [? ? ? ? ? ? ?]; by split|done]|].
  st_step. unfold lift at 1. rewrite (option_name_run p f x Hh Hx). outcome. pose proof (name_short x Hab Hxl) as Hname. set (nm := name_of abv x) in *.
  unfold lift at 1. rewrite put_in_range by (done || (unfold length_ in Hi; lia)). outcome. rewrite Nat2Z.id. set (a1 := mkArray _ _). assert (Hwf1 : wf a1) by (by apply wf_put). assert (Hl1 : length_ a1 = length_ a) by done.
  assert (Hd1 : drop (S i) (array a1) = str <$> rest) by (cbn [array a1]; rewrite drop_insert_lt by lia; done).
  unfold with_parser at 1. cbn [parser arguments]. destruct (satisfied_run f p nm Hh R4) as (p1 & -> & Hh1 & Hp1). outcome. pose proof (room_required f _ nm Hr) as Hr1. set (f1 := mkFound (f_named f) (f_switch f) (f_unnamed f) (f_required f ∖ {[nm]})) in *.
  destruct (ho_ps _ _ Hh) as (Hps1 & Hps2 & Hps3). destruct (ho_ss _ _ Hh) as (Hss1 & Hss2 & Hss3).
  destruct (decide (ps = [])) as [Hps0|Hps0]; [unfold lift at 1; by rewrite contains_unallocated by (rewrite Hps2; tauto)|]. unfold lift at 1. rewrite contains_spec, Hps3 by tauto. outcome. unfold length_ in *. rewrite Hl1.
  rewrite (u32_small (capacity a - 1)), (u32_small (Z.of_nat i + 1)) by (unfold is_u32; lia). destruct (decide (nm ∈ ps)) as [Hin|Hin]; [rewrite bool_decide_true by done|rewrite bool_decide_false by done].
  - destruct rest as [|v rest].
    + destruct (Z.ltb_spec (Z.of_nat i) (capacity a - 1)); [exfalso; destruct Hwf as [Hc _]; apply (f_equal length) in Hd'; rewrite length_drop in Hd'; cbn in Hd'; lia|].
      destruct (fail_run f1 a1 p1 no_value no_value_text nm Hh1 eq_refl) as (s' & l & E & Hs & He); [cbn; lia|done|]. unfold runs. cbv iota. exists s'. split; [exact E|]. split; [done|]. by exists l.
    + apply Forall_cons in Hw as [[Hv Hvl] Hw]. destruct (suffix_at a1 (S i) v rest Hwf1 Hd1) as (Hat1 & Hd2 & Hi1). unfold length_ in Hi1. cbn [length] in *. destruct (Z.ltb_spec (Z.of_nat i) (capacity a - 1)); [|lia].
      unfold lift at 1. replace (Z.of_nat i + 1) with (Z.of_nat (S i)) by lia. rewrite Hat1. outcome. unfold with_parser. cbn [parser arguments]. destruct (put_named_run f1 p1 nm (str v) Hh1) as (p2 & -> & Hh2 & _); [cbn [f1 f_named]; lia|]. outcome. rewrite u32_small by (unfold is_u32; lia).
      replace (Z.of_nat (S i) + 1) with (Z.of_nat (S (S i))) by lia. apply IH; try done; [lia|lia|]. destruct Hr1 as [Q1 Q2 Q3 Q4 Q5]. pose proof (size_insert_le (f_named f) nm (str v)). split; cbn [f_named f_switch f_unnamed f_required f1] in *; try done; lia.
  - destruct (decide (ss = [])) as [Hss0|Hss0]; [unfold lift at 1; by rewrite contains_unallocated by (rewrite Hss2; tauto)|].
    unfold lift at 1. rewrite contains_spec, Hss3 by tauto. outcome. destruct (decide (nm ∈ ss)) as [Hin2|Hin2]; [rewrite bool_decide_true by done|rewrite bool_decide_false by done].
    + unfold with_parser. cbn [parser arguments]. destruct (put_switch_run f1 p1 nm Hh1) as (p2 & -> & Hh2 & _); [cbn [f1 f_switch]; lia|]. outcome. replace (Z.of_nat i + 1) with (Z.of_nat (S i)) by lia. apply IH; try done; [lia|lia|].
      destruct Hr1 as [Q1 Q2 Q3 Q4 Q5]. pose proof (size_insert_le (f_switch f) nm true). split; cbn [f_named f_switch f_unnamed f_required f1] in *; try done; lia.
    + destruct (fail_run f1 a1 p1 unknown unknown_text nm Hh1 eq_refl) as (s' & l & E & Hs & He); [cbn; lia|done|]. unfold runs. cbv iota. exists s'. split; [exact E|]. split; [done|]. by exists l.
Qed.
End Meaning.

Lemma cleared f p ps ss abv : holds ps ss abv f p -> holds ps ss abv (mkFound ∅ ∅ [] (f_required f)) (set_results (HashMap.clear (namedArguments p)) (HashMap.clear (switchMap p)) (ArrayList.clear (unnamedArguments p)) p).
Proof.
  intros [H1 H2 H3 H4 [H5 _] [H6 _] [H7 _]]. split; cbn; try done; [by apply hm_clear_spec|by apply hm_clear_spec|]. split; [|done]. apply wf_with_length; [done|]. pose proof (al_bounds _ H7). lia.
Qed.

(** C29. Arguments are sorted as they should be: on a parser with the parameters [ps], the
    switches [ss] and the abbreviations [abv], [parse] gives exactly what reading the arguments
    from the left to the right means, whatever an earlier run has left. Words without a dash are
    kept in order; an option, given by its name or its abbreviation, is a switch or takes the
    word behind it as its value; it is refused, with a message, when help is asked for, a value
    is missing, an option is not known or a required parameter was not given. Afterwards the
    parser answers questions from what was found. This holds when every option that is read
    can be looked up: a command without parameters that is given an option, or one without
    switches that is given an option that is no parameter, reads through the null pointer of a
    list to which nothing was added. *)
Theorem arguments_parsed ps ss abv f p (args : list (list Z)) (k : nat) :
  holds ps ss abv f p -> startIndex p = Z.of_nat k -> Z.of_nat (length args) < 2 ^ 30 -> Forall word (drop k args) -> (forall x n, abv !! x = Some n -> short n) ->
  (base.size (f_required f) <= 1000)%nat -> (forall x, x ∈ f_required f -> short x) ->
  let r := sort_args ps ss abv (drop k args) (mkFound ∅ ∅ [] (f_required f)) in
  (searchable ps ss abv (drop k args) = true ->
   exists s', parse (mkParsing p (strings args)) = Ret (accepted (fst r), s') /\ error_ok (fst r) (snd r) (parser s') /\
    (forall n, getNamedArgument n (parser s') = Ret (default (str []) (f_named (snd r) !! n))) /\
    (forall n, checkSwitch n (parser s') = Ret (default false (f_switch (snd r) !! n))) /\
    getUnnamedArguments (parser s') = Ret (mkArray (f_unnamed (snd r)) (Z.of_nat (length (f_unnamed (snd r)))))) /\
  (searchable ps ss abv (drop k args) = false -> parse (mkParsing p (strings args)) = Fault).
Proof.
  intros Hh Hk Hlen Hw Hab Hsz Hshort r. assert (Hr : room (mkFound ∅ ∅ [] (f_required f)) (length (drop k args))) by (split; cbn; rewrite ?length_drop, ?map_size_empty; (done || lia)).
  assert (Hwf : wf (strings args)) by (split; cbn; rewrite ?length_fmap; lia). assert (Hd : drop k (array (strings args)) = str <$> drop k args) by (cbn; by rewrite fmap_drop).
  pose proof (parse_loop_run ps ss abv (length (drop k args)) Hab (drop k args) (S (length args)) k (strings args) _ _ ltac:(lia) ltac:(rewrite length_drop; lia) Hwf ltac:(cbn; lia) Hd Hw (cleared f p ps ss abv Hh) Hr) as Hrun. cbn [f_required] in Hrun.
  assert (Ep : parse (mkParsing p (strings args)) = parse_loop (S (length args)) (Z.of_nat k) (mkParsing (set_results (HashMap.clear (namedArguments p)) (HashMap.clear (switchMap p)) (ArrayList.clear (unnamedArguments p)) p) (strings args))).
  { unfold parse. st_step. unfold with_parser. cbn [parser arguments set_results startIndex mbind outcome_bind]. rewrite Hk. change (length_ (strings args)) with (Z.of_nat (length args)). by rewrite Nat2Z.id. }
  rewrite Ep. split; intros Hsr; rewrite Hsr in Hrun; [|exact Hrun].
  destruct Hrun as (s' & E & Hs & He). fold r in E, Hs, He. exists s'. split_and!.
  - exact E.
  - exact He.
  - intros n. destruct (ho_named _ _ _ _ _ Hs) as [Hi Hv]. unfold getNamedArgument. rewrite hm_containsKey_spec, Hv by done. outcome. pose proof (hm_get_spec (namedArguments (parser s')) n Hi) as Hg. rewrite Hv in Hg. destruct (f_named (snd r) !! n); [rewrite bool_decide_true by done; by destruct Hg as (m & -> & _)|by rewrite bool_decide_false by (by intros [? ?])].
  - intros n. destruct (ho_switch _ _ _ _ _ Hs) as [Hi Hv]. unfold checkSwitch. rewrite hm_containsKey_spec, Hv by done. outcome. pose proof (hm_get_spec (switchMap (parser s')) n Hi) as Hg. rewrite Hv in Hg. destruct (f_switch (snd r) !! n); [rewrite bool_decide_true by done; by destruct Hg as (m & -> & _)|by rewrite bool_decide_false by (by intros [? ?])].
  - destruct (ho_unnamed _ _ _ _ _ Hs) as [Hi Hv]. unfold getUnnamedArguments. rewrite toArray_spec, Hv by done. do 2 f_equal. by rewrite <- (length_al_view _ Hi), Hv.
Qed.

(** ** A command with a parameter and a switch *)

(** [file] with the abbreviation [f], which is required, and [all] with the abbreviation [a]. *)
Definition sample_parser : outcome ArgumentParser :=
  p ← addParameter (str [102; 105; 108; 101]) (str [102]) true (new_ArgumentParser (str [63]) 1);
  addSwitch (str [97; 108; 108]) (str [97]) p.

Lemma sample_parser_holds : exists p, sample_parser = Ret p /\ startIndex p = 1 /\
  holds [str [102; 105; 108; 101]] [str [97; 108; 108]] (<[str [97] := str [97; 108; 108]]> (<[str [102] := str [102; 105; 108; 101]]> ∅)) (mkFound ∅ ∅ [] {[str [102; 105; 108; 101]]}) p.
Proof.
  destruct (hm_inv_new (K:=String) (V:=String) 47 ltac:(lia)) as [H0 V0]. destruct (hm_inv_new (K:=String) (V:=bool) 47 ltac:(lia)) as [H1 V1]. destruct (hs_inv_new (T:=String) 47 ltac:(lia)) as [H2 V2].
  assert (Hnew : al_wf (new_ArrayList (T:=String))) by (constructor; simpl; lia). unfold sample_parser, addParameter. cbn [parameters switches abbreviationMap requiredParameters new_ArgumentParser].
  destruct (add_spec (str [102; 105; 108; 101]) new_ArrayList Hnew ltac:(simpl; lia)) as (al1 & -> & A1 & A2 & A3). outcome.
  destruct (hm_put_spec (new_HashMap_size (K:=String) (V:=String) 47) (str [102]) (str [102; 105; 108; 101]) H0) as (m1 & E1 & M1 & M2); [rewrite V0, map_size_empty; simpl; lia|]. change (new_HashMap (K:=String) (V:=String)) with (new_HashMap_size (K:=String) (V:=String) 47). rewrite E1. outcome.
  destruct (hs_add_spec (HashSet.new_HashSet_capacity (T:=String) 47) (str [102; 105; 108; 101]) H2) as (s1 & E2 & S1 & S2); [rewrite V2, size_empty; lia|]. change (HashSet.new_HashSet (T:=String)) with (HashSet.new_HashSet_capacity (T:=String) 47). rewrite E2. outcome.
  unfold addSwitch. cbn [parameters switches abbreviationMap requiredParameters new_ArgumentParser].
  destruct (add_spec (str [97; 108; 108]) new_ArrayList Hnew ltac:(simpl; lia)) as (al2 & -> & B1 & B2 & B3). outcome.
  destruct (hm_put_spec m1 (str [97]) (str [97; 108; 108]) M1) as (m2 & -> & N1 & N2); [rewrite M2, V0; rewrite map_size_insert, lookup_empty, map_size_empty; simpl; lia|]. outcome.
  eexists. split; [done|]. split; [done|]. split; cbn; try done.
  - by rewrite N2, M2, V0.
Qed.

Lemma arguments_parsed_witness : exists p s', sample_parser = Ret p /\ parse (mkParsing p (strings [[120]; [45; 102]; [116]; [121]; [45; 45; 97; 108; 108]])) = Ret (true, s') /\
  getNamedArgument (str [102; 105; 108; 101]) (parser s') = Ret (str [116]) /\ checkSwitch (str [97; 108; 108]) (parser s') = Ret true /\ getUnnamedArguments (parser s') = Ret (strings [[121]]).
Proof.
  destruct sample_parser_holds as (p & Ep & Hk & Hh). exists p. destruct (arguments_parsed _ _ _ _ p [[120]; [45; 102]; [116]; [121]; [45; 45; 97; 108; 108]] 1 Hh Hk) as [Hrun _].
  - simpl. lia.
  - cbn [drop]. repeat (constructor; [split; [repeat (constructor; [lia|]); constructor|cbn; lia]|]). constructor.
  - intros x n. rewrite lookup_insert_Some, lookup_insert_Some, lookup_empty. intros [[_ <-]|[_ [[_ <-]|[_ ?]]]]; [| |done]; (eexists; split; [done|cbn; lia]).
  - cbn. rewrite size_singleton. lia.
  - cbn. intros x ->%elem_of_singleton. eexists. split; [done|]. cbn. lia.
  - destruct Hrun as (s' & E & _ & Hn & Hs & Hu); [vm_compute; reflexivity|]. exists s'. specialize (Hn (str [102; 105; 108; 101])). specialize (Hs (str [97; 108; 108])).
    assert (Er : sort_args [str [102; 105; 108; 101]] [str [97; 108; 108]] (<[str [97] := str [97; 108; 108]]> (<[str [102] := str [102; 105; 108; 101]]> ∅)) (drop 1 [[120]; [45; 102]; [116]; [121]; [45; 45; 97; 108; 108]]) (mkFound ∅ ∅ [] {[str [102; 105; 108; 101]]})
      = (Accepted, mkFound (<[str [102; 105; 108; 101] := str [116]]> ∅) (<[str [97; 108; 108] := true]> ∅) [str [121]] ∅)) by (vm_compute; reflexivity).
    cbn [f_required] in *. rewrite Er in E, Hn, Hs, Hu. split_and!; [exact Ep|exact E|etransitivity; [exact Hn|vm_compute; reflexivity]|etransitivity; [exact Hs|vm_compute; reflexivity]|exact Hu].
Defined.

(** ** Deviations *)

(** After a run that was accepted nothing is required any more, so that the next run accepts anything that lacks a required parameter. *)
Theorem required_only_once ps ss abv n : forall args f, (length args <= n)%nat -> fst (sort_args ps ss abv args f) = Accepted -> f_required (snd (sort_args ps ss abv args f)) = ∅.
Proof.
  induction n as [|n IH]; intros [|a rest] f Hn E; cbn [length] in Hn; try lia; cbn [sort_args] in *; try (by destruct (decide (f_required f = ∅))).
  destruct (negb (is_option a)); [apply IH; [lia|done]|]. destruct (is_help a); [done|]. destruct (decide (name_of abv a ∈ ps)).
  - destruct rest as [|v rest]; [done|]. cbn [length] in Hn. apply IH; [lia|done].
  - destruct (decide (name_of abv a ∈ ss)); [apply IH; [lia|done]|done].
Qed.

(** The array of arguments is changed: an option is replaced by its name. *)
Theorem arguments_changed : exists p s', sample_parser = Ret p /\ parse (mkParsing p (strings [[120]; [45; 97]; [121]])) = Ret (false, s') /\ arguments s' = strings [[120]; [97; 108; 108]; [121]].
Proof. eexists _, _. split; [vm_compute; reflexivity|]. split; vm_compute; reflexivity. Qed.

(** A command without parameters reads a list that was never allocated when it is given an option. *)
Theorem switch_without_parameters : exists p, addSwitch (str [97; 108; 108]) (str [97]) (new_ArgumentParser (str [63]) 1) = Ret p /\ parse (mkParsing p (strings [[120]; [45; 97]])) = Fault.
Proof. eexists. split; [vm_compute; reflexivity|]. vm_compute. reflexivity. Qed.
