(* ===== verification/Multiboot.v ===== *)
(** * What the boot loader passes on

    [kernel/multiboot/Structure.cpp]: the memory that is in use when the kernel starts, the
    memory map, the modules and the options of the command line. The tables lie in memory
    where the boot loader has put them. *)

From S2P Require Import Prelude Memory CString KString Array Collections ArrayList HashMap StringKeys.

Definition KERNEL_START : Z := 0xC0000000.
Definition MULTIBOOT_INFO_CMDLINE : Z := 0x00000004.
Definition MULTIBOOT_INFO_MODS : Z := 0x00000008.
Definition MULTIBOOT_INFO_ELF_SHDR : Z := 0x00000020.
Definition MULTIBOOT_INFO_MEM_MAP : Z := 0x00000040.
Definition MULTIBOOT_MEMORY_RESERVED : Z := 2.

Record ElfInfo := mkElfInfo { sectionCount : Z; sectionSize : Z; elf_address : Z }.
Record ModuleInfo := mkModuleInfo { mod_start : Z; mod_end : Z; mod_string : Z; mod_reserved : Z }.
Record MemoryMapEntry := mkEntry { entry_size : Z; address : Z; length : Z; entry_type : Z }.

(** The fields of [Info] that are used. *)
Record Info := mkInfo { flags : Z; commandLine : Z; moduleCount : Z; moduleAddress : Z; elf : ElfInfo; memoryMapLength : Z; memoryMapAddress : Z }.

Definition has (flag : Z) (i : Info) : bool := negb (Z.land (flags i) flag =? 0).

(** ** Memory in use *)

(** [customMemoryMap], its size and the bounds of the memory that is in use. *)
Record Reserved := mkReserved { customMemoryMap : list MemoryMapEntry; customMemoryMapSize : Z; physReservedMemoryStart : Z; physReservedMemoryEnd : Z }.

Definition new_Reserved : Reserved := mkReserved [] 0 UINT32_MAX 0.

(** [memory[memoryIndex] = entry; memoryIndex++; mapSize++] in an array of 256 entries. *)
Definition record_entry (e : MemoryMapEntry) (r : Reserved) : outcome Reserved :=
  if (256 <=? List.length (customMemoryMap r))%nat then Fault
  else Ret (mkReserved (customMemoryMap r ++ [e]) (u32 (customMemoryMapSize r + 1)) (physReservedMemoryStart r) (physReservedMemoryEnd r)).

(** One section of the kernel; those without an address are not loaded. *)
Definition record_section (m : Mem) (e : ElfInfo) (i : Z) (r : Reserved) : outcome Reserved :=
  let h := u32 (elf_address e + u32 (i * sectionSize e)) in
  let virtualAddress := load32 m (h + 12) in
  if virtualAddress =? 0 then Ret r
  else record_entry (mkEntry 0 (if virtualAddress <? KERNEL_START then virtualAddress else virtualAddress - KERNEL_START) (load32 m (h + 20)) MULTIBOOT_MEMORY_RESERVED) r.

Definition module_at (m : Mem) (base i : Z) : ModuleInfo :=
  let a := u32 (base + u32 (16 * i)) in mkModuleInfo (load32 m a) (load32 m (a + 4)) (load32 m (a + 8)) (load32 m (a + 12)).

Definition record_module (m : Mem) (base i : Z) (r : Reserved) : outcome Reserved :=
  let mi := module_at m base i in record_entry (mkEntry 0 (mod_start mi) (u32 (mod_end mi - mod_start mi)) MULTIBOOT_MEMORY_RESERVED) r.

(** One round of the last loop; addresses and lengths have 64 bits, the bounds 32. *)
Definition widen (e : MemoryMapEntry) (r : Reserved) : Reserved :=
  let last := if physReservedMemoryEnd r <? address e + length e then u32 (address e + length e) else physReservedMemoryEnd r in
  let first := if address e <? physReservedMemoryStart r then u32 (address e) else physReservedMemoryStart r in
  mkReserved (customMemoryMap r) (customMemoryMapSize r) first last.

Definition readMemoryMap (m : Mem) (kernelStart kernelEnd : Z) (tmp : Info) (r : Reserved) : outcome Reserved :=
  r ← record_entry (mkEntry 0 kernelStart (u32 (kernelEnd - kernelStart)) MULTIBOOT_MEMORY_RESERVED) r;
  r ← (if has MULTIBOOT_INFO_ELF_SHDR tmp then foldM (record_section m (elf tmp)) (seqZ 0 (sectionCount (elf tmp))) r else Ret r);
  r ← (if has MULTIBOOT_INFO_MODS tmp then foldM (record_module m (moduleAddress tmp)) (seqZ 0 (moduleCount tmp)) r else Ret r);
  Ret (foldl (fun r e => widen e r) r (customMemoryMap r)).

(** ** Parsing *)

Record Structure := mkStructure {
  mem : Mem; info : Info; memoryMap : ArrayList MemoryMapEntry; modules : HashMap String ModuleInfo; kernelOptions : HashMap String String }.

Definition S_ := ST Structure.

#[export] Instance MemoryMapEntry_junk : Junk MemoryMapEntry := fun _ => mkEntry 0 0 0 0.
#[export] Instance ModuleInfo_junk : Junk ModuleInfo := fun _ => mkModuleInfo 0 0 0 0.

Definition set_info (i : Info) (s : Structure) : Structure := mkStructure (mem s) i (memoryMap s) (modules s) (kernelOptions s).

Definition put_option (fuel : nat) (option : String) (options : HashMap String String) : outcome (HashMap String String) :=
  pair ← split fuel (str [61]) 0 option;
  if negb (length_ pair =? 2) then Ret options
  else k ← at_ pair 0; v ← at_ pair 1; put k v options.

Definition parseCommandLine (fuel : nat) : S_ unit := fun s =>
  let i := info s in
  if has MULTIBOOT_INFO_CMDLINE i then
    let a := u32 (commandLine i + KERNEL_START) in
    l ← name_at fuel (mem s) a;
    options ← split fuel (str [32]) 0 (str l);
    o ← foldM (put_option fuel) (array options) (kernelOptions s);
    Ret (tt, mkStructure (mem s) (mkInfo (flags i) a (moduleCount i) (moduleAddress i) (elf i) (memoryMapLength i) (memoryMapAddress i)) (memoryMap s) (modules s) o)
  else Ret (tt, s).

Definition load64 (m : Mem) (a : Z) : Z := load32 m a + 2 ^ 32 * load32 m (a + 4).

(** Entries have 24 bytes. *)
Definition map_entry (m : Mem) (base i : Z) : MemoryMapEntry :=
  let a := u32 (base + u32 (24 * i)) in mkEntry (load32 m a) (load64 m (a + 4)) (load64 m (a + 12)) (load32 m (a + 20)).

Definition parseMemoryMap : S_ unit := fun s =>
  let i := info s in
  if has MULTIBOOT_INFO_MEM_MAP i then
    l ← foldM (fun j l => r ← ArrayList.add (map_entry (mem s) (u32 (memoryMapAddress i + KERNEL_START)) j) l; Ret (snd r)) (seqZ 0 (memoryMapLength i / 24)) (memoryMap s);
    Ret (tt, mkStructure (mem s) i l (modules s) (kernelOptions s))
  else Ret (tt, s).

Definition getMemoryMap (s : Structure) : outcome (Array MemoryMapEntry) :=
  let i := info s in
  if negb (has MULTIBOOT_INFO_MEM_MAP i) then Ret (new_Array 0)
  else
    let size := memoryMapLength i / 24 in
    foldM (fun j a => Array.put a j (map_entry (mem s) (u32 (memoryMapAddress i + KERNEL_START)) j)) (seqZ 0 size) (new_Array size).

(** The pointers and bounds of module [i] are moved; what is put into the map is the first module. *)
Definition parse_module (fuel : nat) (base i : Z) (s : Structure) : outcome Structure :=
  let a := u32 (base + u32 (16 * i)) in
  let m := mem s in
  let m := store32 m (a + 8) (u32 (load32 m (a + 8) + KERNEL_START)) in
  let m := store32 m a (u32 (load32 m a + KERNEL_START)) in
  let m := store32 m (a + 4) (u32 (load32 m (a + 4) + KERNEL_START)) in
  let first := module_at m base 0 in
  l ← name_at fuel m (mod_string first);
  ms ← put (str l) first (modules s);
  Ret (mkStructure m (info s) (memoryMap s) ms (kernelOptions s)).

Definition parseModules (fuel : nat) : S_ unit := fun s =>
  let i := info s in
  if has MULTIBOOT_INFO_MODS i then
    let base := u32 (moduleAddress i + KERNEL_START) in
    let s := set_info (mkInfo (flags i) (commandLine i) (moduleCount i) base (elf i) (memoryMapLength i) (memoryMapAddress i)) s in
    s ← foldM (parse_module fuel base) (seqZ 0 (moduleCount i)) s;
    Ret (tt, s)
  else Ret (tt, s).

Definition isModuleLoaded (module : String) (s : Structure) : outcome bool := containsKey module (modules s).

(** [unknown] is the address of the string the code returns for a module that is not there. *)
Definition getModule (unknown : Z) (module : String) (s : Structure) : outcome ModuleInfo :=
  b ← isModuleLoaded module s;
  if (b : bool) then r ← get module (modules s); Ret (fst r) else Ret (mkModuleInfo 0 0 unknown 0).

Definition getKernelOption (key : String) (s : Structure) : outcome String :=
  b ← containsKey key (kernelOptions s);
  if (b : bool) then r ← get key (kernelOptions s); Ret (fst r) else Ret new_String.

(** ** The memory that is in use *)

Definition kernel_entry (kernelStart kernelEnd : Z) : MemoryMapEntry := mkEntry 0 kernelStart (u32 (kernelEnd - kernelStart)) MULTIBOOT_MEMORY_RESERVED.

(** The physical memory of a section, if it is loaded. *)
Definition section_entries (m : Mem) (e : ElfInfo) (i : Z) : list MemoryMapEntry :=
  let h := u32 (elf_address e + u32 (i * sectionSize e)) in
  let va := load32 m (h + 12) in
  if va =? 0 then [] else [mkEntry 0 (if va <? KERNEL_START then va else va - KERNEL_START) (load32 m (h + 20)) MULTIBOOT_MEMORY_RESERVED].

Definition module_entries (m : Mem) (base i : Z) : list MemoryMapEntry :=
  let mi := module_at m base i in [mkEntry 0 (mod_start mi) (u32 (mod_end mi - mod_start mi)) MULTIBOOT_MEMORY_RESERVED].

(** Kernel, sections and modules. *)
Definition in_use (m : Mem) (kernelStart kernelEnd : Z) (tmp : Info) : list MemoryMapEntry :=
  kernel_entry kernelStart kernelEnd ::
  (if has MULTIBOOT_INFO_ELF_SHDR tmp then seqZ 0 (sectionCount (elf tmp)) ≫= section_entries m (elf tmp) else []) ++
  (if has MULTIBOOT_INFO_MODS tmp then seqZ 0 (moduleCount tmp) ≫= module_entries m (moduleAddress tmp) else []).

Definition recorded (es : list MemoryMapEntry) (r : Reserved) : Reserved :=
  mkReserved (customMemoryMap r ++ es) (u32 (customMemoryMapSize r + Z.of_nat (List.length es))) (physReservedMemoryStart r) (physReservedMemoryEnd r).

Definition fits (es : list MemoryMapEntry) (r : Reserved) : bool := (List.length (customMemoryMap r ++ es) <=? 256)%nat.

(** Entries are recorded one after the other as long as there is room. *)
Lemma record_all (f : Z -> Reserved -> outcome Reserved) (g : Z -> list MemoryMapEntry) l : (forall i r, g i = [] /\ f i r = Ret r \/ exists e, g i = [e] /\ f i r = record_entry e r) -> forall r, is_u32 (customMemoryMapSize r) ->
  (List.length (customMemoryMap r) <= 256)%nat -> foldM f l r = if fits (l ≫= g) r then Ret (recorded (l ≫= g) r) else Fault.
Proof.
  intros Hf. induction l as [|i l IH]; intros r Hu Hr.
  - cbn. unfold fits. rewrite app_nil_r, (proj2 (Nat.leb_le _ _)) by done. unfold recorded. rewrite app_nil_r, Z.add_0_r, u32_small by done. by destruct r.
  - cbn [foldM]. change ((i :: l) ≫= g) with (g i ++ (l ≫= g)). destruct (Hf i r) as [[Hg ->]|(e & Hg & ->)]; rewrite Hg; [by apply IH|]. unfold record_entry, fits. rewrite !length_app. cbn [List.length app].
    destruct (Nat.leb_spec 256 (List.length (customMemoryMap r))); [outcome; by rewrite (proj2 (Nat.leb_gt _ _)) by lia|]. outcome. rewrite IH; [|apply u32_range|cbn [customMemoryMap]; rewrite length_app; cbn [List.length]; lia]. unfold fits, recorded. cbn [customMemoryMap customMemoryMapSize physReservedMemoryStart physReservedMemoryEnd].
    rewrite !length_app, <- app_assoc. cbn [List.length app]. replace (List.length (customMemoryMap r) + 1 + List.length (l ≫= g))%nat with (List.length (customMemoryMap r) + S (List.length (l ≫= g)))%nat by lia. rewrite u32_add_l.
    by replace (customMemoryMapSize r + 1 + Z.of_nat (List.length (l ≫= g))) with (customMemoryMapSize r + Z.of_nat (S (List.length (l ≫= g)))) by lia.
Qed.

Lemma recorded_app e1 e2 r : recorded e2 (recorded e1 r) = recorded (e1 ++ e2) r.
Proof. unfold recorded. cbn. rewrite u32_add_l, length_app, <- app_assoc. do 2 f_equal. lia. Qed.

(** The bounds after the last loop. *)
Definition bounds (es : list MemoryMapEntry) (first last : Z) : Prop :=
  (forall e, e ∈ es -> first <= address e /\ address e + length e <= last) /\ (exists e, e ∈ es /\ first = address e) /\ (exists e, e ∈ es /\ last = address e + length e).

Definition small_entry (e : MemoryMapEntry) : Prop := 0 <= address e /\ 0 < length e /\ address e + length e < 2 ^ 32.

Lemma widen_all es : forall r, Forall small_entry es -> exists first last, foldl (fun r e => widen e r) r es = mkReserved (customMemoryMap r) (customMemoryMapSize r) first last /\
  first <= physReservedMemoryStart r /\ physReservedMemoryEnd r <= last /\ (forall e, e ∈ es -> first <= address e /\ address e + length e <= last) /\
  (first = physReservedMemoryStart r \/ exists e, e ∈ es /\ first = address e) /\ (last = physReservedMemoryEnd r \/ exists e, e ∈ es /\ last = address e + length e).
Proof.
  induction es as [|e es IH]; intros r Hs; [destruct r as [a b c d]; exists c, d; cbn; split_and!; [done|lia|lia|by intros e He%elem_of_nil|by left|by left]|]. apply Forall_cons in Hs as [(S1 & S2 & S3) Hs]. cbn [foldl].
  destruct (IH (widen e r) Hs) as (first & last & -> & H1 & H2 & H3 & H4 & H5). exists first, last. unfold widen in *. cbn in *. rewrite !u32_small in * by (unfold is_u32; lia).
  assert (Hw : first <= address e /\ first <= physReservedMemoryStart r /\ address e + length e <= last /\ physReservedMemoryEnd r <= last) by (destruct (Z.ltb_spec (physReservedMemoryEnd r) (address e + length e)), (Z.ltb_spec (address e) (physReservedMemoryStart r)); lia).
  split_and!; [done|lia|lia| | |].
  - intros e' [->|He']%elem_of_cons; [lia|by apply H3].
  - destruct H4 as [H4|(e' & He' & H4)]; [|right; exists e'; split; [by right|done]]. destruct (Z.ltb_spec (address e) (physReservedMemoryStart r)); [right; exists e; split; [by left|done]|by left].
  - destruct H5 as [H5|(e' & He' & H5)]; [|right; exists e'; split; [by right|done]]. destruct (Z.ltb_spec (physReservedMemoryEnd r) (address e + length e)); [right; exists e; split; [by left|done]|by left].
Qed.

(** C30. The memory in use when the kernel starts is known: with at most 256 areas, each below
    4 GiB and not empty, [readMemoryMap] records the kernel, its loaded sections and the modules
    in this order, and sets the bounds to the lowest address and the highest end of them. With
    more areas it leaves the array it records them in. *)
Theorem reserved_memory_found m kernelStart kernelEnd tmp : let es := in_use m kernelStart kernelEnd tmp in
  (Forall small_entry es -> (List.length es <= 256)%nat -> exists r, readMemoryMap m kernelStart kernelEnd tmp new_Reserved = Ret r /\
    customMemoryMap r = es /\ customMemoryMapSize r = Z.of_nat (List.length es) /\ bounds es (physReservedMemoryStart r) (physReservedMemoryEnd r)) /\
  ((256 < List.length es)%nat -> readMemoryMap m kernelStart kernelEnd tmp new_Reserved = Fault).
Proof.
  intros es. set (k := kernel_entry kernelStart kernelEnd). set (s := if has MULTIBOOT_INFO_ELF_SHDR tmp then seqZ 0 (sectionCount (elf tmp)) ≫= section_entries m (elf tmp) else []). set (d := if has MULTIBOOT_INFO_MODS tmp then seqZ 0 (moduleCount tmp) ≫= module_entries m (moduleAddress tmp) else []).
  assert (Ees : es = [k] ++ s ++ d) by done.
  assert (Es : forall r, is_u32 (customMemoryMapSize r) -> (List.length (customMemoryMap r) <= 256)%nat -> (if has MULTIBOOT_INFO_ELF_SHDR tmp then foldM (record_section m (elf tmp)) (seqZ 0 (sectionCount (elf tmp))) r else Ret r) = if fits s r then Ret (recorded s r) else Fault).
  { intros r Hu Hr. unfold s. destruct (has MULTIBOOT_INFO_ELF_SHDR tmp); [|exact (record_all (fun _ r => Ret r) (fun _ => []) [] ltac:(by left) r Hu Hr)]. apply record_all; [|done|done]. intros i r'. unfold section_entries, record_section. cbv zeta. case_match; [by left|right; by eexists]. }
  assert (Ed : forall r, is_u32 (customMemoryMapSize r) -> (List.length (customMemoryMap r) <= 256)%nat -> (if has MULTIBOOT_INFO_MODS tmp then foldM (record_module m (moduleAddress tmp)) (seqZ 0 (moduleCount tmp)) r else Ret r) = if fits d r then Ret (recorded d r) else Fault).
  { intros r Hu Hr. unfold d. destruct (has MULTIBOOT_INFO_MODS tmp); [|exact (record_all (fun _ r => Ret r) (fun _ => []) [] ltac:(by left) r Hu Hr)]. apply record_all; [|done|done]. intros i r'. right. by eexists. }
  assert (Erun : readMemoryMap m kernelStart kernelEnd tmp new_Reserved = if (List.length es <=? 256)%nat then Ret (foldl (fun r e => widen e r) (recorded es new_Reserved) es) else Fault).
  { unfold readMemoryMap. fold (kernel_entry kernelStart kernelEnd). fold k. change (record_entry k new_Reserved) with (Ret (recorded [k] new_Reserved)). outcome. rewrite Es; [|apply u32_range|cbn; lia].
    rewrite Ees. unfold fits. rewrite !length_app. cbn [recorded customMemoryMap new_Reserved app List.length]. destruct (Nat.leb_spec (1 + List.length s) 256); [|outcome; by rewrite (proj2 (Nat.leb_gt _ _)) by lia]. outcome. rewrite recorded_app. rewrite Ed; [|apply u32_range|cbn [recorded customMemoryMap new_Reserved app List.length]; lia].
    unfold fits. rewrite recorded_app. cbn [recorded customMemoryMap new_Reserved app List.length]. rewrite length_app. change (S (List.length s + List.length d)) with (1 + (List.length s + List.length d))%nat. destruct (Nat.leb_spec (1 + (List.length s + List.length d)) 256); [|done]. outcome. done. }
  rewrite Erun. split; [|intros Hl; by rewrite (proj2 (Nat.leb_gt _ _)) by lia]. intros Hsm Hl. rewrite (proj2 (Nat.leb_le _ _)) by lia. destruct (widen_all es (recorded es new_Reserved) Hsm) as (first & last & -> & H1 & H2 & H3 & H4 & H5). eexists. split; [done|].
  cbn [customMemoryMap customMemoryMapSize physReservedMemoryStart physReservedMemoryEnd recorded new_Reserved app] in *. split_and!; [done|rewrite u32_small; [lia|unfold is_u32; lia]|].
  assert (Hk : k ∈ es) by (rewrite Ees; left). destruct (H3 k Hk) as [Hk1 Hk2]. rewrite Forall_forall in Hsm. destruct (Hsm k Hk) as (Q1 & Q2 & Q3). split; [done|]. split.
  - destruct H4 as [H4|H4]; [|done]. unfold UINT32_MAX in H4. lia.
  - destruct H5 as [H5|H5]; [|done]. lia.
Qed.

(** ** Options of the kernel *)

Lemma words_short d l : forall cur w, w ∈ words_from d cur l -> (List.length w <= List.length cur + List.length l)%nat.
Proof.
  induction l as [|c l IH]; intros cur w; cbn [words_from List.length].
  - destruct cur; [by intros Hw%elem_of_nil|intros ->%list_elem_of_singleton; lia].
  - destruct (among d c).
    + destruct cur as [|x cur]; [intros Hw%IH; cbn in *; lia|intros [->|Hw%IH]%elem_of_cons; cbn in *; lia].
    + intros Hw%IH. rewrite length_app in Hw. cbn in Hw. lia.
Qed.

(** Words of the form [key=value]. *)
Definition option_of (w : list Z) : option (list Z * list Z) := match words [61] w with [k; v] => Some (k, v) | _ => None end.

Definition set_option (g : gmap String String) (kv : list Z * list Z) : gmap String String := <[str (fst kv) := str (snd kv)]> g.

Lemma put_option_run fuel w o : hm_inv o -> Z.of_nat (base.size (hm_view o)) + 1 < 2 ^ 32 -> (List.length w < fuel)%nat -> Z.of_nat (List.length w) + 1 < 2 ^ 31 ->
  exists o', put_option fuel (str w) o = Ret o' /\ hm_inv o' /\ hm_view o' = match option_of w with Some kv => set_option (hm_view o) kv | None => hm_view o end.
Proof.
  intros Hi Hs Hf Hl. unfold put_option. rewrite split_run by done. outcome. unfold option_of, length_. cbn [capacity]. destruct (words [61] w) as [|k [|v [|x l]]]; cbn [List.length]; try (by exists o).
  - change (at_ _ 0) with (Ret (str k)). outcome. change (at_ _ 1) with (Ret (str v)). outcome. destruct (hm_put_spec o (str k) (str v) Hi Hs) as (o' & -> & Hi' & Hv). by exists o'.
  - destruct (Z.eqb_spec (Z.of_nat (S (S (S (List.length l))))) 2); [lia|]. by exists o.
Qed.

Lemma options_run fuel ws : forall o, hm_inv o -> Z.of_nat (base.size (hm_view o)) + Z.of_nat (List.length ws) < 2 ^ 32 -> Forall (fun w => (List.length w < fuel)%nat /\ Z.of_nat (List.length w) + 1 < 2 ^ 31) ws ->
  exists o', foldM (put_option fuel) (str <$> ws) o = Ret o' /\ hm_inv o' /\ hm_view o' = foldl set_option (hm_view o) (omap option_of ws).
Proof.
  induction ws as [|w ws IH]; intros o Hi Hs Hw; [by exists o|]. apply Forall_cons in Hw as [[H1 H2] Hw]. cbn [List.length] in Hs. rewrite fmap_cons. cbn [foldM]. destruct (put_option_run fuel w o Hi ltac:(lia) H1 H2) as (o1 & -> & Hi1 & Hv1). outcome.
  destruct (IH o1 Hi1) as (o' & E & Hi' & Hv'); [|done|].
  - rewrite Hv1. destruct (option_of w) as [kv|]; [|lia]. unfold set_option. rewrite map_size_insert. case_match; cbn; lia.
  - exists o'. split; [done|]. split; [done|]. rewrite Hv', Hv1. cbn [omap list_omap]. by destruct (option_of w).
Qed.

(** A key or a value: not empty, without blanks and equals signs. *)
Definition plain (l : list Z) : Prop := l <> [] /\ (32 ∉ l) /\ (61 ∉ l).

Lemma option_of_pair k v : plain k -> plain v -> option_of (k ++ [61] ++ v) = Some (k, v).
Proof. intros (K1 & K2 & K3) (V1 & V2 & V3). unfold option_of. change (k ++ [61] ++ v) with (joined [61] [k; v]). rewrite words_joined; [done|]. repeat (constructor; [done|]). constructor. Qed.

Lemma options_of_line opts : Forall (fun kv => plain (fst kv) /\ plain (snd kv)) opts -> omap option_of (words [32] (joined [32] ((fun kv => fst kv ++ [61] ++ snd kv) <$> opts))) = opts.
Proof.
  intros Ho. rewrite words_joined.
  - induction Ho as [|[k v] opts [Hk Hv] _ IH]; [done|]. rewrite fmap_cons. cbn [omap list_omap fst snd] in *. rewrite option_of_pair by done. f_equal. exact IH.
  - apply Forall_fmap. eapply Forall_impl; [exact Ho|]. intros [k v] [(K1 & K2 & _) (V1 & V2 & _)]. cbn in *. split; [by destruct k|]. rewrite elem_of_app, elem_of_cons. intros [?|[?|?]]; [done|lia|done].
Qed.

(** The options of the command line are found: when the boot loader passes the line
    [k1=v1 k2=v2 ...], the kernel answers every question for an option with the value that was
    given last for it, and with the empty string when there is none; what was known before
    stays known if it is not given again. *)
Theorem kernel_options_found fuel s opts : let line := joined [32] ((fun kv => fst kv ++ [61] ++ snd kv) <$> opts) in
  has MULTIBOOT_INFO_CMDLINE (info s) = true -> is_string (mem s) (u32 (commandLine (info s) + KERNEL_START)) line -> Forall (fun kv => plain (fst kv) /\ plain (snd kv)) opts ->
  (List.length line < fuel)%nat -> Z.of_nat (List.length line) < 2 ^ 30 -> hm_inv (kernelOptions s) -> Z.of_nat (base.size (hm_view (kernelOptions s))) < 2 ^ 30 ->
  exists s', parseCommandLine fuel s = Ret (tt, s') /\ forall key, getKernelOption key s' = Ret (default new_String (foldl set_option (hm_view (kernelOptions s)) opts !! key)).
Proof.
  intros line Hc Hs Ho Hf Hl Hi Hsz. unfold parseCommandLine. rewrite Hc. rewrite (name_run fuel _ _ line) by done. outcome. rewrite split_run by lia. outcome. cbn [array].
  assert (Hw : Forall (fun w => (List.length w < fuel)%nat /\ Z.of_nat (List.length w) + 1 < 2 ^ 31) (words [32] line)) by (apply Forall_forall; intros w Hw%words_short; cbn in Hw; lia).
  assert (Hn : (List.length (words [32%Z] line) <= List.length line + 1)%nat).
  { clear. unfold words. assert (H : forall l cur, (List.length (words_from [32%Z] cur l) <= List.length l + 1)%nat); [|apply H]. induction l as [|c l IH]; intros cur; cbn [words_from List.length]; [destruct cur; cbn; lia|]. destruct (among [32] c); [destruct cur as [|x cur]; [pose proof (IH [])|cbn [List.length]; pose proof (IH [])]|pose proof (IH (cur ++ [c]))]; lia. }
  destruct (options_run fuel (words [32] line) (kernelOptions s) Hi ltac:(lia) Hw) as (o & -> & Hi' & Hv). outcome. eexists. split; [done|]. intros key. unfold getKernelOption. cbn [kernelOptions]. rewrite hm_containsKey_spec by done. outcome.
  pose proof (hm_get_spec o key Hi') as Hg. rewrite Hv in *. unfold line in *. rewrite options_of_line in * by done. destruct (foldl set_option (hm_view (kernelOptions s)) opts !! key) as [v|].
  - rewrite bool_decide_true by done. by destruct Hg as (m & -> & _).
  - by rewrite bool_decide_false by (by intros [? ?]).
Qed.

(** ** Witnesses *)

Definition stores (ws : list (Z * Z)) : Mem := foldl (fun m w => store32 m (fst w) (snd w)) (fun _ => 0) ws.

(** Two sections, of which one is loaded, and a module. *)
Definition boot_mem : Mem := stores [(1000 + 40 + 12, 0xC0200000); (1000 + 40 + 20, 0x5000); (2000, 0x800000); (2004, 0x900000)].
Definition boot_info : Info := mkInfo (MULTIBOOT_INFO_MODS + MULTIBOOT_INFO_ELF_SHDR) 0 1 2000 (mkElfInfo 2 40 1000) 0 0.

Lemma reserved_memory_found_witness : exists r, readMemoryMap boot_mem 0x100000 0x180000 boot_info new_Reserved = Ret r /\ physReservedMemoryStart r = 0x100000 /\ physReservedMemoryEnd r = 0x900000.
Proof.
  assert (Ees : in_use boot_mem 0x100000 0x180000 boot_info = [mkEntry 0 0x100000 0x80000 2; mkEntry 0 0x200000 0x5000 2; mkEntry 0 0x800000 0x100000 2]) by (vm_compute; reflexivity).
  destruct (reserved_memory_found boot_mem 0x100000 0x180000 boot_info) as [H _]. rewrite Ees in H. destruct H as (r & E & _ & _ & Hb & (e1 & H1 & F1) & (e2 & H2 & F2)).
  - repeat (constructor; [unfold small_entry; cbn; lia|]). constructor.
  - cbn. lia.
  - exists r. split; [exact E|]. rewrite F1, F2. pose proof (Hb (mkEntry 0 0x100000 0x80000 2) ltac:(left)) as B1. pose proof (Hb (mkEntry 0 0x800000 0x100000 2) ltac:(right; right; left)) as B2. cbn in B1, B2. rewrite F1, F2 in *.
    split; [clear H2 F2|clear H1 F1]; repeat match goal with H : _ ∈ _ :: _ |- _ => apply elem_of_cons in H as [->|H]; [cbn in *; lia|] | H : _ ∈ [] |- _ => by apply elem_of_nil in H end.
Defined.

(** The command line [a=b]. *)
Definition line_mem : Mem := stores [(0xC0001000, 0x00623D61)].
Definition line_structure : Structure := mkStructure line_mem (mkInfo MULTIBOOT_INFO_CMDLINE 0x1000 0 0 (mkElfInfo 0 0 0) 0 0) new_ArrayList new_HashMap new_HashMap.

Lemma kernel_options_found_witness : exists s', parseCommandLine 9 line_structure = Ret (tt, s') /\ getKernelOption (str [97]) s' = Ret (str [98]).
Proof.
  destruct (hm_inv_new (K:=String) (V:=String) 47 ltac:(lia)) as [H0 V0]. destruct (kernel_options_found 9 line_structure [([97], [98])]) as (s' & E & Hk); try done.
  - split; [|vm_compute; reflexivity]. intros [|[|[|i]]] c Hc; try done; injection Hc as <-; (split; [lia|vm_compute; reflexivity]).
  - constructor; [|constructor]. split; (split; [done|split; intros [?|?%elem_of_nil]%elem_of_cons; done]).
  - cbn. lia.
  - exists s'. split; [exact E|]. etransitivity; [apply Hk|]. change (hm_view (kernelOptions line_structure)) with (hm_view (new_HashMap_size (K:=String) (V:=String) 47)). rewrite V0. vm_compute. reflexivity.
Defined.

(** ** Deviations *)

(** Two modules [a] and [b]. *)
Definition modules_mem : Mem := stores [(0xC0002000, 0x800000); (0xC0002004, 0x900000); (0xC0002008, 0x3000); (0xC0002010, 0xA00000); (0xC0002014, 0xB00000); (0xC0002018, 0x3004); (0xC0003000, 0x61); (0xC0003004, 0x62)].
Definition modules_structure : Structure := mkStructure modules_mem (mkInfo MULTIBOOT_INFO_MODS 0 2 0x2000 (mkElfInfo 0 0 0) 0 0) new_ArrayList new_HashMap new_HashMap.

(** Only the first module is entered, once for every module. *)
Theorem only_first_module : exists s', parseModules 9 modules_structure = Ret (tt, s') /\ isModuleLoaded (str [97]) s' = Ret true /\ isModuleLoaded (str [98]) s' = Ret false.
Proof. eexists. split; [vm_compute; reflexivity|]. split; vm_compute; reflexivity. Qed.

(** An option without a value, and one whose value contains an equals sign, are ignored. *)
Theorem unusual_options_ignored : option_of [97; 61] = None /\ option_of [97; 61; 98; 61; 99] = None.
Proof. split; reflexivity. Qed.
