(* ===== verification/Console.v ===== *)
(** * The text screen

    [device/graphic/cga/CgaText.cpp]: characters and their attributes in the memory of the
    graphics adapter, the cursor, line breaks and scrolling. *)

From S2P Require Import Prelude Memory Color.

Definition CGA_START : Z := 0xC00B8000.

(** The state of the driver, the memory, and what was written to the ports of the adapter. *)
Record CgaText := mkCga { columns : Z; rows : Z; depth : Z; pos : Z; mem : Mem; ports : list (Z * Z) }.

Definition set_mem (m : Mem) (s : CgaText) : CgaText := mkCga (columns s) (rows s) (depth s) (pos s) m (ports s).

(** The position of the cursor in 14 bits, the high byte first. *)
Definition setpos (x y : Z) (s : CgaText) : CgaText :=
  if (x <? 0) || (columns s <=? x) || (y <? 0) || (rows s <? y) then s
  else
    let p := u16 (y * columns s + x) in
    mkCga (columns s) (rows s) (depth s) p (mem s)
      (ports s ++ [(0x3d4, 14); (0x3d5, u8 (Z.shiftr (Z.land p 0x3f00) 8)); (0x3d4, 15); (0x3d5, u8 (Z.land p 0xff))]).

Definition getpos (s : CgaText) : Z * Z := (pos s mod columns s, pos s / columns s).

Section Output.
Context (mix : Z -> Z -> Z -> Z -> Z) (mix_alpha : Z -> Z -> Z).

(** Translucent colours are mixed with those of the character that is there; an invisible background leaves that of the character. *)
Definition show (x y c : Z) (fgColor bgColor : Color) (s : CgaText) : CgaText :=
  if (x <? 0) || (columns s <=? x) || (y <? 0) || (rows s <? y) then s
  else
    let p := u16 ((y * columns s + x) * 2) in
    let current := mem s (CGA_START + p + 1) in
    let bg :=
      if alpha bgColor <? 255 then
        let under := new_Color_depth (Z.shiftr current 4) (depth s) in
        if 0 <? alpha bgColor then blendWith mix mix_alpha bgColor under else under
      else bgColor in
    let fg :=
      if (alpha fgColor <? 255) && (0 <? alpha fgColor) then blendWith mix mix_alpha fgColor (new_Color_depth (Z.land current 0x0f) (depth s))
      else fgColor in
    let attrib := u8 (Z.lor (Z.shiftl (fst (getRGB4 bg)) 4) (fst (getRGB4 fg))) in
    set_mem (store8 (store8 (mem s) (CGA_START + p) (u8 c)) (CGA_START + p + 1) attrib) s.

(** Words of 64 bits are moved; the last row is filled with words of which each holds one blank. *)
Definition scrollup (s : CgaText) : CgaText :=
  let stride := columns s * 2 in
  let m := upto (Z.to_nat ((rows s - 1) * columns s * 2 / 8)) 0 (fun i m => memcpy (CGA_START + 8 * i) (CGA_START + stride + 8 * i) 8 m) (mem s) in
  let last := CGA_START + (rows s - 1) * columns s * 2 in
  set_mem (upto (Z.to_nat (stride / 8)) 0 (fun i m => store32 (store32 m (last + 8 * i) 0x0f20) (last + 8 * i + 4) 0) m) s.

Definition putc (c : Z) (fgColor bgColor : Color) (s : CgaText) : CgaText :=
  let '(x, y) := getpos s in
  let '(x, y, s) := if c =? 10 then (0, u16 (y + 1), s) else (u16 (x + 1), y, show x y c fgColor bgColor s) in
  let '(x, y) := if columns s <=? x then (0, u16 (y + 1)) else (x, y) in
  let '(x, y, s) := if rows s <=? y then (0, u16 (rows s - 1), scrollup s) else (x, y, s) in
  setpos x y s.

(** The first [n] characters of a string. *)
Definition puts (l : list Z) (fgColor bgColor : Color) (s : CgaText) : CgaText := foldl (fun s c => putc c fgColor bgColor s) s l.
End Output.

Definition clear (s : CgaText) : CgaText :=
  setpos 0 0 (set_mem (upto (Z.to_nat (rows s * columns s * 2 / 8)) 0 (fun i m => memset (CGA_START + 8 * i) 0 8 m) (mem s)) s).

(** ** A terminal *)

(** Characters and attributes by row and column, and the cursor. *)
Record terminal := mkTerm { cell : Z -> Z -> Z * Z; cx : Z; cy : Z }.

Section Terminal.
Context (w h : Z).

(** What scrolling leaves in the last row. *)
Definition fresh_cell (x : Z) : Z * Z := if x mod 4 =? 0 then (0x20, 0x0f) else (0, 0).

Definition t_scroll (t : terminal) : terminal :=
  mkTerm (fun y x => if y <? h - 1 then cell t (y + 1) x else fresh_cell x) 0 (h - 1).

Definition t_newline (t : terminal) : terminal := if cy t + 1 <? h then mkTerm (cell t) 0 (cy t + 1) else t_scroll t.

Definition t_put (attr c : Z) (t : terminal) : terminal :=
  if c =? 10 then t_newline t
  else
    let t' := mkTerm (fun y x => if (y =? cy t) && (x =? cx t) then (c, attr) else cell t y x) (cx t + 1) (cy t) in
    if cx t + 1 <? w then t' else t_newline t'.
End Terminal.

(** The screen shows what the terminal holds. *)
Record shows (t : terminal) (s : CgaText) : Prop := {
  sh_cells : forall y x, 0 <= y < rows s -> 0 <= x < columns s ->
    cell t y x = (mem s (CGA_START + 2 * (y * columns s + x)), mem s (CGA_START + 2 * (y * columns s + x) + 1));
  sh_cursor : pos s = cy t * columns s + cx t;
  sh_x : 0 <= cx t < columns s;
  sh_y : 0 <= cy t < rows s
}.

Record mode_ok (s : CgaText) : Prop := {
  mo_columns : 4 <= columns s /\ columns s mod 4 = 0;
  mo_rows : 1 <= rows s;
  mo_size : columns s * rows s <= 2 ^ 15
}.

(** Only the screen changes, and its size stays. *)
Definition on_screen (s s' : CgaText) : Prop :=
  columns s' = columns s /\ rows s' = rows s /\ depth s' = depth s /\ forall x, x < CGA_START \/ CGA_START + 2 * (columns s * rows s) <= x -> mem s' x = mem s x.

(** ** Scrolling *)

Lemma words_up n : forall i d st m x, 8 <= st -> 0 <= i -> upto n i (fun i m => memcpy (d + 8 * i) (d + st + 8 * i) 8 m) m x = if (d + 8 * i <=? x) && (x <? d + 8 * (i + Z.of_nat n)) then m (x + st) else m x.
Proof.
  induction n as [|n IH]; intros i d st m x Hst Hi; cbn [upto].
  - destruct (Z.leb_spec (d + 8 * i) x), (Z.ltb_spec x (d + 8 * (i + Z.of_nat 0))); try done; lia.
  - rewrite IH by lia. destruct (Z.leb_spec (d + 8 * (i + 1)) x), (Z.ltb_spec x (d + 8 * (i + 1 + Z.of_nat n))), (Z.leb_spec (d + 8 * i) x), (Z.ltb_spec x (d + 8 * (i + Z.of_nat (S n)))); cbn [andb]; try lia.
    + apply memcpy_outside. lia.
    + apply memcpy_outside. lia.
    + rewrite memcpy_inside by lia. f_equal. lia.
    + apply memcpy_outside. lia.
Qed.

Definition blank_byte (o : Z) : Z := if o mod 8 =? 0 then 0x20 else if o mod 8 =? 1 then 0x0f else 0.

Lemma store_word m a x : store32 (store32 m a 0x0f20) (a + 4) 0 x = if (a <=? x) && (x <? a + 8) then blank_byte (x - a) else m x.
Proof.
  destruct (Z.leb_spec a x), (Z.ltb_spec x (a + 8)); cbn [andb]; [|rewrite !store32_outside by lia; done..].
  assert (x = a \/ x = a + 1 \/ x = a + 2 \/ x = a + 3 \/ x = a + 4 \/ x = a + 5 \/ x = a + 6 \/ x = a + 7) as Hx by lia.
  destruct Hx as [->|[->|[->|[->|[->|[->|[->| ->]]]]]]]; unfold store32, store8; repeat match goal with |- context [?u =? ?v] => destruct (Z.eqb_spec u v); try lia end.
  all: match goal with |- _ = blank_byte ?o => ring_simplify o end; reflexivity.
Qed.

Lemma words_blank n : forall i d m x, 0 <= i -> upto n i (fun i m => store32 (store32 m (d + 8 * i) 0x0f20) (d + 8 * i + 4) 0) m x = if (d + 8 * i <=? x) && (x <? d + 8 * (i + Z.of_nat n)) then blank_byte (x - d) else m x.
Proof.
  induction n as [|n IH]; intros i d m x Hi; cbn [upto].
  - destruct (Z.leb_spec (d + 8 * i) x), (Z.ltb_spec x (d + 8 * (i + Z.of_nat 0))); try done; lia.
  - rewrite IH by lia. rewrite store_word. assert (Eb : blank_byte (x - (d + 8 * i)) = blank_byte (x - d)) by (unfold blank_byte; by replace (x - d) with (x - (d + 8 * i) + i * 8) by lia; rewrite Z_mod_plus_full).
    destruct (Z.leb_spec (d + 8 * (i + 1)) x), (Z.ltb_spec x (d + 8 * (i + 1 + Z.of_nat n))), (Z.leb_spec (d + 8 * i) x), (Z.ltb_spec x (d + 8 * (i + Z.of_nat (S n)))), (Z.ltb_spec x (d + 8 * i + 8)); cbn [andb]; try lia; done.
Qed.

(** The bytes of the screen after scrolling. *)
Lemma scrollup_mem s x : mode_ok s -> mem (scrollup s) x =
  let o := x - CGA_START in let n := (rows s - 1) * columns s * 2 in
  if (0 <=? o) && (o <? n) then mem s (x + columns s * 2) else if (n <=? o) && (o <? n + columns s * 2) then blank_byte (o - n) else mem s x.
Proof.
  intros [[C1 C2] R S]. unfold scrollup. cbn [mem set_mem]. cbv zeta. set (c := columns s) in *. set (r := rows s) in *. set (n := (r - 1) * c * 2).
  assert (E4 : c = 4 * (c / 4)) by (pose proof (Z.div_mod c 4 ltac:(lia)); lia). set (q := c / 4) in *. assert (En : n = 8 * (n / 8)) by (unfold n; rewrite E4; replace ((r - 1) * (4 * q) * 2) with ((r - 1) * q * 8) by lia; rewrite Z.div_mul by lia; lia).
  assert (Ec : c * 2 = 8 * (c * 2 / 8)) by (rewrite E4; replace (4 * q * 2) with (q * 8) by lia; rewrite Z.div_mul by lia; lia). assert (Hn0 : 0 <= n) by (unfold n; nia).
  rewrite words_blank by lia. rewrite words_up by lia. rewrite !Z2Nat.id by (apply Z.div_pos; lia). rewrite !Z.mul_0_r, !Z.add_0_r, !Z.add_0_l. rewrite <- En, <- Ec.
  destruct (Z.leb_spec (CGA_START + n) x), (Z.ltb_spec x (CGA_START + n + c * 2)), (Z.leb_spec CGA_START x), (Z.ltb_spec x (CGA_START + n)), (Z.leb_spec 0 (x - CGA_START)), (Z.ltb_spec (x - CGA_START) n), (Z.leb_spec n (x - CGA_START)), (Z.ltb_spec (x - CGA_START) (n + c * 2)); cbn [andb]; try lia; try done; f_equal; lia.
Qed.

(** ** Characters *)

Definition solid (c : Color) : Prop := coherent c /\ alpha c = 255.
Definition attribute (fg bg : Color) : Z := u8 (Z.lor (Z.shiftl (value_at 4 bg) 4) (value_at 4 fg)).

(** The characters of the screen, whatever the cursor. *)
Definition cells_ok (f : Z -> Z -> Z * Z) (s : CgaText) : Prop := forall y x, 0 <= y < rows s -> 0 <= x < columns s ->
  f y x = (mem s (CGA_START + 2 * (y * columns s + x)), mem s (CGA_START + 2 * (y * columns s + x) + 1)).

Lemma getRGB4_value c : coherent c -> fst (getRGB4 c) = value_at 4 c.
Proof. intros Hc. destruct (getColorForDepth_run 4 c Hc) as (c' & E & _). change (getColorForDepth 4 c) with (getRGB4 c) in E. by rewrite E. Qed.

Lemma index_bound s x y : mode_ok s -> 0 <= x < columns s -> 0 <= y < rows s -> 0 <= y * columns s + x < columns s * rows s.
Proof. intros _ Hx Hy. nia. Qed.

Lemma on_screen_trans s1 s2 s3 : on_screen s1 s2 -> on_screen s2 s3 -> on_screen s1 s3.
Proof. intros (C1 & R1 & D1 & M1) (C2 & R2 & D2 & M2). split_and!; try congruence. intros x Hx. rewrite M2 by (by rewrite C1, R1). by apply M1. Qed.

Lemma on_screen_mode s s' : on_screen s s' -> mode_ok s -> mode_ok s'.
Proof. intros (C & R & _) [H1 H2 H3]. split; rewrite ?C, ?R; done. Qed.

Lemma setpos_run s x y f : mode_ok s -> 0 <= x < columns s -> 0 <= y < rows s -> cells_ok f s -> shows (mkTerm f x y) (setpos x y s) /\ on_screen s (setpos x y s).
Proof.
  intros Hm Hx Hy Hf. pose proof (index_bound s x y Hm Hx Hy). pose proof (mo_size _ Hm). unfold setpos. destruct (Z.ltb_spec x 0), (Z.leb_spec (columns s) x), (Z.ltb_spec y 0), (Z.ltb_spec (rows s) y); try lia. cbn [orb]. split; [|done].
  split; cbn [rows columns pos mem cell cx cy]; try done. unfold u16. apply Z.mod_small. lia.
Qed.

Lemma scrollup_run s f : mode_ok s -> cells_ok f s -> cells_ok (fun y x => if y <? rows s - 1 then f (y + 1) x else fresh_cell x) (scrollup s) /\ on_screen s (scrollup s).
Proof.
  intros Hm Hf. pose proof Hm as [[C1 C2] R S]. split.
  - intros y x Hy Hx. change (rows (scrollup s)) with (rows s) in Hy. change (columns (scrollup s)) with (columns s) in *. rewrite !scrollup_mem by done. cbv zeta. set (c := columns s) in *. set (r := rows s) in *. replace (CGA_START + 2 * (y * c + x) - CGA_START) with (2 * (y * c + x)) by lia.
    replace (CGA_START + 2 * (y * c + x) + 1 - CGA_START) with (2 * (y * c + x) + 1) by lia. destruct (Z.ltb_spec y (r - 1)).
    + rewrite Hf by (unfold c, r in *; lia). fold c. assert (y * c + c <= (r - 1) * c) by nia. assert (0 <= y * c) by nia. destruct (Z.leb_spec 0 (2 * (y * c + x))), (Z.ltb_spec (2 * (y * c + x)) ((r - 1) * c * 2)), (Z.leb_spec 0 (2 * (y * c + x) + 1)), (Z.ltb_spec (2 * (y * c + x) + 1) ((r - 1) * c * 2)); try lia. cbn [andb]. f_equal; f_equal; lia.
    + assert (y = r - 1) as -> by lia. assert (0 <= (r - 1) * c) by nia. destruct (Z.ltb_spec (2 * ((r - 1) * c + x)) ((r - 1) * c * 2)), (Z.ltb_spec (2 * ((r - 1) * c + x) + 1) ((r - 1) * c * 2)); try lia. rewrite !andb_false_r.
      destruct (Z.leb_spec ((r - 1) * c * 2) (2 * ((r - 1) * c + x))), (Z.ltb_spec (2 * ((r - 1) * c + x)) ((r - 1) * c * 2 + c * 2)), (Z.leb_spec ((r - 1) * c * 2) (2 * ((r - 1) * c + x) + 1)), (Z.ltb_spec (2 * ((r - 1) * c + x) + 1) ((r - 1) * c * 2 + c * 2)); try lia. cbn [andb].
      replace (2 * ((r - 1) * c + x) - (r - 1) * c * 2) with (2 * x) by lia. replace (2 * ((r - 1) * c + x) + 1 - (r - 1) * c * 2) with (2 * x + 1) by lia. unfold fresh_cell, blank_byte.
      replace (2 * x) with (x mod 4 * 2 + x / 4 * 8) by (pose proof (Z.div_mod x 4 ltac:(lia)); lia). replace (x mod 4 * 2 + x / 4 * 8 + 1) with (x mod 4 * 2 + 1 + x / 4 * 8) by lia. rewrite !Z_mod_plus_full.
      pose proof (Z.mod_pos_bound x 4 ltac:(lia)) as Hx4. assert (x mod 4 = 0 \/ x mod 4 = 1 \/ x mod 4 = 2 \/ x mod 4 = 3) as [->|[->|[->| ->]]] by lia; reflexivity.
  - split_and!; try done. intros x Hx. rewrite scrollup_mem by done. cbv zeta. destruct (Z.leb_spec 0 (x - CGA_START)), (Z.ltb_spec (x - CGA_START) ((rows s - 1) * columns s * 2)), (Z.leb_spec ((rows s - 1) * columns s * 2) (x - CGA_START)), (Z.ltb_spec (x - CGA_START) ((rows s - 1) * columns s * 2 + columns s * 2)); cbn [andb]; try done; nia.
Qed.

Section Refinement.
Context (mix : Z -> Z -> Z -> Z -> Z) (mix_alpha : Z -> Z -> Z) (fg bg : Color) (Hfg : solid fg) (Hbg : solid bg).

Lemma show_run s f x y c : mode_ok s -> cells_ok f s -> 0 <= x < columns s -> 0 <= y < rows s -> is_u8 c ->
  cells_ok (fun y' x' => if (y' =? y) && (x' =? x) then (c, attribute fg bg) else f y' x') (show mix mix_alpha x y c fg bg s) /\ on_screen s (show mix mix_alpha x y c fg bg s) /\ pos (show mix mix_alpha x y c fg bg s) = pos s.
Proof.
  intros Hm Hf Hx Hy Hc. destruct Hfg as [Cf Af]. destruct Hbg as [Cb Ab]. pose proof (index_bound s x y Hm Hx Hy) as Hi. pose proof (mo_size _ Hm). unfold show. rewrite Af, Ab. destruct (Z.ltb_spec x 0), (Z.leb_spec (columns s) x), (Z.ltb_spec y 0), (Z.ltb_spec (rows s) y); try lia. cbn [orb].
  change (255 <? 255) with false. cbn [andb]. rewrite !getRGB4_value by done. fold (attribute fg bg). rewrite (u8_small c) by done. replace (u16 ((y * columns s + x) * 2)) with (2 * (y * columns s + x)) by (unfold u16; rewrite Z.mod_small; lia). split; [|split; [|done]].
  - intros y' x' Hy' Hx'. cbn [rows columns set_mem mem] in *. unfold store8. pose proof (index_bound s x' y' Hm Hx' Hy') as Hi'.
    destruct (Z.eqb_spec y' y) as [->|Hny], (Z.eqb_spec x' x) as [->|Hnx]; cbn [andb].
    + destruct (Z.eqb_spec (CGA_START + 2 * (y * columns s + x)) (CGA_START + 2 * (y * columns s + x) + 1)); [lia|]. by rewrite !Z.eqb_refl.
    + repeat match goal with |- context [?u =? ?v] => destruct (Z.eqb_spec u v); try lia end. by apply Hf.
    + assert (y' * columns s + x <> y * columns s + x) by nia. repeat match goal with |- context [?u =? ?v] => destruct (Z.eqb_spec u v); try lia end. by apply Hf.
    + assert (y' * columns s + x' <> y * columns s + x) by (destruct (Z.lt_total y' y) as [?|[?|?]]; nia). repeat match goal with |- context [?u =? ?v] => destruct (Z.eqb_spec u v); try lia end. by apply Hf.
  - split_and!; try done. intros a Ha. cbn [mem set_mem]. unfold store8. repeat match goal with |- context [?u =? ?v] => destruct (Z.eqb_spec u v); try lia end.
Qed.
(** The end of [putc]: the next row, with scrolling at the bottom. *)
Lemma newline_run s f x y : mode_ok s -> cells_ok f s -> 0 <= y < rows s ->
  let '(x', y', s') := if rows s <=? y + 1 then (0, u16 (rows s - 1), scrollup s) else (0, y + 1, s) in
  shows (t_newline (rows s) (mkTerm f x y)) (setpos x' y' s') /\ on_screen s (setpos x' y' s').
Proof.
  intros Hm Hf Hy. pose proof Hm as [[C1 C2] R S]. unfold t_newline. cbn [cy cell]. destruct (Z.leb_spec (rows s) (y + 1)), (Z.ltb_spec (y + 1) (rows s)); try lia.
  - destruct (scrollup_run s f Hm Hf) as [H1 H2]. assert (rows s < 2 ^ 16) by nia. replace (u16 (rows s - 1)) with (rows s - 1) by (unfold u16; rewrite Z.mod_small; lia).
    destruct (setpos_run (scrollup s) 0 (rows s - 1) _ (on_screen_mode _ _ H2 Hm) ltac:(cbn; lia) ltac:(cbn; lia) H1) as [H5 H6]. split; [exact H5|]. by eapply on_screen_trans.
  - apply setpos_run; try done; lia.
Qed.

Lemma putc_run s t c : mode_ok s -> shows t s -> is_u8 c -> shows (t_put (columns s) (rows s) (attribute fg bg) c t) (putc mix mix_alpha c fg bg s) /\ on_screen s (putc mix mix_alpha c fg bg s).
Proof.
  intros Hm [H1 H2 H3 H4] Hc. pose proof Hm as [[C1 C2] R S]. pose proof (index_bound s (cx t) (cy t) Hm H3 H4) as Hi. assert (Hw : columns s <= 2 ^ 15 /\ rows s < 2 ^ 15) by nia. unfold putc, getpos. rewrite H2.
  replace ((cy t * columns s + cx t) mod columns s) with (cx t) by (rewrite Z.add_comm, Z_mod_plus_full, Z.mod_small; lia). replace ((cy t * columns s + cx t) / columns s) with (cy t) by (rewrite Z.add_comm, Z.div_add, Z.div_small by lia; lia).
  unfold t_put. assert (Eu : forall v, 0 <= v < 2 ^ 16 -> u16 v = v) by (intros v Hv; apply Z.mod_small; done). destruct (Z.eqb_spec c 10) as [->|Hc10].
  - destruct (Z.leb_spec (columns s) 0); [lia|]. rewrite (Eu (cy t + 1)) by lia. pose proof (newline_run s (cell t) (cx t) (cy t) Hm H1 H4) as Hn. replace (mkTerm (cell t) (cx t) (cy t)) with t in Hn by (by destruct t). destruct (rows s <=? cy t + 1); exact Hn.
  - destruct (show_run s (cell t) (cx t) (cy t) c Hm H1 H3 H4 Hc) as (Hs & Ho & Hp). set (s1 := show mix mix_alpha (cx t) (cy t) c fg bg s) in *. pose proof Ho as (Ec & Er & _ & _). rewrite (Eu (cx t + 1)) by lia. rewrite Ec.
    pose proof (on_screen_mode _ _ Ho Hm) as Hm1. destruct (Z.leb_spec (columns s) (cx t + 1)), (Z.ltb_spec (cx t + 1) (columns s)); try lia.
    + rewrite (Eu (cy t + 1)) by lia. pose proof (newline_run s1 _ (cx t + 1) (cy t) Hm1 Hs ltac:(lia)) as Hn. rewrite Er in *. destruct (rows s <=? cy t + 1); (split; [apply Hn|eapply on_screen_trans; [exact Ho|apply Hn]]).
    + rewrite Er. destruct (Z.leb_spec (rows s) (cy t)); [lia|]. destruct (setpos_run s1 (cx t + 1) (cy t) _ Hm1 ltac:(lia) ltac:(lia) Hs) as [Q1 Q2]. split; [exact Q1|by eapply on_screen_trans].
Qed.

(** C26. The text screen is a terminal: after any text the characters and attributes in the
    memory of the adapter and the cursor are those of a terminal that starts a new row after a
    line feed or at the right margin, and moves everything up by one row when there is none
    left. No byte outside the screen changes. *)
Theorem console_shows_text l : forall s t, mode_ok s -> shows t s -> Forall is_u8 l ->
  shows (foldl (fun t c => t_put (columns s) (rows s) (attribute fg bg) c t) t l) (puts mix mix_alpha l fg bg s) /\ on_screen s (puts mix mix_alpha l fg bg s).
Proof.
  induction l as [|c l IH]; intros s t Hm Ht Hl; [done|]. apply Forall_cons in Hl as [Hc Hl]. destruct (putc_run s t c Hm Ht Hc) as [H1 H2]. unfold puts in *. cbn [foldl].
  destruct (IH (putc mix mix_alpha c fg bg s) _ (on_screen_mode _ _ H2 Hm) H1 Hl) as [H3 H4]. pose proof H2 as (Ec & Er & _). rewrite Ec, Er in H3. split; [exact H3|by eapply on_screen_trans].
Qed.
End Refinement.

(** ** A small screen *)

Definition small_text : CgaText := mkCga 4 2 4 0 (fun _ => 0) [].
Definition small_terminal : terminal := mkTerm (fun _ _ => (0, 0)) 0 0.
Definition light_gray : Color := new_Color_rgb 170 170 170.
Definition black : Color := new_Color_rgb 0 0 0.
Definition no_mix (_ _ _ _ : Z) : Z := 0.
Definition no_alpha (_ _ : Z) : Z := 0.

Lemma console_shows_text_witness : let s := puts no_mix no_alpha [97; 98; 10; 99; 100; 101; 102; 103] light_gray black small_text in
  mem s CGA_START = 99 /\ mem s (CGA_START + 1) = 7 /\ mem s (CGA_START + 8) = 103 /\ pos s = 5 /\ mem s (CGA_START + 16) = 0.
Proof.
  intros s. assert (Hm : mode_ok small_text) by (split; cbn [columns rows small_text]; [split; [lia|done]|lia|lia]). assert (Ht : shows small_terminal small_text) by (split; cbn; try lia; done).
  destruct (console_shows_text no_mix no_alpha light_gray black (conj (coherent_invalidated _ _ _ _) eq_refl) (conj (coherent_invalidated _ _ _ _) eq_refl) [97; 98; 10; 99; 100; 101; 102; 103] small_text small_terminal Hm Ht) as [[H1 H2 _ _] (Ec & Er & _ & Ho)].
  - repeat (constructor; [unfold is_u8; lia|]). constructor.
  - fold s in H1, H2, Ec, Er, Ho. clearbody s. rewrite Ec, Er in H1. rewrite Ec in H2. pose proof (H1 0 0 ltac:(cbn; lia) ltac:(cbn; lia)) as Q1. pose proof (H1 1 0 ltac:(cbn; lia) ltac:(cbn; lia)) as Q2.
    assert (R1 : cell (foldl (fun t c => t_put (columns small_text) (rows small_text) (attribute light_gray black) c t) small_terminal [97; 98; 10; 99; 100; 101; 102; 103]) 0 0 = (99, 7)) by (vm_compute; reflexivity).
    assert (R2 : cell (foldl (fun t c => t_put (columns small_text) (rows small_text) (attribute light_gray black) c t) small_terminal [97; 98; 10; 99; 100; 101; 102; 103]) 1 0 = (103, 7)) by (vm_compute; reflexivity).
    rewrite R1 in Q1. rewrite R2 in Q2. injection Q1 as Q1 Q1'. injection Q2 as Q2 Q2'.
    split_and!; [symmetry; exact Q1|symmetry; exact Q1'|symmetry; exact Q2|etransitivity; [exact H2|vm_compute; reflexivity]|apply Ho; cbn; lia].
Defined.

(** ** Deviations *)

(** The row below the last one is accepted: the character is written behind the screen. *)
Theorem show_below_the_screen : mem (show no_mix no_alpha 0 2 65 light_gray black small_text) (CGA_START + 2 * (4 * 2)) = 65.
Proof. vm_compute. reflexivity. Qed.

(** Only every fourth character of a new row is a blank. *)
Theorem scrolled_row_not_blank : fresh_cell 1 = (0, 0) /\ mem (scrollup small_text) (CGA_START + 8) = 0x20 /\ mem (scrollup small_text) (CGA_START + 10) = 0.
Proof. split_and!; vm_compute; reflexivity. Qed.
