(* ===== verification/Streams.v ===== *)
(** * Output streams

    [lib/string/StringBuffer.cpp] and [lib/stream/OutputStream.cpp]: characters, strings and
    numbers are collected in a buffer of 80 bytes that [flush], a virtual function, hands
    over to what is behind the stream. *)

From S2P Require Import Prelude Format.

(** ** The code *)

(** What the implementation of [flush] does with the characters of the buffer. *)
Class Sink (D : Type) := deliver : list Z -> D -> outcome D.

Record OutputStream (D : Type) := mkStream { sbuffer : list Z; spos : Z; sbase : Z; dest : D }.
Arguments mkStream {D} _ _ _ _.
Arguments sbuffer {D} _.
Arguments spos {D} _.
Arguments sbase {D} _.
Arguments dest {D} _.

Definition BUFFER_SIZE : Z := 80.

Section Operations.
Context {D : Type} `{Sink D}.
Implicit Types s : OutputStream D.

(** What the buffer holds at first is not known. *)
Definition new_OutputStream (junk : list Z) (d : D) : OutputStream D := mkStream junk 0 10 d.

Definition flush s : outcome (OutputStream D) :=
  d ← deliver (take (Z.to_nat (spos s)) (sbuffer s)) (dest s);
  Ret (mkStream (sbuffer s) 0 (sbase s) d).

Definition put (c : Z) s : outcome (OutputStream D) :=
  if BUFFER_SIZE <=? spos s then Fault
  else
    let s := mkStream (<[Z.to_nat (spos s) := c]> (sbuffer s)) (u32 (spos s + 1)) (sbase s) (dest s) in
    if BUFFER_SIZE <=? spos s then flush s else Ret s.

(** [i] runs from 0 to [len]. *)
Fixpoint bytes_loop (n : nat) (i : nat) (data : list Z) s : outcome (OutputStream D) :=
  match n with
  | O => Ret s
  | S n => c ← or_fault (data !! i); s ← put c s; bytes_loop n (S i) data s
  end.

Definition writeBytes (data : list Z) (len : Z) s : outcome (OutputStream D) := bytes_loop (Z.to_nat len) 0 data s.

Definition print_char (c : Z) s : outcome (OutputStream D) := put c s.

(** A string in memory: the bytes from its address on. *)
Fixpoint print_cstr (string : list Z) s : outcome (OutputStream D) :=
  match string with
  | [] => Fault
  | c :: string => if c =? 0 then Ret s else s ← put c s; print_cstr string s
  end.

(** [for (div = 1; ival/div >= base; div *= base);] *)
Fixpoint div_loop (fuel : nat) (ival base div : Z) : outcome Z :=
  match fuel with
  | O => Diverge
  | S fuel => if div =? 0 then Fault else if base <=? ival / div then div_loop fuel ival base (u32 (div * base)) else Ret div
  end.

Definition digit_char (digit : Z) : Z := if digit <? 10 then 48 + digit else u8 (65 + digit - 10).

Fixpoint digit_loop (fuel : nat) (ival div : Z) s : outcome (OutputStream D) :=
  match fuel with
  | O => Diverge
  | S fuel =>
      if 0 <? div then
        s ← put (digit_char (u8 (ival / div))) s;
        digit_loop fuel (ival mod div) (div / sbase s) s
      else Ret s
  end.

(** [unsigned long] has 32 bits: at most 32 digits. *)
Definition print_unsigned (ival : Z) s : outcome (OutputStream D) :=
  s ← (if sbase s =? 8 then put 48 s else if sbase s =? 16 then s ← put 48 s; put 120 s else Ret s);
  div ← div_loop 33 ival (sbase s) 1;
  digit_loop 33 ival div s.

Definition print_signed (ival : Z) s : outcome (OutputStream D) :=
  if ival <? 0 then s ← put 45 s; print_unsigned (u32 (- ival)) s else print_unsigned (u32 ival) s.

Definition set_base (b : Z) s : OutputStream D := mkStream (sbuffer s) (spos s) b (dest s).

Definition print_pointer (ptr : Z) s : outcome (OutputStream D) :=
  let oldbase := sbase s in
  s ← print_unsigned ptr (set_base 16 s);
  Ret (set_base oldbase s).

Definition endl s : outcome (OutputStream D) := s ← print_char 10 s; flush s.
Definition bin s : OutputStream D := set_base 2 s.
Definition oct s : OutputStream D := set_base 8 s.
Definition dec s : OutputStream D := set_base 10 s.
Definition hex s : OutputStream D := set_base 16 s.

(** ** A sequence of outputs *)

(** What is written with [operator <<]: 8 and 16 bit numbers become [long] first. *)
Inductive item : Type :=
| Char (c : Z)
| Cstr (l : list Z)
| Unsigned (n : Z)
| Signed (n : Z)
| Pointer (p : Z)
| Bytes (l : list Z)
| Endl
| Base (b : Z).

Definition print (i : item) s : outcome (OutputStream D) :=
  match i with
  | Char c => print_char c s
  | Cstr l => print_cstr (l ++ [0]) s
  | Unsigned n => print_unsigned n s
  | Signed n => print_signed n s
  | Pointer p => print_pointer p s
  | Bytes l => writeBytes l (Z.of_nat (length l)) s
  | Endl => endl s
  | Base b => Ret (if b =? 2 then bin s else if b =? 8 then oct s else if b =? 16 then hex s else dec s)
  end.
End Operations.

(** ** The text of a sequence *)

(** A number in positional notation. *)
Fixpoint numeral (fuel : nat) (b n : Z) : list Z :=
  match fuel with
  | O => []
  | S fuel => if n <? b then [digit_char n] else numeral fuel b (n / b) ++ [digit_char (n mod b)]
  end.

Definition number_text (b n : Z) : list Z :=
  (if b =? 8 then [48] else if b =? 16 then [48; 120] else []) ++ numeral 32 b n.

Definition item_text (b : Z) (i : item) : list Z :=
  match i with
  | Char c => [c]
  | Cstr l => l
  | Unsigned n => number_text b n
  | Signed n => if n <? 0 then 45 :: number_text b (- n) else number_text b n
  | Pointer p => number_text 16 p
  | Bytes l => l
  | Endl => [10]
  | Base _ => []
  end.

Definition item_base (b : Z) (i : item) : Z := match i with Base b => b | _ => b end.

Fixpoint text_of (b : Z) (l : list item) : list Z :=
  match l with [] => [] | i :: l => item_text b i ++ text_of (item_base b i) l end.

(** The ranges of the C types; strings end at the first zero. *)
Definition item_ok (i : item) : Prop :=
  match i with
  | Cstr l => 0 ∉ l
  | Unsigned n | Pointer n => is_u32 n
  | Signed n => - 2 ^ 31 <= n < 2 ^ 31
  | Base b => b = 2 \/ b = 8 \/ b = 10 \/ b = 16
  | _ => True
  end.

(** ** What is behind a stream *)

(** A sink that has received the characters [w] takes more of those it accepts and appends them. *)
Class SinkSpec (D : Type) `{Sink D} := {
  received : list Z -> D -> Prop;
  accepts : Z -> Prop;
  deliver_spec : forall w l d, received w d -> Forall accepts l -> exists d', deliver l d = Ret d' /\ received (w ++ l) d'
}.

Section Refinement.
Context {D : Type} `{SinkSpec D}.
Implicit Types (s : OutputStream D) (w l : list Z).

(** The characters written so far: those delivered and those in the buffer. *)
Definition wrote w s : Prop :=
  length (sbuffer s) = Z.to_nat BUFFER_SIZE /\ 0 <= spos s < BUFFER_SIZE /\
  Forall accepts (take (Z.to_nat (spos s)) (sbuffer s)) /\
  exists w0, received w0 (dest s) /\ w = w0 ++ take (Z.to_nat (spos s)) (sbuffer s).

(** An operation writes [l] and nothing else. *)
Definition emits (op : OutputStream D -> outcome (OutputStream D)) l s : Prop :=
  forall w, wrote w s -> exists s', op s = Ret s' /\ wrote (w ++ l) s' /\ sbase s' = sbase s.

Lemma flush_run w s : length (sbuffer s) = Z.to_nat BUFFER_SIZE -> Forall accepts (take (Z.to_nat (spos s)) (sbuffer s)) ->
  (exists w0, received w0 (dest s) /\ w = w0 ++ take (Z.to_nat (spos s)) (sbuffer s)) ->
  exists s', flush s = Ret s' /\ wrote w s' /\ sbase s' = sbase s /\ received w (dest s').
Proof.
  intros Hl Ha (w0 & Hw0 & ->). unfold flush. destruct (deliver_spec _ _ _ Hw0 Ha) as (d & E & Hd). rewrite E. outcome.
  eexists. split; [done|]. split_and!; try done. split_and!; cbn [dest spos sbuffer]; change (Z.to_nat 0) with 0%nat; rewrite ?take_0; try done. eexists. split; [done|]. by rewrite app_nil_r.
Qed.

Lemma put_run c s : accepts c -> emits (put c) [c] s.
Proof.
  intros Hc w (Hl & Hp & Ha & w0 & Hw0 & ->). unfold put. decide_bool. cbn [spos]. unfold BUFFER_SIZE in *. rewrite (u32_small (spos s + 1)) by (unfold is_u32; lia).
  assert (Et : take (Z.to_nat (spos s + 1)) (<[Z.to_nat (spos s) := c]> (sbuffer s)) = take (Z.to_nat (spos s)) (sbuffer s) ++ [c]).
  { replace (Z.to_nat (spos s + 1)) with (S (Z.to_nat (spos s))) by lia. rewrite (take_S_r _ _ c) by (apply list_lookup_insert_eq; lia). by rewrite take_insert_ge by lia. }
  assert (Ha' : Forall accepts (take (Z.to_nat (spos s)) (sbuffer s) ++ [c])) by (apply Forall_app; split; [done|by apply Forall_singleton]).
  destruct (Z.leb_spec 80 (spos s + 1)).
  - destruct (flush_run (w0 ++ take (Z.to_nat (spos s)) (sbuffer s) ++ [c]) (mkStream (<[Z.to_nat (spos s) := c]> (sbuffer s)) (spos s + 1) (sbase s) (dest s))) as (s' & E & Hw & Hb & _).
    + cbn [sbuffer]. by rewrite length_insert.
    + cbn [sbuffer spos]. by rewrite Et.
    + cbn [sbuffer spos dest]. rewrite Et. by exists w0.
    + exists s'. split_and!; [done| |done]. by rewrite <- app_assoc.
  - eexists. split; [done|]. split; [|done]. split_and!; cbn [sbuffer spos dest]; [by rewrite length_insert|unfold BUFFER_SIZE; lia|unfold BUFFER_SIZE; lia|by rewrite Et|].
    exists w0. split; [done|]. by rewrite Et, app_assoc.
Qed.

(** Operations one after the other. *)
Lemma emits_bind op1 op2 l1 l2 s : emits op1 l1 s -> (forall s', sbase s' = sbase s -> emits op2 l2 s') -> emits (fun s => s ← op1 s; op2 s) (l1 ++ l2) s.
Proof.
  intros H1 H2 w Hw. destruct (H1 w Hw) as (s1 & E1 & Hw1 & Hb1). rewrite E1. outcome. destruct (H2 s1 Hb1 _ Hw1) as (s2 & E2 & Hw2 & Hb2).
  exists s2. split_and!; [done|by rewrite app_assoc|congruence].
Qed.

Lemma emits_nil s : emits Ret [] s.
Proof. intros w Hw. exists s. by rewrite app_nil_r. Qed.

Lemma bytes_run data : forall n i s, Forall accepts data -> (i + n <= length data)%nat -> emits (bytes_loop n i data) (take n (drop i data)) s.
Proof.
  induction n as [|n IH]; intros i s Ha Hi; [apply emits_nil|]. cbn [bytes_loop]. destruct (lookup_lt_is_Some_ex data i) as [c Hc]; [lia|]. rewrite Hc. outcome.
  rewrite (drop_S _ _ _ Hc). cbn [take]. apply (emits_bind (put c) (bytes_loop n (S i) data) [c]); [apply put_run; by eapply Forall_lookup_1|]. intros s' _. apply IH; [done|lia].
Qed.

Lemma cstr_run l : forall s, Forall accepts l -> 0 ∉ l -> emits (print_cstr (l ++ [0])) l s.
Proof.
  induction l as [|c l IH]; intros s Ha Hz; [apply emits_nil|]. apply Forall_cons in Ha as [Hc Ha]. apply not_elem_of_cons in Hz as [Hz Hl]. cbn [app print_cstr]. decide_bool.
  apply (emits_bind (put c) (print_cstr (l ++ [0])) [c]); [by apply put_run|]. intros s' _. by apply IH.
Qed.

(** *** Numbers *)

(** The [k + 1] digits of a number below [b ^ (k + 1)], from the left. *)
Fixpoint wide (k : nat) (b n : Z) : list Z :=
  match k with O => [digit_char n] | S k' => digit_char (n / b ^ Z.of_nat k) :: wide k' b (n mod b ^ Z.of_nat k) end.

Lemma wide_snoc k : forall b n, 2 <= b -> 0 <= n -> wide (S k) b n = wide k b (n / b) ++ [digit_char (n mod b)].
Proof.
  induction k as [|k IH]; intros b n Hb Hn.
  - cbn [wide app]. change (Z.of_nat 1) with 1. by rewrite Z.pow_1_r.
  - change (wide (S (S k)) b n) with (digit_char (n / b ^ Z.of_nat (S (S k))) :: wide (S k) b (n mod b ^ Z.of_nat (S (S k)))).
    assert (Hp : 0 < b ^ Z.of_nat (S k)) by (apply Z.pow_pos_nonneg; lia). rewrite IH by (try lia; apply Z.mod_pos_bound, Z.pow_pos_nonneg; lia).
    replace (b ^ Z.of_nat (S (S k))) with (b * b ^ Z.of_nat (S k)) by (rewrite (Nat2Z.inj_succ (S k)), Z.pow_succ_r by lia; done).
    cbn [wide app]. rewrite <- Z.div_div by lia. rewrite Z.rem_mul_r by lia. f_equal. f_equal.
    + f_equal. rewrite Z.add_comm, Z.mul_comm, Z.div_add_l by lia. rewrite (Z.div_small (n mod b) b) by (apply Z.mod_pos_bound; lia). lia.
    + f_equal. f_equal. rewrite Z.add_comm, Z.mul_comm, Z.add_comm, Z.mod_add by lia. apply Z.mod_mod. lia.
Qed.

Lemma numeral_wide fuel : forall k b n, 2 <= b -> 0 <= n < b ^ (Z.of_nat k + 1) -> b ^ Z.of_nat k <= n \/ k = 0%nat -> (k < fuel)%nat -> numeral fuel b n = wide k b n.
Proof.
  induction fuel as [|fuel IH]; intros k b n Hb Hn Hk Hf; [lia|]. cbn [numeral]. destruct (Z.ltb_spec n b).
  - destruct k as [|k]; [done|]. exfalso. destruct Hk as [Hk|]; [|done]. rewrite Nat2Z.inj_succ, Z.pow_succ_r in Hk by lia. assert (0 < b ^ Z.of_nat k) by (apply Z.pow_pos_nonneg; lia). nia.
  - destruct k as [|k]; [rewrite Z.pow_1_r in Hn; lia|]. rewrite wide_snoc by lia. f_equal. assert (Hp : 0 < b ^ Z.of_nat k) by (apply Z.pow_pos_nonneg; lia). destruct Hk as [Hk|]; [|done].
    rewrite Nat2Z.inj_succ, Z.pow_succ_r in Hk by lia. replace (Z.of_nat (S k) + 1) with (Z.succ (Z.of_nat k + 1)) in Hn by lia. rewrite Z.pow_succ_r in Hn by lia.
    apply IH; [lia| |left; apply Z.div_le_lower_bound; lia|lia]. split; [apply Z.div_pos; lia|apply Z.div_lt_upper_bound; lia].
Qed.

Lemma div_run fuel : forall j b n, 2 <= b -> is_u32 n -> b ^ Z.of_nat j <= n \/ j = 0%nat -> (33 <= j + fuel)%nat -> (j <= 32)%nat ->
  exists k, div_loop fuel n b (b ^ Z.of_nat j) = Ret (b ^ Z.of_nat k) /\ (k < 32)%nat /\ n < b ^ (Z.of_nat k + 1) /\ (b ^ Z.of_nat k <= n \/ k = 0%nat).
Proof.
  induction fuel as [|fuel IH]; intros j b n Hb Hn Hj Hf Hj32; unfold is_u32 in *.
  - lia.
  - assert (Hp : 0 < b ^ Z.of_nat j) by (apply Z.pow_pos_nonneg; lia). assert (Hj' : (j < 32)%nat).
    { destruct Hj as [Hj| ->]; [|lia]. destruct (decide (j < 32)%nat) as [|Hge]; [done|]. assert (2 ^ 32 <= 2 ^ Z.of_nat j) by (apply Z.pow_le_mono_r; lia). assert (2 ^ Z.of_nat j <= b ^ Z.of_nat j) by (apply Z.pow_le_mono_l; lia). lia. }
    cbn [div_loop]. decide_bool. assert (Es : b ^ Z.of_nat j * b = b ^ Z.of_nat (S j)) by (rewrite Nat2Z.inj_succ, Z.pow_succ_r by lia; lia). pose proof (Z.mul_div_le n (b ^ Z.of_nat j) Hp) as Hle. pose proof (Z.mul_succ_div_gt n (b ^ Z.of_nat j) Hp) as Hgt.
    destruct (Z.leb_spec b (n / b ^ Z.of_nat j)).
    + assert (b ^ Z.of_nat j * b <= n) by nia. rewrite u32_small by (unfold is_u32; nia). rewrite Es. apply IH; try lia.
    + exists j. split_and!; try done. rewrite Z.pow_add_r, Z.pow_1_r by lia. nia.
Qed.

Lemma digit_run k : forall fuel n s, 2 <= sbase s <= 16 -> 0 <= n < sbase s ^ (Z.of_nat k + 1) -> (k + 1 < fuel)%nat -> Forall accepts (wide k (sbase s) n) ->
  emits (digit_loop fuel n (sbase s ^ Z.of_nat k)) (wide k (sbase s) n) s.
Proof.
  induction k as [|k IH]; intros fuel n s Hb Hn Hf Ha.
  - destruct fuel as [|[|fuel]]; [lia..|]. cbn [wide] in *. change (Z.of_nat 0) with 0 in *. rewrite Z.pow_0_r in *. rewrite Z.add_0_l, Z.pow_1_r in Hn. intros w Hw.
    destruct (put_run (digit_char n) s (proj1 (Forall_singleton _ _) Ha) w Hw) as (s' & E & Hw' & Hb'). cbn [digit_loop]. change (0 <? 1) with true. cbv iota. rewrite Z.div_1_r, (u8_small n) by (unfold is_u8; lia). rewrite E. outcome.
    rewrite Hb', Z.div_small by lia. by exists s'.
  - destruct fuel as [|fuel]; [lia|]. cbn [digit_loop]. assert (Hp : 0 < sbase s ^ Z.of_nat (S k)) by (apply Z.pow_pos_nonneg; lia). decide_bool. cbn [wide] in *. apply Forall_cons in Ha as [Ha1 Ha2].
    assert (Hd : n / sbase s ^ Z.of_nat (S k) < sbase s) by (apply Z.div_lt_upper_bound; [lia|]; rewrite Z.pow_add_r, Z.pow_1_r in Hn by lia; lia). rewrite u8_small by (split; [apply Z.div_pos; lia|lia]).
    intros w Hw. destruct (put_run _ s Ha1 w Hw) as (s1 & E1 & Hw1 & Hb1). rewrite E1. outcome. replace (sbase s ^ Z.of_nat (S k) / sbase s1) with (sbase s1 ^ Z.of_nat k).
    2: { rewrite Hb1, Nat2Z.inj_succ, Z.pow_succ_r, Z.mul_comm, Z.div_mul by lia. done. }
    pose proof (Z.mod_pos_bound n _ Hp) as Hm. rewrite Hb1 in *. destruct (IH fuel (n mod sbase s ^ Z.of_nat (S k)) s1) with (w := w ++ [digit_char (n / sbase s ^ Z.of_nat (S k))]) as (s2 & E2 & Hw2 & Hb2); rewrite ?Hb1; try done.
    + by replace (Z.of_nat k + 1) with (Z.of_nat (S k)) by lia.
    + lia.
    + rewrite Hb1 in E2, Hw2. exists s2. split_and!; [done| |congruence]. by rewrite <- app_assoc in Hw2.
Qed.

Lemma unsigned_run n s : 2 <= sbase s <= 16 -> is_u32 n -> Forall accepts (number_text (sbase s) n) -> emits (print_unsigned n) (number_text (sbase s) n) s.
Proof.
  intros Hb Hn Ha. unfold print_unsigned, number_text in *. apply Forall_app in Ha as [Hp Ha]. apply emits_bind.
  - intros w Hw. cbv beta. revert w Hw. destruct (Z.eqb_spec (sbase s) 8); [apply put_run; exact (proj1 (Forall_singleton _ _) Hp)|]. destruct (Z.eqb_spec (sbase s) 16); [|apply emits_nil].
    apply Forall_cons in Hp as [Hp1 Hp2]. apply (emits_bind (put 48) (put 120) [48]); [by apply put_run|]. intros s' _. apply put_run. exact (proj1 (Forall_singleton _ _) Hp2).
  - intros s' Hb'. destruct (div_run 33 0 (sbase s') n) as (k & E & Hk & Hlt & Hge); [lia|done|by right|lia|lia|]. change (sbase s' ^ Z.of_nat 0) with 1 in E. intros w Hw. cbv beta. rewrite E. outcome. revert w Hw. unfold is_u32 in Hn.
    rewrite (numeral_wide 32 k) in * by (rewrite <- ?Hb'; done || lia). rewrite <- Hb' in *. apply digit_run; try done; lia.
Qed.

Lemma print_run i s : 2 <= sbase s <= 16 -> item_ok i -> Forall accepts (item_text (sbase s) i) ->
  forall w, wrote w s -> exists s', print i s = Ret s' /\ wrote (w ++ item_text (sbase s) i) s' /\ sbase s' = item_base (sbase s) i.
Proof.
  intros Hb Hi Ha. destruct i as [c|l|n|n|p|l| |b]; cbn [print item_ok item_text item_base] in *.
  - apply put_run. exact (proj1 (Forall_singleton _ _) Ha).
  - by apply cstr_run.
  - by apply unsigned_run.
  - unfold print_signed. destruct (Z.ltb_spec n 0).
    + apply Forall_cons in Ha as [Ha1 Ha2]. rewrite u32_small by (unfold is_u32; lia). apply (emits_bind (put 45) (print_unsigned (- n)) [45]); [by apply put_run|]. intros s' Hb'. rewrite <- Hb' in *. apply unsigned_run; [lia|unfold is_u32; lia|done].
    + rewrite u32_small by (unfold is_u32; lia). apply unsigned_run; [lia|unfold is_u32; lia|done].
  - intros w Hw. unfold print_pointer. destruct (unsigned_run p (set_base 16 s)) with (w := w) as (s' & E & Hw' & Hb'); [cbn; lia|done|done|done|]. rewrite E. outcome. eexists. split_and!; [done|done|done].
  - unfold writeBytes. rewrite Nat2Z.id. pose proof (bytes_run l (length l) 0 s Ha ltac:(lia)) as Hl. rewrite drop_0, firstn_all in Hl. exact Hl.
  - intros w Hw. unfold endl, print_char. destruct (put_run 10 s) with (w := w) as (s1 & E1 & (Hl & Hp & Ha1 & Hr) & Hb1); [exact (proj1 (Forall_singleton _ _) Ha)|done|]. rewrite E1. outcome.
    destruct (flush_run _ s1 Hl Ha1 Hr) as (s2 & E2 & Hw2 & Hb2 & _). exists s2. split_and!; [done|done|congruence].
  - intros w Hw. rewrite app_nil_r. destruct Hi as [->|[->|[->| ->]]]; (eexists; split_and!; [reflexivity|exact Hw|reflexivity]).
Qed.

Lemma items_run (l : list item) : forall s w, 2 <= sbase s <= 16 -> Forall item_ok l -> Forall accepts (text_of (sbase s) l) -> wrote w s ->
  exists s', foldM print l s = Ret s' /\ wrote (w ++ text_of (sbase s) l) s'.
Proof.
  induction l as [|i l IH]; intros s w Hb Hl Ha Hw; cbn [foldM text_of] in *; [exists s; by rewrite app_nil_r|]. apply Forall_cons in Hl as [Hi Hl]. apply Forall_app in Ha as [Ha1 Ha2].
  destruct (print_run i s Hb Hi Ha1 w Hw) as (s1 & E1 & Hw1 & Hb1). rewrite E1. outcome. rewrite <- Hb1 in *. destruct (IH s1 _ ltac:(rewrite Hb1; destruct i; cbn [item_base item_ok] in *; lia) Hl Ha2 Hw1) as (s2 & E2 & Hw2).
  exists s2. split; [done|]. by rewrite app_assoc.
Qed.
End Refinement.

(** ** The numerals *)

Lemma digit_char_value d : 0 <= d < 16 -> digit_value (digit_char d) = d.
Proof. intros Hd. unfold digit_char, digit_value. destruct (Z.ltb_spec d 10); [decide_bool; lia|]. rewrite u8_small by (unfold is_u8; lia). decide_bool. lia. Qed.

(** The text of a number stands for this number. *)
Lemma numeral_value fuel : forall b n, 2 <= b <= 16 -> 0 <= n < b ^ Z.of_nat fuel -> value b (numeral fuel b n) = n.
Proof.
  induction fuel as [|fuel IH]; intros b n Hb Hn; [cbn in *; lia|]. cbn [numeral]. destruct (Z.ltb_spec n b).
  - unfold value. cbn [foldl]. rewrite digit_char_value by lia. lia.
  - rewrite value_snoc, digit_char_value by (pose proof (Z.mod_pos_bound n b ltac:(lia)); lia). rewrite Nat2Z.inj_succ, Z.pow_succ_r in Hn by lia.
    rewrite IH; [pose proof (Z.div_mod n b ltac:(lia)); lia|done|]. split; [apply Z.div_pos; lia|apply Z.div_lt_upper_bound; lia].
Qed.

(** No zero in front. *)
Lemma numeral_head fuel : forall b n, 2 <= b <= 16 -> 0 < n < b ^ Z.of_nat fuel -> exists c l, numeral fuel b n = c :: l /\ c <> 48.
Proof.
  induction fuel as [|fuel IH]; intros b n Hb Hn; [cbn in *; lia|]. cbn [numeral]. destruct (Z.ltb_spec n b).
  - exists (digit_char n), []. split; [done|]. unfold digit_char. destruct (Z.ltb_spec n 10); [lia|]. rewrite u8_small by (unfold is_u8; lia). lia.
  - rewrite Nat2Z.inj_succ, Z.pow_succ_r in Hn by lia. destruct (IH b (n / b)) as (c & l & E & Hc); [done|split; [apply Z.div_str_pos; lia|apply Z.div_lt_upper_bound; lia]|]. rewrite E. by exists c, (l ++ [digit_char (n mod b)]).
Qed.

(** ** Claims *)

(** C24. A stream prints what it is given: whatever is behind it, after any sequence of characters,
    strings, bytes, pointers and numbers in the base last chosen and a [flush] it has received
    exactly their text, in order, however often the buffer was full in between. A number in base
    [b] is printed without leading zeros and its digits have the number as their value. *)
Theorem stream_prints_text {D : Type} `{SinkSpec D} (s : OutputStream D) (l : list item) (w : list Z)
    (Hbase : 2 <= sbase s <= 16) (Hl : Forall item_ok l) (Ha : Forall accepts (text_of (sbase s) l)) (Hw : wrote w s) :
  (exists s', (s ← foldM print l s; flush s) = Ret s' /\ received (w ++ text_of (sbase s) l) (dest s')) /\
  (forall b n, 2 <= b <= 16 -> is_u32 n -> value b (numeral 32 b n) = n /\ (n = 0 \/ exists c ds, numeral 32 b n = c :: ds /\ c <> 48)).
Proof.
  split.
  - destruct (items_run l s w Hbase Hl Ha Hw) as (s1 & E1 & (Hlen & _ & Hacc & Hr)). rewrite E1. outcome.
    destruct (flush_run _ s1 Hlen Hacc Hr) as (s2 & E2 & _ & _ & Hd). exists s2. by split.
  - intros b n Hb Hn. unfold is_u32 in Hn. assert (Hp : 2 ^ 32 <= b ^ Z.of_nat 32) by (change (Z.of_nat 32) with 32; apply Z.pow_le_mono_l; lia).
    split; [apply numeral_value; lia|]. destruct (decide (n = 0)); [by left|right]. apply numeral_head; lia.
Qed.

(** A sink that keeps what it gets. *)
#[local] Instance list_sink : Sink (list Z) := fun l d => Ret (d ++ l).

#[local] Instance list_sink_spec : SinkSpec (list Z).
Proof. refine {| received w d := w = d; accepts _ := True |}. intros w l d -> _. by eexists. Defined.

(** "-5 0x1F 037" *)
Lemma stream_prints_text_witness :
  (s ← foldM print [Signed (-5); Char 32; Base 16; Unsigned 31; Char 32; Base 8; Unsigned 31] (new_OutputStream (replicate 80 0) []); s ← flush s; Ret (dest s)) =
  Ret [45; 53; 32; 48; 120; 49; 70; 32; 48; 51; 55].
Proof.
  set (s0 := new_OutputStream (replicate 80 0) []). destruct (stream_prints_text s0 [Signed (-5); Char 32; Base 16; Unsigned 31; Char 32; Base 8; Unsigned 31] []) as [(s' & E & Hs) _].
  - cbn. lia.
  - repeat (constructor; [cbn; unfold is_u32; try lia; tauto|]). constructor.
  - apply Forall_forall. done.
  - split_and!; [done|done|done|by apply Forall_nil|]. by exists [].
  - revert E. destruct (foldM print _ s0) as [s1| | |]; outcome; try done. intros ->. outcome. rewrite <- Hs. reflexivity.
Defined.
