(* ===== verification/Ansi.v ===== *)
(** * Coloured output

    [lib/stream/AnsiOutputStream.cpp]: a stream to the text screen that interprets the escape
    sequences of colours. The text driver is the CGA screen of [Console]. *)

From S2P Require Import Prelude Memory CString Color Console Streams.

Definition TERM_BLACK : Color := new_Color_rgb 0 0 0.
Definition TERM_RED : Color := new_Color_rgb 205 0 0.
Definition TERM_GREEN : Color := new_Color_rgb 0 205 0.
Definition TERM_YELLOW : Color := new_Color_rgb 205 205 0.
Definition TERM_BLUE : Color := new_Color_rgb 0 0 238.
Definition TERM_MAGENTA : Color := new_Color_rgb 205 0 205.
Definition TERM_CYAN : Color := new_Color_rgb 0 205 205.
Definition TERM_WHITE : Color := new_Color_rgb 229 229 229.
Definition TERM_BRIGHT_BLACK : Color := new_Color_rgb 127 127 127.
Definition TERM_BRIGHT_RED : Color := new_Color_rgb 255 0 0.
Definition TERM_BRIGHT_GREEN : Color := new_Color_rgb 0 255 0.
Definition TERM_BRIGHT_YELLOW : Color := new_Color_rgb 255 255 0.
Definition TERM_BRIGHT_BLUE : Color := new_Color_rgb 92 92 255.
Definition TERM_BRIGHT_MAGENTA : Color := new_Color_rgb 255 0 255.
Definition TERM_BRIGHT_CYAN : Color := new_Color_rgb 0 255 255.
Definition TERM_BRIGHT_WHITE : Color := new_Color_rgb 255 255 255.

Definition ESCAPE : Z := 27.
Definition ESCAPE_END : Z := 109.

Record AnsiOutputStream := mkAnsi {
  fgColor : Color;
  bgColor : Color;
  isEscapeActive : bool;
  currentEscapeCode : list Z;
  escapeCodeIndex : Z;
  screen : CgaText
}.

(** What the array of the code holds at first is not known. *)
Definition new_Ansi (junk : list Z) (s : CgaText) : AnsiOutputStream := mkAnsi TERM_WHITE TERM_BLACK false junk 0 s.

Definition getColor (colorCode : Z) (bright : bool) : Color :=
  if (colorCode =? 30) || (colorCode =? 40) then if bright then TERM_BRIGHT_BLACK else TERM_BLACK
  else if (colorCode =? 31) || (colorCode =? 41) then if bright then TERM_BRIGHT_RED else TERM_RED
  else if (colorCode =? 32) || (colorCode =? 42) then if bright then TERM_BRIGHT_GREEN else TERM_GREEN
  else if (colorCode =? 33) || (colorCode =? 43) then if bright then TERM_BRIGHT_YELLOW else TERM_YELLOW
  else if (colorCode =? 34) || (colorCode =? 44) then if bright then TERM_BRIGHT_BLUE else TERM_BLUE
  else if (colorCode =? 35) || (colorCode =? 45) then if bright then TERM_BRIGHT_MAGENTA else TERM_MAGENTA
  else if (colorCode =? 36) || (colorCode =? 46) then if bright then TERM_BRIGHT_CYAN else TERM_CYAN
  else if (colorCode =? 37) || (colorCode =? 47) then if bright then TERM_BRIGHT_WHITE else TERM_WHITE
  else if colorCode =? 0 then TERM_WHITE
  else if colorCode <? 40 then TERM_WHITE else TERM_BLACK.

(** A string in a local array. *)
Definition local_string (l : list Z) : Mem := fun a => default 0 (if a <? 0 then None else l !! Z.to_nat a).

(** The end of an escape sequence: the new colours, and whether bright colours are in use. *)
Definition end_escape (bright : bool) (a : AnsiOutputStream) : outcome (bool * AnsiOutputStream) :=
  c2 ← or_fault (currentEscapeCode a !! 2%nat);
  c3 ← or_fault (currentEscapeCode a !! 3%nat);
  c4 ← or_fault (currentEscapeCode a !! 4%nat);
  n ← strtoint 3 (local_string [c2; if 3 <? escapeCodeIndex a then c3 else 0; 0]) 0;
  let colorCode := u32 n in
  let bright := bright || (c4 =? 59) in
  let '(fg, bg) :=
    if colorCode =? 0 then (TERM_WHITE, TERM_BLACK)
    else if colorCode <? 40 then (getColor colorCode bright, bgColor a)
    else (fgColor a, getColor colorCode bright) in
  Ret (bright, mkAnsi fg bg false (currentEscapeCode a) 0 (screen a)).

Section Output.
Context (mix : Z -> Z -> Z -> Z -> Z) (mix_alpha : Z -> Z -> Z).

(** The body of the loop over the buffer. *)
Definition ansi_char (c : Z) (st : bool * AnsiOutputStream) : outcome (bool * AnsiOutputStream) :=
  let '(bright, a) := st in
  let active := isEscapeActive a || (c =? ESCAPE) in
  let a := mkAnsi (fgColor a) (bgColor a) active (currentEscapeCode a) (escapeCodeIndex a) (screen a) in
  if active && (c =? ESCAPE_END) then end_escape bright a
  else if active then
    if Z.of_nat (length (currentEscapeCode a)) <=? escapeCodeIndex a then Fault
    else Ret (bright, mkAnsi (fgColor a) (bgColor a) active (<[Z.to_nat (escapeCodeIndex a) := c]> (currentEscapeCode a)) (u8 (escapeCodeIndex a + 1)) (screen a))
  else
    let '(x, y) := getpos (screen a) in
    let s := if c =? 10 then show mix mix_alpha x y 32 (fgColor a) (bgColor a) (screen a) else screen a in
    Ret (bright, mkAnsi (fgColor a) (bgColor a) active (currentEscapeCode a) (escapeCodeIndex a) (putc mix mix_alpha c (fgColor a) (bgColor a) s)).

(** [flush]; bright colours are forgotten between two calls. *)
#[local] Instance ansi_sink : Sink AnsiOutputStream := fun l a =>
  '(_, a) ← foldM ansi_char l (false, a); Ret a.

(** ** The terminal behind it *)

Section Terminal.
Context (w h attr : Z).

(** A line break removes the mark of the cursor. *)
Definition a_put (t : terminal) (c : Z) : terminal :=
  t_put w h attr c (if c =? 10 then mkTerm (fun y x => if (y =? cy t) && (x =? cx t) then (32, attr) else cell t y x) (cx t) (cy t) else t).

Context (t0 : terminal).

(** After the text [l] the screen shows what a terminal would. *)
Record displays (l : list Z) (a : AnsiOutputStream) : Prop := {
  di_plain : isEscapeActive a = false;
  di_fg : solid (fgColor a);
  di_bg : solid (bgColor a);
  di_attr : attribute (fgColor a) (bgColor a) = attr;
  di_size : columns (screen a) = w /\ rows (screen a) = h;
  di_mode : mode_ok (screen a);
  di_shows : shows (foldl a_put t0 l) (screen a)
}.

Lemma getpos_run t s : mode_ok s -> shows t s -> getpos s = (cx t, cy t).
Proof.
  intros [[C1 _] _ _] [_ Hp Hx _]. unfold getpos. rewrite Hp. f_equal; [rewrite Z.add_comm, Z_mod_plus_full; apply Z.mod_small; lia|].
  rewrite Z.add_comm, Z.div_add, Z.div_small by lia. lia.
Qed.

(** Only the screen changes. *)
Definition same_style (a a' : AnsiOutputStream) : Prop :=
  fgColor a' = fgColor a /\ bgColor a' = bgColor a /\ escapeCodeIndex a' = escapeCodeIndex a /\ currentEscapeCode a' = currentEscapeCode a.

(** A character that is not part of an escape sequence. *)
Lemma plain_run l c b a : displays l a -> is_u8 c -> c <> ESCAPE -> exists a', ansi_char c (b, a) = Ret (b, a') /\ displays (l ++ [c]) a' /\ same_style a a'.
Proof.
  intros [Ha Hf Hb Hat [Hc Hr] Hm Hs] Hu Hne. unfold ansi_char. rewrite Ha. destruct (Z.eqb_spec c ESCAPE); [done|]. cbn [orb andb screen]. rewrite (getpos_run _ _ Hm Hs).
  set (t := foldl a_put t0 l) in *. set (t' := if c =? 10 then mkTerm (fun y x => if (y =? cy t) && (x =? cx t) then (32, attr) else cell t y x) (cx t) (cy t) else t).
  set (s := if c =? 10 then show mix mix_alpha (cx t) (cy t) 32 (fgColor a) (bgColor a) (screen a) else screen a).
  assert (Hs' : shows t' s /\ on_screen (screen a) s).
  { subst t' s. destruct (c =? 10); [|done]. pose proof Hs as [H1 H2 H3 H4]. destruct (show_run mix mix_alpha (fgColor a) (bgColor a) Hf Hb (screen a) (cell t) (cx t) (cy t) 32 Hm H1 H3 H4 ltac:(unfold is_u8; lia)) as (Q1 & Q2 & Q3). split; [|exact Q2].
    pose proof Q2 as (Ec & Er & _). rewrite Hat in Q1. split; cbn [cell cx cy]; rewrite ?Q3, ?Ec, ?Er; try done. rewrite <- Ec, <- Er. exact Q1. }
  destruct Hs' as [Hs1 Hs2]. pose proof (on_screen_mode _ _ Hs2 Hm) as Hm'. pose proof Hs2 as (Ec & Er & _).
  destruct (putc_run mix mix_alpha (fgColor a) (bgColor a) Hf Hb s t' c Hm' Hs1 Hu) as [H1 H2]. eexists. split; [done|]. split_and!; try done. pose proof H2 as (Ec' & Er' & _).
  split; cbn [isEscapeActive fgColor bgColor screen]; fold s; try done.
  - split; congruence.
  - by eapply on_screen_mode.
  - rewrite foldl_snoc. unfold a_put at 1. fold t t'. rewrite Ec, Er, Hc, Hr, Hat in H1. exact H1.
Qed.

Lemma plain_text_run l2 : forall l1 b a, displays l1 a -> Forall (fun c => is_u8 c /\ c <> ESCAPE) l2 ->
  exists a', foldM ansi_char l2 (b, a) = Ret (b, a') /\ displays (l1 ++ l2) a' /\ same_style a a'.
Proof.
  induction l2 as [|c l2 IH]; intros l1 b a Hd Hl; cbn [foldM]; [exists a; by rewrite app_nil_r|]. apply Forall_cons in Hl as [[Hc Hne] Hl].
  destruct (plain_run l1 c b a Hd Hc Hne) as (a1 & E1 & Hd1 & S1 & S2 & S3 & S4). rewrite E1. outcome. destruct (IH _ b a1 Hd1 Hl) as (a2 & E2 & Hd2 & T1 & T2 & T3 & T4). exists a2. rewrite <- app_assoc in Hd2.
  split_and!; [done|done|split_and!; congruence].
Qed.

(** The stream keeps its promise to whoever prints on it. *)
#[local] Instance ansi_sink_spec : SinkSpec AnsiOutputStream.
Proof.
  refine {| received := displays; accepts c := is_u8 c /\ c <> ESCAPE |}. intros l1 l2 a Ha Hl. unfold deliver, ansi_sink.
  destruct (plain_text_run l2 l1 false a Ha Hl) as (a' & E & Hd & _). rewrite E. outcome. by exists a'.
Defined.
End Terminal.
End Output.

(** ** Escape sequences *)

(** The colour a code stands for, or [None] for the reset. *)
Definition code_digits (code : Z) : list Z := if code =? 0 then [48] else [48 + code / 10; 48 + code mod 10].

(** ["\u001b[31m"] and ["\u001b[31;1m"] *)
Definition sequence_of (code : Z) (bright : bool) : list Z := [27; 91] ++ code_digits code ++ (if bright then [59; 49] else []) ++ [109].

Definition is_code (code : Z) : Prop := code = 0 \/ 30 <= code <= 37 \/ 40 <= code <= 47.

(** The palette of a terminal: black, red, green, yellow, blue, magenta, cyan and
    white as red, green and blue parts, and their bright versions. *)
Definition palette (bright : bool) : list (Z * Z * Z) :=
  if bright
  then [(127, 127, 127); (255, 0, 0); (0, 255, 0); (255, 255, 0); (92, 92, 255); (255, 0, 255); (0, 255, 255); (255, 255, 255)]
  else [(0, 0, 0); (205, 0, 0); (0, 205, 0); (205, 205, 0); (0, 0, 238); (205, 0, 205); (0, 205, 205); (229, 229, 229)].

Definition palette_color (bright : bool) (i : Z) : Color :=
  let '(r, g, b) := nth (Z.to_nat i) (palette bright) (0, 0, 0) in new_Color_rgb r g b.

(** The foreground and background a sequence asks for: 0 is white on black, the
    thirties choose the foreground, the forties the background. *)
Definition asked (code : Z) (bright : bool) (fg bg : Color) : Color * Color :=
  if decide (code = 0) then (palette_color false 7, palette_color false 0)
  else if decide (code < 40) then (palette_color bright (code - 30), bg)
  else (fg, palette_color bright (code - 40)).

Section Escape.
Context (mix : Z -> Z -> Z -> Z -> Z) (mix_alpha : Z -> Z -> Z).

(** The colours the code chooses. *)
Definition recolor (code : Z) (bright : bool) (fg bg : Color) : Color * Color :=
  if code =? 0 then (TERM_WHITE, TERM_BLACK) else if code <? 40 then (getColor code bright, bg) else (fg, getColor code bright).

(** A character of a sequence is stored. *)
Lemma store_run c b fg bg act code i scr : act || (c =? ESCAPE) = true -> c <> ESCAPE_END -> 0 <= i < Z.of_nat (length code) -> (length code <= 16)%nat ->
  ansi_char mix mix_alpha c (b, mkAnsi fg bg act code i scr) = Ret (b, mkAnsi fg bg true (<[Z.to_nat i := c]> code) (i + 1) scr).
Proof.
  intros Ha Hc Hi H16. unfold ansi_char. cbn [isEscapeActive fgColor bgColor currentEscapeCode escapeCodeIndex screen]. rewrite Ha. destruct (Z.eqb_spec c ESCAPE_END); [done|]. cbn [andb]. decide_bool. by rewrite u8_small by (unfold is_u8; lia).
Qed.

(** The state in which a sequence with the characters [l] ends. *)
Lemma collect_run l : forall b fg bg code i scr, Forall (fun c => c <> ESCAPE_END) l -> 0 <= i -> i + Z.of_nat (length l) <= Z.of_nat (length code) -> (length code <= 16)%nat ->
  foldM (ansi_char mix mix_alpha) (l ++ [ESCAPE_END]) (b, mkAnsi fg bg true code i scr) =
  end_escape b (mkAnsi fg bg true (take (Z.to_nat i) code ++ l ++ drop (Z.to_nat i + length l) code) (i + Z.of_nat (length l)) scr).
Proof.
  induction l as [|c l IH]; intros b fg bg code i scr Hl Hi Hn H16; cbn [app foldM length] in *.
  - rewrite outcome_bind_Ret, Nat.add_0_r, take_drop, Z.add_0_r. done.
  - apply Forall_cons in Hl as [Hc Hl]. rewrite store_run by (done || lia). outcome.
    rewrite IH; [|done|lia|rewrite length_insert; lia|by rewrite length_insert]. do 2 f_equal; [|lia].
    replace (Z.to_nat (i + 1)) with (S (Z.to_nat i)) by lia. rewrite (take_S_r _ _ c) by (apply list_lookup_insert_eq; lia). rewrite take_insert_ge by lia. rewrite drop_insert_lt by lia. rewrite <- app_assoc. cbn [app].
    do 4 f_equal. lia.
Qed.

(** The characters of a code are its decimal digits. *)
Definition code_reads (code : Z) : bool :=
  forallb (fun c => negb (c =? ESCAPE_END)) (code_digits code) &&
  match strtoint 3 (local_string [nth 0 (code_digits code) 0; nth 1 (code_digits code) 0; 0]) 0 with Ret n => u32 n =? code | _ => false end.

Lemma code_number code : is_code code -> Forall (fun c => c <> ESCAPE_END) (code_digits code) /\
  exists n, strtoint 3 (local_string [nth 0 (code_digits code) 0; nth 1 (code_digits code) 0; 0]) 0 = Ret n /\ u32 n = code.
Proof.
  intros Hc. assert (Hin : In code [0; 30; 31; 32; 33; 34; 35; 36; 37; 40; 41; 42; 43; 44; 45; 46; 47]) by (unfold is_code in Hc; cbn [In]; lia). clear Hc.
  assert (Hall : forallb code_reads [0; 30; 31; 32; 33; 34; 35; 36; 37; 40; 41; 42; 43; 44; 45; 46; 47] = true) by (vm_compute; reflexivity).
  rewrite forallb_forall in Hall. specialize (Hall _ Hin). unfold code_reads in Hall. apply andb_prop in Hall as [H1 H2]. split.
  - apply Forall_forall. intros c Hc. rewrite forallb_forall in H1. apply list_elem_of_In in Hc. specialize (H1 c Hc). by destruct (Z.eqb_spec c ESCAPE_END).
  - destruct (strtoint _ _ _) as [n| | |]; try done. exists n. split; [done|]. by apply Z.eqb_eq.
Qed.

(** An escape sequence sets a colour and nothing else. Bright colours are chosen by the fourth
    byte of the array, which a sequence without them leaves as it was. *)
Lemma escape_run code br b a : is_code code -> (code = 0 -> br = false) -> isEscapeActive a = false -> escapeCodeIndex a = 0 -> length (currentEscapeCode a) = 16%nat ->
  let c := b || br || bool_decide (currentEscapeCode a !! 4%nat = Some 59) in
  exists a', foldM (ansi_char mix mix_alpha) (sequence_of code br) (b, a) = Ret (c, a') /\
    (fgColor a', bgColor a') = recolor code c (fgColor a) (bgColor a) /\ isEscapeActive a' = false /\ escapeCodeIndex a' = 0 /\ screen a' = screen a /\ length (currentEscapeCode a') = 16%nat /\
    currentEscapeCode a' !! 4%nat = if br then Some 59 else currentEscapeCode a !! 4%nat.
Proof.
  intros Hc Hbr Ha Hi Hl c. destruct (code_number code Hc) as (Hend & n & En & Hn). destruct a as [fg bg act code0 i scr]. cbn [isEscapeActive escapeCodeIndex currentEscapeCode screen] in *. subst act i.
  set (l := code_digits code ++ (if br then [59; 49] else [])). assert (Eseq : sequence_of code br = 27 :: (91 :: l) ++ [ESCAPE_END]) by (unfold sequence_of; subst l; cbn [app]; by rewrite <- app_assoc).
  rewrite Eseq. change (foldM (ansi_char mix mix_alpha) (27 :: ?x) ?st) with (s ← ansi_char mix mix_alpha 27 st; foldM (ansi_char mix mix_alpha) x s). rewrite store_run by (done || lia). outcome.
  assert (Hlen : (length l <= 4)%nat) by (subst l; rewrite length_app; unfold code_digits; destruct (code =? 0), br; simpl; lia).
  rewrite collect_run; [|constructor; [done|]; apply Forall_app; split; [done|destruct br; repeat (constructor; [done|]); constructor]|done|cbn [length]; rewrite length_insert; simpl; lia|rewrite length_insert; lia].
  do 16 (destruct code0 as [|? code0]; [discriminate Hl|]). destruct code0; [|discriminate Hl]. clear Hl. unfold end_escape. cbn [currentEscapeCode].
  assert (E59 : bool_decide (Some z3 = Some 59) = (z3 =? 59)) by (destruct (Z.eqb_spec z3 59) as [->|]; [by apply bool_decide_true|apply bool_decide_false; congruence]).
  subst l c. unfold recolor, code_digits in *. generalize dependent (strtoint 3). intros st En. generalize dependent local_string. intros ls En. generalize dependent u32. intros u Hn.
  change ([z; z0; z1; z2; z3; z4; z5; z6; z7; z8; z9; z10; z11; z12; z13; z14] !! 4%nat) with (Some z3). rewrite E59. clear E59.
  destruct (Z.eqb_spec code 0) as [H0|H0]; [rewrite (Hbr H0) in *|destruct br]; simpl in *; rewrite En; simpl; rewrite Hn; decide_bool.
  - rewrite orb_false_r. eexists. split_and!; reflexivity.
  - rewrite orb_true_r. destruct (code <? 40); eexists; split_and!; reflexivity.
  - rewrite orb_false_r. destruct (code <? 40); eexists; split_and!; reflexivity.
Qed.

(** A text in colours: each part with the sequence before it. *)
Definition segment : Type := Z * bool * list Z.

Definition segment_chars (g : segment) : list Z := let '(code, br, l) := g in sequence_of code br ++ l.

(** The screen after it: each part in the colours that were asked for. *)
Fixpoint painted (w h : Z) (fg bg : Color) (gs : list segment) (t : terminal) : terminal :=
  match gs with
  | [] => t
  | (code, br, l) :: gs =>
      let '(fg, bg) := asked code br fg bg in
      painted w h fg bg gs (foldl (a_put w h (attribute fg bg)) t l)
  end.

(** The colours asked for in the end. *)
Definition last_asked (fg bg : Color) (gs : list segment) : Color * Color :=
  foldl (fun '(fg, bg) '(code, br, _) => asked code br fg bg) (fg, bg) gs.

(** No plain colour is asked for after a bright one. *)
Fixpoint steady (bright : bool) (gs : list segment) : Prop :=
  match gs with
  | [] => True
  | (code, br, _) :: gs => (bright = true -> br = true \/ code = 0) /\ steady (bright || br) gs
  end.

(** The colours the code chooses are those of the palette. *)
Lemma getColor_palette br : forall i, 0 <= i < 8 -> getColor (30 + i) br = palette_color br i /\ getColor (40 + i) br = palette_color br i.
Proof.
  intros i Hi. assert (Hin : i = 0 \/ i = 1 \/ i = 2 \/ i = 3 \/ i = 4 \/ i = 5 \/ i = 6 \/ i = 7) by lia.
  destruct br; repeat destruct Hin as [-> |Hin]; try (by split); by subst i.
Qed.

Lemma recolor_asked code br b fg bg : is_code code -> (b = true -> br = true \/ code = 0) -> recolor code (b || br) fg bg = asked code br fg bg.
Proof.
  intros Hc Hb. unfold recolor, asked. destruct (decide (code = 0)) as [-> |Hne]; [done|]. decide_bool.
  assert (Ebr : b || br = br) by (destruct b, br; try done; by destruct Hb as [?| ?]). rewrite Ebr.
  unfold is_code in Hc. destruct (decide (code < 40)) as [Hlt|Hge]; decide_bool; f_equal.
  - destruct (getColor_palette br (code - 30) ltac:(lia)) as [E _]. rewrite <- E. f_equal. lia.
  - destruct (getColor_palette br (code - 40) ltac:(lia)) as [_ E]. rewrite <- E. f_equal. lia.
Qed.

Definition segment_ok (g : segment) : Prop :=
  let '(code, br, l) := g in is_code code /\ (code = 0 -> br = false) /\ Forall (fun c => is_u8 c /\ c <> ESCAPE) l.

Lemma solid_rgb r g b : solid (new_Color_rgb r g b).
Proof. split; [apply coherent_invalidated|done]. Qed.

Lemma getColor_solid code br : solid (getColor code br).
Proof. unfold getColor. repeat (match goal with |- solid (if ?c then _ else _) => destruct c end; try apply solid_rgb). Qed.

Lemma recolor_solid code br fg bg : solid fg -> solid bg -> solid (fst (recolor code br fg bg)) /\ solid (snd (recolor code br fg bg)).
Proof. intros Hf Hb. unfold recolor. destruct (code =? 0); [split; apply solid_rgb|]. destruct (code <? 40); split; cbn [fst snd]; auto using getColor_solid. Qed.

(** Bright colours are in use, or the array does not remember them. *)
Definition remembers (b : bool) (a : AnsiOutputStream) : Prop := currentEscapeCode a !! 4%nat = Some 59 -> b = true.

Lemma segments_run w h gs : forall b t a, Forall segment_ok gs -> steady b gs -> displays w h (attribute (fgColor a) (bgColor a)) t [] a ->
  escapeCodeIndex a = 0 -> length (currentEscapeCode a) = 16%nat -> remembers b a ->
  exists b' a', foldM (ansi_char mix mix_alpha) (concat (map segment_chars gs)) (b, a) = Ret (b', a') /\
    shows (painted w h (fgColor a) (bgColor a) gs t) (screen a') /\ columns (screen a') = w /\ rows (screen a') = h /\
    (fgColor a', bgColor a') = last_asked (fgColor a) (bgColor a) gs.
Proof.
  induction gs as [|[[code br] l] gs IH]; intros b t a Hgs Hst Hd Hi Hl Hr; [exists b, a; split_and!; [done|apply (di_shows _ _ _ _ _ _ Hd)|apply (di_size _ _ _ _ _ _ Hd)..|done]|].
  apply Forall_cons in Hgs as [(Hc & Hbr & Ht) Hgs]. cbn [steady] in Hst. destruct Hst as [Hst0 Hst]. unfold last_asked. cbn [map concat segment_chars painted foldl]. rewrite !foldM_app. destruct Hd as [D1 D2 D3 D4 D5 D6 D7].
  destruct (escape_run code br b a Hc Hbr D1 Hi Hl) as (a1 & E1 & Ecol & Ha1 & Hi1 & Hs1 & Hl1 & H41). rewrite E1. outcome.
  assert (Eb : b || br || bool_decide (currentEscapeCode a !! 4%nat = Some 59) = b || br) by (unfold remembers in Hr; destruct (decide (currentEscapeCode a !! 4%nat = Some 59)) as [Hq|Hq]; [by rewrite (Hr Hq)|rewrite bool_decide_false by done; apply orb_false_r]).
  rewrite Eb in *. clear Eb. rewrite <- !(recolor_asked code br b) by done. set (c := b || br) in *. destruct (recolor_solid code c (fgColor a) (bgColor a) D2 D3) as [S1 S2]. rewrite <- Ecol in *. cbn [fst snd] in S1, S2.
  assert (Hd1 : displays w h (attribute (fgColor a1) (bgColor a1)) t [] a1) by (split; rewrite ?Hs1; done).
  destruct (plain_text_run mix mix_alpha w h _ t l [] c a1 Hd1 Ht) as (a2 & E2 & Hd2 & K1 & K2 & K3 & K4). cbn [app] in Hd2. rewrite E2. outcome.
  rewrite <- K1, <- K2. apply (IH c); [done|done| |by rewrite K3|by rewrite K4|].
  - destruct Hd2 as [F1 F2 F3 F4 F5 F6 F7]. split; rewrite ?K1, ?K2; done.
  - unfold remembers. rewrite K4, H41. subst c. destruct br; [by rewrite orb_true_r|]. rewrite orb_false_r. exact Hr.
Qed.
End Escape.

(** ** Claims *)

(** C25. Coloured output: on a stream behind which an escape sequence is not open, [flush] of parts
    of text, each after the sequence of a colour, shows the parts one after the other like a
    terminal, each in the foreground and background colour its sequences ask for, by the
    palette of sixteen colours, and the stream keeps the last ones; the sequences themselves are not shown. A plain colour after a
    bright one is excluded: it comes out bright, [bright_remembered]. Text without
    sequences that is printed on the stream in any way is shown in the current colours. *)
Theorem colored_text (mix : Z -> Z -> Z -> Z -> Z) (mix_alpha : Z -> Z -> Z) (t : terminal) (a : AnsiOutputStream) (gs : list segment)
    (Hd : displays (columns (screen a)) (rows (screen a)) (attribute (fgColor a) (bgColor a)) t [] a)
    (Hi : escapeCodeIndex a = 0) (Hl : length (currentEscapeCode a) = 16%nat) (H4 : currentEscapeCode a !! 4%nat <> Some 59)
    (Hgs : Forall segment_ok gs) (Hst : steady false gs) :
  (exists a', ansi_sink mix mix_alpha (concat (map segment_chars gs)) a = Ret a' /\
     shows (painted (columns (screen a)) (rows (screen a)) (fgColor a) (bgColor a) gs t) (screen a') /\
     columns (screen a') = columns (screen a) /\ rows (screen a') = rows (screen a) /\
     (fgColor a', bgColor a') = last_asked (fgColor a) (bgColor a) gs) /\
  (forall junk l, length junk = 80%nat -> Forall item_ok l -> Forall (fun c => is_u8 c /\ c <> ESCAPE) (text_of 10 l) ->
     exists s', (s ← foldM (print (H := ansi_sink mix mix_alpha)) l (new_OutputStream junk a); flush (H := ansi_sink mix mix_alpha) s) = Ret s' /\
       shows (foldl (a_put (columns (screen a)) (rows (screen a)) (attribute (fgColor a) (bgColor a))) t (text_of 10 l)) (screen (dest s'))).
Proof.
  split.
  - destruct (segments_run mix mix_alpha (columns (screen a)) (rows (screen a)) gs false t a Hgs Hst Hd Hi Hl) as (b' & a' & E & Hs); [by intros ?|].
    unfold ansi_sink. rewrite E. outcome. by exists a'.
  - intros junk l Hj Hok Hch. set (I := ansi_sink_spec mix mix_alpha (columns (screen a)) (rows (screen a)) (attribute (fgColor a) (bgColor a)) t).
    destruct (items_run (H0 := I) l (new_OutputStream junk a) []) as (s1 & E1 & Hlen & _ & Hacc & Hr); [cbn; lia|done|exact Hch|split_and!; [exact Hj|done|done|apply Forall_nil_2|by exists []]|].
    rewrite E1. outcome. destruct (flush_run (H0 := I) _ s1 Hlen Hacc Hr) as (s2 & E2 & _ & _ & Hs2). exists s2. split; [exact E2|]. apply (di_shows _ _ _ _ _ _ Hs2).
Qed.

Definition fresh_ansi : AnsiOutputStream := new_Ansi (replicate 16 0) small_text.

(** A red "a", a reset "b" and a bright magenta "c". *)
Lemma colored_text_witness : exists a', ansi_sink no_mix no_alpha ([27; 91; 51; 49; 109; 97] ++ [27; 91; 48; 109; 98] ++ [27; 91; 51; 53; 59; 49; 109; 99]) fresh_ansi = Ret a' /\
  mem (screen a') CGA_START = 97 /\ mem (screen a') (CGA_START + 1) = 4 /\ mem (screen a') (CGA_START + 2) = 98 /\ mem (screen a') (CGA_START + 3) = 15 /\
  mem (screen a') (CGA_START + 4) = 99 /\ mem (screen a') (CGA_START + 5) = 13.
Proof.
  destruct (colored_text no_mix no_alpha small_terminal fresh_ansi [(31, false, [97]); (0, false, [98]); (35, true, [99])]) as [(a' & E & [Hc _ _ _] & Ec & Er & _) _].
  - split; try done; try apply solid_rgb.
  - done.
  - done.
  - done.
  - repeat constructor; cbn; unfold is_code, ESCAPE; try lia; done.
  - split_and!; try done; discriminate.
  - exists a'. split; [exact E|]. set (t := painted _ _ _ _ _ _) in Hc. rewrite Ec, Er in Hc.
    pose proof (Hc 0 0 ltac:(cbn; lia) ltac:(cbn; lia)) as Q0. pose proof (Hc 0 1 ltac:(cbn; lia) ltac:(cbn; lia)) as Q1.
    pose proof (Hc 0 2 ltac:(cbn; lia) ltac:(cbn; lia)) as Q2.
    assert (R : cell t 0 0 = (97, 4) /\ cell t 0 1 = (98, 15) /\ cell t 0 2 = (99, 13)) by (split_and!; vm_compute; reflexivity). destruct R as (R0 & R1 & R2).
    rewrite R0 in Q0. rewrite R1 in Q1. rewrite R2 in Q2.
    injection Q0 as Q0 Q0'. injection Q1 as Q1 Q1'. injection Q2 as Q2 Q2'. split_and!; symmetry; assumption.
Defined.

(** ** Deviations *)

(** A bright colour is not forgotten: the plain red of a later call is bright. *)
Theorem bright_remembered :
  (a ← ansi_sink no_mix no_alpha (sequence_of 32 true) fresh_ansi; a ← ansi_sink no_mix no_alpha (sequence_of 31 false) a; Ret (fgColor a)) = Ret TERM_BRIGHT_RED.
Proof. vm_compute. reflexivity. Qed.

(** A sequence of more than 16 characters is written behind its array. *)
Theorem long_sequence_overflows : ansi_sink no_mix no_alpha (27 :: replicate 16 49) fresh_ansi = Fault.
Proof. vm_compute. reflexivity. Qed.
