(* ===== verification/Files.v ===== *)
(** * Files

    [lib/file/File.cpp], [Directory.cpp], [FileStatus.cpp]: opening, reading and writing files
    through the virtual file system. A file is also an output stream: what is printed on it
    is collected by [Streams] and written by [flush]. *)

From S2P Require Import Prelude Spinlock CString Format KString Array Collections ArrayList HashMap StringKeys RamFs Filesystem Streams.

(** ** The code *)

(** The interface [FsNode] of the nodes of a driver. *)
Class FsNode (D : Type) := {
  n_getFileType : Z -> D -> outcome Z;
  n_getLength : Z -> D -> outcome Z;
  n_getChildren : Z -> D -> outcome (Array String);
  n_readData : Z -> list Z -> Z -> Z -> D -> outcome (Z * list Z);
  n_writeData : Z -> list Z -> Z -> Z -> D -> outcome (Z * D)
}.

Record File := mkFile { fdriver : Z; fnode : Z; fpath : String; fmode : String; fpos : Z }.

Definition set_fpos (p : Z) (f : File) : File := mkFile (fdriver f) (fnode f) (fpath f) (fmode f) p.

(** 'r', 'w', 'a', '+' *)
Definition MODE_R : Z := 114.
Definition MODE_W : Z := 119.
Definition MODE_A : Z := 97.
Definition MODE_PLUS : Z := 43.

(** [SEEK_ORIGIN] *)
Definition SEEK_START : Z := 0.
Definition SEEK_CURRENT : Z := 1.
Definition SEEK_END : Z := 2.

Section Operations.
Context {M D : Type} `{MapOps M String Z} `{FsDriver D} `{FsNode D}.
Implicit Types (f : File).

Abbreviation FS := (ST (Filesystem M D)).

Definition new_File (fuel : nat) (node : Z * Z) (path mode : String) : FS File :=
  p ← lift (parsePath fuel path);
  p ← lift (assign p);
  m ← lift (assign mode);
  a ← lift (beginsWith (String_cstr (Some [MODE_A])) mode);
  regular ← (if (a : bool) then t ← ask (n_getFileType (snd node)) (fst node); mret (t =? REGULAR_FILE) else mret false);
  pos ← (if (regular : bool) then ask (n_getLength (snd node)) (fst node) else mret 0);
  mret (mkFile (fst node) (snd node) p m pos).

(** [None] is the null pointer. *)
Definition create_and_open (fuel : nat) (path mode : String) : FS (option File) :=
  r ← createFile fuel path;
  if r =? SUCCESS then node ← getNode fuel path; f ← new_File fuel node path mode; mret (Some f) else mret None.

Definition open (fuel : nat) (path mode : String) : FS (option File) :=
  if String_length mode =? 0 then mret None
  else
    m0 ← lift (at_index mode 0);
    m1 ← lift (at_index mode 1);
    if negb (m0 =? MODE_W) && negb (m0 =? MODE_R) && negb (m0 =? MODE_A) || negb (m1 =? MODE_PLUS) && negb (m1 =? 0) then mret None
    else
      node ← getNode fuel path;
      if snd node =? 0 then
        if m0 =? MODE_R then mret None
        else if m0 =? MODE_W then create_and_open fuel path mode
        else if m0 =? MODE_A then create_and_open fuel path mode
        else mret None
      else
        t ← ask (n_getFileType (snd node)) (fst node);
        if t =? DIRECTORY_FILE then mret None
        else if (m0 =? MODE_W) && (m1 =? MODE_PLUS) then
          r ← createFile fuel path;
          if negb (r =? 0) then node ← getNode fuel path; f ← new_File fuel node path mode; mret (Some f)
          else mret None
        else f ← new_File fuel node path mode; mret (Some f).

Definition getFileType f : FS Z := ask (n_getFileType (fnode f)) (fdriver f).
Definition getLength f : FS Z := ask (n_getLength (fnode f)) (fdriver f).

(** [mode[0] == 'r' && mode[1] != '+'] and [mode[0] != 'r' && mode[1] != '+'] *)
Definition read_only f : FS bool :=
  m0 ← lift (at_index (fmode f) 0); m1 ← lift (at_index (fmode f) 1); mret ((m0 =? MODE_R) && negb (m1 =? MODE_PLUS)).
Definition write_only f : FS bool :=
  m0 ← lift (at_index (fmode f) 0); m1 ← lift (at_index (fmode f) 1); mret (negb (m0 =? MODE_R) && negb (m1 =? MODE_PLUS)).

(** Where the next write goes. *)
Definition write_pos f : FS Z :=
  m0 ← lift (at_index (fmode f) 0); if m0 =? MODE_A then getLength f else mret (fpos f).

Definition writeBytes (data : list Z) (len : Z) f : FS (Z * File) :=
  ro ← read_only f;
  if (ro : bool) then mret (0, f)
  else
    pos ← write_pos f;
    ret ← tell (n_writeData (fnode f) data pos len) (fdriver f);
    mret (ret, set_fpos (u64 (fpos f + ret)) f).

Definition writeChar (c : Z) f : FS (Z * File) :=
  ro ← read_only f;
  if (ro : bool) then mret (0, f)
  else
    pos ← write_pos f;
    ret ← tell (n_writeData (fnode f) [c] pos 1) (fdriver f);
    mret (if ret =? 1 then (1, set_fpos (u64 (fpos f + 1)) f) else (0, f)).

(** A string in memory: the bytes from its address on. *)
Definition writeString (string : list Z) f : FS (Z * File) :=
  writeBytes string (Z.of_nat (length (Printf.until_zero string))) f.

Definition readBytes (buf : list Z) (len : Z) f : FS (Z * list Z * File) :=
  wo ← write_only f;
  if (wo : bool) then mret (0, buf, f)
  else
    '(ret, buf) ← ask (n_readData (fnode f) buf (fpos f) len) (fdriver f);
    mret (ret, buf, set_fpos (u64 (fpos f + ret)) f).

(** What the local variable holds at first is not known. *)
Definition readChar (junk : Z) f : FS (Z * File) :=
  wo ← write_only f;
  if (wo : bool) then mret (0, f)
  else
    '(ret, buf) ← ask (n_readData (fnode f) [junk] (fpos f) 1) (fdriver f);
    if ret =? 1 then c ← lift (or_fault (buf !! 0%nat)); mret (c, set_fpos (u64 (fpos f + 1)) f) else mret (0, f).

Definition store (buf : list Z) (i c : Z) : outcome (list Z) :=
  if (0 <=? i) && (i <? Z.of_nat (length buf)) then Ret (<[Z.to_nat i := c]> buf) else Fault.

(** The loop of [readString]: the index at its end, and whether it returned. *)
Fixpoint string_loop (n : nat) (junk i : Z) (buf : list Z) f : FS (bool * Z * list Z * File) :=
  match n with
  | O => mret (false, i, buf, f)
  | S n =>
      '(c, f) ← readChar junk f;
      buf ← lift (store buf i c);
      if (c =? 0) || (c =? 10) || (c =? END_OF_FILE) then buf ← lift (store buf i 0); mret (true, i, buf, f)
      else string_loop n junk (i + 1) buf f
  end.

Definition readString (junk : Z) (buf : list Z) (len : Z) f : FS (Z * list Z * File) :=
  wo ← write_only f;
  if (wo : bool) then mret (0, buf, f)
  else
    '(done_, i, buf, f) ← string_loop (Z.to_nat (u64 (len - 1))) junk 0 buf f;
    if (done_ : bool) then mret (i, buf, f)
    else buf ← lift (store buf (i + 1) 0); mret (i, buf, f).

Definition setPos (offset origin : Z) f : FS File :=
  if origin =? SEEK_START then mret (set_fpos offset f)
  else if origin =? SEEK_CURRENT then mret (set_fpos (u64 (fpos f + offset)) f)
  else if origin =? SEEK_END then l ← getLength f; mret (set_fpos (u64 (l + offset)) f)
  else mret f.

(** [operator >>] into a new string. *)
Definition read_all f : FS (list Z * File) :=
  len ← getLength f;
  '(_, buf, f) ← readBytes (replicate (Z.to_nat (len + 1)) 0) len f;
  mret (buf, f).

(** [operator >>] into another stream: the characters up to the first zero. *)
Definition print_file {O : Type} `{Sink O} f (o : OutputStream O) : FS (File * OutputStream O) :=
  '(buf, f) ← read_all f;
  o ← lift (print_cstr buf o);
  o ← lift (flush o);
  mret (f, o).

Definition file_getName f : FS String := ask (d_nodeName (fnode f)) (fdriver f).

(** [flush]: the file and the file system behind it. *)
#[export] Instance file_sink : Sink (File * Filesystem M D) := fun l st =>
  let '(f, fs) := st in '(r, fs) ← writeBytes l (Z.of_nat (length l)) f fs; Ret (snd r, fs).

(** ** Directories and the state of files *)

Record Directory := mkDirectory { ddriver : Z; dnode : Z; dpath : String }.

Definition new_Directory (fuel : nat) (node : Z * Z) (path : String) : FS Directory :=
  p ← lift (parsePath fuel path); p ← lift (assign p); mret (mkDirectory (fst node) (snd node) p).

Definition dir_open (fuel : nat) (path : String) : FS (option Directory) :=
  node ← getNode fuel path;
  if snd node =? 0 then mret None
  else
    t ← ask (n_getFileType (snd node)) (fst node);
    if t =? DIRECTORY_FILE then d ← new_Directory fuel node path; mret (Some d) else mret None.

(** The path is split at occurrences of itself, into at most 47 parts. *)
Definition mount_name (fuel : nat) (path : String) : outcome String :=
  tmp ← split fuel path 47 path;
  if length_ tmp =? 0 then substring 1 (String_length path) path else at_ tmp (u32 (length_ tmp - 1)).

Definition dir_getName (fuel : nat) (d : Directory) : FS String :=
  name ← ask (d_nodeName (dnode d)) (ddriver d);
  is_root ← lift (equals name slash);
  moved ← lift (if (is_root : bool) then differs (dpath d) slash else Ret false);
  if (moved : bool) then lift (mount_name fuel (dpath d)) else mret name.

Definition dir_getChildren (d : Directory) : FS (Array String) := ask (n_getChildren (dnode d)) (ddriver d).

Definition exists_ (fuel : nat) (path : String) : FS bool := node ← getNode fuel path; mret (negb (snd node =? 0)).

(** [FileStatus] has the same members as [Directory]. *)
Definition stat (fuel : nat) (path : String) : FS (option Directory) :=
  node ← getNode fuel path;
  if snd node =? 0 then mret None else d ← new_Directory fuel node path; mret (Some d).

Definition stat_getFileType (d : Directory) : FS Z := ask (n_getFileType (dnode d)) (ddriver d).
Definition stat_getLength (d : Directory) : FS Z := ask (n_getLength (dnode d)) (ddriver d).

Definition stat_getName (fuel : nat) (d : Directory) : FS String :=
  t ← stat_getFileType d;
  name ← ask (d_nodeName (dnode d)) (ddriver d);
  is_root ← lift (if t =? DIRECTORY_FILE then equals name slash else Ret false);
  moved ← lift (if (is_root : bool) then differs (dpath d) slash else Ret false);
  if (moved : bool) then lift (mount_name fuel (dpath d)) else mret name.
End Operations.

(** The nodes of the driver in memory. *)
#[export] Instance ram_nodes `{Junk Z} : FsNode RamFsDriver := {|
  n_getFileType a d := n ← node_at (nodes d) a; Ret (fileType n);
  n_getLength a d := n ← node_at (nodes d) a; Ret (length_of n);
  n_getChildren a d := RamFs.getChildren a (nodes d);
  n_readData a buf pos num d := n ← node_at (nodes d) a; ram_readData n buf pos num;
  n_writeData a buf pos num d :=
    n ← node_at (nodes d) a; '(r, n) ← writeData n buf pos num; Ret (r, set_nodes (<[a := n]> (nodes d)) d)
|}.

(** ** Changing the data of a node *)

Section Data.
Implicit Types (m : gmap Z VirtualNode) (n : VirtualNode) (d : RamFsDriver).

(** A map with the same names, types and children. *)
Definition same_tree m m' : Prop :=
  forall a, (fun n => (name n, fileType n, children n)) <$> m' !! a = (fun n => (name n, fileType n, children n)) <$> m !! a.

Lemma same_tree_lookup m m' a n' : same_tree m m' -> m' !! a = Some n' ->
  exists n, m !! a = Some n /\ name n = name n' /\ fileType n = fileType n' /\ children n = children n'.
Proof. intros Hs Ha. specialize (Hs a). rewrite Ha in Hs. destruct (m !! a) as [n|]; [|done]. injection Hs as H1 H2 H3. by exists n. Qed.

Lemma same_tree_sym m m' : same_tree m m' -> same_tree m' m.
Proof. intros Hs a. by rewrite Hs. Qed.

Lemma same_tree_insert m c n n' : m !! c = Some n -> name n' = name n -> fileType n' = fileType n -> children n' = children n -> same_tree m (<[c := n']> m).
Proof. intros Hc H1 H2 H3 a. destruct (decide (a = c)) as [->|]; [|by rewrite lookup_insert_ne]. rewrite lookup_insert_eq, Hc. simpl. congruence. Qed.

Lemma same_tree_title m m' a : same_tree m m' -> title m' a = title m a /\ kind m' a = kind m a.
Proof. intros Hs. unfold title, kind. specialize (Hs a). destruct (m !! a), (m' !! a); try done. injection Hs as H1 H2 H3. split; simpl; congruence. Qed.

Lemma same_tree_child_of m m' a c : same_tree m m' -> child_of m' a c -> child_of m a c.
Proof. intros Hs (n' & Hn' & Hc). destruct (same_tree_lookup _ _ _ _ Hs Hn') as (n & Hn & _ & _ & Hk). exists n. split; [done|]. unfold kids in *. by rewrite Hk. Qed.

Lemma same_tree_child m m' a x : same_tree m m' -> child m' a x = child m a x.
Proof.
  intros Hs. unfold child. pose proof (Hs a) as Ha. destruct (m !! a) as [n|], (m' !! a) as [n'|]; try done. injection Ha as H1 H2 H3. unfold kids. rewrite H3.
  induction (al_view (children n)) as [|c l IH]; [done|]. cbn [list_find]. destruct (same_tree_title m m' c Hs) as [Ht _].
  destruct (decide (title m' c = Some x)), (decide (title m c = Some x)); try congruence.
  destruct (list_find (fun c => title m' c = Some x) l) as [[? ?]|], (list_find (fun c => title m c = Some x) l) as [[? ?]|]; done.
Qed.

Lemma same_tree_resolve m m' p : same_tree m m' -> forall a, resolve m' a p = resolve m a p.
Proof. intros Hs. induction p as [|x p IH]; intros a; [done|]. cbn [resolve]. rewrite (same_tree_child m m') by done. destruct (child m a x); [apply IH|done]. Qed.

Lemma same_tree_ok m m' r : same_tree m m' -> tree_ok m r -> tree_ok m' r.
Proof.
  intros Hs [T1 T2 T3 T4]. split.
  - by rewrite (proj2 (same_tree_title m m' r Hs)).
  - intros a n' Hn'. destruct (same_tree_lookup _ _ _ _ Hs Hn') as (n & Hn & E1 & E2 & E3). destruct (T2 a n Hn) as [O1 O2 O3 O4 O5 O6]. unfold kids in *. rewrite E3, E1, E2 in *. split; unfold kids; try done.
    + eapply Forall_impl; [done|]. intros c [Hc [nc Hnc]]. split; [done|]. specialize (Hs c). rewrite Hnc in Hs. by destruct (m' !! c).
    + intros c1 c2 H1 H2. rewrite (proj1 (same_tree_title m m' c1 Hs)), (proj1 (same_tree_title m m' c2 Hs)). by apply O6.
  - intros a b c Ha Hb. eapply T3; by eapply same_tree_child_of.
  - intros a Ha. eapply T4. by eapply same_tree_child_of.
Qed.

(** Writing one node changes what one path leads to. *)
Lemma same_tree_contents d d' p c n n' q : fs_ok d -> rootNode d' = rootNode d -> same_tree (nodes d) (nodes d') ->
  resolve (nodes d) (rootNode d) p = Some c -> nodes d !! c = Some n -> nodes d' = <[c := n']> (nodes d) ->
  contents d' q = if decide (q = p) then Some (fileType n', data n') else contents d q.
Proof.
  intros Hok Hr Hs Hp Hc Hn. unfold contents. rewrite Hr, (same_tree_resolve _ _ _ Hs). destruct (decide (q = p)) as [->|Hq].
  - rewrite Hp. cbn. unfold stored. by rewrite Hn, lookup_insert_eq.
  - destruct (resolve (nodes d) (rootNode d) q) as [a|] eqn:Ea; [|done]. cbn. unfold stored. rewrite Hn, lookup_insert_ne; [done|].
    intros <-. apply Hq. by eapply resolve_inj.
Qed.

(** The length of every file is that of its data. *)
Definition sized d : Prop := forall a n, nodes d !! a = Some n -> length_of n = Z.of_nat (length (data n)) /\ length_of n < 2 ^ 63.

Context `{Junk Z}.

Lemma createNode_sized fuel new_ s ft d b d' : createNode fuel new_ s ft d = Ret (b, d') -> sized d -> sized d'.
Proof.
  intros E Hs. unfold createNode in E. apply bind_Ret_inv in E as (tk & _ & E). destruct ((0 <? String_length s) && (length_ tk =? 0)); [by injection E as _ <-|].
  apply bind_Ret_inv in E as (dd & _ & E). destruct dd as [cur|]; [|by injection E as _ <-]. apply bind_Ret_inv in E as (t & _ & E). apply bind_Ret_inv in E as (c & _ & E). destruct (negb (c =? 0)); [by injection E as _ <-|].
  apply bind_Ret_inv in E as (nn & En & E). apply bind_Ret_inv in E as (nd & Ed & E). apply bind_Ret_inv in E as (r & _ & E). injection E as _ <-.
  unfold new_VirtualNode in En. apply bind_Ret_inv in En as (nm & _ & En). injection En as <-. unfold node_at in Ed.
  assert (Hm : forall a n, <[new_ := mkNode nm ft 0 [] new_ArrayList]> (nodes d) !! a = Some n -> length_of n = Z.of_nat (length (data n)) /\ length_of n < 2 ^ 63).
  { intros a n. rewrite lookup_insert_Some. intros [[_ <-]|[_ Ha]]; [done|by eapply Hs]. }
  destruct (<[new_ := _]> (nodes d) !! cur) as [nd'|] eqn:Ec; [|done]. injection Ed as ->. intros a n. cbn [nodes set_nodes]. rewrite lookup_insert_Some. intros [[_ <-]|[_ Ha]]; [apply (Hm _ _ Ec)|by eapply Hm].
Qed.
End Data.

(** ** Files in memory *)

Section Ram.
Context {M : Type} `{MapOps M String Z} `{!MapSpec M String Z} `{!MapKeysSpec M String Z}.
Context `{Junk Z} (fuel : nat).
#[local] Instance fs_driver : FsDriver RamFsDriver := driver fuel.
Implicit Types (fs : Filesystem M RamFsDriver) (l x ms : list Z) (p : list (list Z)).

(** A path that does not lead to the root. *)
Definition good_path l p x : Prop :=
  short_text fuel l /\ Z.of_nat (length l) + 3 < 2 ^ 31 /\ (length l + 1 < fuel)%nat /\ normal (words [47] l) = p ++ [x].

(** The modes; the first character decides what is done. *)
Definition good_mode ms : Prop := exists m0, (m0 = MODE_R \/ m0 = MODE_W \/ m0 = MODE_A) /\ (ms = [m0] \/ ms = [m0; MODE_PLUS]).

Definition mode0 ms : Z := nth 0 ms 0.
Definition mode1 ms : Z := nth 1 ms 0.

Lemma mode_chars ms : good_mode ms -> at_index (str ms) 0 = Ret (mode0 ms) /\ at_index (str ms) 1 = Ret (mode1 ms) /\ text ms /\
  (String_length (str ms) =? 0) = false /\ (mode0 ms = MODE_R \/ mode0 ms = MODE_W \/ mode0 ms = MODE_A) /\ (mode1 ms = MODE_PLUS \/ mode1 ms = 0).
Proof.
  intros (m0 & Hm & [-> | ->]); split_and!; try done; try (by left); try (by right).
  - apply Forall_singleton. unfold MODE_R, MODE_W, MODE_A in *. lia.
  - apply Forall_cons. split; [unfold MODE_R, MODE_W, MODE_A in *; lia|]. by apply Forall_singleton.
Qed.

(** Calls of a node. *)
Lemma ask_node {A} (q : VirtualNode -> outcome A) a d fs c n : drivers fs !! a = Some d -> nodes d !! c = Some n ->
  ask (fun d => n ← node_at (nodes d) c; q n) a fs = (r ← q n; Ret (r, fs)).
Proof. intros Hd Hc. unfold ask, node_at. rewrite Hd. outcome. rewrite Hc. outcome. done. Qed.

Lemma ask_type a d fs c n : drivers fs !! a = Some d -> nodes d !! c = Some n -> ask (n_getFileType c) a fs = Ret (fileType n, fs).
Proof. intros Hd Hc. apply (ask_node (fun n => Ret (fileType n)) a d fs c n Hd Hc). Qed.

Lemma ask_length a d fs c n : drivers fs !! a = Some d -> nodes d !! c = Some n -> ask (n_getLength c) a fs = Ret (length_of n, fs).
Proof. intros Hd Hc. apply (ask_node (fun n => Ret (length_of n)) a d fs c n Hd Hc). Qed.

(** Where a file starts. *)
Definition start_pos ms (n : VirtualNode) : Z := if (mode0 ms =? MODE_A) && (fileType n =? REGULAR_FILE) then length_of n else 0.

Lemma new_File_run l p x ms a d fs c n :
  good_path l p x -> good_mode ms -> drivers fs !! a = Some d -> nodes d !! c = Some n ->
  new_File fuel (a, c) (str l) (str ms) fs = Ret (mkFile a c (str (absolute (p ++ [x]))) (str ms) (start_pos ms n), fs).
Proof.
  intros (Hs & Hn & Hf & E) Hm Hd Hc. destruct (normal_joined fuel l p x Hs Hn Hf E) as (Ep & _). destruct (mode_chars ms Hm) as (_ & _ & Ht & _ & Hm0 & _).
  unfold new_File, lift. st_step. rewrite Ep. outcome. rewrite assign_str. outcome. rewrite assign_str. outcome. change (String_cstr (Some [MODE_A])) with (str [MODE_A]).
  rewrite beginsWith_str by (done || (apply Forall_singleton; unfold MODE_A; lia)). outcome. unfold start_pos.
  assert (Eb : bool_decide ([MODE_A] `prefix_of` ms) = (mode0 ms =? MODE_A)).
  { destruct Hm as (m0 & _ & [-> | ->]); unfold mode0; cbn [nth]; (destruct (Z.eqb_spec m0 MODE_A) as [->|Hne]; [apply bool_decide_true; by eexists|apply bool_decide_false; intros [k Hk]; injection Hk as Hk; done]). }
  rewrite Eb. destruct (mode0 ms =? MODE_A); [|done]. rewrite (ask_type a d fs c n Hd Hc). cbn [andb].
  destruct (fileType n =? REGULAR_FILE); [|done]. by rewrite (ask_length a d fs c n Hd Hc).
Qed.

(** Opening a file that exists. *)
Lemma open_existing l p x ms a d fs c n :
  good_path l p x -> good_mode ms -> ms <> [MODE_W; MODE_PLUS] -> root_mounted a d fs -> fs_ok d ->
  resolve (nodes d) (rootNode d) (p ++ [x]) = Some c -> nodes d !! c = Some n -> fileType n <> DIRECTORY_FILE ->
  exists fs', open fuel (str l) (str ms) fs = Ret (Some (mkFile a c (str (absolute (p ++ [x]))) (str ms) (start_pos ms n)), fs') /\ root_mounted a d fs'.
Proof.
  intros Hg Hm Hw Hr Hok Hc Hn Ht. destruct (mode_chars ms Hm) as (E0 & E1 & _ & El & Hm0 & Hm1). pose proof Hg as (Hs & Hln & Hf & E).
  unfold open. rewrite El. unfold lift at 1 2. st_step. rewrite E0, E1. outcome.
  assert (Eg : negb (mode0 ms =? MODE_W) && negb (mode0 ms =? MODE_R) && negb (mode0 ms =? MODE_A) || negb (mode1 ms =? MODE_PLUS) && negb (mode1 ms =? 0) = false)
    by (destruct Hm0 as [->|[->| ->]], Hm1 as [->| ->]; reflexivity). rewrite Eg.
  destruct (getNode_root fuel l p x a d fs Hs Hln Hf E Hr Hok) as (fs1 & En & Hr1). rewrite Hc in En. change (default 0 (Some c)) with c in En. unfold fs_driver. rewrite En. cbn [fst snd].
  destruct (resolve_exists _ _ _ _ Hok Hc) as [_ Hc0]. decide_bool. pose proof Hr1 as (_ & _ & _ & _ & Hd1). rewrite (ask_type a d fs1 c n Hd1 Hn). decide_bool.
  assert (Ew : (mode0 ms =? MODE_W) && (mode1 ms =? MODE_PLUS) = false).
  { destruct Hm as (m0 & _ & [-> | ->]); unfold mode0, mode1; cbn [nth]; [apply andb_false_r|]. destruct (Z.eqb_spec m0 MODE_W) as [->|]; done. }
  rewrite Ew. pose proof (new_File_run l p x ms a d fs1 c n Hg Hm Hd1 Hn) as Ef. rewrite Ef. by exists fs1.
Qed.

(** Opening a file for writing that does not exist yet. *)
Lemma open_creates l p x ms a d fs :
  good_path l p x -> good_mode ms -> mode0 ms <> MODE_R -> root_mounted a d fs -> fs_ok d -> has_room d -> sized d ->
  type_at d p = Some DIRECTORY_FILE -> contents d (p ++ [x]) = None ->
  exists d' c n fs', open fuel (str l) (str ms) fs = Ret (Some (mkFile a c (str (absolute (p ++ [x]))) (str ms) (start_pos ms n)), fs') /\
    root_mounted a d' fs' /\ fs_ok d' /\ sized d' /\ resolve (nodes d') (rootNode d') (p ++ [x]) = Some c /\ nodes d' !! c = Some n /\ fileType n = REGULAR_FILE /\
    data n = default [] (snd <$> contents d (p ++ [x])) /\ (forall q, q <> p ++ [x] -> contents d' q = contents d q).
Proof.
  intros Hg Hm Hnr Hr Hok Hroom Hsz Hp Hx. destruct (mode_chars ms Hm) as (E0 & E1 & _ & El & Hm0 & Hm1). pose proof Hg as (Hs & Hln & Hf & E).
  unfold open. rewrite El. unfold lift at 1 2. st_step. rewrite E0, E1. outcome.
  assert (Eg : negb (mode0 ms =? MODE_W) && negb (mode0 ms =? MODE_R) && negb (mode0 ms =? MODE_A) || negb (mode1 ms =? MODE_PLUS) && negb (mode1 ms =? 0) = false)
    by (destruct Hm0 as [->|[->| ->]], Hm1 as [->| ->]; reflexivity). rewrite Eg.
  destruct (getNode_root fuel l p x a d fs Hs Hln Hf E Hr Hok) as (fs1 & En & Hr1). assert (Hnone : resolve (nodes d) (rootNode d) (p ++ [x]) = None).
  { unfold contents in Hx. destruct (resolve (nodes d) (rootNode d) (p ++ [x])) as [c|] eqn:Ec; [|done]. destruct (resolve_exists _ _ _ _ Hok Ec) as [[n Hn] _]. cbn in Hx. unfold stored in Hx. by rewrite Hn in Hx. }
  rewrite Hnone in En. change (default 0 None) with 0 in En. unfold fs_driver. rewrite En. cbn [fst snd]. change (0 =? 0) with true. cbv iota.
  destruct (create_root fuel l p x REGULAR_FILE CREATING_FILE_FAILED a d fs1 Hs Hln Hf E Hr1 Hok Hroom) as (b & d' & fs2 & Ec & Hr2 & Hok2 & Hcn & Hcase).
  destruct Hcase as [(_ & _ & -> & Hq)|(Hno & _)]; [|by destruct Hno]. destruct (getNode_root fuel l p x a d' fs2 Hs Hln Hf E Hr2 Hok2) as (fs3 & En3 & Hr3).
  pose proof (Hq (p ++ [x])) as Hx'. rewrite decide_True in Hx' by done. unfold contents in Hx'. destruct (resolve (nodes d') (rootNode d') (p ++ [x])) as [c|] eqn:Er; [|done]. change (default 0 (Some c)) with c in En3.
  cbn [mbind option_bind] in Hx'. unfold stored in Hx'. destruct (nodes d' !! c) as [n|] eqn:Ecn; [|done]. injection Hx' as Hty Hdt.
  exists d', c, n, fs3. pose proof Hr3 as (_ & _ & _ & _ & Hd3). pose proof (new_File_run l p x ms a d' fs3 c n Hg Hm Hd3 Ecn) as Ef.
  assert (Ec' : create_and_open fuel (str l) (str ms) fs1 = Ret (Some (mkFile a c (str (absolute (p ++ [x]))) (str ms) (start_pos ms n)), fs3)).
  { unfold create_and_open, createFile, fs_driver. st_step. cbv iota in Ec. rewrite Ec. change (SUCCESS =? SUCCESS) with true. cbv beta iota. rewrite En3. rewrite Ef. done. }
  split_and!; [|done|done|by eapply createNode_sized|done|done|done|by rewrite Hx|intros q Hne; by rewrite Hq, decide_False].
  destruct (Z.eqb_spec (mode0 ms) MODE_R); [done|]. destruct (Z.eqb_spec (mode0 ms) MODE_W); [exact Ec'|]. destruct Hm0 as [?|[?| ->]]; [done..|]. exact Ec'.
Qed.

(** Where the next write goes. *)
Definition next_write ms (pos : Z) (n : VirtualNode) : Z := if mode0 ms =? MODE_A then length_of n else pos.

Lemma writeBytes_run bs a d fs c n pth ms pos :
  good_mode ms -> ms <> [MODE_R] -> root_mounted a d fs -> fs_ok d -> sized d -> nodes d !! c = Some n -> 0 <= pos ->
  Z.of_nat (length bs) < 2 ^ 32 -> next_write ms pos n + Z.of_nat (length bs) < 2 ^ 63 ->
  exists n' d' fs', writeBytes bs (Z.of_nat (length bs)) (mkFile a c pth (str ms) pos) fs =
      Ret ((Z.of_nat (length bs), mkFile a c pth (str ms) (u64 (pos + Z.of_nat (length bs)))), fs') /\
    root_mounted a d' fs' /\ rootNode d' = rootNode d /\ nodes d' = <[c := n']> (nodes d) /\ same_tree (nodes d) (nodes d') /\ sized d' /\
    data n' = overwrite (data n) bs (Z.to_nat (next_write ms pos n)) (length bs) /\ fileType n' = fileType n.
Proof.
  intros Hm Hnr Hr Hok Hsz Hn Hpos H32 Hend. destruct (mode_chars ms Hm) as (E0 & E1 & _ & _ & Hm0 & Hm1). pose proof Hr as (Hlk & Hinv & Hv & Ha & Hd). destruct (Hsz _ _ Hn) as [Hl Hb].
  assert (Hwp : 0 <= next_write ms pos n) by (unfold next_write; destruct (mode0 ms =? MODE_A); lia).
  destruct (writeData_run n bs (next_write ms pos n) (length bs) Hl Hwp ltac:(lia) H32 ltac:(lia)) as (n' & Ew & Hdat & Hl' & Hnm & Hty & Hch).
  assert (Ero : (mode0 ms =? MODE_R) && negb (mode1 ms =? MODE_PLUS) = false).
  { destruct Hm as (m0 & _ & [-> | ->]); unfold mode0, mode1; cbn [nth]; [|apply andb_false_r]. destruct (Z.eqb_spec m0 MODE_R) as [->|]; done. }
  assert (Ewp : write_pos (mkFile a c pth (str ms) pos) fs = Ret (next_write ms pos n, fs)).
  { unfold write_pos, lift, getLength, next_write. cbn [fmode fpos fnode fdriver]. st_step. rewrite E0. outcome. destruct (mode0 ms =? MODE_A); [|done]. by rewrite (ask_length a d fs c n Hd Hn). }
  set (d' := set_nodes (<[c := n']> (nodes d)) d). exists n', d', (set_drivers (<[a := d']> (drivers fs)) fs). split_and!.
  - unfold writeBytes, read_only, lift. cbn [fmode fdriver fnode fpos]. st_step. rewrite E0. outcome. rewrite E1. outcome. rewrite Ero. rewrite Ewp. unfold tell. rewrite Hd. outcome. cbn [n_writeData ram_nodes]. unfold node_at. rewrite Hn. outcome. rewrite Ew. outcome. done.
  - split; [done|]. split_and!; [done|done|done|]. cbn [drivers set_drivers]. apply lookup_insert_eq.
  - done.
  - done.
  - apply (same_tree_insert _ _ n); done.
  - intros b nb. cbn [nodes set_nodes d']. rewrite lookup_insert_Some. intros [[_ <-]|[_ Hb']]; [|by eapply Hsz]. split; [done|]. rewrite Hl', Hdat, length_overwrite by lia. lia.
  - done.
  - done.
Qed.

Lemma readBytes_run out k a d fs c n pth ms pos :
  good_mode ms -> mode0 ms = MODE_R \/ mode1 ms = MODE_PLUS -> drivers fs !! a = Some d -> sized d -> nodes d !! c = Some n ->
  0 <= pos -> pos + Z.of_nat k <= length_of n -> (0 < k <= length out)%nat ->
  readBytes out (Z.of_nat k) (mkFile a c pth (str ms) pos) fs =
    Ret ((Z.of_nat k, take k (drop (Z.to_nat pos) (data n)) ++ drop k out, mkFile a c pth (str ms) (u64 (pos + Z.of_nat k))), fs).
Proof.
  intros Hm Hrd Hd Hsz Hn Hpos Hk Hb. destruct (mode_chars ms Hm) as (E0 & E1 & _). destruct (Hsz _ _ Hn) as [Hl Hlb].
  assert (Ewo : negb (mode0 ms =? MODE_R) && negb (mode1 ms =? MODE_PLUS) = false) by (destruct Hrd as [-> | ->]; [done|by rewrite andb_false_r]).
  unfold readBytes, write_only, lift. cbn [fmode fdriver fnode fpos]. st_step. rewrite E0. outcome. rewrite E1. outcome. rewrite Ewo.
  pose proof (ask_node (fun n => ram_readData n out pos (Z.of_nat k)) a d fs c n Hd Hn) as Er. cbn [n_readData ram_nodes]. rewrite Er. unfold ram_readData. rewrite readData_run by (done || lia). outcome. decide_bool. done.
Qed.

(** Opening a file for writing, whether it exists or not. *)
Lemma open_write l p x a d fs :
  good_path l p x -> root_mounted a d fs -> fs_ok d -> has_room d -> sized d ->
  type_at d p = Some DIRECTORY_FILE /\ contents d (p ++ [x]) = None \/ type_at d (p ++ [x]) = Some REGULAR_FILE ->
  exists d' c n fs', open fuel (str l) (str [MODE_W]) fs = Ret (Some (mkFile a c (str (absolute (p ++ [x]))) (str [MODE_W]) 0), fs') /\
    root_mounted a d' fs' /\ fs_ok d' /\ sized d' /\ resolve (nodes d') (rootNode d') (p ++ [x]) = Some c /\ nodes d' !! c = Some n /\ fileType n = REGULAR_FILE /\
    data n = default [] (snd <$> contents d (p ++ [x])) /\ (forall q, q <> p ++ [x] -> contents d' q = contents d q).
Proof.
  intros Hg Hr Hok Hroom Hsz [[Hp Hx]|Hx].
  - apply (open_creates l p x [MODE_W] a d fs); try done. exists MODE_W. split; [by right; left|by left].
  - rewrite type_at_kind in Hx. destruct (resolve (nodes d) (rootNode d) (p ++ [x])) as [c|] eqn:Ec; [|done]. cbn [mbind option_bind] in Hx. unfold kind in Hx. destruct (nodes d !! c) as [n|] eqn:En; [|done]. injection Hx as Hty.
    destruct (open_existing l p x [MODE_W] a d fs c n) as (fs' & E & Hr'); try done; [exists MODE_W; split; [by right; left|by left]|by rewrite Hty|].
    exists d, c, n, fs'. split_and!; try done. unfold contents, stored. rewrite Ec. cbn. by rewrite En.
Qed.
End Ram.

(** ** Claims *)

(** A file is written and read again by another object. *)
Definition write_then_read {M D : Type} `{MapOps M String Z} `{FsDriver D} `{FsNode D} (fuel : nat) (path : String) (bs out : list Z)
    : ST (Filesystem M D) (option (Z * Z * list Z)) :=
  f ← open fuel path (str [MODE_W]);
  match f with
  | None => mret None
  | Some f =>
      '(w, _) ← writeBytes bs (Z.of_nat (length bs)) f;
      g ← open fuel path (str [MODE_R]);
      match g with
      | None => mret None
      | Some g => '(r, buf, _) ← readBytes out (Z.of_nat (length bs)) g; mret (Some (w, r, buf))
      end
  end.

(** Bytes written at the start. *)
Lemma overwrite_start (old bs : list Z) : overwrite old bs 0 (length bs) = bs ++ drop (length bs) old.
Proof.
  unfold overwrite. rewrite take_0, firstn_all. cbn [app Nat.add]. f_equal.
  destruct (Nat.le_ge_cases (length bs) (length old)) as [Hle|Hge].
  - replace (length bs - length old)%nat with 0%nat by lia. by rewrite app_nil_r.
  - rewrite !drop_ge; [done|lia|rewrite length_app, length_replicate; lia].
Qed.

(** C22. What is written to a file is read from it: with the driver in memory mounted at the root, a
    regular file that exists, or a free path in a directory that exists, can be opened for
    writing; the bytes written are all accepted, and a second object opened on the same path
    for reading reads exactly these bytes. Afterwards the path is a regular file that holds the bytes
    written followed by what the old file had behind them, every other path has the type and
    the bytes it had, and nobody holds the lock of the file system. *)
Theorem file_written_then_read {M : Type} `{MapOps M String Z} `{!MapSpec M String Z} `{!MapKeysSpec M String Z} `{Junk Z}
    (fuel : nat) (l x bs out : list Z) (p : list (list Z)) (a : Z) (d : RamFsDriver) (fs : Filesystem M RamFsDriver)
    (Hpath : good_path fuel l p x) (Hroot : root_mounted a d fs) (Hok : fs_ok d) (Hroom : has_room d) (Hsized : sized d)
    (Hfile : type_at d p = Some DIRECTORY_FILE /\ contents d (p ++ [x]) = None \/ type_at d (p ++ [x]) = Some REGULAR_FILE)
    (Hbs : 0 < Z.of_nat (length bs) < 2 ^ 32) (Hout : (length bs <= length out)%nat) :
  exists d' fs', write_then_read (H0 := driver fuel) fuel (str l) bs out fs =
      Ret (Some (Z.of_nat (length bs), Z.of_nat (length bs), bs ++ drop (length bs) out), fs') /\
    root_mounted a d' fs' /\ fs_ok d' /\
    contents d' (p ++ [x]) = Some (REGULAR_FILE, bs ++ drop (length bs) (default [] (snd <$> contents d (p ++ [x])))) /\
    forall q, q <> p ++ [x] -> contents d' q = contents d q.
Proof.
  destruct (open_write fuel l p x a d fs) as (d1 & c & n & fs1 & E1 & Hr1 & Hok1 & Hs1 & Hc1 & Hn1 & Ht1 & Hdt1 & Hq1); [done..|].
  destruct (writeBytes_run bs a d1 fs1 c n (str (absolute (p ++ [x]))) [MODE_W] 0) as (n2 & d2 & fs2 & E2 & Hr2 & Hrt & Hnd & Hst & Hs2 & Hdat & Hty); try done; [exists MODE_W; split; [by right; left|by left]|lia|cbn; lia|].
  assert (Hok2 : fs_ok d2) by (unfold fs_ok; rewrite Hrt; by apply (same_tree_ok (nodes d1))).
  assert (Hc2 : resolve (nodes d2) (rootNode d2) (p ++ [x]) = Some c) by (rewrite Hrt, (same_tree_resolve _ _ _ Hst); done).
  assert (Hn2 : nodes d2 !! c = Some n2) by (rewrite Hnd; apply lookup_insert_eq).
  destruct (open_existing fuel l p x [MODE_R] a d2 fs2 c n2) as (fs3 & E3 & Hr3); try done; [exists MODE_R; split; [by left|by left]|by rewrite Hty, Ht1|].
  destruct (Hs2 _ _ Hn2) as [Hl2 _]. pose proof (length_overwrite (data n) bs 0 (length bs) ltac:(lia)) as Hov. change (Z.to_nat (next_write [MODE_W] 0 n)) with 0%nat in Hdat. rewrite <- Hdat in Hov.
  pose proof (readBytes_run out (length bs) a d2 fs3 c n2 (str (absolute (p ++ [x]))) [MODE_R] 0) as E4.
  assert (Hall : data n2 = bs ++ drop (length bs) (data n)) by (by rewrite Hdat, overwrite_start).
  assert (Hcon := fun q => same_tree_contents d1 d2 (p ++ [x]) c n n2 q Hok1 Hrt Hst Hc1 Hn1 Hnd).
  exists d2, fs3. split_and!; [|done|done|by rewrite Hcon, decide_True, Hty, Ht1, Hall, Hdt1|intros q Hne; rewrite Hcon, decide_False by done; by apply Hq1].
  unfold write_then_read. st_step. unfold fs_driver in *. rewrite E1, E2, E3. change (start_pos [MODE_R] n2) with 0. rewrite E4; try done; [|exists MODE_R; split; [by left|by left]|by left|by apply Hr3|lia|lia].
  do 4 f_equal. rewrite Hall. change (Z.to_nat 0) with 0%nat. rewrite drop_0. by rewrite take_app_length.
Qed.

#[local] Instance no_junk {T} `{Inhabited T} : Junk T := fun _ => inhabitant.

Lemma mounted_sized : sized mounted.
Proof. intros a n. cbn [nodes mounted]. by intros [<- <-]%lookup_singleton_Some. Qed.

(** The bytes 7 and 8 in the file "/a". *)
Lemma file_written_then_read_witness : exists (m : HashMap String Z) fs',
  write_then_read (H0 := driver 9) 9 (str [47; 97]) [7; 8] [0; 0; 0] (mkFilesystem m new_Spinlock {[1 := mounted]}) = Ret (Some (2, 2, [7; 8; 0]), fs') /\
  exists d', root_mounted 1 d' fs' /\ contents d' [[97]] = Some (REGULAR_FILE, [7; 8]).
Proof.
  destruct small_tables as (m & _ & _ & Hi & Hv & _). destruct (file_written_then_read 9 [47; 97] [97] [7; 8] [0; 0; 0] [] 1 mounted (mkFilesystem m new_Spinlock {[1 := mounted]})) as (d' & fs' & E & Hr & _ & Hc & _).
  - split; [split_and!; [repeat (apply Forall_cons; split; [lia|]); by apply Forall_nil|simpl; lia|simpl; lia]|]. split_and!; [simpl; lia|simpl; lia|reflexivity].
  - split; [done|]. split_and!; [done|done|done|]. apply lookup_singleton_eq.
  - apply mounted_ok.
  - apply mounted_ok.
  - apply mounted_sized.
  - left. by split.
  - simpl. lia.
  - simpl. lia.
  - exists m, fs'. split; [exact E|]. exists d'. split; [exact Hr|exact Hc].
Defined.

(** ** Deviations *)

(** A file system with the file "/a" that holds the characters "xy". *)
Definition xy_fs (m : HashMap String Z) : Filesystem (HashMap String Z) RamFsDriver :=
  mkFilesystem m new_Spinlock {[1 := mkRamFs 1 {[1 := mkNode (str [47]) DIRECTORY_FILE 0 [] (mkArrayList (Some (2 :: replicate 9 0)) 10 1); 2 := mkNode (str [97]) REGULAR_FILE 2 [120; 121] new_ArrayList]}]}.

(** "w+" is said to truncate the file: the old characters are still there. *)
Theorem truncation_missing :
  (m ← HashMap.put (str [47]) 1 new_HashMap;
   '(f, fs) ← open (H0 := driver 9) 9 (str [47; 97]) (str [MODE_W; MODE_PLUS]) (xy_fs m);
   match f with Some f => '(r, _) ← read_all f fs; Ret (Some (fst r)) | None => Ret None end) = Ret (Some [120; 121; 0]).
Proof. by vm_compute. Qed.

(** "a+" is said to start reading at the beginning: it starts at the end. *)
Theorem append_reads_at_end :
  (m ← HashMap.put (str [47]) 1 new_HashMap;
   '(f, fs) ← open (H0 := driver 9) 9 (str [47; 97]) (str [MODE_A; MODE_PLUS]) (xy_fs m);
   match f with Some f => '(r, _) ← readChar 0 f fs; Ret (Some (fst r, fpos f)) | None => Ret None end) = Ret (Some (0, 2)).
Proof. by vm_compute. Qed.

(** [readString] into a buffer of two bytes: the terminator is written behind the buffer. *)
Theorem readString_overflows :
  (m ← HashMap.put (str [47]) 1 new_HashMap;
   '(f, fs) ← open (H0 := driver 9) 9 (str [47; 97]) (str [MODE_R]) (xy_fs m);
   match f with Some f => '(r, _) ← readString 0 [0; 0] 2 f fs; Ret 0 | None => Ret 1 end) = Fault.
Proof. by vm_compute. Qed.

(** The name of a mount point at "/b/c" is "b/c". *)
Theorem mount_name_keeps_directories : mount_name 9 (str [47; 98; 47; 99]) = Ret (str [98; 47; 99]).
Proof. by vm_compute. Qed.
