(* ===== verification/Shell.v ===== *)
(** * The shell

    [application/shell/Shell.cpp]: the line editor behind the keyboard and serial port, the
    history, and the interpretation of a line with the redirection of its output. *)

From S2P Require Import Prelude Memory Spinlock CString KString Array Collections ArrayList HashMap StringKeys Color Console Streams Ansi RamFs Filesystem Files.

(** ** The code *)

Definition INPUT_SIZE : Z := 4096.

(** [KeyEvent::UP] and [KeyEvent::DOWN] *)
Definition KEY_UP : Z := 72.
Definition KEY_DOWN : Z := 80.

(** The array [inputBuffer] is in [smem]. *)
Record Shell := mkShell {
  out : OutputStream AnsiOutputStream;
  smem : Mem;
  inputLock : Spinlock;
  charAvailable : bool;
  stringAvailable : bool;
  lastChar : Z;
  lastString : String;
  history : ArrayList String;
  historyIndex : Z;
  currentBase : Z
}.

Definition set_out (o : OutputStream AnsiOutputStream) (s : Shell) : Shell :=
  mkShell o (smem s) (inputLock s) (charAvailable s) (stringAvailable s) (lastChar s) (lastString s) (history s) (historyIndex s) (currentBase s).
Definition set_smem (m : Mem) (s : Shell) : Shell :=
  mkShell (out s) m (inputLock s) (charAvailable s) (stringAvailable s) (lastChar s) (lastString s) (history s) (historyIndex s) (currentBase s).
Definition set_inputLock (l : Spinlock) (s : Shell) : Shell :=
  mkShell (out s) (smem s) l (charAvailable s) (stringAvailable s) (lastChar s) (lastString s) (history s) (historyIndex s) (currentBase s).
Definition set_char (c : Z) (s : Shell) : Shell :=
  mkShell (out s) (smem s) (inputLock s) true (stringAvailable s) c (lastString s) (history s) (historyIndex s) (currentBase s).
Definition set_charAvailable (b : bool) (s : Shell) : Shell :=
  mkShell (out s) (smem s) (inputLock s) b (stringAvailable s) (lastChar s) (lastString s) (history s) (historyIndex s) (currentBase s).
Definition set_string (b : bool) (t : String) (s : Shell) : Shell :=
  mkShell (out s) (smem s) (inputLock s) (charAvailable s) b (lastChar s) t (history s) (historyIndex s) (currentBase s).
Definition set_history (h : ArrayList String) (i : Z) (s : Shell) : Shell :=
  mkShell (out s) (smem s) (inputLock s) (charAvailable s) (stringAvailable s) (lastChar s) (lastString s) h i (currentBase s).

(** The text driver of the stream. *)
Definition textDriver (s : Shell) : CgaText := screen (dest (out s)).
Definition set_driver (t : CgaText) (s : Shell) : Shell :=
  let a := dest (out s) in
  set_out (mkStream (sbuffer (out s)) (spos (out s)) (sbase (out s)) (mkAnsi (fgColor a) (bgColor a) (isEscapeActive a) (currentEscapeCode a) (escapeCodeIndex a) t)) s.

Section Code.
Context (mix : Z -> Z -> Z -> Z -> Z) (mix_alpha : Z -> Z -> Z) (inputBuffer : Z).

(** The members of the shell, not those of the stream. *)
Definition shellFg : Color := TERM_WHITE.
Definition shellBg : Color := TERM_BLACK.

(** [Shell::flush]: an underscore marks the cursor. *)
#[local] Instance shell_sink : Sink AnsiOutputStream := fun l a =>
  a ← ansi_sink mix mix_alpha l a;
  let '(x, y) := getpos (screen a) in
  Ret (mkAnsi (fgColor a) (bgColor a) (isEscapeActive a) (currentEscapeCode a) (escapeCodeIndex a) (show mix mix_alpha x y 95 shellFg shellBg (screen a))).

Definition input_length (s : Shell) : outcome Z := strlen (Z.to_nat INPUT_SIZE) (smem s) inputBuffer.

(** [memset(&inputBuffer[strlen(inputBuffer) - 1], 0, sizeof(inputBuffer) - (strlen(inputBuffer) - 1))]:
    the arithmetic has 32 bits, an address before the array is possible. *)
Definition cut_input (n : Z) (s : Shell) : Shell :=
  set_smem (memset (u32 (inputBuffer + u32 (n - 1))) 0 (u32 (INPUT_SIZE - u32 (n - 1))) (smem s)) s.

Definition submit (n : Z) (s : Shell) : outcome Shell :=
  let s := set_smem (store8 (smem s) (inputBuffer + n) 0) s in
  o ← endl (out s);
  let s := set_out o s in
  l ← name_at (Z.to_nat INPUT_SIZE) (smem s) inputBuffer;
  let s := set_string true (String_cstr (Some l)) s in
  Ret (set_smem (memset inputBuffer 0 INPUT_SIZE (smem s)) s).

Definition backspace (n : Z) (s : Shell) : Shell :=
  if 0 <? n then
    let '(x, y) := getpos (textDriver s) in
    let t := show mix mix_alpha x y 32 shellBg shellBg (textDriver s) in
    let t :=
      if negb (x =? 0) then setpos (x - 1) y (show mix mix_alpha (x - 1) y 95 shellFg shellBg t)
      else
        let y := u16 (y - 1) in
        let last := u16 (columns t - 1) in
        setpos last y (show mix mix_alpha last y 95 shellFg shellBg t) in
    cut_input n (set_driver t s)
  else s.

Definition type_char (c n : Z) (s : Shell) : outcome Shell :=
  let s := set_char c s in
  let s := set_smem (store8 (smem s) (inputBuffer + n) c) s in
  o ← print_char c (out s);
  o ← flush o;
  Ret (set_out o s).

(** The part of [onEvent] behind the choice of the character. *)
Definition onChar (c : Z) (s : Shell) : outcome Shell :=
  n ← input_length s;
  if (n =? INPUT_SIZE - 1) && negb (c =? 8) then Ret s
  else
    l ← acquire 1 (inputLock s);
    let s := set_inputLock l s in
    s ← (if (c =? 10) || (c =? 13) then submit n s
         else if (c =? 8) || (c =? 127) then Ret (backspace n s)
         else type_char c n s);
    Ret (set_inputLock (release (inputLock s)) s).

(** *** The history *)

Inductive HistoryDirection := UP | DOWN.

(** [for (uint16_t i = currentBase; i <= x; i++)] *)
Fixpoint erase_loop (fuel : nat) (i x y : Z) (s : Shell) : outcome Shell :=
  match fuel with
  | O => Diverge
  | S fuel =>
      if i <=? x then
        let s := set_driver (show mix mix_alpha i y 32 black black (textDriver s)) s in
        n ← input_length s;
        erase_loop fuel (u16 (i + 1)) x y (cut_input n s)
      else Ret s
  end.

(** A command of the history, as if it was typed. *)
Fixpoint retype (l : list Z) (s : Shell) : outcome Shell :=
  match l with
  | [] => Ret s
  | c :: l => n ← input_length s; s ← type_char c n s; retype l s
  end.

Definition showHistory (direction : HistoryDirection) (s : Shell) : outcome Shell :=
  let s := set_history (history s) (u32 (match direction with UP => historyIndex s - 1 | DOWN => historyIndex s + 1 end)) s in
  let historySize := ArrayList.size (history s) in
  if historySize =? 0 then Ret s
  else
    let '(x, y) := getpos (textDriver s) in
    s ← erase_loop (Z.to_nat (x + 2)) (currentBase s) x y s;
    let s := set_driver (setpos (currentBase s) y (textDriver s)) s in
    let s := if historyIndex s =? UINT32_MAX then set_history (history s) 0 s else s in
    if historySize <=? historyIndex s then
      let s := set_history (history s) historySize s in
      let '(x, y) := getpos (textDriver s) in
      Ret (set_driver (show mix mix_alpha x y 95 shellFg shellBg (textDriver s)) s)
    else
      command ← ArrayList.get (historyIndex s) (history s);
      retype (take (Z.to_nat (String_length command)) (KString.buffer command)) s.

(** *** Events and input *)

Inductive event := KeyEvent (scancode : Z) (valid : bool) (ascii : Z) | Com1Event (c : Z) | OtherEvent.

Definition onEvent (e : event) (s : Shell) : outcome Shell :=
  match e with
  | KeyEvent scancode valid ascii =>
      if scancode =? KEY_UP then showHistory UP s
      else if scancode =? KEY_DOWN then showHistory DOWN s
      else if valid then onChar ascii s else Ret s
  | Com1Event c => onChar c s
  | OtherEvent => Ret s
  end.

(** [operator >>] polls: without a line it goes on for ever. *)
Definition read_line (s : Shell) : outcome (list Z * Shell) :=
  l ← acquire 1 (inputLock s);
  if stringAvailable s then
    b ← bytes_of (KString.buffer (lastString s)) 0 (len (lastString s) + 1);
    Ret (b, set_inputLock (release l) (set_string false (lastString s) s))
  else Diverge.

Definition read_char (s : Shell) : outcome (Z * Shell) :=
  l ← acquire 1 (inputLock s);
  if charAvailable s then Ret (lastChar s, set_inputLock (release l) (set_charAvailable false s)) else Diverge.

(** The part of [run] behind the input: the line is remembered. *)
Definition remember (input : list Z) (s : Shell) : outcome Shell :=
  h ← (if 0 <? Z.of_nat (length input) then r ← ArrayList.add (String_cstr (Some input)) (history s); Ret (snd r) else Ret (history s));
  Ret (set_history h (ArrayList.size h) s).
End Code.

(** ** Commands *)

(** What a line asks for; the output goes to a file or to the shell. *)
Inductive request :=
| Nothing
| CommandNotFound (name : String)
| FileNotFound (path : String)
| Help (args : Array String) (file : option File)
| Exit
| Execute (args : Array String) (file : option File).

Definition HELP : String := String_cstr (Some [104; 101; 108; 112]).
Definition EXIT : String := String_cstr (Some [101; 120; 105; 116]).
Definition BLANK : String := String_cstr (Some [32]).
Definition GREATER : String := String_cstr (Some [62]).

Section Commands.
Context {C V M D : Type} `{MapOps C String V} `{MapOps M String Z} `{FsDriver D} `{FsNode D} (commands : C) (cwd : String).

(** Blanks in front of a path. *)
Fixpoint skip_blanks (fuel : nat) (path : String) : outcome String :=
  match fuel with
  | O => Diverge
  | S fuel =>
      b ← beginsWith BLANK path;
      if (b : bool) then t ← substring 1 (String_length path) path; p ← assign t; skip_blanks fuel p else Ret path
  end.

Definition absolute_path (relativePath : String) : outcome String :=
  b ← beginsWith slash relativePath;
  if (b : bool) then assign relativePath
  else
    e ← endsWith slash cwd;
    p ← (if negb e then append slash cwd else Ret cwd);
    append relativePath p.

Definition executeCommand (fuel : nat) (input : String) : ST (Filesystem M D) request :=
  tmp ← lift (split fuel GREATER 0 input);
  if length_ tmp =? 0 then mret Nothing
  else
    first ← lift (at_ tmp 0);
    args ← lift (split fuel BLANK 0 first);
    if length_ args =? 0 then mret Nothing
    else
      name ← lift (at_ args 0);
      known ← lift (m_containsKey name commands);
      help ← lift (equals name HELP);
      exit ← lift (equals name EXIT);
      if negb known && negb help && negb exit then mret (CommandNotFound name)
      else
        let go (file : option File) : ST (Filesystem M D) request :=
          mret (if (help : bool) then Help args file else if (exit : bool) then Exit else Execute args file) in
        if 1 <? length_ tmp then
          relativePath ← lift (at_ tmp 1);
          relativePath ← lift (skip_blanks fuel relativePath);
          absolutePath ← lift (absolute_path relativePath);
          file ← open fuel absolutePath (String_cstr (Some [MODE_W]));
          match file with
          | None => mret (FileNotFound relativePath)
          | Some f => go (Some f)
          end
        else go None.
End Commands.

(** ** A line editor *)

Record editor := mkEditor { eline : list Z; submitted : option (list Z) }.

(** A full line only takes a backspace. *)
Definition edit (c : Z) (e : editor) : editor :=
  if (length (eline e) =? 4095)%nat && negb (c =? 8) then e
  else if (c =? 10) || (c =? 13) then mkEditor [] (Some (eline e))
  else if (c =? 8) || (c =? 127) then mkEditor (removelast (eline e)) (submitted e)
  else mkEditor (eline e ++ [c]) (submitted e).

Section Refinement.
Context (mix : Z -> Z -> Z -> Z -> Z) (mix_alpha : Z -> Z -> Z) (inputBuffer : Z).
Context (Hbuf : 0 < inputBuffer /\ inputBuffer + INPUT_SIZE <= 2 ^ 32).

(** The array holds the line and zeros behind it. *)
Definition holds (m : Mem) (l : list Z) : Prop :=
  text l /\ (length l <= 4095)%nat /\ forall i, (i < 4096)%nat -> m (inputBuffer + Z.of_nat i) = default 0 (l !! i).

(** Nothing is in the buffer of the stream, and no escape sequence is open. *)
Definition quiet (o : OutputStream AnsiOutputStream) : Prop :=
  length (sbuffer o) = 80%nat /\ spos o = 0 /\ isEscapeActive (dest o) = false.

Record edits (e : editor) (s : Shell) : Prop := {
  ed_line : holds (smem s) (eline e);
  ed_submitted : forall l, submitted e = Some l -> stringAvailable s = true /\ lastString s = str l;
  ed_lock : inputLock s = new_Spinlock;
  ed_quiet : quiet (out s)
}.

Definition outside (x : Z) : Prop := x < inputBuffer \/ inputBuffer + INPUT_SIZE <= x.

Lemma input_string m l : holds m l -> is_string m inputBuffer l.
Proof.
  intros (Ht & Hl & Hm). split.
  - intros i c Hc. split; [by eapply Forall_lookup_1 in Ht|]. rewrite Hm by (apply lookup_lt_Some in Hc; lia). by rewrite Hc.
  - rewrite Hm by lia. by rewrite lookup_ge_None_2.
Qed.

Lemma input_length_run s l : holds (smem s) l -> input_length inputBuffer s = Ret (Z.of_nat (length l)).
Proof. intros Hh. unfold input_length. apply strlen_run; [by apply input_string|]. destruct Hh as (_ & Hl & _). unfold INPUT_SIZE. lia. Qed.

Lemma holds_type m l c : holds m l -> (length l < 4095)%nat -> 0 < c < 256 ->
  holds (store8 m (inputBuffer + Z.of_nat (length l)) c) (l ++ [c]) /\ forall x, outside x -> store8 m (inputBuffer + Z.of_nat (length l)) c x = m x.
Proof.
  intros (Ht & Hl & Hm) Hn Hc. split; [|intros x Hx; apply store8_ne; unfold outside, INPUT_SIZE in Hx; lia]. split_and!.
  - apply Forall_app. split; [done|by apply Forall_singleton].
  - rewrite length_app. simpl. lia.
  - intros i Hi. destruct (decide (i = length l)) as [->|Hne]; [rewrite store8_eq, list_lookup_middle; done|]. rewrite store8_ne by lia. rewrite Hm by done. destruct (decide (i < length l)%nat); [by rewrite lookup_app_l|].
    rewrite !lookup_ge_None_2; [done|rewrite length_app; simpl; lia|lia].
Qed.

Lemma holds_cut m l : holds m l -> l <> [] -> let n := Z.of_nat (length l) in let m' := memset (u32 (inputBuffer + u32 (n - 1))) 0 (u32 (INPUT_SIZE - u32 (n - 1))) m in
  holds m' (removelast l) /\ forall x, outside x -> m' x = m x.
Proof.
  intros (Ht & Hl & Hm) Hne n. destruct l as [|c l _] using rev_ind; [done|]. rewrite length_app in *. cbn [length] in *. rewrite removelast_last. assert (En : n - 1 = Z.of_nat (length l)) by (subst n; rewrite length_app; cbn [length]; lia). unfold INPUT_SIZE in *. rewrite En.
  rewrite (u32_small (Z.of_nat (length l))) by (unfold is_u32; lia). rewrite !u32_small by (unfold is_u32; lia). split.
  - split_and!; [by apply Forall_app in Ht as [? _]|lia|]. intros i Hi. destruct (decide (i < length l)%nat).
    + rewrite memset_outside by lia. rewrite Hm by done. by rewrite lookup_app_l by lia.
    + rewrite memset_inside by lia. by rewrite lookup_ge_None_2 by lia.
  - intros x Hx. unfold outside, INPUT_SIZE in Hx. apply memset_outside. lia.
Qed.

Lemma holds_clear m : holds (memset inputBuffer 0 INPUT_SIZE m) [] /\ forall x, outside x -> memset inputBuffer 0 INPUT_SIZE m x = m x.
Proof.
  split; [|intros x Hx; apply memset_outside; exact Hx]. split_and!; [apply Forall_nil_2|simpl; lia|]. intros i Hi. rewrite lookup_nil. apply memset_inside. unfold INPUT_SIZE. lia.
Qed.

(** One character printed and flushed. *)
Lemma ansi_one c a : isEscapeActive a = false -> c <> ESCAPE -> exists a', ansi_sink mix mix_alpha [c] a = Ret a' /\ isEscapeActive a' = false.
Proof.
  intros Ha Hc. unfold ansi_sink. change (foldM (ansi_char mix mix_alpha) [c] (false, a)) with (s ← ansi_char mix mix_alpha c (false, a); Ret s). unfold ansi_char. rewrite Ha. destruct (Z.eqb_spec c ESCAPE); [done|]. cbn [orb andb screen].
  destruct (getpos (screen a)) as [x y]. outcome. by eexists.
Qed.

Lemma echo_run c o : quiet o -> c <> ESCAPE -> exists o', (o ← print_char (H := shell_sink mix mix_alpha) c o; flush (H := shell_sink mix mix_alpha) o) = Ret o' /\ quiet o'.
Proof.
  intros (Hl & Hp & Ha) Hc. unfold print_char, put. rewrite Hp. change (BUFFER_SIZE <=? 0) with false. cbn [spos]. change (u32 (0 + 1)) with 1. change (BUFFER_SIZE <=? 1) with false. cbv iota. outcome.
  unfold flush. cbn [spos sbuffer dest sbase]. change (Z.to_nat 1) with 1%nat. change (Z.to_nat 0) with 0%nat. assert (Et : take 1 (<[0%nat := c]> (sbuffer o)) = [c]) by (destruct (sbuffer o); done). rewrite Et.
  unfold deliver, shell_sink. destruct (ansi_one c (dest o) Ha Hc) as (a' & Ea & Ha'). rewrite Ea. outcome. destruct (getpos (screen a')) as [x y]. outcome. eexists. split; [reflexivity|]. split_and!; try done. cbn [sbuffer]. by rewrite length_insert.
Qed.

Lemma endl_run o : quiet o -> exists o', endl (H := shell_sink mix mix_alpha) o = Ret o' /\ quiet o'.
Proof. intros Ho. by apply echo_run. Qed.

Lemma removelast_short {A} (l : list A) : (length (removelast l) <= length l)%nat.
Proof. destruct l as [|c l _] using rev_ind; [done|]. rewrite removelast_last, length_app. lia. Qed.

Lemma onChar_run c e s : edits e s -> 0 < c < 256 -> c <> ESCAPE ->
  exists s', onChar mix mix_alpha inputBuffer c s = Ret s' /\ edits (edit c e) s' /\ forall x, outside x -> smem s' x = smem s x.
Proof.
  intros [Hl Hs Hk Hq] Hc Hesc. unfold onChar, edit. rewrite (input_length_run s _ Hl). outcome. pose proof Hl as (_ & Hmax & _). unfold INPUT_SIZE at 1.
  replace (Z.of_nat (length (eline e)) =? 4096 - 1) with (length (eline e) =? 4095)%nat by (destruct (Nat.eqb_spec (length (eline e)) 4095), (Z.eqb_spec (Z.of_nat (length (eline e))) (4096 - 1)); lia || done).
  destruct (((length (eline e) =? 4095)%nat && negb (c =? 8))) eqn:Efull; [exists s; split_and!; [done|by split|done]|].
  destruct (lock_free _ Hk) as (lk & Elk & Hrel). rewrite Elk. outcome. set (s0 := set_inputLock lk s).
  destruct ((c =? 10) || (c =? 13)); [|destruct ((c =? 8) || (c =? 127)) eqn:Ebs].
  - unfold submit. destruct (endl_run (out s) Hq) as (o' & Eo & Hq'). change (out (set_smem _ s0)) with (out s). rewrite Eo. outcome. change (smem (set_out o' _)) with (store8 (smem s) (inputBuffer + Z.of_nat (length (eline e))) 0).
    assert (Hsame : forall x, store8 (smem s) (inputBuffer + Z.of_nat (length (eline e))) 0 x = smem s x).
    { intros x. destruct (decide (x = inputBuffer + Z.of_nat (length (eline e)))) as [->|]; [|by apply store8_ne]. rewrite store8_eq. by rewrite (str_end _ _ _ (input_string _ _ Hl)). }
    assert (Hl' : holds (store8 (smem s) (inputBuffer + Z.of_nat (length (eline e))) 0) (eline e)) by (destruct Hl as (H1 & H2 & H3); split_and!; try done; intros i Hi; by rewrite Hsame, H3).
    rewrite (name_run _ _ _ _ (input_string _ _ Hl')) by (unfold INPUT_SIZE; lia). outcome. eexists. split; [reflexivity|].
    destruct (holds_clear (store8 (smem s) (inputBuffer + Z.of_nat (length (eline e))) 0)) as [Hc1 Hc2]. split.
    + split; cbn; try done. intros l [= <-]. done.
    + intros x Hx. cbn [smem set_inputLock set_smem]. rewrite <- Hsame. by apply Hc2.
  - unfold backspace. destruct (Z.ltb_spec 0 (Z.of_nat (length (eline e)))) as [Hpos|Hzero].
    + destruct (getpos (textDriver s0)) as [x y]. eexists. split; [reflexivity|]. set (t := if negb (x =? 0) then _ else _). destruct (holds_cut (smem s) (eline e) Hl) as [Hc1 Hc2]; [intros E; rewrite E in Hpos; simpl in Hpos; lia|]. split.
      * by split.
      * intros a Ha. by apply Hc2.
    + assert (eline e = []) as E by (destruct (eline e); [done|simpl in Hzero; lia]). eexists. split; [reflexivity|]. split; [|done]. rewrite E in *. split; try done.
  - assert (Hlt : (length (eline e) < 4095)%nat). { destruct (Nat.eqb_spec (length (eline e)) 4095); [|lia]. cbn [andb] in Efull. apply orb_false_iff in Ebs as [Eb _]. by rewrite Eb in Efull. }
    unfold type_char. destruct (echo_run c (out s) Hq Hesc) as (o' & Eo & Hq'). change (out (set_smem _ _)) with (out s).
    revert Eo. destruct (print_char c (out s)) as [o1| | |]; outcome; try done. intros Eo. rewrite Eo. outcome. eexists. split; [reflexivity|].
    destruct (holds_type (smem s) (eline e) c Hl Hlt Hc) as [Hc1 Hc2]. split; [|intros a Ha; by apply Hc2]. split; try done.
Qed.
End Refinement.

(** ** Lines as lists of words *)

Section Lines.
Context {C V M D : Type} `{MapOps C String V} `{!MapSpec C String V} `{MapOps M String Z} `{FsDriver D} `{FsNode D} (commands : C) (cwd : list Z) (fuel : nat).
Implicit Types (l r : list Z) (fs : Filesystem M D).

(** Without the blanks in front. *)
Fixpoint unindent l : list Z := match l with c :: l' => if c =? 32 then unindent l' else l | [] => [] end.

Definition target_path r : list Z := if bool_decide ([47] `prefix_of` r) then r else slashed cwd ++ r.

Definition HELP_WORD : list Z := [104; 101; 108; 112].
Definition EXIT_WORD : list Z := [101; 120; 105; 116].

(** What the words of a line ask for. *)
Definition asks (args : list (list Z)) (file : option File) : request :=
  match args with
  | [] => Nothing
  | name :: _ => if bool_decide (name = HELP_WORD) then Help (strings args) file else if bool_decide (name = EXIT_WORD) then Exit else Execute (strings args) file
  end.

Definition known_command (name : list Z) : Prop := is_Some (m_view commands !! str name) \/ name = HELP_WORD \/ name = EXIT_WORD.

#[local] Instance known_command_dec name : Decision (known_command name).
Proof. unfold known_command. apply _. Defined.

Definition interpret l fs : outcome (request * Filesystem M D) :=
  match words [62] l with
  | [] => Ret (Nothing, fs)
  | first :: rest =>
      match words [32] first with
      | [] => Ret (Nothing, fs)
      | name :: others =>
          if bool_decide (known_command name) then
            match rest with
            | [] => Ret (asks (name :: others) None, fs)
            | r :: _ =>
                '(file, fs) ← open fuel (str (target_path (unindent r))) (str [MODE_W]) fs;
                Ret (match file with None => FileNotFound (str (unindent r)) | Some f => asks (name :: others) (Some f) end, fs)
            end
          else Ret (CommandNotFound (str name), fs)
      end
  end.

Lemma skip_blanks_run n r : text r -> (length r < n)%nat -> skip_blanks n (str r) = Ret (str (unindent r)).
Proof.
  revert r. induction n as [|n IH]; intros r Ht Hn; [lia|]. cbn [skip_blanks]. change BLANK with (str [32]). rewrite beginsWith_str by (done || (apply Forall_singleton; lia)). outcome.
  destruct r as [|c r]; [by rewrite bool_decide_false by (intros [k Hk]; done)|]. cbn [unindent]. apply Forall_cons in Ht as [Hc Ht]. destruct (Z.eqb_spec c 32) as [->|Hne].
  - rewrite bool_decide_true by (by exists r). rewrite substring_str by lia. outcome. rewrite assign_str. outcome. change (String_length (str (32 :: r))) with (Z.of_nat (length (32 :: r))). cbn [length] in *.
    change (drop (Z.to_nat 1) (32 :: r)) with r. rewrite take_ge by lia. apply IH; [done|lia].
  - rewrite bool_decide_false by (intros [k Hk]; injection Hk as Hk; done). done.
Qed.

Lemma unindent_facts r : text r -> text (unindent r) /\ (length (unindent r) <= length r)%nat.
Proof. induction r as [|c r IH]; intros Ht; [done|]. cbn [unindent]. destruct (c =? 32); [|done]. apply Forall_cons in Ht as [_ Ht]. destruct (IH Ht) as [H1' H2']. split; [done|]. simpl. lia. Qed.

Lemma absolute_path_run r : text r -> text cwd -> Z.of_nat (length cwd + length r) + 1 < 2 ^ 31 -> absolute_path (str cwd) (str r) = Ret (str (target_path r)).
Proof.
  intros Hr Hc Hn. unfold absolute_path, target_path. change slash with (str [47]). rewrite beginsWith_str by (done || apply text_slash). outcome. destruct (bool_decide ([47] `prefix_of` r)); [apply assign_str|].
  rewrite endsWith_str by (try apply text_slash; try done; simpl; lia). outcome. unfold slashed. destruct (decide ([47] `suffix_of` cwd)) as [Hs|Hs].
  - rewrite bool_decide_true by done. cbn [negb]. outcome. apply append_str. lia.
  - rewrite bool_decide_false by done. cbn [negb]. rewrite append_str by (simpl; lia). outcome. apply append_str. rewrite length_app. simpl. lia.
Qed.

Lemma word_facts c l w : text l -> w ∈ words [c] l -> text w /\ (length w <= length l)%nat.
Proof.
  intros Ht Hw. split.
  - destruct (words_from_forall (fun c => 0 < c < 256) [c] [] l ltac:(done) Ht) as [Hf _]. rewrite Forall_forall in Hf. by apply Hf.
  - pose proof (total_words_from [c] [] l) as Hl. simpl in Hl. unfold words in Hw. revert Hl. generalize (length l). induction (words_from [c] [] l) as [|v ws IH]; intros k Hk; [by apply elem_of_nil in Hw|].
    apply elem_of_cons in Hw as [->|Hw]; simpl in Hk; [lia|]. apply (IH Hw). lia.
Qed.

Lemma name_is name w : text name -> text w -> equals (str name) (String_cstr (Some w)) = Ret (bool_decide (name = w)).
Proof. intros Hn Hw. rewrite str_cstr. by apply equals_str. Qed.

Lemma executeCommand_run l fs : m_inv commands -> text l -> text cwd -> Z.of_nat (length cwd + length l) + 1 < 2 ^ 31 -> (length l < fuel)%nat ->
  executeCommand commands (str cwd) fuel (str l) fs = interpret l fs.
Proof.
  intros Hinv Hl Hcwd Hn Hf. unfold executeCommand, interpret, lift. st_step. change GREATER with (str [62]). rewrite split_run by lia. fold (strings (words [62] l)). outcome. rewrite length_strings.
  pose proof (fun w => word_facts 62 l w Hl) as Hwf. destruct (words [62] l) as [|first rest]; [done|]. destruct (Hwf first ltac:(left)) as [Hft Hfl]. cbn [length]. decide_bool. rewrite (strings_at _ 0 first) by done. outcome.
  change BLANK with (str [32]). rewrite split_run by lia. fold (strings (words [32] first)). outcome. rewrite length_strings. pose proof (fun w => word_facts 32 first w Hft) as Hwa. destruct (words [32] first) as [|name others]; [done|]. cbn [length]. decide_bool.
  destruct (Hwa name ltac:(left)) as [Hnt _]. rewrite (strings_at _ 0 name) by done. outcome. rewrite m_containsKey_spec by done. outcome.
  assert (text HELP_WORD /\ text EXIT_WORD) as [Hth Hte] by (split; repeat (apply Forall_cons; split; [lia|]); by apply Forall_nil).
  unfold HELP, EXIT. rewrite !name_is by done. fold HELP_WORD EXIT_WORD. outcome.
  assert (Ek : negb (bool_decide (is_Some (m_view commands !! str name))) && negb (bool_decide (name = HELP_WORD)) && negb (bool_decide (name = EXIT_WORD)) = negb (bool_decide (known_command name))).
  { repeat case_bool_decide; unfold known_command in *; try done; tauto. }
  rewrite Ek. destruct (bool_decide (known_command name)); cbn [negb]; [|done]. destruct rest as [|r rest]; [done|]. cbn [length]. decide_bool. destruct (Hwf r ltac:(right; left)) as [Hrt Hrl].
  rewrite (strings_at _ 1 r) by done. outcome. rewrite skip_blanks_run by (done || lia). outcome. destruct (unindent_facts r Hrt) as [Hut Hul]. rewrite absolute_path_run by (done || lia). outcome. change (String_cstr (Some [MODE_W])) with (str [MODE_W]).
  destruct (open fuel (str (target_path (unindent r))) (str [MODE_W]) fs) as [[file fs']| | |]; [|done..]. outcome. by destruct file.
Qed.
End Lines.

(** ** Claims *)

(** C23. The shell edits lines: for every sequence of characters from the keyboard or the serial
    port (escape excepted) [onChar] returns, and the array [inputBuffer] holds the line of an editor in which
    a character is appended, a backspace or delete takes the last one back, a line feed or
    carriage return submits the line, and a line of 4095 characters takes only a backspace; no
    other byte of memory changes. A line that was submitted is what [operator >>] reads next. *)
Theorem shell_edits_lines (mix : Z -> Z -> Z -> Z -> Z) (mix_alpha : Z -> Z -> Z) (inputBuffer : Z)
    (Hbuf : 0 < inputBuffer /\ inputBuffer + INPUT_SIZE <= 2 ^ 32) (cs : list Z) :
  forall e s, edits inputBuffer e s -> Forall (fun c => 0 < c < 256 /\ c <> ESCAPE) cs ->
  exists s', foldM (onChar mix mix_alpha inputBuffer) cs s = Ret s' /\ edits inputBuffer (foldl (fun e c => edit c e) e cs) s' /\
    (forall x, outside inputBuffer x -> smem s' x = smem s x) /\
    (forall l, submitted (foldl (fun e c => edit c e) e cs) = Some l ->
       exists s'', read_line s' = Ret (l ++ [0], s'') /\ edits inputBuffer (mkEditor (eline (foldl (fun e c => edit c e) e cs)) None) s'').
Proof.
  induction cs as [|c cs IH]; intros e s He Hcs; cbn [foldM foldl].
  - exists s. split_and!; try done. intros l Hl. destruct He as [H1 H2 H3 H4]. destruct (H2 l Hl) as [Ha Hs]. unfold read_line. destruct (lock_free _ H3) as (lk & El & Hr). rewrite El, Ha, Hs. outcome. unfold str at 1 2. cbn [KString.buffer len]. rewrite bytes_all. outcome.
    eexists. split; [done|]. by split.
  - apply Forall_cons in Hcs as [[Hc Hesc] Hcs]. destruct (onChar_run mix mix_alpha inputBuffer Hbuf c e s He Hc Hesc) as (s1 & E1 & He1 & Hm1). rewrite E1. outcome.
    destruct (IH (edit c e) s1 He1 Hcs) as (s2 & E2 & He2 & Hm2 & Hr2). exists s2. split_and!; try done. intros x Hx. rewrite Hm2 by done. by apply Hm1.
Qed.

Definition fresh_shell : Shell :=
  mkShell (new_OutputStream (replicate 80 0) fresh_ansi) (fun x => if x =? 4095 then 0xC0 else 0) new_Spinlock false false 0 new_String new_ArrayList 0 0.

(** "lx", backspace, "s" and a line feed. *)
Lemma shell_edits_lines_witness : exists s' s'', foldM (onChar no_mix no_alpha 4096) [108; 120; 8; 115; 10] fresh_shell = Ret s' /\ read_line s' = Ret ([108; 115; 0], s'').
Proof.
  destruct (shell_edits_lines no_mix no_alpha 4096 ltac:(unfold INPUT_SIZE; lia) [108; 120; 8; 115; 10] (mkEditor [] None) fresh_shell) as (s' & E & _ & _ & Hr).
  - split; try done. split_and!; [apply Forall_nil_2|simpl; lia|]. intros i Hi. cbn [smem fresh_shell]. destruct (Z.eqb_spec (4096 + Z.of_nat i) 4095); [lia|done].
  - repeat (constructor; [unfold ESCAPE; lia|]). constructor.
  - destruct (Hr [108; 115]) as (s'' & E2 & _); [reflexivity|]. exists s', s''; split; [exact E|exact E2].
Defined.

(** A line is interpreted: the words in front of a '>' are the command and its arguments, the
    text behind it, without blanks in front and below the working directory unless it starts with
    a separator, the file that is opened for the output; unknown commands are reported and
    nothing else happens. *)
Theorem command_line_interpreted {C V M D : Type} `{MapOps C String V} `{!MapSpec C String V} `{MapOps M String Z} `{FsDriver D} `{FsNode D}
    (commands : C) (cwd l : list Z) (fuel : nat) (fs : Filesystem M D)
    (Hinv : m_inv commands) (Hl : text l) (Hcwd : text cwd) (Hn : Z.of_nat (length cwd + length l) + 1 < 2 ^ 31) (Hf : (length l < fuel)%nat) :
  executeCommand commands (str cwd) fuel (str l) fs = interpret commands cwd fuel l fs.
Proof. by apply executeCommand_run. Qed.

(** ** Deviations *)

(** A full line cannot be submitted. *)
Theorem full_line_stuck (e : editor) (Hfull : length (eline e) = 4095%nat) : edit 10 e = e.
Proof. unfold edit. by rewrite Hfull. Qed.

Lemma full_line_stuck_witness : edit 10 (mkEditor (replicate 4095 97) None) = mkEditor (replicate 4095 97) None.
Proof. apply full_line_stuck. reflexivity. Defined.

(** The history clears one byte in front of the array: the last byte of the pointer in
    [lastString]. *)
Definition history_shell : Shell := set_history (mkArrayList (Some (str [97] :: replicate 9 new_String)) 10 1) 1 fresh_shell.

Theorem history_clears_pointer_byte :
  (s ← showHistory no_mix no_alpha 4096 UP history_shell; Ret (smem history_shell 4095, smem s 4095)) = Ret (0xC0, 0).
Proof. vm_compute. reflexivity. Qed.
